(* ===== verification/_CoqProject ===== *)
-Q . S2P
Prelude.v
Errors.v
Canary.v
BufLock.v
World.v
Memory.v
Frame.v
Effects.v
Sample.v
Quarantine.v
Janitor.v
Process.v
SealAuth.v
SecureBuffer.v
BufferAccess.v
BufferSpec.v
BufferOps.v
BufferBorrow.v
BufferReads.v
BufferWrites.v
BufferDestroy.v
BufferTrace.v
BufferNew.v
BufferTheorems.v
BufferIsolation.v
ArenaList.v
SecureArena.v
ArenaSpec.v
ArenaOps.v
ArenaLife.v
ArenaTheorems.v
Capabilities.v
Termination.v
KeyErrors.v
Bytes.v
ModReduce.v
Writer.v
RsaKey.v
Pem.v
Utf8.v
Regexp.v
Sanitizer.v
Blowfish.v
OpenSSHCipher.v
OpenSSH.v
Marshal.v
Verdict.v
Hmac.v
Kdf.v
Pbkdf2.v
Scrypt.v
Pbes2.v
Httpauth.v
Handler.v
Blake2b.v
Argon2.v
Argon2Rfc.v
Argon2Run.v
Argon2Layout.v
Argon2Kdf.v
Argon2Pool.v
Passphrase.v
