(* ===== verification/Prelude.v ===== *)
(** * secmem: protected memory for secrets, verified

    A development about the Go module under src/: its core package (buffers and
    arenas of locked, guarded, wipeable memory), the part of secmem-crypto that
    reads and writes OpenSSH key files inside such memory, and the key
    derivations it runs there, down to an encrypted PKCS#8 key file, and the two
    packages that keep a credential out of messages: httpauth and redact.

    ** How the program fits together

    A [SecureBuffer] (securebuf.go) owns one region a platform port allocated
    (mlock_linux.go, mlock_windows.go), guarded by a readers-writer lock
    (buflock.go), with a canary pattern in the slack behind its bytes
    (canary.go). Every region is registered with a process-wide janitor
    (registry.go), which wipes it on release, or in place when the process is
    told to stop (terminationwipe.go). A sealed buffer has its pages closed and
    its bytes authenticated under a process-wide prekey (sealauth.go) that is
    itself such a region. Released reservations pass through a bounded
    quarantine (quarantine.go). A [SecureArena] (securearena.go) is one region
    cut into slots that are handed out in first-in first-out order under
    generation-counted handles. secmem-crypto keeps keys in such buffers; its
    OpenSSH path reads a file (parse.go, parse_openssh.go, parse_encrypted.go)
    or writes one (marshal_openssh.go, openssh_wire.go) without leaving the key
    anywhere else. Its MAC and key derivations (inplacehash.go, hmac_inplace.go,
    hkdf_inplace.go, pbkdf2_inplace.go, scrypt_inplace.go) work in one scratch
    region each, and pbes2.go opens a PKCS#8 file with them. Its Argon2
    (kdf.go, argon2_workspace.go, internal/argon2) is a fork whose whole working
    state is laid over one region, on the heap for one call or in a locked
    buffer that is reused, alone or in a pool that hands such workspaces to
    goroutines. passphrase.go draws words from an embedded list into a buffer,
    by a gather that reads the whole list for every word. httpauth
    (transport.go) puts a credential held in a buffer on the requests for one
    host and takes every other request through untouched; redact cleans error
    texts (sanitizer.go) and log records (handler.go) of secrets.

    ** The state and the effects

    [World.world] is what the process can observe of itself: the mappings with
    their bytes and protection, atomic flags, lock counters, the canary, the
    janitor, the quarantine, the prekey, the buffers and the arenas. A function
    of the source is a computation [Prelude.M world A]: it returns, panics with
    the deferred calls run, faults on a page whose protection forbids the
    access, or blocks on a lock. The class [World.Kernel] supplies what the
    operating system and package rand answer, and the class of laws
    [World.KernelOk] says that a mapping it hands out is fresh and zero; every
    system call may fail, at every point, and the answers may differ from call
    to call. Theorems of this part are weakest preconditions ([Prelude.wp]),
    which exclude faults and blocking.

    ** The files

    - Prelude: outcomes, weakest preconditions and their tactics, slices.
      Errors: error values and [errors.Is]. World, Memory: the state and the
      two ports. Frame: footprints, what an operation may touch. Effects:
      properties of the process that every kernel call of the memory layer
      keeps, such as that nothing new in memory is other than zero. Sample: two concrete kernels, on which every theorem with hypotheses is
      instantiated.
    - Canary, BufLock, Quarantine, Janitor, Process, SealAuth: the components a
      buffer is made of. BufLock is a step relation for any number of
      goroutines and refines an abstract readers-writer lock.
    - SecureBuffer and BufferAccess hold the operations (securebuf.go,
      closedatrest.go, options.go, securebuf_access.go); BufferSpec,
      BufferOps, BufferBorrow, BufferReads, BufferWrites, BufferDestroy,
      BufferTrace and BufferNew the invariant [buf_ok] and one lemma per
      operation (BufferTrace: what a constructor that gives up leaves behind);
      BufferTheorems the theorems, BufferIsolation what one buffer's calls
      leave alone of another.
    - ArenaList (the slot list, refined to an abstract queue), SecureArena,
      ArenaSpec, ArenaOps, ArenaLife, ArenaTheorems: the same for the arena.
    - Capabilities (capabilities.go) and Termination (terminationwipe.go, the
      handler's goroutine as a step relation).
    - KeyErrors, Bytes, Writer: error values, big-endian magnitudes and the two
      write cursors of secmem-crypto. ModReduce (modreduce.go), RsaKey
      (rsabounds.go and the DER writer of parse_openssh.go), Pem, Blowfish
      (internal/bcryptpbkdf), OpenSSHCipher (the ciphers and bcrypt_pbkdf),
      OpenSSH (the reader), Marshal (the writer and the round trip), Verdict
      (what a failing passphrase learns).
    - Hmac: HMAC (RFC 2104) and HKDF (RFC 5869) in a scratch region. Kdf: the
      exported HMACInto and HKDFInto, on the buffers of the first part. Pbkdf2,
      Scrypt: the two password KDFs against RFC 8018 and RFC 7914. Pbes2: the
      algorithm identifiers, the decryption and the padding of an encrypted
      PKCS#8 key.
    - Blake2b: the portable BLAKE2b of internal/argon2 against RFC 7693. Argon2:
      the rest of that package, its workspace as typed views of one list of
      bytes and the workers of a slice as machines whose turns any schedule
      interleaves. Argon2Rfc: RFC 9106 and the steps that equal it; Argon2Run:
      the whole derivation; Argon2Layout: the region. Argon2Kdf: the exported
      entry points and the locked workspace, on the buffers of the first part.
      Argon2Pool: the pool's construction, and its Derive and Destroy as one
      step relation over any number of goroutines, a buffered channel and the
      mutexes ([Derive_step], [Destroy_step]; a goroutine's place is a [pc]).
    - Passphrase (passphrase.go): the word list, the gather with its trace of
      accesses, the draw, and the generator on the buffers of the first part.
    - Utf8 (Go strings as byte lists, their runes, the unicode tables), Regexp
      (the parser and a leftmost-first matcher for the syntax the patterns
      use), Sanitizer (redact/sanitizer.go with its patterns as the source
      writes them), Handler (redact/handler.go: keys, the reflection walk over
      a value, groups and derived handlers), Httpauth (httpauth/transport.go).

    ** What the theorems show

    - Canaries: an armed layout is intact exactly until one of its bytes is
      changed. The lock: refinement, exclusion, no deadlock, no overflow of its
      32-bit word. The quarantine: eviction is
      first-in first-out and within the limits; a retired range is inaccessible.
    - The janitor: a release wipes before it unmaps, and its error says exactly
      which of its calls were refused; the emergency wipe zeroes or reports
      every region nobody borrows without waiting, and the rest as their locks
      come free, so that after its second pass every registration there was is
      settled; keys are fresh.
    - Buffers: each operation in every state and under every pattern of kernel
      failures, Seal and Unseal as inverses that end under exactly the
      protection of the buffer's mode, tampering found up to a collision of the
      hash, borrows that end with the lock free and closed-at-rest pages shut
      however the callback ends (a refused call to shut them is in the error),
      construction that leaves no trace when it fails (short of two refused
      calls, [BufferTrace.no_trace]), destruction after which everything is refused, and no effect of any
      sequence of calls on one buffer on another.
    - Arenas: argument bounds without overflow, handles unique, reuse in order,
      borrows confined to their slot, release that wipes and reports.
    - The probe reports what was obtained. The termination handler wipes before
      it re-raises or exits, and always comes to rest.
    - secmem-crypto: the constant-time reduction is [mod]; the DER is the
      minimal encoding of RFC 8017; a written key file is read back, protected
      or not; and for fixed clear parts a protected file that does not open
      gives one error, whatever was wrong.
    - The derivations: HMACInto and HKDFInto write exactly the RFC's bytes into
      the destination buffer, wipe their scratch, and answer an error for each
      argument the code refuses; the in-place PBKDF2 and scrypt equal their
      specifications on every input within the code's bounds; an encrypted key
      opens to exactly the plaintext the declared scheme decrypts to, and every
      other input is one of the errors.
    - Argon2: a derivation is the function of RFC 9106 for every order in which
      the workers of a slice run; the views tile the region and a wipe leaves
      nothing of a derivation; the entry points refuse in the order of their
      checks and otherwise write exactly the tag; the locked workspace borrows
      its two buffers in the order of their keys and is zero again afterwards.
      The pool: in every interleaving nothing panics, a workspace is with one
      goroutine at a time and outlives the derivation that holds it, there is
      no deadlock, and the calls end after a bounded number of steps with the
      pool whole or wholly destroyed.
    - Passphrases: the gather copies the named entry and touches the same
      places for every index; the generator's buffer holds the drawn words and
      nothing else; an error names its cause, and a failure touches nothing
      that existed before.
    - The transport: which hosts and headers the constructors refuse, and
      that a round trip sends the credential to its own host only, wipes the
      copy and reports every refusal. The sanitizer: exactly which bytes it
      replaces and by what, and that a second pass may replace more. The
      handler: a record it emits holds the sanitizer's exact answers and is clean
      of every sensitive attribute, and two records that differ only there are emitted alike.

    ** Bounds and fuel

    Loops of the source are recursions on a list or on its length: the PEM line
    loop and header loop, the ciphers' block loops and base64 take the length
    of their input as fuel, and every turn consumes at least one element. The
    matcher's fuel is computed from the expression and the text, and
    [FindAll_enough] shows that a search never runs out of turns. The workers
    of Argon2 need no fuel: a schedule is a list of turns, and the wait at the
    end of a slice gives every worker the turns it has left. The pool's steps
    are a relation, with a measure that bounds every run ([steps_left]). The
    rejection sampling of a draw takes a number of attempts, and the theorem on
    the generator speaks of draws that return; a reader that never gives a
    value in range would make the code itself wait for ever.
    [derLengthOctets] shifts a 64-bit value at most eight times. Integers are
    [Z] with the width written out where it can matter: int and uint64 of the
    arena's arithmetic and the janitor's keys, uint32 of the lock word, of
    Blowfish and ChaCha20, 64-bit limbs in ModReduce, bytes everywhere else.

    ** Parameters

    SHA-512, AES's block function, Poly1305, Ed25519, ECDSA's and RSA's parsers
    of a key are parameters with the lengths they document; no theorem assumes
    them to be secure, and tampering with a sealed buffer is stated as the
    collision it exhibits. For secmem-crypto the allocation of a buffer is a
    function of its size that may refuse, and a buffer's content is the list of
    its bytes: the buffers of one call are fresh and private to it, and their
    life cycle is the subject of the first part. The one-shot BLAKE2b functions
    of x/crypto ([Argon2.Blake2bSums]) and the SSE routines of blamka_amd64.s
    ([Argon2.Blamka]) have as their laws that they compute what the portable
    code does, and the portable code is an instance of each. Locating and capping a PKCS#1
    key in a given DER belongs to the parameter for RSA's parser. For httpauth
    and redact: the Unicode tables beyond ASCII ([Utf8.Unicode], with the laws
    the code needs and an instance), the base RoundTripper, the inner log
    handler, a value's own String, Error and marshalling methods, and what
    other goroutines do to a token between its two reads; LogValue results are
    finite trees. For passphrases: the embedded word list, and what the
    random source returns at each read. What one call on a workspace of the pool
    returns is the environment's choice there.

    ** Not modelled

    Stack, register and preemption clearing (scrub*.go and the assembly) and the
    reflection that wipes standard-library key schedules, which act below the
    level of values; finalizers and log records; the Darwin port and the stub;
    hardening calls; Secret and scopes; PKCS#8 and SEC1 inside the decrypted
    key; signing and the AEADs of secmem-crypto; secmem-lint, whose inputs are the compiler's
    types and output. *)
From stdpp Require Export base tactics list list_numbers gmap strings.
From Stdlib Require Export ZArith Lia.

#[global] Open Scope Z_scope.

(** ** Outcomes

    A Go function that touches protected memory can end in four ways: it
    returns, it panics (deferred functions have run, the state survives), it
    takes a hardware fault on a page whose protection forbids the access, or it
    waits for a lock nobody will release. *)

Inductive outcome (S A : Type) : Type :=
| Ret (a : A) (s : S)
| Panic (s : S)
| Fault
| Block.
Arguments Ret {S A} a s.
Arguments Panic {S A} s.
Arguments Fault {S A}.
Arguments Block {S A}.

(** State passing with these outcomes. *)
Definition M (S A : Type) : Type := S -> outcome S A.

#[global] Instance M_ret {S} : MRet (M S) := fun A a s => Ret a s.

#[global] Instance M_bind {S} : MBind (M S) := fun A B k m s =>
  match m s with
  | Ret a s' => k a s'
  | Panic s' => Panic s'
  | Fault => Fault
  | Block => Block
  end.

Definition mget {S} : M S S := fun s => Ret s s.
Definition gets {S A} (f : S -> A) : M S A := fun s => Ret (f s) s.
Definition modify {S} (f : S -> S) : M S unit := fun s => Ret tt (f s).
Definition fault {S A} : M S A := fun _ => Fault.
Definition block {S A} : M S A := fun _ => Block.
Definition panic {S A} : M S A := fun s => Panic s.

(** [defer m fin] runs [fin] after [m], on a return and on a panic alike,
    as a Go [defer fin()] placed in front of [m] does. *)
Definition defer {S A} (m : M S A) (fin : M S unit) : M S A := fun s =>
  match m s with
  | Ret a s' =>
      match fin s' with
      | Ret _ s'' => Ret a s''
      | Panic s'' => Panic s''
      | Fault => Fault
      | Block => Block
      end
  | Panic s' =>
      match fin s' with
      | Ret _ s'' => Panic s''
      | Panic s'' => Panic s''
      | Fault => Fault
      | Block => Block
      end
  | Fault => Fault
  | Block => Block
  end.

(** ** Weakest preconditions

    [wp m Q R s]: run from [s], [m] neither faults nor blocks; it returns with
    [Q] or panics with [R]. *)
Definition wp {S A} (m : M S A) (Q : A -> S -> Prop) (R : S -> Prop) (s : S) : Prop :=
  match m s with
  | Ret a s' => Q a s'
  | Panic s' => R s'
  | Fault => False
  | Block => False
  end.

(** The common case: no callback is involved, so nothing panics. *)
Definition returns {S A} (m : M S A) (s : S) (Q : A -> S -> Prop) : Prop :=
  wp m Q (fun _ => False) s.

Section wp_rules.
Context {S : Type}.
Implicit Types s : S.

Lemma wp_ret {A} (a : A) (Q : A -> S -> Prop) (R : S -> Prop) s :
  Q a s -> wp (mret a) Q R s.
Proof. done. Qed.

Lemma wp_bind {A B} (m : M S A) (k : A -> M S B) (Q : B -> S -> Prop) (R : S -> Prop) s :
  wp m (fun a s' => wp (k a) Q R s') R s -> wp (m ≫= k) Q R s.
Proof. unfold wp, mbind, M_bind. by destruct (m s). Qed.

Lemma wp_bind_inv {A B} (m : M S A) (k : A -> M S B) (Q : B -> S -> Prop) (R : S -> Prop) s :
  wp (m ≫= k) Q R s -> wp m (fun a s' => wp (k a) Q R s') R s.
Proof. unfold wp, mbind, M_bind. by destruct (m s). Qed.

Lemma wp_get (Q : S -> S -> Prop) (R : S -> Prop) s : Q s s -> wp mget Q R s.
Proof. done. Qed.

Lemma wp_gets {A} (f : S -> A) (Q : A -> S -> Prop) (R : S -> Prop) s :
  Q (f s) s -> wp (gets f) Q R s.
Proof. done. Qed.

Lemma wp_modify (f : S -> S) (Q : unit -> S -> Prop) (R : S -> Prop) s :
  Q tt (f s) -> wp (modify f) Q R s.
Proof. done. Qed.

Lemma wp_mono {A} (m : M S A) (Q Q' : A -> S -> Prop) (R R' : S -> Prop) s :
  wp m Q R s -> (forall a s', Q a s' -> Q' a s') -> (forall s', R s' -> R' s') ->
  wp m Q' R' s.
Proof. unfold wp. destruct (m s); auto. Qed.

Lemma wp_and {A} (m : M S A) (Q Q' : A -> S -> Prop) (R R' : S -> Prop) s :
  wp m Q R s -> wp m Q' R' s -> wp m (fun a s' => Q a s' /\ Q' a s') (fun s' => R s' /\ R' s') s.
Proof. unfold wp. by destruct (m s). Qed.

(** The run itself, beside what it establishes. *)
Lemma returns_eq {A} (m : M S A) (Q : A -> S -> Prop) s :
  returns m s Q -> returns m s (fun a s' => Q a s' /\ m s = Ret a s').
Proof. unfold returns, wp. by destruct (m s). Qed.

(** A routine with no panicking callback fits any panic condition. *)
Lemma wp_returns {A} (m : M S A) (Q Q' : A -> S -> Prop) (R : S -> Prop) s :
  returns m s Q -> (forall a s', Q a s' -> Q' a s') -> wp m Q' R s.
Proof. intros H HQ. eapply wp_mono; [exact H | exact HQ | done]. Qed.

Lemma wp_defer {A} (m : M S A) (fin : M S unit) (Q : A -> S -> Prop) (R : S -> Prop) s :
  wp m (fun a s' => wp fin (fun _ => Q a) R s')
       (fun s' => wp fin (fun _ => R) R s') s ->
  wp (defer m fin) Q R s.
Proof.
  unfold wp, defer. destruct (m s) as [a s'|s'| |]; [| |done|done];
    by destruct (fin s').
Qed.

Lemma returns_run {A} (m : M S A) s (Q : A -> S -> Prop) :
  returns m s Q -> exists a s', m s = Ret a s' /\ Q a s'.
Proof. unfold returns, wp. destruct (m s) as [a s'|s'| |]; [eauto|done..]. Qed.

Lemma returns_ret {A} (m : M S A) s a s' (Q : A -> S -> Prop) :
  returns m s Q -> m s = Ret a s' -> Q a s'.
Proof. unfold returns, wp. intros H E. by rewrite E in H. Qed.
End wp_rules.

(** [wpstep] reduces the head of a [wp] goal by one structural rule. *)
Ltac wpstep :=
  lazymatch goal with
  | |- returns _ _ _ => unfold returns
  | |- wp (_ ≫= _) _ _ _ => apply wp_bind
  | |- wp (mret _) _ _ _ => apply wp_ret
  | |- wp mget _ _ _ => apply wp_get
  | |- wp (gets _) _ _ _ => apply wp_gets
  | |- wp (modify _) _ _ _ => apply wp_modify
  | |- wp (defer _ _) _ _ _ => apply wp_defer
  end.
Ltac wpsteps := repeat (wpstep; cbv beta).

(** ** Sub-slices

    [lsub lo hi l] is Go's [l[lo:hi]]; [lset lo bs l] is [l] after
    [copy(l[lo:], bs)] of bytes that fit. Offsets are Go ints. *)
Definition lsub {A} (lo hi : Z) (l : list A) : list A :=
  take (Z.to_nat (hi - lo)) (drop (Z.to_nat lo) l).

Definition lset {A} (lo : Z) (bs l : list A) : list A :=
  take (Z.to_nat lo) l ++ bs ++ drop (Z.to_nat lo + length bs) l.

(** [len(l)] as a Go int. *)
Definition zlen {A} (l : list A) : Z := Z.of_nat (length l).

Section slices.
Context {A : Type}.
Implicit Types l bs : list A.

Lemma zlen_nonneg l : 0 <= zlen l.
Proof. unfold zlen. lia. Qed.

Lemma zlen_cons x l : zlen (x :: l) = 1 + zlen l.
Proof. unfold zlen. cbn. lia. Qed.

Lemma zlen_app l1 l2 : zlen (l1 ++ l2) = zlen l1 + zlen l2.
Proof. unfold zlen. rewrite length_app. lia. Qed.

Lemma zlen_replicate n (x : A) : 0 <= n -> zlen (replicate (Z.to_nat n) x) = n.
Proof. intros. unfold zlen. rewrite length_replicate. lia. Qed.

Lemma length_lsub lo hi l :
  0 <= lo -> lo <= hi -> hi <= zlen l -> length (lsub lo hi l) = Z.to_nat (hi - lo).
Proof. unfold lsub, zlen. intros. rewrite length_take, length_drop. lia. Qed.

Lemma zlen_lsub lo hi l :
  0 <= lo -> lo <= hi -> hi <= zlen l -> zlen (lsub lo hi l) = hi - lo.
Proof. intros. unfold zlen at 1. rewrite length_lsub by done. lia. Qed.

Lemma length_lset lo bs l :
  0 <= lo -> lo + zlen bs <= zlen l -> length (lset lo bs l) = length l.
Proof.
  unfold lset, zlen. intros. rewrite !length_app, length_take, length_drop. lia.
Qed.

Lemma zlen_lset lo bs l :
  0 <= lo -> lo + zlen bs <= zlen l -> zlen (lset lo bs l) = zlen l.
Proof. intros. unfold zlen at 1. by rewrite length_lset. Qed.

Lemma lookup_lsub lo hi l (j : nat) :
  0 <= lo -> lo <= hi -> (j < Z.to_nat (hi - lo))%nat ->
  lsub lo hi l !! j = l !! (Z.to_nat lo + j)%nat.
Proof. unfold lsub. intros. rewrite lookup_take_lt by lia. apply lookup_drop. Qed.

Lemma lookup_lset_in lo bs l (j : nat) :
  0 <= lo -> lo + zlen bs <= zlen l -> lo <= Z.of_nat j < lo + zlen bs ->
  lset lo bs l !! j = bs !! (j - Z.to_nat lo)%nat.
Proof.
  unfold lset, zlen. intros ?? [??].
  rewrite lookup_app_r, length_take by (rewrite length_take; lia).
  rewrite lookup_app_l by lia. f_equal. lia.
Qed.

Lemma lookup_lset_out lo bs l (j : nat) :
  0 <= lo -> lo + zlen bs <= zlen l -> Z.of_nat j < lo \/ lo + zlen bs <= Z.of_nat j ->
  lset lo bs l !! j = l !! j.
Proof.
  unfold lset, zlen. intros ?? [?|?].
  - rewrite lookup_app_l by (rewrite length_take; lia). apply lookup_take_lt. lia.
  - rewrite lookup_app_r, length_take by (rewrite length_take; lia).
    rewrite lookup_app_r, lookup_drop by lia. f_equal. lia.
Qed.

Lemma lsub_lset_same lo bs l :
  0 <= lo -> lo + zlen bs <= zlen l -> lsub lo (lo + zlen bs) (lset lo bs l) = bs.
Proof.
  intros Hlo Hle. apply list_eq. intros j.
  destruct (decide (j < length bs)%nat).
  - rewrite lookup_lsub by (unfold zlen in *; lia).
    rewrite lookup_lset_in by (unfold zlen in *; lia). f_equal. lia.
  - rewrite !lookup_ge_None_2; [done|lia|].
    rewrite length_lsub by (rewrite ?zlen_lset by done; unfold zlen in *; lia).
    unfold zlen in *. lia.
Qed.

Lemma lsub_full l : lsub 0 (zlen l) l = l.
Proof. unfold lsub, zlen. rewrite drop_0. apply take_ge. lia. Qed.

Lemma lset_full bs l : length bs = length l -> lset 0 bs l = bs.
Proof.
  unfold lset. intros E. rewrite take_0, drop_ge by lia. cbn. apply app_nil_r.
Qed.

Lemma lset_nil lo l : 0 <= lo <= zlen l -> lset lo [] l = l.
Proof. unfold lset, zlen. cbn. rewrite Nat.add_0_r. intros. apply take_drop. Qed.

Lemma lsub_lset_disj lo hi o bs l :
  0 <= o -> o + zlen bs <= zlen l -> 0 <= lo -> lo <= hi -> hi <= zlen l ->
  hi <= o \/ o + zlen bs <= lo ->
  lsub lo hi (lset o bs l) = lsub lo hi l.
Proof.
  intros. apply list_eq. intros j.
  destruct (decide (j < Z.to_nat (hi - lo))%nat).
  - rewrite !lookup_lsub by lia. apply lookup_lset_out; lia.
  - rewrite !lookup_ge_None_2; [done|..]; rewrite length_lsub; rewrite ?zlen_lset; lia.
Qed.
End slices.

Create HintDb secmem discriminated.
Create Rewrite HintDb lens.
#[export] Hint Rewrite @zlen_app @length_app @length_replicate @length_take @length_drop : lens.

(** Zero-filled memory. *)
Definition zeros (n : Z) : list Z := replicate (Z.to_nat n) 0.

(** [copy(dst[off:], src)] into an array, cut to the room there is. *)
Definition copy_at (off : Z) (src dst : list Z) : list Z :=
  lset off (firstn (Z.to_nat (zlen dst - off)) src) dst.

(** [a[i] ^= c] for the first [n] bytes. *)
Definition xor_first (n : Z) (c : Z) (a : list Z) : list Z :=
  (Z.lxor c <$> firstn (Z.to_nat n) a) ++ drop (Z.to_nat n) a.

(** A piece written over the middle. *)
Lemma lset_mid {A} lo (a b c bs : list A) : zlen a = lo -> length bs = length b -> lset lo bs (a ++ b ++ c) = a ++ bs ++ c.
Proof.
  intros <- E. unfold lset, zlen. rewrite Nat2Z.id, take_app_length. f_equal. f_equal.
  rewrite drop_app_ge by lia. replace (length a + length bs - length a)%nat with (length b) by lia. apply drop_app_length.
Qed.

Lemma zlen_zeros n : 0 <= n -> zlen (zeros n) = n.
Proof. apply zlen_replicate. Qed.

Definition all_zero (l : list Z) : Prop := Forall (fun b => b = 0) l.

Lemma copy_at_app (a b src : list Z) :
  zlen src <= zlen b -> copy_at (zlen a) src (a ++ b) = a ++ src ++ drop (length src) b.
Proof.
  intros Hle. unfold copy_at, lset, zlen in *. rewrite length_app.
  rewrite (take_ge src) by lia. rewrite Nat2Z.id.
  rewrite take_app_length. rewrite drop_app_ge by lia. do 3 f_equal. lia.
Qed.

Lemma xor_first_app c (a b : list Z) :
  xor_first (zlen a) c (a ++ b) = (Z.lxor c <$> a) ++ b.
Proof.
  unfold xor_first, zlen. rewrite Nat2Z.id.
  rewrite firstn_app, Nat.sub_diag, firstn_all. cbn. rewrite app_nil_r.
  by rewrite drop_app_length.
Qed.

Lemma zeros_split n k : 0 <= k <= n -> zeros n = zeros k ++ zeros (n - k).
Proof. intros. unfold zeros. rewrite <- replicate_add. f_equal. lia. Qed.

Lemma drop_zeros n (k : nat) : Z.of_nat k <= n -> drop k (zeros n) = zeros (n - Z.of_nat k).
Proof. intros. unfold zeros. rewrite drop_replicate. f_equal. lia. Qed.

Lemma lsub_zeros lo hi n : 0 <= lo -> lo <= hi -> hi <= n -> lsub lo hi (zeros n) = zeros (hi - lo).
Proof. intros. unfold lsub, zeros. rewrite drop_replicate, take_replicate. f_equal. lia. Qed.

Lemma all_zero_zeros n : all_zero (zeros n).
Proof. apply Forall_replicate. done. Qed.

Lemma all_zero_eq l : all_zero l -> l = zeros (zlen l).
Proof.
  unfold zeros, zlen. rewrite Nat2Z.id. induction 1 as [|x l -> _ IH]; cbn; congruence.
Qed.

(** ** Machine integers: Go's [int] on the 64-bit ports, and [uint64]. *)
Definition MaxInt : Z := 2 ^ 63 - 1.
Definition MinInt : Z := - 2 ^ 63.
Definition MaxInt32 : Z := 2 ^ 31 - 1.
Definition wrap64 (z : Z) : Z := (z + 2 ^ 63) mod 2 ^ 64 - 2 ^ 63.
Definition uwrap64 (z : Z) : Z := z mod 2 ^ 64.
Definition wrap32 (z : Z) : Z := (z + 2 ^ 31) mod 2 ^ 32 - 2 ^ 31.

Lemma wrap64_id z : MinInt <= z <= MaxInt -> wrap64 z = z.
Proof. unfold wrap64, MinInt, MaxInt. intros. rewrite Z.mod_small; lia. Qed.

Lemma wrap32_id z : - 2 ^ 31 <= z <= MaxInt32 -> wrap32 z = z.
Proof. unfold wrap32, MaxInt32. intros. rewrite Z.mod_small; lia. Qed.

Lemma uwrap64_id z : 0 <= z < 2 ^ 64 -> uwrap64 z = z.
Proof. apply Z.mod_small. Qed.
