(* ===== verification/Errors.v ===== *)
(** * Go error values

    errors.go's sentinels, the three ways the code builds errors from them
    ([errors.New], [fmt.Errorf] with [%w], [errors.Join]) and [errors.Is].
    A nil error is [None : option gerr]. *)
From S2P Require Import Prelude.

(** The package's sentinel errors, plus the two of package io it tests for. *)
Inductive sentinel : Type :=
| ErrDestroyed
| ErrWiped
| ErrSealed
| ErrReadOnly
| ErrArenaFull
| ErrSlotReleased
| ErrNoSecureMemory
| ErrIntegrity
| ErrCanaryViolation
| errWipeSkipped
| errJanitorKeyCollision
| EOF
| ErrUnexpectedEOF.

#[global] Instance sentinel_eq_dec : EqDecision sentinel.
Proof. solve_decision. Defined.

(** An error value: a sentinel, a plain message, an OS error number, a message
    wrapping other errors, or a join. *)
Inductive gerr : Type :=
| Sent (s : sentinel)
| Msg (m : string)
| Errno (n : Z)
| Wrap (ctx : string) (es : list gerr)
| Joined (es : list gerr).

(** What a sentinel itself wraps: [ErrWiped] is built with
    [fmt.Errorf("...: %w", ErrDestroyed)], the others with [errors.New]. *)
Definition sentinel_unwrap (s : sentinel) : list sentinel :=
  match s with
  | ErrWiped => [ErrDestroyed]
  | _ => []
  end.

(** [errors.Is]: the error itself or anything in its unwrap tree. *)
Fixpoint errorsIs (e : gerr) (t : sentinel) : bool :=
  match e with
  | Sent s => bool_decide (s = t) || existsb (fun u => bool_decide (u = t)) (sentinel_unwrap s)
  | Msg _ | Errno _ => false
  | Wrap _ es | Joined es => existsb (fun e' => errorsIs e' t) es
  end.

(** [errors.Is] on a possibly nil error. *)
Definition is_err (oe : option gerr) (t : sentinel) : bool :=
  match oe with Some e => errorsIs e t | None => false end.

(** [errors.Join]: nil when every argument is nil. *)
Definition errorsJoin (es : list (option gerr)) : option gerr :=
  match omap id es with
  | [] => None
  | l => Some (Joined l)
  end.

(** [fmt.Errorf("ctx: %w", err)] for a non-nil err. *)
Definition errorf (ctx : string) (e : gerr) : gerr := Wrap ctx [e].

Lemma is_err_join es t : is_err (errorsJoin es) t = existsb (fun oe => is_err oe t) es.
Proof.
  unfold errorsJoin. transitivity (existsb (fun e => errorsIs e t) (omap id es)).
  - by destruct (omap id es).
  - induction es as [|[e|] es IH]; cbn; [done| |done]. by rewrite IH.
Qed.

Lemma errorsJoin_None es : errorsJoin es = None <-> Forall (fun oe => oe = None) es.
Proof.
  unfold errorsJoin. split.
  - induction es as [|[e|] es IH]; cbn; intros H; [constructor|done|].
    constructor; [done|]. apply IH. done.
  - induction 1 as [|oe es -> _ IH]; cbn; [done|]. done.
Qed.

Lemma errorf_is ctx e t : errorsIs (errorf ctx e) t = errorsIs e t.
Proof. cbn. apply orb_false_r. Qed.
