(* ===== verification/Canary.v ===== *)
(** * The overflow canary (canary.go)

    The page slack behind a buffer and the strips between arena slots carry a
    repeating 16-byte pattern. This file models the pattern, the zone
    descriptor [canaryLayout] with its iteration, arming and verification, and
    proves what verification detects. The process-global pattern and the
    outcome of its one-time initialisation are arguments here; the stateful
    [canaryInit] is in [World]. *)
From S2P Require Import Prelude Errors.

Definition canaryLen : Z := 16.

(** [canaryPattern[i%canaryLen]]. *)
Definition patternAt (pat : list Z) (i : Z) : Z := pat !!! Z.to_nat (i mod canaryLen).

(** The loop of [fillCanary] over a zone of [n] bytes. *)
Definition patternBytes (pat : list Z) (n : nat) : list Z :=
  (fun i : nat => patternAt pat (Z.of_nat i)) <$> seq 0 n.

(** [fillCanary]: refuse when the pattern could not be generated, else
    overwrite [b] with the repeating pattern. *)
Definition fillCanary (initErr : option gerr) (pat b : list Z) : option gerr * list Z :=
  match initErr with
  | Some e => (Some e, b)
  | None => (None, patternBytes pat (length b))
  end.

(** The accumulator loop of [canaryIntact]: [acc |= b[i] ^ pattern[i%16]]. *)
Fixpoint canaryAcc (pat b : list Z) (i acc : Z) : Z :=
  match b with
  | [] => acc
  | x :: b' => canaryAcc pat b' (i + 1) (Z.lor acc (Z.lxor x (patternAt pat i)))
  end.

Definition canaryIntact (initErr : option gerr) (pat b : list Z) : bool :=
  if (zlen b =? 0) then true
  else match initErr with
       | Some _ => false
       | None => canaryAcc pat b 0 0 =? 0
       end.

(** The zone descriptor. *)
Record canaryLayout : Type := CanaryLayout {
  cl_stride : Z;
  cl_slotSize : Z;
  cl_count : Z;
  cl_tail : Z * Z
}.

Definition canaryLayout_zero : canaryLayout := CanaryLayout 0 0 0 (0, 0).

Definition bufferCanary (usable innerLen : Z) : canaryLayout :=
  if (innerLen <=? usable) then canaryLayout_zero
  else CanaryLayout 0 0 0 (usable, innerLen).

Definition arenaCanary (stride slotSize count innerLen : Z) : canaryLayout :=
  let used := count * stride in
  CanaryLayout stride slotSize count
    (if (used <? innerLen) then (used, innerLen) else (0, 0)).

(** [forEachZone]: the callback returns whether to continue. The strips loop
    runs [count] times; [n] is what is left of it and [i] the loop variable. *)
Fixpoint forEachStrip {St} (c : canaryLayout) (fn : Z -> Z -> St -> bool * St)
    (n : nat) (i : Z) (st : St) : bool * St :=
  match n with
  | O => (true, st)
  | S n' =>
      let lo := i * cl_stride c + cl_slotSize c in
      let hi := (i + 1) * cl_stride c in
      if (hi <=? lo) then forEachStrip c fn n' (i + 1) st
      else let '(go, st') := fn lo hi st in
           if go then forEachStrip c fn n' (i + 1) st' else (false, st')
  end.

Definition forEachZone {St} (c : canaryLayout) (fn : Z -> Z -> St -> bool * St) (st : St) : St :=
  let '(go, st') := forEachStrip c fn (Z.to_nat (cl_count c)) 0 st in
  if go then
    if ((cl_tail c).1 <? (cl_tail c).2) then (fn (cl_tail c).1 (cl_tail c).2 st').2 else st'
  else st'.

Definition inBounds (lo hi length : Z) : bool :=
  (0 <=? lo) && (lo <? hi) && (hi <=? length).

Definition arm (initErr : option gerr) (pat : list Z) (c : canaryLayout) (inner : list Z)
    : option gerr * list Z :=
  forEachZone c (fun lo hi '(err, inner) =>
    if negb (inBounds lo hi (zlen inner)) then (true, (err, inner))
    else match fillCanary initErr pat (lsub lo hi inner) with
         | (Some e, _) => (false, (Some e, inner))
         | (None, b) => (true, (err, lset lo b inner))
         end) (None, inner).

Definition intact (initErr : option gerr) (pat : list Z) (c : canaryLayout) (inner : list Z) : bool :=
  forEachZone c (fun lo hi ok =>
    if negb (inBounds lo hi (zlen inner)) then (true, ok)
    else if negb (canaryIntact initErr pat (lsub lo hi inner)) then (false, false)
    else (true, ok)) true.

(** ** Reference description of the zones *)

(** The zones the iteration visits, as a list. *)
Definition strips (c : canaryLayout) (n : nat) (i : Z) : list (Z * Z) :=
  filter (fun z => z.1 < z.2)
    ((fun k : nat => let j := i + Z.of_nat k in
        (j * cl_stride c + cl_slotSize c, (j + 1) * cl_stride c)) <$> seq 0 n).

Definition zones (c : canaryLayout) : list (Z * Z) :=
  strips c (Z.to_nat (cl_count c)) 0 ++
  (if ((cl_tail c).1 <? (cl_tail c).2) then [cl_tail c] else []).

(** A layout whose strips and tail are ascending and disjoint. *)
Record layout_wf (c : canaryLayout) : Prop := {
  lw_slot : 0 <= cl_slotSize c <= cl_stride c;
  lw_count : 0 <= cl_count c;
  lw_tail : (cl_tail c).1 < (cl_tail c).2 -> cl_count c * cl_stride c <= (cl_tail c).1
}.

(** ** Lemmas *)

Lemma length_patternBytes pat n : length (patternBytes pat n) = n.
Proof. unfold patternBytes. by rewrite length_fmap, length_seq. Qed.

Lemma lookup_patternBytes pat n i :
  (i < n)%nat -> patternBytes pat n !! i = Some (patternAt pat (Z.of_nat i)).
Proof. intros. unfold patternBytes. rewrite list_lookup_fmap, lookup_seq_lt by done. done. Qed.

Lemma canaryAcc_zero pat b i acc :
  canaryAcc pat b i acc = 0 <->
  acc = 0 /\ forall k x, b !! k = Some x -> x = patternAt pat (i + Z.of_nat k).
Proof.
  revert i acc. induction b as [|y b IH]; intros i acc; cbn [canaryAcc].
  { split; [intros ->; split; [done|intros k x; by rewrite lookup_nil]|by intros [-> _]]. }
  rewrite IH, Z.lor_eq_0_iff, Z.lxor_eq_0_iff. split.
  - intros [[-> ->] H]. split; [done|]. intros [|k] x; cbn; intros Hx.
    + injection Hx as <-. f_equal. lia.
    + rewrite (H k x Hx). f_equal. lia.
  - intros [-> H]. split; [split; [done|]|].
    + rewrite (H O y eq_refl). f_equal. lia.
    + intros k x Hx. rewrite (H (S k) x Hx). f_equal. lia.
Qed.

(** [canaryIntact] is exact: it accepts the armed bytes and nothing else. *)
Lemma canaryIntact_iff pat b :
  canaryIntact None pat b = true <-> b = patternBytes pat (length b).
Proof.
  unfold canaryIntact. destruct (zlen b =? 0) eqn:E.
  { split; [intros _|done]. assert (b = []) as ->; [|done].
    apply Z.eqb_eq in E. unfold zlen in E. destruct b; [done|cbn in E; lia]. }
  rewrite Z.eqb_eq, canaryAcc_zero. split.
  - intros [_ H]. apply list_eq. intros k.
    destruct (b !! k) as [x|] eqn:Hk.
    + rewrite lookup_patternBytes by by eapply lookup_lt_Some. f_equal. by apply H.
    + rewrite lookup_ge_None_2; [done|]. rewrite length_patternBytes. by apply lookup_ge_None_1.
  - intros Hb. split; [done|]. intros k x Hk. assert (k < length b)%nat by by eapply lookup_lt_Some.
    rewrite Hb, lookup_patternBytes in Hk by done. injection Hk as <-. f_equal.
Qed.

Lemma strips_0 c i : strips c 0 i = [].
Proof. done. Qed.

Lemma strips_S c n i :
  strips c (S n) i =
  (if (i + 1) * cl_stride c <=? i * cl_stride c + cl_slotSize c then []
   else [(i * cl_stride c + cl_slotSize c, (i + 1) * cl_stride c)]) ++ strips c n (i + 1).
Proof.
  unfold strips. cbn [seq fmap list_fmap]. rewrite <- fmap_S_seq, <- list_fmap_compose.
  rewrite filter_cons. cbn [fst snd]. replace (i + Z.of_nat 0) with i by lia.
  case_decide; case_match; rewrite ?Z.leb_le, ?Z.leb_gt in *; try lia; cbn [app].
  - f_equal. f_equal. apply list_fmap_ext. intros k j _. cbn. f_equal; lia.
  - f_equal. apply list_fmap_ext. intros k j _. cbn. f_equal; lia.
Qed.

(** The iteration, as a fold with early stop over the list of zones. *)
Fixpoint visit {St} (fn : Z -> Z -> St -> bool * St) (zs : list (Z * Z)) (st : St) : bool * St :=
  match zs with
  | [] => (true, st)
  | (lo, hi) :: zs' =>
      let '(go, st') := fn lo hi st in
      if go then visit fn zs' st' else (false, st')
  end.

Lemma visit_app {St} (fn : Z -> Z -> St -> bool * St) zs1 zs2 st :
  visit fn (zs1 ++ zs2) st =
  let '(go, st') := visit fn zs1 st in if go then visit fn zs2 st' else (false, st').
Proof.
  revert st. induction zs1 as [|[lo hi] zs1 IH]; intros st; cbn; [done|].
  destruct (fn lo hi st) as [[] st']; [apply IH|done].
Qed.

Lemma forEachStrip_visit {St} c (fn : Z -> Z -> St -> bool * St) n i st :
  forEachStrip c fn n i st = visit fn (strips c n i) st.
Proof.
  revert i st. induction n as [|n IH]; intros i st; [done|].
  rewrite strips_S. cbn [forEachStrip].
  destruct (_ <=? _); cbn [app visit]; [apply IH|].
  destruct (fn _ _ st) as [[] st']; [apply IH|done].
Qed.

Lemma forEachZone_visit {St} c (fn : Z -> Z -> St -> bool * St) st :
  forEachZone c fn st = (visit fn (zones c) st).2.
Proof.
  unfold forEachZone, zones. rewrite visit_app, forEachStrip_visit.
  destruct (visit fn _ st) as [[] st']; [|done].
  destruct (_ <? _); [|done]. destruct (cl_tail c) as [lo hi]. cbn.
  by destruct (fn lo hi st') as [[] ?].
Qed.

(** A zone holds the pattern; zones that do not fit the region do not count. *)
Definition zone_ok (pat inner : list Z) (z : Z * Z) : Prop :=
  inBounds z.1 z.2 (zlen inner) = true ->
  lsub z.1 z.2 inner = patternBytes pat (Z.to_nat (z.2 - z.1)).

Lemma inBounds_spec lo hi n : inBounds lo hi n = true <-> 0 <= lo /\ lo < hi /\ hi <= n.
Proof. unfold inBounds. rewrite !andb_true_iff, !Z.leb_le, Z.ltb_lt. tauto. Qed.

Lemma intact_visit pat inner zs ok :
  (visit (fun lo hi ok =>
    if negb (inBounds lo hi (zlen inner)) then (true, ok)
    else if negb (canaryIntact None pat (lsub lo hi inner)) then (false, false)
    else (true, ok)) zs ok).2 = true <-> ok = true /\ Forall (zone_ok pat inner) zs.
Proof.
  revert ok. induction zs as [|[lo hi] zs IH]; intros ok; cbn [visit].
  { cbn. split; [by intros ->|by intros [-> _]]. }
  rewrite Forall_cons. unfold zone_ok at 1. cbn [fst snd].
  destruct (inBounds lo hi (zlen inner)) eqn:Hb; cbn [negb].
  - apply inBounds_spec in Hb as (? & ? & ?).
    pose proof (canaryIntact_iff pat (lsub lo hi inner)) as Hi.
    rewrite length_lsub in Hi by lia.
    destruct (canaryIntact None pat _); cbn [negb].
    + rewrite IH. tauto.
    + cbn. split; [done|]. intros (_ & H' & _). specialize (H' eq_refl). tauto.
  - rewrite IH. split; [intros [? ?]; repeat split; try done|tauto].
Qed.

Lemma intact_iff pat c inner :
  intact None pat c inner = true <-> Forall (zone_ok pat inner) (zones c).
Proof. unfold intact. rewrite forEachZone_visit, intact_visit. tauto. Qed.

(** ** Ascending zones *)

Fixpoint ascending (b : Z) (zs : list (Z * Z)) : Prop :=
  match zs with
  | [] => True
  | (lo, hi) :: zs' => b <= lo /\ lo < hi /\ ascending hi zs'
  end.

Lemma ascending_mono b b' zs : b' <= b -> ascending b zs -> ascending b' zs.
Proof. destruct zs as [|[lo hi] zs]; cbn; [done|]. intros ? (? & ? & ?). repeat split; try lia; done. Qed.

Lemma ascending_above b zs z : ascending b zs -> z ∈ zs -> b <= z.1 < z.2.
Proof.
  revert b. induction zs as [|[lo hi] zs IH]; intros b H Hz; [by apply elem_of_nil in Hz|].
  cbn in H. destruct H as (? & ? & H). apply elem_of_cons in Hz as [->|Hz]; cbn; [lia|].
  specialize (IH _ H Hz). lia.
Qed.

Lemma strips_ascending c n i e :
  0 <= cl_slotSize c <= cl_stride c -> 0 <= i ->
  (forall lo, e = Some lo -> (i + Z.of_nat n) * cl_stride c <= lo.1 /\ lo.1 < lo.2) ->
  ascending (i * cl_stride c) (strips c n i ++ option_list e).
Proof.
  revert i. induction n as [|n IH]; intros i Hs Hi He.
  - rewrite strips_0. destruct e as [[lo hi]|]; cbn; [|done].
    destruct (He (lo, hi) eq_refl) as [? ?]. cbn in *. repeat split; try lia.
  - rewrite strips_S, <- app_assoc. specialize (IH (i + 1)).
    assert (ascending ((i + 1) * cl_stride c) (strips c n (i + 1) ++ option_list e)) as H'.
    { apply IH; [done|lia|]. intros lo Hlo. specialize (He lo Hlo). lia. }
    destruct (_ <=? _) eqn:E; cbn [app].
    + eapply ascending_mono; [|exact H']. nia.
    + apply Z.leb_gt in E. cbn. repeat split; [nia|lia|exact H'].
Qed.

Lemma zones_ascending c : layout_wf c -> ascending 0 (zones c).
Proof.
  intros [Hs Hc Ht].
  assert (zones c = strips c (Z.to_nat (cl_count c)) 0 ++
    option_list (if (cl_tail c).1 <? (cl_tail c).2 then Some (cl_tail c) else None)) as ->.
  { unfold zones. by destruct (_ <? _). }
  change 0 with (0 * cl_stride c) at 1. apply strips_ascending; [done|lia|].
  intros [lo hi]. destruct (_ <? _) eqn:E; [|done]. intros [= E']. apply Z.ltb_lt in E.
  rewrite E' in *. cbn in *. specialize (Ht E). rewrite Z2Nat.id by lia. lia.
Qed.

(** ** Arming *)

(** Arming as a fold over the zones that fit. *)
Fixpoint arm_zones (pat : list Z) (zs : list (Z * Z)) (inner : list Z) : list Z :=
  match zs with
  | [] => inner
  | (lo, hi) :: zs' =>
      arm_zones pat zs'
        (if inBounds lo hi (zlen inner)
         then lset lo (patternBytes pat (Z.to_nat (hi - lo))) inner else inner)
  end.

Lemma arm_eq pat c inner : arm None pat c inner = (None, arm_zones pat (zones c) inner).
Proof.
  unfold arm. rewrite forEachZone_visit. generalize (zones c) as zs. intros zs.
  revert inner. induction zs as [|[lo hi] zs IH]; intros inner; [done|].
  cbn [visit arm_zones]. destruct (inBounds lo hi (zlen inner)) eqn:Hb; cbn [negb fillCanary].
  - apply inBounds_spec in Hb as (? & ? & ?). rewrite length_lsub by lia. apply IH.
  - apply IH.
Qed.

Lemma zlen_armed (pat : list Z) lo hi (inner : list Z) :
  inBounds lo hi (zlen inner) = true ->
  0 <= lo /\ lo + zlen (patternBytes pat (Z.to_nat (hi - lo))) = hi /\ hi <= zlen inner.
Proof.
  rewrite inBounds_spec. unfold zlen. rewrite length_patternBytes. lia.
Qed.

Lemma length_arm_zones pat zs inner : length (arm_zones pat zs inner) = length inner.
Proof.
  revert inner. induction zs as [|[lo hi] zs IH]; intros inner; [done|]. cbn. rewrite IH.
  destruct (inBounds _ _ _) eqn:Hb; [|done].
  apply (zlen_armed pat) in Hb as (? & ? & ?). apply length_lset; lia.
Qed.

Lemma arm_zones_outside pat zs inner (j : nat) :
  (forall z, z ∈ zs -> inBounds z.1 z.2 (zlen inner) = true -> ~ (z.1 <= Z.of_nat j < z.2)) ->
  arm_zones pat zs inner !! j = inner !! j.
Proof.
  revert inner. induction zs as [|[lo hi] zs IH]; intros inner H; [done|]. cbn.
  destruct (inBounds lo hi (zlen inner)) eqn:Hb.
  - assert (~ (lo <= Z.of_nat j < hi)) by (apply (H (lo, hi)); [by left|done]).
    apply (zlen_armed pat) in Hb as (? & ? & ?).
    rewrite IH; [apply lookup_lset_out; lia|].
    intros z Hz. rewrite zlen_lset by lia. apply H. by right.
  - apply IH. intros z Hz. apply H. by right.
Qed.

Lemma arm_zones_ok pat zs b inner :
  ascending b zs -> Forall (zone_ok pat (arm_zones pat zs inner)) zs.
Proof.
  revert b inner. induction zs as [|[lo hi] zs IH]; intros b inner H; [constructor|].
  cbn in H. destruct H as (Hlo & Hhi & H). cbn [arm_zones].
  constructor; [|by eapply IH].
  intros Hb. cbn [fst snd] in *.
  assert (inBounds lo hi (zlen inner) = true) as Hb'.
  { revert Hb. unfold zlen. rewrite length_arm_zones. destruct (inBounds lo hi (Z.of_nat (length inner))) eqn:E;
      [done|congruence]. }
  rewrite Hb'. pose proof (zlen_armed pat _ _ _ Hb') as (? & ? & ?).
  set (bs := patternBytes pat (Z.to_nat (hi - lo))) in *.
  transitivity (lsub lo hi (lset lo bs inner)).
  2: { pose proof (lsub_lset_same lo bs inner) as E. rewrite H1 in E. apply E; lia. }
  apply list_eq. intros j. destruct (decide (j < Z.to_nat (hi - lo))%nat).
  - rewrite !lookup_lsub by lia. apply arm_zones_outside.
    intros z Hz _. pose proof (ascending_above _ _ _ H Hz). lia.
  - rewrite !lookup_ge_None_2; [done|..]; (rewrite length_lsub; [lia|lia|lia|]);
      unfold zlen; rewrite ?length_arm_zones, ?length_lset by lia; unfold zlen in *; lia.
Qed.

(** ** Properties *)

(** A byte offset lies in a zone that fits the region. *)
Definition in_zone (c : canaryLayout) (n : Z) (j : nat) : Prop :=
  exists z, z ∈ zones c /\ inBounds z.1 z.2 n = true /\ z.1 <= Z.of_nat j < z.2.

Lemma zone_ok_lookup pat inner z :
  zone_ok pat inner z <->
  (inBounds z.1 z.2 (zlen inner) = true -> forall j : nat, z.1 <= Z.of_nat j < z.2 ->
     inner !! j = Some (patternAt pat (Z.of_nat j - z.1))).
Proof.
  unfold zone_ok. split; intros H Hb; specialize (H Hb); apply inBounds_spec in Hb as (? & ? & ?).
  - intros j Hj. pose proof (f_equal (.!! (j - Z.to_nat z.1)%nat) H) as E. cbn in E.
    rewrite lookup_lsub, lookup_patternBytes in E by lia.
    replace (Z.to_nat z.1 + (j - Z.to_nat z.1))%nat with j in E by lia.
    rewrite E. do 2 f_equal. lia.
  - apply list_eq. intros j. destruct (decide (j < Z.to_nat (z.2 - z.1))%nat).
    + rewrite lookup_lsub, lookup_patternBytes by lia. rewrite H by lia. do 2 f_equal. lia.
    + rewrite !lookup_ge_None_2; [done|rewrite length_patternBytes; lia|rewrite length_lsub; lia].
Qed.

(** C1. Arming a region whose layout is well formed touches the zones and
    nothing else, and verification is exact: of all memories of that size,
    [intact] accepts precisely those that agree with the armed memory on every
    zone byte. Any write into a zone, of any length and at any offset, is
    reported; no write outside the zones ever is. *)
Theorem canary_exact pat c inner :
  layout_wf c ->
  exists armed, arm None pat c inner = (None, armed) /\
    length armed = length inner /\
    (forall j, ~ in_zone c (zlen inner) j -> armed !! j = inner !! j) /\
    (forall mem, length mem = length inner ->
       (intact None pat c mem = true <->
        forall j, in_zone c (zlen inner) j -> mem !! j = armed !! j)).
Proof.
  intros Hwf. pose proof (zones_ascending c Hwf) as Hasc. rewrite arm_eq.
  eexists. split; [done|]. split; [apply length_arm_zones|].
  pose proof (arm_zones_ok pat _ _ inner Hasc) as Hok. rewrite Forall_forall in Hok.
  split.
  { intros j Hj. apply arm_zones_outside. intros z Hz Hb Hin. apply Hj. by exists z. }
  intros mem Hlen. rewrite intact_iff, Forall_forall.
  assert (zlen mem = zlen inner) as Hz by (unfold zlen; lia). split.
  - intros H j (z & Hz' & Hb & Hj).
    rewrite (proj1 (zone_ok_lookup _ _ _) (H _ Hz')) by (rewrite ?Hz; done).
    symmetry. apply (proj1 (zone_ok_lookup _ _ _) (Hok _ Hz')); [|done].
    unfold zlen. by rewrite length_arm_zones.
  - intros H z Hz'. apply zone_ok_lookup. rewrite Hz. intros Hb j Hj.
    rewrite H by (exists z; done). apply (proj1 (zone_ok_lookup _ _ _) (Hok _ Hz')); [|done].
    unfold zlen. by rewrite length_arm_zones.
Qed.

Lemma elem_strips c n i z :
  z ∈ strips c n i <->
  exists k : nat, (k < n)%nat /\ z = ((i + Z.of_nat k) * cl_stride c + cl_slotSize c,
                                     (i + Z.of_nat k + 1) * cl_stride c) /\ z.1 < z.2.
Proof.
  unfold strips. rewrite list_elem_of_filter, list_elem_of_fmap. split.
  - intros [Hlt (k & -> & Hk)]. exists k. rewrite elem_of_seq in Hk. split; [lia|]. done.
  - intros (k & Hk & -> & Hlt). split; [done|]. exists k. split; [done|]. apply elem_of_seq. lia.
Qed.

Lemma elem_zones c z :
  z ∈ zones c <->
  (z ∈ strips c (Z.to_nat (cl_count c)) 0) \/ (z = cl_tail c /\ (cl_tail c).1 < (cl_tail c).2).
Proof.
  unfold zones. rewrite elem_of_app. destruct (_ <? _) eqn:E;
    [apply Z.ltb_lt in E | apply Z.ltb_ge in E].
  - rewrite list_elem_of_singleton. naive_solver.
  - rewrite elem_of_nil. naive_solver lia.
Qed.

Lemma zones_zero : zones canaryLayout_zero = [].
Proof. done. Qed.

Lemma intact_zero ie pat inner : intact ie pat canaryLayout_zero inner = true.
Proof. done. Qed.

Lemma bufferCanary_wf usable innerLen : 0 <= usable -> layout_wf (bufferCanary usable innerLen).
Proof. intros. unfold bufferCanary. case_match; constructor; cbn; lia. Qed.

(** A buffer's zone is exactly the slack between its usable bytes and the end
    of its pages. *)
Lemma bufferCanary_zone usable innerLen j :
  0 <= usable ->
  in_zone (bufferCanary usable innerLen) innerLen j <-> usable <= Z.of_nat j < innerLen.
Proof.
  intros Hu. unfold in_zone, bufferCanary. destruct (_ <=? _) eqn:E;
    [apply Z.leb_le in E | apply Z.leb_gt in E].
  - rewrite zones_zero. split; [|lia]. intros (z & Hz & _). by apply elem_of_nil in Hz.
  - split.
    + intros (z & Hz & Hb & Hj). apply elem_zones in Hz as [Hz|[-> _]]; [|done].
      apply elem_strips in Hz as (k & Hk & _). cbn in Hk. lia.
    + intros. exists (usable, innerLen). split; [apply elem_zones; right; done|].
      split; [apply inBounds_spec; cbn; lia|done].
Qed.

Lemma arenaCanary_wf stride slotSize count innerLen :
  0 <= slotSize <= stride -> 0 <= count -> layout_wf (arenaCanary stride slotSize count innerLen).
Proof. intros. constructor; cbn; [lia|lia|]. destruct (_ <? _); cbn; lia. Qed.

(** An arena's zones and its slots' usable bytes partition the slab: offset
    [j] is armed exactly when it belongs to no slot. In particular two slots
    are never adjacent and no zone overlaps a slot. *)
Lemma arenaCanary_partition slotSize count innerLen j :
  0 < slotSize -> 0 < count -> count * (slotSize + canaryLen) <= innerLen ->
  Z.of_nat j < innerLen ->
  in_zone (arenaCanary (slotSize + canaryLen) slotSize count innerLen) innerLen j <->
  ~ exists i, 0 <= i < count /\
      i * (slotSize + canaryLen) <= Z.of_nat j < i * (slotSize + canaryLen) + slotSize.
Proof.
  unfold canaryLen. intros Hs Hc Hfit Hj. set (stride := slotSize + 16) in *. split.
  - intros (z & Hz & Hb & Hzj) (i & Hi & Hij). apply elem_zones in Hz as [Hz|[-> Ht]].
    + apply elem_strips in Hz as (k & Hk & -> & _). cbn in *.
      destruct (Z_lt_le_dec i (Z.of_nat k)); [nia|].
      destruct (Z_lt_le_dec (Z.of_nat k) i); nia.
    + cbn in *. destruct (_ <? _); cbn in *; nia.
  - intros Hno. unfold in_zone. destruct (Z_lt_le_dec (Z.of_nat j) (count * stride)) as [Hlt|Hge].
    + set (i := Z.of_nat j / stride).
      assert (i * stride <= Z.of_nat j < (i + 1) * stride) as Hdiv.
      { pose proof (Z.div_mod (Z.of_nat j) stride). pose proof (Z.mod_pos_bound (Z.of_nat j) stride). nia. }
      assert (0 <= i < count) by nia.
      exists (i * stride + slotSize, (i + 1) * stride).
      assert (i * stride + slotSize <= Z.of_nat j).
      { destruct (Z_lt_le_dec (Z.of_nat j) (i * stride + slotSize)); [|done].
        exfalso. apply Hno. exists i. lia. }
      split; [|split; [apply inBounds_spec; cbn; nia|cbn; lia]].
      apply elem_zones. left. apply elem_strips. exists (Z.to_nat i). cbn.
      rewrite Z2Nat.id by lia. split; [lia|]. split; [done|]. lia.
    + exists (count * stride, innerLen). split.
      * apply elem_zones. right. cbn. rewrite (proj2 (Z.ltb_lt _ _)) by lia. cbn. split; [done|lia].
      * split; [apply inBounds_spec; cbn; lia|cbn; lia].
Qed.

(** ** Fitting layouts: every zone lies in a region of [n] bytes. *)
Definition layout_fits (c : canaryLayout) (n : Z) : Prop :=
  layout_wf c /\ forall z, z ∈ zones c -> inBounds z.1 z.2 n = true.

Lemma canaryLayout_zero_fits n : layout_fits canaryLayout_zero n.
Proof. split; [constructor; cbn; lia|]. intros z Hz. by apply elem_of_nil in Hz. Qed.

(** Witness of the exactness theorem: an 8-byte slack behind 24 usable bytes. *)
Lemma canary_exact_witness :
  layout_wf (bufferCanary 24 32) /\
  exists armed, arm None (seqZ 1 16) (bufferCanary 24 32) (zeros 32) = (None, armed) /\
    length armed = length (zeros 32) /\
    (forall j, ~ in_zone (bufferCanary 24 32) (zlen (zeros 32)) j -> armed !! j = zeros 32 !! j) /\
    (forall mem, length mem = length (zeros 32) ->
       (intact None (seqZ 1 16) (bufferCanary 24 32) mem = true <->
        forall j, in_zone (bufferCanary 24 32) (zlen (zeros 32)) j -> mem !! j = armed !! j)).
Proof.
  assert (layout_wf (bufferCanary 24 32)) as H by (constructor; cbn; lia).
  split; [exact H|]. exact (canary_exact (seqZ 1 16) _ _ H).
Defined.

Example canary_catches_one_byte :
  let c := arenaCanary 20 4 2 64 in
  let armed := (arm None (seqZ 1 16) c (zeros 64)).2 in
  intact None (seqZ 1 16) c armed = true /\
  intact None (seqZ 1 16) c (<[4%nat := 0]> armed) = false /\
  intact None (seqZ 1 16) c (<[63%nat := 0]> armed) = false /\
  intact None (seqZ 1 16) c (<[3%nat := 99]> armed) = true.
Proof. vm_compute. done. Qed.
