(* ===== verification/BufLock.v ===== *)
(** * The reader-writer lock (buflock.go), as a concurrent program

    Every SecureBuffer and SecureArena is guarded by a [bufferRWLock]: an
    atomic reader count biased by [-bufMaxReaders] while a writer is active or
    waiting, a mutex and a condition variable. This file models the lock at the
    granularity of its atomic operations: any number of threads, each with a
    program counter inside [rLock], [rLockSlow], [rUnlock], [lock], [tryLock]
    or [unlock], interleaved arbitrarily. [cond.Wait] is modelled as the
    runtime does it: the waiter is on the wait list before the mutex is
    released, [Broadcast] moves every waiter to re-acquiring the mutex.

    The theorems: mutual exclusion, writer preference, the absence of lost
    wake-ups (no reachable state has only parked threads), and that the int32
    reader word never wraps. *)
From S2P Require Import Prelude.
From Stdlib Require Import ZifyBool.

Definition bufMaxReaders : Z := 2 ^ 30.

(** The shared fields. [mu] records which thread holds the mutex. *)
Record bufferRWLock : Type := BufferRWLock {
  mu : option nat;
  readers : Z;
  writersWaiting : Z;
  writerActive : bool;
  readersWaiting : Z
}.

Definition newBufferRWLock : bufferRWLock := BufferRWLock None 0 0 false 0.

(** Program counters: where a thread stands inside a method. *)
Inductive pc : Type :=
| Idle
| RSlow | RUndo | RLoop | RWait | RWoken | REnrolled | RHeld
| RUDrain | RUBcast | RUUnlock
| WStart | WEnter | WLoop | WPark | WWait | WWoken | WEntered | WHeld
| UStart | UBody | UUnlock
| TStart | TBody | TFail | TOk.

#[global] Instance pc_eq_dec : EqDecision pc.
Proof. solve_decision. Defined.

(** What an idle thread may call next. *)
Inductive op : Type := CallRLock | CallLock | CallTryLock.

(** [atomic.Int32.Add], with the wrap-around of [wrap32]. *)
Definition add32 (l : bufferRWLock) (d : Z) : bufferRWLock :=
  BufferRWLock (mu l) (wrap32 (readers l + d)) (writersWaiting l) (writerActive l) (readersWaiting l).

Definition set_mu (o : option nat) (l : bufferRWLock) : bufferRWLock :=
  BufferRWLock o (readers l) (writersWaiting l) (writerActive l) (readersWaiting l).
Definition set_ww (z : Z) (l : bufferRWLock) : bufferRWLock :=
  BufferRWLock (mu l) (readers l) z (writerActive l) (readersWaiting l).
Definition set_wa (b : bool) (l : bufferRWLock) : bufferRWLock :=
  BufferRWLock (mu l) (readers l) (writersWaiting l) b (readersWaiting l).
Definition set_rw (z : Z) (l : bufferRWLock) : bufferRWLock :=
  BufferRWLock (mu l) (readers l) (writersWaiting l) (writerActive l) z.

(** One atomic step yields the new shared state, the thread's new program
    counter and whether it broadcast. [None]: the step is not enabled. *)
Definition effect : Type := (bufferRWLock * pc * bool)%type.

(** [mu.Lock()]: enabled only while the mutex is free. *)
Definition take_mu (i : nat) (l : bufferRWLock) (p : pc) : option effect :=
  match mu l with
  | None => Some (set_mu (Some i) l, p, false)
  | Some _ => None
  end.

Definition drop_mu (l : bufferRWLock) (p : pc) : option effect := Some (set_mu None l, p, false).

(** [rLock]: the optimistic [Add(1)]. *)
Definition rLock (l : bufferRWLock) : option effect :=
  let l' := add32 l 1 in
  Some (l', if (0 <? readers l') then RHeld else RSlow, false).

(** [rLockSlow], step by step. *)
Definition rLockSlow (i : nat) (l : bufferRWLock) (p : pc) : option effect :=
  match p with
  | RSlow => take_mu i l RUndo
  | RUndo =>
      let l' := add32 l (-1) in
      Some (set_rw (readersWaiting l' + 1) l', RLoop, readers l' =? - bufMaxReaders)
  | RLoop =>
      if writerActive l || (0 <? writersWaiting l)
      then Some (set_mu None l, RWait, false)
      else Some (add32 (set_rw (readersWaiting l - 1) l) 1, REnrolled, false)
  | RWoken => take_mu i l RLoop
  | REnrolled => drop_mu l RHeld
  | _ => None
  end.

(** [rUnlock]: [Add(-1)], and the hand-off broadcast under the mutex. *)
Definition rUnlock (i : nat) (l : bufferRWLock) (p : pc) : option effect :=
  match p with
  | RHeld =>
      let l' := add32 l (-1) in
      Some (l', if (readers l' <? 0) && (readers l' =? - bufMaxReaders) then RUDrain else Idle, false)
  | RUDrain => take_mu i l RUBcast
  | RUBcast => Some (l, RUUnlock, true)
  | RUUnlock => drop_mu l Idle
  | _ => None
  end.

(** [lock]: the predicate check of the wait loop and the parking are separate
    steps, so a reader may leave between the two. *)
Definition lock (i : nat) (l : bufferRWLock) (p : pc) : option effect :=
  match p with
  | WStart => take_mu i l WEnter
  | WEnter =>
      let l1 := set_ww (writersWaiting l + 1) l in
      Some (if (writersWaiting l1 =? 1) && negb (writerActive l1)
            then add32 l1 (- bufMaxReaders) else l1, WLoop, false)
  | WLoop =>
      if writerActive l || negb (readers l =? - bufMaxReaders)
      then Some (l, WPark, false)
      else Some (set_wa true (set_ww (writersWaiting l - 1) l), WEntered, false)
  | WPark => Some (set_mu None l, WWait, false)
  | WWoken => take_mu i l WLoop
  | WEntered => drop_mu l WHeld
  | _ => None
  end.

(** [unlock]. *)
Definition unlock (i : nat) (l : bufferRWLock) (p : pc) : option effect :=
  match p with
  | WHeld => Some (l, UStart, false)
  | UStart => take_mu i l UBody
  | UBody =>
      let l1 := set_wa false l in
      Some (if (writersWaiting l1 =? 0) then add32 l1 bufMaxReaders else l1, UUnlock, true)
  | UUnlock => drop_mu l Idle
  | _ => None
  end.

(** [tryLock]: [TOk] and [TFail] are its two returns, before the deferred
    [mu.Unlock]. *)
Definition tryLock (i : nat) (l : bufferRWLock) (p : pc) : option effect :=
  match p with
  | TStart => take_mu i l TBody
  | TBody =>
      if writerActive l || (0 <? writersWaiting l) then Some (l, TFail, false)
      else if (readers l =? 0)
           then Some (set_wa true (add32 l (- bufMaxReaders)), TOk, false)
           else Some (l, TFail, false)
  | TFail => drop_mu l Idle
  | TOk => drop_mu l WHeld
  | _ => None
  end.

(** The step of thread [i] standing at [p]; an idle thread starts a call. *)
Definition thread_step (i : nat) (a : op) (l : bufferRWLock) (p : pc) : option effect :=
  match p with
  | Idle => match a with
            | CallRLock => rLock l
            | CallLock => Some (l, WStart, false)
            | CallTryLock => Some (l, TStart, false)
            end
  | RSlow | RUndo | RLoop | RWoken | REnrolled => rLockSlow i l p
  | RHeld | RUDrain | RUBcast | RUUnlock => rUnlock i l p
  | WStart | WEnter | WLoop | WPark | WWoken | WEntered => lock i l p
  | WHeld | UStart | UBody | UUnlock => unlock i l p
  | TStart | TBody | TFail | TOk => tryLock i l p
  | RWait | WWait => None
  end.

(** [cond.Broadcast]. *)
Definition wake (p : pc) : pc :=
  match p with RWait => RWoken | WWait => WWoken | _ => p end.

Record config : Type := Config { shared : bufferRWLock; threads : list pc }.

Definition exec (i : nat) (a : op) (c : config) : option config :=
  match threads c !! i with
  | None => None
  | Some p =>
      match thread_step i a (shared c) p with
      | None => None
      | Some (l', p', bc) =>
          Some (Config l' (<[i := p']> (if bc then wake <$> threads c else threads c)))
      end
  end.

Inductive step : config -> config -> Prop :=
| step_exec i a c c' : exec i a c = Some c' -> step c c'.

Definition init (n : nat) : config := Config newBufferRWLock (replicate n Idle).

Inductive reachable (n : nat) : config -> Prop :=
| reach_init : reachable n (init n)
| reach_step c c' : reachable n c -> step c c' -> reachable n c'.

(** ** Counting threads *)

Fixpoint cnt (f : pc -> bool) (ps : list pc) : Z :=
  match ps with
  | [] => 0
  | p :: ps' => Z.b2z (f p) + cnt f ps'
  end.

(** Classes of program counters. *)
Definition holds_mu (p : pc) : bool :=
  match p with
  | RUndo | RLoop | REnrolled | RUBcast | RUUnlock | WEnter | WLoop | WPark | WEntered
  | UBody | UUnlock | TBody | TFail | TOk => true
  | _ => false
  end.
(** counted in [readers], as a reader or as a not yet undone increment *)
Definition counted (p : pc) : bool :=
  match p with RSlow | RUndo | REnrolled | RHeld => true | _ => false end.
(** has been granted read access *)
Definition reading (p : pc) : bool :=
  match p with REnrolled | RHeld => true | _ => false end.
Definition r_waiting (p : pc) : bool :=
  match p with RLoop | RWait | RWoken => true | _ => false end.
Definition w_waiting (p : pc) : bool :=
  match p with WLoop | WPark | WWait | WWoken => true | _ => false end.
(** has been granted write access *)
Definition writing (p : pc) : bool :=
  match p with WEntered | WHeld | UStart | UBody | TOk => true | _ => false end.
Definition r_parked (p : pc) : bool := match p with RWait => true | _ => false end.
Definition w_parked (p : pc) : bool := match p with WPark | WWait => true | _ => false end.
(** the last reader, on its way to the hand-off broadcast *)
Definition handing_off (p : pc) : bool :=
  match p with RUDrain | RUBcast => true | _ => false end.

Lemma cnt_nonneg f ps : 0 <= cnt f ps.
Proof. induction ps as [|p ps IH]; cbn; [lia|]. destruct (f p); cbn; lia. Qed.

Lemma cnt_le_length f ps : cnt f ps <= zlen ps.
Proof. unfold zlen. induction ps as [|p ps IH]; cbn -[Z.of_nat]; [lia|]. destruct (f p); cbn -[Z.of_nat]; lia. Qed.

Lemma cnt_insert f ps i p q :
  ps !! i = Some p -> cnt f (<[i := q]> ps) = cnt f ps - Z.b2z (f p) + Z.b2z (f q).
Proof.
  revert i. induction ps as [|x ps IH]; intros [|i] H; try done.
  - injection H as ->. cbn. lia.
  - change (<[S i := q]> (x :: ps)) with (x :: <[i := q]> ps). cbn [cnt]. rewrite (IH i H). lia.
Qed.

Lemma cnt_fmap f g ps : cnt f (g <$> ps) = cnt (fun p => f (g p)) ps.
Proof. induction ps as [|p ps IH]; cbn; [done|]. by rewrite IH. Qed.

Lemma cnt_ext f g ps : (forall p, f p = g p) -> cnt f ps = cnt g ps.
Proof. intros H. induction ps as [|p ps IH]; cbn; [done|]. by rewrite H, IH. Qed.

Lemma cnt_const_false f ps : (forall p, f p = false) -> cnt f ps = 0.
Proof. intros H. induction ps as [|p ps IH]; cbn; [done|]. by rewrite H, IH. Qed.

Lemma cnt_replicate_Idle f n : f Idle = false -> cnt f (replicate n Idle) = 0.
Proof. intros H. induction n as [|n IH]; cbn; [done|]. by rewrite H, IH. Qed.

Lemma cnt_pos f ps : 0 < cnt f ps <-> exists i p, ps !! i = Some p /\ f p = true.
Proof.
  split.
  - induction ps as [|x ps IH]; cbn; [lia|]. destruct (f x) eqn:E; cbn; intros H.
    + by exists O, x.
    + destruct IH as (i & p & ? & ?); [lia|]. by exists (S i), p.
  - intros (i & p & Hi & Hf). revert i Hi. induction ps as [|x ps IH]; intros [|i] Hi; cbn in *; try done.
    + injection Hi as ->. rewrite Hf. pose proof (cnt_nonneg f ps). cbn. lia.
    + specialize (IH i Hi). destruct (f x); cbn; lia.
Qed.

(** At most one fewer than all threads satisfy [f] when thread [i] does not. *)
Lemma cnt_lt_length f ps i p : ps !! i = Some p -> f p = false -> cnt f ps < zlen ps.
Proof.
  intros Hi Hf.
  revert i Hi. unfold zlen. induction ps as [|x ps IH]; intros [|i] Hi; cbn -[Z.of_nat] in *; try done.
  - injection Hi as ->. rewrite Hf. pose proof (cnt_le_length f ps). unfold zlen in *. cbn -[Z.of_nat]. lia.
  - specialize (IH i Hi). destruct (f x); cbn -[Z.of_nat]; lia.
Qed.

Lemma cnt_mono f g ps : (forall p, f p = true -> g p = true) -> cnt f ps <= cnt g ps.
Proof.
  intros H. induction ps as [|p ps IH]; cbn; [lia|]. specialize (H p).
  destruct (f p); [rewrite (H eq_refl)|destruct (g p)]; cbn; lia.
Qed.

(** When [i] is the only thread in [g], no other thread is in a subset of [g]. *)
Lemma cnt_sole f g ps i p :
  ps !! i = Some p -> g p = true -> f p = false -> cnt g ps = 1 -> g Idle = false ->
  (forall q, f q = true -> g q = true) -> cnt f ps = 0.
Proof.
  intros Hi Hg Hf H1 Hid Hsub.
  pose proof (cnt_insert g ps i p Idle Hi) as Eg. pose proof (cnt_insert f ps i p Idle Hi) as Ef.
  assert (cnt f (<[i := Idle]> ps) <= cnt g (<[i := Idle]> ps)) by by apply cnt_mono.
  assert (f Idle = false) as Hfi by (destruct (f Idle) eqn:E; [by rewrite (Hsub _ E) in Hid|done]).
  rewrite Hg, Hid in Eg. rewrite Hf, Hfi in Ef. cbn in Eg, Ef.
  pose proof (cnt_nonneg f ps). lia.
Qed.

(** ** The invariant *)

Definition mu_z (o : option nat) : Z := match o with None => 0 | Some _ => 1 end.

Definition bias (l : bufferRWLock) : bool := writerActive l || (0 <? writersWaiting l).

Record inv (l : bufferRWLock) (ps : list pc) : Prop := Inv {
  inv_len : zlen ps <= bufMaxReaders;
  inv_mu : cnt holds_mu ps = mu_z (mu l);
  inv_rd : readers l = cnt counted ps - bufMaxReaders * Z.b2z (bias l);
  inv_ww : writersWaiting l = cnt w_waiting ps;
  inv_wa : Z.b2z (writerActive l) = cnt writing ps;
  inv_ex : 0 < cnt writing ps -> cnt reading ps = 0;
  inv_rw : readersWaiting l = cnt r_waiting ps;
  inv_pr : 0 < cnt r_parked ps -> bias l = true;
  inv_pw : 0 < cnt w_parked ps -> writerActive l = false -> readers l = - bufMaxReaders ->
           0 < cnt handing_off ps
}.


(** The facts every case of the preservation proof uses. *)
Lemma cnt_facts ps :
  0 <= cnt counted ps /\ 0 <= cnt w_waiting ps /\ 0 <= cnt writing ps /\ 0 <= cnt reading ps /\
  0 <= cnt handing_off ps /\ 0 <= cnt r_parked ps /\ 0 <= cnt w_parked ps /\
  cnt reading ps <= cnt counted ps /\ cnt w_parked ps <= cnt w_waiting ps /\
  cnt counted ps <= zlen ps.
Proof.
  repeat split; try apply cnt_nonneg; try apply cnt_le_length; apply cnt_mono; by intros [].
Qed.

(** A broadcast empties the wait list; it changes no other count. *)
Lemma cnt_wake f ps : (forall p, f (wake p) = f p) -> cnt f (wake <$> ps) = cnt f ps.
Proof. intros H. rewrite cnt_fmap. by apply cnt_ext. Qed.

Ltac lock_facts Hi :=
  match type of Hi with ?ps !! ?i = Some ?p =>
    destruct (cnt_facts ps) as (? & ? & ? & ? & ? & ? & ? & ? & ? & ?);
    pose proof (fun Hc : counted p = false => cnt_lt_length counted ps i p Hi Hc) as Hlt;
    cbn in Hlt; try (specialize (Hlt eq_refl))
  end.

(** Close the invariant's clauses after thread [i] moved. *)
Ltac lock_close Hi :=
  constructor; unfold bias, bufMaxReaders in *;
  cbn [mu readers writersWaiting writerActive readersWaiting
    add32 set_mu set_ww set_wa set_rw] in *;
  rewrite ?(cnt_insert _ _ _ _ _ Hi); unfold zlen in *; rewrite ?length_insert, ?length_fmap;
  cbn [holds_mu counted reading r_waiting w_waiting writing r_parked w_parked handing_off mu_z] in *;
  rewrite ?wrap32_id in * by (unfold MaxInt32; lia); try lia.

Ltac lock_case Hi E :=
  injection E as <- <- <-; lock_facts Hi; repeat case_match; lock_close Hi.

(** ** Preservation, method by method *)

Lemma take_mu_spec i l p l' p' bc :
  take_mu i l p = Some (l', p', bc) -> mu l = None /\ l' = set_mu (Some i) l /\ p' = p /\ bc = false.
Proof. unfold take_mu. by destruct (mu l); intros [= <- <- <-]. Qed.

Lemma rLock_inv l ps i l' p' bc :
  inv l ps -> ps !! i = Some Idle -> rLock l = Some (l', p', bc) ->
  bc = false /\ inv l' (<[i := p']> ps).
Proof.
  intros [Hlen Hmu Hrd Hww Hwa Hex Hrw Hpr Hpw] Hi E. unfold rLock in E. split; [congruence|].
  lock_case Hi E.
Qed.

(** The state after a broadcast by a thread holding the mutex. *)
Lemma wake_counts ps i p :
  ps !! i = Some p -> holds_mu p = true -> w_parked p = false -> cnt holds_mu ps = 1 ->
  (wake <$> ps) !! i = Some p /\
  (forall f, (forall q, f (wake q) = f q) -> cnt f (wake <$> ps) = cnt f ps) /\
  cnt r_parked (wake <$> ps) = 0 /\ cnt w_parked (wake <$> ps) = 0.
Proof.
  intros Hi Hmu Hp H1. split; [rewrite list_lookup_fmap, Hi; by destruct p|].
  split; [intros f Hf; by apply cnt_wake|]. split.
  - rewrite cnt_fmap. apply cnt_const_false. by intros [].
  - rewrite cnt_fmap. eapply (cnt_sole _ holds_mu); [done|done| |done|done|by intros []].
    by destruct p.
Qed.

Ltac lock_bcast Hi Hmu :=
  destruct (wake_counts _ _ _ Hi eq_refl eq_refl ltac:(lia)) as (Hi' & Hw & Hrp & Hwp);
  pose proof (Hw holds_mu ltac:(by intros [])); pose proof (Hw counted ltac:(by intros []));
  pose proof (Hw reading ltac:(by intros [])); pose proof (Hw r_waiting ltac:(by intros []));
  pose proof (Hw w_waiting ltac:(by intros [])); pose proof (Hw writing ltac:(by intros []));
  pose proof (Hw handing_off ltac:(by intros [])).

(** The thread list after a step. *)
Definition after (bc : bool) (i : nat) (p' : pc) (ps : list pc) : list pc :=
  <[i := p']> (if bc then wake <$> ps else ps).

(** The mutex holder is alone. *)
Lemma mu_sole l ps i p : inv l ps -> ps !! i = Some p -> holds_mu p = true -> cnt holds_mu ps = 1.
Proof.
  intros HI Hi Hp. assert (0 < cnt holds_mu ps) by (apply cnt_pos; eauto).
  rewrite (inv_mu _ _ HI) in *. destruct (mu l); cbn in *; lia.
Qed.

Ltac lock_take Hi E :=
  apply take_mu_spec in E as (Hm & -> & -> & ->); rewrite Hm in *; lock_facts Hi; lock_close Hi.

Lemma rLockSlow_inv l ps i p l' p' bc :
  inv l ps -> ps !! i = Some p -> rLockSlow i l p = Some (l', p', bc) ->
  inv l' (after bc i p' ps).
Proof.
  intros HI Hi E. pose proof (mu_sole _ _ _ _ HI Hi) as Hs.
  destruct HI as [Hlen Hmu Hrd Hww Hwa Hex Hrw Hpr Hpw]. unfold after.
  destruct p; try done; cbn [rLockSlow] in E; cbn in Hs; try specialize (Hs eq_refl).
  - lock_take Hi E.
  - injection E as <- <- <-. lock_facts Hi. destruct (_ =? _) eqn:E.
    + lock_bcast Hi Hmu. lock_close Hi'.
    + lock_close Hi.
  - destruct (_ || _) eqn:Eb in E; lock_case Hi E.
  - lock_take Hi E.
  - lock_case Hi E.
Qed.

Lemma rUnlock_inv l ps i p l' p' bc :
  inv l ps -> ps !! i = Some p -> rUnlock i l p = Some (l', p', bc) ->
  inv l' (after bc i p' ps).
Proof.
  intros HI Hi E. pose proof (mu_sole _ _ _ _ HI Hi) as Hs.
  destruct HI as [Hlen Hmu Hrd Hww Hwa Hex Hrw Hpr Hpw]. unfold after.
  destruct p; try done; cbn [rUnlock] in E; cbn in Hs; try specialize (Hs eq_refl).
  - assert (0 < cnt counted ps) by (apply cnt_pos; eauto).
    assert (0 < cnt reading ps) by (apply cnt_pos; eauto). lock_case Hi E.
  - lock_take Hi E.
  - injection E as <- <- <-. lock_facts Hi. lock_bcast Hi Hmu. lock_close Hi'.
  - lock_case Hi E.
Qed.

Lemma lock_inv l ps i p l' p' bc :
  inv l ps -> ps !! i = Some p -> lock i l p = Some (l', p', bc) ->
  inv l' (after bc i p' ps).
Proof.
  intros HI Hi E. pose proof (mu_sole _ _ _ _ HI Hi) as Hs.
  destruct HI as [Hlen Hmu Hrd Hww Hwa Hex Hrw Hpr Hpw]. unfold after.
  destruct p; try done; cbn [lock] in E; cbn in Hs; try specialize (Hs eq_refl).
  - lock_take Hi E.
  - lock_case Hi E.
  - assert (0 < cnt w_waiting ps) by (apply cnt_pos; eauto).
    destruct (_ || _) eqn:Eb in E; lock_case Hi E.
  - lock_case Hi E.
  - lock_take Hi E.
  - lock_case Hi E.
Qed.

Lemma unlock_inv l ps i p l' p' bc :
  inv l ps -> ps !! i = Some p -> unlock i l p = Some (l', p', bc) ->
  inv l' (after bc i p' ps).
Proof.
  intros HI Hi E. pose proof (mu_sole _ _ _ _ HI Hi) as Hs.
  destruct HI as [Hlen Hmu Hrd Hww Hwa Hex Hrw Hpr Hpw]. unfold after.
  destruct p; try done; cbn [unlock] in E; cbn in Hs; try specialize (Hs eq_refl).
  - lock_case Hi E.
  - lock_take Hi E.
  - assert (0 < cnt writing ps) by (apply cnt_pos; eauto).
    injection E as <- <- <-. lock_facts Hi. lock_bcast Hi Hmu. case_match; lock_close Hi'.
  - lock_case Hi E.
Qed.

Lemma tryLock_inv l ps i p l' p' bc :
  inv l ps -> ps !! i = Some p -> tryLock i l p = Some (l', p', bc) ->
  inv l' (after bc i p' ps).
Proof.
  intros HI Hi E. pose proof (mu_sole _ _ _ _ HI Hi) as Hs.
  destruct HI as [Hlen Hmu Hrd Hww Hwa Hex Hrw Hpr Hpw]. unfold after.
  destruct p; try done; cbn [tryLock] in E; cbn in Hs; try specialize (Hs eq_refl).
  - lock_take Hi E.
  - destruct (_ || _) eqn:Eb in E; [lock_case Hi E|].
    destruct (_ =? _) eqn:Er in E; lock_case Hi E.
  - lock_case Hi E.
  - lock_case Hi E.
Qed.

Lemma step_inv c c' : inv (shared c) (threads c) -> step c c' -> inv (shared c') (threads c').
Proof.
  intros HI Hst. inversion Hst as [i a c0 c1 E]; subst c0 c1. unfold exec in E. destruct (threads c !! i) as [p|] eqn:Hi; [|done].
  destruct (thread_step i a (shared c) p) as [[[l' p'] bc]|] eqn:Et; [|done].
  injection E as <-. cbn [shared threads]. fold (after bc i p' (threads c)).
  destruct p; cbn [thread_step] in Et; try done;
    eauto using rLockSlow_inv, rUnlock_inv, lock_inv, unlock_inv, tryLock_inv.
  destruct a.
  - destruct (rLock_inv _ _ _ _ _ _ HI Hi Et) as [-> ?]. done.
  - destruct HI as [Hlen Hmu Hrd Hww Hwa Hex Hrw Hpr Hpw]. unfold after. lock_case Hi Et.
  - destruct HI as [Hlen Hmu Hrd Hww Hwa Hex Hrw Hpr Hpw]. unfold after. lock_case Hi Et.
Qed.

Lemma init_inv n : Z.of_nat n <= bufMaxReaders -> inv newBufferRWLock (replicate n Idle).
Proof.
  intros Hn. constructor; rewrite ?cnt_replicate_Idle by done; try done; try lia.
  unfold zlen. by rewrite length_replicate.
Qed.

Lemma reachable_inv n c :
  Z.of_nat n <= bufMaxReaders -> reachable n c -> inv (shared c) (threads c).
Proof. intros Hn. induction 1; [by apply init_inv|by eapply step_inv]. Qed.

(** ** The contract: an abstract reader-writer lock *)

Inductive mode : Type := MNone | MRead | MWrite.
#[global] Instance mode_eq_dec : EqDecision mode.
Proof. solve_decision. Defined.

Definition mode_of (p : pc) : mode :=
  if reading p then MRead else if writing p then MWrite else MNone.

Definition modes (c : config) : list mode := mode_of <$> threads c.

(** What the lock promises: read access is granted only while nobody writes,
    write access only while nobody else holds any access. *)
Inductive grant (ms : list mode) : list mode -> Prop :=
| grant_read i : ms !! i = Some MNone -> MWrite ∉ ms -> grant ms (<[i := MRead]> ms)
| grant_write i : ms !! i = Some MNone -> MWrite ∉ ms -> MRead ∉ ms -> grant ms (<[i := MWrite]> ms)
| release_read i : ms !! i = Some MRead -> grant ms (<[i := MNone]> ms)
| release_write i : ms !! i = Some MWrite -> grant ms (<[i := MNone]> ms).

Lemma cnt_unique f ps i j p q :
  f Idle = false -> cnt f ps <= 1 ->
  ps !! i = Some p -> ps !! j = Some q -> f p = true -> f q = true -> i = j.
Proof.
  intros E Hc Hi Hj Hp Hq. destruct (decide (i = j)) as [|Hne]; [done|].
  pose proof (cnt_nonneg f (<[i := Idle]> (<[j := Idle]> ps))) as H.
  assert ((<[j := Idle]> ps) !! i = Some p) as Hi' by by rewrite list_lookup_insert_ne.
  rewrite (cnt_insert f _ i p Idle Hi'), (cnt_insert f ps j q Idle Hj), Hp, Hq, E in H. cbn in H. lia.
Qed.

Lemma modes_write c : MWrite ∈ modes c <-> 0 < cnt writing (threads c).
Proof.
  unfold modes. rewrite cnt_pos, list_elem_of_lookup. setoid_rewrite list_lookup_fmap.
  setoid_rewrite fmap_Some. unfold mode_of. split.
  - intros (i & p & Hp & E). exists i, p. split; [done|]. by destruct p.
  - intros (i & p & Hp & E). exists i, p. split; [done|]. by destruct p.
Qed.

Lemma modes_read c : MRead ∈ modes c <-> 0 < cnt reading (threads c).
Proof.
  unfold modes. rewrite cnt_pos, list_elem_of_lookup. setoid_rewrite list_lookup_fmap.
  setoid_rewrite fmap_Some. unfold mode_of. split.
  - intros (i & p & Hp & E). exists i, p. split; [done|]. by destruct p.
  - intros (i & p & Hp & E). exists i, p. split; [done|]. by destruct p.
Qed.

Lemma writing_at_most_one l ps : inv l ps -> cnt writing ps <= 1.
Proof. intros HI. pose proof (inv_wa _ _ HI). destruct (writerActive l); cbn in *; lia. Qed.

(** The effect of a step on one thread and on the modes. *)
Lemma step_modes c c' :
  step c c' -> exists i p p' a l' bc,
    threads c !! i = Some p /\ thread_step i a (shared c) p = Some (l', p', bc) /\
    c' = Config l' (after bc i p' (threads c)) /\ modes c' = <[i := mode_of p']> (modes c).
Proof.
  intros Hst. inversion Hst as [i a c0 c1 E]; subst c0 c1. unfold exec in E.
  destruct (threads c !! i) as [p|] eqn:Hi; [|done].
  destruct (thread_step i a (shared c) p) as [[[l' p'] bc]|] eqn:Et; [|done].
  injection E as <-. exists i, p, p', a, l', bc. repeat split; try done.
  unfold modes. cbn [threads]. rewrite list_fmap_insert. f_equal. destruct bc; [|done].
  rewrite <- list_fmap_compose. apply list_fmap_ext. intros _ q _. by destruct q.
Qed.

(** Which program counters one step can connect, up to access. *)
Lemma thread_step_modes i a l p l' p' bc :
  thread_step i a l p = Some (l', p', bc) ->
  mode_of p' = mode_of p \/ (mode_of p = MNone) \/ (mode_of p' = MNone).
Proof.
  intros E. destruct p; cbn in E; unfold mode_of; try (by destruct p'; auto);
    try (destruct a; cbn in E); unfold take_mu, drop_mu in E; repeat case_match; simplify_eq; cbn; auto.
Qed.

(** C2. The atomic-operation implementation refines the abstract lock: in every
    execution of any number of threads up to the bias, each step either leaves
    every thread's access unchanged or is a grant or release the contract
    allows. *)
Theorem lock_refines n c c' :
  Z.of_nat n <= bufMaxReaders -> reachable n c -> step c c' ->
  modes c' = modes c \/ grant (modes c) (modes c').
Proof.
  intros Hn Hr Hst. pose proof (reachable_inv n c' Hn ltac:(by econstructor)) as HI'.
  destruct (step_modes _ _ Hst) as (i & p & p' & a & l' & bc & Hi & Et & -> & Hm).
  set (c' := Config l' (after bc i p' (threads c))) in *.
  assert (modes c !! i = Some (mode_of p)) as Hmi by (unfold modes; by rewrite list_lookup_fmap, Hi).
  assert (modes c' !! i = Some (mode_of p')) as Hmi'.
  { rewrite Hm. apply list_lookup_insert_eq. by eapply lookup_lt_Some. }
  assert (forall m, m ∈ modes c -> mode_of p <> m -> m ∈ modes c') as Hkeep.
  { intros m Hin Hne. apply list_elem_of_lookup in Hin as [j Hj]. apply list_elem_of_lookup.
    exists j. rewrite Hm, list_lookup_insert_ne; [done|]. intros <-. congruence. }
  pose proof (inv_ex _ _ HI') as Hex. pose proof (writing_at_most_one _ _ HI') as H1.
  destruct (thread_step_modes _ _ _ _ _ _ _ Et) as [Eq|[Hp|Hp]].
  - left. rewrite Hm, Eq. by apply list_insert_id.
  - destruct (mode_of p') eqn:Ep'.
    + left. rewrite Hm, <- Hp. by apply list_insert_id.
    + right. rewrite Hm. rewrite Hp in Hmi. apply grant_read; [done|]. intros Hw.
      apply Hkeep in Hw; [|by rewrite Hp]. apply modes_write in Hw. specialize (Hex Hw).
      assert (MRead ∈ modes c') as Hrd by by eapply list_elem_of_lookup_2.
      apply modes_read in Hrd. lia.
    + right. rewrite Hm. rewrite Hp in Hmi.
      assert (MWrite ∈ modes c') as Hw' by by eapply list_elem_of_lookup_2.
      apply modes_write in Hw'. apply grant_write; [done|..].
      * intros Hw. apply list_elem_of_lookup in Hw as [j Hj].
        assert (i <> j) as Hij by congruence.
        assert (modes c' !! j = Some MWrite) as Hj' by by rewrite Hm, list_lookup_insert_ne.
        unfold modes in Hj', Hmi'. rewrite list_lookup_fmap in Hj', Hmi'.
        apply fmap_Some in Hj' as (pj & Hpj & Epj), Hmi' as (pi & Hpi & Epi).
        apply Hij. apply (cnt_unique writing (threads c') i j pi pj); try done; [by destruct pi|by destruct pj].
      * intros Hrd. apply Hkeep in Hrd; [|by rewrite Hp]. apply modes_read in Hrd. specialize (Hex Hw'). lia.
  - destruct (mode_of p) eqn:Ep.
    + left. rewrite Hm, Hp. by apply list_insert_id.
    + right. rewrite Hm, Hp. by apply release_read.
    + right. rewrite Hm, Hp. by apply release_write.
Qed.

(** Mutual exclusion: while a thread holds the write lock, no thread holds
    the read lock and no other thread holds the write lock. *)
Theorem lock_exclusive n c i :
  Z.of_nat n <= bufMaxReaders -> reachable n c -> threads c !! i = Some WHeld ->
  forall j q, threads c !! j = Some q -> q <> RHeld /\ (q = WHeld -> j = i).
Proof.
  intros Hn Hr Hi j q Hj. pose proof (reachable_inv n c Hn Hr) as HI.
  assert (0 < cnt writing (threads c)) as Hw by (apply cnt_pos; eauto).
  pose proof (inv_ex _ _ HI Hw) as H0. split.
  - intros ->. assert (0 < cnt reading (threads c)) by (apply cnt_pos; eauto). lia.
  - intros ->. eapply (cnt_unique writing); eauto using writing_at_most_one.
Qed.

(** Writer preference: from the moment one writer waits until the last
    writer is gone, no step grants read access to anyone. *)
Theorem writer_preference n c c' :
  Z.of_nat n <= bufMaxReaders -> reachable n c -> step c c' ->
  0 < writersWaiting (shared c) \/ writerActive (shared c) = true ->
  cnt reading (threads c') <= cnt reading (threads c).
Proof.
  intros Hn Hr Hst Hb. pose proof (reachable_inv n c Hn Hr) as HI.
  destruct (step_modes _ _ Hst) as (i & p & p' & a & l' & bc & Hi & Et & -> & _). cbn [threads].
  assert (Hi' : (if bc then wake <$> threads c else threads c) !! i = Some (if bc then wake p else p))
    by (destruct bc; [by rewrite list_lookup_fmap, Hi|done]).
  unfold after. rewrite (cnt_insert _ _ _ _ _ Hi').
  assert (cnt reading (if bc then wake <$> threads c else threads c) = cnt reading (threads c)) as ->
    by (destruct bc; [apply cnt_wake; by intros []|done]).
  assert (reading p' = true -> reading p = true) as Hpp.
  { lock_facts Hi. destruct HI as [Hlen Hmu Hrd Hww Hwa Hex Hrw Hpr Hpw].
    destruct p; cbn in Et; try done; try (destruct a; cbn in Et);
      unfold rLock, take_mu, drop_mu, bias, bufMaxReaders in *; cbn in *;
      repeat case_match; simplify_eq; cbn; try done; try lia;
      rewrite wrap32_id in * by (unfold MaxInt32; lia); lia. }
  destruct bc, p', p; cbn in *; try lia; by specialize (Hpp eq_refl).
Qed.

(** A thread that is neither idle nor inside its critical section. *)
Definition in_protocol (p : pc) : Prop := p <> Idle /\ p <> RHeld /\ p <> WHeld.

(** Every acquiring or releasing thread that is not parked can step, unless it
    waits for the mutex. *)
Lemma can_step c i p :
  threads c !! i = Some p -> in_protocol p -> p <> RWait -> p <> WWait ->
  mu (shared c) = None \/ holds_mu p = true ->
  exists c', exec i CallRLock c = Some c'.
Proof.
  intros Hi (? & ? & ?) ? ? Hm. unfold exec. rewrite Hi.
  destruct p; try done; cbn; unfold take_mu, drop_mu;
    try (destruct Hm as [->|Hm]; [|done]); repeat case_match; simplify_eq; eauto.
Qed.

(** With nobody holding or claiming the lock, a waiting writer is either awake
    or about to be woken. *)
Lemma waiting_writer_wakes l ps :
  inv l ps -> cnt writing ps = 0 -> cnt counted ps = 0 -> 0 < cnt w_waiting ps ->
  exists i p, ps !! i = Some p /\ (p = WLoop \/ p = WPark \/ p = WWoken \/ p = RUDrain \/ p = RUBcast).
Proof.
  intros HI Hw Hc Hww. destruct HI as [Hlen Hmu Hrd Hwwz Hwa Hex Hrw Hpr Hpw].
  apply cnt_pos in Hww as (i & p & Hi & Hp).
  destruct (decide (p = WWait)) as [->|]; [|exists i, p; split; [done|by destruct p; auto]].
  assert (0 < cnt w_parked ps) as Hpk by (apply cnt_pos; eauto).
  assert (0 < cnt w_waiting ps) by (apply cnt_pos; eauto).
  assert (writerActive l = false) by (destruct (writerActive l); cbn in *; lia).
  assert (0 < cnt handing_off ps) as Hh by (apply Hpw; unfold bias in *; try done; lia).
  apply cnt_pos in Hh as (k & q & Hk & Hq). exists k, q. split; [done|]. destruct q; auto; done.
Qed.

(** C5. No lost wake-up, no deadlock inside the lock: in every reachable state
    in which some thread is still acquiring or releasing, either some thread is
    inside its critical section (and will release) or some thread that is
    acquiring or releasing can take its next step. In particular parked
    threads alone are impossible. *)
Theorem lock_progress n c :
  Z.of_nat n <= bufMaxReaders -> reachable n c ->
  (exists i p, threads c !! i = Some p /\ in_protocol p) ->
  (exists i p, threads c !! i = Some p /\ (p = RHeld \/ p = WHeld)) \/
  (exists i p, threads c !! i = Some p /\ in_protocol p /\
     exists c', exec i CallRLock c = Some c').
Proof.
  intros Hn Hr (i & p & Hi & Hp). pose proof (reachable_inv n c Hn Hr) as HI.
  assert (forall f, 0 < cnt f (threads c) \/ cnt f (threads c) = 0) as Hz
    by (intros f; pose proof (cnt_nonneg f (threads c)); lia).
  destruct (Hz holds_mu) as [Hm|Hm].
  { apply cnt_pos in Hm as (k & q & Hk & Hq). right. exists k, q.
    split; [done|]. split; [by destruct q|]. apply (can_step c k q); auto; by destruct q. }
  assert (mu (shared c) = None) as Hmu
    by (rewrite (inv_mu _ _ HI) in Hm; by destruct (mu (shared c))).
  assert (forall k q, threads c !! k = Some q -> q <> Idle -> q <> RWait -> q <> WWait ->
    (exists i p, threads c !! i = Some p /\ (p = RHeld \/ p = WHeld)) \/
    (exists i p, threads c !! i = Some p /\ in_protocol p /\ exists c', exec i CallRLock c = Some c')) as Hgo.
  { intros k q Hk ???. destruct (decide (q = RHeld \/ q = WHeld)) as [|Hno]; [left; eauto|].
    right. exists k, q. assert (in_protocol q) by (repeat split; naive_solver).
    split; [done|]. split; [done|]. apply (can_step c k q); auto. }
  destruct (decide (p = RWait \/ p = WWait)) as [Hpark|Hnp];
    [|apply (Hgo i p); [done|apply Hp|naive_solver..]].
  destruct (Hz writing) as [Hw|Hw];
    [apply cnt_pos in Hw as (k & q & Hk & Hq); apply (Hgo k q); auto; by destruct q|].
  destruct (Hz counted) as [Hc|Hc];
    [apply cnt_pos in Hc as (k & q & Hk & Hq); apply (Hgo k q); auto; by destruct q|].
  assert (0 < cnt w_waiting (threads c)) as Hww.
  { destruct Hpark as [->| ->]; [|apply cnt_pos; eauto].
    assert (0 < cnt r_parked (threads c)) as Hpk by (apply cnt_pos; eauto).
    pose proof (inv_pr _ _ HI Hpk) as Hb. pose proof (inv_wa _ _ HI). pose proof (inv_ww _ _ HI).
    unfold bias in Hb. destruct (writerActive (shared c)); cbn in *; lia. }
  destruct (waiting_writer_wakes _ _ HI Hw Hc Hww) as (k & q & Hk & Hq).
  apply (Hgo k q); [done|naive_solver..].
Qed.

(** C6. The int32 reader word never wraps, and its value is exactly the number
    of counted readers, biased by one [bufMaxReaders] while a writer is active
    or waiting. *)
Theorem lock_word_exact n c :
  Z.of_nat n <= bufMaxReaders -> reachable n c ->
  readers (shared c) = cnt counted (threads c) - bufMaxReaders * Z.b2z (bias (shared c)) /\
  - 2 ^ 30 <= readers (shared c) <= 2 ^ 30.
Proof.
  intros Hn Hr. destruct (reachable_inv n c Hn Hr) as [Hlen _ Hrd _ _ _ _ _ _].
  split; [done|]. pose proof (cnt_le_length counted (threads c)).
  pose proof (cnt_nonneg counted (threads c)). unfold bufMaxReaders in *.
  destruct (bias (shared c)); cbn in *; lia.
Qed.

(** ** A concrete execution, for the witnesses: thread 0 reads, thread 1 asks
    for the write lock, parks, and is woken by the reader's hand-off. *)
Fixpoint run (sched : list (nat * op)) (c : config) : option config :=
  match sched with
  | [] => Some c
  | (i, a) :: sched' => match exec i a c with Some c' => run sched' c' | None => None end
  end.

Lemma run_reachable n sched c c' : reachable n c -> run sched c = Some c' -> reachable n c'.
Proof.
  revert c. induction sched as [|[i a] sched IH]; intros c Hr; cbn; [by intros [= ->]|].
  destruct (exec i a c) as [c1|] eqn:E; [|done]. intros H. eapply IH; [|done].
  eapply reach_step; [done|]. by econstructor.
Qed.

Definition demo_sched : list (nat * op) :=
  [(0, CallRLock); (1, CallLock); (1, CallLock); (1, CallLock); (1, CallLock); (1, CallLock)]%nat.
Definition demo_parked : config := default (init 2) (run demo_sched (init 2)).
Definition demo_sched_held : list (nat * op) :=
  demo_sched ++ [(0, CallRLock); (0, CallRLock); (0, CallRLock); (0, CallRLock);
                 (1, CallLock); (1, CallLock); (1, CallLock)]%nat.
Definition demo_held : config := default (init 2) (run demo_sched_held (init 2)).

Example demo_states : threads demo_parked = [RHeld; WWait] /\ threads demo_held = [Idle; WHeld].
Proof. vm_compute. done. Qed.

Lemma demo_parked_reachable : reachable 2 demo_parked.
Proof. eapply (run_reachable 2 demo_sched (init 2)); [constructor|]. vm_compute. done. Qed.

Lemma demo_held_reachable : reachable 2 demo_held.
Proof. eapply (run_reachable 2 demo_sched_held (init 2)); [constructor|]. vm_compute. done. Qed.

Definition demo_next : config := default (init 2) (exec 0 CallRLock demo_parked).

Lemma demo_next_step : step demo_parked demo_next.
Proof. apply (step_exec 0 CallRLock). vm_compute. done. Qed.

Lemma lock_refines_witness :
  modes demo_next = modes demo_parked \/ grant (modes demo_parked) (modes demo_next).
Proof.
  apply (lock_refines 2 demo_parked demo_next);
    [vm_compute; discriminate|exact demo_parked_reachable|exact demo_next_step].
Defined.

Lemma lock_exclusive_witness :
  threads demo_held !! 1%nat = Some WHeld /\
  forall j q, threads demo_held !! j = Some q -> q <> RHeld /\ (q = WHeld -> j = 1%nat).
Proof.
  split; [vm_compute; reflexivity|].
  apply (lock_exclusive 2 demo_held 1);
    [vm_compute; discriminate|exact demo_held_reachable|vm_compute; reflexivity].
Defined.

Lemma writer_preference_witness :
  cnt reading (threads demo_next) <= cnt reading (threads demo_parked).
Proof.
  apply (writer_preference 2 demo_parked demo_next);
    [vm_compute; discriminate|exact demo_parked_reachable|exact demo_next_step|
     left; vm_compute; reflexivity].
Defined.

Lemma lock_progress_witness :
  (exists i p, threads demo_next !! i = Some p /\ (p = RHeld \/ p = WHeld)) \/
  (exists i p, threads demo_next !! i = Some p /\ in_protocol p /\
     exists c', exec i CallRLock demo_next = Some c').
Proof.
  apply (lock_progress 2 demo_next);
    [vm_compute; discriminate|exact (reach_step 2 _ _ demo_parked_reachable demo_next_step)|].
  exists 1%nat, WWait. split; [vm_compute; reflexivity|]. repeat split; discriminate.
Defined.

Lemma lock_word_exact_witness :
  readers (shared demo_parked) =
    cnt counted (threads demo_parked) - bufMaxReaders * Z.b2z (bias (shared demo_parked)) /\
  - 2 ^ 30 <= readers (shared demo_parked) <= 2 ^ 30.
Proof.
  apply (lock_word_exact 2 demo_parked); [vm_compute; discriminate|exact demo_parked_reachable].
Defined.
