(* ===== verification/World.v ===== *)
(** * The process state

    The data model of the package: one record per Go struct, the state of the
    process the package lives in (mappings with their page protection, atomic
    flags, region locks, the package-level variables), the kernel as a class of
    parameters, and the primitive memory accesses that fault when the page
    protection forbids them. *)
From S2P Require Import Prelude Errors Canary.

(** ** Data *)

(** region.go: [outer] is the reservation [[base, base+outer_len)], [inner] the
    page-rounded window that starts one guard page later. The zero value means
    "no allocation"; an allocated [inner] is never empty. *)
Record secRegion : Type := SecRegion {
  rg_base : Z;
  rg_inner : Z;
  rg_outer : Z
}.
Definition secRegion_nil : secRegion := SecRegion 0 0 0.

#[global] Instance secRegion_eq_dec : EqDecision secRegion.
Proof. solve_decision. Defined.

(** capabilities.go: what an allocation actually received. *)
Record allocInfo : Type := AllocInfo {
  ai_offHeap : bool;
  ai_mlocked : bool;
  ai_memfdSecret : bool;
  ai_noDump : bool;
  ai_noFork : bool;
  ai_guardPages : bool;
  ai_insecure : bool;
  ai_unauthenticatedSeal : bool;
  ai_closedAtRest : bool
}.

(** options.go: the folded constructor options. *)
Record cfg : Type := Cfg {
  insecureFallback : bool;
  unauthenticatedSeal : bool;
  closedAtRestOpt : bool;
  noMemfdSecret : bool
}.

(** registry.go: one registration. Locks and atomic flags are pointers; a nil
    [*atomic.Bool] is [None]. *)
Record janitorRegion : Type := JanitorRegion {
  jr_region : secRegion;
  jr_mu : Z;
  jr_canary : canaryLayout;
  jr_sealCipher : option Z;
  jr_wiped : option Z
}.

(** registry.go: the janitor's two sets, with the key counter beside them. *)
Record janitor : Type := Janitor {
  jn_regions : gmap Z janitorRegion;
  jn_wiped : gmap Z janitorRegion;
  jn_nextKey : Z
}.

(** quarantine.go. A held reservation is its address and length. *)
Record QuarantineLimits : Type := MkQuarantineLimits { ql_Regions : Z; ql_Bytes : Z }.
Record quarantine : Type := Quarantine {
  q_limits : QuarantineLimits;
  q_held : list (Z * Z);
  q_bytes : Z
}.

(** sealauth.go: the process's prekey. [sk_lock = 0] is the nil lock of a
    keyring not initialised yet. *)
Record sealKeyring : Type := SealKeyring {
  sk_region : secRegion;
  sk_lock : Z;
  sk_wiped : Z;
  sk_key : Z;
  sk_gen : Z
}.

(** securebuf.go. [bs_data = Some n] is the slice [region.inner[:n:n]], [None]
    the nil slice; [bs_mu], [bs_sealCipher] and [bs_wiped] are pointers. *)
Record bufferState : Type := BufferState {
  bs_data : option Z;
  bs_region : secRegion;
  bs_mu : Z;
  bs_janitorKey : Z;
  bs_sealed : bool;
  bs_readOnly : bool;
  bs_sealCipher : Z;
  bs_wiped : Z;
  bs_backing : allocInfo;
  bs_sealAuth : bool;
  bs_sealTagged : bool;
  bs_sealGen : Z;
  bs_sealNonce : list Z;
  bs_sealTag : list Z;
  bs_closedAtRest : bool;
  bs_openers : Z
}.

(** Assignments to its fields. *)
Definition bs_set_data d r (s : bufferState) : bufferState :=
  BufferState d r (bs_mu s) (bs_janitorKey s) (bs_sealed s) (bs_readOnly s) (bs_sealCipher s) (bs_wiped s)
    (bs_backing s) (bs_sealAuth s) (bs_sealTagged s) (bs_sealGen s) (bs_sealNonce s) (bs_sealTag s)
    (bs_closedAtRest s) (bs_openers s).
Definition bs_set_sealed b (s : bufferState) : bufferState :=
  BufferState (bs_data s) (bs_region s) (bs_mu s) (bs_janitorKey s) b (bs_readOnly s) (bs_sealCipher s) (bs_wiped s)
    (bs_backing s) (bs_sealAuth s) (bs_sealTagged s) (bs_sealGen s) (bs_sealNonce s) (bs_sealTag s)
    (bs_closedAtRest s) (bs_openers s).
Definition bs_set_readOnly b (s : bufferState) : bufferState :=
  BufferState (bs_data s) (bs_region s) (bs_mu s) (bs_janitorKey s) (bs_sealed s) b (bs_sealCipher s) (bs_wiped s)
    (bs_backing s) (bs_sealAuth s) (bs_sealTagged s) (bs_sealGen s) (bs_sealNonce s) (bs_sealTag s)
    (bs_closedAtRest s) (bs_openers s).
Definition bs_set_tagged b (s : bufferState) : bufferState :=
  BufferState (bs_data s) (bs_region s) (bs_mu s) (bs_janitorKey s) (bs_sealed s) (bs_readOnly s) (bs_sealCipher s) (bs_wiped s)
    (bs_backing s) (bs_sealAuth s) b (bs_sealGen s) (bs_sealNonce s) (bs_sealTag s)
    (bs_closedAtRest s) (bs_openers s).
Definition bs_set_seal g n t (s : bufferState) : bufferState :=
  BufferState (bs_data s) (bs_region s) (bs_mu s) (bs_janitorKey s) (bs_sealed s) (bs_readOnly s) (bs_sealCipher s) (bs_wiped s)
    (bs_backing s) (bs_sealAuth s) (bs_sealTagged s) g n t (bs_closedAtRest s) (bs_openers s).
Definition bs_set_openers n (s : bufferState) : bufferState :=
  BufferState (bs_data s) (bs_region s) (bs_mu s) (bs_janitorKey s) (bs_sealed s) (bs_readOnly s) (bs_sealCipher s) (bs_wiped s)
    (bs_backing s) (bs_sealAuth s) (bs_sealTagged s) (bs_sealGen s) (bs_sealNonce s) (bs_sealTag s)
    (bs_closedAtRest s) n.
Definition bs_set_closed i (s : bufferState) : bufferState :=
  BufferState (bs_data s) (bs_region s) (bs_mu s) (bs_janitorKey s) (bs_sealed s) (bs_readOnly s) (bs_sealCipher s) (bs_wiped s)
    i (bs_sealAuth s) (bs_sealTagged s) (bs_sealGen s) (bs_sealNonce s) (bs_sealTag s)
    true (bs_openers s).

(** securearena.go: per-slot metadata and the arena. *)
Record slotMeta : Type := SlotMeta { sm_generation : Z; sm_next : Z }.
Record arenaState : Type := ArenaState {
  as_mu : Z;
  as_region : secRegion;
  as_readOnly : bool;
  as_slots : list slotMeta;
  as_freeHead : Z;
  as_freeTail : Z;
  as_live : Z;
  as_slotSize : Z;
  as_stride : Z;
  as_count : Z;
  as_backing : allocInfo;
  as_destroyed : bool;
  as_released : bool;
  as_wiped : Z;
  as_janitorKey : Z
}.

(** ** The kernel's side *)

(** One mapping of the process: the reservation with its two guard pages, of
    which only the inner window has contents. [mp_held]: the range is a
    no-access reservation without frames. *)
Record mapping : Type := Mapping {
  mp_bytes : list Z;
  mp_prot : Z;
  mp_locked : bool;
  mp_outer : Z;
  mp_memfd : bool;
  mp_held : bool
}.

Definition PROT_NONE : Z := 0.
Definition PROT_READ : Z := 1.
Definition PROT_RW : Z := 3.

Definition readable (m : mapping) : bool := negb (mp_held m) && Z.testbit (mp_prot m) 0.
Definition writable (m : mapping) : bool := negb (mp_held m) && Z.testbit (mp_prot m) 1.

Inductive goos : Type := Linux | Windows.
#[global] Instance goos_eq_dec : EqDecision goos.
Proof. solve_decision. Defined.

(** The code the package calls and does not contain: the kernel's memory calls,
    crypto/rand, the Windows memory cipher and SHA-512. [k_errno t] is the
    outcome of the process's [t]-th fallible call, so a theorem that holds for
    every [Kernel] holds for every pattern of failures. [k_keeps t]: a MAP_FIXED
    that failed as the [t]-th call left the old range mapped. *)
Class Kernel : Type := {
  k_os : goos;
  k_memfd_arch : bool;
  k_page : Z;
  k_errno : nat -> option Z;
  k_place : gmap Z mapping -> Z -> Z;
  k_keeps : nat -> bool;
  k_rand : nat -> nat -> list Z;
  k_encrypt : nat -> list Z -> list Z;
  k_decrypt : list Z -> list Z;
  k_sha512 : list Z -> list Z
}.

(** [[b, b+n)] meets no mapping. *)
Definition range_free (mem : gmap Z mapping) (b n : Z) : Prop :=
  forall b' m, mem !! b' = Some m -> b + n <= b' \/ b' + mp_outer m <= b.

(** Documented behaviour of that code. *)
Class KernelOk `{Kernel} : Prop := {
  k_page_pos : 0 < k_page;
  k_page_max : 3 * k_page <= MaxInt;
  k_page_block : (16 | k_page);
  k_place_pos : forall mem n, 0 < n -> 0 < k_place mem n;
  k_place_free : forall mem n, 0 < n -> range_free mem (k_place mem n) n;
  k_rand_len : forall t n, length (k_rand t n) = n;
  k_encrypt_len : forall t b, length (k_encrypt t b) = length b;
  k_decrypt_len : forall b, length (k_decrypt b) = length b;
  k_decrypt_encrypt : forall t b, k_decrypt (k_encrypt t b) = b;
  k_sha512_len : forall b, length (k_sha512 b) = 64%nat
}.

(** ** The process *)

(** [cn_done = None] before the [sync.Once] ran, afterwards its error. *)
Record canaryState : Type := CanaryState {
  cn_done : option (option gerr);
  cn_pattern : list Z
}.

(** A region lock seen from the calling goroutine: how many borrows are in
    flight and whether somebody holds it exclusively ([BufLock] has the
    implementation). *)
Record lockState : Type := LockState { lk_readers : Z; lk_writer : bool }.

Record world : Type := World {
  w_mem : gmap Z mapping;
  w_tick : nat;
  w_flags : gmap Z bool;
  w_locks : gmap Z lockState;
  w_next : Z;
  w_canary : canaryState;
  w_jan : janitor;
  w_quar : quarantine;
  w_keys : sealKeyring;
  w_bufs : gmap Z bufferState;
  w_arenas : gmap Z arenaState
}.

Definition set_mem f (w : world) : world :=
  World (f (w_mem w)) (w_tick w) (w_flags w) (w_locks w) (w_next w) (w_canary w)
    (w_jan w) (w_quar w) (w_keys w) (w_bufs w) (w_arenas w).
Definition tick (w : world) : world :=
  World (w_mem w) (S (w_tick w)) (w_flags w) (w_locks w) (w_next w) (w_canary w)
    (w_jan w) (w_quar w) (w_keys w) (w_bufs w) (w_arenas w).
Definition set_flags f (w : world) : world :=
  World (w_mem w) (w_tick w) (f (w_flags w)) (w_locks w) (w_next w) (w_canary w)
    (w_jan w) (w_quar w) (w_keys w) (w_bufs w) (w_arenas w).
Definition set_locks f (w : world) : world :=
  World (w_mem w) (w_tick w) (w_flags w) (f (w_locks w)) (w_next w) (w_canary w)
    (w_jan w) (w_quar w) (w_keys w) (w_bufs w) (w_arenas w).
Definition set_next n (w : world) : world :=
  World (w_mem w) (w_tick w) (w_flags w) (w_locks w) n (w_canary w)
    (w_jan w) (w_quar w) (w_keys w) (w_bufs w) (w_arenas w).
Definition set_canary c (w : world) : world :=
  World (w_mem w) (w_tick w) (w_flags w) (w_locks w) (w_next w) c
    (w_jan w) (w_quar w) (w_keys w) (w_bufs w) (w_arenas w).
Definition set_jan j (w : world) : world :=
  World (w_mem w) (w_tick w) (w_flags w) (w_locks w) (w_next w) (w_canary w)
    j (w_quar w) (w_keys w) (w_bufs w) (w_arenas w).
Definition set_quar q (w : world) : world :=
  World (w_mem w) (w_tick w) (w_flags w) (w_locks w) (w_next w) (w_canary w)
    (w_jan w) q (w_keys w) (w_bufs w) (w_arenas w).
Definition set_keys k (w : world) : world :=
  World (w_mem w) (w_tick w) (w_flags w) (w_locks w) (w_next w) (w_canary w)
    (w_jan w) (w_quar w) k (w_bufs w) (w_arenas w).
Definition set_bufs f (w : world) : world :=
  World (w_mem w) (w_tick w) (w_flags w) (w_locks w) (w_next w) (w_canary w)
    (w_jan w) (w_quar w) (w_keys w) (f (w_bufs w)) (w_arenas w).
Definition set_arenas f (w : world) : world :=
  World (w_mem w) (w_tick w) (w_flags w) (w_locks w) (w_next w) (w_canary w)
    (w_jan w) (w_quar w) (w_keys w) (w_bufs w) (f (w_arenas w)).

Abbreviation GM := (M world).

(** ** Primitive effects *)

Definition with_bytes (bs : list Z) (m : mapping) : mapping :=
  Mapping bs (mp_prot m) (mp_locked m) (mp_outer m) (mp_memfd m) (mp_held m).
Definition with_prot (p : Z) (m : mapping) : mapping :=
  Mapping (mp_bytes m) p (mp_locked m) (mp_outer m) (mp_memfd m) (mp_held m).
Definition with_locked (b : bool) (m : mapping) : mapping :=
  Mapping (mp_bytes m) (mp_prot m) b (mp_outer m) (mp_memfd m) (mp_held m).

(** Loads and stores of a region's inner bytes: a fault unless the mapping is
    there and its protection allows the access. *)
Definition mem_load (b : Z) : GM (list Z) := fun w =>
  match w_mem w !! b with
  | Some m => if readable m then Ret (mp_bytes m) w else Fault
  | None => Fault
  end.

Definition mem_store (b : Z) (bs : list Z) : GM unit := fun w =>
  match w_mem w !! b with
  | Some m => if writable m then Ret tt (set_mem (insert b (with_bytes bs m)) w) else Fault
  | None => Fault
  end.

(** [copy(region.inner[off:], bs)] for bytes that fit; an empty copy touches
    no memory. *)
Definition mem_copy_in (b off : Z) (bs : list Z) : GM unit := fun w =>
  match bs with
  | [] => Ret tt w
  | _ =>
      match w_mem w !! b with
      | Some m => if writable m then Ret tt (set_mem (insert b (with_bytes (lset off bs (mp_bytes m)) m)) w)
                  else Fault
      | None => Fault
      end
  end.

(** Atomic flags. A nil or unknown pointer is a nil dereference. *)
Definition flag_load (p : Z) : GM bool := fun w =>
  match w_flags w !! p with Some b => Ret b w | None => Panic w end.
Definition flag_store (p : Z) (b : bool) : GM unit := fun w =>
  match w_flags w !! p with
  | Some _ => Ret tt (set_flags (insert p b) w)
  | None => Panic w
  end.

(** A buffer's state record. *)
Definition buf_get (p : Z) : GM bufferState := fun w =>
  match w_bufs w !! p with Some st => Ret st w | None => Panic w end.
Definition buf_set (p : Z) (f : bufferState -> bufferState) : GM unit := modify (set_bufs (alter f p)).

(** Fresh heap objects: [new(atomic.Bool)] and [newBufferRWLock()]. *)
Definition new_flag : GM Z := fun w =>
  let p := w_next w in Ret p (set_flags (insert p false) (set_next (p + 1) w)).
Definition new_lock : GM Z := fun w =>
  let p := w_next w in Ret p (set_locks (insert p (LockState 0 false)) (set_next (p + 1) w)).

(** Region locks. A goroutine that asks for exclusive access while a borrow is
    in flight waits for it. *)
Definition lk_rLock (p : Z) : GM unit := fun w =>
  match w_locks w !! p with
  | Some l => if lk_writer l then Block
              else Ret tt (set_locks (insert p (LockState (lk_readers l + 1) false)) w)
  | None => Panic w
  end.
Definition lk_rUnlock (p : Z) : GM unit := fun w =>
  match w_locks w !! p with
  | Some l => Ret tt (set_locks (insert p (LockState (lk_readers l - 1) (lk_writer l))) w)
  | None => Panic w
  end.
Definition lk_lock (p : Z) : GM unit := fun w =>
  match w_locks w !! p with
  | Some l => if lk_writer l || (0 <? lk_readers l) then Block
              else Ret tt (set_locks (insert p (LockState 0 true)) w)
  | None => Panic w
  end.
Definition lk_unlock (p : Z) : GM unit := fun w =>
  match w_locks w !! p with
  | Some l => Ret tt (set_locks (insert p (LockState (lk_readers l) false)) w)
  | None => Panic w
  end.
Definition lk_tryLock (p : Z) : GM bool := fun w =>
  match w_locks w !! p with
  | Some l => if lk_writer l || (0 <? lk_readers l) then Ret false w
              else Ret true (set_locks (insert p (LockState 0 true)) w)
  | None => Panic w
  end.

Section effects.
Context `{Kernel}.

(** The next fallible call: its outcome, and the clock moves. *)
Definition sys : GM (option gerr) := fun w => Ret (Errno <$> k_errno (w_tick w)) (tick w).

(** [rand.Read] of [n] bytes. *)
Definition rand_Read (n : nat) : GM (gerr + list Z) := fun w =>
  match k_errno (w_tick w) with
  | Some e => Ret (inl (Errno e)) (tick w)
  | None => Ret (inr (k_rand (w_tick w) n)) (tick w)
  end.

(** canary.go, [canaryInit]: the [sync.Once] that draws the pattern. *)
Definition canaryInit : GM (option gerr) :=
  st ← gets w_canary;
  match cn_done st with
  | Some err => mret err
  | None =>
      r ← rand_Read (Z.to_nat canaryLen);
      match r with
      | inl e =>
          let err := Some (errorf "secmem: canary init" e) in
          modify (set_canary (CanaryState (Some err) (cn_pattern st)));; mret err
      | inr pat => modify (set_canary (CanaryState (Some None) pat));; mret None
      end
  end.
End effects.
