(* ===== verification/Memory.v ===== *)
(** * Guarded secret memory (mlock_linux.go, mlock_windows.go, wipe_generic.go,
      sealcipher_other.go, sealcipher_windows.go)

    Allocation of a region between two guard pages, its protection, lock and
    release, the wipe, and the seal cipher, for the Linux and the Windows
    ports. The build tag is the [k_os] of the kernel parameter. *)
From S2P Require Import Prelude Errors Canary World.

Section memory.
Context `{Kernel}.

(** ** Kernel calls

    Each is one fallible call with its documented effect on success and none
    on failure. *)

Definition ENOMEM : Z := 12.
Definition EINVAL : Z := 22.
Definition MaxUint32 : Z := 2 ^ 32 - 1.

(** A new mapping of [total] bytes with no access; its inner pages read zero. *)
Definition k_mmap (total : Z) (memfd : bool) : GM (gerr + Z) :=
  e ← sys;
  match e with
  | Some e => mret (inl e)
  | None =>
      mem ← gets w_mem;
      let b := k_place mem total in
      modify (set_mem (insert b
        (Mapping (zeros (total - 2 * k_page)) PROT_NONE memfd total memfd false)));;
      mret (inr b)
  end.

(** A call that changes the mapping at [b] when it succeeds. *)
Definition k_change (b : Z) (f : mapping -> mapping) : GM (option gerr) :=
  mem ← gets w_mem;
  match mem !! b with
  | None => e ← sys; mret (Some (default (Errno ENOMEM) e))
  | Some m =>
      e ← sys;
      match e with
      | Some e => mret (Some e)
      | None => modify (set_mem (insert b (f m)));; mret None
      end
  end.

(** What a protection change does to a mapping. Windows drops the page lock of
    a page that becomes no-access. *)
Definition protect (prot : Z) (m : mapping) : mapping :=
  let m' := with_prot prot m in
  match k_os with
  | Linux => m'
  | Windows => if (prot =? PROT_NONE) then with_locked false m' else m'
  end.

(** MADV_DONTNEED_LOCKED drops the frames: anonymous pages refault as zeros, a
    secretmem file keeps its contents. *)
Definition drop_frames (m : mapping) : mapping :=
  if mp_memfd m then m else with_bytes (zeros (zlen (mp_bytes m))) m.

Definition k_munmap (b : Z) : GM (option gerr) :=
  mem ← gets w_mem;
  match mem !! b with
  | None => e ← sys; mret (Some (default (Errno EINVAL) e))
  | Some _ =>
      e ← sys;
      match e with
      | Some e => mret (Some e)
      | None => modify (set_mem (delete b));; mret None
      end
  end.

Definition is_ok (e : option gerr) : bool := match e with None => true | Some _ => false end.

(** ** Sizes *)

(** [guardedSizes], in 64-bit arithmetic. *)
Definition guardedSizes (size : Z) : gerr + (Z * Z * Z) :=
  if (size <=? 0) then inl (Msg "invalid size")
  else let pageSize := k_page in
  if (wrap64 (MaxInt - wrap64 (3 * pageSize)) <? size)
  then inl (Msg "size too large (page rounding + guards overflow)")
  else let rounded := wrap64 (Z.quot (wrap64 (wrap64 (size + pageSize) - 1)) pageSize * pageSize) in
       inr (pageSize, rounded, wrap64 (rounded + wrap64 (2 * pageSize))).

(** ** Linux *)

Definition unmapOnError (b : Z) : GM unit := _ ← k_munmap b; mret tt.

Definition reserveGuarded (total : Z) : GM (gerr + Z) :=
  r ← k_mmap total false;
  mret match r with
       | inl e => inl (errorf "mmap guard reservation" e)
       | inr b => inr b
       end.

Definition allocMapAnonGuarded (rounded total : Z) : GM (gerr + (secRegion * allocInfo)) :=
  r ← reserveGuarded total;
  match r with
  | inl e => mret (inl e)
  | inr b =>
      e ← k_change b (protect PROT_RW);
      match e with
      | Some e => unmapOnError b;; mret (inl (errorf "mprotect inner RW" e))
      | None =>
          e ← k_change b (with_locked true);
          match e with
          | Some e => unmapOnError b;; mret (inl (errorf "mlock" e))
          | None =>
              noDump ← sys;
              noFork ← sys;
              _ ← sys;
              _ ← sys;
              mret (inr (SecRegion b rounded total,
                AllocInfo true true false (is_ok noDump) (is_ok noFork) true false false false))
          end
      end
  end.

Definition allocMemfdSecret (rounded total : Z) : GM (gerr + (secRegion * bool)) :=
  if negb k_memfd_arch then mret (inl (Msg "memfd_secret: offered on amd64 and arm64 only"))
  else
  errno ← sys;
  fd ← (match errno with
        | Some (Errno n) =>
            if (n =? EINVAL) then
              errno ← sys;
              match errno with
              | Some e => mret (Some e)
              | None =>
                  ferr ← sys;
                  match ferr with
                  | Some e => _ ← sys; mret (Some (errorf "memfd_secret: set FD_CLOEXEC" e))
                  | None => mret None
                  end
              end
            else mret errno
        | _ => mret errno
        end);
  match fd with
  | Some e => mret (inl e)
  | None =>
      e ← sys;
      match e with
      | Some e => _ ← sys; mret (inl (errorf "ftruncate memfd_secret" e))
      | None =>
          r ← k_mmap total true;
          _ ← sys;
          match r with
          | inl e => mret (inl (errorf "mmap memfd_secret" e))
          | inr b =>
              e ← k_change b (protect PROT_RW);
              match e with
              | Some e => unmapOnError b;; mret (inl (errorf "mprotect memfd_secret inner RW" e))
              | None =>
                  _ ← sys;
                  noFork ← sys;
                  mret (inr (SecRegion b rounded total, is_ok noFork))
              end
          end
      end
  end.

Definition allocSecretMem_linux (size : Z) : GM (gerr + (secRegion * Z * allocInfo)) :=
  match guardedSizes size with
  | inl e => mret (inl (errorf "allocSecretMem" e))
  | inr (_, rounded, total) =>
      r ← allocMemfdSecret rounded total;
      match r with
      | inr (region, noFork) =>
          mret (inr (region, size, AllocInfo true true true true noFork true false false false))
      | inl _ =>
          r ← allocMapAnonGuarded rounded total;
          mret match r with
               | inl e => inl e
               | inr (region, info) => inr (region, size, info)
               end
      end
  end.

Definition allocMapAnon_linux (size : Z) : GM (gerr + (secRegion * Z * allocInfo)) :=
  match guardedSizes size with
  | inl e => mret (inl (errorf "allocMapAnon" e))
  | inr (_, rounded, total) =>
      r ← allocMapAnonGuarded rounded total;
      mret match r with
           | inl e => inl e
           | inr (region, info) => inr (region, size, info)
           end
  end.

(** ** Windows *)

(** [werExcludeFromDumps]. *)
Definition werExcludeFromDumps (innerLen : Z) : GM bool :=
  if (innerLen =? 0) || (MaxUint32 <? innerLen) then mret false
  else find ← sys;
       match find with
       | Some _ => mret false
       | None => hr ← sys; mret (is_ok hr)
       end.

Definition werUnexclude (innerLen : Z) : GM unit :=
  if (innerLen =? 0) then mret tt
  else find ← sys;
       match find with
       | Some _ => mret tt
       | None => _ ← sys; mret tt
       end.

Definition allocSecretMem_windows (size : Z) : GM (gerr + (secRegion * Z * allocInfo)) :=
  match guardedSizes size with
  | inl e => mret (inl (errorf "allocSecretMem" e))
  | inr (_, rounded, total) =>
      r ← k_mmap total false;
      match r with
      | inl e => mret (inl (errorf "VirtualAlloc reserve" e))
      | inr b =>
          e ← k_change b (protect PROT_RW);
          match e with
          | Some e => _ ← k_munmap b; mret (inl (errorf "VirtualAlloc commit" e))
          | None =>
              e ← k_change b (with_locked true);
              match e with
              | Some e => _ ← k_munmap b; mret (inl (errorf "VirtualLock" e))
              | None =>
                  noDump ← werExcludeFromDumps rounded;
                  mret (inr (SecRegion b rounded total, size,
                    AllocInfo true true false noDump false true false false false))
              end
          end
      end
  end.

(** ** The ports' common interface *)

Definition allocSecretMem (size : Z) : GM (gerr + (secRegion * Z * allocInfo)) :=
  match k_os with
  | Linux => allocSecretMem_linux size
  | Windows => allocSecretMem_windows size
  end.

Definition allocMapAnon (size : Z) : GM (gerr + (secRegion * Z * allocInfo)) :=
  match k_os with
  | Linux => allocMapAnon_linux size
  | Windows => allocSecretMem_windows size
  end.

(** Unlock (best effort), then release the whole reservation; Windows gives the
    WER registration back first. *)
Definition freeSecretMem (r : secRegion) : GM (option gerr) :=
  if (rg_outer r =? 0) then mret None
  else (match k_os with Linux => mret tt | Windows => werUnexclude (rg_inner r) end);;
       _ ← k_change (rg_base r) (with_locked false); k_munmap (rg_base r).

Definition madviseBeforeFree (r : secRegion) : GM (option gerr) :=
  match k_os with
  | Linux => k_change (rg_base r) drop_frames
  | Windows => mret None
  end.

Definition mprotectSecretMem (r : secRegion) (prot : Z) : GM (option gerr) :=
  match k_os with
  | Linux => k_change (rg_base r) (protect prot)
  | Windows =>
      if (rg_inner r =? 0) then mret None
      else if (prot =? PROT_NONE) || (prot =? PROT_READ) || (prot =? PROT_RW)
           then k_change (rg_base r) (protect prot)
           else mret (Some (Msg "mprotectSecretMem: unsupported protection"))
  end.

Definition relockSecretMem (r : secRegion) : GM (option gerr) :=
  match k_os with
  | Linux => mret None
  | Windows =>
      if (rg_inner r =? 0) then mret None
      else e ← k_change (rg_base r) (with_locked true);
           mret match e with Some e => Some (errorf "VirtualLock" e) | None => None end
  end.

(** ** The wipe *)

(** wipe_generic.go's [secureWipe]: every byte is overwritten with the byte
    loaded from [wipeZero], then read back into the accumulator. Returns the
    contents and what is published to [wipeSink]. *)
Definition secureWipe (wipeZero : Z) (b : list Z) : list Z * Z :=
  let b' := (fun _ => wipeZero mod 256) <$> b in
  (b', foldl Z.lor 0 b').

(** [secureWipeSlice(region.inner[lo:hi])]; [wipeZero] is never written. *)
Definition secureWipeSlice (base lo hi : Z) : GM unit :=
  if (hi <=? lo) then mret tt
  else bs ← mem_load base;
       mem_copy_in base lo (secureWipe 0 (lsub lo hi bs)).1.

(** [secureWipeSlice(region.inner)]. *)
Definition wipeInner (r : secRegion) : GM unit := secureWipeSlice (rg_base r) 0 (rg_inner r).

(** ** The seal cipher *)

Definition cryptProtectMemoryBlockSize : Z := 16.

Definition sealCipherLen (n : Z) : gerr + Z :=
  if negb (Z.rem n cryptProtectMemoryBlockSize =? 0)
  then inl (Msg "secmem: seal cipher: area is not a multiple of the block size")
  else if (n <? 0) || (MaxUint32 <? n)
       then inl (Msg "secmem: seal cipher: area exceeds the limit of one cipher call")
       else inr n.

(** [sealCipherCall]: the in-place transformation reads and writes the area. *)
Definition sealCipherCall (f : nat -> list Z -> list Z) (r : secRegion) : GM (option gerr) :=
  if (rg_inner r =? 0) then mret None
  else match sealCipherLen (rg_inner r) with
       | inl e => mret (Some e)
       | inr _ =>
           t ← gets w_tick;
           e ← sys;
           match e with
           | Some e => mret (Some (errorf "secmem: CryptProtectMemory" e))
           | None =>
               bs ← mem_load (rg_base r);
               mem_store (rg_base r) (f t bs);;
               mret None
           end
       end.

Definition sealEncrypt (r : secRegion) : GM (gerr + bool) :=
  match k_os with
  | Linux => mret (inr false)
  | Windows =>
      e ← sealCipherCall k_encrypt r;
      mret match e with Some e => inl e | None => inr true end
  end.

Definition sealDecrypt (r : secRegion) : GM (option gerr) :=
  match k_os with
  | Linux => mret None
  | Windows => sealCipherCall (fun _ => k_decrypt) r
  end.
End memory.
