(* ===== verification/Frame.v ===== *)
(** * Ownership and framing

    Which part of the process a routine may change, and the specifications of
    the primitive effects and of the memory layer in that form. A footprint
    names the mappings, flags, locks, registrations and objects a routine owns;
    [frame F w w'] says that everything live outside [F] is the same in [w'].
    Client invariants are transported across a call by its frame. *)
From S2P Require Import Prelude Errors Canary World Memory.

Record footprint : Type := FP {
  fp_mem : gset Z;
  fp_flags : gset Z;
  fp_locks : gset Z;
  fp_keys : gset Z;
  fp_bufs : gset Z;
  fp_arenas : gset Z
}.

Definition fp_empty : footprint := FP ∅ ∅ ∅ ∅ ∅ ∅.
Definition fp_union (F G : footprint) : footprint :=
  FP (fp_mem F ∪ fp_mem G) (fp_flags F ∪ fp_flags G) (fp_locks F ∪ fp_locks G)
     (fp_keys F ∪ fp_keys G) (fp_bufs F ∪ fp_bufs G) (fp_arenas F ∪ fp_arenas G).
Definition fp_sub (F G : footprint) : Prop :=
  fp_mem F ⊆ fp_mem G /\ fp_flags F ⊆ fp_flags G /\ fp_locks F ⊆ fp_locks G /\
  fp_keys F ⊆ fp_keys G /\ fp_bufs F ⊆ fp_bufs G /\ fp_arenas F ⊆ fp_arenas G.

(** Everything live outside the footprint is unchanged; counters only grow;
    the canary pattern, once drawn, stays. *)
Record frame (F : footprint) (w w' : world) : Prop := Frame {
  fr_mem : forall b m, w_mem w !! b = Some m -> mp_held m = false -> b ∉ fp_mem F ->
             w_mem w' !! b = Some m;
  fr_flags : forall f v, w_flags w !! f = Some v -> f ∉ fp_flags F -> w_flags w' !! f = Some v;
  fr_locks : forall l v, w_locks w !! l = Some v -> l ∉ fp_locks F -> w_locks w' !! l = Some v;
  fr_live : forall k jr, jn_regions (w_jan w) !! k = Some jr -> k ∉ fp_keys F ->
              jn_regions (w_jan w') !! k = Some jr;
  fr_wiped : forall k jr, jn_wiped (w_jan w) !! k = Some jr -> k ∉ fp_keys F ->
               jn_wiped (w_jan w') !! k = Some jr;
  fr_bufs : forall p st, w_bufs w !! p = Some st -> p ∉ fp_bufs F -> w_bufs w' !! p = Some st;
  fr_arenas : forall p st, w_arenas w !! p = Some st -> p ∉ fp_arenas F -> w_arenas w' !! p = Some st;
  fr_canary : forall e, cn_done (w_canary w) = Some e -> w_canary w' = w_canary w;
  fr_next : w_next w <= w_next w';
  fr_key : jn_nextKey (w_jan w) <= jn_nextKey (w_jan w')
}.

Section frames.
Implicit Types w : world.

Lemma frame_refl F w : frame F w w.
Proof. by constructor. Qed.

Lemma frame_mono F G w w' : fp_sub F G -> frame F w w' -> frame G w w'.
Proof.
  intros (H1 & H2 & H3 & H4 & H5 & H6) [? ? ? ? ? ? ? ? ? ?]. constructor; auto.
Qed.

(** The middle state's live mappings outside the footprint are the first
    state's, so frames compose. *)
Lemma frame_trans F w1 w2 w3 : frame F w1 w2 -> frame F w2 w3 -> frame F w1 w3.
Proof.
  intros A B. constructor.
  - intros b m Hb Hh Hn. eapply (fr_mem _ _ _ B); auto. by apply (fr_mem _ _ _ A).
  - intros f v Hf Hn. eapply (fr_flags _ _ _ B); auto. by apply (fr_flags _ _ _ A).
  - intros f v Hf Hn. eapply (fr_locks _ _ _ B); auto. by apply (fr_locks _ _ _ A).
  - intros k jr Hk Hn. eapply (fr_live _ _ _ B); auto. by apply (fr_live _ _ _ A).
  - intros k jr Hk Hn. eapply (fr_wiped _ _ _ B); auto. by apply (fr_wiped _ _ _ A).
  - intros p st Hb Hn. eapply (fr_bufs _ _ _ B); auto. by apply (fr_bufs _ _ _ A).
  - intros p st Hb Hn. eapply (fr_arenas _ _ _ B); auto. by apply (fr_arenas _ _ _ A).
  - intros e He. rewrite (fr_canary _ _ _ B e); [by apply (fr_canary _ _ _ A e)|].
    by rewrite (fr_canary _ _ _ A e).
  - pose proof (fr_next _ _ _ A). pose proof (fr_next _ _ _ B). lia.
  - pose proof (fr_key _ _ _ A). pose proof (fr_key _ _ _ B). lia.
Qed.

Lemma fp_sub_refl F : fp_sub F F.
Proof. repeat split; set_solver. Qed.
Lemma fp_sub_empty F : fp_sub fp_empty F.
Proof. repeat split; set_solver. Qed.
Lemma fp_sub_union_l F G : fp_sub F (fp_union F G).
Proof. repeat split; set_solver. Qed.
Lemma fp_sub_union_r F G : fp_sub G (fp_union F G).
Proof. repeat split; set_solver. Qed.

Lemma frame_tick F w : frame F w (tick w).
Proof. by constructor. Qed.

Lemma frame_set_mem F w b m :
  b ∈ fp_mem F -> frame F w (set_mem (insert b m) w).
Proof.
  intros Hb. constructor; try done. cbn. intros b' m' Hm' _ Hn.
  rewrite lookup_insert_ne; [done|]. intros ->. done.
Qed.

Lemma frame_del_mem F w b : b ∈ fp_mem F -> frame F w (set_mem (delete b) w).
Proof.
  intros Hb. constructor; try done. cbn. intros b' m' Hm' _ Hn.
  rewrite lookup_delete_ne; [done|]. intros ->. done.
Qed.

(** A mapping placed where nothing was owns nobody else's address. *)
Lemma frame_new_mem F w b m :
  w_mem w !! b = None -> frame F w (set_mem (insert b m) w).
Proof.
  intros Hb. constructor; try done. cbn. intros b' m' Hm' _ Hn.
  rewrite lookup_insert_ne; [done|]. congruence.
Qed.

Lemma frame_set_flag F w f v : f ∈ fp_flags F -> frame F w (set_flags (insert f v) w).
Proof.
  intros Hb. constructor; try done. cbn. intros f' v' Hf' Hn.
  rewrite lookup_insert_ne; [done|]. intros ->. done.
Qed.

Lemma frame_set_lock F w l v : l ∈ fp_locks F -> frame F w (set_locks (insert l v) w).
Proof.
  intros Hb. constructor; try done. cbn. intros f' v' Hf' Hn.
  rewrite lookup_insert_ne; [done|]. intros ->. done.
Qed.

Lemma frame_set_buf F w p f : p ∈ fp_bufs F -> frame F w (set_bufs (insert p f) w).
Proof.
  intros Hb. constructor; try done. cbn. intros q st Hst Hq.
  rewrite lookup_insert_ne; [done|]. intros ->. done.
Qed.

Lemma frame_set_arena F w p f : p ∈ fp_arenas F -> frame F w (set_arenas (insert p f) w).
Proof.
  intros Hb. constructor; try done. cbn. intros q st Hst Hq.
  rewrite lookup_insert_ne; [done|]. intros ->. done.
Qed.
End frames.

#[export] Hint Resolve frame_refl frame_tick frame_set_mem frame_del_mem frame_set_flag
  frame_set_lock frame_set_buf frame_set_arena fp_sub_refl fp_sub_empty fp_sub_union_l
  fp_sub_union_r : secmem.

(** ** A region and its mapping *)

(** The region's mapping is there, is not a reservation, and has the size the
    region says. *)
Record mapped (w : world) (r : secRegion) (m : mapping) : Prop := Mapped {
  md_at : w_mem w !! rg_base r = Some m;
  md_held : mp_held m = false;
  md_len : zlen (mp_bytes m) = rg_inner r;
  md_inner : 0 < rg_inner r;
  md_outer : mp_outer m = rg_outer r;
  md_outer_pos : 0 < rg_outer r
}.

Lemma mapped_frame F w w' r m :
  mapped w r m -> frame F w w' -> rg_base r ∉ fp_mem F -> mapped w' r m.
Proof. intros [] Hf Hn. constructor; try done. by apply (fr_mem _ _ _ Hf). Qed.

(** What a protection change leaves alone. *)
Section protect_shape.
Context `{K : Kernel}.
Implicit Types m : mapping.

Lemma protect_bytes prot m : mp_bytes (protect prot m) = mp_bytes m.
Proof. unfold protect. destruct k_os; [done|]. by destruct (prot =? PROT_NONE). Qed.
Lemma protect_prot prot m : mp_prot (protect prot m) = prot.
Proof. unfold protect. destruct k_os; [done|]. by destruct (prot =? PROT_NONE). Qed.
Lemma protect_held prot m : mp_held (protect prot m) = mp_held m.
Proof. unfold protect. destruct k_os; [done|]. by destruct (prot =? PROT_NONE). Qed.
Lemma protect_outer prot m : mp_outer (protect prot m) = mp_outer m.
Proof. unfold protect. destruct k_os; [done|]. by destruct (prot =? PROT_NONE). Qed.
Lemma protect_rw_locked m : mp_locked (protect PROT_RW m) = mp_locked m.
Proof. unfold protect. by destruct k_os. Qed.
Lemma protect_ro_locked m : mp_locked (protect PROT_READ m) = mp_locked m.
Proof. unfold protect. by destruct k_os. Qed.
End protect_shape.

Create Rewrite HintDb mapping.
#[export] Hint Rewrite @protect_bytes @protect_prot @protect_held @protect_outer
  @protect_rw_locked @protect_ro_locked : mapping.

Section memory_specs.
Context `{K : Kernel}.
Implicit Types (w : world) (r : secRegion) (m : mapping).

(** The last kernel call was refused. *)
Definition last_refused w : Prop := k_errno (pred (w_tick w)) <> None.

(** A kernel call answers what the kernel has for its turn; the second form
    forgets which answer that was. *)
Lemma wp_sys_at (Q : option gerr -> world -> Prop) R w :
  (forall n, k_errno (w_tick w) = Some n -> Q (Some (Errno n)) (tick w)) ->
  (k_errno (w_tick w) = None -> Q None (tick w)) -> wp sys Q R w.
Proof. intros He Hn. unfold wp, sys. destruct (k_errno (w_tick w)); cbn; auto. Qed.

Lemma wp_sys (Q : option gerr -> world -> Prop) R w :
  (forall e, Q (Some e) (tick w)) -> Q None (tick w) -> wp sys Q R w.
Proof. intros He Hn. apply wp_sys_at; auto. Qed.

Lemma wp_k_change_at b f m (Q : option gerr -> world -> Prop) R w :
  w_mem w !! b = Some m ->
  (forall n, k_errno (w_tick w) = Some n -> Q (Some (Errno n)) (tick w)) ->
  (k_errno (w_tick w) = None -> Q None (set_mem (insert b (f m)) (tick w))) ->
  wp (k_change b f) Q R w.
Proof.
  intros Hb He Hok. unfold k_change. wpsteps. rewrite Hb. wpsteps.
  apply wp_sys_at; [intros n Hn|intros Hn]; wpsteps; auto.
Qed.

Lemma wp_k_change b f m (Q : option gerr -> world -> Prop) R w :
  w_mem w !! b = Some m ->
  (forall e, Q (Some e) (tick w)) -> Q None (set_mem (insert b (f m)) (tick w)) ->
  wp (k_change b f) Q R w.
Proof. intros Hb He Hok. apply (wp_k_change_at b f m); auto. Qed.

Lemma mapped_with w r m m' f :
  mapped w r m -> zlen (mp_bytes m') = zlen (mp_bytes m) -> mp_held m' = mp_held m ->
  mp_outer m' = mp_outer m ->
  w_mem f !! rg_base r = Some m' -> mapped f r m'.
Proof. intros [] ? ? ? ?. constructor; congruence. Qed.

(** A legal protection: one of the three the package uses. *)
Definition prot_ok (prot : Z) : Prop := prot = PROT_NONE \/ prot = PROT_READ \/ prot = PROT_RW.

(** [mprotectSecretMem] fails and changes nothing, or sets the protection. *)
Lemma wp_mprotect_at r prot m (Q : option gerr -> world -> Prop) R w :
  mapped w r m -> prot_ok prot ->
  (forall n, k_errno (w_tick w) = Some n -> Q (Some (Errno n)) (tick w)) ->
  (k_errno (w_tick w) = None -> Q None (set_mem (insert (rg_base r) (protect prot m)) (tick w))) ->
  wp (mprotectSecretMem r prot) Q R w.
Proof.
  intros [Hat _ _ Hin _ _] Hp He Hok. unfold mprotectSecretMem.
  destruct k_os eqn:Eos; [by eapply wp_k_change_at|].
  destruct (rg_inner r =? 0) eqn:E; [apply Z.eqb_eq in E; lia|].
  assert ((prot =? PROT_NONE) || (prot =? PROT_READ) || (prot =? PROT_RW) = true) as ->
    by (destruct Hp as [->|[->| ->]]; done).
  by eapply wp_k_change_at.
Qed.

Lemma wp_mprotect r prot m (Q : option gerr -> world -> Prop) R w :
  mapped w r m -> prot_ok prot ->
  (forall e, Q (Some e) (tick w)) ->
  Q None (set_mem (insert (rg_base r) (protect prot m)) (tick w)) ->
  wp (mprotectSecretMem r prot) Q R w.
Proof. intros Hm Hp He Hok. apply (wp_mprotect_at r prot m); auto. Qed.

Lemma mapped_protect w r m prot :
  mapped w r m -> mapped (set_mem (insert (rg_base r) (protect prot m)) (tick w)) r (protect prot m).
Proof.
  intros Hm. eapply mapped_with; [exact Hm|by autorewrite with mapping..|].
  cbn. apply lookup_insert_eq.
Qed.

Lemma wp_mem_load b m (Q : list Z -> world -> Prop) R w :
  w_mem w !! b = Some m -> readable m = true -> Q (mp_bytes m) w -> wp (mem_load b) Q R w.
Proof. intros Hb Hr HQ. unfold wp, mem_load. by rewrite Hb, Hr. Qed.

Lemma wp_mem_store b bs m (Q : unit -> world -> Prop) R w :
  w_mem w !! b = Some m -> writable m = true ->
  Q tt (set_mem (insert b (with_bytes bs m)) w) -> wp (mem_store b bs) Q R w.
Proof. intros Hb Hr HQ. unfold wp, mem_store. by rewrite Hb, Hr. Qed.

Lemma wp_mem_copy_in b off bs m (Q : unit -> world -> Prop) R w :
  w_mem w !! b = Some m -> writable m = true -> 0 <= off <= zlen (mp_bytes m) ->
  Q tt (set_mem (insert b (with_bytes (lset off bs (mp_bytes m)) m)) w) ->
  wp (mem_copy_in b off bs) Q R w.
Proof.
  intros Hb Hr Ho HQ. unfold wp, mem_copy_in. rewrite Hb, Hr. destruct bs; [|done].
  rewrite lset_nil in HQ by done.
  assert (set_mem (insert b (with_bytes (mp_bytes m) m)) w = w) as E; [|by rewrite E in HQ].
  destruct w, m; unfold set_mem; cbn in *. f_equal. by apply insert_id.
Qed.

(** The generic wipe loop leaves zeros and publishes a zero accumulator. *)
Lemma secureWipe_zero b : secureWipe 0 b = (zeros (zlen b), 0).
Proof.
  unfold secureWipe, zeros, zlen. rewrite Nat2Z.id.
  assert ((λ _ : Z, 0 mod 256) <$> b = replicate (length b) 0) as ->
    by (induction b as [|x b IH]; [done|]; rewrite fmap_cons, IH; done).
  f_equal. generalize (length b) as n. induction n; cbn; done.
Qed.

Lemma wp_secureWipeSlice b lo hi m (Q : unit -> world -> Prop) R w :
  w_mem w !! b = Some m -> readable m = true -> writable m = true ->
  0 <= lo <= hi -> hi <= zlen (mp_bytes m) ->
  Q tt (set_mem (insert b (with_bytes (lset lo (zeros (hi - lo)) (mp_bytes m)) m)) w) ->
  wp (secureWipeSlice b lo hi) Q R w.
Proof.
  intros Hb Hr Hw Hlo Hhi HQ. unfold secureWipeSlice.
  destruct (hi <=? lo) eqn:E.
  - apply Z.leb_le in E. assert (hi = lo) as -> by lia.
    assert (zeros (lo - lo) = []) as Ez by by rewrite Z.sub_diag.
    pose proof (wp_mem_copy_in b lo [] m Q R w Hb Hw ltac:(lia)) as H'.
    rewrite <- Ez in H' at 1. specialize (H' HQ). done.
  - apply Z.leb_gt in E. wpsteps. eapply wp_mem_load; [done|done|].
    rewrite secureWipe_zero, zlen_lsub by lia. cbn [fst].
    eapply wp_mem_copy_in; [done|done|lia|done].
Qed.

Lemma prot_rw_access m : mp_held m = false -> mp_prot m = PROT_RW -> readable m = true /\ writable m = true.
Proof. unfold readable, writable. intros -> ->. done. Qed.

(** [wipeInner] on a writable region leaves zeros. *)
Lemma wp_wipeInner r m (Q : unit -> world -> Prop) R w :
  mapped w r m -> mp_prot m = PROT_RW ->
  Q tt (set_mem (insert (rg_base r) (with_bytes (zeros (rg_inner r)) m)) w) ->
  wp (wipeInner r) Q R w.
Proof.
  intros [Hat Hh Hl Hin _ _] Hp HQ. destruct (prot_rw_access m Hh Hp).
  eapply wp_secureWipeSlice; [done|done|done|lia|lia|].
  rewrite Z.sub_0_r, lset_full; [done|].
  pose proof (zlen_zeros (rg_inner r)) as E. unfold zlen in *. lia.
Qed.
End memory_specs.

(** ** Allocation and release *)

(** Only mappings and the clock differ. *)
Record mem_only (w w' : world) : Prop := MemOnly {
  mo_flags : w_flags w' = w_flags w;
  mo_locks : w_locks w' = w_locks w;
  mo_next : w_next w' = w_next w;
  mo_canary : w_canary w' = w_canary w;
  mo_jan : w_jan w' = w_jan w;
  mo_quar : w_quar w' = w_quar w;
  mo_keys : w_keys w' = w_keys w;
  mo_bufs : w_bufs w' = w_bufs w;
  mo_arenas : w_arenas w' = w_arenas w
}.

Lemma mem_only_refl w : mem_only w w.
Proof. by constructor. Qed.
Lemma mem_only_trans w1 w2 w3 : mem_only w1 w2 -> mem_only w2 w3 -> mem_only w1 w3.
Proof. intros [] []. constructor; congruence. Qed.
Lemma mem_only_tick w : mem_only w (tick w).
Proof. by constructor. Qed.
Lemma mem_only_set_mem w f : mem_only w (set_mem f w).
Proof. by constructor. Qed.
#[export] Hint Resolve mem_only_refl mem_only_tick mem_only_set_mem : secmem.

(** A routine that only adds mappings where there were none, or changes
    mappings in [F]. *)
Definition mem_step (F : footprint) (w w' : world) : Prop := mem_only w w' /\ frame F w w'.

Lemma mem_step_refl F w : mem_step F w w.
Proof. split; auto with secmem. Qed.
Lemma mem_step_trans F w1 w2 w3 : mem_step F w1 w2 -> mem_step F w2 w3 -> mem_step F w1 w3.
Proof. intros [A1 A2] [B1 B2]. split; [by eapply mem_only_trans|by eapply frame_trans]. Qed.
Lemma mem_step_tick F w : mem_step F w (tick w).
Proof. split; auto with secmem. Qed.
Lemma mem_step_mono F G w w' : fp_sub F G -> mem_step F w w' -> mem_step G w w'.
Proof. intros HF [? ?]. split; [done|by eapply frame_mono]. Qed.
#[export] Hint Resolve mem_step_refl mem_step_tick : secmem.

(** Only the mapping at [b] and the clock differ. *)
Definition touch (b : Z) (w w' : world) : Prop :=
  mem_only w w' /\ forall b', b' <> b -> w_mem w' !! b' = w_mem w !! b'.

Lemma touch_refl b w : touch b w w.
Proof. split; auto with secmem. Qed.
Lemma touch_trans b w1 w2 w3 : touch b w1 w2 -> touch b w2 w3 -> touch b w1 w3.
Proof.
  intros [A1 A2] [B1 B2]. split; [by eapply mem_only_trans|].
  intros b' Hb. rewrite B2, A2; done.
Qed.
Lemma touch_sym b w w' : touch b w w' -> touch b w' w.
Proof. intros [[] T]. split; [by constructor|]. intros b' Hb. by rewrite T. Qed.
Lemma touch_tick b w w' : touch b w w' -> touch b w (tick w').
Proof. intros Hm. eapply touch_trans; [done|]. split; auto with secmem. Qed.
Lemma touch_insert b w w' m : touch b w w' -> touch b w (set_mem (insert b m) w').
Proof.
  intros Hm. eapply touch_trans; [done|]. split; [auto with secmem|].
  intros b' Hb. cbn. by rewrite lookup_insert_ne.
Qed.
Lemma touch_delete b w w' : touch b w w' -> touch b w (set_mem (delete b) w').
Proof.
  intros Hm. eapply touch_trans; [done|]. split; [auto with secmem|].
  intros b' Hb. cbn. by rewrite lookup_delete_ne.
Qed.
#[export] Hint Resolve touch_refl touch_tick touch_insert touch_delete : secmem.

Lemma mem_only_frame F w w' :
  mem_only w w' ->
  (forall b m, w_mem w !! b = Some m -> mp_held m = false -> b ∉ fp_mem F -> w_mem w' !! b = Some m) ->
  frame F w w'.
Proof.
  intros [Hf Hl Hn Hc Hj Hq Hk Hb Ha] Hm.
  constructor; [exact Hm|..]; rewrite ?Hf, ?Hl, ?Hn, ?Hc, ?Hj, ?Hb, ?Ha; done.
Qed.

Lemma touch_frame b F w w' : touch b w w' -> b ∈ fp_mem F -> frame F w w'.
Proof.
  intros [Hmo Hm] Hb. apply mem_only_frame; [done|]. intros b' m Hb' _ Hn.
  rewrite Hm; [done|]. intros ->. done.
Qed.

(** The memory only grew. *)
Definition grows (w w' : world) : Prop := mem_only w w' /\ w_mem w ⊆ w_mem w'.

Lemma grows_refl w : grows w w.
Proof. split; auto with secmem. Qed.
Lemma grows_trans w1 w2 w3 : grows w1 w2 -> grows w2 w3 -> grows w1 w3.
Proof. intros [A1 A2] [B1 B2]. split; [by eapply mem_only_trans|by etrans]. Qed.
Lemma touch_grows b w w' : w_mem w !! b = None -> touch b w w' -> grows w w'.
Proof.
  intros Hb [Hm Ht]. split; [done|]. apply map_subseteq_spec. intros b' m Hm'.
  rewrite Ht; [done|]. congruence.
Qed.
Lemma grows_frame F w w' : grows w w' -> frame F w w'.
Proof.
  intros [Hmo Hm]. apply mem_only_frame; [done|]. intros b m Hb _ _. by eapply lookup_weaken.
Qed.

Section alloc_specs.
Context `{K : Kernel} {KOk : KernelOk}.
Implicit Types (w : world) (r : secRegion) (m : mapping).

(** The sizes an allocation gets: page-rounded, at least what was asked for,
    two guard pages on top, and no 64-bit overflow on the way. *)
Lemma guardedSizes_spec size pageSize rounded total :
  size <= MaxInt -> guardedSizes size = inr (pageSize, rounded, total) ->
  0 < size /\ pageSize = k_page /\ size <= rounded < size + k_page /\ (k_page | rounded) /\
  total = rounded + 2 * k_page /\ total <= MaxInt.
Proof.
  intros Hmax. unfold guardedSizes. pose proof k_page_pos. pose proof k_page_max.
  destruct (size <=? 0) eqn:E0; [done|]. apply Z.leb_gt in E0.
  rewrite (wrap64_id (3 * _)) by (unfold MinInt, MaxInt in *; lia).
  rewrite (wrap64_id (MaxInt - _)) by (unfold MinInt, MaxInt in *; lia).
  destruct (_ <? size) eqn:E1; [done|]. apply Z.ltb_ge in E1.
  rewrite (wrap64_id (size + _)) by (unfold MinInt, MaxInt in *; lia).
  rewrite (wrap64_id (size + _ - 1)) by (unfold MinInt, MaxInt in *; lia).
  rewrite Z.quot_div_nonneg by lia.
  set (q := (size + k_page - 1) / k_page).
  assert (size <= q * k_page < size + k_page) as Hq.
  { pose proof (Z.div_mod (size + k_page - 1) k_page). pose proof (Z.mod_pos_bound (size + k_page - 1) k_page).
    unfold q. nia. }
  rewrite (wrap64_id (q * _)) by (unfold MinInt, MaxInt in *; lia).
  rewrite (wrap64_id (2 * _)) by (unfold MinInt, MaxInt in *; lia).
  rewrite wrap64_id by (unfold MinInt, MaxInt in *; lia).
  intros [= <- <- <-]. repeat split; try lia. by exists q.
Qed.

(** A range the kernel picks is where nothing is mapped. *)
Lemma k_place_fresh w n : 0 < n ->
  (forall b m, w_mem w !! b = Some m -> 0 < mp_outer m) ->
  w_mem w !! k_place (w_mem w) n = None.
Proof.
  intros Hn Hpos. destruct (w_mem w !! _) as [m|] eqn:E; [|done].
  destruct (k_place_free (w_mem w) n Hn _ _ E); specialize (Hpos _ _ E); lia.
Qed.

(** Every mapping spans at least a byte. *)
Definition mem_ok w : Prop := forall b m, w_mem w !! b = Some m -> 0 < mp_outer m.

Lemma wp_k_mmap total memfd (Q : gerr + Z -> world -> Prop) R w :
  0 < total -> mem_ok w ->
  (forall e, Q (inl e) (tick w)) ->
  (forall b, w_mem w !! b = None -> range_free (w_mem w) b total ->
     Q (inr b) (set_mem (insert b
       (Mapping (zeros (total - 2 * k_page)) PROT_NONE memfd total memfd false)) (tick w))) ->
  wp (k_mmap total memfd) Q R w.
Proof.
  intros Ht Hok He Hs. unfold k_mmap. wpsteps. apply wp_sys; [intros e; wpsteps; auto|].
  wpsteps. apply Hs; [by apply (k_place_fresh w)|by apply (k_place_free (w_mem w))].
Qed.

Lemma wp_k_munmap_at b m (Q : option gerr -> world -> Prop) R w :
  w_mem w !! b = Some m ->
  (forall e, last_refused (tick w) -> Q (Some e) (tick w)) -> Q None (set_mem (delete b) (tick w)) -> wp (k_munmap b) Q R w.
Proof.
  intros Hb H1 H2. unfold k_munmap. wpsteps. rewrite Hb. wpsteps.
  apply wp_sys_at; [intros n Hn|intros _]; wpsteps; [|done]. apply H1. unfold last_refused. cbn. by rewrite Hn.
Qed.

Lemma wp_k_munmap b m (Q : option gerr -> world -> Prop) R w :
  w_mem w !! b = Some m ->
  (forall e, Q (Some e) (tick w)) -> Q None (set_mem (delete b) (tick w)) -> wp (k_munmap b) Q R w.
Proof. intros Hb H1 H2. apply (wp_k_munmap_at b m); auto. Qed.

Lemma wp_unmapOnError b m (Q : unit -> world -> Prop) R w :
  w_mem w !! b = Some m ->
  Q tt (tick w) -> Q tt (set_mem (delete b) (tick w)) -> wp (unmapOnError b) Q R w.
Proof.
  intros Hb H1 H2. unfold unmapOnError. wpsteps. eapply wp_k_munmap; [done|intros|]; by wpsteps.
Qed.

(** What a successful allocation of [size] bytes is: a new mapping in a range
    that met nothing, page-rounded, zeroed, locked and read-write. *)
Record allocated (w w' : world) (size : Z) (r : secRegion) : Prop := Allocated {
  al_new : w_mem w !! rg_base r = None;
  al_range : range_free (w_mem w) (rg_base r) (rg_outer r);
  al_map : exists m, mapped w' r m /\ mp_bytes m = zeros (rg_inner r) /\
             mp_prot m = PROT_RW /\ mp_locked m = true;
  al_size : size <= rg_inner r;
  al_page : (k_page | rg_inner r);
  al_outer : rg_outer r = rg_inner r + 2 * k_page
}.

Lemma mem_ok_touch b w w' :
  mem_ok w -> touch b w w' -> (forall m, w_mem w' !! b = Some m -> 0 < mp_outer m) -> mem_ok w'.
Proof.
  intros Hok [_ Ht] Hb b' m Hm. destruct (decide (b' = b)) as [->|]; [by apply Hb|].
  rewrite Ht in Hm by done. by eapply Hok.
Qed.

(** The page-rounded sizes of a request. *)
Record sizes_ok (size rounded total : Z) : Prop := SizesOk {
  sz_pos : 0 < size;
  sz_le : size <= rounded;
  sz_page : (k_page | rounded);
  sz_total : total = rounded + 2 * k_page
}.

Lemma allocated_open w w' b rounded total size m :
  sizes_ok size rounded total -> w_mem w !! b = None -> range_free (w_mem w) b total ->
  w_mem w' !! b = Some m ->
  mp_bytes m = zeros rounded -> mp_prot m = PROT_RW -> mp_locked m = true ->
  mp_held m = false -> mp_outer m = total ->
  allocated w w' size (SecRegion b rounded total).
Proof.
  intros [? ? ? ->] Hn Hr Hm E1 E2 E3 E4 E5. pose proof k_page_pos.
  constructor; cbn; try done. exists m. split; [|done].
  constructor; cbn; rewrite ?E1, ?zlen_zeros by lia; try done; lia.
Qed.

(** The common end of the alloc paths. *)
Definition alloc_post (w : world) (size : Z) {A} (reg : A -> secRegion)
    (r : gerr + A) (w' : world) : Prop :=
  grows w w' /\ mem_ok w' /\
  match r with inl _ => True | inr a => allocated w w' size (reg a) end.

Lemma alloc_fail w w' b size {A} (reg : A -> secRegion) e :
  mem_ok w -> w_mem w !! b = None -> touch b w w' ->
  (forall m, w_mem w' !! b = Some m -> 0 < mp_outer m) ->
  alloc_post w size reg (inl e) w'.
Proof.
  intros Hok Hn Ht Hb. split; [by eapply touch_grows|]. split; [by eapply mem_ok_touch|done].
Qed.

Lemma wp_sys_any (Q : option gerr -> world -> Prop) R w :
  (forall e, Q e (tick w)) -> wp sys Q R w.
Proof. intros HQ. apply wp_sys; auto. Qed.

Lemma sizes_total_pos size rounded total : sizes_ok size rounded total -> 0 < total.
Proof. intros [? ? ? ->]. pose proof k_page_pos. lia. Qed.

Lemma alloc_fail_tick w w' size {A} (reg : A -> secRegion) e :
  mem_ok w -> mem_only w w' -> w_mem w' = w_mem w -> alloc_post w size reg (inl e) w'.
Proof. intros Hok Hm E. split; [split; [done|by rewrite E]|]. split; [|done]. unfold mem_ok. by rewrite E. Qed.

Lemma alloc_ok w w' b rounded total size m {A} (reg : A -> secRegion) a :
  mem_ok w -> sizes_ok size rounded total -> w_mem w !! b = None -> range_free (w_mem w) b total ->
  touch b w w' -> w_mem w' !! b = Some m ->
  mp_bytes m = zeros rounded -> mp_prot m = PROT_RW -> mp_locked m = true ->
  mp_held m = false -> mp_outer m = total -> reg a = SecRegion b rounded total ->
  alloc_post w size reg (inr a) w'.
Proof.
  intros Hok Hsz Hn Hr Ht Hm E1 E2 E3 E4 E5 Ea. split; [by eapply touch_grows|]. split.
  - eapply mem_ok_touch; [done|done|]. intros m' Hm'. assert (m' = m) as -> by congruence. rewrite E5.
    by eapply sizes_total_pos.
  - rewrite Ea. by eapply allocated_open.
Qed.

Lemma alloc_post_shift w w2 w3 size {A} (reg : A -> secRegion) a :
  mem_only w w2 -> w_mem w2 = w_mem w -> alloc_post w2 size reg a w3 -> alloc_post w size reg a w3.
Proof.
  intros Hm E ([Hg1 Hg2] & ? & Ha). split; [split; [by eapply mem_only_trans|by rewrite <- E]|].
  split; [done|]. destruct a; [done|]. destruct Ha. constructor; rewrite <- ?E; done.
Qed.

(** Closing tactics for the two kinds of ends of an allocation path. *)
Ltac map_at := cbn; rewrite ?lookup_insert_eq; reflexivity.
Ltac alloc_fails Hok Hn Hsz :=
  eapply alloc_fail; [exact Hok|exact Hn|auto 20 with secmem|
    let Hx := fresh "Hx" in
    cbn; intros ? Hx; rewrite ?lookup_insert_eq, ?lookup_delete_eq in Hx;
    simplify_eq; cbn; autorewrite with mapping; cbn; exact (sizes_total_pos _ _ _ Hsz)].
Ltac alloc_succeeds Hok Hn Hr Hsz :=
  eapply alloc_ok; [exact Hok|exact Hsz|exact Hn|exact Hr|auto 20 with secmem|map_at|..|reflexivity];
  cbn; autorewrite with mapping; cbn; rewrite ?(sz_total _ _ _ Hsz), ?Z.add_simpl_r; done.

Lemma wp_allocMapAnonGuarded size rounded total w :
  sizes_ok size rounded total -> mem_ok w ->
  returns (allocMapAnonGuarded rounded total) w (alloc_post w size fst).
Proof.
  intros Hsz Hok. pose proof (sizes_total_pos _ _ _ Hsz) as Htot.
  unfold returns, allocMapAnonGuarded, reserveGuarded. wpsteps.
  apply wp_k_mmap; [done|done|intros e; wpsteps; apply alloc_fail_tick; auto with secmem|].
  intros b Hn Hr. wpsteps.
  eapply wp_k_change; [map_at|intros e|].
  { wpsteps. eapply wp_unmapOnError; [map_at|wpsteps..]; alloc_fails Hok Hn Hsz. }
  wpsteps. eapply wp_k_change; [map_at|intros e|].
  { wpsteps. eapply wp_unmapOnError; [map_at|wpsteps..]; alloc_fails Hok Hn Hsz. }
  do 4 (wpsteps; apply wp_sys_any; intros ?). wpsteps. alloc_succeeds Hok Hn Hr Hsz.
Qed.

Lemma wp_allocMemfdSecret size rounded total w :
  sizes_ok size rounded total -> mem_ok w ->
  returns (allocMemfdSecret rounded total) w (alloc_post w size fst).
Proof.
  intros Hsz Hok. pose proof (sizes_total_pos _ _ _ Hsz) as Htot.
  unfold returns, allocMemfdSecret. destruct (negb k_memfd_arch).
  { wpsteps. apply alloc_fail_tick; auto with secmem. }
  (* the descriptor: at most four calls, none of which maps anything *)
  wpsteps. apply wp_sys_any. intros errno. wpsteps.
  eapply (wp_mono _ (fun fd w1 => mem_only w w1 /\ w_mem w1 = w_mem w) _ (fun _ => False)); [| |done].
  { repeat first [progress wpsteps | case_match | apply wp_sys_any; intros ?]; by split. }
  intros fd w1 [Hm1 E1]. assert (mem_ok w1) as Hok1 by (unfold mem_ok; by rewrite E1).
  assert (forall e, alloc_post w size (@fst secRegion bool) (inl e) w1) as Hfail
    by (intros; by apply alloc_fail_tick).
  destruct fd as [e|]; [wpsteps; apply Hfail|].
  wpsteps. apply wp_sys; [intros e|]; wpsteps.
  { apply wp_sys_any. intros. wpsteps. apply alloc_fail_tick; [done| |done]. by destruct Hm1. }
  set (w2 := tick w1). assert (w_mem w2 = w_mem w) as E2 by done.
  assert (mem_only w w2) as Hm2 by by destruct Hm1.
  assert (mem_ok w2) as Hok2 by done. clearbody w2.
  apply wp_k_mmap; [done|done|intros e|intros b Hn Hr]; wpsteps; (apply wp_sys_any; intros _); wpsteps.
  { apply alloc_fail_tick; [done| |done]. by destruct Hm2. }
  eapply wp_k_change; [map_at|intros e|].
  { wpsteps. eapply wp_unmapOnError; [map_at|wpsteps..];
      (eapply alloc_post_shift; [exact Hm2|exact E2|]); alloc_fails Hok2 Hn Hsz. }
  do 2 (wpsteps; apply wp_sys_any; intros ?). wpsteps.
  eapply alloc_post_shift; [exact Hm2|exact E2|]. alloc_succeeds Hok2 Hn Hr Hsz.
Qed.

(** The specification of the two allocators: they return, the memory only
    grew, and a success is a fresh, zeroed, locked, read-write region whose
    data slice has the requested length. *)
Definition alloc_spec (w : world) (size : Z) (r : gerr + (secRegion * Z * allocInfo)) (w' : world) : Prop :=
  alloc_post w size (fun a => a.1.1) r w' /\
  match r with inl _ => True | inr (_, n, _) => n = size /\ 0 < size end.

Lemma alloc_spec_fail w size e : mem_ok w -> alloc_spec w size (inl e) w.
Proof. intros. split; [|done]. apply alloc_fail_tick; auto with secmem. Qed.

(** A successful size computation. *)
Lemma guardedSizes_ok size pageSize rounded total :
  size <= MaxInt -> guardedSizes size = inr (pageSize, rounded, total) -> sizes_ok size rounded total.
Proof.
  intros Hm E. apply guardedSizes_spec in E as (? & ? & ? & ? & ? & ?); [|done].
  constructor; try done; lia.
Qed.

Lemma anon_spec size rounded total w :
  sizes_ok size rounded total -> mem_ok w ->
  returns (r ← allocMapAnonGuarded rounded total;
           mret match r with inl e => inl e | inr (region, info) => inr (region, size, info) end)
    w (alloc_spec w size).
Proof.
  intros Hsz Hok. wpsteps. eapply wp_returns; [by apply wp_allocMapAnonGuarded|].
  intros [e|[reg info]] w' Hp; apply wp_ret; (split; [exact Hp|]); [done|].
  split; [done|apply Hsz].
Qed.

Lemma alloc_windows_spec size w :
  size <= MaxInt -> mem_ok w -> returns (allocSecretMem_windows size) w (alloc_spec w size).
Proof.
  intros Hm Hok. unfold allocSecretMem_windows.
  destruct (guardedSizes size) as [e|[[ps rounded] total]] eqn:E.
  { wpsteps. by apply alloc_spec_fail. }
  pose proof (guardedSizes_ok _ _ _ _ Hm E) as Hsz.
  pose proof (sizes_total_pos _ _ _ Hsz) as Htot. wpsteps.
  apply wp_k_mmap; [done|done|intros e; wpsteps|].
  { split; [|done]. apply alloc_fail_tick; auto with secmem. }
  intros b Hn Hr. wpsteps. eapply wp_k_change; [map_at|intros e|].
  { wpsteps. eapply wp_k_munmap; [map_at|intros ?; wpsteps|wpsteps];
      (split; [alloc_fails Hok Hn Hsz|done]). }
  wpsteps. eapply wp_k_change; [map_at|intros e|].
  { wpsteps. eapply wp_k_munmap; [map_at|intros ?; wpsteps|wpsteps];
      (split; [alloc_fails Hok Hn Hsz|done]). }
  wpsteps. unfold werExcludeFromDumps.
  assert (forall nd w', touch b (tick w) w' -> w_mem w' !! b = Some (with_locked true
     (protect PROT_RW (Mapping (zeros (total - 2 * k_page)) PROT_NONE false total false false))) ->
     alloc_spec w size (inr (SecRegion b rounded total, size,
       AllocInfo true true false nd false true false false false)) w') as Hend.
  { intros nd w' [Ht1 Ht2] Hb. split; [|split; [done|apply Hsz]].
    eapply alloc_ok; [exact Hok|exact Hsz|exact Hn|exact Hr| |exact Hb|..|reflexivity];
      [split; [by destruct Ht1|done]|..];
      cbn; autorewrite with mapping; cbn; rewrite ?(sz_total _ _ _ Hsz), ?Z.add_simpl_r; done. }
  repeat first [progress wpsteps | case_match | apply wp_sys_any; intros ?];
    (apply Hend; [auto 20 with secmem|map_at]).
Qed.

Lemma alloc_secret_spec size w :
  size <= MaxInt -> mem_ok w -> returns (allocSecretMem size) w (alloc_spec w size).
Proof.
  intros Hm Hok. unfold allocSecretMem. destruct k_os; [|by apply alloc_windows_spec].
  unfold allocSecretMem_linux. destruct (guardedSizes size) as [e|[[ps rounded] total]] eqn:E.
  { wpsteps. by apply alloc_spec_fail. }
  pose proof (guardedSizes_ok _ _ _ _ Hm E) as Hsz.
  wpsteps. eapply wp_returns; [by apply wp_allocMemfdSecret|].
  intros [e|[reg nf]] w' Hp.
  - destruct Hp as ([Hg1 Hg2] & Hok' & _).
    eapply wp_returns; [by apply anon_spec|]. intros r w2 [Hp2 ?]. split; [|done].
    destruct Hp2 as ([Hg3 Hg4] & ? & Ha). split; [split; [by eapply mem_only_trans|by etrans]|].
    split; [done|]. destruct r as [|[[reg n] info]]; [done|]. destruct Ha as [Hnew Hrng Hmap ? ? ?].
    constructor; try done; [by eapply lookup_weaken_None|].
    intros b' m Hb'. eapply Hrng. by eapply lookup_weaken.
  - wpsteps. split; [exact Hp|]. split; [done|apply Hsz].
Qed.

Lemma alloc_anon_spec size w :
  size <= MaxInt -> mem_ok w -> returns (allocMapAnon size) w (alloc_spec w size).
Proof.
  intros Hm Hok. unfold allocMapAnon. destruct k_os; [|by apply alloc_windows_spec].
  unfold allocMapAnon_linux. destruct (guardedSizes size) as [e|[[ps rounded] total]] eqn:E.
  { wpsteps. by apply alloc_spec_fail. }
  apply anon_spec; [by eapply guardedSizes_ok|done].
Qed.
End alloc_specs.
