(* ===== verification/Effects.v ===== *)
(** * What the kernel calls of the memory layer can do

    Properties of the process that every kernel call of the memory layer keeps,
    whatever its answer: what such a call may do is the class [KernelInv], and a
    property with an instance of it is carried through an allocator or a release
    call by call. Two of them are used: nothing but zeros appears in memory, and
    the clock of kernel calls never goes back. *)
From S2P Require Import Prelude Errors World Memory Frame.

(** A property the calls keep: time passes, a zeroed mapping appears, a mapping
    changes but for its bytes, a mapping goes. *)
Class KernelInv (I : world -> Prop) : Prop := {
  ki_tick w : I w -> I (tick w);
  ki_map w b m : I w -> all_zero (mp_bytes m) -> I (set_mem (insert b m) w);
  ki_remap w b m m1 : I w -> w_mem w !! b = Some m1 -> mp_bytes m = mp_bytes m1 -> I (set_mem (insert b m) w);
  ki_unmap w b : I w -> I (set_mem (delete b) w)
}.

#[export] Instance inv_both I J `{KernelInv I, KernelInv J} : KernelInv (fun w => I w /\ J w).
Proof.
  constructor.
  - intros w []. split; by apply ki_tick.
  - intros w b m [] Hz. split; by apply ki_map.
  - intros w b m m1 [] Hb Em. split; by eapply ki_remap.
  - intros w b []. split; by apply ki_unmap.
Qed.

(** Every mapping the second process has beyond the first's holds zeros. *)
Definition zero_beyond (w w' : world) : Prop :=
  forall b m, w_mem w' !! b = Some m ->
    (exists m0, w_mem w !! b = Some m0 /\ mp_bytes m0 = mp_bytes m) \/ all_zero (mp_bytes m).

Lemma zb_refl w : zero_beyond w w.
Proof. intros b m Hb. left. eauto. Qed.

#[export] Instance inv_zero_beyond w : KernelInv (zero_beyond w).
Proof.
  constructor.
  - done.
  - intros w' b m Hz Hm b' m'. cbn. destruct (decide (b' = b)) as [->|]; [|rewrite lookup_insert_ne by done; apply Hz].
    rewrite lookup_insert_eq. intros [= <-]. by right.
  - intros w' b m m1 Hz Hb Em b' m'. cbn. destruct (decide (b' = b)) as [->|]; [|rewrite lookup_insert_ne by done; apply Hz].
    rewrite lookup_insert_eq. intros [= <-]. rewrite Em. by apply Hz.
  - intros w' b Hz b' m'. cbn. destruct (decide (b' = b)) as [->|]; [by rewrite lookup_delete_eq|].
    rewrite lookup_delete_ne by done. apply Hz.
Qed.

(** The second process is no earlier than the first. *)
Definition later (w w' : world) : Prop := (w_tick w <= w_tick w')%nat.

#[export] Instance later_preorder : PreOrder later.
Proof. split; unfold later; [intros w|intros w1 w2 w3]; lia. Qed.
#[export] Instance inv_later w : KernelInv (later w).
Proof. constructor; unfold later; cbn; intros; lia. Qed.

Section calls.
Context `{K : Kernel} {KOk : KernelOk} (I : world -> Prop) `{KI : KernelInv I}.

Lemma inv_sys w : I w -> returns sys w (fun _ => I).
Proof. intros Hi. apply wp_sys_any. intros. by apply ki_tick. Qed.

Lemma inv_k_mmap total memfd w : I w -> returns (k_mmap total memfd) w (fun _ => I).
Proof.
  intros Hi. unfold k_mmap. wpsteps. apply wp_sys; [intros|]; wpsteps; [by apply ki_tick|].
  apply ki_map; [by apply ki_tick|apply all_zero_zeros].
Qed.

Lemma inv_k_change b f w :
  (forall m, mp_bytes (f m) = mp_bytes m) -> I w -> returns (k_change b f) w (fun _ => I).
Proof.
  intros Hf Hi. unfold k_change. wpsteps. destruct (w_mem w !! b) as [m|] eqn:E; wpsteps.
  - apply wp_sys; [intros|]; wpsteps; [by apply ki_tick|]. by eapply ki_remap; [apply ki_tick| |apply Hf].
  - apply wp_sys_any; intros; wpsteps. by apply ki_tick.
Qed.

Lemma inv_k_munmap b w : I w -> returns (k_munmap b) w (fun _ => I).
Proof.
  intros Hi. unfold k_munmap. wpsteps. destruct (w_mem w !! b) as [m|]; wpsteps;
    (apply wp_sys; [intros|]; wpsteps; [by apply ki_tick|]); [by apply ki_unmap, ki_tick|by apply ki_tick].
Qed.

Lemma locked_keeps b m : mp_bytes (with_locked b m) = mp_bytes m.
Proof. done. Qed.
End calls.

(** Walk through an allocator or a release, call by call, keeping [I]. *)
Ltac inv_walk I :=
  repeat first
    [ progress wpsteps
    | eapply wp_returns; [apply (inv_sys I); assumption|intros ? ? ?]
    | eapply wp_returns; [apply (inv_k_mmap I); assumption|intros [?|?] ? ?]
    | eapply wp_returns; [apply (inv_k_munmap I); assumption|intros ? ? ?]
    | eapply wp_returns; [apply (inv_k_change I); [apply protect_bytes|assumption]|intros [?|] ? ?]
    | eapply wp_returns; [apply (inv_k_change I); [apply locked_keeps|assumption]|intros [?|] ? ?]
    | case_match ].

Section routines.
Context `{K : Kernel} {KOk : KernelOk} (I : world -> Prop) `{KI : KernelInv I}.
Implicit Types w : world.

Lemma inv_anon rounded total w : I w -> returns (allocMapAnonGuarded rounded total) w (fun _ => I).
Proof. intros Hi. unfold returns, allocMapAnonGuarded, reserveGuarded, unmapOnError. inv_walk I; done. Qed.

Lemma inv_memfd rounded total w : I w -> returns (allocMemfdSecret rounded total) w (fun _ => I).
Proof. intros Hi. unfold returns, allocMemfdSecret, unmapOnError. inv_walk I; done. Qed.

Lemma inv_alloc_windows size w : I w -> returns (allocSecretMem_windows size) w (fun _ => I).
Proof. intros Hi. unfold returns, allocSecretMem_windows, werExcludeFromDumps. inv_walk I; done. Qed.

(** Both allocators keep it. *)
Lemma inv_allocSecretMem size w : I w -> returns (allocSecretMem size) w (fun _ => I).
Proof.
  intros Hi. unfold returns, allocSecretMem. destruct k_os; [|by apply inv_alloc_windows].
  unfold allocSecretMem_linux. destruct (guardedSizes size) as [|[[] ?]]; [by apply wp_ret|].
  wpsteps. eapply wp_returns; [by apply inv_memfd|]. intros [?|[reg nf]] w1 Hi1; wpsteps; [|done].
  eapply wp_returns; [by apply inv_anon|]. intros [?|[r info]] w2 Hi2; by wpsteps.
Qed.

Lemma inv_allocMapAnon size w : I w -> returns (allocMapAnon size) w (fun _ => I).
Proof.
  intros Hi. unfold returns, allocMapAnon. destruct k_os; [|by apply inv_alloc_windows].
  unfold allocMapAnon_linux. destruct (guardedSizes size) as [|[[] ?]]; [by apply wp_ret|].
  wpsteps. eapply wp_returns; [by apply inv_anon|]. intros [?|[r info]] w2 Hi2; by wpsteps.
Qed.

(** And so does the release. *)
Lemma inv_freeSecretMem r w : I w -> returns (freeSecretMem r) w (fun _ => I).
Proof. intros Hi. unfold returns, freeSecretMem, werUnexclude. inv_walk I; done. Qed.
End routines.
