(* ===== verification/Sample.v ===== *)
(** * A concrete kernel

    A small instance of the kernel's side that satisfies every law of
    [KernelOk]: the concrete inputs of the development are evaluated on it. *)
From S2P Require Import Prelude Errors Canary World.

(** One past the last mapped byte, and above the zero page. *)
Definition top_of (mem : gmap Z mapping) : Z :=
  foldr (fun bm a => Z.max (bm.1 + mp_outer bm.2) a) 64 (map_to_list mem).

Lemma top_of_bound mem b m : mem !! b = Some m -> b + mp_outer m <= top_of mem.
Proof.
  intros Hb. apply elem_of_map_to_list in Hb. unfold top_of. revert Hb.
  generalize (map_to_list mem) as l. induction l as [|x l IH]; intros Hin; [set_solver|].
  apply elem_of_cons in Hin as [<-|Hin]; cbn; [lia|]. specialize (IH Hin). lia.
Qed.

Lemma top_of_pos mem : 0 < top_of mem.
Proof. unfold top_of. induction (map_to_list mem); cbn; lia. Qed.

(** The sample's stand-in for SHA-512: the sum of the bytes, padded. *)
Definition sample_hash (b : list Z) : list Z := (foldr Z.add 0 b) mod 256 :: replicate 63 0.

Definition sample_kernel (os : goos) (fails : list nat) : Kernel := {|
  k_os := os;
  k_memfd_arch := false;
  k_page := 32;
  k_errno := fun t => if decide (t ∈ fails) then Some 12 else None;
  k_place := fun mem _ => top_of mem;
  k_keeps := fun _ => false;
  k_rand := fun t n => replicate n (Z.of_nat t mod 256);
  k_encrypt := fun _ b => (fun x => 255 - x) <$> b;
  k_decrypt := fun b => (fun x => 255 - x) <$> b;
  k_sha512 := sample_hash
|}.

Lemma sample_kernel_ok os fails : @KernelOk (sample_kernel os fails).
Proof.
  split; cbn.
  - lia.
  - done.
  - by exists 2.
  - intros. apply top_of_pos.
  - intros mem n Hn b m Hb. right. by apply top_of_bound.
  - intros. apply length_replicate.
  - intros. apply length_fmap.
  - intros. apply length_fmap.
  - intros t b. rewrite <- list_fmap_compose. rewrite <- (list_fmap_id b) at 2.
    apply list_fmap_ext. intros i x _. cbn. lia.
  - intros. cbn. reflexivity.
Qed.

(** The two ports with no failing call. *)
Definition linux_kernel : Kernel := sample_kernel Linux [].
Definition windows_kernel : Kernel := sample_kernel Windows [].
Lemma linux_kernel_ok : @KernelOk linux_kernel.
Proof. apply sample_kernel_ok. Qed.
Lemma windows_kernel_ok : @KernelOk windows_kernel.
Proof. apply sample_kernel_ok. Qed.

(** The process at start-up: an empty registry and quarantine, and no object
    yet; pointers are handed out from 1 on. *)
Definition start_world (l : QuarantineLimits) : world :=
  World ∅ 0 ∅ ∅ 1 (CanaryState None (zeros canaryLen)) (Janitor ∅ ∅ 0) (Quarantine l [] 0)
    (SealKeyring secRegion_nil 0 0 0 0) ∅ ∅.
