(* ===== verification/Quarantine.v ===== *)
(** * The destroy quarantine (quarantine.go, quarantine_linux.go, quarantine_windows.go)

    A destroyed region's address range is kept as a no-access reservation in a
    bounded FIFO, so that a slice kept from it faults and no later allocation
    is placed there. *)
From S2P Require Import Prelude Errors Canary World Memory Frame Effects Sample.

Section quarantine.
Context `{Kernel}.

Definition DefaultQuarantineLimits : QuarantineLimits := MkQuarantineLimits 4096 (Z.shiftl 4 30).

(** The range as a reservation: no frames, no lock, no access. *)
Definition reservation (m : mapping) : mapping := Mapping [] PROT_NONE false (mp_outer m) false true.

(** The MAP_FIXED replace (Linux) or the decommit (Windows). A failed
    MAP_FIXED may have removed the old range. *)
Definition quarantineSecretMem (r : secRegion) : GM (option gerr) :=
  match k_os with
  | Linux =>
      t ← gets w_tick;
      e ← k_change (rg_base r) reservation;
      match e with
      | None => mret None
      | Some e => (if k_keeps t then mret tt else modify (set_mem (delete (rg_base r))));; mret (Some e)
      end
  | Windows =>
      werUnexclude (rg_inner r);;
      _ ← k_change (rg_base r) (with_locked false);
      k_change (rg_base r) reservation
  end.

Definition quarantineFailureKeepsRange : bool :=
  match k_os with Linux => false | Windows => true end.

Definition releaseQuarantined (b : Z) : GM (option gerr) := k_munmap b.

(** The loop of [trimLocked]: evicted (oldest first), what stays, the byte
    count. *)
Fixpoint trim_loop (l : QuarantineLimits) (held : list (Z * Z)) (bytes : Z)
    : list (Z * Z) * list (Z * Z) * Z :=
  match held with
  | [] => ([], [], bytes)
  | h :: t =>
      if (ql_Regions l <? zlen held) || (ql_Bytes l <? bytes)
      then let '(ev, rest, b) := trim_loop l t (uwrap64 (bytes - h.2)) in (h :: ev, rest, b)
      else ([], held, bytes)
  end.

Definition trimLocked (q : quarantine) : list (Z * Z) * quarantine :=
  let '(ev, rest, b) := trim_loop (q_limits q) (q_held q) (q_bytes q) in
  (ev, Quarantine (q_limits q) rest b).

Fixpoint releaseAll (evicted : list (Z * Z)) (first : option gerr) : GM (option gerr) :=
  match evicted with
  | [] => mret first
  | (b, _) :: t =>
      e ← releaseQuarantined b;
      releaseAll t (match first with None => e | Some _ => first end)
  end.

Definition SetQuarantineLimits (l : QuarantineLimits) : GM QuarantineLimits :=
  let l := if (ql_Regions l <? 0) then MkQuarantineLimits 0 (ql_Bytes l) else l in
  q ← gets w_quar;
  let '(evicted, q') := trimLocked (Quarantine l (q_held q) (q_bytes q)) in
  modify (set_quar q');;
  _ ← releaseAll evicted None;
  mret (q_limits q).

Definition quarantineInForce : GM bool :=
  q ← gets w_quar;
  mret ((0 <? ql_Regions (q_limits q)) && (0 <? ql_Bytes (q_limits q))).

Definition retireSecretMem (r : secRegion) : GM (option gerr) :=
  if (rg_outer r =? 0) then freeSecretMem r
  else
  q ← gets w_quar;
  let size := rg_outer r in
  let fits := (0 <? ql_Regions (q_limits q)) && (size <=? ql_Bytes (q_limits q)) in
  if negb fits then freeSecretMem r
  else
  err ← quarantineSecretMem r;
  match err with
  | Some e =>
      if negb quarantineFailureKeepsRange
      then mret (Some (errorf "secmem: destroy quarantine: replacing the region failed" e))
      else freeSecretMem r
  | None =>
      q ← gets w_quar;
      let '(evicted, q') :=
        trimLocked (Quarantine (q_limits q) (q_held q ++ [(rg_base r, size)]) (uwrap64 (q_bytes q + size))) in
      modify (set_quar q');;
      releaseAll evicted None
  end.
End quarantine.

(** ** The trim *)

Definition held_bytes (held : list (Z * Z)) : Z := foldr (fun h a => h.2 + a) 0 held.

Definition within (l : QuarantineLimits) (held : list (Z * Z)) : Prop :=
  zlen held <= ql_Regions l /\ held_bytes held <= ql_Bytes l.

#[global] Instance within_dec l held : Decision (within l held).
Proof. unfold within. apply _. Defined.

Lemma held_bytes_cons h t : held_bytes (h :: t) = h.2 + held_bytes t.
Proof. done. Qed.

Lemma held_bytes_app a b : held_bytes (a ++ b) = held_bytes a + held_bytes b.
Proof. induction a as [|h a IH]; cbn; [done|]. unfold held_bytes in *. cbn. lia. Qed.

Lemma held_bytes_nonneg held : Forall (fun h => 0 <= h.2) held -> 0 <= held_bytes held.
Proof. induction 1; cbn; unfold held_bytes in *; lia. Qed.

(** The loop evicts exactly as many of the oldest reservations as the limits
    require, and its byte count is the sum of what stays. *)
Lemma trim_loop_spec l held bytes ev rest b :
  0 <= ql_Regions l -> 0 <= ql_Bytes l ->
  Forall (fun h => 0 <= h.2) held -> bytes = held_bytes held -> bytes < 2 ^ 64 ->
  trim_loop l held bytes = (ev, rest, b) ->
  held = ev ++ rest /\ b = held_bytes rest /\ within l rest /\
  forall k, (k < length ev)%nat -> ~ within l (drop k held).
Proof.
  intros HR HB Hpos. revert bytes ev rest b.
  induction Hpos as [|h t Hh Ht IH]; intros bytes ev rest b Hb Hlt E; cbn [trim_loop] in E.
  - injection E as <- <- <-. split; [done|]. split; [done|]. split; [done|].
    intros k Hk. cbn in Hk. lia.
  - destruct (_ || _) eqn:Eg.
    + pose proof (held_bytes_nonneg t Ht) as Hnn.
      rewrite held_bytes_cons in Hb.
      assert (uwrap64 (bytes - h.2) = held_bytes t) as Eb.
      { rewrite Hb, Z.add_simpl_l. apply uwrap64_id. lia. }
      destruct (trim_loop l t (uwrap64 (bytes - h.2))) as [[ev' rest'] b'] eqn:Et.
      injection E as <- <- <-.
      destruct (IH _ _ _ _ Eb ltac:(rewrite Eb; lia) Et) as (-> & -> & Hw & Hmin).
      split; [done|]. split; [done|]. split; [done|]. intros [|k] Hk.
      * rewrite drop_0. intros [Hw1 Hw2]. rewrite held_bytes_cons in Hw2. apply orb_prop in Eg as [Eg|Eg]; apply Z.ltb_lt in Eg; lia.
      * cbn. apply Hmin. cbn in Hk. lia.
    + injection E as <- <- <-. apply orb_false_elim in Eg as [E1 E2].
      apply Z.ltb_ge in E1, E2. split; [done|]. split; [done|]. split; [split; lia|].
      intros k Hk. cbn in Hk. lia.
Qed.

(** ** Specifications *)

(** Everything but the mappings, the clock and the quarantine is the same. *)
Record memq_only (w w' : world) : Prop := MemqOnly {
  mq_flags : w_flags w' = w_flags w;
  mq_locks : w_locks w' = w_locks w;
  mq_next : w_next w' = w_next w;
  mq_canary : w_canary w' = w_canary w;
  mq_jan : w_jan w' = w_jan w;
  mq_keys : w_keys w' = w_keys w;
  mq_bufs : w_bufs w' = w_bufs w;
  mq_arenas : w_arenas w' = w_arenas w
}.

Lemma memq_only_trans w1 w2 w3 : memq_only w1 w2 -> memq_only w2 w3 -> memq_only w1 w3.
Proof. intros [] []. constructor; congruence. Qed.
Lemma mem_only_memq w w' : mem_only w w' -> memq_only w w'.
Proof. intros []. by constructor. Qed.
Lemma memq_only_quar w q : memq_only w (set_quar q w).
Proof. by constructor. Qed.

Lemma memq_only_frame F w w' :
  memq_only w w' ->
  (forall b m, w_mem w !! b = Some m -> mp_held m = false -> b ∉ fp_mem F -> w_mem w' !! b = Some m) ->
  frame F w w'.
Proof.
  intros [Hf Hl Hn Hc Hj Hk Hb Ha] Hm.
  constructor; [exact Hm|..]; rewrite ?Hf, ?Hl, ?Hn, ?Hc, ?Hj, ?Hb, ?Ha; done.
Qed.

(** The quarantine's invariant: the limits hold, the byte count is the sum of
    the held ranges, and each is a reservation of its own. *)
Record quar_ok (w : world) : Prop := QuarOk {
  qk_regions : 0 <= ql_Regions (q_limits (w_quar w));
  qk_limit : 0 <= ql_Bytes (q_limits (w_quar w)) < 2 ^ 63;
  qk_bytes : q_bytes (w_quar w) = held_bytes (q_held (w_quar w));
  qk_within : within (q_limits (w_quar w)) (q_held (w_quar w));
  qk_nodup : NoDup (q_held (w_quar w)).*1;
  qk_maps : Forall (fun h => exists m, w_mem w !! h.1 = Some m /\ mp_held m = true /\
              mp_outer m = h.2 /\ 0 <= h.2) (q_held (w_quar w))
}.

(** The invariant only looks at the held reservations. *)
Lemma quar_ok_mem w w' :
  quar_ok w -> w_quar w' = w_quar w ->
  (forall b m, w_mem w !! b = Some m -> mp_held m = true -> w_mem w' !! b = Some m) -> quar_ok w'.
Proof.
  intros [] Eq Hm. constructor; rewrite Eq; try done.
  eapply Forall_impl; [done|]. intros h (m & Hb & Hh & ?). exists m. auto.
Qed.

Lemma qk_pos w : quar_ok w -> Forall (fun h => 0 <= h.2) (q_held (w_quar w)).
Proof. intros Q. eapply Forall_impl; [apply (qk_maps _ Q)|]. intros h (m & ?). naive_solver. Qed.

Lemma touch_memq b w w' : touch b w w' -> memq_only w w'.
Proof. intros [? _]. by apply mem_only_memq. Qed.

Section specs.
Context `{K : Kernel} {KOk : KernelOk}.
Implicit Types (w : world) (r : secRegion) (m : mapping).

(** A release takes the reservation away, or fails and leaves it. *)
Lemma wp_releaseAll ev first w :
  returns (releaseAll ev first) w (fun _ w' =>
    mem_only w w' /\ w_mem w' ⊆ w_mem w /\
    forall b, b ∉ ev.*1 -> w_mem w' !! b = w_mem w !! b).
Proof.
  revert first w. induction ev as [|[b n] ev IH]; intros first w; cbn [releaseAll].
  { wpsteps. split; [auto with secmem|done]. }
  wpsteps. unfold releaseQuarantined, k_munmap. wpsteps.
  assert (forall w1 e, mem_only w w1 -> w_mem w1 ⊆ w_mem w ->
    (forall b', b' <> b -> w_mem w1 !! b' = w_mem w !! b') ->
    wp (releaseAll ev e) (fun _ w' => mem_only w w' /\ w_mem w' ⊆ w_mem w /\
      forall b', b' ∉ ((b, n) :: ev).*1 -> w_mem w' !! b' = w_mem w !! b') (fun _ => False) w1) as Hk.
  { intros w1 e M1 S1 E1. eapply wp_returns; [apply IH|]. intros a w' (M2 & S2 & E2).
    split; [by eapply mem_only_trans|]. split; [by etrans|].
    intros b' Hb'. cbn in Hb'. rewrite E2, E1; set_solver. }
  destruct (w_mem w !! b) eqn:Eb; wpsteps; (apply wp_sys; [intros e|]); wpsteps; apply Hk;
    auto with secmem; cbn; try done.
  - apply delete_subseteq.
  - intros. by apply lookup_delete_ne.
Qed.

Lemma wp_werUnexclude n (Q : unit -> world -> Prop) R w :
  (forall w', mem_only w w' -> w_mem w' = w_mem w -> later w w' -> Q tt w') -> wp (werUnexclude n) Q R w.
Proof.
  intros HQ. unfold werUnexclude.
  repeat first [progress wpsteps | case_match | apply wp_sys_any; intros ?]; (apply HQ; [done..|unfold later; cbn; lia]).
Qed.

(** [freeSecretMem] unmaps the region, or fails, the unmap being the call that
    was refused, and leaves its contents. *)
Definition free_post r m (w : world) (e : option gerr) (w' : world) : Prop :=
  touch (rg_base r) w w' /\
  match e with
  | None => w_mem w' !! rg_base r = None
  | Some _ => exists m', w_mem w' !! rg_base r = Some m' /\ mp_bytes m' = mp_bytes m /\
                mp_prot m' = mp_prot m /\ mp_held m' = false /\ mp_outer m' = mp_outer m /\
                last_refused w' /\ (w_tick w <= pred (w_tick w'))%nat
  end.

Lemma wp_freeSecretMem r m w :
  mapped w r m -> returns (freeSecretMem r) w (free_post r m w).
Proof.
  intros [Hat Hh Hl Hi Ho Hop]. unfold freeSecretMem.
  destruct (rg_outer r =? 0) eqn:E; [apply Z.eqb_eq in E; lia|]. wpsteps.
  assert (forall w1 m1, later w w1 -> touch (rg_base r) w w1 -> w_mem w1 !! rg_base r = Some m1 ->
    mp_bytes m1 = mp_bytes m -> mp_prot m1 = mp_prot m -> mp_held m1 = false -> mp_outer m1 = mp_outer m ->
    wp (k_munmap (rg_base r)) (free_post r m w) (fun _ => False) w1) as Hend.
  { intros w1 m1 L1 T1 E1 ????. eapply wp_k_munmap_at; [done|intros e He|]; (split; [auto with secmem|]).
    - exists m1. by cbn.
    - cbn. apply lookup_delete_eq. }
  assert (forall w1, mem_only w w1 -> w_mem w1 = w_mem w -> later w w1 ->
    wp (_ ← k_change (rg_base r) (with_locked false); k_munmap (rg_base r)) (free_post r m w) (fun _ => False) w1) as Hmid.
  { intros w1 M1 E1 L1. assert (touch (rg_base r) w w1) by (split; [done|by rewrite E1]). wpsteps.
    eapply wp_k_change; [by rewrite E1|intros e|];
      (eapply Hend; [unfold later in *; cbn; lia|auto with secmem|cbn; rewrite ?E1; rewrite ?lookup_insert_eq; done|done..]). }
  destruct k_os; [apply wp_ret|apply wp_werUnexclude; intros]; apply Hmid; auto with secmem; done.
Qed.

(** The two outcomes of the replace. *)
Lemma wp_quarantineSecretMem r m w :
  mapped w r m ->
  returns (quarantineSecretMem r) w (fun e w' => touch (rg_base r) w w' /\
    match e with
    | None => w_mem w' !! rg_base r = Some (reservation m)
    | Some _ =>
        (quarantineFailureKeepsRange = false /\ w_mem w' !! rg_base r = None) \/
        exists m', mapped w' r m' /\ mp_bytes m' = mp_bytes m /\ mp_prot m' = mp_prot m /\
          (quarantineFailureKeepsRange = false -> last_refused w')
    end).
Proof.
  intros Hm. pose proof (md_at _ _ _ Hm) as Hat.
  unfold quarantineSecretMem, quarantineFailureKeepsRange. destruct k_os; wpsteps.
  - eapply wp_k_change_at; [done|intros n Hn|intros _].
    + wpsteps. destruct (k_keeps _); wpsteps; (split; [auto with secmem|]).
      * right. exists m. split; [by destruct Hm|]. split; [done|]. split; [done|]. intros _. unfold last_refused. cbn. by rewrite Hn.
      * left. split; [done|]. cbn. apply lookup_delete_eq.
    + wpsteps. split; [auto with secmem|]. cbn. apply lookup_insert_eq.
  - apply wp_werUnexclude. intros w1 M1 E1 _. wpsteps.
    assert (touch (rg_base r) w w1) by (split; [done|by rewrite E1]).
    eapply wp_k_change; [by rewrite E1|intros e|]; (eapply wp_k_change; [cbn; rewrite ?E1, ?lookup_insert_eq; done|intros e'|]);
      (split; [auto with secmem|]); try (cbn; rewrite lookup_insert_eq; done);
      right; [exists m|exists (with_locked false m)]; (split; [|done]);
      destruct Hm; constructor; try done; cbn; rewrite ?E1, ?lookup_insert_eq; done.
Qed.

(** The limits hold a region of this size. *)
Definition admits (w : world) r : Prop :=
  0 < ql_Regions (q_limits (w_quar w)) /\ rg_outer r <= ql_Bytes (q_limits (w_quar w)).

(** [retireSecretMem] ends the region's life: on success nothing at its
    address can be read or written any more; on failure what is left there is
    what was there, and the last call was refused. No other live mapping
    changes, and none appears. *)
Record retire_post r m (w : world) (e : option gerr) (w' : world) : Prop := RetirePost {
  rt_rest : memq_only w w';
  rt_live : forall b m', b <> rg_base r -> w_mem w !! b = Some m' -> mp_held m' = false ->
              w_mem w' !! b = Some m';
  rt_quar : quar_ok w';
  rt_mem : mem_ok w';
  rt_limits : q_limits (w_quar w') = q_limits (w_quar w);
  rt_at : match w_mem w' !! rg_base r with
          | None => True
          | Some m' => mp_held m' = true /\ last (q_held (w_quar w')) = Some (rg_base r, rg_outer r) \/
                       e <> None /\ mp_held m' = false /\ mp_bytes m' = mp_bytes m /\ mp_prot m' = mp_prot m
          end;
  rt_kept : e = None -> admits w r -> quarantineFailureKeepsRange = false ->
            exists m', w_mem w' !! rg_base r = Some m' /\ mp_held m' = true /\ mp_outer m' = rg_outer r;
  rt_new : forall b m', b <> rg_base r -> w_mem w' !! b = Some m' -> w_mem w !! b = Some m';
  rt_last : forall m', w_mem w' !! rg_base r = Some m' -> mp_held m' = false -> last_refused w'
}.

(** The paths that leave the quarantine alone. *)
Lemma retire_untouched r m w e w' :
  quar_ok w -> mem_ok w -> mapped w r m -> touch (rg_base r) w w' ->
  match w_mem w' !! rg_base r with
  | None => True
  | Some m' => e <> None /\ mp_held m' = false /\ mp_bytes m' = mp_bytes m /\
               mp_prot m' = mp_prot m /\ mp_outer m' = mp_outer m /\ last_refused w'
  end ->
  (e = None -> admits w r -> quarantineFailureKeepsRange = true) -> retire_post r m w e w'.
Proof.
  intros Hq Hok Hm [M T] Hat Hk. constructor.
  - by apply mem_only_memq.
  - intros b m' Hb Hb' _. by rewrite T.
  - eapply quar_ok_mem; [done|apply M|]. intros b m' Hb Hh. rewrite T; [done|].
    intros ->. destruct Hm. congruence.
  - eapply mem_ok_touch; [done|by split|]. intros m' Hm'. rewrite Hm' in Hat.
    destruct Hat as (_ & _ & _ & _ & -> & _). destruct Hm. lia.
  - by rewrite (mo_quar _ _ M).
  - destruct (w_mem w' !! rg_base r); [right|done]. naive_solver.
  - intros E1 E2 E3. rewrite Hk in E3; done.
  - intros b m' Hb. by rewrite T.
  - intros m' Em _. by rewrite Em in Hat; destruct Hat as (_ & _ & _ & _ & _ & ?).
Qed.

Lemma retire_free r m w :
  quar_ok w -> mem_ok w -> mapped w r m -> (admits w r -> False) ->
  returns (freeSecretMem r) w (retire_post r m w).
Proof.
  intros Hq Hok Hm Hna. eapply wp_returns; [by apply wp_freeSecretMem|]. intros e w' [T Hat].
  apply retire_untouched; [done..| |intros _ Ha; by destruct Hna]. destruct e; [|by rewrite Hat].
  destruct Hat as (m' & -> & ? & ? & ? & ? & ? & ?). done.
Qed.

Lemma trim_keeps_last l held x ev rest b :
  0 <= ql_Regions l -> 0 <= ql_Bytes l ->
  Forall (fun h => 0 <= h.2) (held ++ [x]) -> held_bytes (held ++ [x]) < 2 ^ 64 ->
  within l [x] -> trim_loop l (held ++ [x]) (held_bytes (held ++ [x])) = (ev, rest, b) ->
  exists rest', rest = rest' ++ [x] /\ held = ev ++ rest' /\ b = held_bytes rest /\ within l rest.
Proof.
  intros HR HB Hpos Hlt Hx E.
  destruct (trim_loop_spec _ _ _ _ _ _ HR HB Hpos eq_refl Hlt E) as (Es & Eb & Hw & Hmin).
  destruct rest as [|y rest _] using rev_ind.
  - exfalso. rewrite app_nil_r in Es. subst ev.
    apply (Hmin (length held)); [rewrite length_app; cbn; lia|]. by rewrite drop_app_length.
  - rewrite app_assoc in Es. apply app_inj_tail in Es as [-> ->]. by exists rest.
Qed.

(** The new reservation enters the queue and the oldest ones leave it. *)
Lemma enqueue_ok r m w w1 ev rest b :
  quar_ok w -> mem_ok w -> mapped w r m -> touch (rg_base r) w w1 ->
  w_mem w1 !! rg_base r = Some (reservation m) ->
  0 < ql_Regions (q_limits (w_quar w)) -> rg_outer r <= ql_Bytes (q_limits (w_quar w)) ->
  trim_loop (q_limits (w_quar w)) (q_held (w_quar w) ++ [(rg_base r, rg_outer r)])
    (uwrap64 (q_bytes (w_quar w) + rg_outer r)) = (ev, rest, b) ->
  forall w2, mem_only (set_quar (Quarantine (q_limits (w_quar w)) rest b) w1) w2 ->
  w_mem w2 ⊆ w_mem w1 -> (forall b, b ∉ ev.*1 -> w_mem w2 !! b = w_mem w1 !! b) ->
  forall e, retire_post r m w e w2.
Proof.
  intros Hq Hok Hm [M T] Hat HR HB E w2 M2 Hsub Hout e.
  pose proof (qk_regions _ Hq) as HR0. pose proof (qk_limit _ Hq) as HL.
  pose proof (qk_within _ Hq) as [_ Hw]. pose proof (qk_bytes _ Hq) as Hbs.
  pose proof (md_outer_pos _ _ _ Hm) as Hop. pose proof (qk_pos _ Hq) as Hpos.
  pose proof (held_bytes_nonneg _ Hpos) as Hnn.
  assert (held_bytes (q_held (w_quar w) ++ [(rg_base r, rg_outer r)]) =
          q_bytes (w_quar w) + rg_outer r) as Es by (rewrite held_bytes_app, Hbs; cbn; lia).
  rewrite uwrap64_id, <- Es in E by lia.
  apply trim_keeps_last in E as (rest' & -> & Eh & -> & Hwr); [|lia|lia| |lia|split; unfold zlen; cbn; lia].
  2:{ apply Forall_app. split; [done|]. repeat constructor. cbn. lia. }
  assert (w_quar w2 = Quarantine (q_limits (w_quar w)) (rest' ++ [(rg_base r, rg_outer r)])
    (held_bytes (rest' ++ [(rg_base r, rg_outer r)]))) as Eq by by rewrite (mo_quar _ _ M2).
  pose proof (qk_maps _ Hq) as Hmaps. pose proof (qk_nodup _ Hq) as Hnd.
  rewrite Eh in Hmaps, Hnd. rewrite fmap_app in Hnd.
  apply Forall_app in Hmaps as [Hme Hmr]. apply NoDup_app in Hnd as (Hnde & Hdisj & Hndr).
  assert (forall h, h ∈ ev ++ rest' -> h.1 <> rg_base r) as Hne.
  { intros h Hh Ee. assert (Forall (fun h => h.1 <> rg_base r) (ev ++ rest')) as HF.
    { apply Forall_app. split; (eapply Forall_impl; [done|]); intros h' (m' & Hm' & Hheld & _) E';
        rewrite E' in Hm'; destruct Hm; congruence. }
    rewrite Forall_forall in HF. by eapply HF. }
  assert (rg_base r ∉ ev.*1) as Hbe.
  { intros Hin. apply list_elem_of_fmap in Hin as (h & Eh' & Hin). apply (Hne h); [set_solver|done]. }
  constructor.
  - eapply memq_only_trans; [by apply mem_only_memq|]. eapply memq_only_trans; [apply memq_only_quar|].
    by apply mem_only_memq.
  - intros b m' Hb Hb' Hlive. rewrite Hout, T; [done|done|]. intros Hin.
    apply list_elem_of_fmap in Hin as (h & -> & Hin). rewrite Forall_forall in Hme.
    destruct (Hme _ Hin) as (m'' & ? & ? & _). congruence.
  - constructor; rewrite Eq; cbn; try done; [|].
    + rewrite fmap_app. apply NoDup_app. split; [done|]. split; [|apply NoDup_singleton].
      intros x Hx Hx'. apply list_elem_of_singleton in Hx' as ->.
      apply list_elem_of_fmap in Hx as (h & Eh' & Hin). apply (Hne h); [set_solver|done].
    + apply Forall_app. split.
      * rewrite Forall_forall in Hmr |- *. intros h Hin. destruct (Hmr _ Hin) as (m' & Hm' & Hrest).
        exists m'. rewrite Hout, T; [done|apply Hne; set_solver|].
        intros Hin'. eapply Hdisj; [done|]. apply list_elem_of_fmap. by exists h.
      * repeat constructor. exists (reservation m). rewrite Hout by done. cbn.
        rewrite (md_outer _ _ _ Hm). repeat split; [done|lia].
  - intros b m' Hb. eapply lookup_weaken in Hb; [|done]. destruct (decide (b = rg_base r)) as [->|].
    + rewrite Hat in Hb. injection Hb as <-. cbn. rewrite (md_outer _ _ _ Hm). lia.
    + rewrite T in Hb by done. by eapply Hok.
  - by rewrite Eq.
  - rewrite Hout, Hat by done. left. split; [done|]. rewrite Eq. cbn. by rewrite last_snoc.
  - intros _ _ _. exists (reservation m). rewrite Hout, Hat by done. cbn.
    by rewrite (md_outer _ _ _ Hm).
  - intros b m' Hb Hm'. eapply lookup_weaken in Hm'; [|done]. by rewrite <- (T b Hb).
  - intros m' Hm'. rewrite Hout, Hat in Hm' by done. by injection Hm' as <-.
Qed.

Lemma wp_retireSecretMem r m w :
  quar_ok w -> mem_ok w -> mapped w r m -> returns (retireSecretMem r) w (retire_post r m w).
Proof.
  intros Hq Hok Hm. unfold retireSecretMem.
  destruct (rg_outer r =? 0) eqn:E; [apply Z.eqb_eq in E; destruct Hm; lia|]. wpsteps.
  destruct (negb _) eqn:Ea.
  { apply retire_free; try done. intros [H1 H2]. apply negb_true_iff, andb_false_iff in Ea as [Ea|Ea];
      [apply Z.ltb_ge in Ea|apply Z.leb_gt in Ea]; lia. }
  apply negb_false_iff, andb_true_iff in Ea as [E1 E2]. apply Z.ltb_lt in E1. apply Z.leb_le in E2.
  wpsteps. eapply wp_returns; [by apply wp_quarantineSecretMem|]. intros e w1 [T Hat].
  destruct e as [e|].
  - destruct (negb quarantineFailureKeepsRange) eqn:Ek.
    + wpsteps. apply retire_untouched; [done..| |intros Ee; discriminate]. destruct Hat as [[_ ->]|(m' & Hm' & ? & ? & Hlast)]; [done|].
      apply negb_true_iff in Ek. specialize (Hlast Ek).
      rewrite (md_at _ _ _ Hm'). destruct Hm, Hm'. repeat split; congruence || done.
    + destruct Hat as [[Hk _]|(m' & Hm' & Eb & Ep & _)]; [by rewrite Hk in Ek|].
      eapply wp_returns; [by apply wp_freeSecretMem|]. intros e' w2 [T2 Hat2].
      apply retire_untouched; [done..|by eapply touch_trans| |by apply negb_false_iff in Ek].
      destruct e'; [|by rewrite Hat2]. destruct Hat2 as (m2 & -> & ? & ? & ? & ? & ? & ?).
      destruct Hm, Hm'. repeat split; congruence || done.
  - wpsteps. assert (w_quar w1 = w_quar w) as -> by (destruct T as [[] _]; done).
    unfold trimLocked. cbn [q_limits q_held q_bytes].
    destruct (trim_loop _ _ _) as [[ev rest] b] eqn:Et. wpsteps.
    eapply wp_returns; [apply wp_releaseAll|]. intros e w2 (M2 & S2 & O2).
    by eapply enqueue_ok.
Qed.

Lemma quar_trim w held ev rest b l :
  q_held (w_quar w) = held -> quar_ok w -> 0 <= ql_Regions l -> 0 <= ql_Bytes l < 2 ^ 63 ->
  trim_loop l held (q_bytes (w_quar w)) = (ev, rest, b) ->
  held = ev ++ rest /\ (forall k, (k < length ev)%nat -> ~ within l (drop k held)) /\
  forall w2, mem_only (set_quar (Quarantine l rest b) w) w2 ->
  (forall b, b ∉ ev.*1 -> w_mem w2 !! b = w_mem w !! b) ->
  quar_ok w2 /\ (forall b m, w_mem w !! b = Some m -> mp_held m = false -> w_mem w2 !! b = Some m).
Proof.
  intros <- Hq HR HB E. pose proof (qk_bytes _ Hq) as Hbs. pose proof (qk_limit _ Hq).
  pose proof (qk_within _ Hq) as [_ Hw]. pose proof (qk_pos _ Hq) as Hpos.
  destruct (trim_loop_spec _ _ _ _ _ _ HR ltac:(lia) Hpos Hbs ltac:(lia) E) as (Eh & -> & Hwr & Hmin).
  split; [done|]. split; [done|]. intros w2 M2 Hout.
  pose proof (qk_maps _ Hq) as Hmaps. pose proof (qk_nodup _ Hq) as Hnd.
  rewrite Eh in Hmaps, Hnd. rewrite fmap_app in Hnd.
  apply Forall_app in Hmaps as [Hme Hmr]. apply NoDup_app in Hnd as (_ & Hdisj & Hndr).
  split.
  - constructor; rewrite (mo_quar _ _ M2); cbn; try done.
    rewrite Forall_forall in Hmr |- *. intros h Hin. rewrite Hout; [by apply Hmr|].
    intros Hin'. eapply Hdisj; [done|]. apply list_elem_of_fmap. by exists h.
  - intros b m Hb Hlive. rewrite Hout; [done|]. intros Hin.
    apply list_elem_of_fmap in Hin as (h & -> & Hin). rewrite Forall_forall in Hme.
    destruct (Hme _ Hin) as (m'' & ? & ? & _). congruence.
Qed.
End specs.

(** ** What the quarantine promises *)

Section promises.
Context `{K : Kernel} {KOk : KernelOk}.

(** [SetQuarantineLimits] returns the limits that were in force and puts
    the clamped new ones in force: it evicts from the old end, exactly as many
    reservations as the new limits require (one fewer would exceed them), the
    limits hold afterwards and the byte count is exact, and no live mapping is
    touched, whatever unmap calls fail on the way. *)
Theorem set_limits_fifo (w : world) (l : QuarantineLimits) :
  quar_ok w -> 0 <= ql_Bytes l < 2 ^ 63 ->
  let l' := MkQuarantineLimits (Z.max 0 (ql_Regions l)) (ql_Bytes l) in
  exists w' evicted,
    SetQuarantineLimits l w = Ret (q_limits (w_quar w)) w' /\
    q_limits (w_quar w') = l' /\ quar_ok w' /\
    q_held (w_quar w) = evicted ++ q_held (w_quar w') /\
    (forall k, (k < length evicted)%nat -> ~ within l' (drop k (q_held (w_quar w)))) /\
    (forall b m, w_mem w !! b = Some m -> mp_held m = false -> w_mem w' !! b = Some m).
Proof.
  intros Hq HB l'.
  destruct (trim_loop l' (q_held (w_quar w)) (q_bytes (w_quar w))) as [[ev rest] b] eqn:Et.
  destruct (quar_trim w _ ev rest b l' eq_refl Hq ltac:(unfold l'; cbn; lia) ltac:(done) Et) as (Eh & Hmin & Hrest).
  assert (returns (SetQuarantineLimits l) w (fun r w' => r = q_limits (w_quar w) /\
    mem_only (set_quar (Quarantine l' rest b) w) w' /\
    forall b, b ∉ ev.*1 -> w_mem w' !! b = w_mem w !! b)) as Hr.
  { unfold SetQuarantineLimits.
    assert ((if ql_Regions l <? 0 then MkQuarantineLimits 0 (ql_Bytes l) else l) = l') as ->.
    { unfold l'. destruct l as [n bs]. cbn. destruct (n <? 0) eqn:En; [apply Z.ltb_lt in En|apply Z.ltb_ge in En]; f_equal; lia. }
    wpsteps. unfold trimLocked. cbn [q_limits q_held q_bytes]. rewrite Et. wpsteps.
    eapply wp_returns; [apply wp_releaseAll|]. intros e w2 (M2 & _ & O2). by wpsteps. }
  apply returns_run in Hr as (r & w' & Er & -> & M & O). exists w', ev.
  destruct (Hrest w' M O) as [Hq' Hl]. pose proof (mo_quar _ _ M) as Eq.
  split; [done|]. rewrite Eq in *. done.
Qed.

(** Retiring a wiped region, under every pattern of kernel failures:
    the call returns; no other live mapping changes and the quarantine's
    limits and accounting hold; after a success every load and store at the
    region's address faults; and where a failed replace cannot fall back to
    the unmap (Linux) a success means the range is held, so that whatever is
    allocated next lies elsewhere. *)
Theorem retire_reserves (w : world) (r : secRegion) (m : mapping) :
  quar_ok w -> mem_ok w -> mapped w r m ->
  exists e w', retireSecretMem r w = Ret e w' /\ quar_ok w' /\ mem_ok w' /\
    (forall b m', b <> rg_base r -> w_mem w !! b = Some m' -> mp_held m' = false ->
       w_mem w' !! b = Some m') /\
    (e = None -> mem_load (rg_base r) w' = Fault /\ forall bs, mem_store (rg_base r) bs w' = Fault) /\
    (e = None -> admits w r -> k_os = Linux ->
     forall size reg n info w'', size <= MaxInt -> allocSecretMem size w' = Ret (inr (reg, n, info)) w'' ->
       rg_base reg + rg_outer reg <= rg_base r \/ rg_base r + rg_outer r <= rg_base reg).
Proof.
  intros Hq Hok Hm. pose proof (wp_retireSecretMem r m w Hq Hok Hm) as Hr.
  apply returns_run in Hr as (e & w' & Er & [_ Hl Hq' Hok' _ Hat Hk _ _]). exists e, w'.
  do 4 (split; [done|]). split.
  - intros ->. unfold mem_load, mem_store. destruct (w_mem w' !! rg_base r) as [m'|]; [|done].
    destruct Hat as [[Hh _]|[? _]]; [|done]. unfold readable, writable. by rewrite Hh.
  - intros He Ha Hos size reg n info w'' Hsz Hal.
    destruct (Hk He Ha ltac:(unfold quarantineFailureKeepsRange; by rewrite Hos)) as (m' & Hm' & _ & Ho).
    pose proof (returns_ret _ _ _ _ _ (alloc_secret_spec size w' Hsz Hok') Hal) as [(_ & _ & Hall) _].
    pose proof (al_range _ _ _ _ Hall _ _ Hm'). cbn in *. lia.
Qed.
End promises.

#[local] Existing Instance linux_kernel.
#[local] Existing Instance linux_kernel_ok.

(** Two retired regions, then a limit of one: the older range goes. *)
Definition sample_held : world :=
  let l := MkQuarantineLimits 4 1000 in
  let r b := Mapping [] PROT_NONE false 96 false true in
  set_quar (Quarantine l [(64, 96); (160, 96)] 192)
    (set_mem (fun _ => <[64 := r 64]> (<[160 := r 160]> ∅)) (start_world l)).

Lemma sample_held_ok : quar_ok sample_held.
Proof.
  split; cbn; try done; [by repeat constructor; set_solver|].
  repeat constructor; eexists; repeat split; try done.
Qed.

Lemma set_limits_fifo_witness :
  (exists w' ev, SetQuarantineLimits (MkQuarantineLimits 1 1000) sample_held = Ret (MkQuarantineLimits 4 1000) w' /\
     q_held (w_quar sample_held) = ev ++ q_held (w_quar w')) /\
  match SetQuarantineLimits (MkQuarantineLimits 1 1000) sample_held with
  | Ret _ w' => q_held (w_quar w') = [(160, 96)] | _ => False end.
Proof.
  split; [|vm_compute; reflexivity].
  destruct (@set_limits_fifo linux_kernel linux_kernel_ok sample_held (MkQuarantineLimits 1 1000) sample_held_ok)
    as (w' & ev & E & _ & _ & Hh & _); [cbn; lia|].
  exists w', ev. split; [exact E|exact Hh].
Defined.

(** A mapped region beside a held one. *)
Definition sample_region : secRegion := SecRegion 256 32 96.
Definition sample_live : world :=
  set_mem (insert 256 (Mapping (zeros 32) PROT_RW true 96 false false)) sample_held.

Lemma sample_live_ok :
  quar_ok sample_live /\ mem_ok sample_live /\
  mapped sample_live sample_region (Mapping (zeros 32) PROT_RW true 96 false false).
Proof.
  split; [|split].
  - eapply quar_ok_mem; [apply sample_held_ok|done|]. intros b m Hb Hh. cbn in *.
    rewrite lookup_insert_ne; [done|]. intros <-. vm_compute in Hb. done.
  - intros b m Hb. cbn in Hb. rewrite !lookup_insert_Some in Hb.
    destruct Hb as [[_ <-]|[_ [[_ <-]|[_ [[_ <-]|[_ Hb]]]]]]; try done.
    all: by rewrite ?lookup_empty in Hb.
  - by constructor.
Qed.

Lemma retire_reserves_witness :
  exists w', retireSecretMem sample_region sample_live = Ret None w' /\
    mem_load 256 w' = Fault /\
    (forall size reg n info w'', size <= MaxInt -> allocSecretMem size w' = Ret (inr (reg, n, info)) w'' ->
       rg_base reg + rg_outer reg <= 256 \/ 256 + 96 <= rg_base reg).
Proof.
  destruct sample_live_ok as (Hq & Hok & Hm).
  destruct (@retire_reserves linux_kernel linux_kernel_ok _ _ _ Hq Hok Hm)
    as (e & w' & E & _ & _ & _ & H1 & H2).
  exists w'. assert (e = None) as -> by (vm_compute in E; injection E; auto).
  split; [exact E|]. split; [apply H1; reflexivity|].
  intros size reg n info w''. apply (H2 eq_refl); [split; vm_compute; [reflexivity|discriminate]|reflexivity].
Defined.
