(* ===== verification/Janitor.v ===== *)
(** * The janitor (registry.go)

    The registry of live secret mappings and the emergency wipe. A registration
    is in the live set, in the set of regions wiped in place and left mapped, or
    gone. *)
From S2P Require Import Prelude Errors Canary World Memory Frame Effects Sample Quarantine.

(** The region a lookup that fails returns. *)
Definition setJan (f : janitor -> janitor) : GM unit := modify (fun w => set_jan (f (w_jan w)) w).

(** [nextJanitorKey.Add(1)] and the registration. *)
Definition register (region : secRegion) (canary : canaryLayout) (mu : Z)
    (sealCipher wiped : option Z) : GM (gerr + Z) :=
  j0 ← gets w_jan;
  let key := uwrap64 (jn_nextKey j0 + 1) in
  setJan (fun j => Janitor (jn_regions j) (jn_wiped j) key);;
  j ← gets w_jan;
  if (key =? 0) then mret (inl (Sent errJanitorKeyCollision))
  else match jn_regions j !! key, jn_wiped j !! key with
       | None, None =>
           setJan (fun j => Janitor (<[key := JanitorRegion region mu canary sealCipher wiped]> (jn_regions j))
                                    (jn_wiped j) (jn_nextKey j));;
           mret (inr key)
       | _, _ => mret (inl (Sent errJanitorKeyCollision))
       end.

Definition takeLive (key : Z) : GM (option janitorRegion) :=
  j ← gets w_jan;
  match jn_regions j !! key with
  | Some r => setJan (fun j => Janitor (delete key (jn_regions j)) (jn_wiped j) (jn_nextKey j));; mret (Some r)
  | None => mret None
  end.

Definition takeWiped (key : Z) : GM (option janitorRegion) :=
  j ← gets w_jan;
  match jn_wiped j !! key with
  | Some r => setJan (fun j => Janitor (jn_regions j) (delete key (jn_wiped j)) (jn_nextKey j));; mret (Some r)
  | None => mret None
  end.

Definition takeAny (key : Z) : GM (option janitorRegion) :=
  r ← takeLive key;
  match r with
  | Some r => mret (Some r)
  | None => takeWiped key
  end.

Definition peekAny (key : Z) : GM (option janitorRegion) :=
  j ← gets w_jan;
  mret match jn_regions j !! key with
       | Some r => Some r
       | None => jn_wiped j !! key
       end.

Definition takeAnyIf (key mu : Z) : GM (option janitorRegion) :=
  j ← gets w_jan;
  match jn_regions j !! key with
  | Some r =>
      if negb (jr_mu r =? mu) then mret None
      else setJan (fun j => Janitor (delete key (jn_regions j)) (jn_wiped j) (jn_nextKey j));; mret (Some r)
  | None =>
      match jn_wiped j !! key with
      | Some r =>
          if negb (jr_mu r =? mu) then mret None
          else setJan (fun j => Janitor (jn_regions j) (delete key (jn_wiped j)) (jn_nextKey j));; mret (Some r)
      | None => mret None
      end
  end.

(** The registration as the wiped set keeps it. *)
Definition retained (r : janitorRegion) : janitorRegion :=
  JanitorRegion (jr_region r) (jr_mu r) canaryLayout_zero None (jr_wiped r).

(** The registration as it was, and whether it came from the live set. *)
Definition moveToWipedIf (key mu : Z) : GM (option (janitorRegion * bool)) :=
  j ← gets w_jan;
  match jn_regions j !! key with
  | Some r =>
      if negb (jr_mu r =? mu) then mret None
      else setJan (fun j => Janitor (delete key (jn_regions j)) (<[key := retained r]> (jn_wiped j)) (jn_nextKey j));;
           mret (Some (r, true))
  | None =>
      match jn_wiped j !! key with
      | Some r => if negb (jr_mu r =? mu) then mret None else mret (Some (r, false))
      | None => mret None
      end
  end.

Definition returnToLive (key : Z) (r : janitorRegion) : GM unit :=
  j ← gets w_jan;
  match jn_wiped j !! key with
  | Some filed =>
      if (jr_mu filed =? jr_mu r)
      then setJan (fun j => Janitor (<[key := r]> (jn_regions j)) (delete key (jn_wiped j)) (jn_nextKey j))
      else mret tt
  | None => mret tt
  end.

Definition markWiped (r : janitorRegion) : GM unit :=
  match jr_wiped r with
  | Some f => flag_store f true
  | None => mret tt
  end.

Section janitor.
Context `{Kernel}.

(** [canary.intact(inner)]: the pattern is drawn at the first zone with
    bytes. *)
Definition canaryCheck (c : canaryLayout) (inner : list Z) : GM bool :=
  err ← (if existsb (fun z => inBounds z.1 z.2 (zlen inner)) (zones c) then canaryInit else mret None);
  st ← gets w_canary;
  mret (intact err (cn_pattern st) c inner).

Definition wipeAndFree (jr : janitorRegion) (lockHeld unmap : bool) : GM (option gerr) :=
  let body :=
    err ← mprotectSecretMem (jr_region jr) PROT_RW;
    match err with
    | Some e =>
        if negb unmap then mret (Some (Wrap "" [Sent errWipeSkipped; e]))
        else
        let werr := errorf "secmem: janitor: restoring write access failed, region released unwiped" e in
        aerr ← madviseBeforeFree (jr_region jr);
        ferr ← freeSecretMem (jr_region jr);
        mret (errorsJoin [Some werr;
          errorf "secmem: janitor: releasing frames of unwiped region failed" <$> aerr; ferr])
    | None =>
        ciph ← (match jr_sealCipher jr with None => mret false | Some f => flag_load f end);
        canaryErr ← (if negb ciph then
                       bs ← mem_load (rg_base (jr_region jr));
                       ok ← canaryCheck (jr_canary jr) bs;
                       mret (if negb ok then Some (Sent ErrCanaryViolation) else None)
                     else mret None);
        wipeInner (jr_region jr);;
        (match jr_sealCipher jr with None => mret tt | Some f => flag_store f false end);;
        if negb unmap then mret canaryErr
        else
        _ ← madviseBeforeFree (jr_region jr);
        rerr ← retireSecretMem (jr_region jr);
        mret (errorsJoin [canaryErr; rerr])
    end in
  if negb lockHeld then lk_lock (jr_mu jr);; defer body (lk_unlock (jr_mu jr)) else body.

Definition release (key : Z) (lockHeld : bool) : GM (option gerr) :=
  if lockHeld then
    r ← takeAny key;
    match r with
    | None => mret None
    | Some jr => wipeAndFree jr true true
    end
  else
    peeked ← peekAny key;
    match peeked with
    | None => mret None
    | Some pk =>
        lk_lock (jr_mu pk);;
        defer (r ← takeAnyIf key (jr_mu pk);
               match r with
               | None => mret None
               | Some jr => wipeAndFree jr true true
               end) (lk_unlock (jr_mu pk))
    end.

(** What both passes do under the region's lock. *)
Definition wipeLocked (key mu : Z) : GM (option gerr) :=
  r ← moveToWipedIf key mu;
  match r with
  | None => mret None
  | Some (jr, wasLive) =>
      err ← wipeAndFree jr true false;
      (match is_err err errWipeSkipped, wasLive with
       | false, _ => markWiped jr
       | true, true => returnToLive key jr
       | true, false => mret tt
       end);;
      mret err
  end.

Definition wipeInPlace (key : Z) : GM (option gerr) :=
  peeked ← peekAny key;
  match peeked with
  | None => mret None
  | Some pk => lk_lock (jr_mu pk);; defer (wipeLocked key (jr_mu pk)) (lk_unlock (jr_mu pk))
  end.

Definition tryWipeInPlace (key : Z) : GM (bool * option gerr) :=
  peeked ← peekAny key;
  match peeked with
  | None => mret (true, None)
  | Some pk =>
      ok ← lk_tryLock (jr_mu pk);
      if negb ok then mret (false, None)
      else err ← defer (wipeLocked key (jr_mu pk)) (lk_unlock (jr_mu pk)); mret (true, err)
  end.

(** The first pass over the keys, in the order the map iteration gave them:
    the joined errors and the keys left for the second pass. *)
Fixpoint firstPass (keys : list Z) (errs : option gerr) (deferred : list Z) : GM (option gerr * list Z) :=
  match keys with
  | [] => mret (errs, deferred)
  | key :: keys =>
      r ← tryWipeInPlace key;
      let errs := match r.2 with Some e => errorsJoin [errs; Some e] | None => errs end in
      firstPass keys errs (if negb r.1 then deferred ++ [key] else deferred)
  end.

(** The second pass: one goroutine per deferred key. Each runs whenever its
    own lock lets it; between them a borrow elsewhere may end. *)
Inductive second_step : list Z * option gerr * world -> list Z * option gerr * world -> Prop :=
| ss_wipe d1 key d2 errs w err w' :
    wipeInPlace key w = Ret err w' ->
    second_step (d1 ++ key :: d2, errs, w)
      (d1 ++ d2, match err with Some e => errorsJoin [errs; Some e] | None => errs end, w')
| ss_borrow_ends d errs w l n :
    w_locks w !! l = Some (LockState n false) -> 0 < n ->
    second_step (d, errs, w) (d, errs, set_locks (insert l (LockState (n - 1) false)) w).

(** [wipeAllInPlace] with the keys of both sets in map-iteration order [keys]:
    done after the first pass, or waiting for the goroutines of the second. *)
Definition wipeAllInPlace (keys : list Z) : GM (option gerr * list Z) := firstPass keys None [].
End janitor.

(** ** The registry's invariant *)

Definition lookup_any (w : world) (k : Z) : option janitorRegion :=
  match jn_regions (w_jan w) !! k with
  | Some jr => Some jr
  | None => jn_wiped (w_jan w) !! k
  end.

Definition jr_flags (jr : janitorRegion) : list Z :=
  option_list (jr_sealCipher jr) ++ option_list (jr_wiped jr).

(** A registration's resources: its mapping, its lock, its flags, and a drawn
    pattern if it has canary zones. *)
Record res_ok (w : world) (jr : janitorRegion) : Prop := ResOk {
  ro_map : exists m, mapped w (jr_region jr) m;
  ro_lock : exists n b, w_locks w !! jr_mu jr = Some (LockState n b) /\ 0 <= n /\ (b = true -> n = 0);
  ro_flags : forall f, f ∈ jr_flags jr -> is_Some (w_flags w !! f);
  ro_nodup : NoDup (jr_flags jr);
  ro_canary : jr_canary jr = canaryLayout_zero \/ cn_done (w_canary w) = Some None
}.

(** No key is in both sets, an entry of the wiped set carries no canary layout
    and no cipher flag, every key was minted, and no two registrations share a
    mapping, a lock or a flag. *)
Record jan_ok (w : world) : Prop := JanOk {
  jk_disj : jn_regions (w_jan w) ##ₘ jn_wiped (w_jan w);
  jk_key : forall k jr, lookup_any w k = Some jr -> 0 < k <= jn_nextKey (w_jan w);
  jk_res : forall k jr, lookup_any w k = Some jr -> res_ok w jr;
  jk_wiped : forall k jr, jn_wiped (w_jan w) !! k = Some jr -> retained jr = jr;
  jk_inj : forall k1 k2 jr1 jr2, lookup_any w k1 = Some jr1 -> lookup_any w k2 = Some jr2 -> k1 <> k2 ->
             rg_base (jr_region jr1) <> rg_base (jr_region jr2) /\ jr_mu jr1 <> jr_mu jr2 /\
             forall f, f ∈ jr_flags jr1 -> f ∈ jr_flags jr2 -> False
}.

(** ** One wipe, exactly *)

Definition clock (t : nat) (w : world) : world :=
  World (w_mem w) t (w_flags w) (w_locks w) (w_next w) (w_canary w)
    (w_jan w) (w_quar w) (w_keys w) (w_bufs w) (w_arenas w).

Definition flag_update (o : option Z) (b : bool) : gmap Z bool -> gmap Z bool :=
  match o with Some f => insert f b | None => id end.

Section wipe.
Context `{K : Kernel}.

(** The world after registration [jr] of key [k], mapped as [m], was wiped in
    place: zeros, read-write; ciphertext flag down, wiped flag up; filed in
    the wiped set. Nothing else. *)
Definition wipedWorld (k : Z) (jr : janitorRegion) (m : mapping) (w : world) : world :=
  set_jan (Janitor (delete k (jn_regions (w_jan w))) (<[k := retained jr]> (jn_wiped (w_jan w))) (jn_nextKey (w_jan w)))
    (set_flags (fun F => flag_update (jr_wiped jr) true (flag_update (jr_sealCipher jr) false F))
      (set_mem (insert (rg_base (jr_region jr)) (with_bytes (zeros (rg_inner (jr_region jr))) (protect PROT_RW m))) w)).

(** What the canary check of a wipe reports: nothing for ciphertext, else
    whether a zone was overwritten. *)
Definition verdict (w : world) (jr : janitorRegion) (m : mapping) : option gerr :=
  if match jr_sealCipher jr with Some f => default false (w_flags w !! f) | None => false end then None
  else if intact None (cn_pattern (w_canary w)) (jr_canary jr) (mp_bytes m) then None
  else Some (Sent ErrCanaryViolation).

Lemma wp_flag_load f b (Q : bool -> world -> Prop) R w :
  w_flags w !! f = Some b -> Q b w -> wp (flag_load f) Q R w.
Proof. intros E HQ. unfold wp, flag_load. by rewrite E. Qed.

Lemma wp_flag_store f b (Q : unit -> world -> Prop) R w :
  is_Some (w_flags w !! f) -> Q tt (set_flags (insert f b) w) -> wp (flag_store f b) Q R w.
Proof. intros [v E] HQ. unfold wp, flag_store. by rewrite E. Qed.

Lemma wp_canaryCheck c inner (Q : bool -> world -> Prop) R w :
  c = canaryLayout_zero \/ cn_done (w_canary w) = Some None ->
  Q (intact None (cn_pattern (w_canary w)) c inner) w -> wp (canaryCheck c inner) Q R w.
Proof.
  intros Hc HQ. unfold canaryCheck. wpsteps. destruct Hc as [->|Hd].
  - cbn. wpsteps. exact HQ.
  - destruct (existsb _ _); [|by wpsteps]. unfold canaryInit. wpsteps. rewrite Hd. by wpsteps.
Qed.

Lemma wp_opt_flag_load o (Q : bool -> world -> Prop) R w :
  (forall f, o = Some f -> is_Some (w_flags w !! f)) ->
  Q (match o with Some f => default false (w_flags w !! f) | None => false end) w ->
  wp (match o with None => mret false | Some f => flag_load f end) Q R w.
Proof.
  intros Hf HQ. destruct o as [f|]; [|by wpsteps]. destruct (Hf f eq_refl) as [b Eb].
  eapply wp_flag_load; [done|]. by rewrite Eb in HQ.
Qed.

Lemma wp_opt_flag_store o b (Q : unit -> world -> Prop) R w :
  (forall f, o = Some f -> is_Some (w_flags w !! f)) ->
  Q tt (set_flags (flag_update o b) w) ->
  wp (match o with None => mret tt | Some f => flag_store f b end) Q R w.
Proof.
  intros Hf HQ. destruct o as [f|]; cbn in *.
  - by apply wp_flag_store; [apply Hf|].
  - wpsteps. by destruct w.
Qed.

(** Everything of [wipeAndFree] up to the wipe: skipped, or wiped with the
    verdict of the canary check. *)
Lemma wp_wipe_upto jr m unmap (Q : option gerr -> world -> Prop) R w :
  res_ok w jr -> mapped w (jr_region jr) m ->
  let w1 := set_flags (flag_update (jr_sealCipher jr) false)
    (set_mem (insert (rg_base (jr_region jr)) (with_bytes (zeros (rg_inner (jr_region jr))) (protect PROT_RW m))) (tick w)) in
  (forall n, k_errno (w_tick w) = Some n -> let e := Errno n in
      wp (if negb unmap then mret (Some (Wrap "" [Sent errWipeSkipped; e]))
      else
      let werr := errorf "secmem: janitor: restoring write access failed, region released unwiped" e in
      aerr ← madviseBeforeFree (jr_region jr);
      ferr ← freeSecretMem (jr_region jr);
      mret (errorsJoin [Some werr;
        errorf "secmem: janitor: releasing frames of unwiped region failed" <$> aerr; ferr])) Q R (tick w)) ->
  (k_errno (w_tick w) = None -> wp (if negb unmap then mret (verdict w jr m)
      else
      _ ← madviseBeforeFree (jr_region jr);
      rerr ← retireSecretMem (jr_region jr);
      mret (errorsJoin [verdict w jr m; rerr])) Q R w1) ->
  wp (wipeAndFree jr true unmap) Q R w.
Proof.
  intros [_ _ Hfl _ Hcan] Hm w1 Hskip Hok. unfold wipeAndFree. cbn [negb].
  apply wp_bind. eapply wp_mprotect_at; [done|right; by right|exact Hskip|]. intros Hgo. specialize (Hok Hgo).
  assert (forall f, jr_sealCipher jr = Some f -> is_Some (w_flags w !! f)) as Hc.
  { intros f E. apply Hfl. unfold jr_flags. rewrite E. set_solver. }
  apply wp_bind. apply wp_opt_flag_load; [done|]. cbn [w_flags set_mem tick].
  apply wp_bind.
  assert (wp (wipeInner (jr_region jr);;
     (match jr_sealCipher jr with None => mret tt | Some f => flag_store f false end);;
     if negb unmap then mret (verdict w jr m)
     else _ ← madviseBeforeFree (jr_region jr); rerr ← retireSecretMem (jr_region jr);
          mret (errorsJoin [verdict w jr m; rerr])) Q R
     (set_mem (insert (rg_base (jr_region jr)) (protect PROT_RW m)) (tick w))) as Hend.
  { apply wp_bind. eapply wp_wipeInner; [by apply mapped_protect|apply protect_prot|].
    apply wp_bind. apply wp_opt_flag_store; [done|].
    replace (set_mem _ (set_mem _ _)) with (set_mem (insert (rg_base (jr_region jr))
      (with_bytes (zeros (rg_inner (jr_region jr))) (protect PROT_RW m))) (tick w)); [exact Hok|].
    unfold set_mem. cbn. by rewrite insert_insert_eq. }
  unfold verdict in Hend.
  destruct (match jr_sealCipher jr with Some f => _ | None => _ end); cbn [negb]; [by apply wp_ret|].
  apply wp_bind. eapply wp_mem_load; [cbn; apply lookup_insert_eq| |].
  { unfold readable. rewrite protect_held, protect_prot, (md_held _ _ _ Hm). done. }
  apply wp_bind. apply wp_canaryCheck; [done|]. apply wp_ret.
  rewrite protect_bytes. cbn [w_canary set_mem tick]. by destruct (intact _ _ _ _).
Qed.

Lemma wp_lk_tryLock p n b (Q : bool -> world -> Prop) R w :
  w_locks w !! p = Some (LockState n b) -> 0 <= n ->
  (b || (0 <? n) = true -> Q false w) ->
  (b = false -> n = 0 -> Q true (set_locks (insert p (LockState 0 true)) w)) ->
  wp (lk_tryLock p) Q R w.
Proof.
  intros E Hn H1 H2. unfold wp, lk_tryLock. rewrite E. cbn. destruct (b || (0 <? n)) eqn:Eb; [by apply H1|].
  apply orb_false_elim in Eb as [-> Eb]. apply Z.ltb_ge in Eb. apply H2; [done|lia].
Qed.

Lemma wp_lk_lock p (Q : unit -> world -> Prop) R w :
  w_locks w !! p = Some (LockState 0 false) ->
  Q tt (set_locks (insert p (LockState 0 true)) w) -> wp (lk_lock p) Q R w.
Proof. intros E HQ. unfold wp, lk_lock. by rewrite E. Qed.

Lemma wp_lk_unlock p n b (Q : unit -> world -> Prop) R w :
  w_locks w !! p = Some (LockState n b) ->
  Q tt (set_locks (insert p (LockState n false)) w) -> wp (lk_unlock p) Q R w.
Proof. intros E HQ. unfold wp, lk_unlock. by rewrite E. Qed.
End wipe.

Section passes.
Context `{K : Kernel}.
Implicit Types (w : world) (jr : janitorRegion).

(** The outcome of one wipe in place: skipped with everything as it was, or
    wiped with the canary verdict. *)
Definition wipe_outcome (k : Z) jr (w : world) (err : option gerr) (w' : world) : Prop :=
  exists t m, mapped w (jr_region jr) m /\
    ((is_err err errWipeSkipped = true /\ w' = clock t w) \/
     (err = verdict w jr m /\ w' = clock t (wipedWorld k jr m w))).

Lemma verdict_cases w jr m : verdict w jr m = None \/ verdict w jr m = Some (Sent ErrCanaryViolation).
Proof. unfold verdict. repeat case_match; auto. Qed.

Lemma verdict_not_skipped w jr m : is_err (verdict w jr m) errWipeSkipped = false.
Proof. unfold verdict. by repeat case_match. Qed.

Lemma res_ok_jan w jr j : res_ok w jr -> res_ok (set_jan j w) jr.
Proof. intros [(m & []) ? ? ? ?]. constructor; try done. exists m. by constructor. Qed.

Lemma wp_wipeLocked k jr w :
  jan_ok w -> lookup_any w k = Some jr ->
  returns (wipeLocked k (jr_mu jr)) w (wipe_outcome k jr w).
Proof.
  intros Hj Hl. pose proof (jk_res _ Hj _ _ Hl) as Hres. destruct (ro_map _ _ Hres) as [m Hm].
  set (j' := Janitor (delete k (jn_regions (w_jan w))) (<[k := retained jr]> (jn_wiped (w_jan w))) (jn_nextKey (w_jan w))).
  (* the wipe itself, from the world with the registration filed as wiped *)
  assert (forall wasLive,
    (wasLive = true -> jn_regions (w_jan w) !! k = Some jr /\ jn_wiped (w_jan w) !! k = None) ->
    (wasLive = false -> set_jan j' w = w) ->
    returns (err ← wipeAndFree jr true false;
             (match is_err err errWipeSkipped, wasLive with
              | false, _ => markWiped jr
              | true, true => returnToLive k jr
              | true, false => mret tt
              end);; mret err) (set_jan j' w) (wipe_outcome k jr w)) as Hcore.
  { intros wl Hwl Hnl. unfold returns. apply wp_bind.
    eapply wp_wipe_upto; [by apply res_ok_jan|by destruct Hm; constructor|intros n _ e|intros _]; cbn [negb]; apply wp_ret.
    - assert (is_err (Some (Wrap "" [Sent errWipeSkipped; e])) errWipeSkipped = true) as Es by done.
      rewrite Es. destruct wl.
      + destruct (Hwl eq_refl) as [H1 H2]. unfold returnToLive. wpsteps. cbn. rewrite lookup_insert_eq. cbn.
        rewrite Z.eqb_refl. unfold setJan. wpsteps. exists (S (w_tick w)), m. split; [done|]. left. split; [done|].
        unfold clock, set_jan, tick. cbn. f_equal. destruct (w_jan w) as [jl jw jn]. cbn in *. unfold j'. cbn. f_equal.
        * by rewrite insert_delete_id.
        * by rewrite delete_insert_id.
      + wpsteps. rewrite (Hnl eq_refl). exists (S (w_tick w)), m. split; [done|]. by left.
    - assert (verdict (set_jan j' w) jr m = verdict w jr m) as -> by done.
      rewrite verdict_not_skipped. unfold markWiped. apply wp_bind.
      apply (wp_opt_flag_store (jr_wiped jr) true).
      + intros f E. cbn. destruct (ro_flags _ _ Hres f) as [v Hv].
        { unfold jr_flags. rewrite E. set_solver. }
        unfold flag_update. destruct (jr_sealCipher jr) as [f'|] eqn:Ec; [|by exists v].
        rewrite lookup_insert_ne; [by exists v|]. intros ->.
        pose proof (ro_nodup _ _ Hres) as Hnd. unfold jr_flags in Hnd. rewrite Ec, E in Hnd. cbn in Hnd.
        inversion Hnd; set_solver.
      + wpsteps. exists (S (w_tick w)), m. split; [done|]. right. split; [done|]. done. }
  unfold wipeLocked, moveToWipedIf. wpsteps. unfold lookup_any in Hl.
  destruct (jn_regions (w_jan w) !! k) as [jr'|] eqn:Er.
  - injection Hl as ->. rewrite Z.eqb_refl. cbn [negb]. unfold setJan. apply wp_bind, wp_modify, wp_ret.
    apply (Hcore true); [intros _|done]. split; [done|]. by eapply map_disjoint_Some_l; [apply (jk_disj _ Hj)|].
  - rewrite Hl, Z.eqb_refl. cbn [negb]. apply wp_ret.
    assert (set_jan j' w = w) as Ej.
    { destruct w. unfold set_jan, j' in *. cbn in *. f_equal. destruct w_jan as [jl jw jn]. cbn in *. f_equal.
      - by apply delete_id.
      - apply insert_id. by rewrite (jk_wiped _ Hj _ _ Hl). }
    rewrite <- Ej at 2. apply (Hcore false); [done|]. done.
Qed.

Definition lock_free w (mu : Z) : Prop := w_locks w !! mu = Some (LockState 0 false).
#[global] Instance lockState_eq_dec : EqDecision lockState.
Proof. solve_decision. Defined.
#[global] Instance lock_free_dec w mu : Decision (lock_free w mu).
Proof. unfold lock_free. apply _. Defined.

Lemma jan_ok_locks w f :
  jan_ok w ->
  (forall k jr, lookup_any w k = Some jr -> exists n b, f (w_locks w) !! jr_mu jr = Some (LockState n b) /\ 0 <= n /\ (b = true -> n = 0)) ->
  jan_ok (set_locks f w).
Proof.
  intros [H1 H2 H3 H4 H5] Hf. constructor; try done. intros k jr Hl.
  destruct (H3 k jr Hl) as [(m & []) ? ? ? ?]. constructor; try done.
  - exists m. by constructor.
  - by eapply Hf.
Qed.

Lemma jan_ok_lock_own w mu s :
  jan_ok w -> 0 <= lk_readers s -> (lk_writer s = true -> lk_readers s = 0) ->
  jan_ok (set_locks (insert mu s) w).
Proof.
  intros Hj H1 H2. apply jan_ok_locks; [done|]. intros k jr Hl. destruct (decide (jr_mu jr = mu)) as [->|Hne].
  - rewrite lookup_insert_eq. destruct s as [n b]. by exists n, b.
  - rewrite lookup_insert_ne by done. by apply (ro_lock _ _ (jk_res _ Hj _ _ Hl)).
Qed.

(** Locking around the wipe leaves the locks as they were. *)
Lemma locked_outcome k jr w err w' mu :
  lock_free w mu ->
  wipe_outcome k jr (set_locks (insert mu (LockState 0 true)) w) err w' ->
  w_locks w' !! mu = Some (LockState 0 true) /\
  wipe_outcome k jr w err (set_locks (insert mu (LockState 0 false)) w').
Proof.
  intros Hf (t & m & Hm & Ho). assert (mapped w (jr_region jr) m) as Hm' by by destruct Hm.
  split.
  { destruct Ho as [[_ ->]|[_ ->]]; cbn; apply lookup_insert_eq. }
  exists t, m. split; [done|]. destruct Ho as [[? ->]|[-> ->]]; [left|right]; (split; [done|]);
    unfold clock, set_locks, wipedWorld, set_jan, set_flags, set_mem; cbn; f_equal;
    rewrite insert_insert_eq; by apply insert_id.
Qed.

Lemma wp_locked_wipe k jr w (Q : option gerr -> world -> Prop) :
  jan_ok w -> lookup_any w k = Some jr -> lock_free w (jr_mu jr) ->
  (forall err w', wipe_outcome k jr w err w' -> Q err w') ->
  returns (defer (wipeLocked k (jr_mu jr)) (lk_unlock (jr_mu jr)))
    (set_locks (insert (jr_mu jr) (LockState 0 true)) w) Q.
Proof.
  intros Hj Hl Hf HQ. unfold returns. apply wp_defer.
  eapply wp_mono; [apply (wp_wipeLocked k jr); [by apply jan_ok_lock_own|done]| |done].
  intros err w1 Ho. apply locked_outcome in Ho as [El Ho]; [|done].
  eapply wp_lk_unlock; [done|]. by apply HQ.
Qed.

(** [tryWipeInPlace], in every case. *)
Lemma wp_tryWipeInPlace k w :
  jan_ok w ->
  returns (tryWipeInPlace k) w (fun r w' =>
    match lookup_any w k with
    | None => r = (true, None) /\ w' = w
    | Some jr => if decide (lock_free w (jr_mu jr)) then r.1 = true /\ wipe_outcome k jr w r.2 w'
                 else r = (false, None) /\ w' = w
    end).
Proof.
  intros Hj. unfold tryWipeInPlace, peekAny. wpsteps. fold (lookup_any w k).
  destruct (lookup_any w k) as [jr|] eqn:El; [|by wpsteps].
  destruct (ro_lock _ _ (jk_res _ Hj _ _ El)) as (n & b & Hlk & Hn & Hb).
  apply wp_bind. eapply wp_lk_tryLock; [done|done| |].
  - intros Hbusy. cbn [negb]. wpsteps. destruct (decide _) as [Hf|]; [|done].
    unfold lock_free in Hf. rewrite Hlk in Hf. injection Hf as -> ->. done.
  - intros -> ->. cbn [negb]. destruct (decide _) as [Hf|Hf]; [|by destruct Hf].
    apply wp_bind. eapply wp_mono; [by apply (wp_locked_wipe k jr w)| |done].
    intros err w1 Ho. by apply wp_ret.
Qed.

(** [wipeInPlace] of a region nobody borrows. *)
Lemma wp_wipeInPlace k w jr :
  jan_ok w -> lookup_any w k = Some jr -> lock_free w (jr_mu jr) ->
  returns (wipeInPlace k) w (wipe_outcome k jr w).
Proof.
  intros Hj Hl Hf. unfold wipeInPlace, peekAny. wpsteps. fold (lookup_any w k). rewrite Hl.
  apply wp_bind, wp_lk_lock; [done|]. by apply (wp_locked_wipe k jr w).
Qed.
End passes.

(** ** The emergency wipe as a whole *)

(** The registration and everything it owns is the same in both worlds. *)
Record untouched (k : Z) (jr : janitorRegion) (w w' : world) : Prop := Untouched {
  ut_live : jn_regions (w_jan w') !! k = jn_regions (w_jan w) !! k;
  ut_wiped : jn_wiped (w_jan w') !! k = jn_wiped (w_jan w) !! k;
  ut_mem : w_mem w' !! rg_base (jr_region jr) = w_mem w !! rg_base (jr_region jr);
  ut_flags : forall f, f ∈ jr_flags jr -> w_flags w' !! f = w_flags w !! f
}.

(** The region is still mapped, holds zeros, and its owner is told. *)
Definition zeroed (w : world) (jr : janitorRegion) : Prop :=
  (exists m, mapped w (jr_region jr) m /\ mp_bytes m = zeros (rg_inner (jr_region jr))) /\
  (forall f, jr_wiped jr = Some f -> w_flags w !! f = Some true).

Lemma untouched_refl k jr w : untouched k jr w w.
Proof. done. Qed.
Lemma untouched_trans k jr w1 w2 w3 : untouched k jr w1 w2 -> untouched k jr w2 w3 -> untouched k jr w1 w3.
Proof.
  intros [A1 A2 A3 A4] [B1 B2 B3 B4]. constructor; [congruence..|]. intros f Hf. rewrite B4, A4; done.
Qed.
Lemma untouched_lookup k jr w w' : untouched k jr w w' -> lookup_any w' k = lookup_any w k.
Proof. intros [H1 H2 _ _]. unfold lookup_any. by rewrite H1, H2. Qed.

Lemma retained_flags jr f : f ∈ jr_flags (retained jr) <-> jr_wiped jr = Some f.
Proof.
  unfold jr_flags, retained. cbn. destruct (jr_wiped jr) as [f'|]; cbn; [|set_solver].
  rewrite list_elem_of_singleton. naive_solver.
Qed.
Lemma retained_sub jr f : f ∈ jr_flags (retained jr) -> f ∈ jr_flags jr.
Proof. rewrite retained_flags. unfold jr_flags. intros ->. set_solver. Qed.
Lemma retained_retained jr : retained (retained jr) = retained jr.
Proof. done. Qed.

Lemma zeroed_untouched k jr w w' : untouched k (retained jr) w w' -> zeroed w jr -> zeroed w' jr.
Proof.
  intros [_ _ Hm Hf] [(m & Hmap & Hz) Hfl]. split.
  - exists m. split; [|done]. destruct Hmap. constructor; try done. by etrans.
  - intros f E. rewrite Hf; [by apply Hfl|]. by rewrite retained_flags.
Qed.

Lemma flag_update_ne o b F (f : Z) : o <> Some f -> flag_update o b F !! f = F !! f.
Proof. unfold flag_update. destruct o as [f'|]; [|done]. intros. rewrite lookup_insert_ne; congruence. Qed.
Lemma flag_update_some o b F (f : Z) : is_Some (F !! f) -> is_Some (flag_update o b F !! f).
Proof.
  unfold flag_update. destruct o as [f'|]; [|done]. destruct (decide (f' = f)) as [->|].
  - rewrite lookup_insert_eq. eauto.
  - by rewrite lookup_insert_ne.
Qed.

Section wipe_all.
Context `{K : Kernel}.
Implicit Types (w : world) (jr : janitorRegion).

Lemma lookup_any_wiped w k jr m k' :
  lookup_any (wipedWorld k jr m w) k' = if decide (k' = k) then Some (retained jr) else lookup_any w k'.
Proof.
  unfold lookup_any, wipedWorld. cbn. destruct (decide (k' = k)) as [->|].
  - by rewrite lookup_delete_eq, lookup_insert_eq.
  - by rewrite lookup_delete_ne, lookup_insert_ne by done.
Qed.

Lemma wiped_others w k jr m k' jr' :
  jan_ok w -> lookup_any w k = Some jr -> lookup_any w k' = Some jr' -> k' <> k ->
  untouched k' jr' w (wipedWorld k jr m w).
Proof.
  intros Hj Hl Hl' Hne. destruct (jk_inj _ Hj _ _ _ _ Hl' Hl Hne) as (Hb & _ & Hf). constructor; cbn.
  - by rewrite lookup_delete_ne.
  - by rewrite lookup_insert_ne.
  - by rewrite lookup_insert_ne.
  - intros f Hin. rewrite !flag_update_ne; [done|..]; intros E; eapply Hf; try done; unfold jr_flags; rewrite E; set_solver.
Qed.

Lemma zeroed_wiped w k jr m :
  mapped w (jr_region jr) m -> zeroed (wipedWorld k jr m w) jr.
Proof.
  intros Hm. split.
  - exists (with_bytes (zeros (rg_inner (jr_region jr))) (protect PROT_RW m)). split; [|done]. destruct Hm. constructor; cbn; autorewrite with mapping; try done.
    + by rewrite lookup_insert_eq.
    + apply zlen_zeros. lia.
  - intros f E. cbn. rewrite E. cbn. by rewrite lookup_insert_eq.
Qed.

Lemma jan_ok_wiped w k jr m :
  jan_ok w -> lookup_any w k = Some jr -> mapped w (jr_region jr) m -> jan_ok (wipedWorld k jr m w).
Proof.
  intros Hj Hl Hm. pose proof (jk_res _ Hj _ _ Hl) as Hres. constructor.
  - cbn. apply map_disjoint_insert_r. split; [apply lookup_delete_eq|].
    apply map_disjoint_delete_l, Hj.
  - intros k' jr'. rewrite lookup_any_wiped. cbn. destruct (decide _) as [->|]; [|apply Hj].
    intros _. by eapply (jk_key _ Hj).
  - intros k' jr'. rewrite lookup_any_wiped. destruct (decide _) as [->|Hne].
    + intros [= <-]. destruct Hres as [_ Hlk Hfl Hnd _]. constructor; try done.
      * destruct (zeroed_wiped w k jr m Hm) as [(m' & ? & _) _]. by exists m'.
      * intros f Hf. cbn. do 2 apply flag_update_some. apply Hfl. by apply retained_sub.
      * unfold jr_flags. cbn. destruct (jr_wiped jr); repeat constructor; set_solver.
      * by left.
    + intros Hl'. destruct (jk_res _ Hj _ _ Hl') as [(m' & Hm') Hlk Hfl Hnd Hc]. constructor; try done.
      * exists m'. destruct (wiped_others w k jr m k' jr' Hj Hl Hl' Hne) as [_ _ Em _].
        destruct Hm'. constructor; try done. by rewrite Em.
      * intros f Hf. cbn. do 2 apply flag_update_some. by apply Hfl.
  - intros k' jr'. cbn. rewrite lookup_insert_Some. intros [[_ <-]|[_ H']]; [done|]. by eapply (jk_wiped _ Hj).
  - assert (forall k1 k2 jr1, lookup_any w k1 = Some jr1 -> k1 = k -> k2 <> k -> forall jr2, lookup_any w k2 = Some jr2 ->
      rg_base (jr_region (retained jr1)) <> rg_base (jr_region jr2) /\ jr_mu (retained jr1) <> jr_mu jr2 /\
      forall f, f ∈ jr_flags (retained jr1) -> f ∈ jr_flags jr2 -> False) as Haux.
    { intros k1 k2 jr1 H1 -> Hn jr2 H2. destruct (jk_inj _ Hj _ _ _ _ H1 H2 (not_eq_sym Hn)) as (? & ? & Hf).
      split; [done|]. split; [done|]. intros f Hin. apply Hf. by apply retained_sub. }
    intros k1 k2 jr1 jr2. rewrite !lookup_any_wiped. destruct (decide (k1 = k)) as [->|H1], (decide (k2 = k)) as [->|H2]; try done.
    + intros [= <-] Hl2 _. by apply (Haux k k2 jr).
    + intros Hl1 [= <-] _. destruct (Haux k k1 jr Hl eq_refl H1 jr1 Hl1) as (? & ? & Hf).
      split; [congruence|]. split; [congruence|]. intros f Ha Hb. by eapply Hf.
    + apply (jk_inj _ Hj).
Qed.

Lemma lookup_any_clock t w k : lookup_any (clock t w) k = lookup_any w k.
Proof. done. Qed.

Lemma jan_ok_clock t w : jan_ok w -> jan_ok (clock t w).
Proof.
  intros [H1 H2 H3 H4 H5]. constructor; try done. intros k jr Hl. destruct (H3 k jr Hl) as [(m & []) ? ? ? ?].
  constructor; try done. exists m. by constructor.
Qed.

(** One wipe in place, as the rest of the registry sees it. *)
Lemma outcome_local k jr w err w' :
  jan_ok w -> lookup_any w k = Some jr -> wipe_outcome k jr w err w' ->
  jan_ok w' /\ w_locks w' = w_locks w /\ w_canary w' = w_canary w /\
  (forall k' jr', k' <> k -> lookup_any w k' = Some jr' -> untouched k' jr' w w') /\
  ((untouched k jr w w' /\ is_err err errWipeSkipped = true) \/
   (zeroed w' jr /\ jn_regions (w_jan w') !! k = None /\ jn_wiped (w_jan w') !! k = Some (retained jr) /\
    forall m, mapped w (jr_region jr) m -> err = verdict w jr m)).
Proof.
  intros Hj Hl (t & m & Hm & [[He ->]|[-> ->]]).
  - split; [by apply jan_ok_clock|]. split; [done|]. split; [done|]. split; [done|]. by left.
  - split; [by apply jan_ok_clock, jan_ok_wiped|]. split; [done|]. split; [done|]. split.
    + intros k' jr' Hne Hl'. destruct (wiped_others w k jr m k' jr' Hj Hl Hl' Hne). done.
    + right. split; [|split; [|split]].
      * destruct (zeroed_wiped w k jr m Hm) as [(m' & [] & ?) ?]. split; [|done]. exists m'. by split.
      * cbn. apply lookup_delete_eq.
      * cbn. apply lookup_insert_eq.
      * intros m' Hm'. destruct Hm, Hm'. by assert (m' = m) as -> by congruence.
Qed.

(** Nobody holds a registered region's lock exclusively. *)
Definition shared_only w : Prop :=
  forall k jr, lookup_any w k = Some jr -> exists n, w_locks w !! jr_mu jr = Some (LockState n false).

(** A wipe in place keeps every registration's lock and the locks' states. *)
Lemma outcome_locks k jr w err w' :
  lookup_any w k = Some jr -> wipe_outcome k jr w err w' -> shared_only w -> shared_only w'.
Proof.
  intros Hl (t & m & _ & [[_ ->]|[_ ->]]) Hs k' jr'; rewrite lookup_any_clock; [by apply Hs|].
  rewrite lookup_any_wiped. destruct (decide _) as [->|]; [intros [= <-]; exact (Hs k jr Hl)|by apply Hs].
Qed.

(** What a pass that found errors [errs] left of registration [k]: wiped and
    filed, with an overwritten canary reported; or as it was, with the failure
    to get write access reported; or, while it is borrowed, as it was. *)
Definition pass_status (w w' : world) (errs : option gerr) (k : Z) jr : Prop :=
  if decide (lock_free w (jr_mu jr)) then
    (untouched k jr w w' /\ is_err errs errWipeSkipped = true) \/
    (zeroed w' jr /\ jn_regions (w_jan w') !! k = None /\ jn_wiped (w_jan w') !! k = Some (retained jr) /\
     forall m, mapped w (jr_region jr) m -> verdict w jr m <> None -> is_err errs ErrCanaryViolation = true)
  else untouched k jr w w'.

Definition busy w (k : Z) : Prop :=
  match lookup_any w k with Some jr => ~ lock_free w (jr_mu jr) | None => False end.
#[global] Instance busy_dec w k : Decision (busy w k).
Proof. unfold busy. destruct (lookup_any w k); apply _. Defined.

Definition add_err (errs err : option gerr) : option gerr :=
  match err with Some e => errorsJoin [errs; Some e] | None => errs end.

Lemma add_err_is errs err s : is_err (add_err errs err) s = is_err errs s || is_err err s.
Proof.
  destruct err as [e|]; cbn [add_err]; [|by rewrite orb_false_r]. rewrite is_err_join. cbn. by rewrite orb_false_r.
Qed.

Record pass_post (keys : list Z) (errs : option gerr) (deferred : list Z) w
    (r : option gerr * list Z) (w' : world) : Prop := PassPost {
  pp_ok : jan_ok w';
  pp_locks : w_locks w' = w_locks w;
  pp_errs : forall s, is_err errs s = true -> is_err r.1 s = true;
  pp_deferred : r.2 = deferred ++ filter (busy w) keys;
  pp_in : forall k jr, lookup_any w k = Some jr -> k ∈ keys -> pass_status w w' r.1 k jr;
  pp_out : forall k jr, lookup_any w k = Some jr -> k ∉ keys -> untouched k jr w w';
  pp_canary : w_canary w' = w_canary w;
  pp_shared : shared_only w -> shared_only w'
}.

(** A key the head of the list did not touch. *)
Lemma pass_status_shift w w1 w' errs k jr :
  jan_ok w -> untouched k jr w w1 -> w_locks w1 = w_locks w -> w_canary w1 = w_canary w ->
  lookup_any w k = Some jr -> pass_status w1 w' errs k jr -> pass_status w w' errs k jr.
Proof.
  intros Hj Hu El Ec Hl. assert (lock_free w1 (jr_mu jr) <-> lock_free w (jr_mu jr)) as Hlf
    by (unfold lock_free; by rewrite El).
  unfold pass_status. destruct (decide (lock_free w1 _)), (decide (lock_free w _)); try tauto; [|by apply untouched_trans].
  intros [[Hs He]|(Hz & H1 & H2 & Hv)]; [left; split; [by eapply untouched_trans|done]|right].
  split; [done|]. split; [done|]. split; [done|]. intros m Hm Hver. apply (Hv m).
  - destruct Hm. constructor; try done. by rewrite (ut_mem _ _ _ _ Hu).
  - unfold verdict in *. rewrite Ec. destruct (jr_sealCipher jr) as [f|] eqn:Ef; [|done].
    rewrite (ut_flags _ _ _ _ Hu f); [done|]. unfold jr_flags. rewrite Ef. set_solver.
Qed.

(** Composition of the head's outcome with the rest of the pass. *)
Lemma pass_cons key keys jr errs deferred w w1 err r w' :
  key ∉ keys -> jan_ok w -> lookup_any w key = Some jr -> lock_free w (jr_mu jr) ->
  wipe_outcome key jr w err w1 ->
  pass_post keys (add_err errs err) deferred w1 r w' ->
  pass_post (key :: keys) errs deferred w r w'.
Proof.
  intros Hni Hj Hl Hf Ho [P1 P2 P3 P4 P5 P6 P7 P8].
  destruct (outcome_local _ _ _ _ _ Hj Hl Ho) as (Hj1 & El & Ec & Hoth & Hkey).
  assert (forall k jr', lookup_any w k = Some jr' -> k <> key -> lookup_any w1 k = Some jr') as Hlk.
  { intros k jr' Hk Hne. rewrite (untouched_lookup k jr' w w1); auto. }
  constructor; [done|congruence| |..|congruence|intros Hs; by eapply P8, outcome_locks].
  - intros s Hs. apply P3. rewrite add_err_is, Hs. done.
  - rewrite P4, filter_cons_False; [|unfold busy; rewrite Hl; tauto]. f_equal.
    apply list_filter_iff. intros k. destruct (decide (k = key)) as [->|Hne].
    + unfold busy. rewrite Hl. destruct Hkey as [[Hu _]|(_ & H1 & H2 & _)].
      * rewrite (untouched_lookup _ _ _ _ Hu), Hl. unfold lock_free. by rewrite El.
      * unfold lookup_any. rewrite H1, H2. unfold lock_free. cbn. by rewrite El.
    + unfold busy. destruct (lookup_any w k) as [jr'|] eqn:Ek.
      * rewrite (Hlk _ _ Ek Hne). unfold lock_free. by rewrite El.
      * destruct Ho as (t & m & _ & [[_ ->]|[_ ->]]); rewrite lookup_any_clock; [by rewrite Ek|].
        rewrite lookup_any_wiped, decide_False by done. by rewrite Ek.
  - intros k jr' Hk Hin. apply elem_of_cons in Hin as [->|Hin].
    + assert (jr' = jr) as -> by congruence. unfold pass_status. rewrite decide_True by done.
      destruct Hkey as [[Hu He]|(Hz & H1 & H2 & Hv)].
      * left. split; [|apply P3; by rewrite add_err_is, He, orb_true_r].
        eapply untouched_trans; [done|]. apply P6; [by rewrite (untouched_lookup _ _ _ _ Hu)|done].
      * right. assert (untouched key (retained jr) w1 w') as Hu.
        { apply P6; [|done]. unfold lookup_any. by rewrite H1, H2. }
        split; [by eapply zeroed_untouched|]. split; [by rewrite (ut_live _ _ _ _ Hu)|].
        split; [by rewrite (ut_wiped _ _ _ _ Hu)|]. intros m Hm Hver. apply P3. rewrite add_err_is.
        rewrite (Hv m Hm). destruct (verdict_cases w jr m) as [E|E]; [done|]. rewrite E. apply orb_true_r.
    + assert (k <> key) as Hne by set_solver. apply (pass_status_shift w w1); [done|by apply Hoth|done..|].
      apply P5; [by apply Hlk|done].
  - intros k jr' Hk Hnin. assert (k <> key) as Hne by set_solver.
    eapply untouched_trans; [by apply Hoth|]. apply P6; [by apply Hlk|set_solver].
Qed.

Lemma wp_firstPass keys errs deferred w :
  NoDup keys -> jan_ok w -> returns (firstPass keys errs deferred) w (pass_post keys errs deferred w).
Proof.
  intros Hnd. revert errs deferred w. induction Hnd as [|key keys Hni Hnd IH]; intros errs deferred w Hj.
  { cbn. wpsteps. constructor; cbn; try done; [by rewrite app_nil_r|]. intros k jr _ Hin. set_solver. }
  cbn [firstPass]. apply wp_bind. eapply wp_returns; [by apply wp_tryWipeInPlace|]. intros [done err] w1 Hr. cbn [fst snd] in *.
  destruct (lookup_any w key) as [jr|] eqn:El; [destruct (decide (lock_free w (jr_mu jr))) as [Hf|Hf]|].
  - destruct Hr as [-> Ho]. cbn [negb]. eapply wp_returns; [apply IH, (outcome_local _ _ _ _ _ Hj El Ho)|].
    intros r w' Hp. by eapply pass_cons.
  - destruct Hr as [[= -> ->] ->]. cbn [negb]. eapply wp_returns; [by apply IH|].
    intros r w' [P1 P2 P3 P4 P5 P6 P7 P8]. constructor; try done.
    + rewrite P4, <- app_assoc, filter_cons_True; [done|]. unfold busy. by rewrite El.
    + intros k jr' Hk Hin. apply elem_of_cons in Hin as [->|Hin]; [|by apply P5].
      assert (jr' = jr) as -> by congruence. unfold pass_status. rewrite decide_False by done. by apply P6.
    + intros k jr' Hk Hnin. apply P6; [done|set_solver].
  - destruct Hr as [[= -> ->] ->]. cbn [negb]. eapply wp_returns; [by apply IH|].
    intros r w' [P1 P2 P3 P4 P5 P6 P7 P8]. constructor; try done.
    + rewrite P4, filter_cons_False; [done|]. unfold busy. rewrite El. tauto.
    + intros k jr' Hk Hin. apply elem_of_cons in Hin as [->|Hin]; [congruence|by apply P5].
    + intros k jr' Hk Hnin. apply P6; [done|set_solver].
Qed.
End wipe_all.

(** ** Release *)

Section releases.
Context `{K : Kernel} {KOk : KernelOk}.
Implicit Types (w : world) (jr : janitorRegion).

Lemma drop_frames_shape m :
  zlen (mp_bytes (drop_frames m)) = zlen (mp_bytes m) /\ mp_held (drop_frames m) = mp_held m /\
  mp_outer (drop_frames m) = mp_outer m /\ mp_prot (drop_frames m) = mp_prot m /\
  (all_zero (mp_bytes m) -> mp_bytes (drop_frames m) = mp_bytes m).
Proof.
  unfold drop_frames. destruct (mp_memfd m); [done|]. cbn. rewrite zlen_zeros by apply zlen_nonneg.
  repeat split; try done. intros Hz. symmetry. by apply all_zero_eq.
Qed.

Lemma wp_madvise r m w :
  mapped w r m ->
  returns (madviseBeforeFree r) w (fun _ w' => (touch (rg_base r) w w' /\ later w w') /\
    exists m', mapped w' r m' /\ mp_prot m' = mp_prot m /\ (all_zero (mp_bytes m) -> mp_bytes m' = mp_bytes m)).
Proof.
  intros Hm. unfold madviseBeforeFree. destruct k_os.
  - eapply wp_k_change; [apply Hm|intros e|]; (split; [split; [auto with secmem|unfold later; cbn; lia]|]).
    + exists m. split; [by destruct Hm|done].
    + exists (drop_frames m). destruct (drop_frames_shape m) as (E1 & E2 & E3 & E4 & E5).
      split; [|done]. eapply mapped_with; [done..|]. cbn. apply lookup_insert_eq.
  - wpsteps. split; [split; [auto with secmem|done]|]. by exists m.
Qed.

(** What a release leaves at the region's address: a reservation, zeros, or
    the contents, if the kernel refused both to make the region writable, in the
    first call, and to unmap it, in the last. *)
Definition leftover (b : Z) (w w' : world) : Prop :=
  forall m', w_mem w' !! b = Some m' -> mp_held m' = false ->
    all_zero (mp_bytes m') \/
    k_errno (w_tick w) <> None /\ last_refused w' /\ (w_tick w < pred (w_tick w'))%nat.

(** The error of a release and what it left at the region's address. The first
    call makes the region writable. Refused, it is the error, with the failures
    of the two calls that follow, and the ciphertext flag stays; there is
    nothing left unless the unmap failed. Granted, the region is wiped: the flag
    is down, what is left, if anything, holds zeros, and the error joins the
    verdict on the canary and the failure to retire the range. *)
Definition release_outcome (jr : janitorRegion) (m : mapping) (w : world) (e : option gerr) (w' : world) : Prop :=
  let left m' := w_mem w' !! rg_base (jr_region jr) = Some m' /\ mp_held m' = false in
  match k_errno (w_tick w) with
  | Some n => w_flags w' = w_flags w /\
      exists ae fe, e = errorsJoin [
          Some (errorf "secmem: janitor: restoring write access failed, region released unwiped" (Errno n));
          errorf "secmem: janitor: releasing frames of unwiped region failed" <$> ae; fe] /\
        (fe = None -> w_mem w' !! rg_base (jr_region jr) = None)
  | None => w_flags w' = flag_update (jr_sealCipher jr) false (w_flags w) /\
      (forall m', left m' -> mp_bytes m' = zeros (rg_inner (jr_region jr))) /\
      exists re, e = errorsJoin [verdict w jr m; re] /\ (re = None -> forall m', ~ left m')
  end.

(** What is left of a released region: nothing that can be accessed, or,
    with an error, what could not be unmapped. It was wiped with the canary
    verdict in the error, or the error says that write access failed. *)
Record freed (jr : janitorRegion) (m : mapping) (w : world) (e : option gerr) (w' : world) : Prop := Freed {
  fd_flags : w_flags w' = w_flags w \/ w_flags w' = flag_update (jr_sealCipher jr) false (w_flags w);
  fd_locks : w_locks w' = w_locks w;
  fd_next : w_next w' = w_next w;
  fd_canary : w_canary w' = w_canary w;
  fd_jan : w_jan w' = w_jan w;
  fd_keys : w_keys w' = w_keys w;
  fd_bufs : w_bufs w' = w_bufs w;
  fd_arenas : w_arenas w' = w_arenas w;
  fd_live : forall b m', b <> rg_base (jr_region jr) -> w_mem w !! b = Some m' -> mp_held m' = false ->
              w_mem w' !! b = Some m';
  fd_quar : quar_ok w';
  fd_mem : mem_ok w';
  fd_at : forall m', w_mem w' !! rg_base (jr_region jr) = Some m' -> mp_held m' = true \/ e <> None;
  fd_wiped : (exists e', e = Some e' /\ w_flags w' = w_flags w) \/
             (w_flags w' = flag_update (jr_sealCipher jr) false (w_flags w) /\
              (forall m', w_mem w' !! rg_base (jr_region jr) = Some m' -> mp_held m' = false ->
                 mp_bytes m' = zeros (rg_inner (jr_region jr))) /\
              (verdict w jr m <> None -> is_err e ErrCanaryViolation = true));
  fd_outcome : release_outcome jr m w e w';
  fd_new : forall b m', b <> rg_base (jr_region jr) -> w_mem w' !! b = Some m' -> w_mem w !! b = Some m';
  fd_left : leftover (rg_base (jr_region jr)) w w'
}.

Lemma wp_wipeAndFree_unmap jr m w :
  res_ok w jr -> mapped w (jr_region jr) m -> quar_ok w -> mem_ok w ->
  returns (wipeAndFree jr true true) w (freed jr m w).
Proof.
  intros Hres Hm Hq Hok. set (r := jr_region jr) in *.
  eapply wp_wipe_upto; [done|done|intros n Hn e|intros Hn]; cbn [negb].
  - (* no write access: straight to the unmap *)
    apply wp_bind. eapply wp_returns; [apply (wp_madvise r m); by destruct Hm|]. intros ae w1 [[T1 Lt1] (m1 & Hm1 & _)].
    apply wp_bind. eapply wp_returns; [by apply (wp_freeSecretMem r m1)|]. intros fe w2 [T2 Hat]. apply wp_ret.
    assert (touch (rg_base r) w w2) as [M T] by (eapply touch_trans; [apply touch_tick, touch_refl|by eapply touch_trans]).
    destruct M. constructor; try done; auto.
    + intros b m' Hb Hb' _. by rewrite T.
    + eapply quar_ok_mem; [done|done|]. intros b m' Hb Hh. rewrite T; [done|]. intros ->. destruct Hm. congruence.
    + intros b m' Hb. destruct (decide (b = rg_base r)) as [->|]; [|rewrite T in Hb by done; by eapply Hok].
      destruct fe; [|congruence]. destruct Hat as (m2 & E2 & _ & _ & _ & Eo & _). destruct Hm1.
      assert (m' = m2) as -> by congruence. lia.
    + left. eauto.
    + unfold release_outcome. rewrite Hn. split; [done|]. exists ae, fe. split; [done|]. by intros ->.
    + intros b m' Hb. by rewrite T.
    + intros m' Em _. right. destruct fe; [|fold r in Em; congruence].
      destruct Hat as (? & _ & _ & _ & _ & _ & Hlast & Ht). split; [by rewrite Hn|]. split; [done|].
      unfold later in Lt1. cbn in Lt1. lia.
  - (* wiped *)
    set (m0 := with_bytes (zeros (rg_inner r)) (protect PROT_RW m)).
    set (w1 := set_flags _ _).
    assert (mapped w1 r m0) as Hm0.
    { destruct Hm. constructor; cbn; autorewrite with mapping; rewrite ?zlen_zeros; try done; [|lia].
      by rewrite lookup_insert_eq. }
    assert (forall b, b <> rg_base r -> w_mem w1 !! b = w_mem w !! b) as Tm by (intros; cbn; by rewrite lookup_insert_ne).
    apply wp_bind. eapply wp_returns; [by apply (wp_madvise r m0)|]. intros _ w2 [[[M2 T2] _] (m2 & Hm2 & Hp2 & Hz2)].
    assert (mp_bytes m2 = zeros (rg_inner r)) as Eb by (apply Hz2, all_zero_zeros).
    apply wp_bind. eapply wp_returns; [apply (wp_retireSecretMem r m2); [| |done]|].
    { apply (quar_ok_mem w); [done|by destruct M2|]. intros b m' Hb Hh. rewrite T2, Tm; [done|..]; intros ->; destruct Hm; congruence. }
    { intros b m' Hb. destruct (decide (b = rg_base r)) as [->|].
      - destruct Hm2. assert (m' = m2) as -> by congruence. lia.
      - rewrite T2, Tm in Hb by done. by eapply Hok. }
    intros re w3 [R1 R2 R3 R4 R5 R6 _ R7 R8]. apply wp_ret. destruct M2 as [Q1 Q2 Q3 Q4 Q5 Q6 Q7 Q8 Q9], R1 as [S1 S2 S3 S4 S5 S6 S7 S8].
    assert (w_flags w3 = flag_update (jr_sealCipher jr) false (w_flags w)) as Ef
      by (rewrite S1, Q1; done).
    constructor; [by right|by rewrite S2, Q2|by rewrite S3, Q3|by rewrite S4, Q4|by rewrite S5, Q5
      |by rewrite S6, Q7|by rewrite S7, Q8|by rewrite S8, Q9| |done|done| | | | |].
    + intros b m' Hb Hb' Hh. apply R2; [done| |done]. by rewrite T2, Tm.
    + fold r. intros m' Em. rewrite Em in R6. destruct R6 as [[? _]|[Hre _]]; [by left|right].
      rewrite errorsJoin_None. intros HF. inversion HF as [|? ? ? HF']. inversion HF'. congruence.
    + right. split; [done|]. split.
      * fold r. intros m' Em Hh. rewrite Em in R6. destruct R6 as [[? _]|(_ & _ & E & _)]; congruence.
      * intros Hv. rewrite is_err_join. destruct (verdict_cases w jr m) as [E|E]; [done|]. rewrite E. done.
    + unfold release_outcome. rewrite Hn. split; [done|]. fold r. split.
      * intros m' [Em Hh]. rewrite Em in R6. destruct R6 as [[? _]|(_ & _ & E & _)]; congruence.
      * exists re. split; [done|]. intros Hre m' [Em Hh]. rewrite Em in R6. destruct R6 as [[? _]|[? _]]; congruence.
    + fold r. intros b m' Hb Hm'. by rewrite <- Tm, <- T2; [apply R7|..].
    + fold r. intros m' Em Hh. rewrite Em in R6. destruct R6 as [[? _]|(_ & _ & E & _)]; [congruence|left].
      rewrite E, Eb. apply all_zero_zeros.
Qed.

(** The registry after key [k] left both sets. *)
Definition forget (k : Z) (j : janitor) : janitor :=
  Janitor (delete k (jn_regions j)) (delete k (jn_wiped j)) (jn_nextKey j).

Lemma lookup_any_forget k k' w :
  lookup_any (set_jan (forget k (w_jan w)) w) k' = if decide (k' = k) then None else lookup_any w k'.
Proof.
  unfold lookup_any, forget. cbn. destruct (decide (k' = k)) as [->|].
  - by rewrite !lookup_delete_eq.
  - by rewrite !lookup_delete_ne.
Qed.

(** A released registration. *)
Record released (k : Z) jr (m : mapping) (w : world) (e : option gerr) (w' : world) : Prop := Released {
  rl_jan : w_jan w' = forget k (w_jan w);
  rl_locks : w_locks w' = w_locks w;
  rl_next : w_next w' = w_next w;
  rl_canary : w_canary w' = w_canary w;
  rl_bufs : w_bufs w' = w_bufs w;
  rl_arenas : w_arenas w' = w_arenas w;
  rl_keys : w_keys w' = w_keys w;
  rl_ok : jan_ok w';
  rl_quar : quar_ok w';
  rl_mem : mem_ok w';
  rl_live : forall b m', b <> rg_base (jr_region jr) -> w_mem w !! b = Some m' -> mp_held m' = false ->
              w_mem w' !! b = Some m';
  rl_flags : forall f, jr_sealCipher jr <> Some f -> w_flags w' !! f = w_flags w !! f;
  rl_others : forall k' jr', k' <> k -> lookup_any w k' = Some jr' -> untouched k' jr' w w';
  rl_fault : e = None -> mem_load (rg_base (jr_region jr)) w' = Fault;
  rl_wiped : e <> None \/
             (forall m', w_mem w' !! rg_base (jr_region jr) = Some m' -> mp_held m' = true);
  rl_report : (exists e', e = Some e' /\ w_flags w' = w_flags w) \/
              ((forall m', w_mem w' !! rg_base (jr_region jr) = Some m' -> mp_held m' = false ->
                 mp_bytes m' = zeros (rg_inner (jr_region jr))) /\
               (verdict w jr m <> None -> is_err e ErrCanaryViolation = true));
  rl_known : forall f, is_Some (w_flags w !! f) -> is_Some (w_flags w' !! f);
  rl_outcome : release_outcome jr m w e w';
  rl_new : forall b m', b <> rg_base (jr_region jr) -> w_mem w' !! b = Some m' -> w_mem w !! b = Some m';
  rl_left : leftover (rg_base (jr_region jr)) w w'
}.

Lemma freed_flags jr m w e w' f :
  freed jr m w e w' -> jr_sealCipher jr <> Some f -> w_flags w' !! f = w_flags w !! f.
Proof. intros F Hf. destruct (fd_flags _ _ _ _ _ F) as [-> | ->]; [done|]. by apply flag_update_ne. Qed.

Lemma freed_released k jr m w e w' :
  jan_ok w -> lookup_any w k = Some jr -> mapped w (jr_region jr) m ->
  freed jr m (set_jan (forget k (w_jan w)) w) e w' -> released k jr m w e w'.
Proof.
  intros Hj Hl Hm F. pose proof F as [_ F2 F3 F4 F5 F6 F7 F8 F9 F10 F11 F12 F13 F14 F15 F16].
  pose proof (fun f Hf => freed_flags _ _ _ _ _ f F Hf) as Hfl.
  assert (forall k' jr', k' <> k -> lookup_any w k' = Some jr' -> untouched k' jr' w w') as Hoth.
  { intros k' jr' Hne Hl'. destruct (jk_inj _ Hj _ _ _ _ Hl' Hl Hne) as (Hb & _ & Hf).
    destruct (ro_map _ _ (jk_res _ Hj _ _ Hl')) as (m' & []).
    constructor; rewrite ?F5; cbn; rewrite ?lookup_delete_ne by done; try done.
    - rewrite (F9 _ m'); done.
    - intros f Hin. apply Hfl. intros E. eapply Hf; [done|]. unfold jr_flags. rewrite E. set_solver. }
  assert (forall k', lookup_any w' k' = if decide (k' = k) then None else lookup_any w k') as Hlook.
  { intros k'. rewrite <- lookup_any_forget. unfold lookup_any. by rewrite F5. }
  constructor; try done.
  - constructor.
    + rewrite F5. cbn. apply map_disjoint_delete_l, map_disjoint_delete_r, Hj.
    + intros k' jr'. rewrite Hlook, F5. cbn. destruct (decide _); [done|]. apply Hj.
    + intros k' jr'. rewrite Hlook. destruct (decide _) as [|Hne]; [done|]. intros Hl'.
      destruct (jk_res _ Hj _ _ Hl') as [(m' & Hm') Hlk Hf Hnd Hc]. destruct (Hoth _ _ Hne Hl') as [_ _ Um Uf].
      constructor; rewrite ?F2, ?F4; try done.
      * exists m'. destruct Hm'. constructor; try done. by rewrite Um.
      * intros f Hin. rewrite Uf by done. by apply Hf.
    + rewrite F5. cbn. intros k' jr'. rewrite lookup_delete_Some. intros [_ H']. by eapply (jk_wiped _ Hj).
    + intros k1 k2 jr1 jr2. rewrite !Hlook. do 2 (destruct (decide _); [done|]). apply (jk_inj _ Hj).
  - intros ->. unfold mem_load. destruct (w_mem w' !! _) as [m'|] eqn:Em; [|done].
    destruct (F12 m' eq_refl) as [Hh|]; [|done]. unfold readable. by rewrite Hh.
  - destruct e; [by left|right]. intros m' Em. destruct (F12 m' Em); done.
  - destruct F13 as [(e' & -> & E)|(_ & Hz & Hv)]; [left; by exists e'|by right].
  - intros f Hs. destruct (fd_flags _ _ _ _ _ F) as [-> | ->]; [done|]. unfold flag_update.
    destruct (jr_sealCipher jr) as [f'|]; [|done]. apply lookup_insert_is_Some. destruct (decide (f' = f)); auto.
Qed.

Lemma res_ok_forget w jr j : res_ok w jr -> res_ok (set_jan j w) jr.
Proof. apply res_ok_jan. Qed.

Lemma wp_release_core k jr m w :
  jan_ok w -> quar_ok w -> mem_ok w -> lookup_any w k = Some jr -> mapped w (jr_region jr) m ->
  returns (wipeAndFree jr true true) (set_jan (forget k (w_jan w)) w) (released k jr m w).
Proof.
  intros Hj Hq Hok Hl Hm. eapply wp_returns.
  - apply (wp_wipeAndFree_unmap jr m); [by apply res_ok_jan, (jk_res _ Hj k)|by destruct Hm|by destruct Hq|done].
  - intros e w' F. by apply freed_released.
Qed.

(** Taking a registered key out removes it from both sets. *)
Lemma forget_live w k jr :
  jan_ok w -> jn_regions (w_jan w) !! k = Some jr ->
  Janitor (delete k (jn_regions (w_jan w))) (jn_wiped (w_jan w)) (jn_nextKey (w_jan w)) = forget k (w_jan w).
Proof.
  intros Hj E. unfold forget. f_equal. symmetry. apply delete_id.
  by eapply map_disjoint_Some_l; [apply (jk_disj _ Hj)|].
Qed.
Lemma forget_wiped w k :
  jn_regions (w_jan w) !! k = None ->
  Janitor (jn_regions (w_jan w)) (delete k (jn_wiped (w_jan w))) (jn_nextKey (w_jan w)) = forget k (w_jan w).
Proof. intros E. unfold forget. f_equal. by rewrite delete_id. Qed.

Lemma wp_takeAny k jr (Q : option janitorRegion -> world -> Prop) R w :
  jan_ok w -> lookup_any w k = Some jr ->
  Q (Some jr) (set_jan (forget k (w_jan w)) w) -> wp (takeAny k) Q R w.
Proof.
  intros Hj Hl HQ. unfold takeAny, takeLive, takeWiped, lookup_any, setJan in *. wpsteps.
  destruct (jn_regions (w_jan w) !! k) as [jr'|] eqn:E.
  - injection Hl as ->. wpsteps. by rewrite (forget_live w k jr).
  - wpsteps. rewrite Hl. wpsteps. by rewrite forget_wiped.
Qed.

Lemma wp_takeAnyIf k jr (Q : option janitorRegion -> world -> Prop) R w :
  jan_ok w -> lookup_any w k = Some jr ->
  Q (Some jr) (set_jan (forget k (w_jan w)) w) -> wp (takeAnyIf k (jr_mu jr)) Q R w.
Proof.
  intros Hj Hl HQ. unfold takeAnyIf, lookup_any, setJan in *. wpsteps.
  destruct (jn_regions (w_jan w) !! k) as [jr'|] eqn:E.
  - injection Hl as ->. rewrite Z.eqb_refl. cbn [negb]. wpsteps. by rewrite (forget_live w k jr).
  - rewrite Hl, Z.eqb_refl. cbn [negb]. wpsteps. by rewrite forget_wiped.
Qed.

(** [release] under the caller's lock (Destroy) or taking it (GC cleanup). *)
Lemma wp_release k jr m lockHeld w :
  jan_ok w -> quar_ok w -> mem_ok w -> lookup_any w k = Some jr -> mapped w (jr_region jr) m ->
  (lockHeld = false -> lock_free w (jr_mu jr)) ->
  returns (release k lockHeld) w (released k jr m w).
Proof.
  intros Hj Hq Hok Hl Hm Hf. unfold release. destruct lockHeld.
  - wpsteps. eapply wp_takeAny; [done..|]. by apply wp_release_core.
  - specialize (Hf eq_refl). unfold peekAny. wpsteps. fold (lookup_any w k). rewrite Hl.
    apply wp_bind, wp_lk_lock; [done|]. set (w1 := set_locks _ w).
    assert (jan_ok w1) as Hj1 by by apply jan_ok_lock_own.
    apply wp_defer. apply wp_bind. eapply wp_takeAnyIf; [done|done|].
    eapply wp_mono; [apply (wp_release_core k jr m w1); try done; [by destruct Hq|by destruct Hm]| |done].
    intros e w2 [R1 R2 R3 R4 R5 R6 R7 R8 R9 R10 R11 R12 R13 R14 R15 R16 R17 R18 R19 R20].
    eapply wp_lk_unlock; [rewrite R2; apply lookup_insert_eq|].
    assert (w_locks (set_locks (insert (jr_mu jr) (LockState 0 false)) w2) = w_locks w) as El.
    { cbn. rewrite R2. cbn. rewrite insert_insert_eq. by apply insert_id. }
    constructor; try done.
    + by apply jan_ok_lock_own.
    + by destruct R9.
    + intros k' jr' Hne Hl'. by destruct (R13 k' jr' Hne Hl').
    + intros E. specialize (R14 E). unfold mem_load in *. cbn. repeat case_match; done.
Qed.
End releases.

(** ** What the janitor promises *)

Section promises.
Context `{K : Kernel} {KOk : KernelOk}.
Implicit Types (w : world) (jr : janitorRegion).

(** [wipeInPlace] that returns either found nothing registered or had the
    region to itself. *)
Lemma wipeInPlace_inv k w err w' :
  jan_ok w -> wipeInPlace k w = Ret err w' ->
  match lookup_any w k with
  | None => err = None /\ w' = w
  | Some jr => lock_free w (jr_mu jr) /\ wipe_outcome k jr w err w'
  end.
Proof.
  intros Hj E. destruct (lookup_any w k) as [jr|] eqn:El.
  - destruct (decide (lock_free w (jr_mu jr))) as [Hf|Hf].
    + split; [done|]. by eapply returns_ret; [apply wp_wipeInPlace|].
    + exfalso. destruct (ro_lock _ _ (jk_res _ Hj _ _ El)) as (n & b & Hlk & Hn & Hb).
      unfold wipeInPlace, peekAny, mbind, M_bind, gets, mret, M_ret in E.
      fold (lookup_any w k) in E. rewrite El in E. unfold lk_lock in E. rewrite Hlk in E. cbn in E.
      destruct (b || (0 <? n)) eqn:Eb; [done|]. apply orb_false_elim in Eb as [-> En]. apply Z.ltb_ge in En.
      apply Hf. unfold lock_free. rewrite Hlk. do 2 f_equal. lia.
  - unfold wipeInPlace, peekAny, mbind, M_bind, gets, mret, M_ret in E.
    fold (lookup_any w k) in E. rewrite El in E. by injection E as <- <-.
Qed.

(** The state of one registration while the second pass runs, relative to
    the world [w] the whole wipe started in. *)
Definition settled w (d : list Z) (errs : option gerr) (w' : world) (k : Z) jr : Prop :=
  untouched k jr w w' /\ (k ∈ d \/ is_err errs errWipeSkipped = true) \/
  zeroed w' jr /\ jn_regions (w_jan w') !! k = None /\ jn_wiped (w_jan w') !! k = Some (retained jr) /\
  forall m, mapped w (jr_region jr) m -> verdict w jr m <> None -> is_err errs ErrCanaryViolation = true.

Lemma settled_lookup w d errs w' k jr :
  lookup_any w k = Some jr -> settled w d errs w' k jr ->
  exists jr', lookup_any w' k = Some jr' /\ retained jr' = retained jr /\
    (untouched k jr w w' -> jr' = jr) /\
    forall f, f ∈ jr_flags (retained jr) -> f ∈ jr_flags jr'.
Proof.
  intros Hl [[Hu _]|(_ & H1 & H2 & _)].
  - exists jr. rewrite (untouched_lookup _ _ _ _ Hu). split; [done|]. split; [done|]. split; [done|].
    apply retained_sub.
  - exists (retained jr). unfold lookup_any. rewrite H1, H2. split; [done|]. split; [done|]. split; [|done].
    intros [U1 U2 _ _]. unfold lookup_any in Hl. rewrite <- U1, <- U2, H1, H2 in Hl. congruence.
Qed.

(** A verdict is about the registration's own bytes and flag. *)
Lemma verdict_untouched k jr w w1 m :
  untouched k jr w w1 -> w_canary w1 = w_canary w -> verdict w1 jr m = verdict w jr m.
Proof.
  intros Hu Ec. unfold verdict. rewrite Ec. destruct (jr_sealCipher jr) as [f|] eqn:Ef; [|done].
  rewrite (ut_flags _ _ _ _ Hu f); [done|]. unfold jr_flags. rewrite Ef. set_solver.
Qed.

Lemma add_err_mono errs err s : is_err errs s = true -> is_err (add_err errs err) s = true.
Proof. intros Hs. by rewrite add_err_is, Hs. Qed.

(** The registration a goroutine of the second pass wiped. *)
Lemma settled_own w d d' errs w1 err w2 key jr jr1 :
  lookup_any w key = Some jr -> settled w d errs w1 key jr -> w_canary w1 = w_canary w ->
  jan_ok w1 -> lookup_any w1 key = Some jr1 -> wipe_outcome key jr1 w1 err w2 ->
  settled w d' (add_err errs err) w2 key jr.
Proof.
  intros Hl Hk Ec Hj E1 Ho. destruct (outcome_local _ _ _ _ _ Hj E1 Ho) as (_ & _ & _ & _ & Hkey).
  destruct (settled_lookup _ _ _ _ _ _ Hl Hk) as (jr' & Hl' & Er & Hut & Hfl). assert (jr1 = jr') as -> by congruence.
  assert (jr_region jr' = jr_region jr) as Ereg by (by apply (f_equal jr_region) in Er).
  assert (jr_wiped jr' = jr_wiped jr) as Ew by (by apply (f_equal jr_wiped) in Er).
  destruct Hkey as [[Hu He]|(Hz & H1 & H2 & Hv)].
  - destruct Hk as [[Hu0 _]|(Hz & H1 & H2 & Hv)].
    + left. rewrite (Hut Hu0) in Hu. split; [by eapply untouched_trans|]. right. by rewrite add_err_is, He, orb_true_r.
    + right. split; [|rewrite (ut_live _ _ _ _ Hu), (ut_wiped _ _ _ _ Hu)].
      * eapply zeroed_untouched; [|done]. destruct Hu as [U1 U2 U3 U4].
        constructor; try done; [cbn; by rewrite <- Ereg|]. intros f Hf. apply U4. by apply Hfl.
      * split; [done|]. split; [done|]. intros m Hm Hver. by eapply add_err_mono, Hv.
  - right. rewrite Er in H2. split; [unfold zeroed in *; by rewrite <- Ereg, <- Ew|]. split; [done|]. split; [done|].
    intros m Hm Hver. destruct Hk as [[Hu0 _]|(_ & _ & _ & Hv0)]; [|by eapply add_err_mono, Hv0].
    rewrite (Hut Hu0) in Hv.
    assert (mapped w1 (jr_region jr) m) as Hm1 by (destruct Hm; constructor; try done; by rewrite (ut_mem _ _ _ _ Hu0)).
    rewrite add_err_is, (Hv m Hm1), (verdict_untouched key jr w w1 m Hu0 Ec).
    destruct (verdict_cases w jr m) as [E|E]; [done|]. rewrite E. apply orb_true_r.
Qed.

(** The state the goroutines of the second pass keep. *)
Definition second_inv w (c : list Z * option gerr * world) : Prop :=
  jan_ok c.2 /\ w_canary c.2 = w_canary w /\
  forall k jr, lookup_any w k = Some jr -> settled w c.1.1 c.1.2 c.2 k jr.

Lemma settled_step w d1 key d2 errs w1 err w2 :
  second_inv w (d1 ++ key :: d2, errs, w1) -> wipeInPlace key w1 = Ret err w2 ->
  second_inv w (d1 ++ d2, add_err errs err, w2).
Proof.
  intros (Hj & Ec & Hs) E. cbn in *. apply wipeInPlace_inv in E; [|done].
  destruct (lookup_any w1 key) as [jr1|] eqn:E1.
  - destruct E as [_ Ho]. destruct (outcome_local _ _ _ _ _ Hj E1 Ho) as (Hj2 & _ & Ec2 & Hoth & _).
    split; [done|]. split; [cbn; congruence|]. cbn. intros k jr Hl. pose proof (Hs k jr Hl) as Hk.
    destruct (decide (k = key)) as [->|Hne]; [by eapply settled_own|].
    destruct (settled_lookup _ _ _ _ _ _ Hl Hk) as (jr' & Hl' & Er & Hut & Hfl).
    pose proof (Hoth _ _ Hne Hl') as Hu. destruct Hk as [[Hu0 Hd]|(Hz & H1 & H2 & Hv)].
    + left. rewrite (Hut Hu0) in Hu. split; [by eapply untouched_trans|].
      destruct Hd as [Hd|Hd]; [left; set_solver|right; by apply add_err_mono].
    + right. assert (jr' = retained jr) as -> by (unfold lookup_any in Hl'; rewrite H1, H2 in Hl'; congruence).
      split; [by eapply zeroed_untouched|]. rewrite (ut_live _ _ _ _ Hu), (ut_wiped _ _ _ _ Hu).
      split; [done|]. split; [done|]. intros m Hm Hver. by eapply add_err_mono, Hv.
  - destruct E as [-> ->]. split; [done|]. split; [done|]. cbn. intros k jr Hl. pose proof (Hs k jr Hl) as Hk.
    destruct (settled_lookup _ _ _ _ _ _ Hl Hk) as (jr' & Hl' & _).
    destruct Hk as [[Hu0 Hd]|?]; [left; split; [done|]|by right].
    destruct Hd as [Hd|Hd]; [left|by right]. assert (k <> key) by congruence. set_solver.
Qed.

Lemma second_pass_inv w c c' : rtc second_step c c' -> second_inv w c -> second_inv w c'.
Proof.
  induction 1 as [c|c1 c2 c3 Hst _ IH]; [done|]. intros Hi. apply IH. clear IH.
  destruct Hst as [d1 key d2 errs w1 err w2 E|d errs w1 l n El Hn]; [by eapply settled_step|].
  destruct Hi as (Hj & Ec & Hs). cbn in *.
  split; [apply jan_ok_lock_own; cbn; [done|lia|done]|]. split; [done|]. intros k jr Hl.
  destruct (Hs k jr Hl) as [[[] ?]|([(m & [] & ?) ?] & ? & ? & ?)]; [left|right]; (split; [|done]); [done|].
  split; [|done]. exists m. by split.
Qed.

(** What the first pass hands to the second. *)
Lemma first_pass_inv w keys r w1 :
  jan_ok w -> (forall k, k ∈ keys <-> is_Some (lookup_any w k)) ->
  pass_post keys None [] w r w1 -> second_inv w (r.2, r.1, w1).
Proof.
  intros Hj Hkeys [P1 P2 _ P4 P5 _ P7 _]. split; [done|]. split; [done|]. cbn. intros k jr Hl.
  assert (k ∈ keys) as Hin by (apply Hkeys; by exists jr).
  pose proof (P5 k jr Hl Hin) as Hs. unfold pass_status in Hs. destruct (decide (lock_free w (jr_mu jr))) as [Hf|Hf].
  - destruct Hs as [[? ?]|?]; [left; by split; [|right]|by right].
  - left. split; [done|]. left. rewrite P4. apply list_elem_of_filter. split; [|done]. unfold busy. by rewrite Hl.
Qed.

(** ** The second pass ends *)

Lemma shared_only_step c c' :
  second_step c c' -> jan_ok c.2 -> shared_only c.2 -> jan_ok c'.2 /\ shared_only c'.2.
Proof.
  intros Hst. destruct Hst as [d1 key d2 errs w1 err w2 E|d errs w1 l n El Hn]; cbn; intros Hj Hs.
  - apply wipeInPlace_inv in E; [|done]. destruct (lookup_any w1 key) as [jr|] eqn:Ek.
    + destruct E as [_ Ho]. split; [by apply (outcome_local _ _ _ _ _ Hj Ek Ho)|by eapply outcome_locks].
    + by destruct E as [_ ->].
  - split; [apply jan_ok_lock_own; cbn; [done|lia|done]|]. intros k jr Hk. cbn. destruct (decide (l = jr_mu jr)) as [->|].
    + rewrite lookup_insert_eq. eauto.
    + rewrite lookup_insert_ne by done. by apply (Hs k).
Qed.

Lemma shared_only_steps c c' :
  rtc second_step c c' -> jan_ok c.2 -> shared_only c.2 -> jan_ok c'.2 /\ shared_only c'.2.
Proof.
  induction 1 as [c|c1 c2 c3 Hst _ IH]; [done|]. intros Hj Hs.
  destruct (shared_only_step _ _ Hst Hj Hs). by apply IH.
Qed.

(** The borrows under one lock end. *)
Lemma drain d errs l (n : nat) w :
  w_locks w !! l = Some (LockState (Z.of_nat n) false) ->
  rtc second_step (d, errs, w) (d, errs, set_locks (insert l (LockState 0 false)) w).
Proof.
  revert w. induction n as [|n IH]; intros w E.
  - assert (set_locks (insert l (LockState 0 false)) w = w) as ->; [|done].
    destruct w. unfold set_locks. cbn in *. f_equal. by apply insert_id.
  - eapply rtc_l; [apply (ss_borrow_ends d errs w l (Z.of_nat (S n))); [done|lia]|].
    replace (Z.of_nat (S n) - 1) with (Z.of_nat n) by lia.
    assert (forall s, set_locks (insert l (LockState 0 false)) w = set_locks (insert l (LockState 0 false)) (set_locks (insert l s) w))
      as Hset by (intros s; unfold set_locks; cbn; by rewrite insert_insert_eq).
    rewrite (Hset (LockState (Z.of_nat n) false)). apply IH. apply lookup_insert_eq.
Qed.

(** A goroutine whose region's lock is free gets through at once. *)
Lemma second_goes w d1 key d2 errs :
  jan_ok w -> (forall jr, lookup_any w key = Some jr -> lock_free w (jr_mu jr)) ->
  exists errs' w', second_step (d1 ++ key :: d2, errs, w) (d1 ++ d2, errs', w') /\
    forall k' jr', k' <> key -> lookup_any w k' = Some jr' -> untouched k' jr' w w'.
Proof.
  intros Hj Hf. destruct (lookup_any w key) as [jr|] eqn:El.
  - destruct (returns_run _ _ _ (wp_wipeInPlace key w jr Hj El (Hf jr eq_refl))) as (err & w' & E & Ho).
    exists (add_err errs err), w'. split; [by apply (ss_wipe d1 key d2 errs w err)|]. apply (outcome_local _ _ _ _ _ Hj El Ho).
  - exists (add_err errs None), w. split; [|done]. apply (ss_wipe d1 key d2 errs w None w).
    unfold wipeInPlace, peekAny, mbind, M_bind, gets, mret, M_ret. fold (lookup_any w key). by rewrite El.
Qed.

Lemma second_pass_ends d errs w :
  jan_ok w -> shared_only w -> exists errs' w', rtc second_step (d, errs, w) ([], errs', w').
Proof.
  revert errs w. induction d as [|key d IH]; intros errs w Hj Hs; [by exists errs, w|].
  assert (exists w1, rtc second_step (key :: d, errs, w) (key :: d, errs, w1) /\ jan_ok w1 /\ shared_only w1 /\
    forall jr, lookup_any w1 key = Some jr -> lock_free w1 (jr_mu jr)) as (w1 & Hr & Hj1 & Hs1 & Hf).
  { destruct (lookup_any w key) as [jr|] eqn:El; [|exists w; split_and!; try done; congruence].
    destruct (ro_lock _ _ (jk_res _ Hj _ _ El)) as (n & b & Hlk & Hn & _). destruct (Hs _ _ El) as [n' Hn'].
    assert (b = false) as -> by congruence.
    exists (set_locks (insert (jr_mu jr) (LockState 0 false)) w). split.
    { apply (drain _ _ _ (Z.to_nat n)). by rewrite Z2Nat.id. }
    split; [by apply jan_ok_lock_own|]. split.
    - intros k' jr' Hk'. cbn. destruct (decide (jr_mu jr = jr_mu jr')) as [->|].
      + rewrite lookup_insert_eq. eauto.
      + rewrite lookup_insert_ne by done. by apply (Hs k').
    - intros jr' Hk'. assert (jr' = jr) as -> by (unfold lookup_any in *; cbn in Hk'; congruence).
      apply lookup_insert_eq. }
  destruct (second_goes w1 [] key d errs Hj1 Hf) as (errs2 & w2 & St & _).
  destruct (IH errs2 w2) as (errs3 & w3 & Hr3).
  1-2: by apply (shared_only_step _ _ St).
  exists errs3, w3. etrans; [exact Hr|]. by eapply rtc_l.
Qed.

(** C9. The first pass of the emergency wipe, over the keys of both sets in
    whatever order the map iteration gives, and whatever kernel calls fail:
    it returns without waiting for anybody; every registration nobody borrows
    is left zeroed, mapped, flagged and filed as wiped, with an overwritten
    canary reported, or is left exactly as it was with that failure reported;
    every borrowed one is left exactly as it was and is what the second pass
    waits for. No lock changes hands and the registry's invariant holds. *)
Theorem wipe_all_first_pass w (keys : list Z) :
  jan_ok w -> NoDup keys ->
  (forall k, k ∈ keys <-> is_Some (lookup_any w k)) ->
  exists errs deferred w',
    wipeAllInPlace keys w = Ret (errs, deferred) w' /\ jan_ok w' /\ w_locks w' = w_locks w /\
    deferred = filter (busy w) keys /\
    forall k jr, lookup_any w k = Some jr -> pass_status w w' errs k jr.
Proof.
  intros Hj Hnd Hkeys. destruct (returns_run _ _ _ (wp_firstPass keys None [] w Hnd Hj))
    as ([errs deferred] & w' & E & [P1 P2 _ P4 P5 _ _ _]).
  exists errs, deferred, w'. split; [exact E|]. split; [done|]. split; [done|]. split; [done|].
  intros k jr Hl. apply P5; [done|]. apply Hkeys. by exists jr.
Qed.

(** C10. The emergency wipe as a whole: the first pass, over the keys of both
    sets in any order, then one goroutine per deferred key, in whatever order
    they run and borrows elsewhere end. In every state they reach, a goroutine
    whose own region's lock is free gets through at once, whatever the others
    wait for, and touches no other registration. Once no goroutine is left,
    every registration there was when the wipe began was zeroed, flagged and
    filed as wiped, with an overwritten canary reported, or is exactly as it was
    with that failure reported. And unless a lock is held exclusively, that end
    can be reached from every such state. *)
Theorem wipe_all_second_pass w (keys : list Z) :
  jan_ok w -> NoDup keys ->
  (forall k, k ∈ keys <-> is_Some (lookup_any w k)) ->
  exists errs deferred w1, wipeAllInPlace keys w = Ret (errs, deferred) w1 /\
    forall d errs' w', rtc second_step (deferred, errs, w1) (d, errs', w') ->
      (forall d1 key d2, d = d1 ++ key :: d2 ->
         (forall jr, lookup_any w' key = Some jr -> lock_free w' (jr_mu jr)) ->
         exists errs2 w2, second_step (d, errs', w') (d1 ++ d2, errs2, w2) /\
           forall k' jr', k' <> key -> lookup_any w' k' = Some jr' -> untouched k' jr' w' w2) /\
      (d = [] -> forall k jr, lookup_any w k = Some jr ->
         untouched k jr w w' /\ is_err errs' errWipeSkipped = true \/
         zeroed w' jr /\ jn_regions (w_jan w') !! k = None /\ jn_wiped (w_jan w') !! k = Some (retained jr) /\
         forall m, mapped w (jr_region jr) m -> verdict w jr m <> None -> is_err errs' ErrCanaryViolation = true) /\
      (shared_only w -> exists errs2 w2, rtc second_step (d, errs', w') ([], errs2, w2)).
Proof.
  intros Hj Hnd Hkeys. destruct (returns_run _ _ _ (wp_firstPass keys None [] w Hnd Hj))
    as ([errs deferred] & w1 & E & P). exists errs, deferred, w1. split; [exact E|].
  assert (second_inv w (deferred, errs, w1)) as Hi by (by apply (first_pass_inv w keys (errs, deferred))).
  intros d errs' w' Hr. destruct (second_pass_inv _ _ _ Hr Hi) as (Hj' & _ & Hs). cbn in *. split; [|split].
  - intros d1 key d2 -> Hf. by apply second_goes.
  - intros -> k jr Hl. destruct (Hs k jr Hl) as [[Hu [Hd|He]]|Hz]; [cbn in Hd; set_solver|by left|by right].
  - intros Hsh. destruct (shared_only_steps _ _ Hr) as [_ Hs']; [apply Hi|by apply (pp_shared _ _ _ _ _ _ P)|]. by apply second_pass_ends.
Qed.

(** C11. Release, as Destroy calls it under the region's lock and as the GC
    cleanup calls it taking the lock: it returns under every pattern of kernel
    failures; the key is in neither set afterwards, no other registration is
    touched, and the registry, the quarantine and the locks are in order; a
    success means an access at the region's address faults. If the first call,
    the one that makes the region writable, is granted, then whatever could not
    be unmapped holds zeros, the ciphertext flag is down, and the error is
    exactly the verdict on the canary joined with the failure to retire the
    range; if it is refused, the error leads with exactly that refusal, and
    something is left only with the failed unmap in the error. *)
Theorem release_wipes_first w k jr m lockHeld :
  jan_ok w -> quar_ok w -> mem_ok w -> lookup_any w k = Some jr -> mapped w (jr_region jr) m ->
  (lockHeld = false -> lock_free w (jr_mu jr)) ->
  exists e w', release k lockHeld w = Ret e w' /\ lookup_any w' k = None /\
    jan_ok w' /\ quar_ok w' /\ w_locks w' = w_locks w /\
    (forall k' jr', k' <> k -> lookup_any w k' = Some jr' -> untouched k' jr' w w') /\
    (e = None -> mem_load (rg_base (jr_region jr)) w' = Fault) /\
    release_outcome jr m w e w'.
Proof.
  intros Hj Hq Hok Hl Hm Hf.
  destruct (returns_run _ _ _ (wp_release k jr m lockHeld w Hj Hq Hok Hl Hm Hf)) as (e & w' & E & R).
  exists e, w'. destruct R as [R1 R2 _ _ _ _ _ R8 R9 _ _ _ R13 R14 _ _ _ R18 _ _].
  split; [done|]. split; [|done]. unfold lookup_any. rewrite R1. cbn. by rewrite !lookup_delete_eq.
Qed.

(** Registration identities: [register] refuses the reserved zero and a
    key that is in either set, recording nothing; otherwise the key it returns
    is new, is one above every key minted before, names exactly the
    registration handed in, and no other entry changes. *)
Theorem register_fresh w region canary mu sealCipher wiped :
  0 <= jn_nextKey (w_jan w) < 2 ^ 64 - 1 -> jan_ok w ->
  exists w', register region canary mu sealCipher wiped w = Ret (inr (jn_nextKey (w_jan w) + 1)) w' /\
    lookup_any w (jn_nextKey (w_jan w) + 1) = None /\
    jn_nextKey (w_jan w') = jn_nextKey (w_jan w) + 1 /\
    (forall k, lookup_any w' k =
       if decide (k = jn_nextKey (w_jan w) + 1)
       then Some (JanitorRegion region mu canary sealCipher wiped) else lookup_any w k) /\
    (forall w0, jn_nextKey (w_jan w0) = 2 ^ 64 - 1 ->
       exists w0', register region canary mu sealCipher wiped w0 = Ret (inl (Sent errJanitorKeyCollision)) w0' /\
         forall k, lookup_any w0' k = lookup_any w0 k).
Proof.
  intros Hn Hj. set (key := jn_nextKey (w_jan w) + 1).
  assert (lookup_any w key = None) as Hfree.
  { destruct (lookup_any w key) as [jr|] eqn:E; [|done]. pose proof (jk_key _ Hj _ _ E). unfold key in *. lia. }
  assert (jn_regions (w_jan w) !! key = None /\ jn_wiped (w_jan w) !! key = None) as [F1 F2].
  { unfold lookup_any in Hfree. by destruct (jn_regions (w_jan w) !! key). }
  eexists. split.
  { unfold register, setJan, gets, modify, mbind, M_bind, mret, M_ret. cbn.
    assert (uwrap64 (jn_nextKey (w_jan w) + 1) = key) as -> by (apply uwrap64_id; lia).
    destruct (key =? 0) eqn:E; [apply Z.eqb_eq in E; unfold key in E; lia|].
    cbn. rewrite F1, F2. cbn. reflexivity. }
  split; [done|]. split; [done|]. split.
  - intros k. unfold lookup_any. cbn. destruct (decide (k = key)) as [->|].
    + by rewrite lookup_insert_eq.
    + by rewrite lookup_insert_ne.
  - intros w0 E0. eexists. split.
    { unfold register, setJan, gets, modify, mbind, M_bind, mret, M_ret. cbn. rewrite E0. cbn. reflexivity. }
    done.
Qed.
End promises.

#[local] Existing Instance linux_kernel.
#[local] Existing Instance linux_kernel_ok.

(** Two registered regions, the second one borrowed. *)
Definition sample_jr1 : janitorRegion := JanitorRegion (SecRegion 64 32 96) 1 (bufferCanary 20 32) (Some 3) (Some 4).
Definition sample_jr2 : janitorRegion := JanitorRegion (SecRegion 160 32 96) 2 (bufferCanary 8 32) (Some 5) (Some 6).
Definition sample_map (x : Z) : mapping := Mapping (replicate 32 x) PROT_READ true 96 false false.
Definition sample_registry : world :=
  World (<[64 := sample_map 9]> (<[160 := sample_map 8]> ∅)) 0
    (<[3 := false]> (<[4 := false]> (<[5 := false]> (<[6 := false]> ∅))))
    (<[1 := LockState 0 false]> (<[2 := LockState 1 false]> ∅)) 7
    (CanaryState (Some None) (replicate 16 9))
    (Janitor (<[1 := sample_jr1]> (<[2 := sample_jr2]> ∅)) ∅ 2)
    (Quarantine (MkQuarantineLimits 4 1000) [] 0) (SealKeyring secRegion_nil 0 0 0 0) ∅ ∅.

Lemma sample_lookup k jr :
  lookup_any sample_registry k = Some jr -> k = 1 /\ jr = sample_jr1 \/ k = 2 /\ jr = sample_jr2.
Proof.
  unfold lookup_any. cbn. intros E.
  destruct (decide (k = 1)) as [->|]; [left; split; [done|]; vm_compute in E; by injection E|].
  destruct (decide (k = 2)) as [->|]; [right; split; [done|]; vm_compute in E; by injection E|].
  rewrite !lookup_insert_ne, !lookup_empty in E by done. done.
Qed.

Lemma sample_registry_ok : jan_ok sample_registry.
Proof.
  constructor.
  - apply map_disjoint_empty_r.
  - intros k jr E. apply sample_lookup in E as [[-> ->]|[-> ->]]; cbn; lia.
  - intros k jr E. apply sample_lookup in E as [[-> ->]|[-> ->]]; (constructor; [eexists; by constructor|..]).
    + by exists 0, false.
    + intros f Hf. unfold jr_flags in Hf. cbn in Hf.
      apply elem_of_cons in Hf as [->|Hf]; [by exists false|].
      apply list_elem_of_singleton in Hf as ->. by exists false.
    + repeat constructor; set_solver.
    + by right.
    + by exists 1, false.
    + intros f Hf. unfold jr_flags in Hf. cbn in Hf.
      apply elem_of_cons in Hf as [->|Hf]; [by exists false|].
      apply list_elem_of_singleton in Hf as ->. by exists false.
    + repeat constructor; set_solver.
    + by right.
  - intros k jr E. cbn in E. by rewrite lookup_empty in E.
  - intros k1 k2 jr1 jr2 E1 E2 Hne.
    apply sample_lookup in E1 as [[-> ->]|[-> ->]], E2 as [[-> ->]|[-> ->]]; try done;
      (split; [done|]); (split; [done|]); intros f H1 H2; unfold jr_flags in *; cbn in *; set_solver.
Qed.

Lemma sample_registry_rest : quar_ok sample_registry /\ mem_ok sample_registry.
Proof.
  split.
  - constructor; cbn; try done; try lia; constructor.
  - intros b m Hb. cbn in Hb. rewrite !lookup_insert_Some in Hb.
    destruct Hb as [[_ <-]|[_ [[_ <-]|[_ Hb]]]]; [done|done|by rewrite lookup_empty in Hb].
Qed.

Lemma wipe_all_first_pass_witness :
  exists errs w', wipeAllInPlace [2; 1] sample_registry = Ret (errs, [2]) w' /\
    pass_status sample_registry w' errs 1 sample_jr1 /\ pass_status sample_registry w' errs 2 sample_jr2.
Proof.
  destruct (@wipe_all_first_pass linux_kernel sample_registry [2; 1] sample_registry_ok)
    as (errs & deferred & w' & E & _ & _ & Hd & Hs).
  - repeat constructor; set_solver.
  - intros k. split.
    + intros Hk. apply elem_of_cons in Hk as [->|Hk]; [by eexists|].
      apply list_elem_of_singleton in Hk as ->. by eexists.
    + intros [jr Hl]. apply sample_lookup in Hl as [[-> _]|[-> _]]; set_solver.
  - exists errs, w'. assert (deferred = [2]) as -> by (rewrite Hd; vm_compute; reflexivity).
    split; [exact E|]. split; [apply (Hs 1)|apply (Hs 2)]; reflexivity.
Defined.

Definition deferred_of (r : outcome world (option gerr * list Z)) : list Z := match r with Ret r _ => r.2 | _ => [] end.

(** The free region is wiped by the first pass and the borrowed one waits; once
    its borrow has ended the second pass is through and both are settled. *)
Lemma wipe_all_second_pass_witness :
  exists errs w1, wipeAllInPlace [2; 1] sample_registry = Ret (errs, [2]) w1 /\
    exists errs2 w2, rtc second_step ([2], errs, w1) ([], errs2, w2) /\
      forall k jr, lookup_any sample_registry k = Some jr ->
        untouched k jr sample_registry w2 /\ is_err errs2 errWipeSkipped = true \/
        zeroed w2 jr /\ jn_wiped (w_jan w2) !! k = Some (retained jr).
Proof.
  destruct (@wipe_all_second_pass linux_kernel linux_kernel_ok sample_registry [2; 1] sample_registry_ok)
    as (errs & deferred & w1 & E & H).
  - repeat constructor; set_solver.
  - intros k. split.
    + intros Hk. apply elem_of_cons in Hk as [->|Hk]; [by eexists|].
      apply list_elem_of_singleton in Hk as ->. by eexists.
    + intros [jr Hl]. apply sample_lookup in Hl as [[-> _]|[-> _]]; set_solver.
  - assert (deferred = [2]) as ->.
    { change deferred with (deferred_of (Ret (errs, deferred) w1)). rewrite <- E. vm_compute. reflexivity. }
    exists errs, w1. split; [exact E|]. destruct (H [2] errs w1 (rtc_refl _ _)) as (_ & _ & Hend).
    destruct Hend as (errs2 & w2 & Hr).
    + intros k jr Hl. apply sample_lookup in Hl as [[-> ->]|[-> ->]]; by eexists.
    + exists errs2, w2. split; [exact Hr|]. intros k jr Hl.
      destruct (H [] errs2 w2 Hr) as (_ & Hdone & _). destruct (Hdone eq_refl k jr Hl) as [?|(? & _ & ? & _)]; [by left|by right].
Defined.

Lemma release_wipes_first_witness :
  exists e w', release 1 false sample_registry = Ret e w' /\ lookup_any w' 1 = None /\
    untouched 2 sample_jr2 sample_registry w' /\ release_outcome sample_jr1 (sample_map 9) sample_registry e w'.
Proof.
  destruct sample_registry_rest as [Hq Hok].
  destruct (@release_wipes_first linux_kernel linux_kernel_ok sample_registry 1 sample_jr1 (sample_map 9) false
    sample_registry_ok Hq Hok) as (e & w' & E & Hl & _ & _ & _ & Ho & _ & Hout).
  - reflexivity.
  - constructor; reflexivity.
  - intros _. reflexivity.
  - exists e, w'. split; [exact E|]. split; [exact Hl|]. split; [apply Ho; [discriminate|reflexivity]|exact Hout].
Defined.

Lemma register_fresh_witness :
  exists w', register (SecRegion 256 32 96) canaryLayout_zero 7 None None sample_registry = Ret (inr 3) w' /\
    lookup_any w' 1 = Some sample_jr1.
Proof.
  destruct (register_fresh sample_registry (SecRegion 256 32 96) canaryLayout_zero 7 None None)
    as (w' & E & _ & _ & H & _); [cbn; lia|apply sample_registry_ok|].
  exists w'. split; [exact E|]. rewrite (H 1). reflexivity.
Defined.

(** The emergency wipe on that registry, evaluated: the free region, whose
    canary is intact, is zeros and flagged; the borrowed one is untouched. *)
Example wipe_all_runs :
  match wipeAllInPlace [2; 1] sample_registry with
  | Ret (errs, deferred) w' =>
      deferred = [2] /\ is_err errs ErrCanaryViolation = false /\
      (mp_bytes <$> w_mem w' !! 64) = Some (zeros 32) /\ w_flags w' !! 4 = Some true /\
      w_mem w' !! 160 = Some (sample_map 8)
  | _ => False
  end.
Proof. vm_compute. repeat split. Qed.
