(* ===== verification/Process.v ===== *)
(** * The process invariant

    What every public operation finds and leaves: the kernel's bookkeeping, the
    quarantine, the registry and the seal keyring in order, and every pointer
    handed out once. The steps the constructors share (a fresh lock, a fresh
    flag, a registration) and their effect on the invariant. *)
From S2P Require Import Prelude Errors Canary World Memory Frame Sample Quarantine Janitor.

(** The seal keyring: not initialised, or registered, mapped, readable and not
    borrowed. *)
Record ring_live (w : world) (k : sealKeyring) (m : mapping) : Prop := RingLive {
  rv_reg : exists jr, lookup_any w (sk_key k) = Some jr /\ jr_region jr = sk_region k /\ jr_mu jr = sk_lock k /\
             jr_wiped jr = Some (sk_wiped k) /\ retained jr = jr;
  rv_map : mapped w (sk_region k) m;
  rv_prot : mp_prot m = PROT_READ \/ mp_prot m = PROT_RW;
  rv_lock : lock_free w (sk_lock k)
}.
Definition ring_ok (w : world) : Prop :=
  sk_lock (w_keys w) = 0 \/ exists m, ring_live w (w_keys w) m.

Record world_ok (w : world) : Prop := WorldOk {
  wk_mem : mem_ok w;
  wk_quar : quar_ok w;
  wk_jan : jan_ok w;
  wk_ring : ring_ok w;
  wk_flags : forall f, is_Some (w_flags w !! f) -> 0 < f < w_next w;
  wk_locks : forall l, is_Some (w_locks w !! l) -> 0 < l < w_next w;
  wk_bufs : forall p, is_Some (w_bufs w !! p) -> 0 < p < w_next w;
  wk_arenas : forall p, is_Some (w_arenas w !! p) -> 0 < p < w_next w;
  wk_next : 0 < w_next w;
  wk_key : 0 <= jn_nextKey (w_jan w)
}.

(** Room for [n] more registrations before the key counter wraps. *)
Definition key_room (w : world) (n : Z) : Prop := jn_nextKey (w_jan w) + n < 2 ^ 64.

Section transport.
Implicit Types (w : world) (jr : janitorRegion).

Lemma lookup_any_jan w w' k : w_jan w' = w_jan w -> lookup_any w' k = lookup_any w k.
Proof. unfold lookup_any. by intros ->. Qed.

(** The registry's invariant under a change that keeps the registry and keeps
    every registered resource in shape. *)
Lemma jan_ok_keep w w' :
  jan_ok w -> w_jan w' = w_jan w ->
  (forall k jr, lookup_any w k = Some jr -> exists m, mapped w' (jr_region jr) m) ->
  (forall k jr, lookup_any w k = Some jr ->
     exists n b, w_locks w' !! jr_mu jr = Some (LockState n b) /\ 0 <= n /\ (b = true -> n = 0)) ->
  (forall f, is_Some (w_flags w !! f) -> is_Some (w_flags w' !! f)) ->
  (cn_done (w_canary w) = Some None -> cn_done (w_canary w') = Some None) -> jan_ok w'.
Proof.
  intros [H1 H2 H3 H4 H5] Ej Hm Hl Hf Hc.
  assert (forall k, lookup_any w' k = lookup_any w k) as El by (intros; by apply lookup_any_jan).
  constructor; rewrite ?Ej; try done.
  - intros k jr. rewrite El. apply H2.
  - intros k jr. rewrite El. intros Hk. destruct (H3 k jr Hk) as [_ _ Hfl Hnd Hca]. constructor; try done; [by eapply Hm|by eapply Hl|auto|].
    destruct Hca; auto.
  - intros k1 k2 jr1 jr2. rewrite !El. apply H5.
Qed.

Lemma ring_ok_keep w w' :
  ring_ok w -> w_keys w' = w_keys w ->
  (forall k jr, k = sk_key (w_keys w) -> lookup_any w k = Some jr -> lookup_any w' k = Some jr) ->
  (sk_lock (w_keys w) <> 0 -> forall m, w_mem w !! rg_base (sk_region (w_keys w)) = Some m -> mp_held m = false ->
     w_mem w' !! rg_base (sk_region (w_keys w)) = Some m) ->
  (sk_lock (w_keys w) <> 0 -> w_locks w' !! sk_lock (w_keys w) = w_locks w !! sk_lock (w_keys w)) -> ring_ok w'.
Proof.
  intros [E|(m & [(jr & Hr & Hrest) Hmap Hp Hl])] Ek Hreg Hm Hlk; [left; by rewrite Ek|].
  destruct (decide (sk_lock (w_keys w) = 0)) as [E0|Hne]; [left; by rewrite Ek|].
  right. exists m. rewrite Ek. constructor; try done.
  - exists jr. split; [by apply Hreg|done].
  - destruct Hmap. constructor; try done. by apply Hm.
  - unfold lock_free. rewrite Hlk; done.
Qed.

(** New mappings only. *)
Lemma world_ok_grows w w' : world_ok w -> grows w w' -> mem_ok w' -> world_ok w'.
Proof.
  intros [W1 W2 W3 W4 W5 W6 W7 W8 W9 W10] [[M1 M2 M3 M4 M5 M6 M7 M8 M9] Hsub] Hok.
  assert (forall r m, mapped w r m -> mapped w' r m) as Hmap.
  { intros r m []. constructor; try done. by eapply lookup_weaken. }
  constructor; rewrite ?M1, ?M2, ?M3, ?M5, ?M8, ?M9; try done.
  - eapply quar_ok_mem; [done|done|]. intros. by eapply lookup_weaken.
  - eapply jan_ok_keep; [done|done|..].
    + intros k jr Hk. destruct (ro_map _ _ (jk_res _ W3 _ _ Hk)) as [m Hm]. eauto.
    + rewrite M2. intros k jr Hk. by apply (ro_lock _ _ (jk_res _ W3 _ _ Hk)).
    + by rewrite M1.
    + by rewrite M4.
  - eapply ring_ok_keep; [done|done|..].
    + intros k jr -> Hk. by rewrite (lookup_any_jan w).
    + intros _ m Hm _. by eapply lookup_weaken.
    + intros _. by rewrite M2.
Qed.

(** A fresh lock and a fresh flag. *)
Definition with_lock (w : world) : world :=
  set_locks (insert (w_next w) (LockState 0 false)) (set_next (w_next w + 1) w).
Definition with_flag (w : world) : world :=
  set_flags (insert (w_next w) false) (set_next (w_next w + 1) w).

Lemma wp_new_lock (Q : Z -> world -> Prop) R w : Q (w_next w) (with_lock w) -> wp new_lock Q R w.
Proof. done. Qed.
Lemma wp_new_flag (Q : Z -> world -> Prop) R w : Q (w_next w) (with_flag w) -> wp new_flag Q R w.
Proof. done. Qed.

Lemma world_ok_with_lock w : world_ok w -> world_ok (with_lock w).
Proof.
  intros [W1 W2 W3 W4 W5 W6 W7 W8 W9 W10].
  assert (forall l, is_Some (w_locks w !! l) -> w_locks (with_lock w) !! l = w_locks w !! l) as Hl.
  { intros l Hs. cbn. rewrite lookup_insert_ne; [done|]. specialize (W6 l Hs). lia. }
  assert (forall r m, mapped w r m -> mapped (with_lock w) r m) as Hmap by (intros r m []; by constructor).
  constructor; cbn; try done; try lia.
  - by destruct W2.
  - eapply jan_ok_keep; [done|done| | |done|done].
    + intros k jr Hk. destruct (ro_map _ _ (jk_res _ W3 _ _ Hk)) as [m Hm]. eauto.
    + intros k jr Hk. destruct (ro_lock _ _ (jk_res _ W3 _ _ Hk)) as (n & b & E & ?). rewrite Hl by eauto. eauto.
  - eapply ring_ok_keep; [done|done|by intros k jr -> ?|by intros ???|].
    intros Hne. apply Hl. destruct W4 as [?|(m & [_ _ _ Hf])]; [done|]. by eexists.
  - intros f Hs. specialize (W5 f Hs). lia.
  - intros l. rewrite lookup_insert_is_Some. intros [<-|[_ Hs]]; [lia|]. specialize (W6 l Hs). lia.
  - intros p Hs. specialize (W7 p Hs). lia.
  - intros p Hs. specialize (W8 p Hs). lia.
Qed.

Lemma world_ok_with_flag w : world_ok w -> world_ok (with_flag w).
Proof.
  intros [W1 W2 W3 W4 W5 W6 W7 W8 W9 W10].
  assert (forall r m, mapped w r m -> mapped (with_flag w) r m) as Hmap by (intros r m []; by constructor).
  constructor; cbn; try done; try lia.
  - by destruct W2.
  - eapply jan_ok_keep; [done|done| | | |done].
    + intros k jr Hk. destruct (ro_map _ _ (jk_res _ W3 _ _ Hk)) as [m Hm]. eauto.
    + intros k jr Hk. by apply (ro_lock _ _ (jk_res _ W3 _ _ Hk)).
    + intros f Hs. cbn. rewrite lookup_insert_is_Some. destruct (decide (w_next w = f)); auto.
  - eapply ring_ok_keep; [done|done|by intros k jr -> ?|by intros ???|done].
  - intros f. rewrite lookup_insert_is_Some. intros [<-|[_ Hs]]; [lia|]. specialize (W5 f Hs). lia.
  - intros l Hs. specialize (W6 l Hs). lia.
  - intros p Hs. specialize (W7 p Hs). lia.
  - intros p Hs. specialize (W8 p Hs). lia.
Qed.

(** The registry with one more registration. *)
Definition with_reg (jr : janitorRegion) (w : world) : world :=
  set_jan (Janitor (<[jn_nextKey (w_jan w) + 1 := jr]> (jn_regions (w_jan w))) (jn_wiped (w_jan w))
    (jn_nextKey (w_jan w) + 1)) w.

Lemma jan_fresh_key w : jan_ok w -> lookup_any w (jn_nextKey (w_jan w) + 1) = None.
Proof.
  intros Hj. destruct (lookup_any w _) as [jr|] eqn:E; [|done]. pose proof (jk_key _ Hj _ _ E). lia.
Qed.

Lemma wp_register region canary mu ciph wiped (Q : gerr + Z -> world -> Prop) R w :
  jan_ok w -> 0 <= jn_nextKey (w_jan w) -> key_room w 1 ->
  Q (inr (jn_nextKey (w_jan w) + 1)) (with_reg (JanitorRegion region mu canary ciph wiped) w) ->
  wp (register region canary mu ciph wiped) Q R w.
Proof.
  intros Hj H0 Hr HQ. unfold register, setJan. wpsteps. cbn.
  pose proof (jan_fresh_key w Hj) as Hf. unfold lookup_any in Hf.
  rewrite uwrap64_id by (unfold key_room in *; lia).
  destruct (_ + 1 =? 0) eqn:E; [apply Z.eqb_eq in E; lia|]. cbn.
  destruct (jn_regions (w_jan w) !! _); [done|]. rewrite Hf. wpsteps. exact HQ.
Qed.

Lemma lookup_any_with_reg jr w k :
  lookup_any (with_reg jr w) k = if decide (k = jn_nextKey (w_jan w) + 1) then Some jr else lookup_any w k.
Proof.
  unfold lookup_any, with_reg. cbn. destruct (decide _) as [->|].
  - by rewrite lookup_insert_eq.
  - by rewrite lookup_insert_ne.
Qed.

(** Nobody registered shares a resource with [jr]. *)
Definition unshared (w : world) jr : Prop :=
  forall k jr', lookup_any w k = Some jr' ->
    rg_base (jr_region jr') <> rg_base (jr_region jr) /\ jr_mu jr' <> jr_mu jr /\
    forall f, f ∈ jr_flags jr' -> f ∈ jr_flags jr -> False.

Lemma world_ok_with_reg jr w : world_ok w -> res_ok w jr -> unshared w jr -> world_ok (with_reg jr w).
Proof.
  intros [W1 W2 W3 W4 W5 W6 W7 W8 W9 W10] Hres Hu. pose proof (jan_fresh_key w W3) as Hf.
  assert (jn_wiped (w_jan w) !! (jn_nextKey (w_jan w) + 1) = None) as Hfw.
  { unfold lookup_any in Hf. by destruct (jn_regions (w_jan w) !! _). }
  assert (forall r m, mapped w r m -> mapped (with_reg jr w) r m) as Hmap by (intros r m []; by constructor).
  assert (forall jr', res_ok w jr' -> res_ok (with_reg jr w) jr') as Hro by (intros; by apply res_ok_jan).
  constructor; cbn; try done; try lia.
  - by destruct W2.
  - constructor.
    + cbn. apply map_disjoint_insert_l. split; [done|]. apply W3.
    + intros k jr'. rewrite lookup_any_with_reg. cbn. destruct (decide _) as [->|]; [lia|].
      intros Hk. pose proof (jk_key _ W3 _ _ Hk). lia.
    + intros k jr'. rewrite lookup_any_with_reg. destruct (decide _); [|intros Hk; by eapply Hro, (jk_res _ W3)].
      intros [= <-]. by apply Hro.
    + apply W3.
    + intros k1 k2 jr1 jr2. rewrite !lookup_any_with_reg.
      destruct (decide (k1 = _)) as [->|], (decide (k2 = _)) as [->|]; try done.
      * intros [= <-] H2 _. destruct (Hu _ _ H2) as (? & ? & Hfl). split; [congruence|]. split; [congruence|].
        intros f ? ?. by eapply Hfl.
      * intros H1 [= <-] _. by apply (Hu _ _ H1).
      * apply (jk_inj _ W3).
  - eapply ring_ok_keep; [done|done| |by intros ???|done].
    intros k jr' -> Hk. rewrite lookup_any_with_reg. destruct (decide _) as [E|]; [|done]. congruence.
Qed.

(** A change at one address that is no registered region. *)
Lemma world_ok_touch b w w' :
  world_ok w -> touch b w w' ->
  (forall k jr, lookup_any w k = Some jr -> rg_base (jr_region jr) <> b) ->
  (forall m, w_mem w !! b = Some m -> mp_held m = false) ->
  (forall m, w_mem w' !! b = Some m -> 0 < mp_outer m) -> world_ok w'.
Proof.
  intros [W1 W2 W3 W4 W5 W6 W7 W8 W9 W10] Ht Hn Hlive Hpos.
  pose proof (mem_ok_touch _ _ _ W1 Ht Hpos) as Hok. destruct Ht as [[M1 M2 M3 M4 M5 M6 M7 M8 M9] T].
  constructor; rewrite ?M1, ?M2, ?M3, ?M5, ?M8, ?M9; try done.
  - eapply quar_ok_mem; [done|done|]. intros b' m Hb Hh. rewrite T; [done|]. intros ->. by rewrite (Hlive m Hb) in Hh.
  - eapply jan_ok_keep; [done|done|..].
    + intros k jr Hk. destruct (ro_map _ _ (jk_res _ W3 _ _ Hk)) as (m & []). exists m. constructor; try done.
      rewrite T; [done|]. by eapply Hn.
    + rewrite M2. intros k jr Hk. by apply (ro_lock _ _ (jk_res _ W3 _ _ Hk)).
    + by rewrite M1.
    + by rewrite M4.
  - destruct (decide (sk_lock (w_keys w) = 0)) as [E|Hne]; [left; by rewrite M7|].
    eapply ring_ok_keep; [done|done|..].
    + intros k jr -> Hk. by rewrite (lookup_any_jan w).
    + intros _ m Hm _. rewrite T; [done|]. destruct W4 as [?|(m' & [(jr & Hr & <- & _) _ _ _])]; [done|]. by eapply Hn.
    + intros _. by rewrite M2.
Qed.

Lemma world_ok_tick w : world_ok w -> world_ok (tick w).
Proof.
  intros W. apply (world_ok_grows w); [done| |apply W]. split; auto with secmem.
Qed.

(** The mapping of a region changes its contents or protection, not its
    shape; the prekey's stays readable. *)
Lemma world_ok_remap r m m' w :
  world_ok w -> mapped w r m ->
  zlen (mp_bytes m') = zlen (mp_bytes m) -> mp_held m' = mp_held m -> mp_outer m' = mp_outer m ->
  (sk_lock (w_keys w) <> 0 -> rg_base (sk_region (w_keys w)) = rg_base r -> mp_prot m' = mp_prot m) ->
  world_ok (set_mem (insert (rg_base r) m') w).
Proof.
  intros [W1 W2 W3 W4 W5 W6 W7 W8 W9 W10] Hm El Eh Eo Hring.
  pose proof (md_at _ _ _ Hm) as Hat. pose proof (md_held _ _ _ Hm) as Hheld.
  assert (forall r' m1, mapped w r' m1 -> exists m2, mapped (set_mem (insert (rg_base r) m') w) r' m2 /\
    (rg_base r' <> rg_base r -> m2 = m1) /\ (rg_base r' = rg_base r -> m2 = m' /\ m1 = m)) as Hmap.
  { intros r' m1 Hm1. pose proof (md_at _ _ _ Hm1) as Hat1. destruct (decide (rg_base r' = rg_base r)) as [E|Hne].
    - exists m'. split; [|split; [done|]].
      + rewrite E, Hat in Hat1. injection Hat1 as <-. destruct Hm1. constructor; try congruence.
        cbn. rewrite E. apply lookup_insert_eq.
      + split; [done|congruence].
    - exists m1. split; [|done]. destruct Hm1. constructor; try done. cbn. by rewrite lookup_insert_ne. }
  constructor; cbn; try done.
  - intros b mb. cbn. rewrite lookup_insert_Some. intros [[<- <-]|[_ Hb]]; [|by eapply W1]. rewrite Eo. by eapply W1.
  - eapply quar_ok_mem; [done|done|]. intros b mb Hb Hh. cbn. rewrite lookup_insert_ne; [done|]. intros <-. congruence.
  - eapply jan_ok_keep; [done|done| | |done|done].
    + intros k jr Hk. destruct (ro_map _ _ (jk_res _ W3 _ _ Hk)) as [m1 Hm1].
      destruct (Hmap _ _ Hm1) as (m2 & ? & _). eauto.
    + intros k jr Hk. by apply (ro_lock _ _ (jk_res _ W3 _ _ Hk)).
  - destruct W4 as [E|(m1 & [Hreg Hm1 Hp Hl])]; [by left|].
    destruct (decide (sk_lock (w_keys w) = 0)) as [E|Hne]; [by left|]. right.
    destruct (Hmap _ _ Hm1) as (m2 & Hm2 & H1 & H2). exists m2. constructor; try done.
    destruct (decide (rg_base (sk_region (w_keys w)) = rg_base r)) as [E|E].
    + destruct (H2 E) as [-> ->]. by rewrite (Hring Hne E).
    + by rewrite (H1 E).
Qed.

(** Taking and giving back a lock nobody holds changes nothing. *)
Lemma relock_id w f l s :
  w_locks w !! l = Some (LockState 0 false) ->
  (forall w, w_locks (f w) = w_locks w) -> (forall g w, f (set_locks g w) = set_locks g (f w)) ->
  set_locks (insert l (LockState 0 false)) (f (set_locks (insert l s) w)) = f w.
Proof.
  intros Hl Hf Hc. rewrite Hc. specialize (Hf w). destruct (f w) as [a b c L e g h i j k m]. cbn in Hf. subst L.
  unfold set_locks. cbn. f_equal. rewrite insert_insert_eq. by apply insert_id.
Qed.

(** Frames: a resource that was not there needs no mention. *)
Lemma frame_drop F G w w' :
  frame F w w' ->
  (forall b m, b ∈ fp_mem F -> b ∉ fp_mem G -> w_mem w !! b = Some m -> mp_held m = false -> False) ->
  (forall f, f ∈ fp_flags F -> f ∉ fp_flags G -> w_flags w !! f = None) ->
  (forall l, l ∈ fp_locks F -> l ∉ fp_locks G -> w_locks w !! l = None) ->
  (forall k, k ∈ fp_keys F -> k ∉ fp_keys G -> lookup_any w k = None) ->
  (forall p, p ∈ fp_bufs F -> p ∉ fp_bufs G -> w_bufs w !! p = None) ->
  (forall p, p ∈ fp_arenas F -> p ∉ fp_arenas G -> w_arenas w !! p = None) -> frame G w w'.
Proof.
  intros [F1 F2 F3 F4 F5 F6 F7 F8 F9 F10] H1 H2 H3 H4 H5 H6. constructor; try done.
  - intros b m Hb Hh Hn. destruct (decide (b ∈ fp_mem F)) as [Hin|]; [|by apply F1]. destruct (H1 b m Hin Hn Hb Hh).
  - intros f v Hf Hn. destruct (decide (f ∈ fp_flags F)) as [Hin|]; [|by apply F2]. rewrite H2 in Hf; done.
  - intros f v Hf Hn. destruct (decide (f ∈ fp_locks F)) as [Hin|]; [|by apply F3]. rewrite H3 in Hf; done.
  - intros k jr Hk Hn. destruct (decide (k ∈ fp_keys F)) as [Hin|]; [|by apply F4].
    specialize (H4 k Hin Hn). unfold lookup_any in H4. by rewrite Hk in H4.
  - intros k jr Hk Hn. destruct (decide (k ∈ fp_keys F)) as [Hin|]; [|by apply F5].
    specialize (H4 k Hin Hn). unfold lookup_any in H4. by destruct (jn_regions (w_jan w) !! k); [|rewrite Hk in H4].
  - intros p st Hp Hn. destruct (decide (p ∈ fp_bufs F)) as [Hin|]; [|by apply F6]. rewrite H5 in Hp; done.
  - intros p st Hp Hn. destruct (decide (p ∈ fp_arenas F)) as [Hin|]; [|by apply F7]. rewrite H6 in Hp; done.
Qed.

Lemma released_frame `{K : Kernel} k jr m w e w' :
  jan_ok w -> lookup_any w k = Some jr -> released k jr m w e w' ->
  frame (FP {[rg_base (jr_region jr)]} (list_to_set (option_list (jr_sealCipher jr))) ∅ {[k]} ∅ ∅) w w'.
Proof.
  intros Hj Hl [R1 R2 R3 R4 R5 R6 R7 R8 R9 R10 R11 R12 R13 R14 R15 R16 R17 R18 R19 R20]. constructor; cbn.
  - intros b m' Hb Hh Hn. apply R11; set_solver.
  - intros f v Hf Hn. rewrite R12; [done|]. intros E. rewrite E in Hn. cbn in Hn. set_solver.
  - intros l v Hlk _. by rewrite R2.
  - intros k' jr' Hk Hn. rewrite R1. cbn. rewrite lookup_delete_ne; [done|]. set_solver.
  - intros k' jr' Hk Hn. rewrite R1. cbn. rewrite lookup_delete_ne; [done|]. set_solver.
  - intros p st Hp _. by rewrite R5.
  - intros p st Hp _. by rewrite R6.
  - intros ? _. done.
  - lia.
  - rewrite R1. cbn. lia.
Qed.

Lemma frame_with_lock F w : world_ok w -> frame F w (with_lock w).
Proof.
  intros W. constructor; cbn; try done; try lia. intros l v Hl _.
  rewrite lookup_insert_ne; [done|]. pose proof (wk_locks _ W l ltac:(eauto)). lia.
Qed.
Lemma frame_with_flag F w : world_ok w -> frame F w (with_flag w).
Proof.
  intros W. constructor; cbn; try done; try lia. intros l v Hl _.
  rewrite lookup_insert_ne; [done|]. pose proof (wk_flags _ W l ltac:(eauto)). lia.
Qed.
Lemma frame_with_reg F jr w : jan_ok w -> frame F w (with_reg jr w).
Proof.
  intros Hj. constructor; cbn; try done; try lia. intros k jr' Hk _.
  rewrite lookup_insert_ne; [done|]. intros <-. pose proof (jan_fresh_key w Hj) as Hf.
  unfold lookup_any in Hf. by rewrite Hk in Hf.
Qed.
Lemma frame_set_keys F k w : frame F w (set_keys k w).
Proof. by constructor. Qed.
End transport.

(** ** Regions between allocation and registration *)

(** No registration has this region. *)
Definition unregistered (w : world) (r : secRegion) : Prop :=
  forall k jr, lookup_any w k = Some jr -> rg_base (jr_region jr) <> rg_base r.

Section fresh.
Context `{K : Kernel} {KOk : KernelOk}.
Implicit Types (w : world) (r : secRegion) (m : mapping).

(** A region just allocated: zeroed, locked, read-write, nobody else's. *)
Record new_region (w w1 : world) (size : Z) r m : Prop := NewRegion {
  nr_ok : world_ok w1;
  nr_map : mapped w1 r m;
  nr_zero : mp_bytes m = zeros (rg_inner r);
  nr_prot : mp_prot m = PROT_RW;
  nr_unreg : unregistered w1 r;
  nr_size : 0 < size <= rg_inner r;
  nr_page : (k_page | rg_inner r);
  nr_new : w_mem w !! rg_base r = None;
  nr_grows : grows w w1
}.

Lemma grows_nextKey w w1 : grows w w1 -> w_jan w1 = w_jan w.
Proof. by intros [[] _]. Qed.

Lemma alloc_new size r n info w w1 :
  world_ok w -> alloc_spec w size (inr (r, n, info)) w1 ->
  n = size /\ exists m, new_region w w1 size r m.
Proof.
  intros W [(Hg & Hok & [A1 A2 (m & Hm & Hz & Hp & _) A4 A5 A6]) [-> Hs]]. cbn in *. split; [done|].
  exists m. constructor; try done.
  - by eapply world_ok_grows.
  - intros k jr Hk E. rewrite (lookup_any_jan w) in Hk by by apply grows_nextKey.
    destruct (ro_map _ _ (jk_res _ (wk_jan _ W) _ _ Hk)) as (m' & []). congruence.
Qed.

(** Releasing a region that was never registered. *)
Lemma wp_free_unregistered r m w :
  world_ok w -> mapped w r m -> unregistered w r ->
  returns (freeSecretMem r) w (fun _ w' => world_ok w' /\ touch (rg_base r) w w').
Proof.
  intros W Hm Hu. eapply wp_returns; [by apply wp_freeSecretMem|]. intros e w' [T Hat]. split; [|done].
  eapply world_ok_touch; [done|done|exact Hu|..].
  - intros m' Hm'. destruct Hm. congruence.
  - intros m' Hm'. destruct e; [|congruence]. destruct Hat as (m2 & E2 & _ & _ & _ & Eo).
    destruct Hm. assert (m' = m2) as -> by congruence. lia.
Qed.

Lemma wp_wipe_free r m w :
  world_ok w -> mapped w r m -> mp_prot m = PROT_RW -> unregistered w r ->
  returns (wipeInner r;; freeSecretMem r) w (fun _ w' => world_ok w' /\ touch (rg_base r) w w').
Proof.
  intros W Hm Hp Hu. wpsteps. eapply wp_wipeInner; [done|done|].
  set (m1 := with_bytes _ _). set (w1 := set_mem _ _).
  assert (zlen (mp_bytes m1) = zlen (mp_bytes m)) as Ez.
  { cbn. destruct Hm. rewrite zlen_zeros; lia. }
  assert (mapped w1 r m1) as Hm1 by (eapply mapped_with; [done..|]; cbn; apply lookup_insert_eq).
  eapply wp_returns; [apply (wp_free_unregistered r m1); [|done|done]|].
  - by eapply world_ok_remap.
  - intros e w' [W' T]. split; [done|]. eapply touch_trans; [|done]. apply touch_insert, touch_refl.
Qed.

(** Registered locks and flags exist, so they are below the next pointer. *)
Lemma registered_below w k jr :
  world_ok w -> lookup_any w k = Some jr ->
  jr_mu jr < w_next w /\ forall f, f ∈ jr_flags jr -> f < w_next w.
Proof.
  intros W Hk. destruct (jk_res _ (wk_jan _ W) _ _ Hk) as [_ (n & b & E & _) Hf _ _]. split.
  - by apply (wk_locks _ W); eauto.
  - intros f Hin. by apply (wk_flags _ W), Hf.
Qed.

Lemma unshared_fresh w w3 jr :
  world_ok w -> w_jan w3 = w_jan w -> unregistered w (jr_region jr) ->
  w_next w <= jr_mu jr -> (forall f, f ∈ jr_flags jr -> w_next w <= f) -> unshared w3 jr.
Proof.
  intros W Ej Hu Hmu Hf k jr' Hk. rewrite (lookup_any_jan w) in Hk by done.
  destruct (registered_below w k jr' W Hk) as [H1 H2]. split; [by eapply Hu|]. split; [lia|].
  intros f Ha Hb. specialize (H2 f Ha). specialize (Hf f Hb). lia.
Qed.

Lemma unregistered_jan w w' r : w_jan w' = w_jan w -> unregistered w r -> unregistered w' r.
Proof. intros E Hu k jr Hk. rewrite (lookup_any_jan w) in Hk by done. by eapply Hu. Qed.

Lemma wp_wipe_free_then {A} r m w (k : GM A) (Q : A -> world -> Prop) R :
  world_ok w -> mapped w r m -> mp_prot m = PROT_RW -> unregistered w r ->
  (forall w', world_ok w' -> touch (rg_base r) w w' -> wp k Q R w') ->
  wp (wipeInner r;; _ ← freeSecretMem r; k) Q R w.
Proof.
  intros W Hm Hp Hu Hk. pose proof (wp_bind_inv _ _ _ _ _ (wp_wipe_free r m w W Hm Hp Hu)) as H.
  apply wp_bind. eapply wp_mono; [exact H| |done]. intros ? w1 H1. apply wp_bind.
  eapply wp_mono; [exact H1| |done]. intros _ w2 [? ?]. auto.
Qed.

(** A change at an address where nothing was is nobody else's business. *)
Lemma new_touch_frame F w w1 w' size r m :
  new_region w w1 size r m -> touch (rg_base r) w1 w' -> frame F w w'.
Proof.
  intros N [M T]. destruct (nr_grows _ _ _ _ _ N) as [M1 S1]. apply mem_only_frame; [by eapply mem_only_trans|].
  intros b mb Hb Hh Hn. rewrite T; [by eapply lookup_weaken|]. intros ->. by rewrite (nr_new _ _ _ _ _ N) in Hb.
Qed.

(** The process after a release, when the prekey is not what was released. *)
Lemma released_world_ok k jr m w e w' :
  world_ok w -> lookup_any w k = Some jr -> released k jr m w e w' ->
  (sk_lock (w_keys w) <> 0 -> sk_key (w_keys w) <> k) -> world_ok w'.
Proof.
  intros [W1 W2 W3 W4 W5 W6 W7 W8 W9 W10] Hl [R1 R2 R3 R4 R5 R6 R7 R8 R9 R10 R11 R12 R13 R14 R15 R16 R17 R18 R19 R20] Hring.
  constructor; rewrite ?R2, ?R3, ?R5, ?R6; try done.
  - destruct (decide (sk_lock (w_keys w) = 0)) as [E|Hne]; [left; by rewrite R7|].
    eapply ring_ok_keep; [done|done|..].
    + intros k' jr' -> Hk'. specialize (Hring Hne). by rewrite (untouched_lookup _ _ _ _ (R13 _ _ Hring Hk')).
    + intros _ m' Hm' Hh. apply R11; [|done|done]. specialize (Hring Hne).
      destruct W4 as [?|(m1 & [(jr' & Hk' & <- & _) _ _ _])]; [done|]. by apply (jk_inj _ W3 _ _ _ _ Hk' Hl).
    + intros _. by rewrite R2.
  - intros f Hf. destruct (decide (jr_sealCipher jr = Some f)) as [E|E].
    + apply W5. apply (ro_flags _ _ (jk_res _ W3 _ _ Hl)). unfold jr_flags. rewrite E. set_solver.
    + rewrite R12 in Hf by done. by apply W5.
  - by rewrite R1.
Qed.

Lemma world_ok_set_keys k w : world_ok w -> ring_ok (set_keys k w) -> world_ok (set_keys k w).
Proof.
  intros [W1 W2 W3 W4 W5 W6 W7 W8 W9 W10] Hr. constructor; try done; [by destruct W2|].
  eapply jan_ok_keep; [done|done|..|done|done]; cbn.
  - intros k' jr' Hk'. destruct (ro_map _ _ (jk_res _ W3 _ _ Hk')) as (m' & []). exists m'. by constructor.
  - intros k' jr' Hk'. by apply (ro_lock _ _ (jk_res _ W3 _ _ Hk')).
Qed.
End fresh.
