(* ===== verification/SealAuth.v ===== *)
(** * Authentication of the sealed state (sealauth.go)

    The process's prekey, the tag a Seal takes over the bytes it leaves at rest
    and its verification. *)
From S2P Require Import Prelude Errors Canary World Memory Frame Sample Quarantine Janitor Process.

Definition sealPrekeyLen : Z := Z.shiftl 16 10.
Definition sealRootLen : Z := 64.
Definition sealBlockLen : Z := 128.
Definition sealTagLen : Z := 32.
Definition sealNonceLen : Z := 16.

(** "secmem/seal/v1/mac" *)
Definition sealLabelMac : list Z :=
  [115; 101; 99; 109; 101; 109; 47; 115; 101; 97; 108; 47; 118; 49; 47; 109; 97; 99].

(** [binary.BigEndian.PutUint64]. *)
Definition be64 (v : Z) : list Z :=
  (fun i : nat => Z.shiftr v (8 * (7 - Z.of_nat i)) mod 256) <$> seq 0 8.

Record sealPRFState : Type := SealPRFState {
  ps_ipad : list Z;
  ps_opad : list Z;
  ps_inner : list Z
}.

Definition sealPRFState_new : sealPRFState :=
  SealPRFState (zeros (sealBlockLen + sealBlockLen)) (zeros (sealBlockLen + sealRootLen)) (zeros sealRootLen).

Definition prf_init (root : list Z) (st : sealPRFState) : sealPRFState :=
  SealPRFState (xor_first sealBlockLen 54 (copy_at 0 root (ps_ipad st)))
    (xor_first sealBlockLen 92 (copy_at 0 root (ps_opad st))) (ps_inner st).

Section sealauth.
Context `{Kernel}.

(** The HMAC of [msg], and the state it leaves behind. *)
Definition prf (st : sealPRFState) (msg : list Z) : list Z * sealPRFState :=
  let room := zlen (ps_ipad st) - sealBlockLen in
  let n := sealBlockLen + Z.min room (zlen msg) in
  let ipad := copy_at sealBlockLen msg (ps_ipad st) in
  let inner := k_sha512 (lsub 0 n ipad) in
  let opad := copy_at sealBlockLen inner (ps_opad st) in
  (k_sha512 opad, SealPRFState ipad opad inner).

(** The bytes the tag covers. *)
Definition sealMessage (id : Z) (nonce d : list Z) (len : Z) : list Z :=
  sealLabelMac ++ be64 id ++ nonce ++ be64 len ++ d.

Definition sealComputeTag (prekey : list Z) (id : Z) (nonce data : list Z) : list Z :=
  let root := k_sha512 prekey in
  let st := prf_init root sealPRFState_new in
  let d := k_sha512 data in
  firstn (Z.to_nat sealTagLen) (prf st (sealMessage id nonce d (zlen data))).1.

Definition setKeys (f : sealKeyring -> sealKeyring) : GM unit := modify (fun w => set_keys (f (w_keys w)) w).

(** [initLocked]: reclaim a wiped predecessor, then allocate, register, fill
    and write-protect a new prekey. *)
Definition initLocked : GM (option gerr) :=
  k ← gets w_keys;
  (if negb (sk_lock k =? 0) then
     _ ← release (sk_key k) false;
     setKeys (fun k => SealKeyring secRegion_nil 0 0 0 (sk_gen k))
   else mret tt);;
  r ← allocSecretMem sealPrekeyLen;
  match r with
  | inl e => mret (Some (errorf "secmem: seal prekey" e))
  | inr (region, len, _) =>
      if negb (len =? rg_inner region) then
        wipeInner region;; _ ← freeSecretMem region;
        mret (Some (Msg "secmem: seal prekey: allocation is not page-exact"))
      else
      lock ← new_lock;
      wiped ← new_flag;
      rk ← register region canaryLayout_zero lock None (Some wiped);
      match rk with
      | inl e => wipeInner region;; _ ← freeSecretMem region; mret (Some (errorf "secmem: seal prekey" e))
      | inr key =>
          lk_lock lock;;
          rd ← rand_Read (Z.to_nat (rg_inner region));
          match rd with
          | inl e => lk_unlock lock;; _ ← release key false; mret (Some (errorf "secmem: seal prekey" e))
          | inr bytes =>
              mem_store (rg_base region) bytes;;
              lk_unlock lock;;
              e ← mprotectSecretMem region PROT_READ;
              match e with
              | Some e => _ ← release key false; mret (Some (errorf "secmem: seal prekey" e))
              | None =>
                  setKeys (fun k => SealKeyring region lock wiped key (uwrap64 (sk_gen k + 1)));;
                  mret None
              end
          end
      end
  end.

(** [withPrekey]: [fn] gets the region of the live prekey and its generation,
    under the keyring's shared lock; it may hand a local back. *)
Definition withPrekey {A} (fn : secRegion -> Z -> GM (gerr + A)) : GM (gerr + A) :=
  k ← gets w_keys;
  init ← (if (sk_lock k =? 0) then (mret true : GM bool) else flag_load (sk_wiped k));
  err ← (if (init : bool) then initLocked else (mret None : GM (option gerr)));
  match err with
  | Some e => mret (inl e)
  | None =>
      k ← gets w_keys;
      lk_rLock (sk_lock k);;
      defer (b ← flag_load (sk_wiped k);
             if (b : bool) then (mret (inl (Sent ErrWiped)) : GM (gerr + A)) else fn (sk_region k) (sk_gen k))
        (lk_rUnlock (sk_lock k))
  end.

(** [sealAuthenticate] of the buffer whose state is at [p]. *)
Definition sealAuthenticate (p : Z) : GM (option gerr) :=
  rd ← rand_Read (Z.to_nat sealNonceLen);
  match rd with
  | inl e => mret (Some e)
  | inr nonce =>
      buf_set p (fun s => bs_set_seal (bs_sealGen s) nonce (bs_sealTag s) s);;
      err ← withPrekey (fun region gen =>
        buf_set p (fun s => bs_set_seal gen (bs_sealNonce s) (bs_sealTag s) s);;
        prekey ← mem_load (rg_base region);
        st ← buf_get p;
        data ← mem_load (rg_base (bs_region st));
        buf_set p (fun s => bs_set_seal (bs_sealGen s) (bs_sealNonce s)
          (sealComputeTag prekey (bs_janitorKey s) (bs_sealNonce s) data) s);;
        (mret (inr tt) : GM (gerr + unit)));
      match err with
      | inl e => mret (Some e)
      | inr _ => buf_set p (bs_set_tagged true);; mret None
      end
  end.

(** [sealVerify]: the tag recomputed, compared with the stored one. *)
Definition sealVerify (p : Z) : GM (option gerr) :=
  want ← withPrekey (fun region gen =>
    st ← buf_get p;
    if negb (gen =? bs_sealGen st) then mret (inl (Sent ErrWiped))
    else
    prekey ← mem_load (rg_base region);
    data ← mem_load (rg_base (bs_region st));
    mret (inr (sealComputeTag prekey (bs_janitorKey st) (bs_sealNonce st) data)));
  match want with
  | inl e => mret (Some e)
  | inr want =>
      st ← buf_get p;
      if negb (bool_decide (want = bs_sealTag st)) then mret (Some (Sent ErrIntegrity)) else mret None
  end.
End sealauth.

(** ** The tag *)

(** HMAC with a 128-byte block, for a key of at most one block. *)
Definition hmac (h : list Z -> list Z) (key msg : list Z) : list Z :=
  let k0 := key ++ zeros (sealBlockLen - zlen key) in
  h ((Z.lxor 92 <$> k0) ++ h ((Z.lxor 54 <$> k0) ++ msg)).

Lemma pad_init c (root : list Z) n :
  zlen root = sealRootLen -> sealBlockLen <= n ->
  xor_first sealBlockLen c (copy_at 0 root (zeros n)) =
  (Z.lxor c <$> (root ++ zeros (sealBlockLen - zlen root))) ++ zeros (n - sealBlockLen).
Proof.
  intros Hr Hn. unfold sealBlockLen, sealRootLen in *.
  pose proof (copy_at_app [] (zeros n) root) as E. change (zlen (@nil Z)) with 0 in E. cbn [app] in E. rewrite E by (rewrite zlen_zeros; lia).
  rewrite drop_zeros by (unfold zlen in *; lia).
  assert (zeros (n - Z.of_nat (length root)) = zeros (128 - zlen root) ++ zeros (n - 128)) as ->.
  { rewrite (zeros_split _ (128 - zlen root)) by (unfold zlen in *; lia). do 2 f_equal. unfold zlen. lia. }
  rewrite app_assoc. rewrite <- (xor_first_app c (root ++ zeros (128 - zlen root))).
  f_equal. rewrite zlen_app, zlen_zeros; lia.
Qed.

Section tag.
Context `{K : Kernel} {KOk : KernelOk}.

Lemma zlen_sha b : zlen (k_sha512 b) = sealRootLen.
Proof. unfold zlen. by rewrite k_sha512_len. Qed.

Lemma zlen_be64 v : zlen (be64 v) = 8.
Proof. done. Qed.

Lemma zlen_sealMessage id nonce d len :
  zlen (sealMessage id nonce d len) = 34 + zlen nonce + zlen d.
Proof. unfold sealMessage. rewrite !zlen_app, !zlen_be64. unfold sealLabelMac, zlen at 1. cbn [length]. lia. Qed.

(** The prepared pads compute HMAC. *)
Lemma prf_hmac (root msg : list Z) :
  zlen root = sealRootLen -> zlen msg <= sealBlockLen ->
  (prf (prf_init root sealPRFState_new) msg).1 = hmac k_sha512 root msg.
Proof.
  intros Hr Hm. unfold prf, prf_init, sealPRFState_new. cbn [ps_ipad ps_opad ps_inner fst].
  rewrite !pad_init by (try done; unfold sealBlockLen; lia). unfold hmac.
  set (k0 := root ++ _). assert (zlen k0 = sealBlockLen) as Hk.
  { unfold k0. rewrite zlen_app, zlen_zeros; unfold sealBlockLen, sealRootLen in *; lia. }
  assert (forall c, zlen (Z.lxor c <$> k0) = sealBlockLen) as Hkc by (intros; unfold zlen in *; by rewrite length_fmap).
  rewrite !Z.add_simpl_l. f_equal.
  rewrite <- (Hkc 92) at 1. rewrite copy_at_app; [|rewrite zlen_sha, zlen_zeros; unfold sealRootLen; lia].
  rewrite drop_zeros, k_sha512_len by (rewrite k_sha512_len; done). cbn [Z.of_nat].
  rewrite app_nil_r. do 2 f_equal.
  rewrite zlen_app, Hkc, zlen_zeros, Z.add_simpl_l, Z.min_r by (unfold sealBlockLen in *; lia).
  rewrite <- (Hkc 54) at 2. rewrite copy_at_app by (rewrite zlen_zeros; unfold sealBlockLen in *; lia).
  rewrite app_assoc. rewrite <- (Hkc 54) at 1. rewrite <- zlen_app.
  unfold lsub, zlen. rewrite Z.sub_0_r, Nat2Z.id. cbn [Z.to_nat drop]. rewrite drop_0. apply take_app_length.
Qed.

(** C13. The in-place tag computation is HMAC-SHA-512 under the hashed prekey
    of label, buffer identity, nonce, length and content hash, cut to 32 bytes. *)
Theorem seal_tag_is_hmac (prekey : list Z) (id : Z) (nonce data : list Z) :
  zlen nonce = sealNonceLen ->
  sealComputeTag prekey id nonce data =
  take (Z.to_nat sealTagLen)
    (hmac k_sha512 (k_sha512 prekey) (sealMessage id nonce (k_sha512 data) (zlen data))).
Proof.
  intros Hn. unfold sealComputeTag. rewrite prf_hmac; [done|apply zlen_sha|].
  rewrite zlen_sealMessage, zlen_sha, Hn. done.
Qed.

Lemma be64_decode v : 0 <= v < 2 ^ 64 -> foldl (fun a b => a * 256 + b) 0 (be64 v) = v.
Proof.
  intros Hv.
  assert (forall n : nat, Z.shiftr v (8 * Z.of_nat (S n)) = Z.shiftr v (8 * Z.of_nat n) / 256) as Hs.
  { intros n. rewrite !Z.shiftr_div_pow2 by lia. rewrite Z.div_div by lia. f_equal.
    rewrite <- (Z.pow_add_r 2 _ 8) by lia. f_equal. lia. }
  pose proof (Hs 0%nat). pose proof (Hs 1%nat). pose proof (Hs 2%nat). pose proof (Hs 3%nat).
  pose proof (Hs 4%nat). pose proof (Hs 5%nat). pose proof (Hs 6%nat). clear Hs.
  unfold be64. cbn [seq fmap list_fmap foldl].
  change (7 - Z.of_nat 0) with (Z.of_nat 7). change (7 - Z.of_nat 1) with (Z.of_nat 6).
  change (7 - Z.of_nat 2) with (Z.of_nat 5). change (7 - Z.of_nat 3) with (Z.of_nat 4).
  change (7 - Z.of_nat 4) with (Z.of_nat 3). change (7 - Z.of_nat 5) with (Z.of_nat 2).
  change (7 - Z.of_nat 6) with (Z.of_nat 1). change (7 - Z.of_nat 7) with (Z.of_nat 0).
  change (8 * Z.of_nat 0) with 0 in *. rewrite !Z.shiftr_0_r in *.
  generalize dependent (Z.shiftr v (8 * Z.of_nat 7)). generalize dependent (Z.shiftr v (8 * Z.of_nat 6)).
  generalize dependent (Z.shiftr v (8 * Z.of_nat 5)). generalize dependent (Z.shiftr v (8 * Z.of_nat 4)).
  generalize dependent (Z.shiftr v (8 * Z.of_nat 3)). generalize dependent (Z.shiftr v (8 * Z.of_nat 2)).
  generalize dependent (Z.shiftr v (8 * Z.of_nat 1)).
  intros x1 -> x2 -> x3 -> x4 -> x5 -> x6 -> x7 ->. Z.to_euclidean_division_equations. lia.
Qed.

Lemma be64_inj v1 v2 : 0 <= v1 < 2 ^ 64 -> 0 <= v2 < 2 ^ 64 -> be64 v1 = be64 v2 -> v1 = v2.
Proof. intros H1 H2 E. rewrite <- (be64_decode v1), <- (be64_decode v2) by done. by rewrite E. Qed.

Lemma app_inj_zlen (a1 a2 b1 b2 : list Z) : zlen a1 = zlen a2 -> a1 ++ b1 = a2 ++ b2 -> a1 = a2 /\ b1 = b2.
Proof. unfold zlen. intros E. apply app_inj_1. lia. Qed.

(** The message determines what it is made of. *)
Lemma sealMessage_inj id1 id2 nonce1 nonce2 d1 d2 len1 len2 :
  0 <= id1 < 2 ^ 64 -> 0 <= id2 < 2 ^ 64 -> 0 <= len1 < 2 ^ 64 -> 0 <= len2 < 2 ^ 64 ->
  zlen nonce1 = zlen nonce2 ->
  sealMessage id1 nonce1 d1 len1 = sealMessage id2 nonce2 d2 len2 ->
  id1 = id2 /\ nonce1 = nonce2 /\ len1 = len2 /\ d1 = d2.
Proof.
  intros H1 H2 H3 H4 Hn E. unfold sealMessage in E.
  apply app_inj_zlen in E as [_ E]; [|done].
  apply app_inj_zlen in E as [Ei E]; [|by rewrite !zlen_be64].
  apply app_inj_zlen in E as [En E]; [|done].
  apply app_inj_zlen in E as [El E]; [|by rewrite !zlen_be64].
  split; [by apply be64_inj|]. split; [done|]. split; [by apply be64_inj|done].
Qed.

(** What an accepted forgery would exhibit: two different inputs, [a] and [b],
    with one SHA-512 digest, or two seal messages with one truncated HMAC. *)
Definition sha_collides (a b : list Z) : Prop := a <> b /\ k_sha512 a = k_sha512 b.
Definition mac_collides (prekey a b : list Z) : Prop :=
  a <> b /\ take (Z.to_nat sealTagLen) (hmac k_sha512 (k_sha512 prekey) a) =
            take (Z.to_nat sealTagLen) (hmac k_sha512 (k_sha512 prekey) b).
Definition collision (prekey : list Z) id1 id2 nonce1 nonce2 (data1 data2 : list Z) : Prop :=
  sha_collides data1 data2 \/
  mac_collides prekey (sealMessage id1 nonce1 (k_sha512 data1) (zlen data1))
    (sealMessage id2 nonce2 (k_sha512 data2) (zlen data2)).

Lemma tag_binds (prekey : list Z) id1 id2 nonce1 nonce2 data1 data2 :
  0 <= id1 < 2 ^ 64 -> 0 <= id2 < 2 ^ 64 -> zlen data1 < 2 ^ 64 -> zlen data2 < 2 ^ 64 ->
  zlen nonce1 = sealNonceLen -> zlen nonce2 = sealNonceLen ->
  sealComputeTag prekey id1 nonce1 data1 = sealComputeTag prekey id2 nonce2 data2 ->
  (id1 = id2 /\ nonce1 = nonce2 /\ data1 = data2) \/ collision prekey id1 id2 nonce1 nonce2 data1 data2.
Proof.
  intros Hi1 Hi2 Hd1 Hd2 Hn1 Hn2 E. unfold sealComputeTag in E.
  rewrite !prf_hmac in E by (first [apply zlen_sha | rewrite zlen_sealMessage, zlen_sha, ?Hn1, ?Hn2; done]).
  destruct (decide (sealMessage id1 nonce1 (k_sha512 data1) (zlen data1) =
                    sealMessage id2 nonce2 (k_sha512 data2) (zlen data2))) as [Em|Em].
  - pose proof (zlen_nonneg data1). pose proof (zlen_nonneg data2).
    apply sealMessage_inj in Em as (-> & -> & _ & Ed); [|done|done|lia|lia|congruence].
    destruct (decide (data1 = data2)) as [->|Hne]; [by left|]. right. by left.
  - right. by right.
Qed.
End tag.

Lemma seal_tag_is_hmac_witness :
  @sealComputeTag linux_kernel [1; 2] 3 (zeros 16) [4; 5] =
  take (Z.to_nat sealTagLen)
    (hmac (@k_sha512 linux_kernel) (@k_sha512 linux_kernel [1; 2])
      (sealMessage 3 (zeros 16) (@k_sha512 linux_kernel [4; 5]) (zlen [4; 5]))).
Proof. apply (@seal_tag_is_hmac linux_kernel linux_kernel_ok); reflexivity. Defined.

(** ** The keyring *)

Section ring.
Context `{K : Kernel} {KOk : KernelOk}.
Implicit Types w : world.

(** What a keyring operation may touch: the old prekey's mapping and
    registration. *)
Definition ring_fp (w : world) : footprint :=
  if decide (sk_lock (w_keys w) = 0) then fp_empty
  else FP {[rg_base (sk_region (w_keys w))]} ∅ ∅ {[sk_key (w_keys w)]} ∅ ∅.

(** The keyring holds a usable prekey. *)
Definition usable (w : world) : Prop :=
  sk_lock (w_keys w) <> 0 /\ w_flags w !! sk_wiped (w_keys w) = Some false.

(** The effect of a keyring operation on everybody else. A usable prekey is
    never replaced. *)
Record ring_step (w w' : world) : Prop := RingStep {
  rs_ok : world_ok w';
  rs_frame : frame (ring_fp w) w w';
  rs_keys : jn_nextKey (w_jan w') <= jn_nextKey (w_jan w) + 1;
  rs_stable : usable w -> w' = w;
  rs_lock : sk_lock (w_keys w') = sk_lock (w_keys w) \/ sk_lock (w_keys w') = 0 \/ w_next w <= sk_lock (w_keys w');
  rs_fp : usable w' \/ fp_sub (ring_fp w') (ring_fp w)
}.

(** The prekey's registration is alone on its lock and mapping. *)
Lemma ring_live_jr w m :
  ring_live w (w_keys w) m ->
  exists jr, lookup_any w (sk_key (w_keys w)) = Some jr /\ jr_region jr = sk_region (w_keys w) /\
    jr_mu jr = sk_lock (w_keys w) /\ jr_sealCipher jr = None /\ jr_wiped jr = Some (sk_wiped (w_keys w)).
Proof.
  intros [(jr & H1 & H2 & H3 & H4 & H5) _ _ _]. exists jr. repeat split; try done. by rewrite <- H5.
Qed.

(** [initLocked]'s first half: the wiped predecessor is reclaimed. *)
Lemma wp_reclaim w (Q : unit -> world -> Prop) R :
  world_ok w ->
  (forall w1, world_ok w1 -> sk_lock (w_keys w1) = 0 -> sk_gen (w_keys w1) = sk_gen (w_keys w) ->
     frame (ring_fp w) w w1 -> w_next w1 = w_next w -> jn_nextKey (w_jan w1) = jn_nextKey (w_jan w) -> Q tt w1) ->
  wp (if negb (sk_lock (w_keys w) =? 0) then
        _ ← release (sk_key (w_keys w)) false;
        setKeys (fun k => SealKeyring secRegion_nil 0 0 0 (sk_gen k))
      else mret tt) Q R w.
Proof.
  intros W HQ. destruct (sk_lock (w_keys w) =? 0) eqn:E; cbn [negb].
  { apply Z.eqb_eq in E. wpsteps. apply HQ; auto with secmem. }
  apply Z.eqb_neq in E. destruct (wk_ring _ W) as [?|(m & Hr)]; [done|].
  destruct (ring_live_jr w m Hr) as (jr & Hk & Er & Em & Ec & Ew). destruct Hr as [_ Hm _ Hf].
  apply wp_bind. eapply wp_returns.
  { apply (wp_release (sk_key (w_keys w)) jr m); try apply W; [done|by rewrite Er|intros _; by rewrite Em]. }
  intros e w1 Hrel. pose proof (released_frame _ _ _ _ _ _ (wk_jan _ W) Hk Hrel) as Hfr.
  rewrite Er, Ec in Hfr. cbn in Hfr. unfold setKeys. wpsteps.
  destruct Hrel as [R1 R2 R3 R4 R5 R6 R7 R8 R9 R10 R11 R12 R13 R14 R15 R16].
  destruct W as [W1 W2 W3 W4 W5 W6 W7 W8 W9 W10].
  assert (forall f, w_flags w1 !! f = w_flags w !! f) as Efl by (intros f; apply R12; by rewrite Ec).
  apply HQ; cbn; try done.
  - constructor; cbn; try done.
    + by destruct R9.
    + eapply jan_ok_keep; [done|done|..|done|done]; cbn.
      * intros k jr' Hk'. destruct (ro_map _ _ (jk_res _ R8 _ _ Hk')) as (m' & []). exists m'. by constructor.
      * intros k jr' Hk'. by apply (ro_lock _ _ (jk_res _ R8 _ _ Hk')).
    + by left.
    + intros f. rewrite Efl, R3. apply W5.
    + intros l. rewrite R2, R3. apply W6.
    + intros p. rewrite R5, R3. apply W7.
    + intros p. rewrite R6, R3. apply W8.
    + by rewrite R3.
    + rewrite R1. done.
  - by rewrite R7.
  - unfold ring_fp. rewrite decide_False by done. eapply frame_trans; [exact Hfr|apply frame_set_keys].
  - by rewrite R1.
Qed.

(** The keyring after [initLocked]: a step, and on success a new usable prekey
    of the next generation. *)
Definition init_post (w : world) (e : option gerr) (w' : world) : Prop :=
  ring_step w w' /\
  match e with
  | None => usable w' /\ (exists m, ring_live w' (w_keys w') m) /\ sk_gen (w_keys w') = uwrap64 (sk_gen (w_keys w) + 1)
  | Some _ => True
  end.

Lemma init_fail w w1 w' e :
  ~ usable w -> frame (ring_fp w) w w1 -> jn_nextKey (w_jan w1) = jn_nextKey (w_jan w) ->
  world_ok w' -> frame fp_empty w1 w' -> jn_nextKey (w_jan w') <= jn_nextKey (w_jan w1) + 1 ->
  sk_lock (w_keys w') = 0 -> init_post w (Some e) w'.
Proof.
  intros Hu F1 Ek W' F2 Hk Hl. split; [|done]. constructor; try done; [|lia|auto|].
  2:{ right. unfold ring_fp at 1. rewrite decide_True by done. apply fp_sub_empty. }
  eapply frame_trans; [done|]. eapply frame_mono; [|done]. apply fp_sub_empty.
Qed.

(** A region registered and released within one operation leaves no trace in
    the frame. *)
Lemma fresh_release_frame w1 w2 w3 k jr m e :
  world_ok w2 -> lookup_any w2 k = Some jr -> released k jr m w2 e w3 ->
  frame fp_empty w1 w2 -> w_mem w1 !! rg_base (jr_region jr) = None -> lookup_any w1 k = None ->
  jr_sealCipher jr = None -> frame fp_empty w1 w3.
Proof.
  intros W2 Hl Hr F1 Hb Hk Hc. pose proof (released_frame _ _ _ _ _ _ (wk_jan _ W2) Hl Hr) as F2. rewrite Hc in F2.
  eapply (frame_drop (FP {[rg_base (jr_region jr)]} ∅ ∅ {[k]} ∅ ∅)); cbn; try set_solver.
  eapply frame_trans; [eapply frame_mono; [apply fp_sub_empty|done]|exact F2].
Qed.

Lemma wp_rand_Read n (Q : gerr + list Z -> world -> Prop) R w :
  (forall e, Q (inl (Errno e)) (tick w)) -> (forall bs, length bs = n -> Q (inr bs) (tick w)) ->
  wp (rand_Read n) Q R w.
Proof.
  intros H1 H2. unfold wp, rand_Read. destruct (k_errno (w_tick w)); [done|]. apply H2, k_rand_len.
Qed.

Lemma wp_initLocked w :
  world_ok w -> key_room w 1 -> ~ usable w -> returns initLocked w (init_post w).
Proof.
  intros W Hroom Hnu. unfold initLocked. unfold returns. apply wp_bind, wp_gets. apply wp_bind. apply wp_reclaim; [done|].
  intros w1 W1 L1 G1 F1 N1 K1. apply wp_bind. eapply wp_returns; [apply alloc_secret_spec; [done|apply W1]|].
  intros [e|[[r len] info]] w2 Ha.
  { wpsteps. destruct Ha as [(Hg & Hok & _) _]. eapply init_fail; try done.
    - by eapply world_ok_grows.
    - by apply grows_frame.
    - rewrite (grows_nextKey _ _ Hg). lia.
    - destruct Hg as [[] _]. congruence. }
  destruct (alloc_new _ _ _ _ _ _ W1 Ha) as (-> & m & Nr).
  pose proof (nr_ok _ _ _ _ _ Nr) as W2. pose proof (nr_map _ _ _ _ _ Nr) as Hm.
  pose proof (grows_nextKey _ _ (nr_grows _ _ _ _ _ Nr)) as J2.
  destruct (negb (sealPrekeyLen =? rg_inner r)).
  { apply (wp_wipe_free_then r m); [apply Nr..|]. intros w' W' T. wpsteps.
    eapply init_fail; try done; [by eapply new_touch_frame|..]; destruct T as [[] _]; [rewrite mo_jan, J2; lia|].
    destruct (nr_grows _ _ _ _ _ Nr) as [[] _]. congruence. }
  apply wp_bind, wp_new_lock, wp_bind, wp_new_flag. cbn [w_next with_lock set_next set_locks].
  pose proof (world_ok_with_flag _ (world_ok_with_lock _ W2)) as W4. set (w4 := with_flag (with_lock w2)) in *.
  set (jr := JanitorRegion r (w_next w2) canaryLayout_zero None (Some (w_next w2 + 1))).
  assert (w_locks w4 !! w_next w2 = Some (LockState 0 false)) as Hlk by apply lookup_insert_eq.
  assert (w_flags w4 !! (w_next w2 + 1) = Some false) as Hfl by apply lookup_insert_eq.
  assert (mapped w4 r m) as Hm4 by by destruct Hm.
  assert (res_ok w4 jr) as Hres.
  { constructor; [by exists m|by exists 0, false| | |by left].
    - intros f. unfold jr_flags. cbn. rewrite list_elem_of_singleton. intros ->. by exists false.
    - apply NoDup_singleton. }
  assert (unshared w4 jr) as Hun.
  { eapply (unshared_fresh w2); [done|done|apply Nr|done|]. intros f. unfold jr_flags. cbn.
    rewrite list_elem_of_singleton. lia. }
  assert (w_jan w4 = w_jan w2) as J4 by done.
  apply wp_bind, wp_register; [apply W4|apply W4|unfold key_room in *; rewrite J4, J2; lia|].
  pose proof (world_ok_with_reg jr w4 W4 Hres Hun) as W5.
  set (key := jn_nextKey (w_jan w4) + 1). set (w5 := with_reg jr w4) in *.
  assert (frame fp_empty w1 w5) as F5.
  { eapply frame_trans; [apply grows_frame, Nr|]. eapply frame_trans; [by apply frame_with_lock|].
    eapply frame_trans; [apply frame_with_flag, world_ok_with_lock; done|]. apply frame_with_reg, W4. }
  assert (lookup_any w5 key = Some jr) as Hk5 by (unfold w5; rewrite lookup_any_with_reg, decide_True; done).
  assert (lookup_any w1 key = None) as Hk1.
  { rewrite <- (lookup_any_jan w1 w2) by done. by apply (jan_fresh_key w2), W2. }
  assert (sk_lock (w_keys w5) = 0) as L5 by (cbn; destruct (nr_grows _ _ _ _ _ Nr) as [[] _]; congruence).
  assert (jn_nextKey (w_jan w5) = jn_nextKey (w_jan w1) + 1) as K5 by (cbn; by rewrite J2).
  (* releasing the new registration again *)
  assert (forall w6 m6 e, world_ok w6 -> w_jan w6 = w_jan w5 -> frame fp_empty w1 w6 -> mapped w6 r m6 ->
    w_locks w6 = w_locks w5 -> w_keys w6 = w_keys w5 ->
    wp (_ ← release key false; mret (Some e)) (init_post w) (fun _ => False) w6) as Hundo.
  { intros w6 m6 e W6 J6 F6 Hm6 Hl6 Hk6. apply wp_bind. eapply wp_returns.
    { apply (wp_release key jr m6); try apply W6; [by rewrite (lookup_any_jan w5)|done|].
      intros _. unfold lock_free. by rewrite Hl6. }
    intros e' w7 Hr. wpsteps. eapply init_fail; try done.
    - eapply released_world_ok; [exact W6| |exact Hr|]; [by rewrite (lookup_any_jan w5)|]. rewrite Hk6, L5. done.
    - eapply fresh_release_frame; [exact W6| |exact Hr|done|apply Nr|done|done]. by rewrite (lookup_any_jan w5).
    - rewrite (rl_jan _ _ _ _ _ _ Hr). cbn. rewrite J6, K5. done.
    - rewrite (rl_keys _ _ _ _ _ _ Hr), Hk6. done. }
  apply wp_bind, wp_lk_lock; [done|]. apply wp_bind. change (with_reg _ w4) with w5. apply wp_rand_Read.
  { intros en. apply wp_bind. eapply wp_lk_unlock; [apply lookup_insert_eq|].
    rewrite (relock_id w5 tick) by done. eapply Hundo; try done; [by apply world_ok_tick| |by destruct Hm4].
    eapply frame_trans; [done|auto with secmem]. }
  intros bytes Hlen. set (m5 := with_bytes bytes m).
  assert (zlen (mp_bytes m5) = zlen (mp_bytes m)) as Ez.
  { cbn. unfold zlen. rewrite Hlen. pose proof (md_len _ _ _ Hm). pose proof (md_inner _ _ _ Hm). unfold zlen in *. lia. }
  apply wp_bind. eapply wp_mem_store; [apply Hm4|apply (prot_rw_access m); [apply Hm|apply Nr]|].
  apply wp_bind. eapply wp_lk_unlock; [apply lookup_insert_eq|].
  rewrite (relock_id w5 (fun w => set_mem (insert (rg_base r) m5) (tick w))) by done.
  set (w6 := set_mem _ (tick w5)).
  assert (world_ok w6) as W6.
  { eapply world_ok_remap; [by apply world_ok_tick|by destruct Hm4|done|done|done|]. intros Hx. exfalso. apply Hx, L5. }
  assert (mapped w6 r m5) as Hm6 by (eapply mapped_with; [exact Hm4|done|done|done|]; cbn; apply lookup_insert_eq).
  assert (forall b mb, w_mem w1 !! b = Some mb -> b <> rg_base r) as Hne1.
  { intros b mb Hb ->. by rewrite (nr_new _ _ _ _ _ Nr) in Hb. }
  assert (forall mx, frame fp_empty w1 (set_mem (insert (rg_base r) mx) (tick w5))) as Hins.
  { intros mx. eapply (frame_drop (FP {[rg_base r]} ∅ ∅ ∅ ∅ ∅)); cbn;
      [| |set_solver..].
    - eapply frame_trans; [eapply frame_mono; [apply fp_sub_empty|exact F5]|].
      eapply frame_trans; [apply frame_tick|]. apply frame_set_mem. cbn. set_solver.
    - intros b mb Hb _ Hb' _. eapply (Hne1 b mb); [done|]. by apply elem_of_singleton in Hb. }
  apply wp_bind. eapply wp_mprotect; [done|right; by left|intros e|].
  - eapply Hundo; try done; [by apply world_ok_tick| |by destruct Hm6].
    eapply frame_trans; [apply (Hins m5)|apply frame_tick].
  - unfold setKeys. wpsteps. cbn [w_keys set_mem tick]. set (m7 := protect PROT_READ m5).
    set (w7 := set_mem _ (tick w6)).
    assert (world_ok w7) as W7.
    { eapply world_ok_remap; [by apply world_ok_tick|by destruct Hm6|unfold m7; by autorewrite with mapping..|]. intros Hx. exfalso. apply Hx, L5. }
    assert (mapped w7 r m7) as Hm7 by by apply (mapped_protect w6 r m5 PROT_READ).
    assert (w_locks w7 = w_locks w5) as L7 by done. assert (w_jan w7 = w_jan w5) as J7 by done.
    set (kr := SealKeyring _ _ _ _ _).
    assert (ring_live (set_keys kr w7) kr m7) as Hrl.
    { constructor; cbn; try done; [|by destruct Hm7|left; unfold m7; by autorewrite with mapping].
      exists jr. split; [|done]. by rewrite (lookup_any_jan w5). }
    assert (0 < w_next w2) as Hpos by apply (wk_next _ W2).
    split; [constructor|].
    + apply world_ok_set_keys; [done|]. right. by exists m7.
    + eapply frame_trans; [exact F1|]. eapply frame_mono; [apply fp_sub_empty|].
      eapply frame_trans; [|apply frame_set_keys]. unfold w7.
      assert (forall f1 f2 ww, set_mem (insert (rg_base r) f2) (tick (set_mem (insert (rg_base r) f1) ww)) =
         tick (set_mem (insert (rg_base r) f2) ww)) as Hcol by (intros; unfold set_mem, tick; cbn; by rewrite insert_insert_eq).
      unfold w6. rewrite Hcol. eapply frame_trans; [apply Hins|apply frame_tick].
    + cbn. rewrite J2. lia.
    + done.
    + right. right. cbn. rewrite <- N1. destruct (nr_grows _ _ _ _ _ Nr) as [[] _]. lia.
    + left. split; cbn; [lia|done].
    + split; [|split; [by exists m7|]].
      * split; cbn; [lia|done].
      * cbn. destruct (nr_grows _ _ _ _ _ Nr) as [[] _]. rewrite <- G1. f_equal. congruence.
Qed.

Lemma ring_step_refl w : world_ok w -> ring_step w w.
Proof. intros W. constructor; auto with secmem; lia. Qed.

(** A usable keyring is left alone; otherwise only the old prekey may go. *)
Lemma ring_step_frame F w w' :
  ring_step w w' -> (~ usable w -> fp_sub (ring_fp w) F) -> frame F w w'.
Proof.
  intros Hs HF.
  destruct (decide (sk_lock (w_keys w) <> 0 /\ w_flags w !! sk_wiped (w_keys w) = Some false)) as [Hu|Hu].
  - rewrite (rs_stable _ _ Hs Hu). apply frame_refl.
  - eapply frame_mono; [apply HF, Hu|apply Hs].
Qed.

(** The process while the prekey is borrowed. *)
Definition borrowed (w : world) : world := set_locks (insert (sk_lock (w_keys w)) (LockState 1 false)) w.

(** [withPrekey]: the keyring could not be set up, or the callback runs with a
    usable prekey and the borrow ends after it. *)
Lemma wp_withPrekey {A} (fn : secRegion -> Z -> GM (gerr + A)) (Q : gerr + A -> world -> Prop) R w :
  world_ok w -> key_room w 1 ->
  (forall e w1, ~ usable w -> ring_step w w1 -> Q (inl e) w1) ->
  (forall w1 m, ring_step w w1 -> usable w1 -> ring_live w1 (w_keys w1) m ->
     wp (fn (sk_region (w_keys w1)) (sk_gen (w_keys w1)))
        (fun r w2 => w_locks w2 !! sk_lock (w_keys w1) = Some (LockState 1 false) /\
           Q r (set_locks (insert (sk_lock (w_keys w1)) (LockState 0 false)) w2))
        (fun _ => False) (borrowed w1)) ->
  wp (withPrekey fn) Q R w.
Proof.
  intros W Hroom Herr Hfn. unfold withPrekey. apply wp_bind, wp_gets.
  assert (forall w1 m, ring_step w w1 -> usable w1 -> ring_live w1 (w_keys w1) m ->
    wp (k ← gets w_keys;
        lk_rLock (sk_lock k);;
        defer (b ← flag_load (sk_wiped k);
               if (b : bool) then (mret (inl (Sent ErrWiped)) : GM (gerr + A)) else fn (sk_region k) (sk_gen k))
          (lk_rUnlock (sk_lock k))) Q R w1) as Hrun.
  { intros w1 m Hs Hu Hl. wpsteps. pose proof (rv_lock _ _ _ Hl) as Hf. unfold wp at 1, lk_rLock. rewrite Hf. cbn.
    change (wp (defer (b ← flag_load (sk_wiped (w_keys w1));
               if (b : bool) then (mret (inl (Sent ErrWiped)) : GM (gerr + A))
               else fn (sk_region (w_keys w1)) (sk_gen (w_keys w1)))
          (lk_rUnlock (sk_lock (w_keys w1)))) Q R (borrowed w1)).
    apply wp_defer, wp_bind. eapply wp_flag_load; [apply Hu|]. cbv beta iota.
    eapply wp_mono; [by apply (Hfn w1 m)| |done]. intros r w2 [Hlk HQ].
    unfold wp, lk_rUnlock. by rewrite Hlk. }
  assert (wp (err ← initLocked;
     match err with
     | Some e => mret (inl e)
     | None => k ← gets w_keys; lk_rLock (sk_lock k);;
        defer (b ← flag_load (sk_wiped k);
               if (b : bool) then (mret (inl (Sent ErrWiped)) : GM (gerr + A)) else fn (sk_region k) (sk_gen k))
          (lk_rUnlock (sk_lock k))
     end) Q R w \/ usable w) as Hinit.
  { destruct (decide (sk_lock (w_keys w) <> 0 /\ w_flags w !! sk_wiped (w_keys w) = Some false)) as [Hu|Hu]; [by right|left].
    apply wp_bind. eapply wp_returns; [by apply wp_initLocked|]. intros [e|] w1 [Hs Hp].
    - wpsteps. by apply Herr.
    - destruct Hp as (Hu' & (m & Hl) & _). by eapply Hrun. }
  apply wp_bind. destruct (sk_lock (w_keys w) =? 0) eqn:E0.
  { apply wp_ret. destruct Hinit as [Hi|[Hu _]]; [exact Hi|]. apply Z.eqb_eq in E0. done. }
  apply Z.eqb_neq in E0. destruct (wk_ring _ W) as [?|(m & Hl)]; [done|].
  destruct (ring_live_jr w m Hl) as (jr & Hk & _ & _ & _ & Ew).
  destruct (ro_flags _ _ (jk_res _ (wk_jan _ W) _ _ Hk) (sk_wiped (w_keys w))) as [b Hb].
  { unfold jr_flags. rewrite Ew. set_solver. }
  eapply wp_flag_load; [done|]. destruct b; cbv iota.
  - destruct Hinit as [Hi|[_ Hu]]; [exact Hi|congruence].
  - apply wp_bind, wp_ret. eapply Hrun; [by apply ring_step_refl|by split|done].
Qed.

(** ** A buffer beside the keyring *)

(** The part of a live buffer the seal works on: its state, its mapping and its
    registration, which is not the prekey's. *)
Record bcore (w : world) (p : Z) (st : bufferState) (m : mapping) : Prop := BCore {
  bc_st : w_bufs w !! p = Some st;
  bc_map : mapped w (bs_region st) m;
  bc_reg : exists jr, lookup_any w (bs_janitorKey st) = Some jr /\ jr_region jr = bs_region st /\
             jr_mu jr = bs_mu st /\ jr_wiped jr = Some (bs_wiped st);
  bc_lock : is_Some (w_locks w !! bs_mu st);
  bc_ring : bs_mu st <> sk_lock (w_keys w)
}.

Lemma bcore_apart w p st m :
  world_ok w -> bcore w p st m -> sk_lock (w_keys w) <> 0 ->
  bs_janitorKey st <> sk_key (w_keys w) /\ rg_base (bs_region st) <> rg_base (sk_region (w_keys w)).
Proof.
  intros W [_ _ (jr & Hk & Er & Em & _) _ Hr] Hne. destruct (wk_ring _ W) as [?|(mk & Hl)]; [done|].
  destruct (ring_live_jr w mk Hl) as (jr' & Hk' & Er' & Em' & _).
  assert (bs_janitorKey st <> sk_key (w_keys w)) as Hkk by (intros E; rewrite E in Hk; congruence).
  split; [done|]. destruct (jk_inj _ (wk_jan _ W) _ _ _ _ Hk Hk' Hkk) as (? & _). congruence.
Qed.

Lemma frame_lookup F w w' k jr :
  frame F w w' -> jan_ok w' -> k ∉ fp_keys F -> lookup_any w k = Some jr -> lookup_any w' k = Some jr.
Proof.
  intros Fr Hj Hn. unfold lookup_any. destruct (jn_regions (w_jan w) !! k) as [jr'|] eqn:E.
  - intros [= <-]. by rewrite (fr_live _ _ _ Fr _ _ E Hn).
  - intros Hw. pose proof (fr_wiped _ _ _ Fr _ _ Hw Hn) as Hw'. destruct (jn_regions (w_jan w') !! k) eqn:E'; [|done].
    exfalso. assert (jn_wiped (w_jan w') !! k = None) by (by eapply map_disjoint_Some_l; [apply Hj|]). congruence.
Qed.

Lemma bcore_ring_step w w' p st m : world_ok w -> bcore w p st m -> ring_step w w' -> bcore w' p st m.
Proof.
  intros W B [W' Fr _ _ Hl]. pose proof (bcore_apart w p st m W B) as Hap. destruct B as [B1 B2 (jr & Hk & Hrest) B4 B5].
  assert (bs_janitorKey st ∉ fp_keys (ring_fp w) /\ rg_base (bs_region st) ∉ fp_mem (ring_fp w)) as [N1 N2].
  { unfold ring_fp. destruct (decide _) as [|Hne]; cbn; [set_solver|]. specialize (Hap Hne). set_solver. }
  assert (forall l, l ∉ fp_locks (ring_fp w)) as N3 by (intros l; unfold ring_fp; destruct (decide _); cbn; set_solver).
  destruct B4 as [ls B4]. constructor.
  - apply (fr_bufs _ _ _ Fr); [done|]. unfold ring_fp. destruct (decide _); cbn; set_solver.
  - by eapply mapped_frame.
  - exists jr. split; [|done]. by eapply frame_lookup; [|apply W'|..].
  - exists ls. by apply (fr_locks _ _ _ Fr).
  - pose proof (wk_locks _ W (bs_mu st) ltac:(eauto)). destruct Hl as [->|[->|?]]; [done|lia|lia].
Qed.

Lemma world_ok_buf f p w : world_ok w -> world_ok (set_bufs (alter f p) w).
Proof.
  intros [W1 W2 W3 W4 W5 W6 W7 W8 W9 W10]. constructor; try done.
  - by destruct W2.
  - eapply jan_ok_keep; [done|done|..|done|done]; cbn.
    + intros k' jr' Hk'. destruct (ro_map _ _ (jk_res _ W3 _ _ Hk')) as (m' & []). exists m'. by constructor.
    + intros k' jr' Hk'. by apply (ro_lock _ _ (jk_res _ W3 _ _ Hk')).
  - eapply ring_ok_keep; [done|done|by intros ?? -> ?|by intros ???|done].
  - intros q. cbn. destruct (decide (q = p)) as [->|].
    + rewrite lookup_alter_eq, fmap_is_Some. apply W7.
    + rewrite lookup_alter_ne by done. apply W7.
Qed.

Lemma bcore_set f w p st m :
  bcore w p st m -> bs_region (f st) = bs_region st -> bs_janitorKey (f st) = bs_janitorKey st ->
  bs_mu (f st) = bs_mu st -> bs_wiped (f st) = bs_wiped st -> bcore (set_bufs (alter f p) w) p (f st) m.
Proof.
  intros [B1 [] B3 B4 B5] E1 E2 E3 E4. constructor; rewrite ?E1, ?E2, ?E3, ?E4; try done.
  cbn. rewrite lookup_alter_eq, B1. done.
Qed.

Lemma bcore_tick w p st m : bcore w p st m -> bcore (tick w) p st m.
Proof. by intros [B1 [] B3 B4 B5]. Qed.

Lemma wp_buf_get p st (Q : bufferState -> world -> Prop) R w :
  w_bufs w !! p = Some st -> Q st w -> wp (buf_get p) Q R w.
Proof. intros E HQ. unfold wp, buf_get. by rewrite E. Qed.

Lemma wp_buf_set p f (Q : unit -> world -> Prop) R w :
  Q tt (set_bufs (alter f p) w) -> wp (buf_set p f) Q R w.
Proof. done. Qed.

Definition buf_fp (p : Z) : footprint := FP ∅ ∅ ∅ ∅ {[p]} ∅.
Lemma frame_buf F p f w : p ∈ fp_bufs F -> frame F w (set_bufs (alter f p) w).
Proof.
  intros Hp. constructor; try done. cbn. intros q st Hst Hq. rewrite lookup_alter_ne; [done|]. intros ->. done.
Qed.

(** The stored tag is the tag of these bytes under the prekey in force. *)
Definition seal_valid (w : world) (st : bufferState) (m : mapping) : Prop :=
  usable w /\ sk_gen (w_keys w) = bs_sealGen st /\
  exists mk, mapped w (sk_region (w_keys w)) mk /\
    bs_sealTag st = sealComputeTag (mp_bytes mk) (bs_janitorKey st) (bs_sealNonce st) (mp_bytes m).

Lemma ring_readable w m : ring_live w (w_keys w) m -> readable m = true.
Proof.
  intros [_ Hm [E|E] _]; unfold readable; by rewrite (md_held _ _ _ Hm), E.
Qed.

(** [sealVerify] accepts exactly the valid tag; everything but the keyring is
    left alone, and a usable prekey too. *)
Lemma wp_sealVerify p st m w :
  world_ok w -> key_room w 1 -> bcore w p st m -> readable m = true ->
  returns (sealVerify p) w (fun e w' => ring_step w w' /\
    (e = None -> seal_valid w' st m) /\ (seal_valid w st m -> e = None) /\
    (usable w -> sk_gen (w_keys w) = bs_sealGen st -> e = None \/ e = Some (Sent ErrIntegrity))).
Proof.
  intros W Hroom B Hr. unfold sealVerify, returns. apply wp_bind. apply wp_withPrekey; [done|done|..].
  { intros e w1 Hnu Hs. wpsteps. split; [done|]. split; [done|].
    split; [intros [Hu _]|intros Hu]; by destruct Hnu. }
  intros w1 mk Hs Hu1 Hl. pose proof (bcore_ring_step _ _ _ _ _ W B Hs) as B1.
  apply wp_bind. eapply wp_buf_get; [apply B1|].
  assert (set_locks (insert (sk_lock (w_keys w1)) (LockState 0 false)) (borrowed w1) = w1) as Hback.
  { apply (relock_id w1 id); try done. apply Hl. }
  destruct (sk_gen (w_keys w1) =? bs_sealGen st) eqn:Eg; cbn [negb].
  - apply Z.eqb_eq in Eg. apply wp_bind. eapply wp_mem_load; [apply (rv_map _ _ _ Hl)|by eapply ring_readable|].
    apply wp_bind. eapply wp_mem_load; [apply B1|done|]. apply wp_ret. split; [apply lookup_insert_eq|].
    rewrite Hback. apply wp_bind. eapply wp_buf_get; [apply B1|].
    destruct (bool_decide _) eqn:Eb; cbn [negb]; wpsteps; (split; [done|]).
    + apply bool_decide_eq_true in Eb. split; [|naive_solver]. intros _. split; [done|]. split; [done|].
      exists mk. split; [apply Hl|done].
    + apply bool_decide_eq_false in Eb. split; [done|]. split; [|by right].
      intros Hv. assert (w1 = w) as -> by (apply (rs_stable _ _ Hs), Hv).
      destruct Hv as (_ & _ & mk' & Hmk & Et). pose proof (rv_map _ _ _ Hl) as Hmk2. destruct Hmk, Hmk2.
      assert (mk' = mk) as -> by congruence. congruence.
  - apply Z.eqb_neq in Eg. apply wp_ret. split; [apply lookup_insert_eq|]. rewrite Hback. wpsteps.
    split; [done|]. split; [done|].
    split; [intros Hv|intros Hu Hg]; exfalso.
    + rewrite (rs_stable _ _ Hs) in Eg by apply Hv. destruct Hv as (_ & ? & _). done.
    + by rewrite (rs_stable _ _ Hs) in Eg.
Qed.

(** The buffer after [sealAuthenticate]: a nonce, and on success the valid tag. *)
Record authenticated (w : world) (p : Z) (st : bufferState) (m : mapping) (e : option gerr) (w' : world)
    (st' : bufferState) : Prop := Authenticated {
  au_ok : world_ok w';
  au_core : bcore w' p st' m;
  au_frame : forall F, (~ usable w -> fp_sub (ring_fp w) F) -> p ∈ fp_bufs F -> frame F w w';
  au_ring : usable w' \/ ~ usable w /\ fp_sub (ring_fp w') (ring_fp w);
  au_keys : jn_nextKey (w_jan w') <= jn_nextKey (w_jan w) + 1;
  au_st : exists g n t, st' = bs_set_tagged (match e with None => true | Some _ => bs_sealTagged st end) (bs_set_seal g n t st) /\
            (zlen (bs_sealNonce st) = sealNonceLen -> zlen n = sealNonceLen);
  au_valid : e = None -> seal_valid w' st' m
}.

Lemma bs_set_tagged_id st : bs_set_tagged (bs_sealTagged st) st = st.
Proof. by destruct st. Qed.

Lemma wp_sealAuthenticate p st m w :
  world_ok w -> key_room w 1 -> bcore w p st m -> readable m = true ->
  returns (sealAuthenticate p) w (fun e w' => exists st', authenticated w p st m e w' st').
Proof.
  intros W Hroom B Hr. unfold sealAuthenticate, returns. apply wp_bind.
  apply wp_rand_Read.
  { intros e. wpsteps. exists st. constructor; [by apply world_ok_tick|by apply bcore_tick|auto with secmem| |cbn; lia| |done].
    - destruct (decide (sk_lock (w_keys w) <> 0 /\ w_flags w !! sk_wiped (w_keys w) = Some false)) as [Hu|Hu];
        [by left|right]. split; [done|apply fp_sub_refl].
    - exists (bs_sealGen st), (bs_sealNonce st), (bs_sealTag st). split; [by destruct st|done]. }
  intros nonce Hn. apply wp_bind, wp_buf_set. set (f1 := fun s => bs_set_seal _ _ _ s).
  set (w1 := set_bufs (alter f1 p) (tick w)).
  assert (world_ok w1) as W1 by by apply world_ok_buf, world_ok_tick.
  assert (bcore w1 p (f1 st) m) as B1 by by apply bcore_set; [apply bcore_tick|..].
  assert (zlen nonce = sealNonceLen) as Hzn by (unfold zlen; rewrite Hn; done).
  assert (forall w2 F, ring_step w1 w2 -> (~ usable w -> fp_sub (ring_fp w) F) -> p ∈ fp_bufs F -> frame F w w2) as F2.
  { intros w2 F Hs HF Hp. eapply frame_trans; [apply frame_tick|]. eapply frame_trans; [by apply frame_buf|].
    by apply (ring_step_frame F w1). }
  apply wp_bind, wp_withPrekey; [done|done|..].
  - intros e w2 Hnu Hs. wpsteps. exists (f1 st). constructor; try done.
    + apply Hs.
    + by eapply bcore_ring_step.
    + auto.
    + destruct (rs_fp _ _ Hs) as [?|?]; [by left|by right].
    + apply (rs_keys _ _ Hs).
    + exists (bs_sealGen st), nonce, (bs_sealTag st). done.
  - intros w2 mk Hs Hu Hl. pose proof (bcore_ring_step _ _ _ _ _ W1 B1 Hs) as B2.
    apply wp_bind, wp_buf_set. set (gen := sk_gen (w_keys w2)). set (f2 := fun s => bs_set_seal gen _ _ s).
    apply wp_bind. eapply wp_mem_load; [apply (rv_map _ _ _ Hl)|by eapply ring_readable|].
    apply wp_bind. eapply wp_buf_get; [cbn; rewrite lookup_alter_eq, (bc_st _ _ _ _ B2); reflexivity|].
    apply wp_bind. eapply wp_mem_load; [apply B2|done|].
    apply wp_bind, wp_buf_set. set (f3 := fun s => bs_set_seal _ _ (sealComputeTag _ _ _ _) s). apply wp_ret.
    split; [apply lookup_insert_eq|]. apply wp_bind, wp_buf_set, wp_ret.
    set (g := fun w => set_bufs (alter f3 p) (set_bufs (alter f2 p) w)).
    change (set_bufs (alter f3 p) (set_bufs (alter f2 p) (borrowed w2))) with (g (borrowed w2)).
    unfold borrowed. rewrite (relock_id w2 g) by (try done; apply Hl). unfold g.
    assert (seal_valid w2 (f3 (f2 (f1 st))) m) as Hv.
    { split; [done|]. split; [done|]. exists mk. split; [apply Hl|done]. }
    exists (bs_set_tagged true (f3 (f2 (f1 st)))). constructor.
    + do 3 apply world_ok_buf. apply Hs.
    + apply (bcore_set (bs_set_tagged true)); try done. do 2 (apply bcore_set; try done).
    + intros F HF Hp. eapply frame_trans; [by apply F2|].
      do 2 (eapply frame_trans; [by apply frame_buf|]). by apply frame_buf.
    + by left.
    + apply (rs_keys _ _ Hs).
    + eexists _, _, _. split; [reflexivity|done].
    + intros _. destruct Hv as (H1 & H2 & mk' & [] & H3). split; [done|]. split; [done|]. exists mk'. by split.
Qed.
End ring.
