(* ===== verification/SecureBuffer.v ===== *)
(** * Secure buffers (securebuf.go, securebuf_access.go, closedatrest.go, options.go)

    One definition per method. A method gets the handle the caller holds: a nil
    pointer, a zero value with no state, or a reference to a state record.
    Callbacks, readers and writers are arbitrary actions. [clearRegisters] has
    no effect on this state. *)
From S2P Require Import Prelude Errors Canary World Memory Frame Sample Quarantine Janitor Process SealAuth.

Inductive SecureBuffer : Type := NilRecv | ZeroValue | Ref (p : Z).

(** ** Options *)

Definition cfg_zero : cfg := Cfg false false false false.
Definition Option : Type := cfg -> cfg.

Definition WithInsecureFallback : Option := fun c =>
  Cfg true (unauthenticatedSeal c) (closedAtRestOpt c) (noMemfdSecret c).
Definition WithUnauthenticatedSeal : Option := fun c =>
  Cfg (insecureFallback c) true (closedAtRestOpt c) (noMemfdSecret c).
Definition WithClosedAtRest : Option := fun c =>
  Cfg (insecureFallback c) (unauthenticatedSeal c) true (noMemfdSecret c).
Definition WithoutMemfdSecret : Option := fun c =>
  Cfg (insecureFallback c) (unauthenticatedSeal c) (closedAtRestOpt c) true.

Definition applyOptions (opts : list (option Option)) : cfg :=
  foldl (fun c o => match o with Some o => o c | None => c end) cfg_zero opts.

Definition gateInsecure (platformSecure : bool) (c : cfg) : option gerr :=
  if platformSecure then None
  else if negb (insecureFallback c) then Some (Sent ErrNoSecureMemory)
  else None.

(** The Linux and Windows ports have secure memory. *)
Definition platformHasSecureMemory : bool := true.

(** [defer func() { if cerr := fin(); retErr == nil { retErr = cerr } }()] in
    front of [m]. *)
Definition defer_err (m fin : GM (option gerr)) : GM (option gerr) := fun w =>
  match m w with
  | Ret r w' => (cerr ← fin; mret match r with None => cerr | Some _ => r end) w'
  | Panic w' =>
      match fin w' with
      | Ret _ w'' => Panic w''
      | Panic w'' => Panic w''
      | Fault => Fault
      | Block => Block
      end
  | Fault => Fault
  | Block => Block
  end.

Section buffers.
Context `{Kernel}.

Definition cfg_alloc (c : cfg) (size : Z) : GM (gerr + (secRegion * Z * allocInfo)) :=
  if noMemfdSecret c then allocMapAnon size else allocSecretMem size.

(** ** Closed at rest *)

Definition restProtection (st : bufferState) : Z :=
  if bs_closedAtRest st then PROT_NONE else if bs_readOnly st then PROT_READ else PROT_RW.

Definition open (p : Z) : GM (option gerr) :=
  st ← buf_get p;
  if negb (bs_closedAtRest st) then mret None
  else
  err ← (if (bs_openers st =? 0) then
           err ← mprotectSecretMem (bs_region st) (if bs_readOnly st then PROT_READ else PROT_RW);
           match err with
           | Some e => mret (Some (errorf "secmem: opening a closed-at-rest buffer" e))
           | None =>
               err ← relockSecretMem (bs_region st);
               match err with
               | Some e =>
                   _ ← mprotectSecretMem (bs_region st) PROT_NONE;
                   mret (Some (errorf "secmem: opening a closed-at-rest buffer: restoring the page lock" e))
               | None => mret None
               end
           end
         else mret None);
  match err with
  | Some e => mret (Some e)
  | None => buf_set p (fun s => bs_set_openers (bs_openers s + 1) s);; mret None
  end.

Definition close (p : Z) : GM (option gerr) :=
  st ← buf_get p;
  if negb (bs_closedAtRest st) then mret None
  else
  buf_set p (fun s => bs_set_openers (bs_openers s - 1) s);;
  if (0 <? bs_openers st - 1) then mret None
  else
  err ← mprotectSecretMem (bs_region st) PROT_NONE;
  mret (errorf "secmem: closing a closed-at-rest buffer" <$> err).

(** A slice of a region's inner bytes: the callback's argument. *)
Definition callback (A : Type) : Type := secRegion -> Z -> GM A.

Definition borrowClosed (p : Z) (fn : callback (option gerr)) : GM (option gerr) :=
  err ← open p;
  match err with
  | Some e => mret (Some e)
  | None => defer_err (st ← buf_get p; fn (bs_region st) (default 0 (bs_data st))) (close p)
  end.

(** [copyClosed]: the copy runs between open and close. *)
Definition copyClosed {A} (p : Z) (none : A) (cp : GM A) : GM (A * option gerr) :=
  err ← open p;
  match err with
  | Some e => mret (none, Some e)
  | None => r ← cp; cerr ← close p; mret (r, cerr)
  end.

Definition equalClosed (p : Z) (cmp : GM bool) : GM (bool * option gerr) := copyClosed p false cmp.

(** [copy(dst, data[off:])] out of the region, and [copy(data[off:], src)] into
    it; an empty copy touches no memory. *)
Definition copy_from (st : bufferState) (off hi : Z) (dst : list Z) : GM (Z * list Z) :=
  let n := Z.min (zlen dst) (hi - off) in
  if (n <=? 0) then mret (0, dst)
  else bs ← mem_load (rg_base (bs_region st)); mret (n, lset 0 (lsub off (off + n) bs) dst).

Definition copy_to (st : bufferState) (off hi : Z) (src : list Z) : GM Z :=
  let n := Z.min (zlen src) (hi - off) in
  mem_copy_in (rg_base (bs_region st)) off (firstn (Z.to_nat n) src);; mret n.

Definition store (p : Z) (off hi : Z) (src : list Z) : GM (Z * option gerr) :=
  st ← buf_get p;
  if bs_closedAtRest st then copyClosed p 0 (copy_to st off hi src)
  else n ← copy_to st off hi src; mret (n, None).

(** ** Lifecycle *)

Definition Destroy (s : SecureBuffer) : GM (option gerr) :=
  match s with
  | NilRecv | ZeroValue => mret None
  | Ref p =>
      st ← buf_get p;
      lk_lock (bs_mu st);;
      defer (
        st ← buf_get p;
        if (rg_inner (bs_region st) =? 0) then mret None
        else
        wiped ← flag_load (bs_wiped st);
        let verify := bs_sealed st && bs_sealTagged st && negb wiped in
        ciph ← flag_load (bs_sealCipher st);
        integrityErr ← (
          if verify || ciph then
            err ← mprotectSecretMem (bs_region st) PROT_RW;
            match err with
            | Some _ => mret None
            | None =>
                _ ← relockSecretMem (bs_region st);
                ie ← (if verify then
                        verr ← sealVerify p;
                        mret (if is_err verr ErrIntegrity then verr else None)
                      else mret None);
                c ← flag_load (bs_sealCipher st);
                (if (c : bool) then
                   derr ← sealDecrypt (bs_region st);
                   match derr with
                   | None => flag_store (bs_sealCipher st) false
                   | Some _ => mret tt
                   end
                 else mret tt);;
                mret ie
            end
          else mret None);
        rerr ← release (bs_janitorKey st) true;
        buf_set p (bs_set_data None secRegion_nil);;
        mret (errorf "secmem.SecureBuffer.Destroy" <$> errorsJoin [integrityErr; rerr])
      ) (lk_unlock (bs_mu st))
  end.

Definition newSecureBuffer (region : secRegion) (len : Z) (backing : allocInfo) (c : cfg) : GM (gerr + SecureBuffer) :=
  mu ← new_lock;
  sealCipher ← new_flag;
  wiped ← new_flag;
  let backing := AllocInfo (ai_offHeap backing) (ai_mlocked backing) (ai_memfdSecret backing) (ai_noDump backing)
    (ai_noFork backing) (ai_guardPages backing) (ai_insecure backing) (unauthenticatedSeal c) (ai_closedAtRest backing) in
  p ← gets w_next;
  let canary := bufferCanary len (rg_inner region) in
  rk ← register region canary mu (Some sealCipher) (Some wiped);
  match rk with
  | inl e => wipeInner region;; _ ← freeSecretMem region; mret (inl e)
  | inr key =>
      modify (fun w => set_bufs (insert p
        (BufferState (Some len) region mu key false false sealCipher wiped backing (negb (unauthenticatedSeal c))
           false 0 (zeros sealNonceLen) (zeros sealTagLen) false 0)) (set_next (p + 1) w));;
      if closedAtRestOpt c && negb (ai_insecure backing) then
        err ← mprotectSecretMem region PROT_NONE;
        match err with
        | Some e => _ ← Destroy (Ref p); mret (inl (errorf "secmem: closing a closed-at-rest buffer" e))
        | None =>
            buf_set p (fun s => bs_set_closed (AllocInfo (ai_offHeap backing) (ai_mlocked backing) (ai_memfdSecret backing)
              (ai_noDump backing) (ai_noFork backing) (ai_guardPages backing) (ai_insecure backing)
              (ai_unauthenticatedSeal backing) true) s);;
            mret (inr (Ref p))
        end
      else mret (inr (Ref p))
  end.

Definition fillInitial (p : Z) (raw : list Z) : GM (option gerr) :=
  st ← buf_get p;
  lk_lock (bs_mu st);;
  wiped ← flag_load (bs_wiped st);
  if (wiped : bool) then lk_unlock (bs_mu st);; _ ← Destroy (Ref p); mret (Some (Sent ErrWiped))
  else
  err ← open p;
  match err with
  | Some e => lk_unlock (bs_mu st);; _ ← Destroy (Ref p); mret (Some e)
  | None =>
      st ← buf_get p;
      _ ← copy_to st 0 (default 0 (bs_data st)) raw;
      err ← close p;
      lk_unlock (bs_mu st);;
      match err with
      | Some e => _ ← Destroy (Ref p); mret (Some e)
      | None => mret None
      end
  end.

(** [fillCanary(region.inner[len(data):])]. *)
Definition armSlack (region : secRegion) (len : Z) : GM (option gerr) :=
  if (rg_inner region <=? len) then mret None
  else
  err ← canaryInit;
  match err with
  | Some e => mret (Some e)
  | None =>
      st ← gets w_canary;
      mem_copy_in (rg_base region) len (patternBytes (cn_pattern st) (Z.to_nat (rg_inner region - len)));;
      mret None
  end.

(** The common part of the two constructors: allocate, arm, wrap. *)
Definition allocBuffer (ctx : string) (size : Z) (opts : list (option Option)) : GM (gerr + SecureBuffer) :=
  let c := applyOptions opts in
  match gateInsecure platformHasSecureMemory c with
  | Some e => mret (inl (errorf ctx e))
  | None =>
      r ← cfg_alloc c size;
      match r with
      | inl e => mret (inl (errorf ctx e))
      | inr (region, len, info) =>
          err ← armSlack region len;
          match err with
          | Some e => _ ← freeSecretMem region; mret (inl (errorf ctx e))
          | None => newSecureBuffer region len info c
          end
      end
  end.

(** [NewBuffer]: the result and the caller's slice afterwards. *)
Definition NewBuffer (raw : list Z) (opts : list (option Option)) : GM ((gerr + SecureBuffer) * list Z) :=
  if (zlen raw =? 0) then mret (inl (Msg "secmem.NewBuffer: empty input"), raw)
  else
  let wiped := (secureWipe 0 raw).1 in
  r ← allocBuffer "secmem.NewBuffer" (zlen raw) opts;
  match r with
  | inr (Ref p) =>
      err ← fillInitial p raw;
      match err with
      | Some e => mret (inl (errorf "secmem.NewBuffer" e), wiped)
      | None => mret (inr (Ref p), wiped)
      end
  | r => mret (r, wiped)
  end.

Definition NewEmptyBuffer (size : Z) (opts : list (option Option)) : GM (gerr + SecureBuffer) :=
  if (size <=? 0) then mret (inl (Msg "secmem.NewEmptyBuffer: invalid size"))
  else allocBuffer "secmem.NewEmptyBuffer" size opts.

Definition IsDestroyed (s : SecureBuffer) : GM bool :=
  match s with
  | NilRecv | ZeroValue => mret true
  | Ref p =>
      st ← buf_get p;
      lk_rLock (bs_mu st);;
      defer (st ← buf_get p; mret (rg_inner (bs_region st) =? 0)) (lk_rUnlock (bs_mu st))
  end.

Definition Len (s : SecureBuffer) : GM Z :=
  match s with
  | NilRecv | ZeroValue => mret 0
  | Ref p =>
      st ← buf_get p;
      lk_rLock (bs_mu st);;
      defer (st ← buf_get p; mret (default 0 (bs_data st))) (lk_rUnlock (bs_mu st))
  end.

Definition MappedLen (s : SecureBuffer) : GM Z :=
  match s with
  | NilRecv | ZeroValue => mret 0
  | Ref p =>
      st ← buf_get p;
      lk_rLock (bs_mu st);;
      defer (st ← buf_get p; mret (rg_inner (bs_region st))) (lk_rUnlock (bs_mu st))
  end.

(** The guards ReadOnly, ReadWrite, Seal, Unseal and Truncate start with: the
    exclusive lock, then destroyed before wiped. *)
Definition exclusive (name : string) (s : SecureBuffer) (body : Z -> bufferState -> GM (option gerr)) : GM (option gerr) :=
  match s with
  | NilRecv => mret (Some (Msg (name ++ ": nil receiver")))
  | ZeroValue => mret (Some (errorf name (Sent ErrDestroyed)))
  | Ref p =>
      st ← buf_get p;
      lk_lock (bs_mu st);;
      defer (
        st ← buf_get p;
        if (rg_inner (bs_region st) =? 0) then mret (Some (errorf name (Sent ErrDestroyed)))
        else
        wiped ← flag_load (bs_wiped st);
        if (wiped : bool) then mret (Some (errorf name (Sent ErrWiped)))
        else body p st) (lk_unlock (bs_mu st))
  end.

Definition ReadOnly (s : SecureBuffer) : GM (option gerr) :=
  exclusive "secmem.SecureBuffer.ReadOnly" s (fun p st =>
    if bs_sealed st then mret (Some (errorf "secmem.SecureBuffer.ReadOnly" (Sent ErrSealed)))
    else
    err ← (if negb (bs_closedAtRest st) then mprotectSecretMem (bs_region st) PROT_READ else mret None);
    match err with
    | Some e => mret (Some (errorf "secmem.SecureBuffer.ReadOnly" e))
    | None => buf_set p (bs_set_readOnly true);; mret None
    end).

Definition ReadWrite (s : SecureBuffer) : GM (option gerr) :=
  exclusive "secmem.SecureBuffer.ReadWrite" s (fun p st =>
    if bs_sealed st then mret (Some (errorf "secmem.SecureBuffer.ReadWrite" (Sent ErrSealed)))
    else
    err ← (if negb (bs_closedAtRest st) then mprotectSecretMem (bs_region st) PROT_RW else mret None);
    match err with
    | Some e => mret (Some (errorf "secmem.SecureBuffer.ReadWrite" e))
    | None => buf_set p (bs_set_readOnly false);; mret None
    end).

Definition sealProtect (r : secRegion) : GM (option gerr) := mprotectSecretMem r PROT_NONE.
Definition unsealRestoreReadOnly (r : secRegion) (prot : Z) : GM (option gerr) := mprotectSecretMem r prot.

Definition reapplyReadOnly (p : Z) : GM unit :=
  st ← buf_get p;
  let prot := restProtection st in
  if negb (prot =? PROT_RW) then _ ← mprotectSecretMem (bs_region st) prot; mret tt else mret tt.

Definition rollbackSeal (p : Z) (applied : bool) (cause : gerr) : GM (option gerr) :=
  st ← buf_get p;
  derr ← (if applied then sealDecrypt (bs_region st) else mret None);
  match derr with
  | Some d =>
      buf_set p (bs_set_sealed true);;
      reapplyReadOnly p;;
      mret (Some (Wrap "secmem.SecureBuffer.Seal" [cause; d]))
  | None =>
      (if applied then flag_store (bs_sealCipher st) false else mret tt);;
      buf_set p (bs_set_tagged false);;
      reapplyReadOnly p;;
      mret (Some (errorf "secmem.SecureBuffer.Seal" cause))
  end.

(** The last part of [Seal]: tag the bytes at rest, close the pages, mark. *)
Definition sealFinish (p : Z) (st : bufferState) (applied : bool) : GM (option gerr) :=
  err ← (if bs_sealAuth st then sealAuthenticate p else mret None);
  match err with
  | Some e => rollbackSeal p applied e
  | None =>
      err ← sealProtect (bs_region st);
      match err with
      | Some e => rollbackSeal p applied e
      | None => buf_set p (bs_set_sealed true);; mret None
      end
  end.

(** Its middle part, with the region writable: encrypt, note it, finish. *)
Definition sealApply (p : Z) (st : bufferState) : GM (option gerr) :=
  buf_set p (bs_set_tagged false);;
  r ← sealEncrypt (bs_region st);
  match r with
  | inl e => reapplyReadOnly p;; mret (Some (errorf "secmem.SecureBuffer.Seal" e))
  | inr applied =>
      (if applied then flag_store (bs_sealCipher st) true else mret tt);;
      sealFinish p st applied
  end.

Definition sealLocked (p : Z) (st : bufferState) : GM (option gerr) :=
  if bs_sealed st then mret None
  else
  ciph ← flag_load (bs_sealCipher st);
  if (ciph : bool) then
    buf_set p (bs_set_sealed true);;
    mret (Some (Msg "secmem.SecureBuffer.Seal: contents are already seal-cipher ciphertext"))
  else
  err ← (if bs_readOnly st || bs_closedAtRest st then mprotectSecretMem (bs_region st) PROT_RW else mret None);
  match err with
  | Some e => mret (Some (errorf "secmem.SecureBuffer.Seal" e))
  | None => sealApply p st
  end.

Definition Seal (s : SecureBuffer) : GM (option gerr) := exclusive "secmem.SecureBuffer.Seal" s sealLocked.

Definition unsealFail (e : gerr) : GM (option gerr) := mret (Some (errorf "secmem.SecureBuffer.Unseal" e)).

(** An [Unseal] that gives up with the pages open closes them again. *)
Definition unsealShut (st : bufferState) (e : gerr) : GM (option gerr) :=
  _ ← mprotectSecretMem (bs_region st) PROT_NONE; unsealFail e.

(** Its last part, with the plaintext in place: the protection of the buffer's
    mode, or the whole way back to the sealed state. *)
Definition unsealFinish (p : Z) (st : bufferState) : GM (option gerr) :=
  let rest := restProtection st in
  err ← (if negb (rest =? PROT_RW) then unsealRestoreReadOnly (bs_region st) rest else mret None);
  match err with
  | Some e =>
      r ← sealEncrypt (bs_region st);
      (match r with inr true => flag_store (bs_sealCipher st) true | _ => mret tt end);;
      buf_set p (bs_set_tagged false);;
      (if bs_sealAuth st then _ ← sealAuthenticate p; mret tt else mret tt);;
      _ ← sealProtect (bs_region st);
      unsealFail e
  | None =>
      buf_set p (fun s => bs_set_tagged false (bs_set_sealed false s));;
      mret None
  end.

(** Its middle part, with the pages open and locked: verify, then decrypt. *)
Definition unsealVerified (p : Z) (st : bufferState) : GM (option gerr) :=
  err ← (if bs_sealTagged st then sealVerify p else mret None);
  match err with
  | Some e => unsealShut st e
  | None =>
      ciph ← flag_load (bs_sealCipher st);
      if (ciph : bool) then
        err ← sealDecrypt (bs_region st);
        match err with
        | Some e => unsealShut st e
        | None => flag_store (bs_sealCipher st) false;; unsealFinish p st
        end
      else unsealFinish p st
  end.

Definition unsealLocked (p : Z) (st : bufferState) : GM (option gerr) :=
  if negb (bs_sealed st) then mret None
  else
  err ← mprotectSecretMem (bs_region st) PROT_RW;
  match err with
  | Some e => unsealFail e
  | None =>
      err ← relockSecretMem (bs_region st);
      match err with
      | Some e => unsealShut st e
      | None => unsealVerified p st
      end
  end.

Definition Unseal (s : SecureBuffer) : GM (option gerr) := exclusive "secmem.SecureBuffer.Unseal" s unsealLocked.

Definition IsSealed (s : SecureBuffer) : GM bool :=
  match s with
  | NilRecv | ZeroValue => mret false
  | Ref p =>
      st ← buf_get p;
      lk_rLock (bs_mu st);;
      defer (st ← buf_get p; mret (bs_sealed st)) (lk_rUnlock (bs_mu st))
  end.

Definition Truncate (s : SecureBuffer) (n : Z) : GM (option gerr) :=
  exclusive "secmem.SecureBuffer.Truncate" s (fun p st =>
    let fail e := mret (Some (errorf "secmem.SecureBuffer.Truncate" e)) in
    let len := default 0 (bs_data st) in
    if bs_sealed st then fail (Sent ErrSealed)
    else if bs_readOnly st then fail (Sent ErrReadOnly)
    else if (n <? 0) || (len <? n) then mret (Some (Msg "secmem.SecureBuffer.Truncate: n out of range"))
    else
    err ← (if (0 <? len - n) then
             err ← open p;
             match err with
             | Some e => mret (Some e)
             | None => secureWipeSlice (rg_base (bs_region st)) n len;; close p
             end
           else mret None);
    match err with
    | Some e => fail e
    | None => buf_set p (fun s => bs_set_data (Some n) (bs_region s) s);; mret None
    end).
End buffers.
