(* ===== verification/BufferAccess.v ===== *)
(** * Access to a buffer's bytes (securebuf_access.go)

    Borrowing callbacks, copies, single bytes, comparison and streaming. An
    [io.Writer] is an action on the bytes handed to it; a reader is the action
    of [io.ReadFull] into a slice of the given length, which hands over the
    bytes it read and its error. *)
From S2P Require Import Prelude Errors Canary World Memory Frame Sample Quarantine Janitor Process SealAuth SecureBuffer.

Section access.
Context `{Kernel}.

(** The state an accessor finds under the lock: an error, or the buffer. *)
Definition guard (p : Z) : GM (gerr + bufferState) :=
  st ← buf_get p;
  match bs_data st with
  | None => mret (inl (Sent ErrDestroyed))
  | Some _ =>
      wiped ← flag_load (bs_wiped st);
      if (wiped : bool) then mret (inl (Sent ErrWiped))
      else if bs_sealed st then mret (inl (Sent ErrSealed))
      else mret (inr st)
  end.

(** The read-locked accessors. *)
Definition shared {A} (s : SecureBuffer) (none : gerr -> A) (body : Z -> bufferState -> GM A) : GM A :=
  match s with
  | NilRecv | ZeroValue => mret (none (Sent ErrDestroyed))
  | Ref p =>
      st ← buf_get p;
      lk_rLock (bs_mu st);;
      defer (
        r ← guard p;
        match r with
        | inl e => mret (none e)
        | inr st => body p st
        end) (lk_rUnlock (bs_mu st))
  end.

(** The write-locked ones, which refuse a read-only buffer. *)
Definition mutating {A} (s : SecureBuffer) (none : gerr -> A) (body : Z -> bufferState -> GM A) : GM A :=
  match s with
  | NilRecv | ZeroValue => mret (none (Sent ErrDestroyed))
  | Ref p =>
      st ← buf_get p;
      lk_lock (bs_mu st);;
      defer (
        r ← guard p;
        match r with
        | inl e => mret (none e)
        | inr st => if bs_readOnly st then mret (none (Sent ErrReadOnly)) else body p st
        end) (lk_unlock (bs_mu st))
  end.

Definition WithBytes (s : SecureBuffer) (fn : option (callback unit)) : GM (option gerr) :=
  match fn with
  | None => mret (Some (Msg "secmem.SecureBuffer.WithBytes: nil fn"))
  | Some fn =>
      shared s Some (fun p st =>
        if bs_closedAtRest st then borrowClosed p (fun r n => fn r n;; mret None)
        else fn (bs_region st) (default 0 (bs_data st));; mret None)
  end.

Definition WithBytesErr (s : SecureBuffer) (fn : option (callback (option gerr))) : GM (option gerr) :=
  match fn with
  | None => mret (Some (Msg "secmem.SecureBuffer.WithBytesErr: nil fn"))
  | Some fn =>
      shared s Some (fun p st =>
        if bs_closedAtRest st then borrowClosed p fn
        else fn (bs_region st) (default 0 (bs_data st)))
  end.

(** [ExposeString]: the callback copies the bytes into a string variable. *)
Definition ExposeString (s : SecureBuffer) : GM (gerr + list Z) :=
  match s with
  | NilRecv | ZeroValue => mret (inl (Sent ErrDestroyed))
  | Ref p =>
      let read (r : secRegion) (n : Z) : GM (list Z) :=
        if (n <=? 0) then mret [] else bs ← mem_load (rg_base r); mret (lsub 0 n bs) in
      shared s inl (fun p st =>
        let n := default 0 (bs_data st) in
        if bs_closedAtRest st then
          r ← copyClosed p [] (read (bs_region st) n);
          mret match r.2 with Some e => inl e | None => inr r.1 end
        else b ← read (bs_region st) n; mret (inr b))
  end.

(** [CopyOut]: the count, the error and the destination afterwards. *)
Definition CopyOut (s : SecureBuffer) (dst : list Z) (srcOffset : Z) : GM (Z * option gerr * list Z) :=
  shared s (fun e => (0, Some e, dst)) (fun p st =>
    let len := default 0 (bs_data st) in
    if (srcOffset <? 0) || (len <=? srcOffset)
    then mret (0, Some (Msg "secmem.SecureBuffer.CopyOut: srcOffset out of range"), dst)
    else if bs_closedAtRest st then
      r ← copyClosed p (0, dst) (copy_from st srcOffset len dst);
      mret (r.1.1, r.2, r.1.2)
    else r ← copy_from st srcOffset len dst; mret (r.1, None, r.2)).

Definition CopyIn (s : SecureBuffer) (src : list Z) (dstOffset : Z) : GM (Z * option gerr) :=
  mutating s (fun e => (0, Some e)) (fun p st =>
    let len := default 0 (bs_data st) in
    if (dstOffset <? 0) || (len <=? dstOffset)
    then mret (0, Some (Msg "secmem.SecureBuffer.CopyIn: dstOffset out of range"))
    else store p dstOffset len src).

Definition ByteAt (s : SecureBuffer) (i : Z) : GM (Z * option gerr) :=
  shared s (fun e => (0, Some e)) (fun p st =>
    let len := default 0 (bs_data st) in
    if (i <? 0) || (len <=? i)
    then mret (0, Some (Msg "secmem.SecureBuffer.ByteAt: index out of range"))
    else if bs_closedAtRest st then
      r ← copyClosed p (0, [0]) (copy_from st i (i + 1) [0]);
      mret (r.1.2 !!! 0%nat, r.2)
    else bs ← mem_load (rg_base (bs_region st)); mret (bs !!! Z.to_nat i, None)).

Definition SetByteAt (s : SecureBuffer) (i v : Z) : GM (option gerr) :=
  mutating s Some (fun p st =>
    let len := default 0 (bs_data st) in
    if (i <? 0) || (len <=? i)
    then mret (Some (Msg "secmem.SecureBuffer.SetByteAt: index out of range"))
    else r ← store p i (i + 1) [v]; mret r.2).

Definition ConstantTimeEqual (s : SecureBuffer) (other : list Z) : GM (bool * option gerr) :=
  shared s (fun e => (false, Some e)) (fun p st =>
    let len := default 0 (bs_data st) in
    let cmp : GM bool :=
      if (len <=? 0) then mret (bool_decide (other = []))
      else bs ← mem_load (rg_base (bs_region st)); mret (bool_decide (lsub 0 len bs = other)) in
    if negb (len =? zlen other) then mret (false, None)
    else if bs_closedAtRest st then equalClosed p cmp
    else b ← cmp; mret (b, None)).

(** [WriteTo]: the bytes are copied out under the read lock, the writer runs
    after it is dropped. *)
Definition WriteTo (s : SecureBuffer) (write : list Z -> GM (Z * option gerr)) : GM (Z * option gerr) :=
  match s with
  | NilRecv | ZeroValue => mret (0, Some (Sent ErrDestroyed))
  | Ref p =>
      st ← buf_get p;
      lk_rLock (bs_mu st);;
      r ← guard p;
      match r with
      | inl e => lk_rUnlock (bs_mu st);; mret (0, Some e)
      | inr st =>
          err ← open p;
          match err with
          | Some e => lk_rUnlock (bs_mu st);; mret (0, Some e)
          | None =>
              let len := default 0 (bs_data st) in
              c ← copy_from st 0 len (zeros len);
              cerr ← close p;
              lk_rUnlock (bs_mu st);;
              match cerr with
              | Some e => mret (0, Some e)
              | None => write c.2
              end
          end
      end
  end.

(** [ReadFrom]: the source is read with no lock held, then copied in. *)
Definition ReadFrom (s : SecureBuffer) (readFull : Z -> GM (list Z * option gerr)) : GM (Z * option gerr) :=
  match s with
  | NilRecv | ZeroValue => mret (0, Some (Sent ErrDestroyed))
  | Ref p =>
      let check : GM (gerr + bufferState) :=
        r ← guard p;
        mret match r with
             | inl e => inl e
             | inr st => if bs_readOnly st then inl (Sent ErrReadOnly) else inr st
             end in
      st0 ← buf_get p;
      lk_rLock (bs_mu st0);;
      r ← check;
      lk_rUnlock (bs_mu st0);;
      match r with
      | inl e => mret (0, Some e)
      | inr st =>
          rd ← readFull (default 0 (bs_data st));
          let tmp := rd.1 in
          let err := if is_err rd.2 ErrUnexpectedEOF || is_err rd.2 EOF then None else rd.2 in
          match err with
          | Some e => mret (zlen tmp, Some e)
          | None =>
              lk_lock (bs_mu st0);;
              r ← check;
              match r with
              | inl e => lk_unlock (bs_mu st0);; mret (0, Some e)
              | inr _ =>
                  err ← open p;
                  match err with
                  | Some e => lk_unlock (bs_mu st0);; mret (0, Some e)
                  | None =>
                      st ← buf_get p;
                      n ← copy_to st 0 (default 0 (bs_data st)) tmp;
                      cerr ← close p;
                      lk_unlock (bs_mu st0);;
                      mret (n, cerr)
                  end
              end
          end
      end
  end.

Definition NewBufferFromReader (readFull : Z -> GM (list Z * option gerr)) (size : Z)
    (opts : list (option Option)) : GM (gerr + SecureBuffer) :=
  r ← NewEmptyBuffer size opts;
  match r with
  | inl e => mret (inl e)
  | inr buf =>
      r ← ReadFrom buf readFull;
      let '(n, err) := r in
      let err := match err with None => if (n =? 0) then Some (Sent EOF) else None | Some e => Some e end in
      err ← (match err with
             | None => if (n <? size) then Truncate buf n else mret None
             | Some e => mret (Some e)
             end);
      match err with
      | Some e => _ ← Destroy buf; mret (inl e)
      | None => mret (inr buf)
      end
  end.
End access.
