(* ===== verification/BufferSpec.v ===== *)
(** * What a secure buffer keeps true

    The invariant of a buffer between operations, the state of one inside an
    operation that holds its lock, and the effect of every primitive step on
    it. *)
From S2P Require Import Prelude Errors Canary World Memory Frame Sample Quarantine Janitor Process SealAuth SecureBuffer.

(** What no operation but Destroy and the constructors changes. *)
Record same_id (s t : bufferState) : Prop := SameId {
  si_region : bs_region t = bs_region s;
  si_mu : bs_mu t = bs_mu s;
  si_key : bs_janitorKey t = bs_janitorKey s;
  si_ciph : bs_sealCipher t = bs_sealCipher s;
  si_wiped : bs_wiped t = bs_wiped s;
  si_auth : bs_sealAuth t = bs_sealAuth s;
  si_closed : bs_closedAtRest t = bs_closedAtRest s;
  si_nonce : zlen (bs_sealNonce s) = sealNonceLen -> zlen (bs_sealNonce t) = sealNonceLen
}.

Lemma same_id_refl s : same_id s s.
Proof. done. Qed.
Lemma same_id_trans s t u : same_id s t -> same_id t u -> same_id s u.
Proof. intros [] []. constructor; try congruence. auto. Qed.

Section spec.
Context `{K : Kernel} {KOk : KernelOk}.
Implicit Types (w : world) (st : bufferState) (m : mapping).

(** What an operation on the buffer at [p] may touch. *)
Definition own_fp (p : Z) st : footprint :=
  FP {[rg_base (bs_region st)]} {[bs_sealCipher st]} ∅ ∅ {[p]} ∅.
Definition op_fp (w : world) (p : Z) st : footprint := fp_union (own_fp p st) (ring_fp w).

(** The buffer in the middle of an operation that started in [w0] with state
    [st0], holds the lock, and has made at most [k] registrations. [c]: the
    contents are ciphertext. *)
Record inside (w0 : world) (p : Z) (st0 : bufferState) (k : Z) (w : world) st m (c : bool) : Prop := Inside {
  in_ok : world_ok w;
  in_core : bcore w p st m;
  in_ciph : w_flags w !! bs_sealCipher st = Some c;
  in_wiped : w_flags w !! bs_wiped st = Some false;
  in_apart : bs_sealCipher st <> bs_wiped st;
  in_frame : frame (op_fp w0 p st0) w0 w;
  in_ring : usable w \/ fp_sub (ring_fp w) (ring_fp w0);
  in_keys : jn_nextKey (w_jan w) <= jn_nextKey (w_jan w0) + k;
  in_same : same_id st0 st;
  in_prot : prot_ok (mp_prot m);
  in_os : c = true -> k_os = Windows;
  in_reg : exists jr, jn_regions (w_jan w) !! bs_janitorKey st = Some jr /\ jr_sealCipher jr = Some (bs_sealCipher st);
  in_idle : k <= 0 -> w_keys w = w_keys w0
}.

(** The prekey's flag is not the buffer's. *)
Lemma inside_flag_apart w0 p st0 k w st m c :
  inside w0 p st0 k w st m c -> sk_lock (w_keys w) <> 0 -> sk_wiped (w_keys w) <> bs_sealCipher st.
Proof.
  intros I Hne E. destruct (bcore_apart _ _ _ _ (in_ok _ _ _ _ _ _ _ _ I) (in_core _ _ _ _ _ _ _ _ I) Hne) as [Hk _].
  destruct (in_reg _ _ _ _ _ _ _ _ I) as (jr & Hj & Hc).
  destruct (wk_ring _ (in_ok _ _ _ _ _ _ _ _ I)) as [?|(mk & Hl)]; [done|].
  destruct (ring_live_jr w mk Hl) as (jr' & Hk' & _ & _ & _ & Ew).
  assert (lookup_any w (bs_janitorKey st) = Some jr) as Hk1 by (unfold lookup_any; by rewrite Hj).
  destruct (jk_inj _ (wk_jan _ (in_ok _ _ _ _ _ _ _ _ I)) _ _ _ _ Hk1 Hk' Hk) as (_ & _ & Hf).
  apply (Hf (bs_sealCipher st)); unfold jr_flags; [rewrite Hc|rewrite Ew, E]; set_solver.
Qed.

Lemma inside_keys_mono w0 p st0 k k' w st m c :
  k <= k' -> inside w0 p st0 k w st m c -> inside w0 p st0 k' w st m c.
Proof. intros Hk []. constructor; try done; [lia|]. intros Hle. apply in_idle0. lia. Qed.

Lemma in_budget w0 p st0 k w st m c : inside w0 p st0 k w st m c -> 0 <= k.
Proof. intros I. pose proof (in_keys _ _ _ _ _ _ _ _ I). pose proof (fr_key _ _ _ (in_frame _ _ _ _ _ _ _ _ I)). lia. Qed.

Lemma usable_eq w w' :
  w_keys w' = w_keys w -> w_flags w' !! sk_wiped (w_keys w) = w_flags w !! sk_wiped (w_keys w) -> usable w <-> usable w'.
Proof. unfold usable. intros -> ->. done. Qed.

Lemma ring_fp_eq w w' : w_keys w' = w_keys w -> ring_fp w' = ring_fp w.
Proof. unfold ring_fp. by intros ->. Qed.

(** The clock. *)
Lemma inside_tick w0 p st0 k w st m c : inside w0 p st0 k w st m c -> inside w0 p st0 k (tick w) st m c.
Proof.
  intros []. constructor; try done; [by apply world_ok_tick|by apply bcore_tick|].
  eapply frame_trans; [done|auto with secmem].
Qed.

(** The buffer's mapping: its contents or its protection. *)
Lemma inside_remap w0 p st0 k w st m c m' :
  inside w0 p st0 k w st m c ->
  zlen (mp_bytes m') = zlen (mp_bytes m) -> mp_held m' = mp_held m -> mp_outer m' = mp_outer m -> prot_ok (mp_prot m') ->
  inside w0 p st0 k (set_mem (insert (rg_base (bs_region st)) m') w) st m' c.
Proof.
  intros [I1 I2 I3 I4 I5 I6 I7 I8 I9 I10 I11 I12] El Eh Eo Hp. pose proof (bcore_apart _ _ _ _ I1 I2) as Hap.
  pose proof (bc_map _ _ _ _ I2) as Hm. constructor; try done.
  - eapply world_ok_remap; try done. intros Hne E. destruct (Hap Hne). congruence.
  - destruct I2 as [B1 B2 B3 B4 B5]. constructor; try done. eapply mapped_with; [done..|]. cbn. apply lookup_insert_eq.
  - eapply frame_trans; [done|]. apply frame_set_mem. cbn. destruct I9. rewrite si_region0. set_solver.
Qed.

(** The buffer's state record. *)
Lemma inside_set w0 p st0 k w st m c f :
  inside w0 p st0 k w st m c -> same_id st (f st) -> inside w0 p st0 k (set_bufs (alter f p) w) (f st) m c.
Proof.
  intros [I1 I2 I3 I4 I5 I6 I7 I8 I9 I10 I11 I12] S. constructor; try done.
  - by apply world_ok_buf.
  - apply bcore_set; try done; apply S.
  - by rewrite (si_ciph _ _ S).
  - by rewrite (si_wiped _ _ S).
  - by rewrite (si_ciph _ _ S), (si_wiped _ _ S).
  - eapply frame_trans; [done|]. apply frame_buf. cbn. set_solver.
  - by eapply same_id_trans.
  - by rewrite (si_ciph _ _ S), (si_key _ _ S).
Qed.

(** The kernel's answer decides, and the error is that answer. *)
Lemma wp_in_mprotect_at w0 p st0 k w st m c prot (Q : option gerr -> world -> Prop) R :
  inside w0 p st0 k w st m c -> prot_ok prot ->
  (forall n w', k_errno (w_tick w) = Some n -> w_tick w' = S (w_tick w) -> inside w0 p st0 k w' st m c ->
     Q (Some (Errno n)) w') ->
  (forall w', k_errno (w_tick w) = None -> w_tick w' = S (w_tick w) -> inside w0 p st0 k w' st (protect prot m) c ->
     Q None w') ->
  wp (mprotectSecretMem (bs_region st) prot) Q R w.
Proof.
  intros I Hp He Hok. eapply wp_mprotect_at; [apply I|done|intros n Hn|intros Hn].
  - by apply He; [..|apply inside_tick].
  - apply Hok; [done|done|]. apply (inside_remap _ _ _ _ _ _ m); [by apply inside_tick|by autorewrite with mapping..].
Qed.

Lemma wp_in_mprotect w0 p st0 k w st m c prot (Q : option gerr -> world -> Prop) R :
  inside w0 p st0 k w st m c -> prot_ok prot ->
  (forall e w', inside w0 p st0 k w' st m c -> touch (rg_base (bs_region st)) w w' -> Q (Some e) w') ->
  (forall w', inside w0 p st0 k w' st (protect prot m) c -> touch (rg_base (bs_region st)) w w' -> Q None w') ->
  wp (mprotectSecretMem (bs_region st) prot) Q R w.
Proof.
  intros I Hp He Hok. eapply wp_mprotect; [apply I|done|intros e|].
  - apply He; [by apply inside_tick|auto with secmem].
  - apply Hok; [|auto with secmem]. apply (inside_remap _ _ _ _ _ _ m); [by apply inside_tick|by autorewrite with mapping..].
Qed.

(** A change at the buffer's own address leaves a tag valid that still covers
    the bytes there. *)
Lemma seal_valid_touch w0 p st0 k w w' st m c st' m' :
  inside w0 p st0 k w st m c -> touch (rg_base (bs_region st)) w w' ->
  bs_sealGen st' = bs_sealGen st -> bs_sealTag st' = bs_sealTag st -> bs_sealNonce st' = bs_sealNonce st ->
  bs_janitorKey st' = bs_janitorKey st -> mp_bytes m' = mp_bytes m ->
  seal_valid w st m -> seal_valid w' st' m'.
Proof.
  intros I [M T] E1 E2 E3 E4 E5 ([Hu1 Hu2] & Hg & mk & Hmk & Ht).
  destruct (bcore_apart _ _ _ _ (in_ok _ _ _ _ _ _ _ _ I) (in_core _ _ _ _ _ _ _ _ I) Hu1) as [_ Hb].
  destruct M as [M1 M2 M3 M4 M5 M6 M7 M8 M9]. split; [|split].
  - unfold usable. by rewrite M7, M1.
  - congruence.
  - exists mk. rewrite M7. split; [|congruence]. destruct Hmk. constructor; try done. by rewrite T.
Qed.

Lemma wp_in_relock_touch w0 p st0 k w st m c (Q : option gerr -> world -> Prop) R :
  inside w0 p st0 k w st m c ->
  (forall e w', inside w0 p st0 k w' st m c -> touch (rg_base (bs_region st)) w w' -> Q (Some e) w') ->
  (forall w' m', mp_bytes m' = mp_bytes m -> mp_prot m' = mp_prot m -> inside w0 p st0 k w' st m' c ->
     touch (rg_base (bs_region st)) w w' -> Q None w') ->
  wp (relockSecretMem (bs_region st)) Q R w.
Proof.
  intros I He Hok. unfold relockSecretMem. destruct k_os; [wpsteps; by eapply Hok; [..|auto with secmem]|].
  destruct (rg_inner (bs_region st) =? 0); [wpsteps; by eapply Hok; [..|auto with secmem]|]. wpsteps.
  eapply wp_k_change; [apply I|intros e|]; wpsteps.
  - apply He; [by apply inside_tick|auto with secmem].
  - eapply (Hok _ (with_locked true m)); [done|done| |auto with secmem].
    apply (inside_remap _ _ _ _ _ _ m); [by apply inside_tick|done..|apply I].
Qed.

(** Only the port that locks the pages again makes a call, and so can fail. *)
Lemma wp_in_relock_at w0 p st0 k w st m c (Q : option gerr -> world -> Prop) R :
  inside w0 p st0 k w st m c ->
  (forall n w', k_errno (w_tick w) = Some n -> w_tick w' = S (w_tick w) -> inside w0 p st0 k w' st m c ->
     Q (Some (errorf "VirtualLock" (Errno n))) w') ->
  (forall w' m', mp_bytes m' = mp_bytes m -> mp_prot m' = mp_prot m -> inside w0 p st0 k w' st m' c -> Q None w') ->
  wp (relockSecretMem (bs_region st)) Q R w.
Proof.
  intros I He Hok. unfold relockSecretMem. destruct k_os; [wpsteps; by eapply Hok|].
  destruct (rg_inner (bs_region st) =? 0); [wpsteps; by eapply Hok|]. wpsteps.
  eapply wp_k_change_at; [apply I|intros n Hn|intros _]; wpsteps.
  - by apply He; [..|apply inside_tick].
  - eapply (Hok _ (with_locked true m)); [done|done|].
    apply (inside_remap _ _ _ _ _ _ m); [by apply inside_tick|done..|apply I].
Qed.

(** The ciphertext flag; the prekey's flag is another one. *)
Lemma inside_flag w0 p st0 k w st m c b :
  inside w0 p st0 k w st m c -> (b = true -> k_os = Windows) ->
  inside w0 p st0 k (set_flags (insert (bs_sealCipher st) b) w) st m b.
Proof.
  intros I Hb. pose proof (inside_flag_apart _ _ _ _ _ _ _ _ I) as Hne.
  destruct I as [I1 I2 I3 I4 I5 I6 I7 I8 I9 I10 I11 I12]. constructor; try done.
  - destruct I1 as [W1 W2 W3 W4 W5 W6 W7 W8 W9 W10]. constructor; try done.
    + by destruct W2.
    + eapply jan_ok_keep; [done|done|..|done].
      * intros k' jr' Hk'. destruct (ro_map _ _ (jk_res _ W3 _ _ Hk')) as (m' & []). exists m'. by constructor.
      * intros k' jr' Hk'. by apply (ro_lock _ _ (jk_res _ W3 _ _ Hk')).
      * intros f Hf. cbn. rewrite lookup_insert_is_Some. destruct (decide (bs_sealCipher st = f)); auto.
    + eapply ring_ok_keep; [done|done|by intros ?? -> ?|by intros ???|done].
    + intros f. cbn. rewrite lookup_insert_is_Some. intros [<-|[_ Hf]]; [|by apply W5]. apply W5. eauto.
  - by destruct I2 as [B1 [] B3 B4 B5].
  - cbn. apply lookup_insert_eq.
  - cbn. by rewrite lookup_insert_ne.
  - eapply frame_trans; [done|]. apply frame_set_flag. cbn. destruct I9. rewrite si_ciph0. set_solver.
  - destruct I7 as [Hu|?]; [left|by right]. apply (usable_eq w); [done| |done]. cbn.
    rewrite lookup_insert_ne; [done|]. apply not_eq_sym, Hne, Hu.
Qed.

Lemma wp_in_flag w0 p st0 k w st m c b (Q : unit -> world -> Prop) R :
  inside w0 p st0 k w st m c -> (b = true -> k_os = Windows) ->
  (forall w', inside w0 p st0 k w' st m b -> Q tt w') -> wp (flag_store (bs_sealCipher st) b) Q R w.
Proof.
  intros I Hb HQ. apply wp_flag_store; [|by apply HQ, (inside_flag _ _ _ _ _ _ _ c)].
  by exists c; apply I.
Qed.

(** The keyring moved on; the buffer did not. *)
Lemma inside_ring w0 p st0 k w st m c w' :
  inside w0 p st0 k w st m c -> ring_step w w' -> inside w0 p st0 (k + 1) w' st m c.
Proof.
  intros I Hs. pose proof (in_budget _ _ _ _ _ _ _ _ I) as Hk. revert I Hs. intros [I1 I2 I3 I4 I5 I6 I7 I8 I9 I10 I11 I12] Hs.
  assert (frame (op_fp w0 p st0) w w') as Fr.
  { apply ring_step_frame; [done|]. intros Hnu. destruct I7 as [?|Hf]; [done|].
    destruct Hf as (? & ? & ? & ? & ? & ?). unfold op_fp. repeat split; set_solver. }
  assert (forall f, f ∉ fp_flags (ring_fp w)) as Hnf by (intros f; unfold ring_fp; destruct (decide _); cbn; set_solver).
  constructor; try done.
  - apply Hs.
  - by eapply bcore_ring_step.
  - by apply (fr_flags _ _ _ (rs_frame _ _ Hs)).
  - by apply (fr_flags _ _ _ (rs_frame _ _ Hs)).
  - by eapply frame_trans.
  - destruct (rs_fp _ _ Hs) as [?|H1]; [by left|].
    destruct I7 as [Hu|H2]; [left; by rewrite (rs_stable _ _ Hs Hu)|right].
    destruct H1 as (? & ? & ? & ? & ? & ?), H2 as (? & ? & ? & ? & ? & ?). repeat split; set_solver.
  - pose proof (rs_keys _ _ Hs). lia.
  - destruct I12 as (jr & Hj & Hc). exists jr. split; [|done]. apply (fr_live _ _ _ (rs_frame _ _ Hs)); [done|].
    unfold ring_fp. destruct (decide _) as [|Hne]; cbn; [set_solver|].
    destruct (bcore_apart _ _ _ _ I1 I2 Hne). set_solver.
  - lia.
Qed.

Lemma in_room w0 p st0 k w st m c : inside w0 p st0 k w st m c -> key_room w0 (k + 1) -> key_room w 1.
Proof. intros I. unfold key_room. pose proof (in_keys _ _ _ _ _ _ _ _ I). lia. Qed.

Lemma wp_in_verify w0 p st0 k w st m c (Q : option gerr -> world -> Prop) R :
  inside w0 p st0 k w st m c -> key_room w0 (k + 1) -> mp_prot m = PROT_RW ->
  (forall e w', inside w0 p st0 (k + 1) w' st m c -> ring_step w w' ->
     (e = None -> seal_valid w' st m) -> (seal_valid w st m -> e = None) ->
     (usable w -> sk_gen (w_keys w) = bs_sealGen st -> e = None \/ e = Some (Sent ErrIntegrity)) -> Q e w') ->
  wp (sealVerify p) Q R w.
Proof.
  intros I Hr Hp HQ. eapply wp_returns.
  - apply (wp_sealVerify p st m); [apply I|by eapply in_room|apply I|].
    apply (prot_rw_access m); [apply (bc_map _ _ _ _ (in_core _ _ _ _ _ _ _ _ I))|done].
  - intros e w' (Hs & H1 & H2 & H3). apply HQ; try done. by eapply inside_ring.
Qed.

Lemma wp_in_auth w0 p st0 k w st m c (Q : option gerr -> world -> Prop) R :
  inside w0 p st0 k w st m c -> key_room w0 (k + 1) -> mp_prot m = PROT_RW ->
  (forall e w' st' g n t, inside w0 p st0 (k + 1) w' st' m c ->
     st' = bs_set_tagged (match e with None => true | Some _ => bs_sealTagged st end) (bs_set_seal g n t st) ->
     (e = None -> seal_valid w' st' m) -> Q e w') ->
  wp (sealAuthenticate p) Q R w.
Proof.
  intros I Hr Hp HQ. eapply wp_returns.
  - apply (wp_sealAuthenticate p st m); [apply I|by eapply in_room|apply I|].
    apply (prot_rw_access m); [apply (bc_map _ _ _ _ (in_core _ _ _ _ _ _ _ _ I))|done].
  - intros e w' (st' & [A1 A2 A3 A4 A5 (g & n & t & Est & Hn) A7]). apply (HQ e w' st' g n t); try done.
    assert (same_id st st') as S by (rewrite Est; by constructor).
    pose proof (in_budget _ _ _ _ _ _ _ _ I) as Hk.
    destruct I as [I1 I2 I3 I4 I5 I6 I7 I8 I9 I10 I11 I12].
    assert (frame (fp_union (ring_fp w) (buf_fp p)) w w') as Fr.
    { apply A3; [intros; apply fp_sub_union_l|cbn; set_solver]. }
    assert (forall f, f ∉ fp_flags (fp_union (ring_fp w) (buf_fp p))) as Hnf.
    { intros f. unfold ring_fp. destruct (decide _); cbn; set_solver. }
    constructor; try done.
    + rewrite (si_ciph _ _ S). by apply (fr_flags _ _ _ Fr).
    + rewrite (si_wiped _ _ S). by apply (fr_flags _ _ _ Fr).
    + by rewrite (si_ciph _ _ S), (si_wiped _ _ S).
    + eapply frame_trans; [done|]. apply A3; [|cbn; set_solver]. intros Hnu. destruct I7 as [?|Hf]; [done|].
      destruct Hf as (? & ? & ? & ? & ? & ?). unfold op_fp. repeat split; set_solver.
    + destruct A4 as [?|[Hnu H1]]; [by left|]. destruct I7 as [Hu|H2]; [by destruct Hnu|]. right.
      destruct H1 as (? & ? & ? & ? & ? & ?), H2 as (? & ? & ? & ? & ? & ?). repeat split; set_solver.
    + lia.
    + by eapply same_id_trans.
    + rewrite (si_ciph _ _ S), (si_key _ _ S). destruct I12 as (jr & Hj & Hc). exists jr. split; [|done].
      apply (fr_live _ _ _ Fr); [done|]. unfold ring_fp. destruct (decide _) as [|Hne]; cbn; [set_solver|].
      destruct (bcore_apart _ _ _ _ I1 I2 Hne). set_solver.
    + lia.
Qed.

(** ** The cipher *)

Lemma wp_in_cipher w0 p st0 k w st m c (f : nat -> list Z -> list Z) (Q : option gerr -> world -> Prop) R :
  inside w0 p st0 k w st m c -> mp_prot m = PROT_RW -> (forall t b, length (f t b) = length b) ->
  (forall e w', inside w0 p st0 k w' st m c -> Q (Some e) w') ->
  (forall t w', inside w0 p st0 k w' st (with_bytes (f t (mp_bytes m)) m) c -> Q None w') ->
  wp (sealCipherCall f (bs_region st)) Q R w.
Proof.
  intros I Hp Hlen He Hok. pose proof (bc_map _ _ _ _ (in_core _ _ _ _ _ _ _ _ I)) as Hm.
  destruct (prot_rw_access m (md_held _ _ _ Hm) Hp) as [Hrd Hwr].
  unfold sealCipherCall. destruct (rg_inner (bs_region st) =? 0) eqn:E.
  { apply Z.eqb_eq in E. destruct Hm. lia. }
  destruct (sealCipherLen _); [wpsteps; by apply He|]. wpsteps. apply wp_sys; [intros e|]; wpsteps.
  - by apply He, inside_tick.
  - eapply wp_mem_load; [apply Hm|done|]. wpsteps. eapply wp_mem_store; [apply Hm|done|]. wpsteps. eapply Hok.
    apply (inside_remap _ _ _ _ _ _ m); [by apply inside_tick| |done..|apply I]. cbn. unfold zlen. by rewrite Hlen.
Qed.

Lemma wp_in_encrypt w0 p st0 k w st m c (Q : gerr + bool -> world -> Prop) R :
  inside w0 p st0 k w st m c -> mp_prot m = PROT_RW ->
  (forall e w', inside w0 p st0 k w' st m c -> Q (inl e) w') ->
  (k_os = Linux -> Q (inr false) w) ->
  (k_os = Windows -> forall t w', inside w0 p st0 k w' st (with_bytes (k_encrypt t (mp_bytes m)) m) c -> Q (inr true) w') ->
  wp (sealEncrypt (bs_region st)) Q R w.
Proof.
  intros I Hp He Hl Hw. unfold sealEncrypt. destruct k_os eqn:Eos; [wpsteps; by apply Hl|].
  wpsteps. eapply wp_in_cipher; [done|done|apply k_encrypt_len|..].
  - intros e w' I'. wpsteps. by apply He.
  - intros t w' I'. wpsteps. by eapply Hw.
Qed.

Lemma wp_in_decrypt w0 p st0 k w st m c (Q : option gerr -> world -> Prop) R :
  inside w0 p st0 k w st m c -> mp_prot m = PROT_RW -> k_os = Windows ->
  (forall e w', inside w0 p st0 k w' st m c -> Q (Some e) w') ->
  (forall w', inside w0 p st0 k w' st (with_bytes (k_decrypt (mp_bytes m)) m) c -> Q None w') ->
  wp (sealDecrypt (bs_region st)) Q R w.
Proof.
  intros I Hp Eos He Hok. unfold sealDecrypt. rewrite Eos.
  eapply wp_in_cipher; [done|done|intros; apply k_decrypt_len|done|]. intros _ w' I'. by apply Hok.
Qed.

(** ** Seal *)

(** The secret behind the bytes at rest. *)
Definition plain (c : bool) (b : list Z) : list Z := if c then k_decrypt b else b.

(** The fields a seal does not move. *)
Definition kept (s t : bufferState) : Prop :=
  bs_data t = bs_data s /\ bs_readOnly t = bs_readOnly s /\ bs_openers t = bs_openers s /\ bs_backing t = bs_backing s.

(** An open buffer allows what its mode says. *)
Definition rest_ok st m : Prop :=
  bs_closedAtRest st = false -> mp_prot m = PROT_RW \/ bs_readOnly st = true /\ mp_prot m = PROT_READ.

(** The protection of a buffer nobody borrows, by its mode, and the source's
    choice of it. *)
Definition modeProtection st : Z :=
  match bs_closedAtRest st, bs_readOnly st with
  | true, _ => PROT_NONE
  | false, true => PROT_READ
  | false, false => PROT_RW
  end.

Lemma restProtection_mode st : restProtection st = modeProtection st.
Proof. unfold restProtection, modeProtection. by destruct (bs_closedAtRest st). Qed.

(** The protection of the mode is one it allows. *)
Lemma rest_exact st m : mp_prot m = restProtection st -> rest_ok st m.
Proof. intros E Hc. rewrite E. unfold restProtection. rewrite Hc. destruct (bs_readOnly st); [by right|by left]. Qed.

Lemma restProtection_ok st : prot_ok (restProtection st).
Proof. unfold restProtection, prot_ok. destruct (bs_closedAtRest st), (bs_readOnly st); auto. Qed.

Lemma wp_in_reapply w0 p st0 k w st m c (Q : unit -> world -> Prop) R :
  inside w0 p st0 k w st m c -> mp_prot m = PROT_RW ->
  (forall w' m', inside w0 p st0 k w' st m' c -> mp_bytes m' = mp_bytes m -> rest_ok st m' -> Q tt w') ->
  wp (reapplyReadOnly p) Q R w.
Proof.
  intros I Hp HQ. unfold reapplyReadOnly. apply wp_bind. eapply wp_buf_get; [apply I|].
  destruct (negb _) eqn:E; [|apply wp_ret; eapply HQ; [done..|intros _; by left]].
  apply wp_bind. eapply wp_in_mprotect; [done|apply restProtection_ok|intros e w' I' _|intros w' I' _]; apply wp_ret.
  - eapply HQ; [done..|intros _; by left].
  - eapply HQ; [done|apply protect_bytes|apply rest_exact, protect_prot].
Qed.

Definition seal_post w0 (p : Z) st0 m0 (e : option gerr) (w' : world) : Prop :=
  exists st' m' c', inside w0 p st0 1 w' st' m' c' /\ kept st0 st' /\ plain c' (mp_bytes m') = mp_bytes m0 /\
    match e with
    | None => bs_sealed st' = true /\ mp_prot m' = PROT_NONE /\
              (bs_sealAuth st0 = true -> bs_sealTagged st' = true /\ seal_valid w' st' m') /\
              c' = bool_decide (k_os = Windows)
    | Some _ => bs_sealed st' = false /\ c' = false /\ rest_ok st' m' \/
                bs_sealed st' = true /\ c' = true
    end.

Lemma wp_in_rollback w0 p st0 m0 w st m c cause :
  inside w0 p st0 1 w st m c -> kept st0 st -> bs_sealed st = false -> mp_prot m = PROT_RW ->
  plain c (mp_bytes m) = mp_bytes m0 ->
  returns (rollbackSeal p c cause) w (seal_post w0 p st0 m0).
Proof.
  intros I Hk Hs Hp Hb. unfold rollbackSeal, returns. apply wp_bind. eapply wp_buf_get; [apply I|].
  assert (forall w1 st1 m1, inside w0 p st0 1 w1 st1 m1 false -> kept st0 st1 -> bs_sealed st1 = false ->
    mp_prot m1 = PROT_RW -> mp_bytes m1 = mp_bytes m0 ->
    wp (buf_set p (bs_set_tagged false);; reapplyReadOnly p;;
        mret (Some (errorf "secmem.SecureBuffer.Seal" cause))) (seal_post w0 p st0 m0) (fun _ => False) w1) as Hend.
  { intros w1 st1 m1 I1 K1 S1 P1 E1. apply wp_bind, wp_buf_set. apply wp_bind.
    eapply wp_in_reapply; [apply (inside_set _ _ _ _ _ _ _ _ (bs_set_tagged false) I1); done|done|].
    intros w2 m2 I2 E2 R2. wpsteps. exists (bs_set_tagged false st1), m2, false.
    split; [done|]. split; [done|]. split; [cbn; congruence|]. by left. }
  apply wp_bind. destruct c.
  - eapply wp_in_decrypt; [done|done|by apply (in_os _ _ _ _ _ _ _ _ I)|intros d w1 I1|intros w1 I1].
    + apply wp_bind, wp_buf_set. apply wp_bind.
      eapply wp_in_reapply; [apply (inside_set _ _ _ _ _ _ _ _ (bs_set_sealed true) I1); done|done|].
      intros w2 m2 I2 E2 _. wpsteps. exists (bs_set_sealed true st), m2, true. split; [done|]. split; [done|].
      split; [by rewrite E2|by right].
    + apply wp_bind. eapply wp_in_flag; [exact I1|done|]. intros w2 I2. by eapply Hend.
  - apply wp_ret, wp_bind, wp_ret. by eapply Hend.
Qed.

(** ** Between operations *)

(** A live buffer of [n] bytes, mapped as [m]; [c]: the contents are
    ciphertext, [wd]: the emergency wipe has been there. *)
Record live (w : world) (p : Z) st (n : Z) m (c wd : bool) : Prop := Live {
  lv_core : bcore w p st m;
  lv_len : 0 <= n <= rg_inner (bs_region st);
  lv_prot : prot_ok (mp_prot m);
  lv_os : c = true -> k_os = Windows;
  lv_wiped : wd = true -> c = false /\ mp_prot m = PROT_RW;
  lv_full : wd = false -> exists jr, jn_regions (w_jan w) !! bs_janitorKey st = Some jr /\
              jr_sealCipher jr = Some (bs_sealCipher st);
  lv_cipher : forall jr f, lookup_any w (bs_janitorKey st) = Some jr -> jr_sealCipher jr = Some f -> f = bs_sealCipher st;
  lv_open : wd = false -> bs_sealed st = false -> c = false /\ rest_ok st m
}.

(** The invariant of the buffer at [p]. *)
Record buf_ok (w : world) (p : Z) st (c wd : bool) : Prop := BufOk {
  bo_st : w_bufs w !! p = Some st;
  bo_lock : lock_free w (bs_mu st);
  bo_ciph : w_flags w !! bs_sealCipher st = Some c;
  bo_wiped : w_flags w !! bs_wiped st = Some wd;
  bo_apart : bs_sealCipher st <> bs_wiped st;
  bo_openers : bs_openers st = 0;
  bo_nonce : zlen (bs_sealNonce st) = sealNonceLen;
  bo_ring : bs_mu st <> sk_lock (w_keys w);
  bo_nil : bs_data st = None -> bs_region st = secRegion_nil;
  bo_live : forall n, bs_data st = Some n -> exists m, live w p st n m c wd
}.

Definition relock (mu : Z) (s : lockState) (w : world) : world := set_locks (insert mu s) w.
Definition locked (mu : Z) (w : world) : world := relock mu (LockState 0 true) w.
Definition borrowed (mu : Z) (w : world) : world := relock mu (LockState 1 false) w.
Definition unlocked (mu : Z) (w : world) : world := relock mu (LockState 0 false) w.

Lemma relock_unlocked mu s w : lock_free w mu -> unlocked mu (relock mu s w) = w.
Proof. intros Hf. by apply (relock_id w id). Qed.
Lemma locked_unlocked mu w : lock_free w mu -> unlocked mu (locked mu w) = w.
Proof. apply relock_unlocked. Qed.

Lemma world_ok_lock mu s w :
  world_ok w -> is_Some (w_locks w !! mu) -> mu <> sk_lock (w_keys w) -> 0 <= lk_readers s ->
  (lk_writer s = true -> lk_readers s = 0) -> world_ok (set_locks (insert mu s) w).
Proof.
  intros [W1 W2 W3 W4 W5 W6 W7 W8 W9 W10] Hs Hne H1 H2. constructor; try done.
  - by destruct W2.
  - by apply jan_ok_lock_own.
  - eapply ring_ok_keep; [done|done|by intros ?? -> ?|by intros ???|]. intros _. cbn. by rewrite lookup_insert_ne.
  - intros l. cbn. rewrite lookup_insert_is_Some. intros [<-|[_ Hl]]; by apply W6.
Qed.

Lemma live_inner w p st n m c wd : live w p st n m c wd -> 0 < rg_inner (bs_region st).
Proof. intros []. by destruct lv_core0 as [_ []]. Qed.

Lemma inside_enter w p st n m c s :
  world_ok w -> buf_ok w p st c false -> live w p st n m c false ->
  0 <= lk_readers s -> (lk_writer s = true -> lk_readers s = 0) ->
  inside (relock (bs_mu st) s w) p st 0 (relock (bs_mu st) s w) st m c.
Proof.
  intros W B [[B1 [] B3 B4 B5] L2 L3 L4 L5 L6 L7] Hs1 Hs2. constructor; try done; try apply B.
  - by apply world_ok_lock.
  - constructor; try done. cbn. rewrite lookup_insert_eq. eauto.
  - right. apply fp_sub_refl.
  - cbn. lia.
  - by apply L6.
Qed.

(** The lock is as it was when the operation ends. *)
Lemma frame_unlock F mu s w w' :
  lock_free w mu -> frame F (relock mu s w) w' -> frame F w (unlocked mu w').
Proof.
  intros Hf [F1 F2 F3 F4 F5 F6 F7 F8 F9 F10]. constructor; try done. cbn. intros l v Hl Hn.
  destruct (decide (l = mu)) as [->|Hne].
  - rewrite lookup_insert_eq. unfold lock_free in Hf. congruence.
  - rewrite lookup_insert_ne by done. apply F3; [|done]. cbn. by rewrite lookup_insert_ne.
Qed.

Lemma inside_locked s w0 p st k w st' m c :
  inside (relock (bs_mu st) s w0) p st k w st' m c -> w_locks w !! bs_mu st = Some s.
Proof.
  intros I. apply (fr_locks _ _ _ (in_frame _ _ _ _ _ _ _ _ I)); [cbn; apply lookup_insert_eq|].
  unfold op_fp, ring_fp. destruct (decide _); cbn; set_solver.
Qed.

(** What every operation promises about everything but its result. *)
Record op_done (w : world) (p : Z) st (k : Z) (w' : world) st' (c' wd' : bool) : Prop := OpDone {
  od_ok : world_ok w';
  od_buf : buf_ok w' p st' c' wd';
  od_frame : frame (op_fp w p st) w w';
  od_keys : jn_nextKey (w_jan w') <= jn_nextKey (w_jan w) + k;
  od_same : same_id st st';
  od_idle : k <= 0 -> w_keys w' = w_keys w
}.

Lemma inside_leave s w p st c0 k w' st' n m c :
  world_ok w -> buf_ok w p st c0 false ->
  inside (relock (bs_mu st) s w) p st k w' st' m c ->
  bs_data st' = Some n -> 0 <= n <= rg_inner (bs_region st) -> bs_openers st' = 0 ->
  (bs_sealed st' = false -> c = false /\ rest_ok st' m) ->
  op_done w p st k (unlocked (bs_mu st) w') st' c false /\
  live (unlocked (bs_mu st) w') p st' n m c false.
Proof.
  intros W B I Hd Hn Ho Hop. pose proof (inside_locked _ _ _ _ _ _ _ _ _ I) as Hlk.
  destruct I as [I1 I2 I3 I4 I5 I6 I7 I8 I9 I10 I11 I12]. pose proof (si_mu _ _ I9) as Emu.
  assert (live (unlocked (bs_mu st) w') p st' n m c false) as Hl.
  { constructor; [|by rewrite (si_region _ _ I9)|done|done|done|done| |by intros _].
    2:{ destruct I12 as (jr & Hj & Hc). intros jr' f Hl E. unfold lookup_any in Hl. cbn in Hl. rewrite Hj in Hl. congruence. }
    destruct I2 as [C1 [] C3 C4 C5]. constructor; try done. cbn. rewrite Emu, lookup_insert_eq. eauto. }
  split; [|done]. constructor; try done.
  - apply world_ok_lock; [done|by eauto|rewrite <- Emu; apply I2|done|done].
  - constructor; try done; try apply I2.
    + rewrite Emu. unfold lock_free. cbn. apply lookup_insert_eq.
    + apply (si_nonce _ _ I9), B.
    + congruence.
    + intros n' Hn'. exists m. by assert (n' = n) as -> by congruence.
  - eapply frame_unlock; [apply B|done].
Qed.

Lemma op_done_refl w p st c wd k :
  world_ok w -> buf_ok w p st c wd -> 0 <= k -> op_done w p st k w st c wd.
Proof. intros W B Hk. constructor; try done; lia. Qed.

(** The guards of the exclusive operations. *)
Lemma returns_exclusive name p st c wd body w (P : option gerr -> world -> Prop) :
  world_ok w -> buf_ok w p st c wd ->
  (bs_data st = None -> P (Some (errorf name (Sent ErrDestroyed))) w) ->
  (forall n, bs_data st = Some n -> wd = true -> P (Some (errorf name (Sent ErrWiped))) w) ->
  (forall n m, bs_data st = Some n -> wd = false -> live w p st n m c false ->
     inside (locked (bs_mu st) w) p st 0 (locked (bs_mu st) w) st m c ->
     returns (body p st) (locked (bs_mu st) w) (fun e w' =>
       w_locks w' !! bs_mu st = Some (LockState 0 true) /\ P e (unlocked (bs_mu st) w'))) ->
  returns (exclusive name (Ref p) body) w P.
Proof.
  intros W B Hd Hw Hb. unfold exclusive, returns. apply wp_bind. eapply wp_buf_get; [apply B|].
  apply wp_bind, wp_lk_lock; [apply B|]. change (set_locks _ w) with (locked (bs_mu st) w).
  assert (forall e, P e w -> wp (lk_unlock (bs_mu st)) (fun _ => P e) (fun _ => False) (locked (bs_mu st) w)) as Hback.
  { intros e HP. eapply wp_lk_unlock; [cbn; apply lookup_insert_eq|].
    change (P e (unlocked (bs_mu st) (locked (bs_mu st) w))). rewrite locked_unlocked; [done|apply B]. }
  apply wp_defer. apply wp_bind. eapply wp_buf_get; [apply B|].
  destruct (bs_data st) as [n|] eqn:Ed.
  - destruct (bo_live _ _ _ _ _ B n Ed) as (m & Hl). pose proof (live_inner _ _ _ _ _ _ _ Hl) as Hi.
    destruct (_ =? 0) eqn:E; [apply Z.eqb_eq in E; lia|]. apply wp_bind. eapply wp_flag_load; [apply B|].
    destruct wd; [by apply wp_ret, Hback, (Hw n)|].
    eapply wp_mono; [apply (Hb n m); try done; eapply inside_enter; done| |done].
    intros e w' [Hlk HP]. by eapply wp_lk_unlock.
  - rewrite (bo_nil _ _ _ _ _ B Ed). apply wp_ret, Hback, Hd. done.
Qed.
End spec.
