(* ===== verification/BufferOps.v ===== *)
(** * The operations of a secure buffer, verified

    Every operation returns, in every state of the buffer and under every
    pattern of kernel failures, keeps the buffer's and the process's invariant,
    touches nothing outside the buffer (and the prekey), and does to the secret
    what it says. *)
From S2P Require Import Prelude Errors Canary World Memory Frame Sample Quarantine Janitor Process SealAuth SecureBuffer BufferAccess BufferSpec.

Section ops.
Context `{K : Kernel} {KOk : KernelOk}.
Implicit Types (w : world) (st : bufferState) (m : mapping).

Lemma seal_valid_unlocked mu w st m : seal_valid w st m -> seal_valid (unlocked mu w) st m.
Proof. intros (H1 & H2 & mk & [] & H3). split; [done|]. split; [done|]. exists mk. by split. Qed.

(** ** Seal *)

Lemma wp_sealFinish w0 p st st1 m w m1 c :
  inside w0 p st 0 w st1 m1 c -> key_room w0 1 -> kept st st1 -> bs_sealed st1 = false ->
  plain c (mp_bytes m1) = mp_bytes m -> mp_prot m1 = PROT_RW -> c = bool_decide (k_os = Windows) ->
  returns (sealFinish p st c) w (seal_post w0 p st m).
Proof.
  intros I Hroom Hk Hs Eb Ep Ec. unfold sealFinish, returns. apply wp_bind.
  assert (forall w3 st3, inside w0 p st 1 w3 st3 m1 c -> kept st st3 -> bs_sealed st3 = false ->
    (bs_sealAuth st = true -> bs_sealTagged st3 = true /\ seal_valid w3 st3 m1) ->
    wp (err ← sealProtect (bs_region st);
        match err with
        | Some e => rollbackSeal p c e
        | None => buf_set p (bs_set_sealed true);; mret None
        end) (seal_post w0 p st m) (fun _ => False) w3) as Hprot.
  { intros w3 st3 I3 K3 S3 V3. unfold sealProtect. apply wp_bind.
    rewrite <- (si_region _ _ (in_same _ _ _ _ _ _ _ _ I3)).
    eapply wp_in_mprotect; [done|by left|intros e w4 I4 _|intros w4 I4 T4].
    - by eapply wp_in_rollback.
    - apply wp_bind, wp_buf_set, wp_ret. exists (bs_set_sealed true st3), (protect PROT_NONE m1), c.
      split; [apply (inside_set _ _ _ _ _ _ _ _ (bs_set_sealed true) I4); done|]. split; [done|].
      rewrite protect_bytes, protect_prot. split; [done|]. split; [done|]. split; [done|]. split; [|done].
      intros Ha. destruct (V3 Ha) as [? V]. split; [done|].
      assert (seal_valid w4 (bs_set_sealed true st3) (protect PROT_NONE m1)) as (H1 & H2 & mk & [] & Ht).
      { eapply seal_valid_touch; [exact I3|exact T4|done..|apply protect_bytes|done]. }
      split; [done|]. split; [done|]. exists mk. by split. }
  destruct (bs_sealAuth st) eqn:Ea.
  - eapply wp_in_auth; [done|done|done|]. intros e w3 st3 g n t I3 Est V3. destruct e as [e|].
    + eapply wp_in_rollback; try done; by rewrite Est.
    + eapply Hprot; try done; [by rewrite Est..|]. intros _. split; [by rewrite Est|by apply V3].
  - apply wp_ret. apply (Hprot w st1); try done. by apply (inside_keys_mono _ _ _ 0); [lia|].
Qed.

Lemma wp_sealApply w0 p st m w m1 :
  inside w0 p st 0 w st m1 false -> key_room w0 1 -> bs_sealed st = false ->
  mp_bytes m1 = mp_bytes m -> mp_prot m1 = PROT_RW ->
  returns (sealApply p st) w (seal_post w0 p st m).
Proof.
  intros I Hroom Hs Eb Ep. unfold sealApply, returns. apply wp_bind, wp_buf_set.
  pose proof (inside_set _ _ _ _ _ _ _ _ (bs_set_tagged false) I ltac:(done)) as I1.
  set (st1 := bs_set_tagged false st) in *.
  apply wp_bind. change (bs_region st) with (bs_region st1) at 1.
  eapply wp_in_encrypt; [exact I1|done|intros e w2 I2|intros Eos|intros Eos t w2 I2].
  - apply wp_bind. eapply wp_in_reapply; [exact I2|done|]. intros w3 m3 I3 E3 R3. wpsteps.
    exists st1, m3, false. split; [by apply (inside_keys_mono _ _ _ 0); [lia|]|]. split; [done|].
    split; [cbn; congruence|by left].
  - apply wp_bind, wp_ret. eapply (wp_sealFinish _ _ _ st1 _ _ m1); try done. by rewrite bool_decide_false by congruence.
  - apply wp_bind. change (bs_sealCipher st) with (bs_sealCipher st1).
    eapply wp_in_flag; [exact I2|done|]. intros w3 I3. eapply (wp_sealFinish _ _ _ st1); [exact I3|done..| |done|by rewrite bool_decide_true].
    cbn. by rewrite k_decrypt_encrypt.
Qed.

Lemma wp_sealLocked w0 p st m :
  inside w0 p st 0 w0 st m false -> key_room w0 1 -> bs_sealed st = false -> rest_ok st m ->
  returns (sealLocked p st) w0 (seal_post w0 p st m).
Proof.
  intros I Hroom Hs Hr. unfold sealLocked, returns. rewrite Hs. apply wp_bind. eapply wp_flag_load; [apply I|]. cbv iota.
  apply wp_bind. destruct (bs_readOnly st || bs_closedAtRest st) eqn:Eo.
  - eapply wp_in_mprotect; [done|right; by right|intros e w1 I1 _|intros w1 I1 _].
    + wpsteps. exists st, m, false. split; [by apply (inside_keys_mono _ _ _ 0); [lia|]|]. split; [done|].
      split; [done|by left].
    + eapply wp_sealApply; [exact I1|done..|apply protect_bytes|apply protect_prot].
  - apply wp_ret. eapply wp_sealApply; [exact I|done..|]. apply orb_false_elim in Eo as [E1 E2].
    destruct (Hr E2) as [?|[? _]]; congruence.
Qed.

(** ** Unseal *)

(** A failed [Unseal] leaves the buffer sealed over the same secret; a
    successful one leaves the secret in the clear under exactly the protection of
    the buffer's mode, and if there was a tag it was the tag of the bytes at rest. *)
Definition unseal_post w0 (p : Z) st0 m0 (c0 : bool) (e : option gerr) (w' : world) : Prop :=
  exists st' m' c', inside w0 p st0 2 w' st' m' c' /\ kept st0 st' /\
    plain c' (mp_bytes m') = plain c0 (mp_bytes m0) /\
    match e with
    | None => bs_sealed st' = false /\ c' = false /\ mp_prot m' = restProtection st' /\
              (bs_sealTagged st0 = true -> usable w0 -> seal_valid w0 st0 m0)
    | Some _ => bs_sealed st' = true
    end.

Lemma wp_unsealShut w0 p st m0 c0 w m c e :
  inside w0 p st 2 w st m c -> bs_sealed st = true -> plain c (mp_bytes m) = plain c0 (mp_bytes m0) ->
  returns (unsealShut st e) w (unseal_post w0 p st m0 c0).
Proof.
  intros I Hs Hb. unfold unsealShut, unsealFail, returns. apply wp_bind.
  eapply wp_in_mprotect; [done|by left|intros e' w1 I1 _|intros w1 I1 _]; wpsteps.
  - exists st, m, c. done.
  - exists st, (protect PROT_NONE m), c. split; [done|]. split; [done|]. by rewrite protect_bytes.
Qed.

Lemma wp_unsealFinish w0 p st m0 c0 w m :
  inside w0 p st 1 w st m false -> key_room w0 2 -> bs_sealed st = true -> mp_prot m = PROT_RW ->
  mp_bytes m = plain c0 (mp_bytes m0) ->
  (bs_sealTagged st = true -> usable w0 -> seal_valid w0 st m0) ->
  returns (unsealFinish p st) w (unseal_post w0 p st m0 c0).
Proof.
  intros I Hroom Hs Hp Hb Htag. unfold unsealFinish, unsealRestoreReadOnly, returns. apply wp_bind.
  assert (forall w1 m1, inside w0 p st 1 w1 st m1 false -> mp_bytes m1 = mp_bytes m -> mp_prot m1 = restProtection st ->
    wp (buf_set p (fun s => bs_set_tagged false (bs_set_sealed false s));; mret None) (unseal_post w0 p st m0 c0)
      (fun _ => False) w1) as Hdone.
  { intros w1 m1 I1 E1 R1. apply wp_bind, wp_buf_set, wp_ret.
    exists (bs_set_tagged false (bs_set_sealed false st)), m1, false.
    split; [apply (inside_set _ _ _ _ _ _ _ _ (fun s => bs_set_tagged false (bs_set_sealed false s)))|];
      [by apply (inside_keys_mono _ _ _ 1); [lia|]|done|]. split; [done|]. split; [cbn; congruence|done]. }
  destruct (negb _) eqn:Er; [|apply wp_ret; eapply Hdone; [done|done|]; apply negb_false_iff, Z.eqb_eq in Er; congruence].
  eapply wp_in_mprotect; [done|apply restProtection_ok|intros e w1 I1 _|intros w1 I1 _].
  2:{ eapply Hdone; [exact I1|apply protect_bytes|apply protect_prot]. }
  (* back to the sealed state *)
  assert (forall w2 m2 c2, inside w0 p st 1 w2 st m2 c2 -> mp_prot m2 = PROT_RW ->
    plain c2 (mp_bytes m2) = plain c0 (mp_bytes m0) ->
    wp (buf_set p (bs_set_tagged false);;
        (if bs_sealAuth st then _ ← sealAuthenticate p; mret tt else mret tt);;
        _ ← sealProtect (bs_region st);
        unsealFail e) (unseal_post w0 p st m0 c0) (fun _ => False) w2) as Hback.
  { intros w2 m2 c2 I2 P2 E2. apply wp_bind, wp_buf_set.
    pose proof (inside_set _ _ _ _ _ _ _ _ (bs_set_tagged false) I2 ltac:(done)) as I3.
    apply wp_bind.
    assert (forall w3 st3, inside w0 p st 2 w3 st3 m2 c2 -> kept st st3 -> bs_sealed st3 = true ->
      wp (_ ← sealProtect (bs_region st); unsealFail e) (unseal_post w0 p st m0 c0) (fun _ => False) w3) as Hend.
    { intros w3 st3 I4 K3 S3. apply wp_bind. unfold sealProtect.
      rewrite <- (si_region _ _ (in_same _ _ _ _ _ _ _ _ I4)).
      eapply wp_in_mprotect; [done|by left|intros e' w4 I5 _|intros w4 I5 _]; apply wp_ret.
      - by exists st3, m2, c2.
      - exists st3, (protect PROT_NONE m2), c2. by rewrite protect_bytes. }
    destruct (bs_sealAuth st).
    - apply wp_bind. eapply wp_in_auth; [done|by rewrite Z.add_1_r|done|]. intros e' w3 st3 g n t I4 -> _. apply wp_ret.
      eapply Hend; [exact I4|by destruct e'|by destruct e'].
    - apply wp_ret. eapply Hend; [by apply (inside_keys_mono _ _ _ 1); [lia|exact I3]|done|done]. }
  apply wp_bind. eapply wp_in_encrypt; [exact I1|done|intros e' w2 I2|intros _|intros Eos t w2 I2].
  - apply wp_bind, wp_ret. by eapply Hback.
  - apply wp_bind, wp_ret. by eapply Hback.
  - apply wp_bind. eapply wp_in_flag; [exact I2|done|]. intros w3 I3. eapply Hback; [exact I3|done|].
    cbn. by rewrite k_decrypt_encrypt.
Qed.

Lemma wp_unsealVerified w0 p st m0 c w m :
  inside w0 p st 0 w0 st m0 c -> inside w0 p st 0 w st m c -> touch (rg_base (bs_region st)) w0 w ->
  key_room w0 2 -> bs_sealed st = true -> mp_prot m = PROT_RW -> mp_bytes m = mp_bytes m0 ->
  returns (unsealVerified p st) w (unseal_post w0 p st m0 c).
Proof.
  intros I0 I T Hroom Hs Hp Hb. unfold unsealVerified, returns. apply wp_bind.
  assert (forall w1, inside w0 p st 1 w1 st m c -> (bs_sealTagged st = true -> usable w0 -> seal_valid w0 st m0) ->
    wp (ciph ← flag_load (bs_sealCipher st);
        if (ciph : bool) then
          err ← sealDecrypt (bs_region st);
          match err with
          | Some e => unsealShut st e
          | None => flag_store (bs_sealCipher st) false;; unsealFinish p st
          end
        else unsealFinish p st) (unseal_post w0 p st m0 c) (fun _ => False) w1) as Hnext.
  { intros w1 I1 Htag. apply wp_bind. eapply wp_flag_load; [apply I1|]. destruct c.
    - apply wp_bind. eapply wp_in_decrypt; [done|done|by apply (in_os _ _ _ _ _ _ _ _ I)|intros e w2 I2|intros w2 I2].
      + apply (wp_unsealShut _ _ _ _ _ _ m true); [by apply (inside_keys_mono _ _ _ 1); [lia|]|done|cbn; congruence].
      + apply wp_bind. eapply wp_in_flag; [exact I2|done|]. intros w3 I3.
        eapply wp_unsealFinish; try done. cbn. congruence.
    - eapply wp_unsealFinish; try done. }
  destruct (bs_sealTagged st) eqn:Et.
  - eapply wp_in_verify; [exact I|unfold key_room in *; lia|done|]. intros e w1 I1 Hring Hok Hval _. destruct e as [e|].
    + apply (wp_unsealShut _ _ _ _ _ _ m c); [by apply (inside_keys_mono _ _ _ (0 + 1)); [lia|]|done|congruence].
    + apply Hnext; [done|]. intros _ Hu0. specialize (Hok eq_refl).
      assert (usable w) as Hu by (destruct T as [[M1 _ _ _ _ _ M7 _ _] _]; unfold usable in *; by rewrite M7, M1).
      rewrite (rs_stable _ _ Hring Hu) in Hok.
      eapply (seal_valid_touch _ _ _ _ w w0 st m c st m0); [exact I|by apply touch_sym|done..].
  - apply wp_ret. apply Hnext; [|done]. by apply (inside_keys_mono _ _ _ 0); [lia|].
Qed.

Lemma wp_unsealLocked w0 p st m c :
  inside w0 p st 0 w0 st m c -> key_room w0 2 -> bs_sealed st = true ->
  returns (unsealLocked p st) w0 (unseal_post w0 p st m c).
Proof.
  intros I Hroom Hs. unfold unsealLocked, returns. rewrite Hs. cbn [negb]. apply wp_bind.
  eapply wp_in_mprotect; [done|right; by right|intros e w1 I1 _|intros w1 I1 T1].
  - apply wp_ret. exists st, m, c. split; [by apply (inside_keys_mono _ _ _ 0); [lia|]|done].
  - apply wp_bind. eapply wp_in_relock_touch; [exact I1|intros e w2 I2 _|intros w2 m2 Eb Ep I2 T2].
    + apply (wp_unsealShut _ _ _ _ _ _ (protect PROT_RW m) c); [by apply (inside_keys_mono _ _ _ 0); [lia|]|done|].
      by rewrite protect_bytes.
    + apply (wp_unsealVerified _ _ _ _ _ _ m2); try done; [by eapply touch_trans|by rewrite Ep, protect_prot|
        by rewrite Eb, protect_bytes].
Qed.
End ops.
