(* ===== verification/BufferBorrow.v ===== *)
(** * Borrowing a buffer's bytes

    The read-locked and the write-locked accessors' common parts: the guards,
    opening and closing the pages of a closed-at-rest buffer, and the copies
    between the region and the caller. *)
From S2P Require Import Prelude Errors Canary World Memory Frame Sample Quarantine Janitor Process SealAuth SecureBuffer BufferAccess BufferSpec.

Section borrow.
Context `{K : Kernel} {KOk : KernelOk}.
Implicit Types (w : world) (st : bufferState) (m : mapping).

Lemma wp_lk_rLock p (Q : unit -> world -> Prop) R w :
  lock_free w p -> Q tt (borrowed p w) -> wp (lk_rLock p) Q R w.
Proof. intros E HQ. unfold wp, lk_rLock. by rewrite E. Qed.

Lemma wp_lk_rUnlock p (Q : unit -> world -> Prop) R w :
  w_locks w !! p = Some (LockState 1 false) -> Q tt (unlocked p w) -> wp (lk_rUnlock p) Q R w.
Proof. intros E HQ. unfold wp, lk_rUnlock. by rewrite E. Qed.

(** The pages of a live buffer, in a borrow: readable, writable unless the
    buffer is read-only, and counted. *)
Record opened st m : Prop := Opened {
  op_read : readable m = true;
  op_write : bs_readOnly st = false -> writable m = true
}.

Definition opening (st : bufferState) : bufferState :=
  if bs_closedAtRest st then bs_set_openers (bs_openers st + 1) st else st.

Lemma rest_opened w r st m :
  mapped w r m -> bs_closedAtRest st = false -> rest_ok st m -> opened st m.
Proof.
  intros Hm Hc Hr. pose proof (md_held _ _ _ Hm) as Hh. destruct (Hr Hc) as [E|[Hro E]].
  - destruct (prot_rw_access m Hh E). by constructor.
  - constructor; [|congruence]. unfold readable. by rewrite Hh, E.
Qed.

Lemma prot_opened w r st m :
  mapped w r m -> mp_prot m = (if bs_readOnly st then PROT_READ else PROT_RW) -> opened st m.
Proof.
  intros Hm E. pose proof (md_held _ _ _ Hm) as Hh. unfold readable, writable in *.
  constructor; unfold readable, writable; rewrite Hh, E; [by destruct (bs_readOnly st)|by intros ->].
Qed.

(** The protection of the buffer's pages. *)
Definition pages (w : world) (st : bufferState) : option Z := mp_prot <$> w_mem w !! rg_base (bs_region st).

Lemma inside_pages w0 p st0 k w st m c : inside w0 p st0 k w st m c -> pages w st = Some (mp_prot m).
Proof. intros I. unfold pages. by rewrite (md_at _ _ _ (bc_map _ _ _ _ (in_core _ _ _ _ _ _ _ _ I))). Qed.

(** The protection in a borrow, of a buffer whose pages are at [prot] at rest. *)
Definition borrowProtection st (prot : Z) : Z :=
  if bs_closedAtRest st then (if bs_readOnly st then PROT_READ else PROT_RW) else prot.

(** Closed-at-rest pages that do not open: the call that opens them is refused
    and they stay as they are, or, opened, they cannot be locked again and are
    shut, unless that call is refused too. [t] is the first call's turn, [prot]
    and [prot'] the protection before and after, [e] the error. *)
Definition open_failed st (t : nat) (prot : Z) (e : gerr) (prot' : Z) : Prop :=
  bs_closedAtRest st = true /\
  ((exists n, k_errno t = Some n /\ e = errorf "secmem: opening a closed-at-rest buffer" (Errno n) /\ prot' = prot) \/
   (exists n, k_errno t = None /\ k_errno (S t) = Some n /\
      e = errorf "secmem: opening a closed-at-rest buffer: restoring the page lock" (errorf "VirtualLock" (Errno n)) /\
      prot' = match k_errno (S (S t)) with None => PROT_NONE | Some _ => borrowProtection st prot end)).

(** The end of a borrow: closed-at-rest pages, at [prot] in the borrow, are
    inaccessible again, or the call of turn [t] was refused and the error says
    so; any other buffer's pages stay as they are. *)
Definition close_ended st (t : nat) (prot : Z) (e : option gerr) (prot' : Z) : Prop :=
  if bs_closedAtRest st then
    match k_errno t with
    | None => e = None /\ prot' = PROT_NONE
    | Some n => e = Some (errorf "secmem: closing a closed-at-rest buffer" (Errno n)) /\ prot' = prot
    end
  else e = None /\ prot' = prot.

(** The errors of the pages of a closed-at-rest buffer, each with the kernel
    call that was refused. *)
Definition pages_refused (e : gerr) : Prop :=
  exists t n, k_errno t = Some n /\
    (e = errorf "secmem: opening a closed-at-rest buffer" (Errno n) \/
     e = errorf "secmem: opening a closed-at-rest buffer: restoring the page lock" (errorf "VirtualLock" (Errno n)) \/
     e = errorf "secmem: closing a closed-at-rest buffer" (Errno n)).

Lemma open_failed_refused st t prot e prot' : open_failed st t prot e prot' -> pages_refused e.
Proof. intros [_ [(n & Hn & -> & _)|(n & _ & Hn & -> & _)]]; [exists t, n|exists (S t), n]; auto. Qed.

Lemma close_ended_refused st t prot e prot' :
  close_ended st t prot (Some e) prot' -> bs_closedAtRest st = true /\ pages_refused e.
Proof.
  unfold close_ended. destruct (bs_closedAtRest st); [|by intros []]. destruct (k_errno t) as [n|] eqn:E; [|by intros []].
  intros [[= ->] _]. split; [done|]. exists t, n. auto.
Qed.

Lemma wp_in_open_at w0 p st0 k w st m (Q : option gerr -> world -> Prop) R :
  inside w0 p st0 k w st m false -> bs_openers st = 0 -> rest_ok st m ->
  (forall e w' m', inside w0 p st0 k w' st m' false -> mp_bytes m' = mp_bytes m -> rest_ok st m' ->
     open_failed st (w_tick w) (mp_prot m) e (mp_prot m') -> Q (Some e) w') ->
  (forall w' m', inside w0 p st0 k w' (opening st) m' false -> mp_bytes m' = mp_bytes m -> opened st m' ->
     rest_ok st m' -> (bs_closedAtRest st = false -> w' = w /\ m' = m) ->
     mp_prot m' = borrowProtection st (mp_prot m) -> Q None w') ->
  wp (open p) Q R w.
Proof.
  intros I Ho Hr He Hok. unfold open, opening, open_failed, borrowProtection in *. apply wp_bind. eapply wp_buf_get; [apply I|].
  destruct (bs_closedAtRest st) eqn:Ec; cbn [negb].
  2:{ apply wp_ret. eapply Hok; try done. eapply rest_opened; [apply I|done..]. }
  assert (forall m', rest_ok st m') as Hrest by (intros m' ?; congruence).
  rewrite Ho. cbn [Z.eqb]. apply wp_bind, wp_bind.
  set (prot := if bs_readOnly st then PROT_READ else PROT_RW) in *.
  assert (prot_ok prot) as Hp by (unfold prot_ok, prot; destruct (bs_readOnly st); auto).
  eapply wp_in_mprotect_at; [done|done|intros n w1 H1 T1 I1|intros w1 H1 T1 I1].
  { wpsteps. eapply He; [exact I1|done|done|]. split; [done|]. left. eauto. }
  apply wp_bind. eapply wp_in_relock_at; [exact I1|intros n w2 H2 T2 I2|intros w2 m2 Eb Ep I2].
  - apply wp_bind. rewrite T1 in *.
    eapply wp_in_mprotect_at; [exact I2|by left|intros n' w3 H3 T3 I3|intros w3 H3 T3 I3]; rewrite T2 in H3; wpsteps;
      eapply He; [exact I3|by rewrite ?protect_bytes|done| |exact I3|by rewrite ?protect_bytes|done|];
      (split; [done|]; right; exists n; rewrite H3, ?protect_prot, ?Ec; by split_and!).
  - wpsteps. eapply (Hok _ m2); [| | |done|congruence|by rewrite Ep, protect_prot].
    + apply (inside_set _ _ _ _ _ _ _ _ (fun s => bs_set_openers (bs_openers s + 1) s)); [exact I2|done].
    + by rewrite Eb, protect_bytes.
    + eapply prot_opened; [apply I2|]. rewrite Ep, protect_prot. done.
Qed.

Lemma wp_in_open w0 p st0 k w st m (Q : option gerr -> world -> Prop) R :
  inside w0 p st0 k w st m false -> bs_openers st = 0 -> rest_ok st m ->
  (forall e w' m', inside w0 p st0 k w' st m' false -> mp_bytes m' = mp_bytes m -> rest_ok st m' ->
     bs_closedAtRest st = true -> Q (Some e) w') ->
  (forall w' m', inside w0 p st0 k w' (opening st) m' false -> mp_bytes m' = mp_bytes m -> opened st m' ->
     rest_ok st m' -> (bs_closedAtRest st = false -> w' = w /\ m' = m) -> Q None w') ->
  wp (open p) Q R w.
Proof.
  intros I Ho Hr He Hok. eapply wp_in_open_at; [done..|intros e w' m' H1 H2 H3 [H4 _]|intros w' m' H1 H2 H3 H4 H5 _].
  - by eapply He.
  - by eapply Hok.
Qed.

Lemma wp_in_close_at w0 p st0 k w st m (Q : option gerr -> world -> Prop) R :
  inside w0 p st0 k w (opening st) m false -> bs_openers st = 0 -> rest_ok st m ->
  (forall e w' m', inside w0 p st0 k w' st m' false -> mp_bytes m' = mp_bytes m -> rest_ok st m' ->
     (bs_closedAtRest st = false -> e = None /\ w' = w) ->
     close_ended st (pred (w_tick w')) (mp_prot m) e (mp_prot m') -> Q e w') ->
  wp (close p) Q R w.
Proof.
  intros I Ho Hr HQ. unfold close, opening, close_ended in *. apply wp_bind. eapply wp_buf_get; [apply I|].
  destruct (bs_closedAtRest st) eqn:Ec.
  2:{ rewrite Ec. apply wp_ret. by eapply HQ. }
  cbn [bs_closedAtRest bs_set_openers]. rewrite Ec. cbn [negb]. apply wp_bind, wp_buf_set.
  cbn [bs_openers bs_set_openers]. rewrite Ho. cbn [Z.add Z.sub Z.opp Z.pos_sub Z.ltb Z.compare].
  apply wp_bind.
  assert (inside w0 p st0 k (set_bufs (alter (fun s => bs_set_openers (bs_openers s - 1) s) p) w) st m false) as I1.
  { pose proof (inside_set _ _ _ _ _ _ _ _ (fun s => bs_set_openers (bs_openers s - 1) s) I ltac:(done)) as I1.
    cbn in I1. replace (bs_openers st + 1 - 1) with (bs_openers st) in I1 by lia. by destruct st. }
  assert (forall m', rest_ok st m') as Hrest by (intros m' ?; congruence).
  cbn [bs_region bs_set_openers].
  eapply wp_in_mprotect_at; [exact I1|by left|intros n w2 Hn T2 I2|intros w2 Hn T2 I2]; apply wp_ret.
  - eapply (HQ (Some _)); [exact I2|done|done|congruence|]. rewrite T2; cbn in Hn |- *; by rewrite Hn.
  - eapply (HQ None); [exact I2|apply protect_bytes|done|congruence|]. rewrite T2; cbn in Hn |- *; by rewrite Hn, protect_prot.
Qed.

Lemma wp_in_close w0 p st0 k w st m (Q : option gerr -> world -> Prop) R :
  inside w0 p st0 k w (opening st) m false -> bs_openers st = 0 -> rest_ok st m ->
  (forall e w' m', inside w0 p st0 k w' st m' false -> mp_bytes m' = mp_bytes m -> rest_ok st m' ->
     (bs_closedAtRest st = false -> e = None /\ w' = w) -> Q e w') ->
  wp (close p) Q R w.
Proof. intros I Ho Hr HQ. eapply wp_in_close_at; [done..|]. intros e w' m' H1 H2 H3 H4 _. by eapply HQ. Qed.

(** ** The guards of the accessors *)

(** Why an accessor refuses, in the order of its checks. *)
Definition refusal (st : bufferState) (wd : bool) : option sentinel :=
  match bs_data st with
  | None => Some ErrDestroyed
  | Some _ => if wd then Some ErrWiped else if bs_sealed st then Some ErrSealed else None
  end.

Lemma wp_guard p st wd w (Q : gerr + bufferState -> world -> Prop) R :
  w_bufs w !! p = Some st -> w_flags w !! bs_wiped st = Some wd ->
  Q (match refusal st wd with Some e => inl (Sent e) | None => inr st end) w ->
  wp (guard p) Q R w.
Proof.
  intros Hb Hf HQ. unfold guard, refusal in *. apply wp_bind. eapply wp_buf_get; [done|].
  destruct (bs_data st) as [n|]; [|by apply wp_ret]. apply wp_bind. eapply wp_flag_load; [done|].
  destruct wd; [by apply wp_ret|]. destruct (bs_sealed st); by apply wp_ret.
Qed.

(** A buffer an accessor gets to work on, its lock taken as [s] says. *)
Record ready (s : lockState) (w : world) (p : Z) st n m : Prop := Ready {
  rd_data : bs_data st = Some n;
  rd_live : live w p st n m false false;
  rd_rest : rest_ok st m;
  rd_openers : bs_openers st = 0;
  rd_buf : buf_ok w p st false false;
  rd_ok : world_ok w;
  rd_sealed : bs_sealed st = false;
  rd_in : inside (relock (bs_mu st) s w) p st 0 (relock (bs_mu st) s w) st m false
}.

Lemma ready_intro s w p st c wd :
  world_ok w -> buf_ok w p st c wd -> refusal st wd = None ->
  0 <= lk_readers s -> (lk_writer s = true -> lk_readers s = 0) ->
  wd = false /\ c = false /\ exists n m, ready s w p st n m.
Proof.
  intros W B Hr H1 H2. unfold refusal in Hr. destruct (bs_data st) as [n|] eqn:Ed; [|done].
  destruct wd; [done|]. destruct (bs_sealed st) eqn:Es; [done|].
  destruct (bo_live _ _ _ _ _ B n Ed) as [m Hl].
  destruct (lv_open _ _ _ _ _ _ _ Hl eq_refl Es) as [-> Hro]. split; [done|]. split; [done|].
  exists n, m. constructor; try done; [apply B|by eapply inside_enter].
Qed.

(** What a reading operation leaves: the same buffer with the same bytes. *)
Definition settled_as (w : world) (p : Z) st st' n (bytes : list Z) (w' : world) : Prop :=
  exists m', op_done w p st 0 w' st' false false /\ live w' p st' n m' false false /\ mp_bytes m' = bytes.
Definition settled (w : world) (p : Z) st n (bytes : list Z) (w' : world) : Prop :=
  settled_as w p st st n bytes w'.

Lemma ready_leave s w p st n m w' m' :
  ready s w p st n m -> inside (relock (bs_mu st) s w) p st 0 w' st m' false -> rest_ok st m' ->
  w_locks w' !! bs_mu st = Some s /\ settled w p st n (mp_bytes m') (unlocked (bs_mu st) w').
Proof.
  intros [R1 R2 R3 R4 R5 R6 R7 R8] I Hr. split; [by eapply inside_locked|].
  destruct (inside_leave s w p st false 0 w' st n m' false) as [D L]; [done|done|done|done|by destruct R2|done|done|]. exists m'. split; [done|]. split; [done|done].
Qed.

Lemma ready_back s w p st n m :
  ready s w p st n m -> w_locks (relock (bs_mu st) s w) !! bs_mu st = Some s /\
  unlocked (bs_mu st) (relock (bs_mu st) s w) = w.
Proof.
  intros R. split; [cbn; apply lookup_insert_eq|]. apply relock_unlocked, R.
Qed.

Lemma ready_settled s w p st n m : ready s w p st n m -> settled w p st n (mp_bytes m) w.
Proof. intros []. exists m. split; [|done]. by apply op_done_refl. Qed.

Lemma wp_shared {A} p st c wd (none : gerr -> A) body w (Q : A -> world -> Prop) (R : world -> Prop) :
  world_ok w -> buf_ok w p st c wd ->
  (forall e, refusal st wd = Some e -> Q (none (Sent e)) w) ->
  (forall n m, refusal st wd = None -> ready (LockState 1 false) w p st n m ->
     wp (body p st)
       (fun a w' => w_locks w' !! bs_mu st = Some (LockState 1 false) /\ Q a (unlocked (bs_mu st) w'))
       (fun w' => w_locks w' !! bs_mu st = Some (LockState 1 false) /\ R (unlocked (bs_mu st) w'))
       (borrowed (bs_mu st) w)) ->
  wp (shared (Ref p) none body) Q R w.
Proof.
  intros W B Hno Hgo. unfold shared. apply wp_bind. eapply wp_buf_get; [apply B|].
  apply wp_bind, wp_lk_rLock; [apply B|]. apply wp_defer, wp_bind. eapply wp_guard; [apply B|apply B|].
  destruct (refusal st wd) as [e|] eqn:Er.
  - apply wp_ret, wp_lk_rUnlock; [cbn; apply lookup_insert_eq|].
    unfold borrowed. rewrite relock_unlocked; [by apply Hno|apply B].
  - destruct (ready_intro (LockState 1 false) w p st c wd) as (-> & -> & n & m & Hrd); try done.
    eapply wp_mono; [by eapply Hgo|..]; cbn beta; [intros a w' [? ?]|intros w' [? ?]]; by apply wp_lk_rUnlock.
Qed.

(** The mutating accessors refuse a read-only buffer last. *)
Definition mut_refusal (st : bufferState) (wd : bool) : option sentinel :=
  match refusal st wd with
  | Some e => Some e
  | None => if bs_readOnly st then Some ErrReadOnly else None
  end.

Lemma wp_mutating {A} p st c wd (none : gerr -> A) body w (Q : A -> world -> Prop) (R : world -> Prop) :
  world_ok w -> buf_ok w p st c wd ->
  (forall e, mut_refusal st wd = Some e -> Q (none (Sent e)) w) ->
  (forall n m, mut_refusal st wd = None -> bs_readOnly st = false -> ready (LockState 0 true) w p st n m ->
     wp (body p st)
       (fun a w' => w_locks w' !! bs_mu st = Some (LockState 0 true) /\ Q a (unlocked (bs_mu st) w'))
       (fun w' => w_locks w' !! bs_mu st = Some (LockState 0 true) /\ R (unlocked (bs_mu st) w'))
       (locked (bs_mu st) w)) ->
  wp (mutating (Ref p) none body) Q R w.
Proof.
  intros W B Hno Hgo. unfold mutating, mut_refusal in *. apply wp_bind. eapply wp_buf_get; [apply B|].
  apply wp_bind, wp_lk_lock; [apply B|]. change (set_locks _ w) with (locked (bs_mu st) w).
  assert (forall e, Q (none (Sent e)) w -> wp (lk_unlock (bs_mu st)) (fun _ => Q (none (Sent e))) R (locked (bs_mu st) w)) as Hback.
  { intros e HQ. eapply wp_lk_unlock; [cbn; apply lookup_insert_eq|].
    change (Q (none (Sent e)) (unlocked (bs_mu st) (locked (bs_mu st) w))). rewrite locked_unlocked; [done|apply B]. }
  apply wp_defer, wp_bind. eapply wp_guard; [apply B|apply B|].
  destruct (refusal st wd) as [e|] eqn:Er; [by apply wp_ret, Hback, Hno|].
  destruct (bs_readOnly st) eqn:Ero; [by apply wp_ret, Hback, Hno|].
  destruct (ready_intro (LockState 0 true) w p st c wd) as (-> & -> & n & m & Hrd); try done.
  eapply wp_mono; [by eapply Hgo|..]; cbn beta; [intros a w' [? ?]|intros w' [? ?]]; by eapply wp_lk_unlock.
Qed.
End borrow.
