(* ===== verification/BufferReads.v ===== *)
(** * Reading a buffer

    The read-locked accessors: what each returns in every state of the buffer,
    and that it leaves the buffer and its bytes as they were. *)
From S2P Require Import Prelude Errors Canary World Memory Frame Sample Quarantine Janitor Process SealAuth SecureBuffer BufferAccess BufferSpec BufferBorrow.

(** Leaves an accessor that has not changed anything. *)
Ltac refuse Rd :=
  apply wp_ret; cbn beta; destruct (ready_back _ _ _ _ _ _ Rd) as [? ?Hback];
  split; [done|]; unfold borrowed, locked; rewrite Hback.

Section reads.
Context `{K : Kernel} {KOk : KernelOk}.
Implicit Types (w : world) (st : bufferState) (m : mapping).

(** A computation that reads the region and returns [a] for the bytes [b]. *)
Definition reading {A} (st : bufferState) (b : list Z) (cp : GM A) (a : A) : Prop :=
  forall w m (Q : A -> world -> Prop) R, mapped w (bs_region st) m -> readable m = true -> mp_bytes m = b ->
  Q a w -> wp cp Q R w.

Lemma reading_load {A} st b (f : list Z -> A) :
  reading st b (bs ← mem_load (rg_base (bs_region st)); mret (f bs)) (f b).
Proof. intros w m Q R Hm Hr <- HQ. apply wp_bind. eapply wp_mem_load; [apply Hm|done|]. by apply wp_ret. Qed.

Lemma reading_ret {A} st b (a : A) : reading st b (mret a) a.
Proof. intros w m Q R _ _ _ HQ. by apply wp_ret. Qed.

Lemma lsub_empty {A} lo (l : list A) : lsub lo lo l = [].
Proof. unfold lsub. by rewrite Z.sub_diag. Qed.

(** [copy(dst, data[off:hi])]. *)
Lemma reading_copy st b off hi dst :
  let n := Z.min (zlen dst) (hi - off) in
  off <= hi ->
  reading st b (copy_from st off hi dst) (n, lset 0 (lsub off (off + n) b) dst).
Proof.
  intros n Ho. unfold copy_from. fold n. destruct (n <=? 0) eqn:E; [|apply (reading_load st b (fun bs => (n, _)))].
  assert (n = 0) as -> by (pose proof (zlen_nonneg dst); unfold n in *; lia).
  rewrite Z.add_0_r, lsub_empty, lset_nil by (pose proof (zlen_nonneg dst); lia). apply reading_ret.
Qed.

(** What [copyClosed] hands on. *)
Definition read_result {A} (none a : A) (r : A * option gerr) : Prop :=
  r.1 = a \/ r.2 <> None /\ r.1 = none.

Lemma wp_read_closed {A} s w p st n m (none a : A) cp (Q : A * option gerr -> world -> Prop) R :
  ready s w p st n m -> bs_closedAtRest st = true -> reading st (mp_bytes m) cp a ->
  (forall r w', read_result none a r -> w_locks w' !! bs_mu st = Some s ->
     settled w p st n (mp_bytes m) (unlocked (bs_mu st) w') -> Q r w') ->
  wp (copyClosed p none cp) Q R (relock (bs_mu st) s w).
Proof.
  intros Rd Hc Hcp HQ. unfold copyClosed. apply wp_bind.
  eapply wp_in_open; [exact (rd_in _ _ _ _ _ _ Rd)|by destruct Rd|by destruct Rd|intros e w1 m1 I1 E1 R1 _|intros w1 m1 I1 E1 O1 R1 _].
  - apply wp_ret. destruct (ready_leave _ _ _ _ _ _ _ _ Rd I1 R1) as [Hl Hs]. rewrite E1 in Hs.
    apply HQ; [by right|done|done].
  - apply wp_bind. assert (mapped w1 (bs_region st) m1) as Hm1.
    { pose proof (bc_map _ _ _ _ (in_core _ _ _ _ _ _ _ _ I1)) as Hm. unfold opening in Hm. by destruct (bs_closedAtRest st). }
    eapply Hcp; [exact Hm1|apply O1|done|]. apply wp_bind.
    eapply wp_in_close; [exact I1|by destruct Rd|exact R1|]. intros e w2 m2 I2 E2 R2 _. apply wp_ret.
    destruct (ready_leave _ _ _ _ _ _ _ _ Rd I2 R2) as [Hl Hs]. rewrite E2, E1 in Hs.
    apply HQ; [by left|done|done].
Qed.

Lemma reading_now {A} s w p st n m (cp : GM A) a (Q : A -> world -> Prop) R :
  ready s w p st n m -> bs_closedAtRest st = false -> reading st (mp_bytes m) cp a ->
  Q a (relock (bs_mu st) s w) -> wp cp Q R (relock (bs_mu st) s w).
Proof.
  intros Rd Hc Hcp HQ. pose proof (bc_map _ _ _ _ (in_core _ _ _ _ _ _ _ _ (rd_in _ _ _ _ _ _ Rd))) as Hm.
  eapply Hcp; [exact Hm| |done|exact HQ]. eapply rest_opened; [exact Hm|done|by destruct Rd].
Qed.

(** Both modes of the accessors: with the pages open, the result is the one of
    the bytes and nothing changes; a closed-at-rest buffer may fail to open or
    to close. *)
Lemma wp_read {A B} s w p st n m (none a : A) cp (f : A * option gerr -> B) (g : A -> B)
    (Q : B -> world -> Prop) R :
  ready s w p st n m -> reading st (mp_bytes m) cp a -> g a = f (a, None) ->
  (forall r w', read_result none a r -> (bs_closedAtRest st = false -> r = (a, None) /\ unlocked (bs_mu st) w' = w) ->
     w_locks w' !! bs_mu st = Some s ->
     settled w p st n (mp_bytes m) (unlocked (bs_mu st) w') -> Q (f r) w') ->
  wp (if bs_closedAtRest st then r ← copyClosed p none cp; mret (f r) else a ← cp; mret (g a)) Q R
    (relock (bs_mu st) s w).
Proof.
  intros Rd Hcp Eg HQ. destruct (bs_closedAtRest st) eqn:Ec.
  - apply wp_bind. eapply wp_read_closed; [exact Rd|done|exact Hcp|]. intros r w' H1 H2 H3. apply wp_ret. by apply HQ.
  - apply wp_bind. eapply reading_now; [exact Rd|done|exact Hcp|]. apply wp_ret. rewrite Eg.
    destruct (ready_back _ _ _ _ _ _ Rd) as [Hl Hb].
    apply HQ; [by left|done|done|]. rewrite Hb. by eapply ready_settled.
Qed.

(** The outcome of a reading call: [a] for the bytes of the buffer, which stays
    as it was; closed at rest, the pages may fail to open or to close. *)
Definition read_done {A} (w : world) (p : Z) st n (b : list Z) (none a : A) (r : A * option gerr) (w' : world) : Prop :=
  read_result none a r /\ settled w p st n b w' /\ (bs_closedAtRest st = false -> r = (a, None) /\ w' = w).

(** The state of a buffer an accessor reads: [n] bytes, [b] with the slack. *)
Definition holds (w : world) (p : Z) st n (b : list Z) : Prop :=
  bs_data st = Some n /\ exists m, live w p st n m false false /\ mp_bytes m = b.

Lemma ready_holds s w p st n m : ready s w p st n m -> holds w p st n (mp_bytes m).
Proof. intros []. split; [done|]. by exists m. Qed.

(** An accessor that refuses changes nothing; one that works gets the bytes. *)
Definition accessed {A} (refused : option sentinel) (none : gerr -> A) (w : world) (p : Z) st
    (P : Z -> list Z -> A -> world -> Prop) (r : A) (w' : world) : Prop :=
  match refused with
  | Some e => r = none (Sent e) /\ w' = w
  | None => exists n b, holds w p st n b /\ P n b r w'
  end.

Lemma returns_shared {A} p st c wd (none : gerr -> A) body w (P : Z -> list Z -> A -> world -> Prop) :
  world_ok w -> buf_ok w p st c wd ->
  (forall n m, ready (LockState 1 false) w p st n m ->
     wp (body p st)
       (fun a w' => w_locks w' !! bs_mu st = Some (LockState 1 false) /\ P n (mp_bytes m) a (unlocked (bs_mu st) w'))
       (fun _ => False) (borrowed (bs_mu st) w)) ->
  returns (shared (Ref p) none body) w (accessed (refusal st wd) none w p st P).
Proof.
  intros W B Hb. unfold returns, accessed. eapply wp_shared; [done|done|by intros e ->|].
  intros n m -> Rd. eapply wp_mono; [by apply Hb|..]; cbn beta; [|by intros ? []].
  intros a w' [? ?]. split; [done|]. exists n, (mp_bytes m). split; [by eapply ready_holds|done].
Qed.

Lemma returns_CopyOut p st c wd dst off w :
  world_ok w -> buf_ok w p st c wd ->
  returns (CopyOut (Ref p) dst off) w
    (accessed (refusal st wd) (fun e => (0, Some e, dst)) w p st (fun n b r w' =>
       if (off <? 0) || (n <=? off)
       then r = (0, Some (Msg "secmem.SecureBuffer.CopyOut: srcOffset out of range"), dst) /\ w' = w
       else let k := Z.min (zlen dst) (n - off) in
         read_done w p st n b (0, dst) (k, lset 0 (lsub off (off + k) b) dst) (r.1.1, r.2, r.1.2) w')).
Proof.
  intros W B. unfold CopyOut. eapply (returns_shared p st c wd); [done..|]. intros n m Rd.
  rewrite (rd_data _ _ _ _ _ _ Rd). change (default 0 (Some n)) with n. destruct (_ || _) eqn:E; [by refuse Rd|].
  apply orb_false_elim in E as [E1 E2].
  eapply (wp_read _ _ _ _ _ _ (0, dst) _ (copy_from st off n dst) (fun r => (r.1.1, r.2, r.1.2)) (fun r => (r.1, None, r.2)));
    [exact Rd|apply reading_copy; lia|done|].
  intros [[k d] e] w' Hr Hc Hl Hs. split; [done|]. by split_and!.
Qed.

Lemma returns_ByteAt p st c wd i w :
  world_ok w -> buf_ok w p st c wd ->
  returns (ByteAt (Ref p) i) w
    (accessed (refusal st wd) (fun e => (0, Some e)) w p st (fun n b r w' =>
       if (i <? 0) || (n <=? i)
       then r = (0, Some (Msg "secmem.SecureBuffer.ByteAt: index out of range")) /\ w' = w
       else read_done w p st n b 0 (b !!! Z.to_nat i) r w')).
Proof.
  intros W B. unfold ByteAt. eapply (returns_shared p st c wd); [done..|]. intros n m Rd.
  rewrite (rd_data _ _ _ _ _ _ Rd). change (default 0 (Some n)) with n. destruct (_ || _) eqn:E; [by refuse Rd|].
  apply orb_false_elim in E as [E1 E2].
  pose proof (lv_len _ _ _ _ _ _ _ (rd_live _ _ _ _ _ _ Rd)) as Hn.
  pose proof (md_len _ _ _ (bc_map _ _ _ _ (lv_core _ _ _ _ _ _ _ (rd_live _ _ _ _ _ _ Rd)))) as Hlen.
  assert (mp_bytes m !! Z.to_nat i = Some (mp_bytes m !!! Z.to_nat i)) as Hi.
  { apply list_lookup_lookup_total_lt. unfold zlen in *. lia. }
  assert (reading st (mp_bytes m) (copy_from st i (i + 1) [0]) (1, [mp_bytes m !!! Z.to_nat i])) as Hrd.
  { pose proof (reading_copy st (mp_bytes m) i (i + 1) [0] ltac:(lia)) as Hr.
    change (zlen [0]) with 1 in Hr. replace (Z.min 1 (i + 1 - i)) with 1 in Hr by lia.
    replace (lset 0 (lsub i (i + 1) (mp_bytes m)) [0]) with [mp_bytes m !!! Z.to_nat i] in Hr; [done|].
    unfold lset, lsub. replace (Z.to_nat (i + 1 - i)) with 1%nat by lia.
    rewrite (drop_S _ _ _ Hi). done. }
  destruct (bs_closedAtRest st) eqn:Ec.
  - apply wp_bind. eapply wp_read_closed; [exact Rd|done|exact Hrd|]. intros [[k d] e] w' Hr Hl Hs. apply wp_ret.
    split; [done|]. split; [|by split; [|congruence]]. destruct Hr as [Hr|[He Hr]]; cbn in Hr; simplify_eq; [by left|by right].
  - apply wp_bind. eapply wp_mem_load.
    + apply (bc_map _ _ _ _ (in_core _ _ _ _ _ _ _ _ (rd_in _ _ _ _ _ _ Rd))).
    + eapply rest_opened; [apply (bc_map _ _ _ _ (in_core _ _ _ _ _ _ _ _ (rd_in _ _ _ _ _ _ Rd)))|done|by destruct Rd].
    + refuse Rd.
      split; [by left|]. split; [by eapply ready_settled|done].
Qed.

Lemma returns_ConstantTimeEqual p st c wd other w :
  world_ok w -> buf_ok w p st c wd ->
  returns (ConstantTimeEqual (Ref p) other) w
    (accessed (refusal st wd) (fun e => (false, Some e)) w p st (fun n b r w' =>
       if negb (n =? zlen other) then r = (false, None) /\ w' = w
       else read_done w p st n b false (bool_decide (lsub 0 n b = other)) r w')).
Proof.
  intros W B. unfold ConstantTimeEqual. eapply (returns_shared p st c wd); [done..|]. intros n m Rd.
  rewrite (rd_data _ _ _ _ _ _ Rd). change (default 0 (Some n)) with n. destruct (negb _) eqn:E; [by refuse Rd|].
  match goal with |- context [equalClosed p ?cmp] => set (cp := cmp) end.
  pose proof (lv_len _ _ _ _ _ _ _ (rd_live _ _ _ _ _ _ Rd)) as Hn.
  assert (reading st (mp_bytes m) cp (bool_decide (lsub 0 n (mp_bytes m) = other))) as Hcp.
  { unfold cp. destruct (n <=? 0) eqn:E0; [|apply (reading_load st (mp_bytes m) (fun bs => bool_decide (lsub 0 n bs = other)))].
    assert (n = 0) as -> by lia. rewrite lsub_empty.
    replace (bool_decide (other = [])) with (bool_decide ([] = other)); [apply reading_ret|].
    apply bool_decide_ext. split; congruence. }
  destruct (bs_closedAtRest st) eqn:Ec.
  - eapply wp_read_closed; [exact Rd|done|exact Hcp|]. intros r w' Hr Hl Hs.
    split; [done|]. split; [done|]. by split; [|congruence].
  - apply wp_bind. eapply reading_now; [exact Rd|done|exact Hcp|].
    refuse Rd.
    split; [by left|]. split; [by eapply ready_settled|done].
Qed.

(** [ExposeString] hands out the contents, or no string. *)
Lemma returns_ExposeString p st c wd w :
  world_ok w -> buf_ok w p st c wd ->
  returns (ExposeString (Ref p)) w
    (accessed (refusal st wd) inl w p st (fun n b r w' =>
       settled w p st n b w' /\ (r = inr (lsub 0 n b) \/ bs_closedAtRest st = true /\ exists e, r = inl e) /\
       (bs_closedAtRest st = false -> w' = w))).
Proof.
  intros W B. unfold ExposeString. eapply (returns_shared p st c wd); [done..|]. intros n m Rd.
  rewrite (rd_data _ _ _ _ _ _ Rd). change (default 0 (Some n)) with n.
  match goal with |- context [copyClosed p [] ?cmp] => set (cp := cmp) end.
  assert (reading st (mp_bytes m) cp (lsub 0 n (mp_bytes m))) as Hcp.
  { unfold cp. destruct (n <=? 0) eqn:E0; [|apply reading_load].
    pose proof (lv_len _ _ _ _ _ _ _ (rd_live _ _ _ _ _ _ Rd)). assert (n = 0) as -> by lia.
    rewrite lsub_empty. apply reading_ret. }
  eapply (wp_read _ _ _ _ _ _ [] _ cp (fun r => match r.2 with Some e => inl e | None => inr r.1 end) inr);
    [exact Rd|exact Hcp|done|].
  intros [x [e|]] w' Hr Hc Hl Hs; (split; [done|]; split; [done|]; cbn in *).
  - split; [|by intros []%Hc]. right. destruct (bs_closedAtRest st); [by eauto|]. by destruct Hc.
  - destruct Hr as [Hr|[[] _]]; [|done]. cbn in Hr. subst x. split; [by left|by intros []%Hc].
Qed.

(** ** Borrowing *)

Lemma wp_defer_err (body fin : GM (option gerr)) (Q : option gerr -> world -> Prop) (R : world -> Prop) w :
  wp body (fun r w' => wp fin (fun cerr => Q (match r with None => cerr | Some _ => r end)) R w')
       (fun w' => wp fin (fun _ => R) R w') w ->
  wp (defer_err body fin) Q R w.
Proof.
  unfold wp, defer_err, mbind, M_bind. destruct (body w) as [r w'|w'| |]; [| |done..]; destruct (fin w') as [c w''|w''| |]; done.
Qed.

(** A callback that uses nothing but the slice it is handed: it may read it,
    write it if the pages allow, return any error or panic. [P] and [R] say
    what it leaves in the slice. *)
Definition slice_callback (fn : callback (option gerr)) st n (b : list Z)
    (P : option gerr -> list Z -> Prop) (R : list Z -> Prop) : Prop :=
  forall w m, mapped w (bs_region st) m -> opened st m -> mp_bytes m = b ->
  let wrote b' w' := zlen b' = zlen b /\ w' = set_mem (insert (rg_base (bs_region st)) (with_bytes b' m)) w in
  wp (fn (bs_region st) n) (fun e w' => exists b', wrote b' w' /\ P e b') (fun w' => exists b', wrote b' w' /\ R b') w.

(** What a borrow ends with: the callback's error, or else the one of closing
    the pages; or the pages did not open and the callback did not run. *)
Definition borrow_done (w : world) (p : Z) st n (b : list Z) (P : option gerr -> list Z -> Prop)
    (e : option gerr) (w' : world) : Prop :=
  (exists e' b', P e' b' /\ settled w p st n b' w' /\ (e = e' \/ bs_closedAtRest st = true /\ e' = None)) \/
  bs_closedAtRest st = true /\ e <> None /\ settled w p st n b w'.

(** A borrow that ran its callback ends with the pages of the buffer's mode:
    [ce] is the error of shutting them, the last kernel call. *)
Definition shut (w : world) st (ce : option gerr) (w' : world) : Prop :=
  exists prot prot', pages w st = Some prot /\ pages w' st = Some prot' /\
    close_ended st (pred (w_tick w')) (borrowProtection st prot) ce prot'.

(** The pages did not open. *)
Definition unopened (w : world) st (e : gerr) (w' : world) : Prop :=
  exists prot prot', pages w st = Some prot /\ pages w' st = Some prot' /\ open_failed st (w_tick w) prot e prot'.

(** What a borrow returns and leaves: the callback's error if it had one, else
    the one of shutting the pages; or the pages did not open and the callback
    did not run. *)
Definition borrow_ended (w : world) (p : Z) st n (b : list Z) (P : option gerr -> list Z -> Prop)
    (e : option gerr) (w' : world) : Prop :=
  (exists e' b' ce, P e' b' /\ settled w p st n b' w' /\ shut w st ce w' /\
     e = match e' with Some _ => e' | None => ce end) \/
  (exists e', e = Some e' /\ unopened w st e' w' /\ settled w p st n b w').

(** Forgetting what the pages are left at. *)
Lemma borrow_ended_done w p st n b P e w' : borrow_ended w p st n b P e w' -> borrow_done w p st n b P e w'.
Proof.
  intros [(e' & b' & ce & HP & Hs & (prot & prot' & _ & _ & Hc) & ->)|(e' & -> & (prot & prot' & _ & _ & Hc & _) & Hs)].
  - left. exists e', b'. split; [done|]. split; [done|]. destruct e'; [by left|]. unfold close_ended in Hc.
    destruct (bs_closedAtRest st); [by right|]. by destruct Hc as [-> _]; left.
  - by right.
Qed.

Lemma inside_opening w0 p st k w m :
  inside w0 p st k w (opening st) m false -> mapped w (bs_region st) m.
Proof.
  intros I. pose proof (bc_map _ _ _ _ (in_core _ _ _ _ _ _ _ _ I)) as Hm. unfold opening in Hm.
  by destruct (bs_closedAtRest st).
Qed.

Lemma inside_wrote w0 p st w m b :
  inside w0 p st 0 w (opening st) m false -> zlen b = zlen (mp_bytes m) ->
  inside w0 p st 0 (set_mem (insert (rg_base (bs_region st)) (with_bytes b m)) w) (opening st) (with_bytes b m) false.
Proof.
  intros I Hl. rewrite <- (si_region _ _ (in_same _ _ _ _ _ _ _ _ I)). apply (inside_remap _ _ _ _ _ _ m); try done. apply I.
Qed.

(** Shutting the pages over what the callback left in the slice. *)
Lemma wp_shut w p st n m w1 m1 b' :
  ready (LockState 1 false) w p st n m -> bs_closedAtRest st = true ->
  inside (borrowed (bs_mu st) w) p st 0 w1 (opening st) m1 false -> zlen b' = zlen (mp_bytes m1) ->
  mp_prot m1 = borrowProtection st (mp_prot m) ->
  wp (close p) (fun ce w' => w_locks w' !! bs_mu st = Some (LockState 1 false) /\
      settled w p st n b' (unlocked (bs_mu st) w') /\ shut w st ce (unlocked (bs_mu st) w'))
    (fun _ => False) (set_mem (insert (rg_base (bs_region st)) (with_bytes b' m1)) w1).
Proof.
  intros Rd Ec I1 Hb Ep. eapply wp_in_close_at; [by eapply inside_wrote|by destruct Rd|by intros ?; congruence|].
  intros ce w3 m3 I3 E3 R3 _ Hc. destruct (ready_leave _ _ _ _ _ _ _ _ Rd I3 R3) as [Hl Hs]. rewrite E3 in Hs.
  split; [done|]. split; [done|]. exists (mp_prot m), (mp_prot m3).
  split; [exact (inside_pages _ _ _ _ _ _ _ _ (rd_in _ _ _ _ _ _ Rd))|].
  split; [exact (inside_pages _ _ _ _ _ _ _ _ I3)|]. by rewrite <- Ep.
Qed.

Lemma wp_borrow fn w p st n m P R :
  ready (LockState 1 false) w p st n m -> slice_callback fn st n (mp_bytes m) P R ->
  wp (if bs_closedAtRest st then borrowClosed p fn else fn (bs_region st) n)
    (fun e w' => w_locks w' !! bs_mu st = Some (LockState 1 false) /\
       borrow_ended w p st n (mp_bytes m) P e (unlocked (bs_mu st) w'))
    (fun w' => w_locks w' !! bs_mu st = Some (LockState 1 false) /\
       exists b' ce, R b' /\ settled w p st n b' (unlocked (bs_mu st) w') /\ shut w st ce (unlocked (bs_mu st) w'))
    (borrowed (bs_mu st) w).
Proof.
  intros Rd Hfn. pose proof (rd_in _ _ _ _ _ _ Rd) as I0. pose proof (inside_pages _ _ _ _ _ _ _ _ I0) as Hpg.
  pose proof (bc_map _ _ _ _ (in_core _ _ _ _ _ _ _ _ I0)) as Hm0.
  destruct (bs_closedAtRest st) eqn:Ec.
  - unfold borrowClosed. apply wp_bind.
    eapply wp_in_open_at; [exact I0|by destruct Rd|by destruct Rd|intros e w1 m1 I1 E1 R1 F1|intros w1 m1 I1 E1 O1 R1 _ P1].
    + apply wp_ret. destruct (ready_leave _ _ _ _ _ _ _ _ Rd I1 R1) as [Hl Hs]. rewrite E1 in Hs.
      split; [done|]. right. exists e. split; [done|]. split; [|done].
      exists (mp_prot m), (mp_prot m1). split; [done|]. by split; [exact (inside_pages _ _ _ _ _ _ _ _ I1)|].
    + apply wp_defer_err, wp_bind. eapply wp_buf_get; [apply I1|].
      assert (bs_region (opening st) = bs_region st /\ bs_data (opening st) = Some n) as [-> ->].
      { unfold opening. rewrite Ec. split; [done|]. by destruct Rd. }
      change (default 0 (Some n)) with n. rewrite <- E1 in Hfn.
      eapply wp_mono; [apply (Hfn w1 m1); [by eapply inside_opening|done|done]|..]; cbn beta.
      * intros e w2 (b' & [Hz ->] & HP). eapply wp_mono; [by eapply wp_shut| |done]. cbn beta.
        intros ce w3 (Hl & Hs & Hc). split; [done|]. left. exists e, b', ce. by destruct e; split_and!.
      * intros w2 (b' & [Hz ->] & HR). eapply wp_mono; [by eapply wp_shut| |done]. cbn beta.
        intros ce w3 (Hl & Hs & Hc). split; [done|]. by exists b', ce.
  - assert (opened st m) as Ho by (eapply rest_opened; [exact Hm0|done|by destruct Rd]).
    assert (forall b' w2, zlen b' = zlen (mp_bytes m) ->
      w2 = set_mem (insert (rg_base (bs_region st)) (with_bytes b' m)) (borrowed (bs_mu st) w) ->
      w_locks w2 !! bs_mu st = Some (LockState 1 false) /\
      settled w p st n b' (unlocked (bs_mu st) w2) /\ shut w st None (unlocked (bs_mu st) w2)) as Hend.
    { intros b' w2 Hz ->.
      assert (inside (borrowed (bs_mu st) w) p st 0 (set_mem (insert (rg_base (bs_region st)) (with_bytes b' m))
        (borrowed (bs_mu st) w)) st (with_bytes b' m) false) as I1
        by (apply (inside_remap _ _ _ _ _ _ m); try done; apply I0).
      destruct (ready_leave _ _ _ _ _ _ _ (with_bytes b' m) Rd I1) as [Hl Hs]; [by destruct Rd|].
      split; [done|]. split; [done|]. exists (mp_prot m), (mp_prot m). split; [done|].
      split; [exact (inside_pages _ _ _ _ _ _ _ _ I1)|]. unfold close_ended, borrowProtection. by rewrite Ec. }
    eapply wp_mono; [apply (Hfn _ m); [exact Hm0|done|done]|..]; cbn beta.
    + intros e w2 (b' & [Hz Hw] & HP). destruct (Hend b' w2 Hz Hw) as (Hl & Hs & Hc). split; [done|]. left.
      exists e, b', None. by destruct e; split_and!.
    + intros w2 (b' & [Hz Hw] & HR). destruct (Hend b' w2 Hz Hw) as (Hl & Hs & Hc). split; [done|]. by exists b', None.
Qed.

Lemma wp_WithBytesErr_at p st c wd fn P R w :
  world_ok w -> buf_ok w p st c wd ->
  (forall n b, holds w p st n b -> slice_callback fn st n b (P b) (R b)) ->
  wp (WithBytesErr (Ref p) (Some fn))
    (accessed (refusal st wd) Some w p st (fun n b e w' => borrow_ended w p st n b (P b) e w'))
    (fun w' => exists n b b' ce, holds w p st n b /\ R b b' /\ settled w p st n b' w' /\ shut w st ce w') w.
Proof.
  intros W B Hfn. unfold WithBytesErr, accessed. eapply wp_shared; [done|done|by intros e ->|].
  intros n m -> Rd. rewrite (rd_data _ _ _ _ _ _ Rd). change (default 0 (Some n)) with n.
  eapply wp_mono; [eapply wp_borrow; [exact Rd|by eapply Hfn, ready_holds]|..]; cbn beta.
  - intros e w' [Hl HP]. split; [done|]. exists n, (mp_bytes m). split; [by eapply ready_holds|done].
  - intros w' [Hl (b' & ce & HR & Hs)]. split; [done|]. exists n, (mp_bytes m), b', ce. split; [by eapply ready_holds|done].
Qed.

Lemma wp_WithBytesErr p st c wd fn P R w :
  world_ok w -> buf_ok w p st c wd ->
  (forall n b, holds w p st n b -> slice_callback fn st n b (P b) (R b)) ->
  wp (WithBytesErr (Ref p) (Some fn))
    (accessed (refusal st wd) Some w p st (fun n b e w' => borrow_done w p st n b (P b) e w'))
    (fun w' => exists n b b', holds w p st n b /\ R b b' /\ settled w p st n b' w') w.
Proof.
  intros W B Hfn. eapply wp_mono; [by eapply (wp_WithBytesErr_at p st c wd fn P R)|..]; cbn beta.
  - intros e w'. unfold accessed. destruct (refusal st wd); [done|]. intros (n & b & Hh & He). exists n, b.
    split; [done|by apply borrow_ended_done].
  - intros w' (n & b & b' & ce & Hh & HR & Hs & _). eauto 10.
Qed.

(** [WithBytes] is [WithBytesErr] of a callback with no error. *)
Lemma WithBytes_err s fn :
  WithBytes s (Some fn) = WithBytesErr s (Some (fun r n => fn r n;; mret None)).
Proof. done. Qed.

(** [WriteTo]: the writer gets the contents, after the lock is dropped. *)
Lemma returns_WriteTo p st c wd write w (P : list Z -> Z * option gerr -> world -> Prop) (R : world -> Prop) :
  world_ok w -> buf_ok w p st c wd ->
  (forall n b w', holds w p st n b -> settled w p st n b w' -> wp (write (lsub 0 n b)) (P (lsub 0 n b)) R w') ->
  wp (WriteTo (Ref p) write)
    (accessed (refusal st wd) (fun e => (0, Some e)) w p st (fun n b r w' =>
       P (lsub 0 n b) r w' \/ bs_closedAtRest st = true /\ r.1 = 0 /\ r.2 <> None /\ settled w p st n b w')) R w.
Proof.
  intros W B Hwr. unfold WriteTo, accessed. apply wp_bind. eapply wp_buf_get; [apply B|].
  apply wp_bind, wp_lk_rLock; [apply B|]. apply wp_bind. eapply wp_guard; [apply B|apply B|].
  destruct (refusal st wd) as [e|] eqn:Er.
  { apply wp_bind, wp_lk_rUnlock; [apply lookup_insert_eq|]. apply wp_ret. split; [done|].
    apply relock_unlocked, B. }
  destruct (ready_intro (LockState 1 false) w p st c wd) as (-> & -> & n & m & Rd); try done.
  pose proof (ready_holds _ _ _ _ _ _ Rd) as Hh. rewrite (rd_data _ _ _ _ _ _ Rd). change (default 0 (Some n)) with n.
  pose proof (lv_len _ _ _ _ _ _ _ (rd_live _ _ _ _ _ _ Rd)) as Hn.
  pose proof (md_len _ _ _ (bc_map _ _ _ _ (lv_core _ _ _ _ _ _ _ (rd_live _ _ _ _ _ _ Rd)))) as Hlen.
  assert (forall w', settled w p st n (mp_bytes m) w' -> wp (write (lsub 0 n (mp_bytes m)))
    (fun r w' => exists n b, holds w p st n b /\ (P (lsub 0 n b) r w' \/ bs_closedAtRest st = true /\ r.1 = 0 /\ r.2 <> None /\ settled w p st n b w')) R w') as Hgo.
  { intros w' Hs. eapply wp_mono; [by eapply Hwr|..]; cbn beta; [|done]. intros r w2 HP. exists n, (mp_bytes m). by split; [|left]. }
  apply wp_bind.
  eapply wp_in_open; [exact (rd_in _ _ _ _ _ _ Rd)|by destruct Rd|by destruct Rd|
    intros e w1 m1 I1 E1 R1 Hc|intros w1 m1 I1 E1 O1 R1 Hw].
  - destruct (ready_leave _ _ _ _ _ _ _ _ Rd I1 R1) as [Hl Hs]. rewrite E1 in Hs.
    apply wp_bind, wp_lk_rUnlock; [done|]. apply wp_ret. exists n, (mp_bytes m). split; [done|]. by right.
  - apply wp_bind. eapply (reading_copy st (mp_bytes m) 0 n (zeros n)); [lia|by eapply inside_opening|apply O1|done|].
    apply wp_bind. eapply wp_in_close; [exact I1|by destruct Rd|exact R1|]. intros e w2 m2 I2 E2 R2 Hc.
    destruct (ready_leave _ _ _ _ _ _ _ _ Rd I2 R2) as [Hl Hs]. rewrite E2, E1 in Hs.
    apply wp_bind, wp_lk_rUnlock; [done|]. destruct e as [e|].
    + apply wp_ret. exists n, (mp_bytes m). split; [done|]. right.
      destruct (bs_closedAtRest st); [done|]. by destruct Hc.
    + cbn [snd]. rewrite zlen_zeros by lia. replace (Z.min n (n - 0)) with n by lia. rewrite Z.add_0_l.
      rewrite lset_full; [by apply Hgo|].
      assert (zlen (lsub 0 n (mp_bytes m)) = zlen (zeros n)) as Hz by (rewrite zlen_lsub, zlen_zeros; lia).
      unfold zlen in Hz. lia.
Qed.
(** The two questions about the length. *)
Lemma wp_Len p st c wd w (Q : Z -> world -> Prop) R :
  buf_ok w p st c wd -> Q (default 0 (bs_data st)) w -> wp (Len (Ref p)) Q R w.
Proof.
  intros B HQ. unfold Len. apply wp_bind. eapply wp_buf_get; [apply B|]. apply wp_bind, wp_lk_rLock; [apply B|].
  apply wp_defer, wp_bind. eapply wp_buf_get; [apply B|]. apply wp_ret, wp_lk_rUnlock; [cbn; apply lookup_insert_eq|].
  unfold borrowed. rewrite relock_unlocked; [done|apply B].
Qed.

Lemma wp_IsDestroyed p st c wd w (Q : bool -> world -> Prop) R :
  buf_ok w p st c wd -> Q (bool_decide (bs_data st = None)) w -> wp (IsDestroyed (Ref p)) Q R w.
Proof.
  intros B HQ. unfold IsDestroyed. apply wp_bind. eapply wp_buf_get; [apply B|]. apply wp_bind, wp_lk_rLock; [apply B|].
  apply wp_defer, wp_bind. eapply wp_buf_get; [apply B|]. apply wp_ret, wp_lk_rUnlock; [cbn; apply lookup_insert_eq|].
  unfold borrowed. rewrite relock_unlocked; [|apply B].
  assert ((rg_inner (bs_region st) =? 0) = bool_decide (bs_data st = None)) as -> by
    (destruct (bs_data st) as [n|] eqn:E; [destruct (bo_live _ _ _ _ _ B n E) as [m L]; pose proof (live_inner _ _ _ _ _ _ _ L);
       rewrite bool_decide_false by done; by apply Z.eqb_neq; lia
     |rewrite (bo_nil _ _ _ _ _ B E), bool_decide_true by done; done]).
  done.
Qed.

Lemma live_positive w p st n b : holds w p st n b -> 0 <= n.
Proof. intros [_ (m & L & _)]. apply (lv_len _ _ _ _ _ _ _ L). Qed.

Lemma zlen_slice w p st n b : holds w p st n b -> zlen (lsub 0 n b) = n.
Proof.
  intros [_ (m & L & <-)]. pose proof (lv_len _ _ _ _ _ _ _ L).
  pose proof (md_len _ _ _ (bc_map _ _ _ _ (lv_core _ _ _ _ _ _ _ L))). rewrite zlen_lsub; lia.
Qed.
End reads.
