(* ===== verification/BufferWrites.v ===== *)
(** * Changing a buffer

    The write-locked operations: copies into the buffer, single bytes, the
    mode changes and Truncate, in every state of the buffer. *)
From S2P Require Import Prelude Errors Canary World Memory Frame Sample Quarantine Janitor Process SealAuth SecureBuffer BufferAccess BufferSpec BufferBorrow BufferReads.

Section writes.
Context `{K : Kernel} {KOk : KernelOk}.
Implicit Types (w : world) (st : bufferState) (m : mapping).

(** What a copy into the buffer ends with: [b'] in place of [b] and the count
    [k], or an unchanged buffer that could not open its pages. *)
Definition write_done (w : world) (p : Z) st n (b b' : list Z) (k : Z) (r : Z * option gerr) (w' : world) : Prop :=
  (settled w p st n b' w' /\ r.1 = k /\ (bs_closedAtRest st = false -> r.2 = None)) \/
  bs_closedAtRest st = true /\ r.1 = 0 /\ r.2 <> None /\ settled w p st n b w'.

Lemma wp_copy_to w0 p st w m off hi src (Q : Z -> world -> Prop) R :
  inside w0 p st 0 w (opening st) m false -> writable m = true -> 0 <= off <= hi -> hi <= rg_inner (bs_region st) ->
  let k := Z.min (zlen src) (hi - off) in
  (forall w' m', inside w0 p st 0 w' (opening st) m' false ->
     mp_bytes m' = lset off (take (Z.to_nat k) src) (mp_bytes m) -> mp_prot m' = mp_prot m -> Q k w') ->
  wp (copy_to st off hi src) Q R w.
Proof.
  intros I Hw Ho Hh k HQ. unfold copy_to. fold k. pose proof (inside_opening _ _ _ _ _ _ I) as Hm.
  pose proof (md_len _ _ _ Hm) as Hlen. pose proof (zlen_nonneg src).
  apply wp_bind. eapply wp_mem_copy_in; [apply Hm|done|lia|]. apply wp_ret. eapply (HQ _ (with_bytes _ m)); [|done|done].
  eapply inside_wrote; [exact I|]. apply zlen_lset; [lia|].
  unfold zlen in *. rewrite length_take. lia.
Qed.

Lemma ready_sizes s w p st n m : ready s w p st n m -> 0 <= n <= rg_inner (bs_region st) /\ zlen (mp_bytes m) = rg_inner (bs_region st).
Proof.
  intros Rd. pose proof (rd_live _ _ _ _ _ _ Rd) as L. split; [apply L|].
  exact (md_len _ _ _ (bc_map _ _ _ _ (lv_core _ _ _ _ _ _ _ L))).
Qed.

Lemma opening_not st : bs_closedAtRest st = false -> opening st = st.
Proof. unfold opening. by intros ->. Qed.

Lemma wp_store w p st n m off hi src (Q : Z * option gerr -> world -> Prop) R :
  ready (LockState 0 true) w p st n m -> bs_readOnly st = false -> 0 <= off <= hi -> hi <= n ->
  let k := Z.min (zlen src) (hi - off) in
  (forall r w', w_locks w' !! bs_mu st = Some (LockState 0 true) ->
     write_done w p st n (mp_bytes m) (lset off (take (Z.to_nat k) src) (mp_bytes m)) k r (unlocked (bs_mu st) w') -> Q r w') ->
  wp (store p off hi src) Q R (locked (bs_mu st) w).
Proof.
  intros Rd Hro Ho Hh k HQ. destruct (ready_sizes _ _ _ _ _ _ Rd) as [Hn Hlen].
  pose proof (rd_in _ _ _ _ _ _ Rd) as I0. unfold store. apply wp_bind. eapply wp_buf_get; [apply I0|].
  destruct (bs_closedAtRest st) eqn:Ec.
  - unfold copyClosed. apply wp_bind.
    eapply wp_in_open; [exact I0|by destruct Rd|by destruct Rd|intros e w1 m1 I1 E1 R1 _|intros w1 m1 I1 E1 O1 R1 _].
    + apply wp_ret. destruct (ready_leave _ _ _ _ _ _ _ _ Rd I1 R1) as [Hl Hs]. rewrite E1 in Hs.
      apply HQ; [done|]. by right.
    + apply wp_bind. eapply wp_copy_to; [exact I1|by apply O1|done|lia|]. intros w2 m2 I2 E2 _.
      apply wp_bind. eapply wp_in_close; [exact I2|by destruct Rd|intros ?; congruence|]. intros e w3 m3 I3 E3 R3 _.
      apply wp_ret. destruct (ready_leave _ _ _ _ _ _ _ _ Rd I3 R3) as [Hl Hs]. rewrite E3, E2, E1 in Hs.
      apply HQ; [done|]. left. split; [done|]. split; [done|congruence].
  - pose proof (bc_map _ _ _ _ (in_core _ _ _ _ _ _ _ _ I0)) as Hm.
    assert (opened st m) as Hop by (eapply rest_opened; [exact Hm|done|by destruct Rd]).
    apply wp_bind. eapply wp_copy_to; [rewrite opening_not by done; exact I0|by apply Hop|done|lia|].
    rewrite opening_not by done. intros w2 m2 I2 E2 P2. apply wp_ret.
    assert (rest_ok st m2) as R2.
    { intros _. rewrite P2. by apply (rd_rest _ _ _ _ _ _ Rd). }
    destruct (ready_leave _ _ _ _ _ _ _ _ Rd I2 R2) as [Hl Hs]. rewrite E2 in Hs. apply HQ; [done|]. by left.
Qed.

Lemma returns_mutating {A} p st c wd (none : gerr -> A) body w (P : Z -> list Z -> A -> world -> Prop) :
  world_ok w -> buf_ok w p st c wd ->
  (forall n m, ready (LockState 0 true) w p st n m -> bs_readOnly st = false ->
     wp (body p st)
       (fun a w' => w_locks w' !! bs_mu st = Some (LockState 0 true) /\ P n (mp_bytes m) a (unlocked (bs_mu st) w'))
       (fun _ => False) (locked (bs_mu st) w)) ->
  returns (mutating (Ref p) none body) w (accessed (mut_refusal st wd) none w p st P).
Proof.
  intros W B Hb. unfold returns, accessed. eapply wp_mutating; [done|done|by intros e ->|].
  intros n m -> Hro Rd. eapply wp_mono; [by apply Hb|..]; cbn beta; [|by intros ? []].
  intros a w' [? ?]. split; [done|]. exists n, (mp_bytes m). split; [by eapply ready_holds|done].
Qed.

Lemma returns_CopyIn p st c wd src off w :
  world_ok w -> buf_ok w p st c wd ->
  returns (CopyIn (Ref p) src off) w
    (accessed (mut_refusal st wd) (fun e => (0, Some e)) w p st (fun n b r w' =>
       if (off <? 0) || (n <=? off)
       then r = (0, Some (Msg "secmem.SecureBuffer.CopyIn: dstOffset out of range")) /\ w' = w
       else let k := Z.min (zlen src) (n - off) in
         write_done w p st n b (lset off (take (Z.to_nat k) src) b) k r w')).
Proof.
  intros W B. unfold CopyIn. eapply (returns_mutating p st c wd); [done..|]. intros n m Rd Hro.
  rewrite (rd_data _ _ _ _ _ _ Rd). change (default 0 (Some n)) with n. destruct (_ || _) eqn:E; [by refuse Rd|].
  apply orb_false_elim in E as [E1 E2]. eapply wp_store; [exact Rd|done|lia|lia|]. intros r w' Hl Hw. by split.
Qed.

Lemma returns_SetByteAt p st c wd i v w :
  world_ok w -> buf_ok w p st c wd ->
  returns (SetByteAt (Ref p) i v) w
    (accessed (mut_refusal st wd) Some w p st (fun n b e w' =>
       if (i <? 0) || (n <=? i)
       then e = Some (Msg "secmem.SecureBuffer.SetByteAt: index out of range") /\ w' = w
       else (settled w p st n (<[Z.to_nat i := v]> b) w' /\ (bs_closedAtRest st = false -> e = None)) \/
            bs_closedAtRest st = true /\ e <> None /\ settled w p st n b w')).
Proof.
  intros W B. unfold SetByteAt. eapply (returns_mutating p st c wd); [done..|]. intros n m Rd Hro.
  rewrite (rd_data _ _ _ _ _ _ Rd). change (default 0 (Some n)) with n. destruct (_ || _) eqn:E; [by refuse Rd|].
  apply orb_false_elim in E as [E1 E2]. destruct (ready_sizes _ _ _ _ _ _ Rd) as [Hn Hlen].
  apply wp_bind. eapply wp_store; [exact Rd|done|lia|lia|]. intros r w' Hl Hw. apply wp_ret. split; [done|].
  assert (lset i (take (Z.to_nat (Z.min (zlen [v]) (i + 1 - i))) [v]) (mp_bytes m) = <[Z.to_nat i := v]> (mp_bytes m)) as Ei.
  { change (zlen [v]) with 1. replace (Z.min 1 (i + 1 - i)) with 1 by lia. unfold lset.
    change (take (Z.to_nat 1) [v]) with [v]. cbn [length app]. rewrite Nat.add_1_r.
    symmetry. apply insert_take_drop. unfold zlen in *. lia. }
  rewrite Ei in Hw. destruct Hw as [(Hs & _ & He)|(? & _ & ? & ?)]; [left|right]; done.
Qed.

(** ** Mode changes *)

(** The outcome of an operation behind the exclusive guards. *)
Definition exclusive_done (name : string) w (p : Z) st (c wd : bool)
    (P : Z -> mapping -> option gerr -> world -> Prop) (e : option gerr) (w' : world) : Prop :=
  match bs_data st with
  | None => e = Some (errorf name (Sent ErrDestroyed)) /\ w' = w
  | Some n =>
      if wd then e = Some (errorf name (Sent ErrWiped)) /\ w' = w
      else exists m, live w p st n m c false /\ P n m e w'
  end.

Lemma returns_exclusive_done name p st c wd body w P :
  world_ok w -> buf_ok w p st c wd ->
  (forall n m, bs_data st = Some n -> wd = false -> live w p st n m c false ->
     inside (locked (bs_mu st) w) p st 0 (locked (bs_mu st) w) st m c ->
     returns (body p st) (locked (bs_mu st) w) (fun e w' =>
       w_locks w' !! bs_mu st = Some (LockState 0 true) /\ P n m e (unlocked (bs_mu st) w'))) ->
  returns (exclusive name (Ref p) body) w (exclusive_done name w p st c wd P).
Proof.
  intros W B Hb. eapply returns_exclusive; [done|done|..]; unfold exclusive_done.
  - intros ->. done.
  - intros n -> ->. done.
  - intros n m Hd -> Hl I. rewrite Hd. eapply wp_mono; [by apply Hb|..]; cbn beta; [|done].
    intros e w' [? ?]. split; [done|]. by exists m.
Qed.

(** [ReadOnly] and [ReadWrite]: the mode changes, and with it the pages unless
    they are closed anyway; or nothing does. *)
Definition mode_done w (p : Z) st (b : bool) (name : string) n m (e : option gerr) (w' : world) : Prop :=
  if bs_sealed st then e = Some (errorf name (Sent ErrSealed)) /\ w' = w
  else match e with
       | None => settled_as w p st (bs_set_readOnly b st) n (mp_bytes m) w'
       | Some _ => settled w p st n (mp_bytes m) w'
       end.

(** Leaving after a change of the buffer's record. *)
Lemma leave_as w p st c0 w' st' n m c :
  world_ok w -> buf_ok w p st c0 false ->
  inside (locked (bs_mu st) w) p st 0 w' st' m c ->
  bs_data st' = Some n -> 0 <= n <= rg_inner (bs_region st) -> bs_openers st' = 0 ->
  c = false -> rest_ok st' m ->
  w_locks w' !! bs_mu st = Some (LockState 0 true) /\
  settled_as w p st st' n (mp_bytes m) (unlocked (bs_mu st) w').
Proof.
  intros W B I Hd Hn Ho -> Hr. split; [by eapply inside_locked|].
  destruct (inside_leave (LockState 0 true) w p st c0 0 w' st' n m false) as [D L]; try done. by exists m.
Qed.

Lemma returns_mode (b : bool) name p st c wd w :
  world_ok w -> buf_ok w p st c wd ->
  returns (exclusive name (Ref p) (fun p st =>
    if bs_sealed st then mret (Some (errorf name (Sent ErrSealed)))
    else
    err ← (if negb (bs_closedAtRest st) then mprotectSecretMem (bs_region st) (if b then PROT_READ else PROT_RW) else mret None);
    match err with
    | Some e => mret (Some (errorf name e))
    | None => buf_set p (bs_set_readOnly b);; mret None
    end)) w (exclusive_done name w p st c wd (mode_done w p st b name)).
Proof.
  intros W B. eapply returns_exclusive_done; [done|done|]. intros n m Hd -> L I. unfold mode_done.
  destruct (bs_sealed st) eqn:Es.
  { apply wp_ret. split; [apply lookup_insert_eq|]. split; [done|]. apply locked_unlocked, B. }
  destruct (lv_open _ _ _ _ _ _ _ L eq_refl Es) as [-> Hro].
  pose proof (lv_len _ _ _ _ _ _ _ L) as Hn. pose proof (bo_openers _ _ _ _ _ B) as Ho.
  assert (forall w' m', inside (locked (bs_mu st) w) p st 0 w' st m' false -> mp_bytes m' = mp_bytes m ->
    rest_ok (bs_set_readOnly b st) m' ->
    wp (buf_set p (bs_set_readOnly b);; mret (None : option gerr)) (fun e w' => w_locks w' !! bs_mu st = Some (LockState 0 true) /\
      match e with
      | None => settled_as w p st (bs_set_readOnly b st) n (mp_bytes m) (unlocked (bs_mu st) w')
      | Some _ => settled w p st n (mp_bytes m) (unlocked (bs_mu st) w')
      end) (fun _ => False) w') as Hset.
  { intros w' m' I' E' R'. apply wp_bind, wp_buf_set, wp_ret. rewrite <- E'.
    apply (leave_as w p st false _ (bs_set_readOnly b st) n m' false); try done. by apply inside_set. }
  apply wp_bind. destruct (bs_closedAtRest st) eqn:Ec; cbn [negb].
  - apply wp_ret. eapply Hset; [exact I|done|]. intros H'. cbn in H'. congruence.
  - eapply wp_in_mprotect; [exact I|by destruct b; unfold prot_ok; auto|intros e w' I' _|intros w' I' _].
    + apply wp_ret. by apply (leave_as w p st false _ st n m false).
    + eapply Hset; [exact I'|apply protect_bytes|]. intros _. rewrite protect_prot. cbn. destruct b; auto.
Qed.

(** ** Truncate *)

(** The bytes a truncation to [k] of [n] leaves. *)
Definition truncated (k n : Z) (b : list Z) : list Z := lset k (zeros (n - k)) b.

Definition truncate_done w (p : Z) st k n m (e : option gerr) (w' : world) : Prop :=
  let name := "secmem.SecureBuffer.Truncate"%string in
  if bs_sealed st then e = Some (errorf name (Sent ErrSealed)) /\ w' = w
  else if bs_readOnly st then e = Some (errorf name (Sent ErrReadOnly)) /\ w' = w
  else if (k <? 0) || (n <? k) then e = Some (Msg (name ++ ": n out of range")) /\ w' = w
  else match e with
       | None => settled_as w p st (bs_set_data (Some k) (bs_region st) st) k (truncated k n (mp_bytes m)) w'
       | Some e => bs_closedAtRest st = true /\
           (settled w p st n (mp_bytes m) w' \/ settled w p st n (truncated k n (mp_bytes m)) w') /\
           exists x, e = errorf "secmem.SecureBuffer.Truncate" x /\ pages_refused x
       end.

Lemma wp_wipeTail w0 p st w m lo hi (Q : unit -> world -> Prop) R :
  inside w0 p st 0 w (opening st) m false -> opened st m -> bs_readOnly st = false ->
  0 <= lo <= hi -> hi <= rg_inner (bs_region st) ->
  (forall w' m', inside w0 p st 0 w' (opening st) m' false -> mp_bytes m' = truncated lo hi (mp_bytes m) ->
     mp_prot m' = mp_prot m -> Q tt w') ->
  wp (secureWipeSlice (rg_base (bs_region st)) lo hi) Q R w.
Proof.
  intros I O Hro Hlo Hhi HQ. pose proof (inside_opening _ _ _ _ _ _ I) as Hm. pose proof (md_len _ _ _ Hm) as Hlen.
  eapply wp_secureWipeSlice; [apply Hm|apply O|by apply O|done|lia|].
  eapply (HQ _ (with_bytes _ m)); [|done|done]. eapply inside_wrote; [exact I|].
  apply zlen_lset; [lia|]. rewrite zlen_zeros; lia.
Qed.

Lemma returns_Truncate p st c wd k w :
  world_ok w -> buf_ok w p st c wd ->
  returns (Truncate (Ref p) k) w
    (exclusive_done "secmem.SecureBuffer.Truncate" w p st c wd (truncate_done w p st k)).
Proof.
  intros W B. unfold Truncate. eapply returns_exclusive_done; [done|done|]. intros n m Hd -> L I. unfold truncate_done.
  rewrite Hd. change (default 0 (Some n)) with n.
  assert (forall e (P : option gerr -> world -> Prop), P e w -> wp (mret e) (fun e w' => w_locks w' !! bs_mu st = Some (LockState 0 true) /\
    P e (unlocked (bs_mu st) w')) (fun _ => False) (locked (bs_mu st) w)) as Hno.
  { intros e P HP. apply wp_ret. split; [apply lookup_insert_eq|]. rewrite locked_unlocked; [done|apply B]. }
  destruct (bs_sealed st) eqn:Es; [by apply (Hno _ (fun e w' => e = _ /\ w' = w))|].
  destruct (bs_readOnly st) eqn:Ero; [by apply (Hno _ (fun e w' => e = _ /\ w' = w))|].
  destruct (_ || _) eqn:Eo; [by apply (Hno _ (fun e w' => e = _ /\ w' = w))|].
  apply orb_false_elim in Eo as [E1 E2].
  destruct (lv_open _ _ _ _ _ _ _ L eq_refl Es) as [-> Hro].
  pose proof (lv_len _ _ _ _ _ _ _ L) as Hn. pose proof (bo_openers _ _ _ _ _ B) as Ho.
  assert (forall w' m', inside (locked (bs_mu st) w) p st 0 w' st m' false -> mp_bytes m' = truncated k n (mp_bytes m) ->
    rest_ok st m' ->
    wp (buf_set p (fun s => bs_set_data (Some k) (bs_region s) s);; mret (None : option gerr)) (fun e w' => w_locks w' !! bs_mu st = Some (LockState 0 true) /\
      match e with
      | None => settled_as w p st (bs_set_data (Some k) (bs_region st) st) k (truncated k n (mp_bytes m)) (unlocked (bs_mu st) w')
      | Some e => bs_closedAtRest st = true /\
           (settled w p st n (mp_bytes m) (unlocked (bs_mu st) w') \/ settled w p st n (truncated k n (mp_bytes m)) (unlocked (bs_mu st) w')) /\
           exists x, e = errorf "secmem.SecureBuffer.Truncate" x /\ pages_refused x
      end) (fun _ => False) w') as Hset.
  { intros w' m' I' E' R'. apply wp_bind, wp_buf_set, wp_ret. rewrite <- E'.
    apply (leave_as w p st false _ (bs_set_data (Some k) (bs_region st) st) k m' false); [done|done| |done|lia|done|done|].
    - apply (inside_set _ _ _ _ _ _ _ _ (fun s => bs_set_data (Some k) (bs_region s) s)); done.
    - intros Hc. apply R'. done. }
  apply wp_bind. destruct (0 <? n - k) eqn:Ew.
  2:{ apply wp_ret. eapply Hset; [exact I| |done]. unfold truncated. replace (n - k) with 0 by lia.
      symmetry. apply lset_nil. rewrite (md_len _ _ _ (bc_map _ _ _ _ (lv_core _ _ _ _ _ _ _ L))). lia. }
  apply wp_bind. eapply wp_in_open_at; [exact I|done|done|intros e w1 m1 I1 F1 R1 Hc|intros w1 m1 I1 F1 O1 R1 Hw _].
  - apply wp_ret, wp_ret. rewrite <- F1. destruct (leave_as w p st false w1 st n m1 false) as [? ?]; try done.
    split; [done|]. split; [apply Hc|]. split; [auto|]. exists e. split; [done|by eapply open_failed_refused].
  - apply wp_bind. eapply wp_wipeTail; [exact I1|exact O1|done|lia|lia|]. intros w2 m2 I2 F2 P2.
    eapply wp_in_close_at; [exact I2|done| |intros e w3 m3 I3 F3 R3 _ Hc].
    { intros Hcl. rewrite P2. by apply R1. }
    rewrite F1 in F2. destruct e as [e|].
    + apply wp_ret. rewrite <- F2, <- F3. apply close_ended_refused in Hc as [Hcl Hc].
      destruct (leave_as w p st false w3 st n m3 false) as [? ?]; try done. split; [done|]. split; [done|].
      split; [by right|by exists e].
    + eapply Hset; [exact I3|by rewrite F3|done].
Qed.
End writes.
