(* ===== verification/BufferDestroy.v ===== *)
(** * Destroying a buffer

    Destroy wipes, unmaps and forgets a buffer in whatever state it is; what it
    leaves refuses every further operation. *)
From S2P Require Import Prelude Errors Canary World Memory Frame Sample Quarantine Janitor Process SealAuth SecureBuffer BufferAccess BufferSpec.

Section destroy.
Context `{K : Kernel} {KOk : KernelOk}.
Implicit Types (w : world) (st : bufferState) (m : mapping).

Definition destroy_fp (w : world) (p : Z) st : footprint :=
  fp_union (op_fp w p st) (FP ∅ ∅ ∅ {[bs_janitorKey st]} ∅ ∅).

(** A buffer after Destroy: nothing of its region is accessible unless an
    error says so, what is left of it is zeros or reported, and it is in
    nobody's registry. *)
Record gone (w : world) (p : Z) st (wd : bool) (e : option gerr) (w' : world) : Prop := Gone {
  gn_ok : world_ok w';
  gn_buf : exists st' c', buf_ok w' p st' c' wd /\ bs_data st' = None;
  gn_frame : frame (destroy_fp w p st) w w';
  gn_reg : lookup_any w' (bs_janitorKey st) = None;
  gn_fault : e = None -> mem_load (rg_base (bs_region st)) w' = Fault;
  gn_left : forall m, w_mem w' !! rg_base (bs_region st) = Some m -> mp_held m = false -> e <> None;
  gn_keys : jn_nextKey (w_jan w') <= jn_nextKey (w_jan w) + 1;
  gn_canary : forall jr m, lookup_any w (bs_janitorKey st) = Some jr -> mapped w (bs_region st) m ->
    bs_sealed st = false \/ wd = true -> verdict w jr m <> None -> e <> None
}.

(** The release at the end of Destroy, from a state in which the lock is held
    and the contents are dealt with. *)
Record releasing (w0 : world) (p : Z) st (w : world) st' m (wd : bool) : Prop := Releasing {
  re_ok : world_ok w;
  re_core : bcore w p st' m;
  re_frame : frame (op_fp w0 p st) w0 w;
  re_same : same_id st st';
  re_lock : w_locks w !! bs_mu st = Some (LockState 0 true);
  re_ciph : is_Some (w_flags w !! bs_sealCipher st);
  re_wiped : w_flags w !! bs_wiped st = Some wd;
  re_apart : bs_sealCipher st <> bs_wiped st;
  re_cipher : forall jr f, lookup_any w (bs_janitorKey st) = Some jr -> jr_sealCipher jr = Some f -> f = bs_sealCipher st;
  re_openers : bs_openers st' = 0;
  re_nonce : zlen (bs_sealNonce st') = sealNonceLen;
  re_keys : jn_nextKey (w_jan w) <= jn_nextKey (w_jan w0) + 1
}.

Lemma wp_destroyTail w p st w1 st1 m1 wd ie :
  world_ok w -> lock_free w (bs_mu st) -> releasing (locked (bs_mu st) w) p st w1 st1 m1 wd ->
  (forall jr m, lookup_any w (bs_janitorKey st) = Some jr -> mapped w (bs_region st) m ->
     bs_sealed st = false \/ wd = true -> verdict w jr m <> None ->
     exists jr1, lookup_any w1 (bs_janitorKey st) = Some jr1 /\ verdict w1 jr1 m1 <> None) ->
  wp (rerr ← release (bs_janitorKey st) true;
      buf_set p (bs_set_data None secRegion_nil);;
      mret (errorf "secmem.SecureBuffer.Destroy" <$> errorsJoin [ie; rerr]))
    (fun e w' => w_locks w' !! bs_mu st = Some (LockState 0 true) /\ gone w p st wd e (unlocked (bs_mu st) w'))
    (fun _ => False) w1.
Proof.
  intros W Hfree [R1 R2 R3 R4 R5 R6 R7 R8 R9 R10 R11 R12] Hcan. pose proof (bcore_apart _ _ _ _ R1 R2) as Hap.
  destruct R2 as [C1 C2 (jr & Hk & Er & Emu & Ew) C4 C5].
  rewrite (si_key _ _ R4), (si_region _ _ R4), (si_mu _ _ R4), (si_wiped _ _ R4) in *.
  apply wp_bind. eapply wp_returns.
  { eapply (wp_release (bs_janitorKey st) jr m1 true); [exact (wk_jan _ R1)|exact (wk_quar _ R1)|exact (wk_mem _ R1)|done|by rewrite Er|done]. }
  intros re w2 Rel. apply wp_bind, wp_buf_set, wp_ret.
  assert (world_ok w2) as W2.
  { eapply released_world_ok; [exact R1|exact Hk|exact Rel|]. intros Hne. by destruct (Hap Hne). }
  pose proof (released_frame _ _ _ _ _ _ (wk_jan _ R1) Hk Rel) as Fr. rewrite Er in Fr.
  set (e := errorf _ <$> _).
  assert (re <> None -> e <> None) as He.
  { intros Hre. unfold e, errorsJoin. by destruct ie, re. }
  assert (frame (destroy_fp (locked (bs_mu st) w) p st) w1 w2) as Fr2.
  { eapply frame_mono; [|exact Fr]. unfold destroy_fp, op_fp, own_fp. repeat split; cbn; [set_solver| |set_solver..].
    destruct (jr_sealCipher jr) as [f|] eqn:Ef; cbn; [|set_solver]. rewrite (R9 jr f Hk Ef). set_solver. }
  destruct Rel as [L1 L2 L3 L4 L5 L6 L7 L8 L9 L10 L11 L12 L13 L14 L15 L16 L17 _ _ _].
  split; [cbn; by rewrite L2|]. constructor.
  - apply world_ok_lock; [by apply world_ok_buf|cbn; rewrite L2; eauto|cbn; by rewrite L7|done|done].
  - assert (is_Some (w_flags w2 !! bs_sealCipher st)) as [c' Hc'] by by apply L17.
    exists (bs_set_data None secRegion_nil st1), c'. split; [|done]. constructor; cbn; try done.
    + by rewrite L5, lookup_alter_eq, C1.
    + rewrite (si_mu _ _ R4). unfold lock_free. cbn. apply lookup_insert_eq.
    + by rewrite (si_ciph _ _ R4).
    + rewrite (si_wiped _ _ R4). rewrite L12; [done|]. intros Ef. apply R8. symmetry. by apply (R9 jr _ Hk).
    + by rewrite (si_ciph _ _ R4), (si_wiped _ _ R4).
    + rewrite (si_mu _ _ R4). by rewrite L7.
  - eapply frame_unlock; [done|]. eapply frame_trans; [|eapply frame_trans; [exact Fr2|]].
    + eapply frame_mono; [|exact R3]. apply fp_sub_union_l.
    + apply frame_buf. cbn. set_solver.
  - unfold lookup_any. cbn. rewrite L1. cbn. by rewrite !lookup_delete_eq.
  - intros En. assert (re = None) as Hre by (destruct re; [by destruct He|done]). specialize (L14 Hre).
    rewrite Er in L14. unfold mem_load in *. cbn. repeat case_match; done.
  - intros mx Hmx Hh. apply He. cbn in Hmx. destruct L15 as [|L15]; [done|]. rewrite Er in L15.
    specialize (L15 mx Hmx). congruence.
  - cbn. rewrite L1. cbn. cbn in R12. lia.
  - intros jr0 m0 Hk0 Hm0 Hs Hv. destruct (Hcan jr0 m0 Hk0 Hm0 Hs Hv) as (jr1 & Hk1 & Hv1).
    assert (jr1 = jr) as -> by congruence. apply He.
    destruct L16 as [(e' & -> & _)|[_ Hr]]; [done|]. intros ->. by specialize (Hr Hv1).
Qed.

(** The middle part: the pages open, the tag checked, the contents back in the
    clear as far as that goes. The buffer's record does not change. *)
Lemma wp_destroyOpen w p st n m c verify (Q : option gerr -> world -> Prop) R :
  let w0 := locked (bs_mu st) w in
  inside w0 p st 0 w0 st m c -> key_room w 1 -> live w p st n m c false ->
  (forall ie k w1 m1 c1, k <= 1 -> inside w0 p st k w1 st m1 c1 -> Q ie w1) ->
  wp (err ← mprotectSecretMem (bs_region st) PROT_RW;
      match err with
      | Some _ => mret None
      | None =>
          _ ← relockSecretMem (bs_region st);
          ie ← (if (verify : bool) then
                  verr ← sealVerify p;
                  mret (if is_err verr ErrIntegrity then verr else None)
                else mret None);
          c ← flag_load (bs_sealCipher st);
          (if (c : bool) then
             derr ← sealDecrypt (bs_region st);
             match derr with
             | None => flag_store (bs_sealCipher st) false
             | Some _ => mret tt
             end
           else mret tt);;
          mret ie
      end) Q R w0.
Proof.
  intros w0 I Hroom L HQ. apply wp_bind.
  eapply wp_in_mprotect; [exact I|right; by right|intros e w1 I1 _|intros w1 I1 _].
  { apply wp_ret. eapply (HQ _ 0); [lia|done]. }
  assert (forall w2 m2, inside w0 p st 0 w2 st m2 c -> mp_prot m2 = PROT_RW ->
    wp (ie ← (if (verify : bool) then
                  verr ← sealVerify p;
                  mret (if is_err verr ErrIntegrity then verr else None)
                else mret None);
          c ← flag_load (bs_sealCipher st);
          (if (c : bool) then
             derr ← sealDecrypt (bs_region st);
             match derr with
             | None => flag_store (bs_sealCipher st) false
             | Some _ => mret tt
             end
           else mret tt);;
          mret ie) Q R w2) as Hrest.
  { intros w2 m2 I2 P2. apply wp_bind.
    assert (forall ie k w3, k <= 1 -> inside w0 p st k w3 st m2 c ->
      wp (c ← flag_load (bs_sealCipher st);
          (if (c : bool) then
             derr ← sealDecrypt (bs_region st);
             match derr with
             | None => flag_store (bs_sealCipher st) false
             | Some _ => mret tt
             end
           else mret tt);;
          mret ie) Q R w3) as Hdec.
    { intros ie k w3 Hk I3. apply wp_bind. eapply wp_flag_load; [apply I3|]. destruct c; [|wpsteps; by eapply HQ].
      apply wp_bind, wp_bind.
      eapply wp_in_decrypt; [exact I3|done|by apply (in_os _ _ _ _ _ _ _ _ I)|intros d w4 I4|intros w4 I4].
      - wpsteps. by eapply HQ.
      - eapply wp_in_flag; [exact I4|done|]. intros w5 I5. wpsteps. by eapply HQ. }
    destruct verify; [|apply wp_ret; by eapply (Hdec None 0)].
    apply wp_bind. eapply wp_in_verify; [exact I2|exact Hroom|done|]. intros e w3 I3 _ _ _ _. apply wp_ret.
    eapply (Hdec _ (0 + 1)); [lia|exact I3]. }
  apply wp_bind. eapply wp_in_relock_touch; [exact I1|intros e w2 I2 _|intros w2 m2 Eb Ep I2 _].
  - eapply Hrest; [exact I2|apply protect_prot].
  - eapply Hrest; [exact I2|]. by rewrite Ep, protect_prot.
Qed.

Lemma returns_Destroy p st c wd w :
  world_ok w -> buf_ok w p st c wd -> key_room w 1 ->
  returns (Destroy (Ref p)) w (fun e w' =>
    match bs_data st with None => e = None /\ w' = w | Some _ => gone w p st wd e w' end).
Proof.
  intros W B Hroom. unfold Destroy, returns. apply wp_bind. eapply wp_buf_get; [apply B|].
  apply wp_bind, wp_lk_lock; [apply B|]. change (set_locks _ w) with (locked (bs_mu st) w).
  apply wp_defer. apply wp_bind. eapply wp_buf_get; [apply B|].
  destruct (bs_data st) as [n|] eqn:Ed.
  2:{ rewrite (bo_nil _ _ _ _ _ B Ed). apply wp_ret. eapply wp_lk_unlock; [apply lookup_insert_eq|].
      split; [done|]. apply (locked_unlocked (bs_mu st)), B. }
  destruct (bo_live _ _ _ _ _ B n Ed) as (m & L). pose proof (live_inner _ _ _ _ _ _ _ L) as Hi.
  destruct (_ =? 0) eqn:E; [apply Z.eqb_eq in E; lia|]. apply wp_bind. eapply wp_flag_load; [apply B|].
  apply wp_bind. eapply wp_flag_load; [apply B|].
  assert (forall e w', w_locks w' !! bs_mu st = Some (LockState 0 true) /\ gone w p st wd e (unlocked (bs_mu st) w') ->
    wp (lk_unlock (bs_mu st)) (fun _ => gone w p st wd e) (fun _ => False) w') as Hun.
  { intros e w' [Hl Hg]. by eapply wp_lk_unlock. }
  destruct wd.
  - (* wiped already: nothing to verify or to decrypt *)
    destruct (lv_wiped _ _ _ _ _ _ _ L eq_refl) as [-> Hp]. rewrite andb_false_r. cbn [orb]. apply wp_bind, wp_ret.
    eapply wp_mono; [apply (wp_destroyTail w p st _ st m true)|intros e w' H; by apply Hun|done]; [done|apply B| |].
    + destruct L as [[C1 [] C3 C4 C5] L2 L3 L4 L5 L6 L7 L8]. constructor; try done; try apply B.
      * apply world_ok_lock; try done.
      * constructor; try done. cbn. rewrite lookup_insert_eq. eauto.
      * apply lookup_insert_eq.
      * cbn. exists false. apply B.
      * cbn. lia.
    + intros jr m0 Hk Hm _ Hv. exists jr. split; [done|].
      assert (m0 = m) as -> by (destruct Hm, (bc_map _ _ _ _ (lv_core _ _ _ _ _ _ _ L)); congruence). done.
  - pose proof (inside_enter w p st n m c (LockState 0 true) W B L ltac:(done) ltac:(done)) as I.
    apply wp_bind.
    assert (forall R ie k w1 m1 c1, k <= 1 -> inside (locked (bs_mu st) w) p st k w1 st m1 c1 ->
      ((bs_sealed st && bs_sealTagged st && negb false) || c = false -> w1 = locked (bs_mu st) w /\ m1 = m) ->
      wp (rerr ← release (bs_janitorKey st) true;
          buf_set p (bs_set_data None secRegion_nil);;
          mret (errorf "secmem.SecureBuffer.Destroy" <$> errorsJoin [ie; rerr]))
        (fun e w' => wp (lk_unlock (bs_mu st)) (fun _ => gone w p st false e) (fun _ => False) w') R w1) as Htail.
    { intros R ie k w1 m1 c1 Hk I1 Hsame.
      eapply wp_mono; [apply (wp_destroyTail w p st w1 st m1 false)|intros e w' H; by apply Hun|done]; [done|apply B| |].
      - pose proof (inside_locked (LockState 0 true) _ _ _ _ _ _ _ _ I1) as Hl.
        destruct I1 as [I1 I2 I3 I4 I5 I6 I7 I8 I9 I10 I11 I12].
        constructor; try done; [|by apply B|by apply B|cbn in *; lia].
        intros jr f Hjr Ef. destruct I12 as (jr' & Hj & Hc). unfold lookup_any in Hjr. rewrite Hj in Hjr. congruence.
      - intros jr m0 Hkk Hm [Hs|?] Hv; [|done].
        destruct (lv_open _ _ _ _ _ _ _ L eq_refl Hs) as [-> _]. rewrite Hs in Hsame.
        destruct (Hsame eq_refl) as [-> ->]. exists jr. split; [done|].
        assert (m0 = m) as -> by (destruct Hm, (bc_map _ _ _ _ (lv_core _ _ _ _ _ _ _ L)); congruence). done. }
    destruct ((bs_sealed st && bs_sealTagged st && negb false) || c) eqn:Ev.
    + eapply wp_destroyOpen; [exact I|exact Hroom|exact L|]. intros ie k w1 m1 c1 Hk I1. by eapply Htail.
    + apply wp_ret. by eapply (Htail _ None 0).
Qed.
End destroy.
