(* ===== verification/BufferTrace.v ===== *)
(** * What a constructor that gives up leaves behind

    While a buffer is being made, the process differs from what it was in that
    buffer only, and destroying it there leaves no trace of it: the registry and
    the prekey are as they were, the record refuses everything, and memory holds
    nothing of it, unless the kernel refused both to make its pages writable and
    to unmap them. *)
From S2P Require Import Prelude Errors Canary World Memory Frame Effects Sample Quarantine Janitor Process SealAuth SecureBuffer BufferAccess BufferSpec BufferBorrow BufferReads BufferWrites BufferDestroy.

Section trace.
Context `{K : Kernel} {KOk : KernelOk}.
Implicit Types (w : world) (st : bufferState) (m : mapping).

(** Every registration and the prekey as before, new records destroyed ones,
    and in memory nothing that was not there but reservations and zeros; or the
    kernel refused two calls on the way, the one that makes the pages writable
    to wipe them and, the last call made, the one that unmaps them. *)
Record no_trace w w' : Prop := NoTrace {
  nt_reg : forall k, lookup_any w' k = lookup_any w k;
  nt_ring : w_keys w' = w_keys w;
  nt_bufs : forall q st, w_bufs w' !! q = Some st -> w_bufs w !! q = Some st \/ bs_data st = None;
  nt_mem : forall b m, w_mem w' !! b = Some m ->
    w_mem w !! b = Some m \/ mp_held m = true \/ all_zero (mp_bytes m) \/
    exists t, (w_tick w <= t < pred (w_tick w'))%nat /\ k_errno t <> None /\ last_refused w'
}.

Lemma no_trace_refl w : no_trace w w.
Proof. constructor; try done; by left. Qed.

(** The process differs from [w] in the buffer [p] with record [st] only. *)
Record only_new w (p : Z) st w' : Prop := OnlyNew {
  on_later : later w w';
  on_ring : w_keys w' = w_keys w;
  on_key : lookup_any w (bs_janitorKey st) = None;
  on_reg : forall k, k <> bs_janitorKey st -> lookup_any w' k = lookup_any w k;
  on_bufs : forall q, q <> p -> w_bufs w' !! q = w_bufs w !! q;
  on_mem : forall b m, b <> rg_base (bs_region st) -> w_mem w' !! b = Some m ->
    w_mem w !! b = Some m \/ all_zero (mp_bytes m)
}.

(** A step at the buffer: its record and its mapping. *)
Record near (p b : Z) w w' : Prop := Near {
  ne_later : later w w';
  ne_jan : w_jan w' = w_jan w;
  ne_keys : w_keys w' = w_keys w;
  ne_bufs : forall q, q <> p -> w_bufs w' !! q = w_bufs w !! q;
  ne_mem : forall b', b' <> b -> w_mem w' !! b' = w_mem w !! b'
}.

#[global] Instance near_preorder p b : PreOrder (near p b).
Proof.
  split; [done|]. intros w1 w2 w3 [A1 A2 A3 A4 A5] [B1 B2 B3 B4 B5].
  constructor; [by etrans|congruence|congruence|..]; intros x Hx; [by rewrite B4, A4|by rewrite B5, A5].
Qed.

Lemma touch_near p b w w' : touch b w w' -> later w w' -> near p b w w'.
Proof. intros [[] T] L. constructor; try done; congruence. Qed.

Lemma only_new_near w p st w1 w2 :
  only_new w p st w1 -> near p (rg_base (bs_region st)) w1 w2 -> only_new w p st w2.
Proof.
  intros [A1 A2 A3 A4 A5 A6] [B1 B2 B3 B4 B5]. constructor; try done.
  - by etrans.
  - congruence.
  - intros k Hk. by rewrite (lookup_any_jan w1 w2), A4.
  - intros q Hq. by rewrite B4, A5.
  - intros b m Hb. rewrite B5 by done. by apply A6.
Qed.

(** The fields the comparison is about. *)
Lemma only_new_as w p st st' w' :
  bs_janitorKey st' = bs_janitorKey st -> bs_region st' = bs_region st -> only_new w p st w' -> only_new w p st' w'.
Proof. intros E1 E2 []. constructor; rewrite ?E1, ?E2; done. Qed.

(** ** The steps of a constructor *)

(** If [cm] returns, the world moved by [L]. *)
Definition keeps {A} (L : world -> world -> Prop) (cm : GM A) w : Prop :=
  match cm w with Ret _ w' => L w w' | _ => True end.

Lemma wp_keeps {A} L (cm : GM A) (Q : A -> world -> Prop) R w :
  keeps L cm w -> wp cm (fun a w' => L w w' -> Q a w') R w -> wp cm Q R w.
Proof. unfold keeps, wp. destruct (cm w); auto. Qed.

Lemma keeps_returns {A} L (cm : GM A) w : returns cm w (fun _ => L w) -> keeps L cm w.
Proof. unfold returns, keeps, wp. by destruct (cm w). Qed.

Lemma keeps_ret {A} p b (a : A) w : keeps (near p b) (mret a) w.
Proof. unfold keeps. cbn. reflexivity. Qed.

Lemma keeps_bind {A B} p b (cm : GM A) (k : A -> GM B) w :
  keeps (near p b) cm w -> (forall a w', keeps (near p b) (k a) w') -> keeps (near p b) (cm ≫= k) w.
Proof.
  unfold keeps, mbind, M_bind. intros H1 H2. destruct (cm w) as [a w'| | |]; [|done..].
  specialize (H2 a w'). destruct (k a w'); [|done..]. by etrans.
Qed.

Lemma keeps_change p b f w : keeps (near p b) (k_change b f) w.
Proof.
  apply keeps_returns. assert (near p b w (tick w)) as Ht.
  { apply touch_near; [apply touch_tick, touch_refl|unfold later; cbn; lia]. }
  unfold k_change, returns. wpsteps. destruct (w_mem w !! b) as [m|]; wpsteps; (apply wp_sys; [intros e|]); wpsteps; try done.
  apply touch_near; [apply touch_insert, touch_tick, touch_refl|unfold later; cbn; lia].
Qed.

Lemma keeps_buf_set p b f w : keeps (near p b) (buf_set p f) w.
Proof.
  unfold keeps, buf_set, modify. constructor; cbn; [by unfold later|done..| |done].
  intros q Hq. by rewrite lookup_alter_ne.
Qed.

Lemma keeps_mprotect p r prot w : keeps (near p (rg_base r)) (mprotectSecretMem r prot) w.
Proof.
  unfold mprotectSecretMem. destruct k_os; [apply keeps_change|].
  destruct (_ =? 0); [apply keeps_ret|].
  destruct ((prot =? PROT_NONE) || (prot =? PROT_READ) || (prot =? PROT_RW)); [apply keeps_change|apply keeps_ret].
Qed.

Lemma keeps_relock p r w : keeps (near p (rg_base r)) (relockSecretMem r) w.
Proof.
  unfold relockSecretMem. destruct k_os; [apply keeps_ret|]. destruct (_ =? 0); [apply keeps_ret|].
  apply keeps_bind; [apply keeps_change|]. intros. apply keeps_ret.
Qed.

Lemma keeps_copy_to p st off hi src w : keeps (near p (rg_base (bs_region st))) (copy_to st off hi src) w.
Proof.
  unfold copy_to. apply keeps_bind; [|intros; apply keeps_ret].
  unfold keeps, mem_copy_in. destruct (firstn _ _); [reflexivity|].
  destruct (w_mem w !! _); [|done]. destruct (writable _); [|done].
  apply touch_near; [apply touch_insert, touch_refl|by unfold later].
Qed.

Lemma keeps_open p st w :
  w_bufs w !! p = Some st -> keeps (near p (rg_base (bs_region st))) (open p) w.
Proof.
  intros Hp. unfold open, keeps, mbind at 1, M_bind at 1, buf_get. rewrite Hp.
  destruct (negb _); [done|]. apply keeps_bind; [|intros [e|] w1; [apply keeps_ret|]].
  - destruct (_ =? 0); [|apply keeps_ret]. apply keeps_bind; [apply keeps_mprotect|].
    intros [e|] w1; [apply keeps_ret|]. apply keeps_bind; [apply keeps_relock|].
    intros [e|] w2; [|apply keeps_ret]. apply keeps_bind; [apply keeps_mprotect|]. intros. apply keeps_ret.
  - apply keeps_bind; [apply keeps_buf_set|]. intros. apply keeps_ret.
Qed.

Lemma keeps_close p st w :
  w_bufs w !! p = Some st -> keeps (near p (rg_base (bs_region st))) (close p) w.
Proof.
  intros Hp. unfold close, keeps, mbind at 1, M_bind at 1, buf_get. rewrite Hp.
  destruct (negb _); [done|]. apply keeps_bind; [apply keeps_buf_set|]. intros _ w1.
  destruct (0 <? _); [apply keeps_ret|]. apply keeps_bind; [apply keeps_mprotect|]. intros. apply keeps_ret.
Qed.

Lemma opening_region st : bs_region (opening st) = bs_region st.
Proof. unfold opening. by destruct (bs_closedAtRest st). Qed.

(** ** Giving up *)

(** A buffer in the clear is destroyed without a look at the prekey: wiped,
    retired and forgotten. *)
Lemma wp_destroy_fresh w0 p st n w :
  world_ok w -> buf_ok w p st false false -> bs_data st = Some n -> bs_sealed st = false -> only_new w0 p st w ->
  returns (Destroy (Ref p)) w (fun _ => no_trace w0).
Proof.
  intros W B Ed Es [N1 N2 N3 N4 N5 N6]. unfold Destroy, returns. apply wp_bind. eapply wp_buf_get; [apply B|].
  apply wp_bind, wp_lk_lock; [apply B|]. change (set_locks _ w) with (locked (bs_mu st) w).
  apply wp_defer. apply wp_bind. eapply wp_buf_get; [apply B|].
  destruct (bo_live _ _ _ _ _ B n Ed) as (m & L). pose proof (live_inner _ _ _ _ _ _ _ L) as Hi.
  destruct (_ =? 0) eqn:E; [apply Z.eqb_eq in E; lia|]. apply wp_bind. eapply wp_flag_load; [apply B|].
  apply wp_bind. eapply wp_flag_load; [apply B|]. rewrite Es. cbn [andb orb]. apply wp_bind, wp_ret, wp_bind.
  pose proof (inside_enter w p st n m false (LockState 0 true) W B L ltac:(done) ltac:(done)) as I.
  set (w1 := relock (bs_mu st) (LockState 0 true) w) in *. change (locked (bs_mu st) w) with w1.
  destruct (in_core _ _ _ _ _ _ _ _ I) as [C1 C2 (jr & Hk & Er & Emu & Ew) C4 C5].
  pose proof (in_ok _ _ _ _ _ _ _ _ I) as W1.
  eapply wp_returns.
  { eapply (wp_release (bs_janitorKey st) jr m true); [exact (wk_jan _ W1)|exact (wk_quar _ W1)|exact (wk_mem _ W1)|done|by rewrite Er|done]. }
  intros re w2 Rel. apply wp_bind, wp_buf_set, wp_ret.
  eapply wp_lk_unlock; [cbn; rewrite (rl_locks _ _ _ _ _ _ Rel); apply lookup_insert_eq|].
  pose proof (rl_new _ _ _ _ _ _ Rel) as Hnew. pose proof (rl_left _ _ _ _ _ _ Rel) as Hleft. rewrite Er in Hnew, Hleft.
  constructor; cbn.
  - intros k. rewrite (lookup_any_jan (set_jan (forget (bs_janitorKey st) (w_jan w1)) w1)) by exact (rl_jan _ _ _ _ _ _ Rel).
    rewrite lookup_any_forget. destruct (decide _) as [->|Hne]; [done|]. by apply N4.
  - rewrite (rl_keys _ _ _ _ _ _ Rel). exact N2.
  - intros q sq. rewrite (rl_bufs _ _ _ _ _ _ Rel). destruct (decide (q = p)) as [->|Hne].
    + rewrite lookup_alter_eq, C1. intros [= <-]. by right.
    + rewrite lookup_alter_ne by done. change (w_bufs w1) with (w_bufs w). rewrite N5 by done. by left.
  - intros b mb Hb. destruct (decide (b = rg_base (bs_region st))) as [->|Hne].
    + right. destruct (mp_held mb) eqn:Hh; [by left|right]. destruct (Hleft mb Hb Hh) as [?|(H1 & H2 & H3)]; [by left|right].
      exists (w_tick w). split; [|by split]. split; [exact N1|exact H3].
    + apply Hnew in Hb; [|done]. destruct (N6 b mb Hne Hb) as [?|?]; [by left|by right; right; left].
Qed.

Lemma returns_giveUp w0 p st n w :
  world_ok w -> buf_ok w p st false false -> bs_data st = Some n -> bs_sealed st = false -> key_room w 1 ->
  only_new w0 p st w ->
  returns (Destroy (Ref p)) w (fun e w' => gone w p st false e w' /\ no_trace w0 w').
Proof.
  intros W B Ed Es Hroom N. pose proof (returns_Destroy p st false false w W B Hroom) as H1. rewrite Ed in H1.
  pose proof (wp_destroy_fresh w0 p st n w W B Ed Es N) as H2.
  eapply wp_mono; [apply (wp_and _ _ _ _ _ _ H1 H2)|done|]. by intros ? [].
Qed.

(** ** Before there is a buffer *)

Lemma near_locks p b f w : near p b w (set_locks f w).
Proof. constructor; try done. by unfold later. Qed.

(** What an allocation that fails leaves. *)
Lemma alloc_no_trace w w' : grows w w' -> zero_beyond w w' -> no_trace w w'.
Proof.
  intros [[M1 M2 M3 M4 M5 M6 M7 M8 M9] S] Z. constructor; try done.
  - intros k. by apply lookup_any_jan.
  - intros q st. rewrite M8. by left.
  - intros b m Hb. destruct (Z b m Hb) as [(m0 & H0 & _)|?]; [left|by right; right; left].
    rewrite <- Hb, H0. symmetry. by eapply lookup_weaken.
Qed.

(** A region of its own, and nothing else yet. *)
Record before w (r : secRegion) w' : Prop := Before {
  bf_later : later w w';
  bf_ring : w_keys w' = w_keys w;
  bf_jan : w_jan w' = w_jan w;
  bf_bufs : w_bufs w' = w_bufs w;
  bf_mem : forall b m, b <> rg_base r -> w_mem w' !! b = Some m -> w_mem w !! b = Some m \/ all_zero (mp_bytes m)
}.

Lemma before_alloc w r w1 w2 :
  grows w w1 -> zero_beyond w w1 -> later w w2 -> w_keys w2 = w_keys w1 -> w_jan w2 = w_jan w1 -> w_bufs w2 = w_bufs w1 ->
  (forall b, b <> rg_base r -> w_mem w2 !! b = w_mem w1 !! b) -> before w r w2.
Proof.
  intros [[M1 M2 M3 M4 M5 M6 M7 M8 M9] S] Z L E1 E2 E3 E4. constructor; try congruence; try done.
  intros b m Hb. rewrite E4 by done. intros Hm. destruct (Z b m Hm) as [(m0 & H0 & _)|?]; [left|by right].
  rewrite <- Hm, H0. symmetry. by eapply lookup_weaken.
Qed.

(** Freed again before anything was written to it. *)
Lemma before_no_trace w r w' :
  before w r w' -> (forall m, w_mem w' !! rg_base r = Some m -> all_zero (mp_bytes m)) -> no_trace w w'.
Proof.
  intros [B1 B2 B3 B4 B5] Hz. constructor; try done.
  - intros k. by apply lookup_any_jan.
  - intros q st. rewrite B4. by left.
  - intros b m Hb. destruct (decide (b = rg_base r)) as [->|Hne]; [right; right; left; by apply Hz|].
    destruct (B5 b m Hne Hb) as [?|?]; [by left|by right; right; left].
Qed.
End trace.
