(* ===== verification/BufferNew.v ===== *)
(** * Making a buffer

    The constructors: what a new buffer is, and that a constructor that fails
    leaves nothing behind. *)
From S2P Require Import Prelude Errors Canary World Memory Frame Effects Sample Quarantine Janitor Process SealAuth SecureBuffer BufferAccess BufferSpec BufferBorrow BufferReads BufferWrites BufferDestroy BufferTrace.

Section new.
Context `{K : Kernel} {KOk : KernelOk}.
Implicit Types (w : world) (st : bufferState) (m : mapping).

(** Nothing but the clock and the canary pattern, which is drawn once. *)
Definition drew (w w' : world) : Prop :=
  w' = w \/ exists c, cn_done (w_canary w) = None /\ w' = set_canary c (tick w).

Lemma world_ok_set_canary c w : world_ok w -> cn_done (w_canary w) = None -> world_ok (set_canary c w).
Proof.
  intros [W1 W2 W3 W4 W5 W6 W7 W8 W9 W10] Hc. constructor; try done.
  - by destruct W2.
  - eapply jan_ok_keep; [done|done|..]; cbn.
    + intros k' jr' Hk'. destruct (ro_map _ _ (jk_res _ W3 _ _ Hk')) as (m' & []). exists m'. by constructor.
    + intros k' jr' Hk'. by apply (ro_lock _ _ (jk_res _ W3 _ _ Hk')).
    + done.
    + congruence.
  - eapply ring_ok_keep; [done|done|by intros ?? -> ?|by intros ???|done].
Qed.

Lemma drew_ok w w' : drew w w' -> world_ok w -> world_ok w'.
Proof.
  intros [->|(c & Hc & ->)] W; [done|]. apply world_ok_set_canary; [by apply world_ok_tick|done].
Qed.

Lemma drew_frame F w w' : drew w w' -> frame F w w'.
Proof.
  intros [->|(c & Hc & ->)]; [apply frame_refl|]. constructor; try done; cbn. intros e. congruence.
Qed.

Lemma drew_later w w' : drew w w' -> later w w'.
Proof. intros [->|(c & _ & ->)]; unfold later; cbn; lia. Qed.

Lemma wp_rand_any n (Q : gerr + list Z -> world -> Prop) R w :
  (forall r, Q r (tick w)) -> wp (rand_Read n) Q R w.
Proof. intros HQ. unfold wp, rand_Read. destruct (k_errno (w_tick w)); apply HQ. Qed.

Lemma wp_canaryInit (Q : option gerr -> world -> Prop) R w :
  (forall e w', drew w w' -> (e = None -> cn_done (w_canary w') = Some None) -> Q e w') -> wp canaryInit Q R w.
Proof.
  intros HQ. unfold canaryInit. wpsteps. destruct (cn_done (w_canary w)) as [e|] eqn:Ec.
  - wpsteps. apply HQ; [by left|]. by intros ->.
  - wpsteps. apply wp_rand_any. intros [e|pat]; wpsteps; (apply HQ; [right; eauto|done]).
Qed.

(** The bytes of a new buffer: zeros, then the canary in the slack. *)
Definition fresh_bytes (pat : list Z) (size inner : Z) : list Z :=
  lset size (patternBytes pat (Z.to_nat (inner - size))) (zeros inner).

Lemma zlen_fresh pat size inner : 0 <= size <= inner -> zlen (fresh_bytes pat size inner) = inner.
Proof.
  intros Hs. unfold fresh_bytes. rewrite zlen_lset; [apply zlen_zeros; lia|lia|].
  unfold zlen at 1. rewrite length_patternBytes, zlen_zeros; lia.
Qed.

Lemma fresh_zero pat size inner : 0 <= size <= inner -> lsub 0 size (fresh_bytes pat size inner) = zeros size.
Proof.
  intros Hs. unfold fresh_bytes.
  assert (size + zlen (patternBytes pat (Z.to_nat (inner - size))) <= zlen (zeros inner)) as Hl.
  { unfold zlen at 1. rewrite length_patternBytes, zlen_zeros; lia. }
  rewrite lsub_lset_disj; [|lia|done|lia|lia|rewrite zlen_zeros; lia|left; lia].
  unfold lsub, zeros. rewrite drop_0, Z.sub_0_r, take_replicate. f_equal. lia.
Qed.

(** A new region with its slack armed. *)
Lemma wp_armSlack w w1 size r m (Q : option gerr -> world -> Prop) R :
  new_region w w1 size r m ->
  (forall e w2, world_ok w2 -> drew w1 w2 -> mapped w2 r m -> Q (Some e) w2) ->
  (forall w2 pat w3, drew w1 w2 -> world_ok w3 -> touch (rg_base r) w2 w3 ->
     mapped w3 r (with_bytes (fresh_bytes pat size (rg_inner r)) m) -> later w1 w3 ->
     (size < rg_inner r -> cn_done (w_canary w3) = Some None /\ pat = cn_pattern (w_canary w3)) -> Q None w3) ->
  wp (armSlack r size) Q R w1.
Proof.
  intros N He Hok. pose proof (nr_map _ _ _ _ _ N) as Hm. pose proof (nr_size _ _ _ _ _ N) as Hs.
  unfold armSlack. destruct (rg_inner r <=? size) eqn:E.
  - apply wp_ret. apply Z.leb_le in E. assert (rg_inner r = size) as Es by lia.
    apply (Hok w1 [] w1); [by left|apply N|apply touch_refl| |by unfold later|lia].
    unfold fresh_bytes. rewrite Es, Z.sub_diag. change (patternBytes [] (Z.to_nat 0)) with (@nil Z).
    rewrite lset_nil by (rewrite zlen_zeros; lia). rewrite <- Es, <- (nr_zero _ _ _ _ _ N). by destruct m.
  - apply wp_bind, wp_canaryInit. intros e w2 Hd Hc. pose proof (drew_ok _ _ Hd (nr_ok _ _ _ _ _ N)) as W2.
    assert (mapped w2 r m) as Hm2 by (destruct Hd as [->|(c & _ & ->)]; [done|by destruct Hm]).
    destruct e as [e|]; [apply wp_ret; by apply He|].
    apply wp_bind, wp_gets, wp_bind.
    eapply wp_mem_copy_in; [apply Hm2|by apply (prot_rw_access m); [apply Hm|apply N]|rewrite (md_len _ _ _ Hm); lia|].
    apply wp_ret.
    assert (zlen (fresh_bytes (cn_pattern (w_canary w2)) size (rg_inner r)) = rg_inner r) as Hz by (apply zlen_fresh; lia).
    rewrite (nr_zero _ _ _ _ _ N). fold (fresh_bytes (cn_pattern (w_canary w2)) size (rg_inner r)).
    eapply (Hok w2 (cn_pattern (w_canary w2))); [done| |apply touch_insert, touch_refl| | |by auto].
    + apply (world_ok_remap r m); try done. by rewrite (md_len _ _ _ Hm).
    + eapply mapped_with; [exact Hm2|cbn; by rewrite Hz, (md_len _ _ _ Hm)|done|done|cbn; apply lookup_insert_eq].
    + by apply (drew_later w1 w2).
Qed.

(** ** Registration *)

Definition closes (c : cfg) (info : allocInfo) : bool := closedAtRestOpt c && negb (ai_insecure info).

(** A buffer as its constructor hands it out: live, unsealed, read-write, with
    the options applied, under a registration of its own. *)
Record made (w : world) (p : Z) st (len : Z) (r : secRegion) (b : list Z) (c : cfg) (cl : bool) (w' : world) : Prop := Made {
  mk_buf : buf_ok w' p st false false;
  mk_live : exists m, live w' p st len m false false /\ mp_bytes m = b;
  mk_fresh : w_bufs w !! p = None;
  mk_data : bs_data st = Some len;
  mk_region : bs_region st = r;
  mk_sealed : bs_sealed st = false;
  mk_mode : bs_readOnly st = false;
  mk_auth : bs_sealAuth st = negb (unauthenticatedSeal c);
  mk_closed : bs_closedAtRest st = cl;
  mk_keys : w_keys w' = w_keys w;
  mk_key : lookup_any w (bs_janitorKey st) = None;
  mk_flag : w_flags w !! bs_sealCipher st = None
}.

Definition new_fp (w : world) (r : secRegion) : footprint := fp_union (ring_fp w) (FP {[rg_base r]} ∅ ∅ ∅ ∅ ∅).

Lemma world_ok_new_buf st w : world_ok w -> world_ok (set_bufs (insert (w_next w) st) (set_next (w_next w + 1) w)).
Proof.
  intros [W1 W2 W3 W4 W5 W6 W7 W8 W9 W10]. constructor; cbn; try done; try lia.
  - by destruct W2.
  - eapply jan_ok_keep; [done|done|..|done|done]; cbn.
    + intros k' jr' Hk'. destruct (ro_map _ _ (jk_res _ W3 _ _ Hk')) as (m' & []). exists m'. by constructor.
    + intros k' jr' Hk'. by apply (ro_lock _ _ (jk_res _ W3 _ _ Hk')).
  - eapply ring_ok_keep; [done|done|by intros ?? -> ?|by intros ???|done].
  - intros f Hs. specialize (W5 f Hs). lia.
  - intros l Hs. specialize (W6 l Hs). lia.
  - intros p. rewrite lookup_insert_is_Some. intros [<-|[_ Hs]]; [lia|]. specialize (W7 p Hs). lia.
  - intros p Hs. specialize (W8 p Hs). lia.
Qed.

Lemma frame_new_buf F st w : world_ok w -> frame F w (set_bufs (insert (w_next w) st) (set_next (w_next w + 1) w)).
Proof.
  intros W. constructor; cbn; try done; try lia. intros p st' Hp _. rewrite lookup_insert_ne; [done|].
  pose proof (wk_bufs _ W p ltac:(eauto)). lia.
Qed.

(** The prekey's lock is older than anything about to be made. *)
Lemma ring_lock_below w : world_ok w -> sk_lock (w_keys w) < w_next w.
Proof.
  intros W. destruct (decide (sk_lock (w_keys w) = 0)) as [->|Hne]; [exact (wk_next _ W)|].
  destruct (wk_ring _ W) as [?|(m & [_ _ _ Hf])]; [done|]. apply (wk_locks _ W). eexists. exact Hf.
Qed.

(** The registration of a new region. *)
Definition new_reg (w : world) (r : secRegion) (len : Z) : janitorRegion :=
  JanitorRegion r (w_next w) (bufferCanary len (rg_inner r)) (Some (w_next w + 1)) (Some (w_next w + 1 + 1)).
Definition registered (w : world) (r : secRegion) (len : Z) : world :=
  with_reg (new_reg w r len) (with_flag (with_flag (with_lock w))).

Lemma registered_ok w r len m :
  world_ok w -> mapped w r m -> unregistered w r -> (len < rg_inner r -> cn_done (w_canary w) = Some None) ->
  world_ok (registered w r len).
Proof.
  intros W Hm Hu Hc. pose proof (world_ok_with_flag _ (world_ok_with_flag _ (world_ok_with_lock _ W))) as W3.
  assert (forall f, f ∈ jr_flags (new_reg w r len) -> f = w_next w + 1 \/ f = w_next w + 1 + 1) as Hfl.
  { intros f. unfold jr_flags. cbn. set_solver. }
  apply world_ok_with_reg; [done| |].
  - constructor.
    + exists m. by destruct Hm.
    + exists 0, false. split; [apply lookup_insert_eq|done].
    + intros f Hf. cbn. rewrite !lookup_insert_is_Some. destruct (Hfl f Hf) as [-> | ->];
        [right; split; [lia|by left]|by left].
    + unfold jr_flags. cbn. repeat constructor; [rewrite list_elem_of_singleton; lia|set_solver].
    + unfold new_reg, bufferCanary. cbn. destruct (rg_inner r <=? len) eqn:E; [by left|right]. apply Hc. lia.
  - eapply (unshared_fresh w); [done|done|done|done|]. intros f Hf. destruct (Hfl f Hf) as [-> | ->]; lia.
Qed.

Lemma registered_frame F w r len : world_ok w -> frame F w (registered w r len).
Proof.
  intros W. pose proof (world_ok_with_lock _ W) as W1. pose proof (world_ok_with_flag _ W1) as W2.
  pose proof (world_ok_with_flag _ W2) as W3.
  eapply frame_trans; [by apply frame_with_lock|]. eapply frame_trans; [by apply frame_with_flag|].
  eapply frame_trans; [by apply frame_with_flag|]. apply frame_with_reg, W3.
Qed.

Definition new_state (w : world) (r : secRegion) (len : Z) (info : allocInfo) (c : cfg) : bufferState :=
  BufferState (Some len) r (w_next w) (jn_nextKey (w_jan w) + 1) false false (w_next w + 1) (w_next w + 1 + 1) info
    (negb (unauthenticatedSeal c)) false 0 (zeros sealNonceLen) (zeros sealTagLen) false 0.

Lemma new_buffer_ok w r len info c m :
  world_ok w -> mapped w r m -> mp_prot m = PROT_RW -> unregistered w r -> 0 <= len <= rg_inner r ->
  (len < rg_inner r -> cn_done (w_canary w) = Some None) ->
  let w1 := registered w r len in
  let st := new_state w r len info c in
  let w' := set_bufs (insert (w_next w1) st) (set_next (w_next w1 + 1) w1) in
  world_ok w' /\ frame (new_fp w r) w w' /\ made w (w_next w1) st len r (mp_bytes m) c false w'.
Proof.
  intros W Hm Hp Hu Hlen Hc w1 st w'. pose proof (registered_ok w r len m W Hm Hu Hc) as W1.
  pose proof (ring_lock_below w W) as Hring. pose proof (wk_next _ W) as Hpos.
  split; [by apply world_ok_new_buf|]. split; [eapply frame_trans; [by apply registered_frame|by apply frame_new_buf]|].
  assert (lookup_any w' (jn_nextKey (w_jan w) + 1) = Some (new_reg w r len)) as Hk.
  { unfold lookup_any. cbn. by rewrite lookup_insert_eq. }
  assert (w_locks w' !! w_next w = Some (LockState 0 false)) as Hlk by apply lookup_insert_eq.
  assert (live w' (w_next w1) st len m false false) as L.
  { constructor; cbn; try done; try (intros _).
    - constructor; cbn; [apply lookup_insert_eq|by destruct Hm|by exists (new_reg w r len)|by eauto|lia].
    - right. by right.
    - exists (new_reg w r len). split; [apply lookup_insert_eq|done].
    - intros jr f E. rewrite Hk in E. injection E as <-. cbn. congruence.
    - intros _. split; [done|]. by left. }
  constructor; try done.
  - constructor; cbn; try done.
    + apply lookup_insert_eq.
    + rewrite lookup_insert_ne by lia. apply lookup_insert_eq.
    + apply lookup_insert_eq.
    + lia.
    + lia.
    + intros n [= <-]. by exists m.
  - by exists m.
  - destruct (w_bufs w !! w_next w1) eqn:E; [|done]. pose proof (wk_bufs _ W (w_next w1) ltac:(eauto)) as Hb. cbn in Hb. lia.
  - by apply jan_fresh_key, W.
  - destruct (w_flags w !! bs_sealCipher st) eqn:E; [|done]. pose proof (wk_flags _ W _ ltac:(eauto)) as Hb. cbn in Hb. lia.
Qed.

(** What a new buffer's operations touch is new. *)
Lemma drop_destroy w w2 w3 p st :
  w_keys w2 = w_keys w -> w_flags w !! bs_sealCipher st = None -> w_bufs w !! p = None ->
  lookup_any w (bs_janitorKey st) = None -> frame (new_fp w (bs_region st)) w w2 ->
  frame (destroy_fp w2 p st) w2 w3 -> frame (new_fp w (bs_region st)) w w3.
Proof.
  intros Ek Hf Hb Hk F1 F2. eapply (frame_drop (fp_union (destroy_fp w2 p st) (new_fp w (bs_region st)))).
  - eapply frame_trans; [eapply frame_mono; [apply fp_sub_union_r|exact F1]|].
    eapply frame_mono; [apply fp_sub_union_l|exact F2].
  - unfold destroy_fp, op_fp, own_fp, new_fp, ring_fp. rewrite Ek. intros b m. destruct (decide _); cbn; set_solver.
  - intros f. destruct (decide (f = bs_sealCipher st)) as [->|]; [done|].
    unfold destroy_fp, op_fp, own_fp, new_fp, ring_fp. rewrite Ek. destruct (decide _); cbn; set_solver.
  - unfold destroy_fp, op_fp, own_fp, new_fp, ring_fp. rewrite Ek. intros l. destruct (decide _); cbn; set_solver.
  - intros k. destruct (decide (k = bs_janitorKey st)) as [->|]; [done|].
    unfold destroy_fp, op_fp, own_fp, new_fp, ring_fp. rewrite Ek. destruct (decide _); cbn; set_solver.
  - intros q. destruct (decide (q = p)) as [->|]; [done|].
    unfold destroy_fp, op_fp, own_fp, new_fp, ring_fp. rewrite Ek. destruct (decide _); cbn; set_solver.
  - unfold destroy_fp, op_fp, own_fp, new_fp, ring_fp. rewrite Ek. intros q. destruct (decide _); cbn; set_solver.
Qed.

(** A change of a record that was not there at the start. *)
Lemma frame_set_new_buf F w w2 p f : w_bufs w !! p = None -> frame F w w2 -> frame F w (set_bufs (alter f p) w2).
Proof.
  intros Hp [F1 F2 F3 F4 F5 F6 F7 F8 F9 F10]. constructor; try done. cbn. intros q st Hq Hn.
  rewrite lookup_alter_ne; [by apply F6|congruence].
Qed.

(** What a constructor's last step leaves, [w0] being where the constructor
    began and [w] where the registration did. *)
Definition new_post w0 w (p : Z) st len b c cl {E : Type} (res : E + SecureBuffer) (w' : world) : Prop :=
  world_ok w' /\ frame (new_fp w (bs_region st)) w w' /\ jn_nextKey (w_jan w') <= jn_nextKey (w_jan w) + 2 /\
  match res with
  | inl _ => no_trace w0 w'
  | inr s => s = Ref p /\ made w p st len (bs_region st) b c cl w' /\ only_new w0 p st w'
  end.

Section closing.
Context (w : world) (p : Z) (st : bufferState) (len : Z) (b : list Z) (c : cfg) (w1 : world).
Context (W1 : world_ok w1) (F1 : frame (new_fp w (bs_region st)) w w1) (Mk : made w p st len (bs_region st) b c false w1).
Context (Hkeys : jn_nextKey (w_jan w1) <= jn_nextKey (w_jan w) + 1) (Hroom : key_room w 2).
Context (Hk : lookup_any w (bs_janitorKey st) = None) (Hf : w_flags w !! bs_sealCipher st = None) (Eks : w_keys w1 = w_keys w).

Lemma new_relock : relock (bs_mu st) (LockState 0 false) w1 = w1.
Proof.
  pose proof (bo_lock _ _ _ _ _ (mk_buf _ _ _ _ _ _ _ _ _ Mk)) as Hl. clear - Hl. destruct w1. unfold relock, set_locks. cbn in *. f_equal. by apply insert_id.
Qed.

(** Giving the new buffer up. *)
Lemma wp_giveUp w0 w2 e (Q : gerr + SecureBuffer -> world -> Prop) R :
  buf_ok w2 p st false false -> world_ok w2 -> w_keys w2 = w_keys w -> frame (new_fp w (bs_region st)) w w2 ->
  jn_nextKey (w_jan w2) <= jn_nextKey (w_jan w) + 1 -> only_new w0 p st w2 ->
  (forall w', world_ok w' -> frame (new_fp w (bs_region st)) w w' -> jn_nextKey (w_jan w') <= jn_nextKey (w_jan w) + 2 ->
     no_trace w0 w' -> Q (inl e) w') ->
  wp (_ ← Destroy (Ref p); mret (inl e)) Q R w2.
Proof.
  intros B2 W2 E2 F2 Hk2 On HQ. apply wp_bind.
  eapply wp_returns; [apply (returns_giveUp w0 p st len); [done|done|apply Mk|apply Mk|unfold key_room in *; lia|done]|].
  intros e' w3 [[G1 G2 G3 G4 G5 G6 G7 G8] Ht]. apply wp_ret. apply HQ; [done| |lia|done].
  eapply drop_destroy; [exact E2|done|apply (mk_fresh _ _ _ _ _ _ _ _ _ Mk)|done|done|done].
Qed.

Lemma new_inside : exists m, live w1 p st len m false false /\ mp_bytes m = b /\ inside w1 p st 0 w1 st m false.
Proof.
  destruct (mk_live _ _ _ _ _ _ _ _ _ Mk) as (m & L & Eb). exists m. split; [done|]. split; [done|].
  pose proof (inside_enter w1 p st len m false (LockState 0 false) W1 (mk_buf _ _ _ _ _ _ _ _ _ Mk) L ltac:(done) ltac:(done)) as I.
  by rewrite new_relock in I.
Qed.

(** A step inside the new buffer leaves it as it was made. *)
Lemma new_outside w2 m :
  inside w1 p st 0 w2 st m false -> rest_ok st m ->
  buf_ok w2 p st false false /\ live w2 p st len m false false /\ world_ok w2 /\ frame (new_fp w (bs_region st)) w w2 /\
  jn_nextKey (w_jan w2) <= jn_nextKey (w_jan w) + 1.
Proof.
  intros I Hr. pose proof (mk_buf _ _ _ _ _ _ _ _ _ Mk) as B. rewrite <- new_relock in I.
  destruct (mk_live _ _ _ _ _ _ _ _ _ Mk) as (m0 & L0 & _).
  destruct (inside_leave (LockState 0 false) w1 p st false 0 w2 st len m false) as [[D1 D2 D3 D4 D5] L]; try done;
    [by apply Mk|by destruct L0|by apply B|].
  assert (unlocked (bs_mu st) w2 = w2) as E2.
  { pose proof (inside_locked (LockState 0 false) _ _ _ _ _ _ _ _ I) as Hl. clear - Hl. destruct w2. unfold unlocked, relock, set_locks. cbn in *.
    f_equal. by apply insert_id. }
  rewrite E2 in *. split_and!; try done; [|lia].
  eapply drop_destroy; [exact Eks|done|apply Mk|done|exact F1|]. eapply frame_mono; [apply fp_sub_union_l|exact D3].
Qed.
End closing.

(** Closing the pages of a closed-at-rest buffer: a made buffer becomes one
    whose pages are shut, or is destroyed again. *)
Lemma wp_closeNew w0 w p st len b c info w1 :
  only_new w0 p st w1 -> world_ok w1 -> frame (new_fp w (bs_region st)) w w1 -> made w p st len (bs_region st) b c false w1 ->
  jn_nextKey (w_jan w1) <= jn_nextKey (w_jan w) + 1 -> key_room w 2 -> lookup_any w (bs_janitorKey st) = None ->
  w_flags w !! bs_sealCipher st = None -> w_keys w1 = w_keys w ->
  returns (err ← mprotectSecretMem (bs_region st) PROT_NONE;
        match err with
        | Some e => _ ← Destroy (Ref p); mret (inl (errorf "secmem: closing a closed-at-rest buffer" e))
        | None => buf_set p (bs_set_closed info);; mret (inr (Ref p))
        end) w1 (new_post w0 w p (bs_set_closed info st) len b c true).
Proof.
  intros On W1 F1 Mk Hkeys Hroom Hk Hf Eks.
  destruct (new_inside w p st len b c w1 W1 Mk) as (m & L & Eb & I). unfold returns, new_post. apply wp_bind.
  eapply wp_keeps; [apply (keeps_mprotect p)|].
  eapply wp_in_mprotect; [exact I|by left|intros e w2 I2 T2 Hne|intros w2 I2 T2 Hne];
    pose proof (only_new_near _ _ _ _ _ On Hne) as On2.
  - destruct (lv_open _ _ _ _ _ _ _ L eq_refl (mk_sealed _ _ _ _ _ _ _ _ _ Mk)) as [_ Hr].
    destruct (new_outside w p st len b c w1 W1 F1 Mk Hkeys Hk Hf Eks w2 m I2 Hr) as (B2 & L2 & W2 & F2 & K2).
    eapply wp_giveUp; try done. destruct T2 as [[] _]. congruence.
  - apply wp_bind. eapply wp_keeps; [apply (keeps_buf_set p (rg_base (bs_region st)))|].
    apply wp_buf_set. intros Hne3. apply wp_ret. pose proof (only_new_near _ _ _ _ _ On2 Hne3) as On3.
    pose proof (mk_buf _ _ _ _ _ _ _ _ _ Mk) as B.
    assert (lock_free w2 (bs_mu st)) as Hfree.
    { rewrite <- (new_relock w p st len b c w1 Mk) in I2. exact (inside_locked (LockState 0 false) _ _ _ _ _ _ _ _ I2). }
    pose proof I2 as [J1 J2 J3 J4 J5 J6 J7 J8 J9 J10 J11 J12].
    assert (frame (new_fp w (bs_region st)) w w2) as F2.
    { eapply drop_destroy; [exact Eks|done|apply Mk|done|exact F1|]. eapply frame_mono; [apply fp_sub_union_l|exact J6]. }
    set (st' := bs_set_closed info st).
    set (w3 := set_bufs _ w2).
    assert (live w3 p st' len (protect PROT_NONE m) false false) as L3.
    { destruct L as [L1 L2 L3 L4 L5 L6 L7 L8]. constructor; try done.
      - by apply bcore_set.
      - intros jr f Hjr. apply (L7 jr f). destruct T2 as [[] _]. unfold lookup_any in *. cbn in Hjr. by rewrite <- mo_jan.
    }
    split; [by apply world_ok_buf|]. split; [|split; [cbn; lia|]].
    + eapply frame_set_new_buf; [apply Mk|done].
    + split; [done|]. split; [|by apply (only_new_as w0 p st)]. destruct Mk as [M1 M2 M3 M4 M5 M6 M7 M8 M9]. constructor; try done.
      * constructor; try done; cbn.
        -- by rewrite lookup_alter_eq, (bc_st _ _ _ _ J2).
        -- apply B.
        -- apply B.
        -- apply J2.
        -- congruence.
        -- intros n Hn. assert (n = len) as -> by congruence. by exists (protect PROT_NONE m).
      * exists (protect PROT_NONE m). split; [done|]. by rewrite protect_bytes.
      * destruct T2 as [[] _]. cbn. congruence.
Qed.

(** The new record and its registration are all that is new. *)
Lemma only_new_registered w0 w r len info c :
  before w0 r w -> world_ok w ->
  let w1 := registered w r len in
  only_new w0 (w_next w1) (new_state w r len info c)
    (set_bufs (insert (w_next w1) (new_state w r len info c)) (set_next (w_next w1 + 1) w1)).
Proof.
  intros [B1 B2 B3 B4 B5] W w1. constructor; cbn; try done.
  - rewrite <- (lookup_any_jan w0 w) by done. by apply jan_fresh_key, W.
  - intros k Hk. rewrite <- (lookup_any_jan w0 w) by done. unfold lookup_any. cbn. by rewrite lookup_insert_ne.
  - intros q Hq. rewrite lookup_insert_ne by done. by rewrite B4.
Qed.

Lemma wp_newSecureBuffer w0 r len info c w m :
  before w0 r w -> world_ok w -> key_room w 2 -> mapped w r m -> mp_prot m = PROT_RW -> unregistered w r -> 0 <= len <= rg_inner r ->
  (len < rg_inner r -> cn_done (w_canary w) = Some None) ->
  returns (newSecureBuffer r len info c) w (fun res w' =>
    exists p st, bs_region st = r /\ new_post w0 w p st len (mp_bytes m) c (closes c info) res w').
Proof.
  intros Bf W Hroom Hm Hp Hu Hlen Hc. unfold newSecureBuffer, returns.
  apply wp_bind, wp_new_lock, wp_bind, wp_new_flag, wp_bind, wp_new_flag, wp_bind, wp_gets.
  set (info' := AllocInfo _ _ _ _ _ _ _ _ _).
  pose proof (world_ok_with_flag _ (world_ok_with_flag _ (world_ok_with_lock _ W))) as W3.
  apply wp_bind, wp_register; [apply W3|apply W3|unfold key_room in *; cbn; lia|].
  destruct (new_buffer_ok w r len info' c m W Hm Hp Hu Hlen Hc) as (W5 & F5 & M5).
  pose proof (only_new_registered w0 w r len info' c Bf W) as On5.
  change (with_reg _ _) with (registered w r len).
  set (p := w_next (registered w r len)) in *. set (st := new_state w r len info' c) in *.
  apply wp_bind, wp_modify. change (jn_nextKey (w_jan _) + 1) with (bs_janitorKey st).
  change (set_bufs _ _) with (set_bufs (insert p st) (set_next (p + 1) (registered w r len))).
  set (w5 := set_bufs _ _) in *. change (closedAtRestOpt c && negb (ai_insecure info')) with (closes c info).
  assert (lookup_any w (bs_janitorKey st) = None) as Hk by (apply jan_fresh_key, W).
  assert (w_flags w !! bs_sealCipher st = None) as Hf.
  { destruct (w_flags w !! _) eqn:E; [|done]. pose proof (wk_flags _ W _ ltac:(eauto)) as Hb. cbn in Hb. lia. }
  destruct (closes c info).
  - eapply wp_mono; [apply (wp_closeNew w0 w p st len (mp_bytes m) c _ w5); try done; cbn; lia| |done].
    intros res w' Hp'. eexists p, _. by split; [|exact Hp'].
  - apply wp_ret. exists p, st. split; [done|]. split; [done|]. split; [done|]. split; [cbn; lia|done].
Qed.

(** ** The constructors *)

(** The region of a new buffer: [x], then the canary. *)
Definition contents (w' : world) size (x : list Z) (inner : Z) (bytes : list Z) : Prop :=
  lsub 0 size bytes = x /\
  lsub size inner bytes = patternBytes (cn_pattern (w_canary w')) (Z.to_nat (inner - size)) /\
  (size < inner -> cn_done (w_canary w') = Some None).

(** The outcome of a constructor: an error that leaves no trace of the attempt,
    or a buffer of [size] bytes that hold [x], with its slack armed. *)
Definition built w size (opts : list (option Option)) (x : list Z) (res : gerr + SecureBuffer) (w' : world) : Prop :=
  world_ok w' /\ frame (ring_fp w) w w' /\ jn_nextKey (w_jan w') <= jn_nextKey (w_jan w) + 2 /\
  match res with
  | inl _ => no_trace w w'
  | inr s => exists p st bytes cl, s = Ref p /\ made w p st size (bs_region st) bytes (applyOptions opts) cl w' /\
      w_mem w !! rg_base (bs_region st) = None /\ (cl = true -> closedAtRestOpt (applyOptions opts) = true) /\
      contents w' size x (rg_inner (bs_region st)) bytes /\ only_new w p st w'
  end.

Lemma wp_cfg_alloc c size w :
  mem_ok w -> size <= MaxInt ->
  returns (cfg_alloc c size) w (fun r w' => alloc_spec w size r w' /\ zero_beyond w w' /\ later w w').
Proof.
  intros Hok Hs. unfold cfg_alloc. pose proof (zb_refl w) as Z. assert (later w w) as L by done.
  destruct (noMemfdSecret c); (eapply wp_mono; [apply wp_and;
    [by apply alloc_anon_spec || by apply alloc_secret_spec
    |by apply (inv_allocMapAnon (fun w' => zero_beyond w w' /\ later w w')) ||
     by apply (inv_allocSecretMem (fun w' => zero_beyond w w' /\ later w w'))]|done|by intros ? []]).
Qed.

Lemma fresh_contents w' size r pat :
  0 <= size <= rg_inner r -> (size < rg_inner r -> cn_done (w_canary w') = Some None /\ pat = cn_pattern (w_canary w')) ->
  contents w' size (zeros size) (rg_inner r) (fresh_bytes pat size (rg_inner r)).
Proof.
  intros Hs Hp. split; [by apply fresh_zero|]. split; [|intros Hlt; by apply Hp]. unfold fresh_bytes. set (bs := patternBytes pat _).
  assert (zlen bs = rg_inner r - size) as Hl by (unfold bs, zlen; rewrite length_patternBytes; lia).
  replace (rg_inner r) with (size + zlen bs) at 1 by lia. rewrite lsub_lset_same by (rewrite ?zlen_zeros; lia).
  unfold bs. destruct (decide (size < rg_inner r)) as [Hlt|]; [by destruct (Hp Hlt) as [_ ->]|].
  by replace (rg_inner r - size) with 0 by lia.
Qed.

(** A change where nothing was at the start. *)
Lemma frame_touch_new G w w2 w3 b : w_mem w !! b = None -> frame G w w2 -> touch b w2 w3 -> frame G w w3.
Proof.
  intros Hb [F1 F2 F3 F4 F5 F6 F7 F8 F9 F10] [[M1 M2 M3 M4 M5 M6 M7 M8 M9] T].
  constructor; rewrite ?M1, ?M2, ?M3, ?M4, ?M5, ?M8, ?M9; try done.
  intros b' m Hm Hh Hn. rewrite T; [by apply F1|]. intros ->. congruence.
Qed.

(** Only the canary and mappings moved before the registration. *)
Lemma drop_region w w3 r w' :
  w_mem w !! rg_base r = None -> w_keys w3 = w_keys w -> frame (ring_fp w) w w3 -> frame (new_fp w3 r) w3 w' ->
  frame (ring_fp w) w w'.
Proof.
  intros Hm Ek F1 F2. eapply (frame_drop (new_fp w3 r)).
  - eapply frame_trans; [|exact F2]. eapply frame_mono; [|exact F1]. unfold new_fp. rewrite (ring_fp_eq w w3) by done.
    apply fp_sub_union_l.
  - unfold new_fp. rewrite (ring_fp_eq w w3) by done. cbn. intros b m Hb Hn Hl. assert (b = rg_base r) by set_solver. congruence.
  - unfold new_fp. rewrite (ring_fp_eq w w3) by done. cbn. set_solver.
  - unfold new_fp. rewrite (ring_fp_eq w w3) by done. cbn. set_solver.
  - unfold new_fp. rewrite (ring_fp_eq w w3) by done. cbn. set_solver.
  - unfold new_fp. rewrite (ring_fp_eq w w3) by done. cbn. set_solver.
  - unfold new_fp. rewrite (ring_fp_eq w w3) by done. cbn. set_solver.
Qed.

Lemma drew_same w w' : drew w w' ->
  w_keys w' = w_keys w /\ w_jan w' = w_jan w /\ w_mem w' = w_mem w /\ w_bufs w' = w_bufs w /\ w_flags w' = w_flags w.
Proof. by intros [->|(c & _ & ->)]. Qed.

Lemma made_from w w3 p st len r b c cl w' :
  w_bufs w3 = w_bufs w -> w_keys w3 = w_keys w -> w_jan w3 = w_jan w -> w_flags w3 = w_flags w ->
  made w3 p st len r b c cl w' -> made w p st len r b c cl w'.
Proof.
  intros E1 E2 E3 E4 []. constructor; try done; [by rewrite <- E1|by rewrite <- E2|by rewrite <- (lookup_any_jan w w3)|by rewrite <- E4].
Qed.

Lemma wp_allocBuffer ctx size opts w :
  world_ok w -> key_room w 2 -> size <= MaxInt ->
  returns (allocBuffer ctx size opts) w (built w size opts (zeros size)).
Proof.
  intros W Hroom Hmax. unfold allocBuffer, returns. set (c := applyOptions opts).
  assert (forall e w', world_ok w' -> frame (ring_fp w) w w' -> w_jan w' = w_jan w -> no_trace w w' ->
    built w size opts (zeros size) (inl e) w') as Hfail.
  { intros e w' W' F' E' T'. split; [done|]. split; [done|]. split; [rewrite E'; lia|done]. }
  destruct (gateInsecure _ c); [apply wp_ret; by apply Hfail; [|apply frame_refl| |apply no_trace_refl]|].
  apply wp_bind. eapply wp_returns; [by apply wp_cfg_alloc; [apply W|]|]. intros [e|[[r len] info]] w1 (Ha & Hz & Hlt).
  { apply wp_ret. destruct Ha as [(Hg & Hok & _) _].
    apply Hfail; [by eapply world_ok_grows|by apply grows_frame|by apply grows_nextKey|by apply alloc_no_trace]. }
  destruct (alloc_new _ _ _ _ _ _ W Ha) as (-> & m & N). pose proof (nr_size _ _ _ _ _ N) as Hs.
  pose proof (grows_nextKey _ _ (nr_grows _ _ _ _ _ N)) as J1.
  pose proof (nr_grows _ _ _ _ _ N) as [[G1 _ _ _ _ _ G7 G8 _] _].
  apply wp_bind. eapply wp_armSlack; [exact N|intros e w2 W2 D2 M2|intros w2 pat w3 D2 W3 T3 M3 Lt3 Hcan].
  - destruct (drew_same _ _ D2) as (E1 & E2 & E3 & E4 & E5).
    assert (unregistered w2 r) as U2 by (eapply unregistered_jan; [exact E2|apply N]).
    apply wp_bind. eapply wp_returns; [eapply wp_mono; [apply wp_and; [apply wp_and;
      [by apply (wp_free_unregistered r m)|by apply (wp_freeSecretMem r m)]|by apply (inv_freeSecretMem (later w2))]|done|by intros ? [[] ?]]|].
    intros fe w3 [[[W3 [M T]] [_ Hat]] Lt]. apply wp_ret. apply Hfail; [done| |by destruct M; congruence|].
    2:{ apply (before_no_trace w r); [|intros mb Hb; destruct fe; [|congruence]; destruct Hat as (m' & Hm' & Eb & _);
          assert (mb = m') as -> by congruence; rewrite Eb, (nr_zero _ _ _ _ _ N); apply all_zero_zeros].
        apply (before_alloc w r w1); [apply N|done| |by destruct M; congruence..|by intros b Hb; rewrite T, E3].
        etrans; [exact Hlt|]. etrans; [by apply drew_later|exact Lt]. }
    eapply frame_touch_new; [apply (nr_new _ _ _ _ _ N)| |split; done].
    eapply frame_trans; [apply grows_frame, N|by apply drew_frame].
  - destruct (drew_same _ _ D2) as (E1 & E2 & E3 & E4 & E5). pose proof T3 as [[S1 S2 S3 S4 S5 S6 S7 S8 S9] _].
    assert (w_jan w3 = w_jan w) as J3 by congruence.
    assert (frame (ring_fp w) w w3) as F3.
    { eapply frame_touch_new; [apply (nr_new _ _ _ _ _ N)| |exact T3].
      eapply frame_trans; [apply grows_frame, N|by apply drew_frame]. }
    eapply wp_returns.
    { apply (wp_newSecureBuffer w r size info c w3 (with_bytes (fresh_bytes pat size (rg_inner r)) m)).
      - destruct T3 as [_ T3]. apply (before_alloc w r w1); [apply N|done|by etrans|congruence..|by intros b Hb; rewrite T3, E3].
      - exact W3.
      - unfold key_room in *. by rewrite J3.
      - done.
      - apply N.
      - eapply (unregistered_jan w1); [congruence|apply N].
      - lia.
      - intros Hn. by apply Hcan. }
    intros res w4 (p & st & Er & (P1 & P2 & P3 & P4)). rewrite Er in P2.
    split; [done|]. split; [eapply (drop_region w w3 r); [apply (nr_new _ _ _ _ _ N)|congruence|exact F3|exact P2]|].
    split; [rewrite J3 in P3; lia|]. destruct res as [e|s]; [done|]. destruct P4 as (-> & Mk & On).
    exists p, st, (fresh_bytes pat size (rg_inner r)), (closes c info). split; [done|]. split; [|split; [rewrite Er; apply N|split; [|split; [|done]]]].
    + eapply (made_from w w3); [congruence..|exact Mk].
    + unfold closes. by intros [? _]%andb_true_iff.
    + rewrite Er. apply fresh_contents; [lia|]. intros Hn. destruct (Hcan Hn) as [Hd ->].
      by rewrite (fr_canary _ _ _ P2 None Hd).
Qed.

(** ** Filling a new buffer *)

Lemma made_drop w w1 w2 p st len b c cl w' :
  made w p st len (bs_region st) b c cl w' -> w_mem w !! rg_base (bs_region st) = None -> w_keys w1 = w_keys w ->
  frame (ring_fp w) w w1 -> frame (destroy_fp w1 p st) w1 w2 -> frame (ring_fp w) w w2.
Proof.
  intros Mk Hm Ek F1 F2. eapply (frame_drop (new_fp w (bs_region st))).
  - eapply drop_destroy; [exact Ek|apply Mk|apply Mk|apply Mk| |exact F2].
    eapply frame_mono; [apply fp_sub_union_l|exact F1].
  - unfold new_fp. cbn. intros b0 m Hb Hn Hl. assert (b0 = rg_base (bs_region st)) by set_solver. congruence.
  - unfold new_fp. cbn. set_solver.
  - unfold new_fp. cbn. set_solver.
  - unfold new_fp. cbn. set_solver.
  - unfold new_fp. cbn. set_solver.
  - unfold new_fp. cbn. set_solver.
Qed.

Lemma made_settled w p st len b b' c cl w1 w2 :
  made w p st len (bs_region st) b c cl w1 -> settled w1 p st len b' w2 -> made w p st len (bs_region st) b' c cl w2.
Proof.
  intros [] (m' & [D1 D2 D3 D4 D5 D6] & L & Eb). constructor; try done; [by exists m'|]. by rewrite D6.
Qed.

Lemma wp_fillInitial p raw w w1 st size b c cl :
  only_new w p st w1 -> made w p st size (bs_region st) b c cl w1 -> world_ok w1 -> frame (ring_fp w) w w1 ->
  w_mem w !! rg_base (bs_region st) = None -> zlen raw = size ->
  jn_nextKey (w_jan w1) <= jn_nextKey (w_jan w) + 2 -> key_room w 3 ->
  returns (fillInitial p raw) w1 (fun e w' => world_ok w' /\ frame (ring_fp w) w w' /\
    jn_nextKey (w_jan w') <= jn_nextKey (w_jan w) + 3 /\
    match e with
    | None => made w p st size (bs_region st) (lset 0 raw b) c cl w' /\ settled w1 p st size (lset 0 raw b) w'
    | Some _ => no_trace w w'
    end).
Proof.
  intros On Mk W1 F1 Hm Hsz Hk Hroom. pose proof (mk_buf _ _ _ _ _ _ _ _ _ Mk) as B.
  destruct (ready_intro (LockState 0 true) w1 p st false false W1 B) as (_ & _ & n & m & Rd); [|done|done|].
  { unfold refusal. by rewrite (mk_data _ _ _ _ _ _ _ _ _ Mk), (mk_sealed _ _ _ _ _ _ _ _ _ Mk). }
  assert (n = size) as -> by (pose proof (rd_data _ _ _ _ _ _ Rd); pose proof (mk_data _ _ _ _ _ _ _ _ _ Mk); congruence).
  assert (mp_bytes m = b) as Eb.
  { destruct (mk_live _ _ _ _ _ _ _ _ _ Mk) as (m' & L' & <-).
    destruct (bc_map _ _ _ _ (lv_core _ _ _ _ _ _ _ L')), (bc_map _ _ _ _ (lv_core _ _ _ _ _ _ _ (rd_live _ _ _ _ _ _ Rd))). congruence. }
  destruct (ready_sizes _ _ _ _ _ _ Rd) as [Hn Hlen].
  (* giving up from a settled state *)
  assert (only_new w p st (locked (bs_mu st) w1)) as On1 by (eapply only_new_near; [exact On|apply near_locks]).
  assert (forall b' w2 (e : gerr), w_locks w2 !! bs_mu st = Some (LockState 0 true) -> settled w1 p st size b' (unlocked (bs_mu st) w2) ->
    only_new w p st w2 ->
    wp (lk_unlock (bs_mu st);; _ ← Destroy (Ref p); mret (Some e)) (fun e w' => world_ok w' /\ frame (ring_fp w) w w' /\
      jn_nextKey (w_jan w') <= jn_nextKey (w_jan w) + 3 /\
      match e with
      | None => made w p st size (bs_region st) (lset 0 raw b) c cl w' /\ settled w1 p st size (lset 0 raw b) w'
      | Some _ => no_trace w w'
      end) (fun _ => False) w2) as Hgive.
  { intros b' w2 e Hl (m2 & [D1 D2 D3 D4 D5 D6] & L2 & _) On2. apply wp_bind. eapply wp_lk_unlock; [exact Hl|]. apply wp_bind.
    change (set_locks _ w2) with (unlocked (bs_mu st) w2) in *. set (w3 := unlocked (bs_mu st) w2) in *.
    eapply wp_returns; [apply (returns_giveUp w p st size); [done|done|apply Mk|apply Mk|unfold key_room in *; lia|]|].
    { eapply only_new_near; [exact On2|apply near_locks]. }
    intros e' w4 [[E1 E2 E3 E4 E5 E6 E7 E8] Ht]. apply wp_ret.
    split; [done|]. split; [|split; [lia|done]].
    eapply (made_drop w w3); [exact Mk|done|by rewrite D6, (mk_keys _ _ _ _ _ _ _ _ _ Mk)| |exact E3].
    eapply (made_drop w w1); [exact Mk|done|by apply Mk|done|]. eapply frame_mono; [apply fp_sub_union_l|exact D3]. }
  unfold fillInitial, returns. apply wp_bind. eapply wp_buf_get; [apply B|].
  apply wp_bind, wp_lk_lock; [apply B|]. change (set_locks _ w1) with (locked (bs_mu st) w1).
  apply wp_bind. eapply wp_flag_load; [apply B|]. cbv iota. apply wp_bind.
  eapply wp_keeps; [by apply (keeps_open p st), B|].
  eapply wp_in_open; [exact (rd_in _ _ _ _ _ _ Rd)|by destruct Rd|by destruct Rd|
    intros e w2 m2 I2 E2 R2 _ Ne2|intros w2 m2 I2 E2 O2 R2 _ Ne2];
    pose proof (only_new_near _ _ _ _ _ On1 Ne2) as On2.
  { destruct (ready_leave _ _ _ _ _ _ _ _ Rd I2 R2) as [Hl Hs]. by eapply Hgive. }
  apply wp_bind. eapply wp_buf_get; [apply I2|].
  assert (bs_data (opening st) = Some size) as ->.
  { unfold opening. destruct (bs_closedAtRest st); apply Mk. }
  change (default 0 (Some size)) with size. apply wp_bind.
  assert (copy_to (opening st) 0 size raw = copy_to st 0 size raw) as ->.
  { unfold copy_to, opening. by destruct (bs_closedAtRest st). }
  assert (bs_mu (opening st) = bs_mu st) as -> by (unfold opening; by destruct (bs_closedAtRest st)).
  eapply wp_keeps; [apply (keeps_copy_to p)|].
  eapply wp_copy_to; [exact I2|apply O2, Mk|lia|lia|]. intros w3 m3 I3 E3 P3 Ne3.
  pose proof (only_new_near _ _ _ _ _ On2 Ne3) as On3.
  apply wp_bind. eapply wp_keeps; [apply (keeps_close p (opening st)), I3|].
  rewrite opening_region.
  eapply wp_in_close; [exact I3|by destruct Rd| |intros e w4 m4 I4 E4 R4 _ Ne4].
  { intros Hc. rewrite P3. by apply R2. }
  destruct (ready_leave _ _ _ _ _ _ _ _ Rd I4 R4) as [Hl Hs].
  assert (mp_bytes m4 = lset 0 raw b) as Eraw.
  { rewrite E4, E3, E2, Eb. f_equal. rewrite Hsz. replace (Z.min size (size - 0)) with size by lia.
    apply take_ge. unfold zlen in *. lia. }
  pose proof (only_new_near _ _ _ _ _ On3 Ne4) as On4.
  rewrite Eraw in Hs. destruct e as [e|]; [by eapply Hgive|].
  apply wp_bind. eapply wp_lk_unlock; [exact Hl|]. apply wp_ret. change (set_locks _ w4) with (unlocked (bs_mu st) w4).
  split; [by destruct Hs as (? & [] & _)|]. split; [|split].
  - destruct Hs as (m5 & [D1 D2 D3 D4 D5 D6] & _).
    eapply (made_drop w w1); [exact Mk|done|by apply Mk|done|]. eapply frame_mono; [apply fp_sub_union_l|exact D3].
  - destruct Hs as (m5 & [D1 D2 D3 D4 D5 D6] & _). lia.
  - split; [|done]. by eapply made_settled.
Qed.

Lemma contents_fill w2 w3 size inner raw b x :
  0 <= size <= inner -> zlen b = inner -> zlen raw = size -> (forall e, cn_done (w_canary w2) = Some e -> w_canary w3 = w_canary w2) ->
  contents w2 size x inner b -> contents w3 size raw inner (lset 0 raw b).
Proof.
  intros Hs Hb Hr Hc (_ & H & Hd). subst inner. split; [|split].
  - replace size with (0 + zlen raw) by lia. apply lsub_lset_same; lia.
  - rewrite lsub_lset_disj by lia. rewrite H. destruct (decide (size < zlen b)) as [Hlt|].
    + by rewrite (Hc None (Hd Hlt)).
    + by replace (zlen b - size) with 0 by lia.
  - intros Hlt. by rewrite (Hc None (Hd Hlt)), (Hd Hlt).
Qed.

(** Both constructors wipe nothing but the caller's slice, which [NewBuffer]
    always does once it has accepted it. *)
Lemma wp_NewBuffer raw opts w :
  world_ok w -> key_room w 3 -> zlen raw <= MaxInt ->
  returns (NewBuffer raw opts) w (fun r w' =>
    if (zlen raw =? 0) then r = (inl (Msg "secmem.NewBuffer: empty input"), raw) /\ w' = w
    else r.2 = zeros (zlen raw) /\ world_ok w' /\ frame (ring_fp w) w w' /\ jn_nextKey (w_jan w') <= jn_nextKey (w_jan w) + 3 /\
    match r.1 with
    | inl _ => no_trace w w'
    | inr s => exists p st bytes cl, s = Ref p /\ made w p st (zlen raw) (bs_region st) bytes (applyOptions opts) cl w' /\
        (cl = true -> closedAtRestOpt (applyOptions opts) = true) /\ contents w' (zlen raw) raw (rg_inner (bs_region st)) bytes
    end).
Proof.
  intros W Hroom Hmax. unfold NewBuffer. destruct (zlen raw =? 0) eqn:E0; [by apply wp_ret|]. apply Z.eqb_neq in E0.
  rewrite secureWipe_zero. cbn [fst]. unfold returns. apply wp_bind.
  eapply wp_returns; [apply wp_allocBuffer; [done|unfold key_room in *; lia|done]|].
  intros [e|s] w1 (W1 & F1 & K1 & Hres); [apply wp_ret; split; [done|]; split; [done|]; split; [done|]; split; [lia|done]|].
  destruct Hres as (p & st & bytes & cl & -> & Mk & Hm & Hcl & Hct & On).
  apply wp_bind. eapply wp_returns; [by eapply (wp_fillInitial p raw w w1 st (zlen raw) bytes (applyOptions opts) cl)|].
  intros [e|] w2 (W2 & F2 & K2 & Hok); (apply wp_ret; split; [done|]; split; [done|]; split; [done|]; split; [lia|]); [done|].
  destruct Hok as [Mk2 Hs]. cbn [fst]. exists p, st, (lset 0 raw bytes), cl. split; [done|]. split; [done|]. split; [done|].
  destruct (mk_live _ _ _ _ _ _ _ _ _ Mk) as (m & L & Eb).
  pose proof (md_len _ _ _ (bc_map _ _ _ _ (lv_core _ _ _ _ _ _ _ L))) as Hl. rewrite Eb in Hl.
  apply (contents_fill w1 w2 (zlen raw) _ raw bytes (zeros (zlen raw))); [by destruct L|done|done| |exact Hct].
  destruct Hs as (m5 & [D1 D2 D3 D4 D5 D6] & _). apply (fr_canary _ _ _ D3).
Qed.

Lemma wp_NewEmptyBuffer size opts w :
  world_ok w -> key_room w 2 -> size <= MaxInt ->
  returns (NewEmptyBuffer size opts) w (fun r w' =>
    if (size <=? 0) then r = inl (Msg "secmem.NewEmptyBuffer: invalid size") /\ w' = w
    else built w size opts (zeros size) r w').
Proof.
  intros W Hroom Hmax. unfold NewEmptyBuffer. destruct (size <=? 0); [by apply wp_ret|]. by apply wp_allocBuffer.
Qed.
End new.
