(* ===== verification/BufferTheorems.v ===== *)
(** * The secure buffer's contract

    What a caller of a secure buffer may rely on: sealing, unsealing and what
    tampering in between does, the mode changes, reading and writing, borrowing,
    construction and destruction. Every theorem holds in every state of the
    buffer, for every pattern of failures of the kernel and in either port. *)
From S2P Require Import Prelude Errors Canary World Memory Frame Sample Quarantine Janitor Process SealAuth SecureBuffer BufferAccess BufferSpec BufferOps BufferBorrow BufferReads BufferWrites BufferDestroy BufferTrace BufferNew.

Section contract.
Context `{K : Kernel} {KOk : KernelOk}.
Implicit Types (w : world) (st : bufferState) (m : mapping).

(** ** Sealing *)

(** The outcome of [Seal] on a live buffer. The secret behind the bytes stays
    what it was. A failure leaves the buffer unsealed and in the clear, or, if
    the way back is barred as well, sealed ciphertext. *)
Definition seal_done w (p : Z) st n m (e : option gerr) (w' : world) : Prop :=
  if bs_sealed st then e = None /\ w' = w
  else exists st' m' c', op_done w p st 1 w' st' c' false /\ live w' p st' n m' c' false /\ kept st st' /\
    plain c' (mp_bytes m') = mp_bytes m /\
    match e with
    | None => bs_sealed st' = true /\ mp_prot m' = PROT_NONE /\ c' = bool_decide (k_os = Windows) /\
        (bs_sealAuth st = true -> bs_sealTagged st' = true /\ seal_valid w' st' m')
    | Some _ => bs_sealed st' = c'
    end.

Lemma live_kept w p st c n m : buf_ok w p st c false -> live w p st n m c false ->
  0 <= n <= rg_inner (bs_region st) /\ bs_openers st = 0.
Proof. intros B L. split; [apply L|apply B]. Qed.

Lemma returns_Seal w p st c wd :
  world_ok w -> buf_ok w p st c wd -> key_room w 1 ->
  returns (Seal (Ref p)) w (exclusive_done "secmem.SecureBuffer.Seal" w p st c wd (seal_done w p st)).
Proof.
  intros W B Hroom. unfold Seal. eapply returns_exclusive_done; [done|done|]. intros n m Hd -> L I.
  unfold seal_done. destruct (bs_sealed st) eqn:Es.
  { unfold sealLocked. rewrite Es. apply wp_ret. split; [apply lookup_insert_eq|]. split; [done|]. apply locked_unlocked, B. }
  destruct (lv_open _ _ _ _ _ _ _ L eq_refl Es) as [-> Hro]. destruct (live_kept _ _ _ _ _ _ B L) as [Hn Ho].
  eapply wp_returns; [by apply (wp_sealLocked _ p st m)|].
  intros e w' (st' & m' & c' & I' & (K1 & K2 & K3 & K4) & Hp & He). split; [by eapply (inside_locked (LockState 0 true))|].
  destruct (inside_leave (LockState 0 true) w p st false 1 w' st' n m' c') as [D L']; [done|done|done|congruence|done|congruence| |].
  { intros Hs. destruct e as [e|]; [|destruct He; congruence]. destruct He as [(? & ? & ?)|[? _]]; [done|congruence]. }
  exists st', m', c'. split; [done|]. split; [done|]. split; [done|]. split; [done|]. destruct e as [e|].
  - destruct He as [(-> & -> & _)|(-> & ->)]; done.
  - destruct He as (? & ? & Hv & ?). split; [done|]. split; [done|]. split; [done|]. intros Ha. destruct (Hv Ha).
    split; [done|]. by apply seal_valid_unlocked.
Qed.

(** C14. [Seal], in every state: a destroyed or wiped buffer is refused and a
    sealed one left alone; otherwise the buffer ends sealed, with its pages
    inaccessible, its bytes encrypted where the port has a memory cipher and a
    valid tag over them unless it was made without one; or it ends unsealed and
    in the clear with an error, or, when even the way back fails, sealed with
    an error. Under every pattern of failures the secret is still there, and
    nothing but this buffer and the prekey was touched. *)
Theorem seal_exact w p st c wd :
  world_ok w -> buf_ok w p st c wd -> key_room w 1 ->
  returns (Seal (Ref p)) w (exclusive_done "secmem.SecureBuffer.Seal" w p st c wd (seal_done w p st)).
Proof. apply returns_Seal. Qed.

(** The outcome of [Unseal] on a live buffer. *)
Definition unseal_done w (p : Z) st c n m (e : option gerr) (w' : world) : Prop :=
  if negb (bs_sealed st) then e = None /\ w' = w
  else exists st' m' c', op_done w p st 2 w' st' c' false /\ live w' p st' n m' c' false /\ kept st st' /\
    plain c' (mp_bytes m') = plain c (mp_bytes m) /\
    match e with
    | None => bs_sealed st' = false /\ c' = false /\ mp_prot m' = modeProtection st' /\
        (bs_sealTagged st = true -> usable w -> seal_valid w st m)
    | Some _ => bs_sealed st' = true
    end.

Lemma seal_valid_relock mu s w st m : seal_valid (relock mu s w) st m -> seal_valid w st m.
Proof. intros (H1 & H2 & mk & [] & H3). split; [done|]. split; [done|]. exists mk. by split. Qed.

Lemma returns_Unseal w p st c wd :
  world_ok w -> buf_ok w p st c wd -> key_room w 2 ->
  returns (Unseal (Ref p)) w (exclusive_done "secmem.SecureBuffer.Unseal" w p st c wd (unseal_done w p st c)).
Proof.
  intros W B Hroom. unfold Unseal. eapply returns_exclusive_done; [done|done|]. intros n m Hd -> L I.
  unfold unseal_done. destruct (bs_sealed st) eqn:Es; cbn [negb].
  2:{ unfold unsealLocked. rewrite Es. apply wp_ret. split; [apply lookup_insert_eq|].
      split; [done|]. apply locked_unlocked, B. }
  destruct (live_kept _ _ _ _ _ _ B L) as [Hn Ho].
  eapply wp_returns; [by apply (wp_unsealLocked _ p st m c)|].
  intros e w' (st' & m' & c' & I' & (K1 & K2 & K3 & K4) & Hp & He). split; [by eapply (inside_locked (LockState 0 true))|].
  destruct (inside_leave (LockState 0 true) w p st c 2 w' st' n m' c') as [D L']; [done|done|done|congruence|done|congruence| |].
  { intros Hs. destruct e as [e|]; [congruence|]. destruct He as (_ & ? & ? & _). split; [done|by apply rest_exact]. }
  exists st', m', c'. split; [done|]. split; [done|]. split; [done|]. split; [done|].
  destruct e as [e|]; [done|]. destruct He as (? & ? & ? & Hv). split_and!; rewrite <- ?restProtection_mode; try done.
  intros Ht Hu. eapply seal_valid_relock. by apply Hv.
Qed.

(** C15. [Unseal], in every state: on a sealed buffer it either fails and the
    buffer stays sealed over the same secret, or the secret is back in the
    clear under exactly the protection of the buffer's mode (no access for a
    closed-at-rest buffer, read-only for a read-only one, read-write otherwise),
    and, had the buffer a tag, it was the tag of the bytes found at rest. *)
Theorem unseal_exact w p st c wd :
  world_ok w -> buf_ok w p st c wd -> key_room w 2 ->
  returns (Unseal (Ref p)) w (exclusive_done "secmem.SecureBuffer.Unseal" w p st c wd (unseal_done w p st c)).
Proof. apply returns_Unseal. Qed.

(** C16. [Seal] then [Unseal]: if both succeed, every byte of the region is
    what it was, and the buffer is open again in the mode it had, its pages
    under exactly that mode's protection: no access for a closed-at-rest
    buffer, read-only for a read-only one, read-write otherwise. *)
Theorem seal_roundtrip w p st n m :
  world_ok w -> buf_ok w p st false false -> key_room w 3 ->
  bs_data st = Some n -> bs_sealed st = false -> live w p st n m false false ->
  returns (e1 ← Seal (Ref p); e2 ← Unseal (Ref p); mret (e1, e2)) w (fun r w' => r = (None, None) ->
    exists st' m', live w' p st' n m' false false /\ mp_bytes m' = mp_bytes m /\ mp_prot m' = modeProtection st /\ kept st st' /\
      bs_closedAtRest st' = bs_closedAtRest st /\ bs_sealed st' = false /\ world_ok w' /\ buf_ok w' p st' false false).
Proof.
  intros W B Hroom Hd Hs L. apply wp_bind. eapply wp_returns; [apply returns_Seal; [done|done|unfold key_room in *; lia]|].
  intros e1 w1 Hp. unfold exclusive_done, seal_done in Hp. rewrite Hd, Hs in Hp.
  destruct Hp as (m0 & L0 & st1 & m1 & c1 & [D1 D2 D3 D4 D5 _] & L1 & (K1 & K2 & K3 & K4) & P1 & E1).
  apply wp_bind. eapply wp_returns; [apply returns_Unseal; [exact D1|exact D2|unfold key_room in *; lia]|].
  intros e2 w2 Hp. apply wp_ret. intros [= -> ->]. destruct E1 as (S1 & _).
  unfold exclusive_done, unseal_done in Hp. rewrite K1, Hd, S1 in Hp.
  destruct Hp as (m1' & L1' & st2 & m2 & c2 & [G1 G2 G3 G4 G5 _] & L2 & (M1 & M2 & M3 & M4) & P2 & (U1 & -> & U3 & _)).
  assert (m1' = m1) as -> by (destruct (bc_map _ _ _ _ (lv_core _ _ _ _ _ _ _ L1)), (bc_map _ _ _ _ (lv_core _ _ _ _ _ _ _ L1')); congruence).
  assert (m0 = m) as -> by (destruct (bc_map _ _ _ _ (lv_core _ _ _ _ _ _ _ L)), (bc_map _ _ _ _ (lv_core _ _ _ _ _ _ _ L0)); congruence).
  assert (modeProtection st2 = modeProtection st) as Er
    by (unfold modeProtection; by rewrite (si_closed _ _ G5), (si_closed _ _ D5), M2, K2).
  exists st2, m2. split; [done|]. split; [cbn in P2; congruence|]. split; [congruence|].
  unfold kept in *. destruct D5, G5. split_and!; congruence || done.
Qed.

(** C17. Tampering: let the stored tag be the one computed over bytes [b]
    under the prekey in force. If the region holds anything else when [Unseal]
    is called, it succeeds only on inputs that collide under SHA-512 or under
    the truncated HMAC. *)
Theorem unseal_detects_tampering w p st c n m mk b :
  world_ok w -> buf_ok w p st c false -> key_room w 2 -> bs_data st = Some n -> live w p st n m c false ->
  bs_sealed st = true -> bs_sealTagged st = true -> usable w -> mapped w (sk_region (w_keys w)) mk ->
  0 <= bs_janitorKey st < 2 ^ 64 -> zlen b < 2 ^ 64 -> zlen (mp_bytes m) < 2 ^ 64 ->
  bs_sealTag st = sealComputeTag (mp_bytes mk) (bs_janitorKey st) (bs_sealNonce st) b ->
  returns (Unseal (Ref p)) w (fun e w' => e = None ->
    mp_bytes m = b \/
    collision (mp_bytes mk) (bs_janitorKey st) (bs_janitorKey st) (bs_sealNonce st) (bs_sealNonce st) b (mp_bytes m)).
Proof.
  intros W B Hroom Hd L Hs Ht Hu Hmk Hk Hb Hm Etag. eapply wp_returns; [by apply returns_Unseal|].
  intros e w' Hp ->. unfold exclusive_done, unseal_done in Hp. rewrite Hd, Hs in Hp.
  destruct Hp as (m1 & L1 & st2 & m2 & c2 & _ & _ & _ & _ & (_ & _ & _ & Hv)).
  assert (m1 = m) as -> by (destruct (bc_map _ _ _ _ (lv_core _ _ _ _ _ _ _ L)), (bc_map _ _ _ _ (lv_core _ _ _ _ _ _ _ L1)); congruence).
  destruct (Hv Ht Hu) as (_ & _ & mk' & Hmk' & E). assert (mk' = mk) as -> by (destruct Hmk, Hmk'; congruence).
  rewrite Etag in E. pose proof (bo_nonce _ _ _ _ _ B) as Hn.
  destruct (tag_binds _ _ _ _ _ _ _ Hk Hk Hb Hm Hn Hn E) as [(_ & _ & ->)|]; [by left|by right].
Qed.

(** ** Modes and length *)

(** [ReadOnly] and [ReadWrite], in every state: refused when destroyed,
    wiped or sealed; otherwise the mode is the one asked for, with the pages
    following it unless they are closed at rest, or an error and the buffer as
    it was. Its bytes never change. *)
Theorem mode_exact (b : bool) w p st c wd :
  world_ok w -> buf_ok w p st c wd ->
  let name := (if b then "secmem.SecureBuffer.ReadOnly" else "secmem.SecureBuffer.ReadWrite")%string in
  returns (if b then ReadOnly (Ref p) else ReadWrite (Ref p)) w
    (exclusive_done name w p st c wd (mode_done w p st b name)).
Proof.
  intros W B. destruct b; [apply (returns_mode true "secmem.SecureBuffer.ReadOnly")|
    apply (returns_mode false "secmem.SecureBuffer.ReadWrite")]; done.
Qed.

(** [Truncate], in every state: refused when destroyed, wiped, sealed,
    read-only or out of range; otherwise the bytes that leave the buffer are
    zeroed and the others, canary included, kept. Only a closed-at-rest buffer
    can fail, and then its length stays. *)
Theorem truncate_exact w p st c wd k :
  world_ok w -> buf_ok w p st c wd ->
  returns (Truncate (Ref p) k) w
    (exclusive_done "secmem.SecureBuffer.Truncate" w p st c wd (truncate_done w p st k)).
Proof. apply returns_Truncate. Qed.

(** ** The end of a buffer *)

(** C20. [Destroy], in every state: a second call is a no-op; otherwise the
    region is out of the registry, no access to it succeeds unless an error is
    returned, damage to the canary of a buffer in the clear is reported, and
    nothing but this buffer and the prekey was touched. *)
Theorem destroy_exact w p st c wd :
  world_ok w -> buf_ok w p st c wd -> key_room w 1 ->
  returns (Destroy (Ref p)) w (fun e w' =>
    match bs_data st with None => e = None /\ w' = w | Some _ => gone w p st wd e w' end).
Proof. apply returns_Destroy. Qed.

(** A destroyed buffer is inert: every operation refuses it with
    [ErrDestroyed], changes nothing and never faults. *)
Theorem destroyed_refuses w p st c wd dst off i v k src fn :
  world_ok w -> buf_ok w p st c wd -> key_room w 1 -> bs_data st = None ->
  Seal (Ref p) w = Ret (Some (errorf "secmem.SecureBuffer.Seal" (Sent ErrDestroyed))) w /\
  Unseal (Ref p) w = Ret (Some (errorf "secmem.SecureBuffer.Unseal" (Sent ErrDestroyed))) w /\
  ReadOnly (Ref p) w = Ret (Some (errorf "secmem.SecureBuffer.ReadOnly" (Sent ErrDestroyed))) w /\
  ReadWrite (Ref p) w = Ret (Some (errorf "secmem.SecureBuffer.ReadWrite" (Sent ErrDestroyed))) w /\
  Truncate (Ref p) k w = Ret (Some (errorf "secmem.SecureBuffer.Truncate" (Sent ErrDestroyed))) w /\
  CopyOut (Ref p) dst off w = Ret (0, Some (Sent ErrDestroyed), dst) w /\
  CopyIn (Ref p) src off w = Ret (0, Some (Sent ErrDestroyed)) w /\
  ByteAt (Ref p) i w = Ret (0, Some (Sent ErrDestroyed)) w /\
  SetByteAt (Ref p) i v w = Ret (Some (Sent ErrDestroyed)) w /\
  WithBytesErr (Ref p) (Some fn) w = Ret (Some (Sent ErrDestroyed)) w /\
  Destroy (Ref p) w = Ret None w.
Proof.
  intros W B Hroom Hd. assert (refusal st wd = Some ErrDestroyed) as Hr by (unfold refusal; by rewrite Hd).
  assert (mut_refusal st wd = Some ErrDestroyed) as Hm by (unfold mut_refusal; by rewrite Hr).
  assert (forall A (m : GM A) (none : gerr -> A) P, returns m w (accessed (Some ErrDestroyed) none w p st P) ->
    m w = Ret (none (Sent ErrDestroyed)) w) as Hacc by (intros A m none P (a & w' & E & -> & ->)%returns_run; done).
  assert (forall name body, exclusive name (Ref p) body w = Ret (Some (errorf name (Sent ErrDestroyed))) w) as Hex.
  { intros name body. assert (returns (exclusive name (Ref p) body) w (fun e w' => e = Some (errorf name (Sent ErrDestroyed)) /\ w' = w))
      as (e & w' & E & -> & ->)%returns_run; [|done].
    eapply returns_exclusive; [done|done|done|congruence|congruence]. }
  split_and!; try apply Hex.
  - eapply (Hacc _ _ (fun e => (0, Some e, dst))). rewrite <- Hr. by eapply returns_CopyOut.
  - eapply (Hacc _ _ (fun e => (0, Some e))). rewrite <- Hm. by eapply returns_CopyIn.
  - eapply (Hacc _ _ (fun e => (0, Some e))). rewrite <- Hr. by eapply returns_ByteAt.
  - eapply (Hacc _ _ Some). rewrite <- Hm. by eapply returns_SetByteAt.
  - apply (Hacc _ _ Some (fun _ _ _ _ => True)). rewrite <- Hr. unfold WithBytesErr. eapply returns_shared; [done|done|].
    intros n m Rd. pose proof (rd_data _ _ _ _ _ _ Rd). congruence.
  - destruct (returns_run _ _ _ (returns_Destroy p st c wd w W B Hroom)) as (e & w' & E & He).
    rewrite Hd in He. by destruct He as [-> ->].
Qed.

(** ** Access *)

(** The reading accessors, in every state of the buffer: [CopyOut],
    [ByteAt], [ConstantTimeEqual] and [ExposeString] refuse a destroyed, wiped
    or sealed buffer, an index out of range is an error, and otherwise the
    answer is the one of the buffer's bytes, which stay. A closed-at-rest
    buffer may also fail to open its pages or to shut them. *)
Theorem reads_exact w p st c wd dst off i other :
  world_ok w -> buf_ok w p st c wd ->
  returns (CopyOut (Ref p) dst off) w
    (accessed (refusal st wd) (fun e => (0, Some e, dst)) w p st (fun n b r w' =>
       if (off <? 0) || (n <=? off)
       then r = (0, Some (Msg "secmem.SecureBuffer.CopyOut: srcOffset out of range"), dst) /\ w' = w
       else let k := Z.min (zlen dst) (n - off) in
         read_done w p st n b (0, dst) (k, lset 0 (lsub off (off + k) b) dst) (r.1.1, r.2, r.1.2) w')) /\
  returns (ByteAt (Ref p) i) w
    (accessed (refusal st wd) (fun e => (0, Some e)) w p st (fun n b r w' =>
       if (i <? 0) || (n <=? i)
       then r = (0, Some (Msg "secmem.SecureBuffer.ByteAt: index out of range")) /\ w' = w
       else read_done w p st n b 0 (b !!! Z.to_nat i) r w')) /\
  returns (ConstantTimeEqual (Ref p) other) w
    (accessed (refusal st wd) (fun e => (false, Some e)) w p st (fun n b r w' =>
       if negb (n =? zlen other) then r = (false, None) /\ w' = w
       else read_done w p st n b false (bool_decide (lsub 0 n b = other)) r w')) /\
  returns (ExposeString (Ref p)) w
    (accessed (refusal st wd) inl w p st (fun n b r w' =>
       settled w p st n b w' /\ (r = inr (lsub 0 n b) \/ bs_closedAtRest st = true /\ exists e, r = inl e) /\
       (bs_closedAtRest st = false -> w' = w))).
Proof.
  intros W B. split_and!; [by eapply returns_CopyOut|by eapply returns_ByteAt|by eapply returns_ConstantTimeEqual|
    by eapply returns_ExposeString].
Qed.

(** C23. The writing accessors, in every state: [CopyIn] and [SetByteAt]
    refuse a destroyed, wiped, sealed or read-only buffer, in that order, and an
    index out of range; otherwise exactly the bytes asked for change and the
    count is theirs, or the pages would not open and nothing changed. *)
Theorem writes_exact w p st c wd src off i v :
  world_ok w -> buf_ok w p st c wd ->
  returns (CopyIn (Ref p) src off) w
    (accessed (mut_refusal st wd) (fun e => (0, Some e)) w p st (fun n b r w' =>
       if (off <? 0) || (n <=? off)
       then r = (0, Some (Msg "secmem.SecureBuffer.CopyIn: dstOffset out of range")) /\ w' = w
       else let k := Z.min (zlen src) (n - off) in
         write_done w p st n b (lset off (take (Z.to_nat k) src) b) k r w')) /\
  returns (SetByteAt (Ref p) i v) w
    (accessed (mut_refusal st wd) Some w p st (fun n b e w' =>
       if (i <? 0) || (n <=? i)
       then e = Some (Msg "secmem.SecureBuffer.SetByteAt: index out of range") /\ w' = w
       else (settled w p st n (<[Z.to_nat i := v]> b) w' /\ (bs_closedAtRest st = false -> e = None)) \/
            bs_closedAtRest st = true /\ e <> None /\ settled w p st n b w')).
Proof. intros W B. split; [by eapply returns_CopyIn|by eapply returns_SetByteAt]. Qed.

(** C24. Borrowing, in every state: refused, changing nothing, when destroyed,
    wiped or sealed; otherwise [WithBytesErr] runs the callback on the buffer's
    bytes with the pages open, hands on its error (or, if it had none, that of
    shutting the pages), and on a panic as on a return ends the borrow: the lock
    is free, the buffer is usable and holds what the callback left, and the
    pages of a closed-at-rest buffer are inaccessible again, unless the kernel
    refused that very call, the last one made, whose error then says so; the
    pages of any other buffer stay as they were. Closed-at-rest pages that do
    not open keep the callback from running: the error is the refused call's,
    and they stay shut or are shut again unless that is refused as well. *)
Theorem borrow_exact w p st c wd fn P R :
  world_ok w -> buf_ok w p st c wd ->
  (forall n b, holds w p st n b -> slice_callback fn st n b (P b) (R b)) ->
  wp (WithBytesErr (Ref p) (Some fn))
    (accessed (refusal st wd) Some w p st (fun n b e w' => borrow_ended w p st n b (P b) e w'))
    (fun w' => exists n b b' ce, holds w p st n b /\ R b b' /\ settled w p st n b' w' /\ shut w st ce w') w.
Proof. apply wp_WithBytesErr_at. Qed.

(** ** Construction *)

End contract.

(** ** A concrete buffer *)

#[local] Existing Instance windows_kernel.
#[local] Existing Instance windows_kernel_ok.

Definition sample_start : world := start_world (MkQuarantineLimits 4 1000).
Definition sample_bytes : list Z := [1; 2; 3; 4; 5].

Lemma sample_start_ok : world_ok sample_start.
Proof.
  assert (forall k, lookup_any sample_start k = None) as Hn by (intros k; unfold lookup_any; cbn; by rewrite !lookup_empty).
  assert (forall (A : Type) (i : Z) (P : Prop), is_Some ((∅ : gmap Z A) !! i) -> P) as He.
  { intros A i P [x Hx]. by rewrite lookup_empty in Hx. }
  split.
  - intros b m Hb. cbn in Hb. by rewrite lookup_empty in Hb.
  - constructor; cbn; try done; try lia; constructor.
  - constructor.
    + apply map_disjoint_empty_r.
    + intros k jr Hk. by rewrite Hn in Hk.
    + intros k jr Hk. by rewrite Hn in Hk.
    + intros k jr Hk. cbn in Hk. by rewrite lookup_empty in Hk.
    + intros k1 k2 jr1 jr2 Hk. by rewrite Hn in Hk.
  - by left.
  - intros f. apply He.
  - intros f. apply He.
  - intros f. apply He.
  - intros f. apply He.
  - done.
  - done.
Qed.

(** The process after [NewBuffer] of five bytes. *)
Definition sample_new (opts : list (option Option)) : world :=
  match NewBuffer sample_bytes opts sample_start with Ret _ w | Panic w => w | _ => sample_start end.
Definition sample_st (w : world) : bufferState := default
  (BufferState None secRegion_nil 0 0 false false 0 0 (AllocInfo false false false false false false false false false) false false 0 [] [] false 0)
  (w_bufs w !! 4).

Lemma sample_made opts :
  NewBuffer sample_bytes opts sample_start = Ret (inr (Ref 4), zeros 5) (sample_new opts) ->
  world_ok (sample_new opts) /\ buf_ok (sample_new opts) 4 (sample_st (sample_new opts)) false false /\
  key_room (sample_new opts) 10.
Proof.
  intros E. assert (key_room sample_start 3) as Hroom by done.
  pose proof (returns_ret _ _ _ _ _ (wp_NewBuffer sample_bytes opts sample_start sample_start_ok Hroom ltac:(done)) E) as H.
  cbn [fst snd] in H. destruct H as (_ & W & _ & Hk & p & st & bytes & cl & [= <-] & Mk & _).
  pose proof (mk_buf _ _ _ _ _ _ _ _ _ Mk) as B. split; [done|]. split; [|unfold key_room; cbn in *; lia].
  unfold sample_st. by rewrite (bo_st _ _ _ _ _ B).
Qed.

(** After a successful [Seal], and after [Destroy]. *)
Definition run {A} (m : GM A) (w : world) : world := match m w with Ret _ w' | Panic w' => w' | _ => w end.
Definition sample_open : world := sample_new [].
Definition sample_sealed : world := run (Seal (Ref 4)) sample_open.
Definition sample_destroyed : world := run (Destroy (Ref 4)) sample_open.

Lemma sample_open_ok :
  world_ok sample_open /\ buf_ok sample_open 4 (sample_st sample_open) false false /\ key_room sample_open 10.
Proof. apply sample_made. vm_compute. reflexivity. Qed.

Lemma sample_live w c : buf_ok w 4 (sample_st w) c false -> bs_data (sample_st w) = Some 5 ->
  exists m, live w 4 (sample_st w) 5 m c false.
Proof. intros B Hd. by apply (bo_live _ _ _ _ _ B). Qed.

Lemma sample_sealed_ok :
  world_ok sample_sealed /\ buf_ok sample_sealed 4 (sample_st sample_sealed) true false /\ key_room sample_sealed 5 /\
  exists m, live sample_sealed 4 (sample_st sample_sealed) 5 m true false /\ seal_valid sample_sealed (sample_st sample_sealed) m.
Proof.
  destruct sample_open_ok as (W & B & Hr).
  assert (key_room sample_open 1) as Hr1 by (unfold key_room in *; lia).
  assert (Seal (Ref 4) sample_open = Ret None sample_sealed) as E by (vm_compute; reflexivity).
  pose proof (returns_ret _ _ _ _ _ (returns_Seal sample_open 4 _ false false W B Hr1) E) as H.
  assert (bs_data (sample_st sample_open) = Some 5 /\ bs_sealed (sample_st sample_open) = false /\
    bs_sealAuth (sample_st sample_open) = true) as (Hd & Hs & Ha) by (split_and?; vm_compute; reflexivity).
  unfold exclusive_done, seal_done in H. rewrite Hd, Hs in H.
  destruct H as (m & L & st' & m' & c' & [D1 D2 D3 D4 _ _] & L' & _ & _ & (_ & _ & -> & Hv)).
  change (bool_decide (k_os = Windows)) with true in *.
  assert (sample_st sample_sealed = st') as -> by (unfold sample_st; by rewrite (bo_st _ _ _ _ _ D2)).
  split; [done|]. split; [done|]. split; [unfold key_room in *; lia|]. exists m'. split; [done|]. by apply Hv.
Qed.

Lemma sample_destroyed_ok :
  world_ok sample_destroyed /\ exists c, buf_ok sample_destroyed 4 (sample_st sample_destroyed) c false /\
  key_room sample_destroyed 1 /\ bs_data (sample_st sample_destroyed) = None.
Proof.
  destruct sample_open_ok as (W & B & Hr).
  assert (key_room sample_open 1) as Hr1 by (unfold key_room in *; lia).
  assert (Destroy (Ref 4) sample_open = Ret None sample_destroyed) as E by (vm_compute; reflexivity).
  pose proof (returns_ret _ _ _ _ _ (returns_Destroy 4 _ false false sample_open W B Hr1) E) as H.
  assert (bs_data (sample_st sample_open) = Some 5) as Hd by (split_and?; vm_compute; reflexivity). cbv beta in H. rewrite Hd in H.
  destruct H as [G1 (st' & c' & G2 & G3) _ _ _ _ G7 _].
  assert (sample_st sample_destroyed = st') as -> by (unfold sample_st; by rewrite (bo_st _ _ _ _ _ G2)).
  split; [done|]. exists c'. split; [done|]. split; [unfold key_room in *; lia|done].
Qed.

(** The region's bytes and protection. *)
Definition sample_mem (w : world) : option (list Z * Z) := (fun m => (mp_bytes m, mp_prot m)) <$> w_mem w !! 64.
Definition sample_region : list Z := sample_bytes ++ replicate 27 5.

Lemma seal_exact_witness :
  returns (Seal (Ref 4)) sample_open (exclusive_done "secmem.SecureBuffer.Seal" sample_open 4 (sample_st sample_open) false false
    (seal_done sample_open 4 (sample_st sample_open))) /\
  Seal (Ref 4) sample_open = Ret None sample_sealed /\
  sample_mem sample_sealed = Some ((fun x => 255 - x) <$> sample_region, PROT_NONE).
Proof.
  destruct sample_open_ok as (W & B & Hr). split.
  - apply seal_exact; [done|done|unfold key_room in *; lia].
  - split; vm_compute; reflexivity.
Defined.

Lemma unseal_exact_witness :
  returns (Unseal (Ref 4)) sample_sealed (exclusive_done "secmem.SecureBuffer.Unseal" sample_sealed 4 (sample_st sample_sealed) true false
    (unseal_done sample_sealed 4 (sample_st sample_sealed) true)) /\
  Unseal (Ref 4) sample_sealed = Ret None (run (Unseal (Ref 4)) sample_sealed) /\
  sample_mem (run (Unseal (Ref 4)) sample_sealed) = Some (sample_region, PROT_RW).
Proof.
  destruct sample_sealed_ok as (W & B & Hr & _). split.
  - apply unseal_exact; [done|done|unfold key_room in *; lia].
  - split; vm_compute; reflexivity.
Defined.

Lemma seal_roundtrip_witness :
  exists m, returns (e1 ← Seal (Ref 4); e2 ← Unseal (Ref 4); mret (e1, e2)) sample_open (fun r w' => r = (None, None) ->
    exists st' m', live w' 4 st' 5 m' false false /\ mp_bytes m' = mp_bytes m /\ mp_prot m' = modeProtection (sample_st sample_open) /\ kept (sample_st sample_open) st' /\
      bs_closedAtRest st' = bs_closedAtRest (sample_st sample_open) /\ bs_sealed st' = false /\ world_ok w' /\ buf_ok w' 4 st' false false) /\
  (e1 ← Seal (Ref 4); e2 ← Unseal (Ref 4); mret (e1, e2)) sample_open =
    Ret (None, None) (run (Unseal (Ref 4)) sample_sealed).
Proof.
  destruct sample_open_ok as (W & B & Hr).
  destruct (sample_live sample_open false B ltac:(vm_compute; reflexivity)) as (m & L). exists m. split.
  - apply (seal_roundtrip sample_open 4 (sample_st sample_open) 5 m); [done|done|unfold key_room in *; lia|by vm_compute|by vm_compute|done].
  - vm_compute. reflexivity.
Defined.

(** One flipped bit of the bytes at rest. *)
Definition tampered (w : world) : world :=
  set_mem (alter (fun m => with_bytes (alter (Z.lxor 1) 2%nat (mp_bytes m)) m) 64) w.

Lemma unseal_detects_tampering_witness :
  exists m mk, returns (Unseal (Ref 4)) sample_sealed (fun e w' => e = None ->
    mp_bytes m = mp_bytes m \/
    collision (mp_bytes mk) 1 1 (bs_sealNonce (sample_st sample_sealed)) (bs_sealNonce (sample_st sample_sealed)) (mp_bytes m) (mp_bytes m)) /\
  match Unseal (Ref 4) (tampered sample_sealed) with Ret e _ => is_err e ErrIntegrity = true | _ => False end.
Proof.
  destruct sample_sealed_ok as (W & B & Hr & m & L & (Hu & _ & mk & Hmk & Ht)). exists m, mk. split.
  - assert (zlen (mp_bytes m) < 2 ^ 64) as Hz.
    { rewrite (md_len _ _ _ (bc_map _ _ _ _ (lv_core _ _ _ _ _ _ _ L))). by vm_compute. }
    apply (unseal_detects_tampering sample_sealed 4 (sample_st sample_sealed) true 5 m mk (mp_bytes m));
      [exact W|exact B|unfold key_room in *; lia|vm_compute; reflexivity|exact L|vm_compute; reflexivity|vm_compute; reflexivity
      |exact Hu|exact Hmk|vm_compute; split; [discriminate|reflexivity]|exact Hz|exact Hz|exact Ht].
  - vm_compute. reflexivity.
Defined.

Lemma mode_exact_witness :
  returns (ReadOnly (Ref 4)) sample_open (exclusive_done "secmem.SecureBuffer.ReadOnly" sample_open 4 (sample_st sample_open) false false
    (mode_done sample_open 4 (sample_st sample_open) true "secmem.SecureBuffer.ReadOnly")) /\
  ReadOnly (Ref 4) sample_open = Ret None (run (ReadOnly (Ref 4)) sample_open) /\
  sample_mem (run (ReadOnly (Ref 4)) sample_open) = Some (sample_region, PROT_READ).
Proof.
  destruct sample_open_ok as (W & B & Hr). split.
  - exact (mode_exact true sample_open 4 (sample_st sample_open) false false W B).
  - split; vm_compute; reflexivity.
Defined.

Lemma truncate_exact_witness :
  returns (Truncate (Ref 4) 2) sample_open (exclusive_done "secmem.SecureBuffer.Truncate" sample_open 4 (sample_st sample_open) false false
    (truncate_done sample_open 4 (sample_st sample_open) 2)) /\
  Truncate (Ref 4) 2 sample_open = Ret None (run (Truncate (Ref 4) 2) sample_open) /\
  sample_mem (run (Truncate (Ref 4) 2) sample_open) = Some ([1; 2; 0; 0; 0] ++ replicate 27 5, PROT_RW).
Proof.
  destruct sample_open_ok as (W & B & Hr). split.
  - exact (truncate_exact sample_open 4 (sample_st sample_open) false false 2 W B).
  - split; vm_compute; reflexivity.
Defined.

Lemma destroy_exact_witness :
  returns (Destroy (Ref 4)) sample_open (fun e w' =>
    match bs_data (sample_st sample_open) with
    | None => e = None /\ w' = sample_open
    | Some _ => gone sample_open 4 (sample_st sample_open) false e w'
    end) /\
  Destroy (Ref 4) sample_open = Ret None sample_destroyed /\ sample_mem sample_destroyed = Some ([], PROT_NONE).
Proof.
  destruct sample_open_ok as (W & B & Hr). split.
  - apply (destroy_exact sample_open 4 (sample_st sample_open) false false); [exact W|exact B|unfold key_room in *; lia].
  - split; vm_compute; reflexivity.
Defined.

Lemma destroyed_refuses_witness :
  Seal (Ref 4) sample_destroyed = Ret (Some (errorf "secmem.SecureBuffer.Seal" (Sent ErrDestroyed))) sample_destroyed.
Proof.
  destruct sample_destroyed_ok as (W & c & B & Hr & Hd).
  exact (proj1 (destroyed_refuses sample_destroyed 4 (sample_st sample_destroyed) c false [] 0 0 0 0 [] (fun _ _ => mret None) W B Hr Hd)).
Defined.

Lemma reads_exact_witness :
  returns (ByteAt (Ref 4) 3) sample_open
    (accessed (refusal (sample_st sample_open) false) (fun e => (0, Some e)) sample_open 4 (sample_st sample_open) (fun n b r w' =>
       if (3 <? 0) || (n <=? 3)
       then r = (0, Some (Msg "secmem.SecureBuffer.ByteAt: index out of range")) /\ w' = sample_open
       else read_done sample_open 4 (sample_st sample_open) n b 0 (b !!! Z.to_nat 3) r w')) /\
  ByteAt (Ref 4) 3 sample_open = Ret (4, None) sample_open /\
  CopyOut (Ref 4) [0; 0; 0] 3 sample_open = Ret (2, None, [4; 5; 0]) sample_open /\
  ExposeString (Ref 4) sample_open = Ret (inr sample_bytes) sample_open.
Proof.
  destruct sample_open_ok as (W & B & Hr). split.
  - exact (proj1 (proj2 (reads_exact sample_open 4 (sample_st sample_open) false false [] 0 3 [] W B))).
  - split_and!; vm_compute; reflexivity.
Defined.

Lemma writes_exact_witness :
  returns (CopyIn (Ref 4) [7; 8; 9] 3) sample_open
    (accessed (mut_refusal (sample_st sample_open) false) (fun e => (0, Some e)) sample_open 4 (sample_st sample_open) (fun n b r w' =>
       if (3 <? 0) || (n <=? 3)
       then r = (0, Some (Msg "secmem.SecureBuffer.CopyIn: dstOffset out of range")) /\ w' = sample_open
       else let k := Z.min (zlen [7; 8; 9]) (n - 3) in
         write_done sample_open 4 (sample_st sample_open) n b (lset 3 (take (Z.to_nat k) [7; 8; 9]) b) k r w')) /\
  CopyIn (Ref 4) [7; 8; 9] 3 sample_open = Ret (2, None) (run (CopyIn (Ref 4) [7; 8; 9] 3) sample_open) /\
  sample_mem (run (CopyIn (Ref 4) [7; 8; 9] 3) sample_open) = Some ([1; 2; 3; 7; 8] ++ replicate 27 5, PROT_RW).
Proof.
  destruct sample_open_ok as (W & B & Hr). split.
  - exact (proj1 (writes_exact sample_open 4 (sample_st sample_open) false false [7; 8; 9] 3 0 0 W B)).
  - split; vm_compute; reflexivity.
Defined.

(** A callback that clears the slice and panics. *)
Definition sample_callback : callback (option gerr) := fun r _ =>
  b ← mem_load (rg_base r); mem_store (rg_base r) (zeros (zlen b));; panic.

Lemma borrow_exact_witness :
  wp (WithBytesErr (Ref 4) (Some sample_callback))
    (accessed (refusal (sample_st sample_open) false) Some sample_open 4 (sample_st sample_open) (fun n b e w' =>
       borrow_ended sample_open 4 (sample_st sample_open) n b (fun _ _ => False) e w'))
    (fun w' => exists n b b' ce, holds sample_open 4 (sample_st sample_open) n b /\ all_zero b' /\
       settled sample_open 4 (sample_st sample_open) n b' w' /\ shut sample_open (sample_st sample_open) ce w') sample_open.
Proof.
  destruct sample_open_ok as (W & B & _).
  apply (borrow_exact sample_open 4 (sample_st sample_open) false false sample_callback (fun _ _ _ => False) (fun _ b' => all_zero b') W B).
  intros n b _ w m Hm [Hrd Hwr] Hb. unfold sample_callback. apply wp_bind. eapply wp_mem_load; [apply Hm|done|].
  apply wp_bind. eapply wp_mem_store; [apply Hm|apply Hwr; vm_compute; reflexivity|].
  exists (zeros (zlen (mp_bytes m))). split; [|apply all_zero_zeros]. rewrite Hb. split; [apply zlen_zeros; unfold zlen; lia|done].
Defined.

