(* ===== verification/BufferIsolation.v ===== *)
(** * Buffers do not interfere

    Two secure buffers of one process share the registry, the quarantine, the
    prekey and the address space. Whatever is called on one of them, in any
    sequence and under any pattern of failing system calls, the other one keeps
    its state, its pages and its invariant. *)
From S2P Require Import Prelude Errors Canary World Memory Frame Sample Quarantine Janitor Process SealAuth SecureBuffer BufferAccess BufferSpec BufferOps BufferBorrow BufferReads BufferWrites BufferDestroy BufferNew BufferTheorems.

(** ** Calls that change a buffer *)

Inductive call : Type :=
  | CallSeal
  | CallUnseal
  | CallReadOnly
  | CallReadWrite
  | CallTruncate (n : Z)
  | CallCopyIn (src : list Z) (dstOffset : Z)
  | CallSetByteAt (i v : Z)
  | CallDestroy.

Section isolation.
Context `{K : Kernel} {KOk : KernelOk}.
Implicit Types (w : world) (st t : bufferState) (m : mapping).

Definition perform (p : Z) (a : call) : GM unit :=
  match a with
  | CallSeal => Seal (Ref p);; mret tt
  | CallUnseal => Unseal (Ref p);; mret tt
  | CallReadOnly => ReadOnly (Ref p);; mret tt
  | CallReadWrite => ReadWrite (Ref p);; mret tt
  | CallTruncate n => Truncate (Ref p) n;; mret tt
  | CallCopyIn src off => CopyIn (Ref p) src off;; mret tt
  | CallSetByteAt i v => SetByteAt (Ref p) i v;; mret tt
  | CallDestroy => Destroy (Ref p);; mret tt
  end.

Fixpoint performs (p : Z) (l : list call) : GM unit :=
  match l with
  | [] => mret tt
  | a :: l => perform p a;; performs p l
  end.

(** ** What a call moves *)

Record moved w (p : Z) st w' st' c' : Prop := Moved {
  mv_live : bs_data st <> None;
  mv_ok : world_ok w';
  mv_buf : buf_ok w' p st' c' false;
  mv_frame : frame (destroy_fp w p st) w w';
  mv_keys : jn_nextKey (w_jan w') <= jn_nextKey (w_jan w) + 2;
  mv_key : bs_data st' <> None -> bs_janitorKey st' = bs_janitorKey st
}.
Definition step_done w p st w' : Prop := w' = w \/ exists st' c', moved w p st w' st' c'.

Lemma done_op w p st n k w' st' c' :
  bs_data st = Some n -> op_done w p st k w' st' c' false -> k <= 2 -> step_done w p st w'.
Proof.
  intros Hd [O1 O2 O3 O4 O5 O6] Hk. right. exists st', c'. constructor; try done; [congruence| |lia|by intros _; apply O5].
  eapply frame_mono; [apply fp_sub_union_l|exact O3].
Qed.

Lemma done_settled w p st st' n k b w' :
  bs_data st = Some n -> settled_as w p st st' k b w' -> step_done w p st w'.
Proof. intros Hd (m & D & _). eapply done_op; [exact Hd|exact D|lia]. Qed.

Lemma done_exclusive name w p st c P e w' :
  exclusive_done name w p st c false P e w' ->
  (forall n m, bs_data st = Some n -> live w p st n m c false -> P n m e w' -> step_done w p st w') -> step_done w p st w'.
Proof.
  unfold exclusive_done. intros H HP. destruct (bs_data st) as [n|]; [|left; apply H]. destruct H as (m & L & H). by eapply HP.
Qed.

Lemma done_accessed {A} r none w p st (P : Z -> list Z -> A -> world -> Prop) a w' :
  accessed r none w p st P a w' ->
  (forall n b, bs_data st = Some n -> holds w p st n b -> P n b a w' -> step_done w p st w') -> step_done w p st w'.
Proof.
  unfold accessed. intros H HP. destruct r; [left; apply H|]. destruct H as (n & b & Hh & H). eapply HP; [apply Hh|done|done].
Qed.

Lemma returns_perform p st c a w :
  world_ok w -> buf_ok w p st c false -> key_room w 2 ->
  returns (perform p a) w (fun _ w' => step_done w p st w').
Proof.
  intros W B Hroom. assert (key_room w 1) as Hroom1 by (unfold key_room in *; lia).
  unfold returns, perform. destruct a; apply wp_bind.
  - eapply wp_returns; [by eapply returns_Seal|]. intros e w' H. apply wp_ret. eapply done_exclusive; [exact H|].
    intros n0 m0 Hd _. unfold seal_done. destruct (bs_sealed st); [intros [_ ->]; by left|]. intros (st' & m' & c' & D & _).
    eapply done_op; [exact Hd|exact D|lia].
  - eapply wp_returns; [by eapply returns_Unseal|]. intros e w' H. apply wp_ret. eapply done_exclusive; [exact H|].
    intros n0 m0 Hd _. unfold unseal_done. destruct (negb _); [intros [_ ->]; by left|]. intros (st' & m' & c' & D & _).
    eapply done_op; [exact Hd|exact D|lia].
  - eapply wp_returns; [by eapply (mode_exact true)|]. intros e w' H. apply wp_ret. eapply done_exclusive; [exact H|].
    intros n0 m0 Hd _. unfold mode_done. destruct (bs_sealed st); [intros [_ ->]; by left|]. destruct e; by eapply done_settled.
  - eapply wp_returns; [by eapply (mode_exact false)|]. intros e w' H. apply wp_ret. eapply done_exclusive; [exact H|].
    intros n0 m0 Hd _. unfold mode_done. destruct (bs_sealed st); [intros [_ ->]; by left|]. destruct e; by eapply done_settled.
  - eapply wp_returns; [by eapply truncate_exact|]. intros e w' H. apply wp_ret. eapply done_exclusive; [exact H|].
    intros k m Hd _. unfold truncate_done. destruct (bs_sealed st); [intros [_ ->]; by left|].
    destruct (bs_readOnly st); [intros [_ ->]; by left|]. destruct (_ || _); [intros [_ ->]; by left|].
    destruct e; [intros (_ & [H'|H'] & _)|intros H']; by eapply done_settled.
  - eapply wp_returns; [by eapply returns_CopyIn|]. intros e w' H. apply wp_ret. eapply done_accessed; [exact H|].
    intros n b Hd _. cbn beta. destruct (_ || _); [intros [_ ->]; by left|].
    intros [[H' _]|(_ & _ & _ & H')]; by eapply done_settled.
  - eapply wp_returns; [by eapply returns_SetByteAt|]. intros e w' H. apply wp_ret. eapply done_accessed; [exact H|].
    intros n b Hd _. cbn beta. destruct (_ || _); [intros [_ ->]; by left|].
    intros [[H' _]|(_ & _ & H')]; by eapply done_settled.
  - eapply wp_returns; [by eapply destroy_exact|]. intros e w' H. apply wp_ret. cbn beta in H.
    destruct (bs_data st) as [n|] eqn:Ed; [|left; apply H]. right. destruct H as [G1 (st' & c' & G2 & G3) G4 _ _ _ G7 _].
    exists st', c'. constructor; try done; [congruence|lia].
Qed.

(** ** The other buffer *)

(** A live buffer the emergency wipe has not visited. *)
Record bystander w (q : Z) t n m (c : bool) : Prop := Bystander {
  by_buf : buf_ok w q t c false;
  by_data : bs_data t = Some n;
  by_live : live w q t n m c false
}.

Definition clear_of (F : footprint) (q : Z) t : Prop :=
  rg_base (bs_region t) ∉ fp_mem F /\ bs_sealCipher t ∉ fp_flags F /\ bs_wiped t ∉ fp_flags F /\
  bs_mu t ∉ fp_locks F /\ bs_janitorKey t ∉ fp_keys F /\ q ∉ fp_bufs F.

Lemma clear_of_union F G q t : clear_of F q t -> clear_of G q t -> clear_of (fp_union F G) q t.
Proof. intros (?&?&?&?&?&?) (?&?&?&?&?&?). unfold clear_of, fp_union. cbn. set_solver. Qed.

(** A registration that keeps a cipher flag is not the prekey's, so its lock is
    not the prekey's either. *)
Lemma not_ring w k jr f : world_ok w -> lookup_any w k = Some jr -> jr_sealCipher jr = Some f -> 0 < jr_mu jr -> jr_mu jr <> sk_lock (w_keys w).
Proof.
  intros W Hk Hf Hp. destruct (wk_ring _ W) as [->|(mk & Hl)]; [lia|].
  destruct (ring_live_jr w mk Hl) as (jr' & Hk' & _ & Em & Ec & _). rewrite <- Em.
  assert (k <> sk_key (w_keys w)) as Hne by (intros ->; congruence).
  destruct (jk_inj _ (wk_jan _ W) _ _ _ _ Hk Hk' Hne) as (_ & ? & _). done.
Qed.

Lemma bystander_frame F w w' q t n m c :
  world_ok w -> world_ok w' -> frame F w w' -> clear_of F q t -> bystander w q t n m c -> bystander w' q t n m c.
Proof.
  intros W W' Fr (C1 & C2 & C3 & C4 & C5 & C6) [[B1 B2 B3 B4 B5 B6 B7 B8 B9 B10] Hd [L1 L2 L3 L4 L5 L6 L7 L8]].
  pose proof (fr_bufs _ _ _ Fr _ _ B1 C6) as B1'. pose proof (fr_locks _ _ _ Fr _ _ B2 C4) as B2'.
  destruct L1 as [_ M1 (jr & J1 & J2 & J3 & J4) M3 M4]. destruct (L6 eq_refl) as (jr' & J5 & J6).
  assert (lookup_any w (bs_janitorKey t) = Some jr') as J5a by (unfold lookup_any; by rewrite J5).
  assert (jr' = jr) as -> by congruence.
  pose proof (fr_live _ _ _ Fr _ _ J5 C5) as J5'.
  assert (lookup_any w' (bs_janitorKey t) = Some jr) as J5a' by (unfold lookup_any; by rewrite J5').
  assert (bs_mu t <> sk_lock (w_keys w')) as Hring.
  { rewrite <- J3. eapply not_ring; [done|exact J5a'|exact J6|]. rewrite J3. by apply (wk_locks _ W); rewrite B2. }
  assert (live w' q t n m c false) as L.
  { constructor; try done; [|intros _; by exists jr|].
    - constructor; try done; [by eapply mapped_frame|by exists jr].
    - intros jr2 f Hl Hc. rewrite J5a' in Hl. injection Hl as <-. congruence. }
  constructor; [|done|done]. constructor; try done; [by apply (fr_flags _ _ _ Fr)|by apply (fr_flags _ _ _ Fr)|].
  intros n' Hn'. exists m. by assert (n' = n) as -> by congruence.
Qed.

Lemma clear_of_ring w q t n m c : world_ok w -> live w q t n m c false -> clear_of (ring_fp w) q t.
Proof.
  intros W L. unfold ring_fp. destruct (decide _) as [|H]; unfold clear_of; cbn; [set_solver|].
  destruct (bcore_apart _ _ _ _ W (lv_core _ _ _ _ _ _ _ L) H). set_solver.
Qed.

(** Two live buffers share nothing a call moves. *)
Lemma clear_of_destroy w p st c q t n m c' :
  world_ok w -> buf_ok w p st c false -> bs_data st <> None -> bystander w q t n m c' -> bs_janitorKey t <> bs_janitorKey st ->
  clear_of (destroy_fp w p st) q t.
Proof.
  intros W B Hd By Hne. destruct (bs_data st) as [k|] eqn:Ed; [|done]. destruct (bo_live _ _ _ _ _ B _ Ed) as (mp & L).
  destruct By as [Bt Hdt Lt]. destruct (lv_core _ _ _ _ _ _ _ L) as [P1 _ (jp & P2 & P3 & P4 & P5) _ _].
  pose proof (lv_core _ _ _ _ _ _ _ Lt) as Ct. destruct Ct as [T1 _ (jt & T2 & T3 & T4 & T5) _ _].
  destruct (lv_full _ _ _ _ _ _ _ L eq_refl) as (jp' & P6 & P7). destruct (lv_full _ _ _ _ _ _ _ Lt eq_refl) as (jt' & T6 & T7).
  assert (jp' = jp) as -> by (unfold lookup_any in P2; rewrite P6 in P2; congruence).
  assert (jt' = jt) as -> by (unfold lookup_any in T2; rewrite T6 in T2; congruence).
  destruct (jk_inj _ (wk_jan _ W) _ _ _ _ T2 P2 Hne) as (I1 & _ & I3). rewrite T3, P3 in I1.
  assert (forall f, f = bs_sealCipher t \/ f = bs_wiped t -> f <> bs_sealCipher st) as If.
  { intros f Hf ->. apply (I3 (bs_sealCipher st)); unfold jr_flags; rewrite ?T5, ?T7, ?P5, ?P7; cbn; set_solver. }
  assert (p <> q) as Hpq by (intros ->; congruence).
  unfold destroy_fp, op_fp. repeat apply clear_of_union.
  - unfold clear_of, own_fp. cbn. split_and!; rewrite ?elem_of_singleton; try apply not_elem_of_empty; try congruence; apply If; auto.
  - by eapply clear_of_ring.
  - unfold clear_of. cbn. set_solver.
Qed.

Lemma bystander_with_lock w q t n m c : world_ok w -> bystander w q t n m c -> bystander (with_lock w) q t n m c.
Proof.
  intros W By. eapply (bystander_frame fp_empty); [exact W|by apply world_ok_with_lock|by apply frame_with_lock| |exact By].
  unfold clear_of, fp_empty. cbn. set_solver.
Qed.

(** ** Isolation *)

(** C27. Any sequence of calls on one buffer, in every state it can be in, whatever
    fails on the way and its destruction included: the calls return, and every
    other live buffer is exactly as it was, with its record, its pages and
    their protection, its flags, its registration and its invariant. *)
Theorem buffers_isolated l w p st c q t n m c' :
  world_ok w -> buf_ok w p st c false -> key_room w (2 * zlen l) ->
  bystander w q t n m c' -> p <> q -> (bs_data st <> None -> bs_janitorKey t <> bs_janitorKey st) ->
  returns (performs p l) w (fun _ w' => world_ok w' /\ bystander w' q t n m c').
Proof.
  revert w st c. induction l as [|a l IH]; intros w st c W B Hroom By Hpq Hne; cbn [performs].
  { by apply wp_ret. }
  rewrite zlen_cons in Hroom. pose proof (zlen_nonneg l). apply wp_bind.
  eapply wp_returns; [eapply returns_perform; [done|done|unfold key_room in *; lia]|].
  intros [] w' [->|(st' & c2 & [V1 V2 V3 V4 V5 V6])]; [eapply IH; try done; unfold key_room in *; lia|].
  eapply (IH w' st' c2); [exact V2|exact V3|unfold key_room in *; lia| |exact Hpq|].
  - eapply bystander_frame; [exact W|exact V2|exact V4| |exact By]. eapply clear_of_destroy; [done|exact B|exact V1|exact By|by apply Hne].
  - intros Hd. rewrite (V6 Hd). by apply Hne.
Qed.
End isolation.

(** ** Two concrete buffers *)

#[local] Existing Instance windows_kernel.
#[local] Existing Instance windows_kernel_ok.

(** The sample process after a second [NewBuffer]. *)
Definition sample_two : world := run (NewBuffer [6; 7] []) sample_open.
Definition second_st (w : world) : bufferState := default (sample_st w) (w_bufs w !! 8).

Lemma sample_two_ok :
  world_ok sample_two /\ key_room sample_two 100 /\ buf_ok sample_two 8 (second_st sample_two) false false /\
  exists m, bystander sample_two 4 (sample_st sample_open) 5 m false.
Proof.
  destruct sample_open_ok as (W & B & Hr). destruct (sample_live sample_open false B ltac:(vm_compute; reflexivity)) as (m & L).
  assert (NewBuffer [6; 7] [] sample_open = Ret (inr (Ref 8), [0; 0]) sample_two) as E by (vm_compute; reflexivity).
  pose proof (returns_ret _ _ _ _ _ (wp_NewBuffer [6; 7] [] sample_open W ltac:(unfold key_room in *; lia) ltac:(by vm_compute)) E) as H.
  cbn [fst snd] in H. destruct H as (_ & W2 & Fr & Hk & p & st & bytes & cl & [= <-] & Mk & _). pose proof (mk_buf _ _ _ _ _ _ _ _ _ Mk) as B2.
  split; [exact W2|]. split; [clear; vm_compute; reflexivity|]. split; [unfold second_st; rewrite (bo_st _ _ _ _ _ B2); exact B2|].
  exists m. eapply bystander_frame; [exact W|exact W2|exact Fr|by eapply clear_of_ring|by constructor].
Qed.

Definition sample_calls : list call := [CallCopyIn [9] 1; CallSeal; CallUnseal; CallTruncate 1; CallDestroy; CallSeal].

Lemma buffers_isolated_witness :
  (exists m, returns (performs 8 sample_calls) sample_two (fun _ w' =>
     world_ok w' /\ bystander w' 4 (sample_st sample_open) 5 m false)) /\
  sample_mem sample_two = Some (sample_region, PROT_RW) /\
  sample_mem (run (performs 8 sample_calls) sample_two) = Some (sample_region, PROT_RW) /\
  bs_data <$> w_bufs (run (performs 8 sample_calls) sample_two) !! 8 = Some None.
Proof.
  destruct sample_two_ok as (W & Hr & B & m & By). split; [exists m|split_and!; vm_compute; reflexivity].
  apply (buffers_isolated sample_calls sample_two 8 (second_st sample_two) false 4 (sample_st sample_open) 5 m false W B);
    [change (2 * zlen sample_calls) with 12; unfold key_room in *; lia|exact By|discriminate|intros _; vm_compute; discriminate].
Defined.
