(* ===== verification/ArenaList.v ===== *)
(** * The arena's free list and slot generations (securearena.go)

    The critical sections of [Acquire] and [Release] on the slot index: the
    intrusive first-in first-out list threaded through it, the generation
    counters that tell a live handle from a stale one, and, for any number of
    goroutines in any interleaving, the queue they implement. *)
From S2P Require Import Prelude Errors Canary World.

(** ** The critical sections *)

Definition slot_at (st : arenaState) (i : Z) : option slotMeta :=
  if (i <? 0) then None else as_slots st !! Z.to_nat i.

(** Assignments to the list's fields. *)
Definition as_set_list (slots : list slotMeta) (freeHead freeTail live : Z) (st : arenaState) : arenaState :=
  ArenaState (as_mu st) (as_region st) (as_readOnly st) slots freeHead freeTail live (as_slotSize st) (as_stride st)
    (as_count st) (as_backing st) (as_destroyed st) (as_released st) (as_wiped st) (as_janitorKey st).

(** The seeding loop of [NewArena]. *)
Definition seedSlots (count : Z) : list slotMeta :=
  (fun i => SlotMeta 0 (if (i =? count - 1) then -1 else wrap32 (i + 1))) <$> seqZ 0 count.

(** [Acquire] past its checks: pop the head and make its generation odd.
    [None] is an index out of range. *)
Definition popFree (st : arenaState) : option ((Z * Z) * arenaState) :=
  let i := as_freeHead st in
  sm ← slot_at st i;
  let head := sm_next sm in
  let tail := if (head <? 0) then -1 else as_freeTail st in
  let gen := uwrap64 (sm_generation sm + 1) in
  Some ((i, gen), as_set_list (<[Z.to_nat i := SlotMeta gen (-1)]> (as_slots st)) head tail (as_live st + 1) st).

(** [IsLive], and the liveness check of the borrow path. *)
Definition liveHandle (st : arenaState) (idx gen : Z) : bool :=
  match slot_at st idx with Some sm => sm_generation sm =? gen | None => false end.

(** The claim in [Release]: the compare-and-swap that retires a handle. *)
Definition claimSlot (idx gen : Z) (st : arenaState) : option arenaState :=
  sm ← slot_at st idx;
  if (sm_generation sm =? gen) then
    Some (as_set_list (<[Z.to_nat idx := SlotMeta (uwrap64 (gen + 1)) (sm_next sm)]> (as_slots st))
      (as_freeHead st) (as_freeTail st) (as_live st) st)
  else None.

Definition set_next_of (i n : Z) (slots : list slotMeta) : list slotMeta :=
  alter (fun sm => SlotMeta (sm_generation sm) n) (Z.to_nat i) slots.

(** The end of [Release]: the slot goes to the tail. *)
Definition pushFree (idx : Z) (st : arenaState) : arenaState :=
  let slots := set_next_of idx (-1) (as_slots st) in
  if (0 <=? as_freeTail st)
  then as_set_list (set_next_of (as_freeTail st) idx slots) (as_freeHead st) idx (as_live st - 1) st
  else as_set_list slots idx idx (as_live st - 1) st.

(** ** The list as a sequence *)

(** The slots of [l] link each to the next, the last one to -1. *)
Fixpoint links (slots : list slotMeta) (l : list Z) : Prop :=
  match l with
  | [] => True
  | i :: r => (exists sm, slots !! Z.to_nat i = Some sm /\ sm_next sm = default (-1) (head r)) /\ links slots r
  end.

Record list_ok (st : arenaState) (l : list Z) : Prop := ListOk {
  lo_links : links (as_slots st) l;
  lo_nodup : NoDup l;
  lo_range : Forall (fun i => 0 <= i < zlen (as_slots st)) l;
  lo_head : as_freeHead st = default (-1) (head l);
  lo_tail : as_freeTail st = default (-1) (last l)
}.

Lemma links_keep slots slots' l :
  (forall i, i ∈ l -> sm_next <$> slots' !! Z.to_nat i = sm_next <$> slots !! Z.to_nat i) -> links slots l -> links slots' l.
Proof.
  induction l as [|i r IH]; [done|]. intros H [(sm & E & En) Hr]. split.
  - pose proof (H i ltac:(left)) as Hi. rewrite E in Hi. destruct (slots' !! Z.to_nat i) as [sm'|]; [|done].
    exists sm'. split; [done|]. cbn in Hi. congruence.
  - apply IH; [|done]. intros j Hj. apply H. by right.
Qed.

Lemma links_other slots l i sm :
  0 <= i -> Forall (fun j => 0 <= j) l -> i ∉ l -> links slots l -> links (<[Z.to_nat i := sm]> slots) l.
Proof.
  intros Hi Hl Hn. apply links_keep. intros j Hj. rewrite list_lookup_insert_ne; [done|].
  intros E. rewrite Forall_forall in Hl. specialize (Hl j Hj). assert (i = j) as <- by lia. done.
Qed.

(** Appending at the tail. *)
Lemma links_snoc slots l j sm :
  0 <= j -> j ∉ l -> slots !! Z.to_nat j = Some sm -> sm_next sm = -1 -> NoDup l -> Forall (fun i => 0 <= i) l ->
  links slots l -> links (match last l with Some t => set_next_of t j slots | None => slots end) (l ++ [j]).
Proof.
  intros Hj0 Hj Ej En Hnd Hl Hlk.
  destruct (decide (l = [])) as [->|Hne]; [cbn; eauto|].
  destruct (exists_last Hne) as (r & t & ->). rewrite last_snoc. unfold set_next_of.
  apply NoDup_app in Hnd as (Hr & Ht & _). apply Forall_app in Hl as [Hlr Hlt]. rewrite Forall_singleton in Hlt.
  assert (t <> j) as Htj by (intros ->; apply Hj; set_solver).
  assert (t ∉ r) as Htr by (intros Hin; apply (Ht t Hin); set_solver).
  assert (exists smt, slots !! Z.to_nat t = Some smt) as [smt Et].
  { clear - Hlk. induction r as [|i r IH]; cbn in Hlk; [destruct Hlk as [(sm & ? & _) _]; eauto|]. destruct Hlk as [_ Hlk]. exact (IH Hlk). }
  assert (forall r', (forall i, i ∈ r' -> i ∈ r) -> links slots (r' ++ [t]) ->
    links (alter (fun sm => SlotMeta (sm_generation sm) j) (Z.to_nat t) slots) ((r' ++ [t]) ++ [j])) as Hind.
  { induction r' as [|i r' IH]; intros Hsub H.
    - cbn. split; [exists (SlotMeta (sm_generation smt) j); split; [by rewrite list_lookup_alter_eq, Et|done]|].
      split; [|done]. exists sm. by rewrite list_lookup_alter_ne by lia.
    - cbn [app] in *. destruct H as [(sm' & E' & En') H]. split; [|apply IH; [intros; apply Hsub; by right|done]].
      assert (Z.to_nat t <> Z.to_nat i) as Hti.
      { assert (i ∈ r) as Hin by (apply Hsub; left). rewrite Forall_forall in Hlr. specialize (Hlr i Hin). intros E.
        assert (t = i) by lia. congruence. }
      exists sm'. split; [by rewrite list_lookup_alter_ne|]. rewrite En'. by destruct r'. }
  by apply (Hind r).
Qed.

Lemma zlen_set_next_of i n slots : zlen (set_next_of i n slots) = zlen slots.
Proof. unfold zlen, set_next_of. by rewrite length_alter. Qed.

Lemma list_ok_nonneg st l : list_ok st l -> Forall (fun i => 0 <= i) l.
Proof. intros H. eapply Forall_impl; [apply (lo_range _ _ H)|]. cbn. lia. Qed.

Lemma slot_at_lookup st i sm : 0 <= i -> as_slots st !! Z.to_nat i = Some sm -> slot_at st i = Some sm.
Proof. intros Hi E. unfold slot_at. destruct (i <? 0) eqn:E0; [lia|done]. Qed.

Lemma slot_at_inv st i sm : slot_at st i = Some sm -> 0 <= i < zlen (as_slots st) /\ as_slots st !! Z.to_nat i = Some sm.
Proof.
  unfold slot_at. destruct (i <? 0) eqn:E0; [done|]. intros E. pose proof (lookup_lt_Some _ _ _ E). unfold zlen. split; [lia|done].
Qed.

Lemma slot_at_some st i : 0 <= i < zlen (as_slots st) -> is_Some (slot_at st i).
Proof. intros Hi. unfold slot_at. destruct (i <? 0) eqn:E0; [lia|]. apply lookup_lt_is_Some. unfold zlen in Hi. lia. Qed.

(** [Acquire] takes the head. *)
Lemma popFree_ok st i r :
  list_ok st (i :: r) ->
  exists sm st', slot_at st i = Some sm /\ popFree st = Some ((i, uwrap64 (sm_generation sm + 1)), st') /\ list_ok st' r /\
    as_slots st' = <[Z.to_nat i := SlotMeta (uwrap64 (sm_generation sm + 1)) (-1)]> (as_slots st) /\
    as_live st' = as_live st + 1.
Proof.
  intros [[(sm & E & En) Hl] Hnd Hr Hh Ht]. cbn in Hh. apply NoDup_cons in Hnd as [Hi Hnd].
  apply Forall_cons in Hr as [Hi0 Hr]. pose proof (slot_at_lookup st i sm ltac:(lia) E) as Es.
  eexists sm, _. split; [done|]. split; [unfold popFree; rewrite Hh, Es; reflexivity|]. split; [|done].
  constructor; cbn.
  - apply links_other; [lia| |done|done]. eapply Forall_impl; [exact Hr|]. cbn. lia.
  - done.
  - unfold zlen. rewrite length_insert. done.
  - done.
  - rewrite En, Ht. destruct r as [|j r]; [done|]. cbn. apply Forall_cons in Hr as [Hj _].
    destruct (j <? 0) eqn:E0; [lia|done].
Qed.

(** [Release] appends at the tail. *)
Lemma pushFree_ok st l idx :
  list_ok st l -> 0 <= idx < zlen (as_slots st) -> idx ∉ l ->
  list_ok (pushFree idx st) (l ++ [idx]) /\ as_live (pushFree idx st) = as_live st - 1.
Proof.
  intros Hok Hidx Hn. pose proof (list_ok_nonneg _ _ Hok) as Hpos. destruct Hok as [Hl Hnd Hr Hh Ht].
  destruct (lookup_lt_is_Some_2 (as_slots st) (Z.to_nat idx)) as [sm Es]; [unfold zlen in Hidx; lia|].
  set (s1 := set_next_of idx (-1) (as_slots st)).
  assert (s1 !! Z.to_nat idx = Some (SlotMeta (sm_generation sm) (-1))) as E1.
  { unfold s1, set_next_of. by rewrite list_lookup_alter_eq, Es. }
  assert (links s1 l) as Hl1.
  { apply (links_keep (as_slots st)); [|done]. intros j Hj. unfold s1, set_next_of. rewrite list_lookup_alter_ne; [done|].
    rewrite Forall_forall in Hpos. specialize (Hpos j Hj). intros E. assert (idx = j) as <- by lia. done. }
  pose proof (links_snoc s1 l idx _ ltac:(lia) Hn E1 eq_refl Hnd Hpos Hl1) as Hs.
  assert (NoDup (l ++ [idx])) as Hnd'.
  { apply NoDup_app. split; [done|]. split; [|apply NoDup_singleton]. intros x Hx ->%list_elem_of_singleton. done. }
  unfold pushFree. fold s1. destruct (last l) as [t|] eqn:El.
  - assert (t ∈ l) as Hin by (by apply last_Some_elem_of).
    assert (0 <= t) by (rewrite Forall_forall in Hpos; by apply Hpos). cbn in Ht. rewrite Ht.
    destruct (0 <=? t) eqn:E0; [|lia]. split; [|done]. constructor; cbn; [exact Hs|done| |destruct l; [done|exact Hh]|by rewrite last_snoc].
    unfold s1. rewrite !zlen_set_next_of. apply Forall_app. split; [done|]. by apply Forall_singleton.
  - apply last_None in El as ->. cbn in Ht. rewrite Ht. cbn. split; [|done]. constructor; cbn; try done.
    unfold s1. rewrite zlen_set_next_of. by apply Forall_singleton.
Qed.

(** A claim does not move the list. *)
Lemma claimSlot_ok st l idx gen st' :
  list_ok st l -> claimSlot idx gen st = Some st' -> list_ok st' l /\ as_live st' = as_live st.
Proof.
  intros [Hl Hnd Hr Hh Ht] E. unfold claimSlot in E. destruct (slot_at st idx) as [sm|] eqn:Es; [|done]. cbn in E.
  destruct (_ =? _); [|done]. injection E as <-. split; [|done]. apply slot_at_inv in Es as [H0 Es].
  constructor; cbn; try done; [|by unfold zlen; rewrite length_insert].
  eapply links_keep; [|exact Hl]. intros i Hi. destruct (decide (Z.to_nat i = Z.to_nat idx)) as [Ei|Ei].
  - rewrite Ei, list_lookup_insert_eq, Es; [done|]. unfold zlen in H0. lia.
  - by rewrite list_lookup_insert_ne.
Qed.

(** A fresh arena hands out 0, 1, 2 and so on. *)
Lemma lookup_seedSlots count (i : nat) :
  count <= MaxInt32 -> (i < Z.to_nat count)%nat ->
  seedSlots count !! i = Some (SlotMeta 0 (if (Z.of_nat i =? count - 1) then -1 else Z.of_nat i + 1)).
Proof.
  intros Hc Hi. unfold seedSlots. rewrite list_lookup_fmap, lookup_seqZ_lt by lia. cbn. rewrite Z.add_0_l.
  rewrite wrap32_id; [done|]. unfold MaxInt32 in *. lia.
Qed.

Lemma zlen_seedSlots count : 0 <= count -> zlen (seedSlots count) = count.
Proof. intros. unfold zlen, seedSlots. rewrite length_fmap, length_seqZ. lia. Qed.

Lemma links_seed count (n : nat) :
  count <= MaxInt32 -> forall a, 0 <= a -> a + Z.of_nat n = count -> links (seedSlots count) (seqZ a (Z.of_nat n)).
Proof.
  intros Hc. induction n as [|n IH]; intros a Ha Hn; [done|]. rewrite seqZ_cons by lia.
  replace (Z.pred (Z.of_nat (S n))) with (Z.of_nat n) by lia. split; [|apply IH; lia].
  eexists. split; [apply lookup_seedSlots; lia|]. cbn [sm_next]. rewrite Z2Nat.id by done.
  destruct (a =? count - 1) eqn:E; destruct n as [|n]; [done|lia|lia|]. rewrite seqZ_cons by lia. cbn. lia.
Qed.

Lemma last_seqZ a n : 0 < n -> last (seqZ a n) = Some (a + n - 1).
Proof.
  intros Hn. rewrite last_lookup, length_seqZ, lookup_seqZ_lt by lia. f_equal. lia.
Qed.

(** The free-list fields as the constructor leaves them. *)
Record fresh_list (count : Z) (st : arenaState) : Prop := FreshList {
  fl_count : 0 < count <= MaxInt32;
  fl_slots : as_slots st = seedSlots count;
  fl_head : as_freeHead st = 0;
  fl_tail : as_freeTail st = count - 1;
  fl_live : as_live st = 0
}.

Lemma fresh_list_ok count st : fresh_list count st -> list_ok st (seqZ 0 count).
Proof.
  intros [[Hc Hc'] Hs Hh Ht _]. constructor.
  - rewrite Hs. replace count with (Z.of_nat (Z.to_nat count)) at 2 by lia. apply links_seed; lia.
  - apply NoDup_seqZ.
  - rewrite Hs, zlen_seedSlots by lia. apply Forall_forall. intros x Hx%elem_of_seqZ. lia.
  - rewrite Hh. by rewrite seqZ_cons by lia.
  - rewrite Ht, last_seqZ by lia. cbn. lia.
Qed.

(** ** Interleavings

    What any number of goroutines can do to the slot index, one critical
    section at a time: an [Acquire], the claim of a [Release] on a handle that
    some [Acquire] returned (once or any number of times, by anybody), the push
    that ends a won [Release], a liveness check. [sy_issued] are the handles
    returned so far, [sy_retiring] the slots whose [Release] has claimed and not
    yet pushed. *)
Record system : Type := System {
  sy_arena : arenaState;
  sy_issued : list (Z * Z);
  sy_retiring : list Z
}.

Inductive event : Type :=
| Acquired (h : Z * Z)
| Full
| Retired (h : Z * Z)
| Stale (h : Z * Z)
| Returned (i : Z)
| Observed (h : Z * Z) (live : bool).

Inductive arena_step : system -> event -> system -> Prop :=
| st_acquire st iss ret h st' :
    0 <= as_freeHead st -> popFree st = Some (h, st') ->
    arena_step (System st iss ret) (Acquired h) (System st' (h :: iss) ret)
| st_full st iss ret :
    as_freeHead st < 0 -> arena_step (System st iss ret) Full (System st iss ret)
| st_claim st iss ret i g st' :
    (i, g) ∈ iss -> claimSlot i g st = Some st' ->
    arena_step (System st iss ret) (Retired (i, g)) (System st' iss (i :: ret))
| st_stale st iss ret i g :
    (i, g) ∈ iss -> claimSlot i g st = None ->
    arena_step (System st iss ret) (Stale (i, g)) (System st iss ret)
| st_push st iss ret1 i ret2 :
    arena_step (System st iss (ret1 ++ i :: ret2)) (Returned i) (System (pushFree i st) iss (ret1 ++ ret2))
| st_check st iss ret i g b :
    (i, g) ∈ iss -> liveHandle st i g = b -> arena_step (System st iss ret) (Observed (i, g) b) (System st iss ret).

(** ** What it promises: a queue of free slots and a set of live handles *)
Record pool : Type := Pool {
  po_free : list Z;
  po_live : list (Z * Z);
  po_retiring : list Z;
  po_issued : list (Z * Z)
}.

Inductive pool_step : pool -> event -> pool -> Prop :=
| po_acquire i r lv ret iss g :
    (i, g) ∉ iss ->
    pool_step (Pool (i :: r) lv ret iss) (Acquired (i, g)) (Pool r ((i, g) :: lv) ret ((i, g) :: iss))
| po_full lv ret iss :
    pool_step (Pool [] lv ret iss) Full (Pool [] lv ret iss)
| po_retire f lv1 i g lv2 ret iss :
    (i, g) ∉ lv1 ++ lv2 ->
    pool_step (Pool f (lv1 ++ (i, g) :: lv2) ret iss) (Retired (i, g)) (Pool f (lv1 ++ lv2) (i :: ret) iss)
| po_stale f lv ret iss h :
    h ∈ iss -> h ∉ lv -> pool_step (Pool f lv ret iss) (Stale h) (Pool f lv ret iss)
| po_return f lv ret1 i ret2 iss :
    i ∉ f -> pool_step (Pool f lv (ret1 ++ i :: ret2) iss) (Returned i) (Pool (f ++ [i]) lv (ret1 ++ ret2) iss)
| po_observe f lv ret iss h :
    h ∈ iss -> pool_step (Pool f lv ret iss) (Observed h (bool_decide (h ∈ lv))) (Pool f lv ret iss).

(** Finitely many steps of a labelled system. *)
Inductive run_of {S E : Type} (step : S -> E -> S -> Prop) : S -> list E -> S -> Prop :=
| run_nil s : run_of step s [] s
| run_snoc s es s1 e s2 : run_of step s es s1 -> step s1 e s2 -> run_of step s (es ++ [e]) s2.

Definition start_of (st : arenaState) : system := System st [] [].
Definition empty_pool (count : Z) : pool := Pool (seqZ 0 count) [] [] [].

(** A slot's generation. *)
Definition gen_at (st : arenaState) (i : Z) : option Z := sm_generation <$> slot_at st i.

(** The simulation relation. *)
Record implements (count : Z) (s : system) (a : pool) : Prop := Implements {
  im_issued : po_issued a = sy_issued s;
  im_retiring : po_retiring a = sy_retiring s;
  im_list : list_ok (sy_arena s) (po_free a);
  im_count : zlen (as_slots (sy_arena s)) = count;
  im_all : po_free a ++ po_retiring a ++ (po_live a).*1 ≡ₚ seqZ 0 count;
  im_live_gen : forall i g, (i, g) ∈ po_live a -> gen_at (sy_arena s) i = Some g /\ Z.odd g = true;
  im_idle_gen : forall i, i ∈ po_free a ++ po_retiring a ->
    exists g, gen_at (sy_arena s) i = Some g /\ Z.odd g = false;
  im_issued_gen : forall i g, (i, g) ∈ sy_issued s ->
    Z.odd g = true /\ exists g', gen_at (sy_arena s) i = Some g' /\ g <= g';
  im_gens : forall i g, gen_at (sy_arena s) i = Some g -> 0 <= g <= 2 * zlen (sy_issued s);
  im_live_issued : forall h, h ∈ po_live a -> h ∈ sy_issued s;
  im_livecount : as_live (sy_arena s) = zlen (po_live a) + zlen (sy_retiring s)
}.

Lemma gen_at_range st i g : gen_at st i = Some g -> 0 <= i < zlen (as_slots st).
Proof.
  unfold gen_at. destruct (slot_at st i) as [sm|] eqn:E; [|done]. intros _. exact (proj1 (slot_at_inv _ _ _ E)).
Qed.

Lemma gen_at_insert st st' i sm' :
  0 <= i < zlen (as_slots st) -> as_slots st' = <[Z.to_nat i := sm']> (as_slots st) ->
  forall j, gen_at st' j = if decide (j = i) then Some (sm_generation sm') else gen_at st j.
Proof.
  intros Hi E j. unfold gen_at, slot_at. rewrite E. unfold zlen in Hi. destruct (decide (j = i)) as [->|Hj].
  - destruct (i <? 0) eqn:E0; [lia|]. by rewrite list_lookup_insert_eq by lia.
  - destruct (j <? 0) eqn:E0; [done|]. by rewrite list_lookup_insert_ne by lia.
Qed.

Lemma gen_push st i j : gen_at (pushFree i st) j = gen_at st j.
Proof.
  unfold gen_at, slot_at. destruct (j <? 0) eqn:E0; [done|].
  assert (forall k n slots, sm_generation <$> set_next_of k n slots !! Z.to_nat j = sm_generation <$> slots !! Z.to_nat j) as Hs.
  { intros k n slots. unfold set_next_of. destruct (decide (Z.to_nat k = Z.to_nat j)) as [->|Hk].
    - rewrite list_lookup_alter_eq. by destruct (slots !! _).
    - by rewrite list_lookup_alter_ne. }
  unfold pushFree. destruct (0 <=? as_freeTail st); cbn; by rewrite !Hs.
Qed.

Lemma claimSlot_spec st i g st' :
  claimSlot i g st = Some st' <->
  gen_at st i = Some g /\ exists sm, slot_at st i = Some sm /\
  st' = as_set_list (<[Z.to_nat i := SlotMeta (uwrap64 (g + 1)) (sm_next sm)]> (as_slots st))
    (as_freeHead st) (as_freeTail st) (as_live st) st.
Proof.
  unfold claimSlot, gen_at. destruct (slot_at st i) as [sm|] eqn:E; cbn; [|naive_solver].
  destruct (sm_generation sm =? g) eqn:Eg; [apply Z.eqb_eq in Eg as <-|apply Z.eqb_neq in Eg]; naive_solver.
Qed.

Lemma liveHandle_spec st i g : liveHandle st i g = true <-> gen_at st i = Some g.
Proof. unfold liveHandle, gen_at. destruct (slot_at st i) as [sm|]; cbn; [rewrite Z.eqb_eq; naive_solver|done]. Qed.

(** The handle an observer holds is in the pool's live set exactly when its
    generation is the slot's. *)
Lemma implements_live count s a i g :
  implements count s a -> (i, g) ∈ sy_issued s -> (i, g) ∈ po_live a <-> gen_at (sy_arena s) i = Some g.
Proof.
  intros I Hi. split; [intros Hl; by apply (im_live_gen _ _ _ I)|]. intros Eg.
  destruct (im_issued_gen _ _ _ I _ _ Hi) as [Ho _].
  assert (i ∈ po_free a ++ po_retiring a ++ (po_live a).*1) as Hin.
  { rewrite (im_all _ _ _ I). apply elem_of_seqZ. pose proof (gen_at_range _ _ _ Eg). rewrite (im_count _ _ _ I) in *. lia. }
  rewrite app_assoc in Hin. apply elem_of_app in Hin as [Hin|Hin].
  - destruct (im_idle_gen _ _ _ I _ Hin) as (g' & Eg' & Hg'). congruence.
  - apply list_elem_of_fmap in Hin as ([i' g'] & -> & Hin). destruct (im_live_gen _ _ _ I _ _ Hin) as [Eg' _]. cbn in *.
    by simplify_eq.
Qed.

Lemma implements_nodup count s a : implements count s a -> NoDup (po_free a ++ po_retiring a ++ (po_live a).*1).
Proof. intros I. rewrite (im_all _ _ _ I). apply NoDup_seqZ. Qed.

Lemma seeded_gen count st i :
  0 < count <= MaxInt32 -> as_slots st = seedSlots count -> 0 <= i < count -> gen_at st i = Some 0.
Proof.
  intros Hc Hs Hi. unfold gen_at, slot_at. destruct (i <? 0) eqn:E; [lia|]. by rewrite Hs, lookup_seedSlots by lia.
Qed.

Lemma fresh_implements count st : fresh_list count st -> implements count (start_of st) (empty_pool count).
Proof.
  intros F. pose proof (fresh_list_ok _ _ F) as L. destruct F as [Hc Hs Hh Ht Hlv]. constructor; cbn; try done.
  - rewrite Hs. apply zlen_seedSlots. lia.
  - by rewrite app_nil_r.
  - intros i g Hi. inversion Hi.
  - intros i Hi. rewrite app_nil_r in Hi. apply elem_of_seqZ in Hi. exists 0. split; [|done]. by apply (seeded_gen count).
  - intros i g Hi. inversion Hi.
  - intros i g E. pose proof (gen_at_range _ _ _ E) as Hi. rewrite Hs, zlen_seedSlots in Hi by lia.
    rewrite (seeded_gen count) in E by done. by injection E as <-.
Qed.

Ltac proj_cbn := cbn [sy_arena sy_issued sy_retiring po_free po_live po_retiring po_issued start_of empty_pool] in *.

Section simulation.
Context (count : Z).
Implicit Types (s : system) (a : pool).

Lemma sim_acquire st iss ret a h st' :
  implements count (System st iss ret) a -> zlen (h :: iss) < 2 ^ 63 -> 0 <= as_freeHead st -> popFree st = Some (h, st') ->
  exists a', pool_step a (Acquired h) a' /\ implements count (System st' (h :: iss) ret) a'.
Proof.
  intros I Hn Hh E. pose proof (implements_nodup _ _ _ I) as Hnd. destruct a as [f lv ret' iss'].
  destruct I as [Ei Er Hl Hc Ha Hlg Hig Hsg Hg Hli Hlc]. proj_cbn. subst iss' ret'.
  destruct f as [|i r]; [pose proof (lo_head _ _ Hl) as ?; cbn in *; lia|].
  destruct (popFree_ok _ _ _ Hl) as (sm & st2 & Esl & Ep & Hl2 & Es2 & Elv). simplify_eq. set (g := sm_generation sm) in *.
  assert (gen_at st i = Some g) as Egi by (unfold gen_at; by rewrite Esl).
  destruct (Hig i ltac:(left)) as (g0 & Eg0 & Ho). assert (g0 = g) as -> by congruence.
  pose proof (Hg _ _ Egi) as Hb. rewrite zlen_cons in Hn. rewrite uwrap64_id in * by lia.
  assert (Z.odd (g + 1) = true) as Ho1 by (rewrite Z.add_1_r, Z.odd_succ, <- Z.negb_odd, Ho; done).
  pose proof (gen_at_insert st st' i _ (gen_at_range _ _ _ Egi) Es2) as Hga. cbn in Hga.
  exists (Pool r ((i, g + 1) :: lv) ret ((i, g + 1) :: iss)). rewrite <- app_comm_cons in Hnd. apply NoDup_cons in Hnd as [Hni Hnd]. split.
  { constructor. intros Hin. destruct (Hsg _ _ Hin) as (_ & g' & Eg' & Hle). rewrite Egi in Eg'. simplify_eq. lia. }
  constructor; proj_cbn; try done.
  - rewrite Es2. unfold zlen. by rewrite length_insert.
  - rewrite <- Ha, fmap_cons, <- app_comm_cons, !app_assoc. symmetry. apply Permutation_middle.
  - intros j gj [[= -> ->]|Hin]%elem_of_cons; rewrite Hga; [by rewrite decide_True by done|].
    rewrite decide_False; [by apply Hlg|]. intros ->. apply Hni. rewrite app_assoc. apply elem_of_app. right.
    apply list_elem_of_fmap. by exists (i, gj).
  - intros j Hj. rewrite Hga, decide_False; [apply Hig; by right|]. intros ->. apply Hni. rewrite app_assoc. apply elem_of_app. by left.
  - intros j gj [[= -> ->]|Hin]%elem_of_cons; rewrite Hga; [rewrite decide_True by done; split; [done|]; eexists; split; [done|lia]|].
    destruct (Hsg _ _ Hin) as (? & g' & Eg' & ?). split; [done|]. case_decide; [subst; rewrite Egi in Eg'; simplify_eq|]; eexists; (split; [done|lia]).
  - intros j gj. rewrite Hga, zlen_cons. case_decide; [intros [= <-]; lia|]. intros Ej. specialize (Hg _ _ Ej). lia.
  - intros h [->|Hin]%elem_of_cons; [left|right; by apply Hli].
  - rewrite zlen_cons. lia.
Qed.

Lemma sim_claim st iss ret a i g st' :
  implements count (System st iss ret) a -> zlen iss < 2 ^ 63 -> (i, g) ∈ iss -> claimSlot i g st = Some st' ->
  exists a', pool_step a (Retired (i, g)) a' /\ implements count (System st' iss (i :: ret)) a'.
Proof.
  intros I Hn Hi E. pose proof (implements_nodup _ _ _ I) as Hnd. pose proof (implements_live _ _ _ i g I Hi) as Hlive.
  destruct a as [f lv ret' iss']. pose proof (claimSlot_ok _ _ _ _ _ (im_list _ _ _ I) E) as [Hl2 Elv].
  destruct I as [Ei Er Hl Hc Ha Hlg Hig Hsg Hg Hli Hlc]. proj_cbn. subst iss' ret'.
  apply claimSlot_spec in E as (Egi & sm & Esl & ->). apply Hlive in Egi as Hin. destruct (Hlg _ _ Hin) as [_ Ho].
  pose proof (Hg _ _ Egi) as Hb. assert (g <> 2 * zlen iss) as Hne by (intros ->; by rewrite Z.odd_mul in Ho).
  rewrite uwrap64_id in * by lia. apply list_elem_of_split in Hin as (lv1 & lv2 & ->).
  assert ((lv1 ++ (i, g) :: lv2).*1 ≡ₚ i :: (lv1 ++ lv2).*1) as Hp by (by rewrite <- Permutation_middle).
  rewrite Hp in Ha, Hnd. rewrite <- (Permutation_middle ret) in Ha.
  assert (i ∉ f ++ ret ++ (lv1 ++ lv2).*1) as Hni.
  { rewrite <- (Permutation_middle ret), <- (Permutation_middle f) in Hnd. by apply NoDup_cons in Hnd as [? _]. }
  set (st2 := as_set_list _ _ _ _ _) in *.
  pose proof (gen_at_insert st st2 i _ (gen_at_range _ _ _ Egi) eq_refl) as Hga. cbn [sm_generation] in Hga.
  assert (forall x, x ∈ lv1 ++ lv2 -> x ∈ lv1 ++ (i, g) :: lv2) as Hsub.
  { intros x. rewrite !elem_of_app, elem_of_cons. tauto. }
  exists (Pool f (lv1 ++ lv2) (i :: ret) iss). split.
  { constructor. intros Hin. apply Hni. rewrite app_assoc. apply elem_of_app. right. apply list_elem_of_fmap. by exists (i, g). }
  constructor; proj_cbn; try done.
  - unfold zlen. cbn. by rewrite length_insert.
  - intros j gj Hin. rewrite Hga, decide_False; [by apply Hlg, Hsub|]. intros ->. apply Hni. rewrite app_assoc.
    apply elem_of_app. right. apply list_elem_of_fmap. by exists (i, gj).
  - intros j Hj. rewrite Hga. case_decide as Ej.
    + eexists. split; [done|]. by rewrite Z.add_1_r, Z.odd_succ, <- Z.negb_odd, Ho.
    + apply Hig. apply elem_of_app in Hj as [Hj|Hj]; [apply elem_of_app; by left|]. apply elem_of_cons in Hj as [?|Hj]; [done|].
      apply elem_of_app. by right.
  - intros j gj Hin. destruct (Hsg _ _ Hin) as (? & g' & Eg' & ?). split; [done|]. rewrite Hga. case_decide; [subst; rewrite Egi in Eg'; simplify_eq|];
      eexists; (split; [done|lia]).
  - intros j gj. rewrite Hga. case_decide; [intros [= <-]; lia|apply Hg].
  - intros h Hin. by apply Hli, Hsub.
  - change (as_live st2) with (as_live st). rewrite !zlen_app, !zlen_cons in *. lia.
Qed.

Lemma sim_push st iss ret1 i ret2 a :
  implements count (System st iss (ret1 ++ i :: ret2)) a ->
  exists a', pool_step a (Returned i) a' /\ implements count (System (pushFree i st) iss (ret1 ++ ret2)) a'.
Proof.
  intros I. pose proof (implements_nodup _ _ _ I) as Hnd. destruct a as [f lv ret' iss'].
  destruct I as [Ei Er Hl Hc Ha Hlg Hig Hsg Hg Hli Hlc]. proj_cbn. subst iss' ret'.
  assert (i ∉ f) as Hni.
  { intros Hin. apply NoDup_app in Hnd as (_ & Hd & _). apply (Hd i Hin). apply elem_of_app. left. apply elem_of_app. right. left. }
  assert (0 <= i < zlen (as_slots st)) as Hi.
  { destruct (Hig i) as (g & Eg & _); [apply elem_of_app; right; apply elem_of_app; right; left|]. exact (gen_at_range _ _ _ Eg). }
  destruct (pushFree_ok _ _ _ Hl Hi Hni) as [Hl2 Elv].
  exists (Pool (f ++ [i]) lv (ret1 ++ ret2) iss). split; [by constructor|].
  constructor; proj_cbn; try done.
  - unfold pushFree. destruct (_ <=? _); cbn; by rewrite !zlen_set_next_of.
  - rewrite <- Ha, <- !app_assoc. f_equiv. cbn. by rewrite Permutation_middle.
  - intros j g Hin. rewrite gen_push. by apply Hlg.
  - intros j Hj. rewrite gen_push. apply Hig. rewrite !elem_of_app in *. rewrite list_elem_of_singleton in Hj. rewrite elem_of_cons. tauto.
  - intros j g Hin. rewrite gen_push. by apply Hsg.
  - intros j g. rewrite gen_push. apply Hg.
  - rewrite zlen_app in *. rewrite zlen_cons in Hlc. lia.
Qed.

(** Every step of the slot index is a step of the pool. *)
Lemma sim_step s e s' a :
  implements count s a -> arena_step s e s' -> zlen (sy_issued s') < 2 ^ 63 ->
  exists a', pool_step a e a' /\ implements count s' a'.
Proof.
  intros I St Hn. destruct St as [st iss ret h st' Hh E|st iss ret Hh|st iss ret i g st' Hi E|st iss ret i g Hi E|st iss ret1 i ret2|st iss ret i g b Hi <-].
  - by eapply sim_acquire.
  - exists a. split; [|done]. destruct a as [f lv r iss']. pose proof (im_list _ _ _ I) as Hl. cbn in Hl.
    destruct f as [|i f]; [constructor|]. pose proof (lo_head _ _ Hl) as Eh. pose proof (lo_range _ _ Hl) as Hr. cbn in *.
    apply Forall_cons in Hr as [? _]. lia.
  - by eapply sim_claim.
  - exists a. split; [|done]. pose proof (im_issued _ _ _ I) as Ei. pose proof (implements_live _ _ _ i g I Hi) as Hl.
    destruct a as [f lv r iss']. cbn in *. subst iss'. constructor; [done|]. intros Hin. apply Hl in Hin.
    unfold gen_at in Hin. destruct (slot_at st i) as [sm|] eqn:Es; [|done]. cbn in Hin. injection Hin as Eg.
    unfold claimSlot in E. rewrite Es in E. cbn in E. rewrite Eg, Z.eqb_refl in E. done.
  - by apply sim_push.
  - exists a. split; [|done]. pose proof (im_issued _ _ _ I) as Ei. pose proof (implements_live _ _ _ i g I Hi) as Hl.
    pose proof (liveHandle_spec st i g) as Hs.
    destruct a as [f lv r iss']. cbn in *. subst iss'.
    replace (liveHandle st i g) with (bool_decide ((i, g) ∈ lv)); [by constructor|].
    destruct (liveHandle st i g); [apply bool_decide_eq_true_2; tauto|apply bool_decide_eq_false_2].
    intros Hin. destruct Hs as [_ Hs]. apply Hl in Hin. by discriminate Hs.
Qed.

Lemma issued_mono s e s' : arena_step s e s' -> zlen (sy_issued s) <= zlen (sy_issued s').
Proof. intros []; cbn; rewrite ?zlen_cons; lia. Qed.

Lemma sim_run st es s :
  fresh_list count st -> run_of arena_step (start_of st) es s -> zlen (sy_issued s) < 2 ^ 63 ->
  exists a, run_of pool_step (empty_pool count) es a /\ implements count s a.
Proof.
  intros F R. remember (start_of st) as s0 eqn:E0. induction R as [s|s es s1 e s2 R IH St]; intros Hn.
  - subst s. exists (empty_pool count). split; [constructor|by apply fresh_implements].
  - destruct IH as (a & Ra & I); [done|pose proof (issued_mono _ _ _ St); lia|].
    destruct (sim_step _ _ _ _ I St Hn) as (a' & Sa & I'). exists a'. split; [by econstructor|done].
Qed.
End simulation.

(** ** Reading a trace *)
Definition acquired (es : list event) : list (Z * Z) := omap (fun e => match e with Acquired h => Some h | _ => None end) es.
Definition retired (es : list event) : list (Z * Z) := omap (fun e => match e with Retired h => Some h | _ => None end) es.
Definition returned (es : list event) : list Z := omap (fun e => match e with Returned i => Some i | _ => None end) es.

(** How many slots were free after [es]. *)
Definition free_after (count : Z) (es : list event) : Z := count + zlen (returned es) - zlen (acquired es).

Lemma acquired_snoc es e : acquired (es ++ [e]) = match e with Acquired h => acquired es ++ [h] | _ => acquired es end.
Proof. unfold acquired. rewrite omap_app. destruct e; cbn; by rewrite ?app_nil_r. Qed.

Lemma retired_snoc es e : retired (es ++ [e]) = match e with Retired h => retired es ++ [h] | _ => retired es end.
Proof. unfold retired. rewrite omap_app. destruct e; cbn; by rewrite ?app_nil_r. Qed.

Lemma returned_snoc es e : returned (es ++ [e]) = match e with Returned h => returned es ++ [h] | _ => returned es end.
Proof. unfold returned. rewrite omap_app. destruct e; cbn; by rewrite ?app_nil_r. Qed.

Lemma run_nil_inv {S E} (step : S -> E -> S -> Prop) s s' : run_of step s [] s' -> s = s'.
Proof. intros R. remember [] as l eqn:El. destruct R; [done|]. by destruct es. Qed.

Lemma run_snoc_inv {S E} (step : S -> E -> S -> Prop) s es e s' :
  run_of step s (es ++ [e]) s' -> exists s1, run_of step s es s1 /\ step s1 e s'.
Proof.
  intros R. remember (es ++ [e]) as l eqn:El. destruct R as [s|s es' s1 e' s2 R St]; [by destruct es|].
  apply app_inj_tail in El as [-> ->]. eauto.
Qed.

Lemma run_app {S E} (step : S -> E -> S -> Prop) s es1 es2 s2 :
  run_of step s (es1 ++ es2) s2 -> exists s1, run_of step s es1 s1 /\ run_of step s1 es2 s2.
Proof.
  revert s2. induction es2 as [|e es2 IH] using rev_ind; intros s2 R.
  - rewrite app_nil_r in R. exists s2. split; [done|constructor].
  - rewrite app_assoc in R. apply run_snoc_inv in R as (s3 & R3 & St). destruct (IH _ R3) as (s1 & R1 & R2). exists s1. split; [done|by econstructor].
Qed.

Lemma run_one {S E} (step : S -> E -> S -> Prop) s e s' : run_of step s [e] s' -> step s e s'.
Proof.
  intros (s1 & R & St)%(run_snoc_inv _ _ []). apply run_nil_inv in R as ->. done.
Qed.

Lemma run_cons {S E} (step : S -> E -> S -> Prop) s e s1 es s2 :
  step s e s1 -> run_of step s1 es s2 -> run_of step s (e :: es) s2.
Proof.
  intros St R. induction R as [s1|s1 es s3 e' s4 R IH St'].
  - apply (run_snoc _ _ [] s); [constructor|done].
  - rewrite app_comm_cons. econstructor; [by apply IH|done].
Qed.

(** What a run of the pool fixes: which handles are issued, which are gone. *)
Lemma pool_facts count es a :
  run_of pool_step (empty_pool count) es a ->
  po_issued a = reverse (acquired es) /\ NoDup (po_issued a) /\ NoDup (po_live a) /\
  (forall h, h ∈ po_live a -> h ∈ po_issued a) /\
  NoDup (retired es) /\ (forall h, h ∈ retired es -> h ∈ po_issued a /\ h ∉ po_live a) /\
  (0 <= count -> zlen (po_free a) = free_after count es).
Proof.
  intros R. remember (empty_pool count) as a0. induction R as [a|a es a1 e a2 R IH St]; subst a.
  - cbn [empty_pool po_issued po_live po_free]. split_and!; try done; try (by constructor); try (by intros h Hin; inversion Hin).
    intros Hc. unfold zlen at 1, free_after. rewrite length_seqZ. change (zlen (returned [])) with 0. change (zlen (acquired [])) with 0. lia.
  - destruct IH as (Hi & Hni & Hnl & Hli & Hnr & Hr & Hf); [done|]. unfold free_after in *.
    rewrite acquired_snoc, retired_snoc, returned_snoc. destruct St; cbn [po_issued po_live po_free] in *.
    + rewrite reverse_snoc, <- Hi. split_and!; try done.
      * by constructor.
      * constructor; [|done]. naive_solver.
      * intros h. rewrite !elem_of_cons. naive_solver.
      * intros h Hh. destruct (Hr h Hh). rewrite !elem_of_cons. naive_solver.
      * intros Hc. specialize (Hf Hc). rewrite zlen_cons in Hf. rewrite zlen_app. change (zlen [(i, g)]) with 1. lia.
    + by split_and!.
    + assert (forall h, h ∈ lv1 ++ lv2 -> h ∈ lv1 ++ (i, g) :: lv2) as Hsub.
      { intros h. rewrite !elem_of_app, elem_of_cons. tauto. }
      rewrite <- Permutation_middle in Hnl. apply NoDup_cons in Hnl as [Hn1 Hn2].
      split_and!; try done; [by auto| |].
      * apply NoDup_app. split; [done|]. split; [|apply NoDup_singleton]. intros h Hh ->%list_elem_of_singleton.
        destruct (Hr _ Hh) as [_ Hn]. apply Hn, elem_of_app. right. left.
      * intros h. rewrite elem_of_app, list_elem_of_singleton. intros [Hh| ->].
        -- destruct (Hr _ Hh). naive_solver.
        -- split; [|done]. apply Hli, elem_of_app. right. left.
    + by split_and!.
    + split_and!; try done. intros Hc. specialize (Hf Hc). rewrite !zlen_app. change (zlen [i]) with 1. lia.
    + by split_and!.
Qed.

(** A slot at the back of the queue stays behind everything before it. *)
Lemma pool_queue a es a' l i m :
  run_of pool_step a es a' -> po_free a = l ++ i :: m -> i ∉ l ->
  (length l <= length (acquired es))%nat \/ exists m', po_free a' = drop (length (acquired es)) l ++ i :: m'.
Proof.
  intros R E Hi. induction R as [a|a es a1 e a2 R IH St].
  - right. exists m. by rewrite E.
  - rewrite acquired_snoc. destruct (IH E) as [Hle|(m' & Ef)]; [left; destruct e; rewrite ?length_app; lia|].
    destruct St; cbn [po_free] in *; eauto.
    + rewrite length_app. destruct (decide (length l <= length (acquired es))%nat) as [?|Hk]; [left; lia|]. right.
      destruct (drop _ l) as [|x d] eqn:Ed; [apply (f_equal length) in Ed; rewrite length_drop in Ed; cbn in Ed; lia|].
      cbn in Ef. injection Ef as -> ->. exists m'. by rewrite <- drop_drop, Ed.
    + right. eexists. by rewrite Ef, <- app_assoc.
Qed.

(** ** A sample run *)
Definition sample_slots : arenaState :=
  ArenaState 0 secRegion_nil false (seedSlots 2) 0 1 0 32 48 2
    (AllocInfo true true false true true true false false false) false false 0 0.

Lemma sample_fresh : fresh_list 2 sample_slots.
Proof. split; [unfold MaxInt32; lia|reflexivity..]. Qed.

(** Slot 0 is acquired, released while slot 1 is taken, released again by a
    stale handle, and comes back after slot 1 with a new generation. *)
Definition sample_before : list event := [Acquired (0, 1); Retired (0, 1); Stale (0, 1); Observed (0, 1) false].
Definition sample_between : list event := [Acquired (1, 1); Observed (1, 1) true].
Definition sample_events : list event := sample_before ++ Returned 0 :: sample_between ++ [Acquired (0, 3)].

Definition sample_last : system :=
  System (as_set_list [SlotMeta 3 (-1); SlotMeta 1 (-1)] (-1) (-1) 2 sample_slots) [(0, 3); (1, 1); (0, 1)] [].

Ltac next_event :=
  eapply run_cons;
  [first [ apply st_acquire; [cbn; lia|vm_compute; reflexivity]
         | apply st_full; cbn; lia
         | apply st_claim; [repeat first [left | right]|vm_compute; reflexivity]
         | apply st_stale; [repeat first [left | right]|vm_compute; reflexivity]
         | apply (st_push _ _ [] _ [])
         | apply st_check; [repeat first [left | right]|vm_compute; reflexivity] ]|].

Lemma sample_run : run_of arena_step (start_of sample_slots) sample_events sample_last.
Proof. repeat next_event. apply run_nil. Qed.

(** ** Theorems *)

(** C26. Whatever goroutines call [Acquire], [Release] (of any handle, twice
    over or at once) and [IsLive] on a new arena, in whatever order their
    critical sections run, the slot index behaves as a first-in first-out queue
    of free slots and a set of live handles: every observation is one the pool
    makes, a handle passes the liveness check exactly when it is in the set, the
    intrusive list is the queue, and the live counter counts the slots outside
    it. *)
Theorem arena_refines_pool count st es s :
  fresh_list count st -> run_of arena_step (start_of st) es s -> zlen (sy_issued s) < 2 ^ 63 ->
  exists a, run_of pool_step (empty_pool count) es a /\ po_issued a = sy_issued s /\ po_retiring a = sy_retiring s /\
    (forall i g, (i, g) ∈ sy_issued s -> liveHandle (sy_arena s) i g = bool_decide ((i, g) ∈ po_live a)) /\
    list_ok (sy_arena s) (po_free a) /\ as_live (sy_arena s) = count - zlen (po_free a) /\
    po_free a ++ po_retiring a ++ (po_live a).*1 ≡ₚ seqZ 0 count.
Proof.
  intros F R Hn. pose proof (fl_count _ _ F) as Hc. destruct (sim_run _ _ _ _ F R Hn) as (a & Ra & I). exists a.
  split_and!; [done|by apply I|by apply I| |by apply I| |by apply I].
  - intros i g Hi. pose proof (implements_live _ _ _ i g I Hi) as Hl. pose proof (liveHandle_spec (sy_arena s) i g) as Hs.
    destruct (liveHandle _ i g); symmetry; [apply bool_decide_eq_true_2; tauto|apply bool_decide_eq_false_2].
    intros Hin%Hl. by apply Hs in Hin.
  - pose proof (im_livecount _ _ _ I) as Hl. pose proof (f_equal Z.of_nat (Permutation_length (im_all _ _ _ I))) as Hp.
    rewrite !length_app, length_fmap, length_seqZ in Hp. rewrite (im_retiring _ _ _ I) in Hp. unfold zlen in *. lia.
Qed.

(** On the same runs no handle is issued twice and no [Release] of one
    handle wins twice; two handles that pass the liveness check name different
    slots; the slot [Acquire] would hand out next is not one that any handle
    still passes the check for, and its handle is new; the index is never left
    by [Acquire]; [LiveCount] stays within the capacity and reaches it exactly
    when the arena reports full. *)
Theorem arena_handles_unique count st es s :
  fresh_list count st -> run_of arena_step (start_of st) es s -> zlen (sy_issued s) + 1 < 2 ^ 63 ->
  NoDup (sy_issued s) /\ NoDup (retired es) /\
  (forall i g g', (i, g) ∈ sy_issued s -> (i, g') ∈ sy_issued s ->
     liveHandle (sy_arena s) i g = true -> liveHandle (sy_arena s) i g' = true -> g = g') /\
  (0 <= as_freeHead (sy_arena s) -> exists i g st', popFree (sy_arena s) = Some ((i, g), st') /\ 0 <= i < count /\
     (i, g) ∉ sy_issued s /\ forall g', (i, g') ∈ sy_issued s -> liveHandle (sy_arena s) i g' = false) /\
  0 <= as_live (sy_arena s) <= count /\ (as_freeHead (sy_arena s) < 0 <-> as_live (sy_arena s) = count).
Proof.
  intros F R Hn. pose proof (fl_count _ _ F) as Hc. destruct (sim_run _ _ _ _ F R ltac:(lia)) as (a & Ra & I).
  destruct (pool_facts _ _ _ Ra) as (_ & Hni & _ & _ & Hnr & _). rewrite (im_issued _ _ _ I) in Hni.
  pose proof (implements_nodup _ _ _ I) as Hnd. pose proof (im_list _ _ _ I) as Hl.
  assert (as_live (sy_arena s) = count - zlen (po_free a)) as Hlv.
  { pose proof (im_livecount _ _ _ I) as Hlc. pose proof (f_equal Z.of_nat (Permutation_length (im_all _ _ _ I))) as Hp.
    rewrite !length_app, length_fmap, length_seqZ in Hp. rewrite (im_retiring _ _ _ I) in Hp. unfold zlen in *. lia. }
  assert (0 <= as_live (sy_arena s)) as H0 by (rewrite (im_livecount _ _ _ I); pose proof (zlen_nonneg (po_live a)); pose proof (zlen_nonneg (sy_retiring s)); lia).
  pose proof (zlen_nonneg (po_free a)) as H1. split_and!; try done; try lia.
  - intros i g g' _ _ E1%liveHandle_spec E2%liveHandle_spec. congruence.
  - intros Hh. destruct s as [st1 iss ret]. proj_cbn. destruct (po_free a) as [|i r] eqn:Ef.
    { pose proof (lo_head _ _ Hl) as E. cbn in E. lia. }
    destruct (popFree_ok _ _ _ Hl) as (sm & st' & Es & Ep & _). exists i, (uwrap64 (sm_generation sm + 1)), st'.
    
    destruct (sim_acquire count st1 iss ret a _ st' I ltac:(rewrite zlen_cons; lia) Hh Ep) as (a' & Sa & I').
    split; [done|]. pose proof (lo_range _ _ Hl) as Hr. apply Forall_cons in Hr as [Hr _]. pose proof (im_count _ _ _ I) as Hct.
    pose proof (im_issued _ _ _ I) as Ei. proj_cbn. split; [lia|]. split; [by inversion Sa; subst|].
    intros g' Hg'. pose proof (implements_live _ _ _ i g' I Hg') as Hlive. apply not_true_is_false. intros E%liveHandle_spec.
    apply Hlive in E. rewrite <- app_comm_cons in Hnd. apply NoDup_cons in Hnd as [Hn' _]. apply Hn'. rewrite app_assoc.
    apply elem_of_app. right. apply list_elem_of_fmap. by exists (i, g').
  - pose proof (lo_head _ _ Hl) as E. pose proof (lo_range _ _ Hl) as Hr. destruct (po_free a) as [|i r]; cbn in E; [rewrite Hlv; split; intros; [change (zlen []) with 0; lia|lia]|].
    apply Forall_cons in Hr as [Hr _]. rewrite zlen_cons in *. pose proof (zlen_nonneg r). lia.
Qed.

(** A released slot is handed out again only after every slot that was
    free when it came back: between the push of slot [i] and the next time
    [Acquire] returns [i], at least as many [Acquire]s succeed as there were
    free slots just before the push. *)
Theorem arena_reuse_is_fifo count st es1 i es2 g s :
  fresh_list count st -> run_of arena_step (start_of st) (es1 ++ Returned i :: es2 ++ [Acquired (i, g)]) s ->
  zlen (sy_issued s) < 2 ^ 63 -> free_after count es1 <= zlen (acquired es2).
Proof.
  intros F R Hn. pose proof (fl_count _ _ F) as Hc. destruct (sim_run _ _ _ _ F R Hn) as (a & Ra & I).
  apply run_app in Ra as (a1 & R1 & R2). rewrite app_comm_cons in R2. apply run_snoc_inv in R2 as (a3 & R2 & S3).
  change (Returned i :: es2) with ([Returned i] ++ es2) in R2. apply run_app in R2 as (a2 & S2 & R2). apply run_one in S2.
  destruct (pool_facts _ _ _ R1) as (_ & _ & _ & _ & _ & _ & Hf). specialize (Hf ltac:(lia)). rewrite <- Hf.
  inversion S2 as [| | | |f lv ret1 j ret2 iss Hj E1 E2 E3|]; subst. cbn [po_free] in *.
  destruct (pool_queue _ _ _ f i [] R2 eq_refl Hj) as [Hle|(m' & E)]; [unfold zlen; lia|].
  destruct (decide (length f <= length (acquired es2))%nat) as [?|Hk]; [unfold zlen; lia|]. exfalso.
  inversion S3; subst. cbn in E. destruct (drop _ f) as [|x d] eqn:Ed.
  { apply (f_equal length) in Ed. rewrite length_drop in Ed. cbn in Ed. lia. }
  injection E as -> _. apply Hj. 
  assert (x ∈ drop (length (acquired es2)) f) as Hx by (rewrite Ed; left). by apply (subseteq_drop _ _ _ Hx).
Qed.

Example arena_refines_pool_witness :
  exists a, run_of pool_step (empty_pool 2) sample_events a /\ po_issued a = [(0, 3); (1, 1); (0, 1)] /\
    (0, 3) ∈ po_live a /\ (0, 1) ∉ po_live a.
Proof.
  destruct (arena_refines_pool 2 sample_slots sample_events sample_last sample_fresh sample_run ltac:(reflexivity))
    as (a & R & Ei & _ & Hl & _). exists a. split; [exact R|]. split; [exact Ei|].
  pose proof (Hl 0 3 ltac:(left)) as H1. pose proof (Hl 0 1 ltac:(right; right; left)) as H2.
  split; [exact (bool_decide_eq_true_1 _ (eq_sym H1))|exact (bool_decide_eq_false_1 _ (eq_sym H2))].
Defined.

Example arena_handles_unique_witness :
  NoDup [(0, 3); (1, 1); (0, 1)] /\ 0 <= as_live (sy_arena sample_last) <= 2.
Proof.
  pose proof (arena_handles_unique 2 sample_slots sample_events sample_last sample_fresh sample_run ltac:(reflexivity))
    as (Hn & _ & _ & _ & Hl & _). split; [exact Hn|exact Hl].
Defined.

Example arena_reuse_is_fifo_witness : free_after 2 sample_before = 1 /\ 1 <= zlen (acquired sample_between).
Proof.
  split; [reflexivity|].
  exact (arena_reuse_is_fifo 2 sample_slots sample_before 0 sample_between 3 sample_last sample_fresh sample_run ltac:(reflexivity)).
Defined.
