(* ===== verification/SecureArena.v ===== *)
(** * Secure arenas (securearena.go)

    One definition per method of [SecureArena] (Module Arena) and [ArenaSlot]
    (Module Slot). The [alloc] mutex is held for exactly the critical sections
    of [ArenaList], which every caller sees as one step, so it has no state
    here. *)
From S2P Require Import Prelude Errors Canary World Memory Frame Sample Quarantine Janitor Process SealAuth SecureBuffer ArenaList.

Inductive SecureArena : Type := NilArena | ZeroArena | ArenaRef (p : Z).
Inductive ArenaSlot : Type := NilSlot | ZeroSlot | SlotRef (p idx generation : Z).

Definition ar_get (p : Z) : GM arenaState := fun w =>
  match w_arenas w !! p with Some st => Ret st w | None => Panic w end.
Definition ar_set (p : Z) (f : arenaState -> arenaState) : GM unit := modify (set_arenas (alter f p)).

(** Assignments to an arena's fields. *)
Definition as_set_destroyed (st : arenaState) : arenaState :=
  ArenaState (as_mu st) (as_region st) (as_readOnly st) (as_slots st) (as_freeHead st) (as_freeTail st) (as_live st)
    (as_slotSize st) (as_stride st) (as_count st) (as_backing st) true (as_released st) (as_wiped st) (as_janitorKey st).
Definition as_set_released (st : arenaState) : arenaState :=
  ArenaState (as_mu st) secRegion_nil (as_readOnly st) (as_slots st) (as_freeHead st) (as_freeTail st) (as_live st)
    (as_slotSize st) (as_stride st) (as_count st) (as_backing st) (as_destroyed st) true (as_wiped st) (as_janitorKey st).
Definition as_set_readOnly (b : bool) (st : arenaState) : arenaState :=
  ArenaState (as_mu st) (as_region st) b (as_slots st) (as_freeHead st) (as_freeTail st) (as_live st)
    (as_slotSize st) (as_stride st) (as_count st) (as_backing st) (as_destroyed st) (as_released st) (as_wiped st)
    (as_janitorKey st).

Module Arena.
Section arena.
Context `{Kernel}.

(** [canary.arm(region.inner)]: an arena has a strip, so the pattern is drawn. *)
Definition armRegion (region : secRegion) (c : canaryLayout) : GM (option gerr) :=
  err ← canaryInit;
  cn ← gets w_canary;
  bs ← mem_load (rg_base region);
  let r := arm err (cn_pattern cn) c bs in
  mem_store (rg_base region) r.2;;
  mret r.1.

(** The argument checks of [NewArena], in its order. *)
Definition checkArgs (slotSize count : Z) (c : cfg) : option gerr :=
  if closedAtRestOpt c then Some (Msg "secmem.NewArena: WithClosedAtRest applies to SecureBuffer only")
  else if (slotSize <=? 0) then Some (Msg "secmem.NewArena: slotSize must be > 0")
  else if (count <=? 0) then Some (Msg "secmem.NewArena: count must be > 0")
  else if (MaxInt32 <? count) then Some (Msg "secmem.NewArena: count too large")
  else if (wrap64 (Z.quot MaxInt count - canaryLen) <? slotSize)
       then Some (Msg "secmem.NewArena: (slotSize+canary)*count overflows int")
  else errorf "secmem.NewArena" <$> gateInsecure platformHasSecureMemory c.

Definition NewArena (slotSize count : Z) (opts : list (option Option)) : GM (gerr + SecureArena) :=
  let c := applyOptions opts in
  match checkArgs slotSize count c with
  | Some e => mret (inl e)
  | None =>
      let stride := wrap64 (slotSize + canaryLen) in
      let totalBytes := wrap64 (stride * count) in
      r ← cfg_alloc c totalBytes;
      match r with
      | inl e => mret (inl (errorf "secmem.NewArena" e))
      | inr (region, _, info) =>
          let canary := arenaCanary stride slotSize count (rg_inner region) in
          err ← armRegion region canary;
          match err with
          | Some e => _ ← freeSecretMem region; mret (inl (errorf "secmem.NewArena" e))
          | None =>
              mu ← new_lock;
              wiped ← new_flag;
              p ← gets w_next;
              rk ← register region canary mu None (Some wiped);
              match rk with
              | inl e => wipeInner region;; _ ← freeSecretMem region; mret (inl (errorf "secmem.NewArena" e))
              | inr key =>
                  modify (fun w => set_arenas (insert p
                    (ArenaState mu region false (seedSlots count) 0 (wrap32 (count - 1)) 0 slotSize stride count info
                       false false wiped key)) (set_next (p + 1) w));;
                  mret (inr (ArenaRef p))
              end
          end
      end
  end.

Definition Destroy (a : SecureArena) : GM (option gerr) :=
  match a with
  | NilArena | ZeroArena => mret None
  | ArenaRef p =>
      ar_set p as_set_destroyed;;
      st ← ar_get p;
      lk_lock (as_mu st);;
      defer (
        st ← ar_get p;
        if (rg_inner (as_region st) =? 0) then mret None
        else
        err ← release (as_janitorKey st) true;
        ar_set p as_set_released;;
        mret (errorf "secmem.SecureArena.Destroy" <$> err)) (lk_unlock (as_mu st))
  end.

Definition IsDestroyed (a : SecureArena) : GM bool :=
  match a with
  | NilArena | ZeroArena => mret true
  | ArenaRef p => st ← ar_get p; mret (as_released st)
  end.

Definition Acquire (a : SecureArena) : GM (gerr + ArenaSlot) :=
  match a with
  | NilArena | ZeroArena => mret (inl (Sent ErrDestroyed))
  | ArenaRef p =>
      st ← ar_get p;
      if as_destroyed st then mret (inl (Sent ErrDestroyed))
      else
      wiped ← flag_load (as_wiped st);
      if (wiped : bool) then mret (inl (Sent ErrWiped))
      else if (as_freeHead st <? 0) then mret (inl (Sent ErrArenaFull))
      else match popFree st with
           | None => panic
           | Some ((i, gen), st') => ar_set p (fun _ => st');; mret (inr (SlotRef p i gen))
           end
  end.

Definition field (f : arenaState -> Z) (a : SecureArena) : GM Z :=
  match a with
  | NilArena | ZeroArena => mret 0
  | ArenaRef p => st ← ar_get p; mret (f st)
  end.

Definition LiveCount : SecureArena -> GM Z := field as_live.
Definition Cap : SecureArena -> GM Z := field as_count.
Definition SlotSize : SecureArena -> GM Z := field as_slotSize.

(** [ReadOnly] and [ReadWrite] have one body. *)
Definition setMode (name : string) (prot : Z) (ro : bool) (a : SecureArena) : GM (option gerr) :=
  match a with
  | NilArena => mret (Some (Msg (name ++ ": nil receiver")))
  | ZeroArena => mret (Some (errorf name (Sent ErrDestroyed)))
  | ArenaRef p =>
      st ← ar_get p;
      lk_lock (as_mu st);;
      defer (
        st ← ar_get p;
        if (rg_inner (as_region st) =? 0) then mret (Some (errorf name (Sent ErrDestroyed)))
        else
        wiped ← flag_load (as_wiped st);
        if (wiped : bool) then mret (Some (errorf name (Sent ErrWiped)))
        else
        err ← mprotectSecretMem (as_region st) prot;
        match err with
        | Some e => mret (Some (errorf name e))
        | None => ar_set p (as_set_readOnly ro);; mret None
        end) (lk_unlock (as_mu st))
  end.

Definition ReadOnly : SecureArena -> GM (option gerr) := setMode "secmem.SecureArena.ReadOnly" PROT_READ true.
Definition ReadWrite : SecureArena -> GM (option gerr) := setMode "secmem.SecureArena.ReadWrite" PROT_RW false.
End arena.
End Arena.

Module Slot.
Section slot.
Context `{Kernel}.

(** A callback's argument: [region.inner[lo:hi:hi]]. *)
Definition callback (A : Type) : Type := secRegion -> Z -> Z -> GM A.

(** Slot [idx]'s byte range. *)
Definition start_of (st : arenaState) (idx : Z) : Z := wrap64 (idx * as_stride st).
Definition end_of (st : arenaState) (idx : Z) : Z := wrap64 (start_of st idx + as_slotSize st).

(** The slice expression's bounds check. *)
Definition slice_ok (lo hi len : Z) : bool := (0 <=? lo) && (lo <=? hi) && (hi <=? len).

Definition WithBytesErr (s : ArenaSlot) (fn : option (callback (option gerr))) : GM (option gerr) :=
  match fn with
  | None => mret (Some (Msg "secmem.ArenaSlot.WithBytesErr: nil fn"))
  | Some fn =>
      match s with
      | NilSlot | ZeroSlot => mret (Some (Sent ErrSlotReleased))
      | SlotRef p idx gen =>
          st ← ar_get p;
          if as_destroyed st then mret (Some (Sent ErrDestroyed))
          else
          lk_rLock (as_mu st);;
          defer (
            st ← ar_get p;
            if (rg_inner (as_region st) =? 0) then mret (Some (Sent ErrDestroyed))
            else
            wiped ← flag_load (as_wiped st);
            if (wiped : bool) then mret (Some (Sent ErrWiped))
            else match slot_at st idx with
                 | None => panic
                 | Some sm =>
                     if negb (sm_generation sm =? gen) then mret (Some (Sent ErrSlotReleased))
                     else
                     let start := start_of st idx in
                     let end_ := end_of st idx in
                     if slice_ok start end_ (rg_inner (as_region st)) then fn (as_region st) start end_ else panic
                 end) (lk_rUnlock (as_mu st))
      end
  end.

Definition WithBytes (s : ArenaSlot) (fn : option (callback unit)) : GM (option gerr) :=
  match fn with
  | None => mret (Some (Msg "secmem.ArenaSlot.WithBytes: nil fn"))
  | Some fn => WithBytesErr s (Some (fun r lo hi => fn r lo hi;; mret None))
  end.

(** [canaryIntact(strip)] and [fillCanary(strip)] on a strip of the slab. *)
Definition stripIntact (region : secRegion) (lo hi : Z) : GM bool :=
  if (hi <=? lo) then mret true
  else
  err ← canaryInit;
  match err with
  | Some _ => mret false
  | None =>
      cn ← gets w_canary;
      bs ← mem_load (rg_base region);
      mret (canaryIntact None (cn_pattern cn) (lsub lo hi bs))
  end.

Definition rearmStrip (region : secRegion) (lo hi : Z) : GM (option gerr) :=
  err ← canaryInit;
  match err with
  | Some e => mret (Some e)
  | None =>
      cn ← gets w_canary;
      mem_copy_in (rg_base region) lo (patternBytes (cn_pattern cn) (Z.to_nat (hi - lo)));;
      mret None
  end.

(** The part of [Release] on the slot's bytes: was its strip overwritten? *)
Definition scrub (st : arenaState) (idx : Z) : GM bool :=
  let start := start_of st idx in
  let end_ := end_of st idx in
  let strip_end := wrap64 (start + as_stride st) in
  wiped ← flag_load (as_wiped st);
  violated ← (if negb wiped then
                if slice_ok end_ strip_end (rg_inner (as_region st)) then
                  ok ← stripIntact (as_region st) end_ strip_end;
                  if negb ok then _ ← rearmStrip (as_region st) end_ strip_end; mret true
                  else mret false
                else panic
              else mret false);
  if slice_ok start end_ (rg_inner (as_region st)) then
    secureWipeSlice (rg_base (as_region st)) start end_;; mret violated
  else panic.

Definition Release (s : ArenaSlot) : GM (option gerr) :=
  match s with
  | NilSlot | ZeroSlot => mret None
  | SlotRef p idx gen =>
      st ← ar_get p;
      match slot_at st idx with
      | None => panic
      | Some sm =>
          if negb (sm_generation sm =? gen) then mret None
          else
          lk_rLock (as_mu st);;
          st ← ar_get p;
          let live := negb (rg_inner (as_region st) =? 0) in
          refused ← (if live && as_readOnly st then
                       wiped ← flag_load (as_wiped st); mret (negb wiped)
                     else mret false);
          if (refused : bool) then
            lk_rUnlock (as_mu st);; mret (Some (errorf "secmem.ArenaSlot.Release" (Sent ErrReadOnly)))
          else
          match claimSlot idx gen st with
          | None => lk_rUnlock (as_mu st);; mret None
          | Some st' =>
              ar_set p (fun _ => st');;
              violated ← (if live then scrub st' idx else mret false);
              lk_rUnlock (as_mu st);;
              ar_set p (pushFree idx);;
              mret (if (violated : bool) then Some (errorf "secmem.ArenaSlot.Release" (Sent ErrCanaryViolation)) else None)
          end
      end
  end.

Definition Index (s : ArenaSlot) : Z :=
  match s with NilSlot | ZeroSlot => -1 | SlotRef _ idx _ => idx end.

Definition IsLive (s : ArenaSlot) : GM bool :=
  match s with
  | NilSlot | ZeroSlot => mret false
  | SlotRef p idx gen =>
      st ← ar_get p;
      match slot_at st idx with
      | None => panic
      | Some sm => mret (sm_generation sm =? gen)
      end
  end.
End slot.
End Slot.
