(* ===== verification/ArenaSpec.v ===== *)
(** * What a secure arena keeps true

    The invariant of an arena between operations: its sizes do not overflow,
    its slab is mapped and registered, its free list is in order and every
    free slot holds zeros. *)
From S2P Require Import Prelude Errors Canary World Memory Frame Sample Quarantine Janitor Process SealAuth SecureBuffer BufferSpec ArenaList SecureArena.

(** The sizes a constructor lets through. *)
Record shape (st : arenaState) : Prop := Shape {
  sp_slot : 0 < as_slotSize st;
  sp_count : 0 < as_count st <= MaxInt32;
  sp_stride : as_stride st = as_slotSize st + canaryLen;
  sp_total : as_count st * as_stride st <= MaxInt;
  sp_slots : zlen (as_slots st) = as_count st
}.

(** What no operation changes. *)
Record same_arena (s t : arenaState) : Prop := SameArena {
  sm_mu : as_mu t = as_mu s;
  sm_size : as_slotSize t = as_slotSize s;
  sm_stride : as_stride t = as_stride s;
  sm_count : as_count t = as_count s;
  sm_wiped : as_wiped t = as_wiped s;
  sm_key : as_janitorKey t = as_janitorKey s;
  sm_slots : zlen (as_slots t) = zlen (as_slots s)
}.

Lemma shape_same s t : same_arena s t -> shape s -> shape t.
Proof. intros [] []. constructor; congruence. Qed.

(** Slot [i]'s range of the slab: [stride] bytes from [slot_lo], the last
    [canaryLen] of them its strip. *)
Definition slot_lo (st : arenaState) (i : Z) : Z := i * as_stride st.
Definition slot_hi (st : arenaState) (i : Z) : Z := slot_lo st i + as_slotSize st.
Definition slot_bytes (st : arenaState) (m : mapping) (i : Z) : list Z :=
  lsub (slot_lo st i) (slot_hi st i) (mp_bytes m).
Definition strip_bytes (st : arenaState) (m : mapping) (i : Z) : list Z :=
  lsub (slot_hi st i) (slot_lo st (i + 1)) (mp_bytes m).

(** No step of the code's index arithmetic overflows. *)
Lemma slot_range st i :
  shape st -> 0 <= i < as_count st ->
  Slot.start_of st i = slot_lo st i /\ Slot.end_of st i = slot_hi st i /\
  wrap64 (Slot.start_of st i + as_stride st) = slot_lo st (i + 1) /\
  0 <= slot_lo st i /\ slot_lo st i < slot_hi st i /\ slot_hi st i + canaryLen = slot_lo st (i + 1) /\
  slot_lo st (i + 1) <= as_count st * as_stride st.
Proof.
  intros [H1 H2 H3 H4 H5] Hi. unfold slot_hi, slot_lo, Slot.end_of, Slot.start_of, canaryLen in *.
  assert (0 <= i * as_stride st) by nia. assert ((i + 1) * as_stride st <= as_count st * as_stride st) by nia.
  assert (i * as_stride st + as_stride st = (i + 1) * as_stride st) as Hs by ring.
  rewrite (wrap64_id (i * as_stride st)) by (unfold MinInt; lia).
  rewrite !wrap64_id by (unfold MinInt; lia). repeat split; lia.
Qed.

Lemma slot_disjoint st i j : shape st -> i < j -> slot_lo st (i + 1) <= slot_lo st j.
Proof. intros [H1 H2 H3 H4 H5] Hij. unfold slot_lo, canaryLen in *. nia. Qed.

Section spec.
Context `{K : Kernel} {KOk : KernelOk}.
Implicit Types (w : world) (st : arenaState) (m : mapping) (l : list Z).

(** A live slab, mapped as [m]; [wd]: the emergency wipe has been there. *)
Record slab w st l m (wd : bool) : Prop := Slab {
  sl_map : mapped w (as_region st) m;
  sl_fit : as_count st * as_stride st <= rg_inner (as_region st);
  sl_prot : mp_prot m = if negb wd && as_readOnly st then PROT_READ else PROT_RW;
  sl_reg : exists jr, lookup_any w (as_janitorKey st) = Some jr /\ jr_region jr = as_region st /\
             jr_mu jr = as_mu st /\ jr_wiped jr = Some (as_wiped st) /\ jr_sealCipher jr = None /\
             (wd = false -> jr_canary jr = arenaCanary (as_stride st) (as_slotSize st) (as_count st) (rg_inner (as_region st)));
  sl_canary : cn_done (w_canary w) = Some None;
  sl_zero : Forall (fun i => slot_bytes st m i = zeros (as_slotSize st)) l
}.

(** The invariant of the arena at [p], with free list [l]. *)
Record arena_ok w (p : Z) st l (wd : bool) : Prop := ArenaOk {
  ao_st : w_arenas w !! p = Some st;
  ao_lock : lock_free w (as_mu st);
  ao_ring : as_mu st <> sk_lock (w_keys w);
  ao_wiped : w_flags w !! as_wiped st = Some wd;
  ao_shape : shape st;
  ao_list : list_ok st l;
  ao_gens : forall i g, gen_at st i = Some g -> 0 <= g < 2 ^ 64;
  ao_idle : forall i, i ∈ l -> exists g, gen_at st i = Some g /\ Z.odd g = false;
  ao_dead : as_destroyed st = (rg_inner (as_region st) =? 0) /\ as_released st = (rg_inner (as_region st) =? 0);
  ao_nil : rg_inner (as_region st) = 0 -> as_region st = secRegion_nil;
  ao_slab : rg_inner (as_region st) <> 0 -> exists m, slab w st l m wd
}.

Definition arena_fp (p : Z) st : footprint := FP {[rg_base (as_region st)]} ∅ ∅ ∅ ∅ {[p]}.

Lemma world_ok_arena f p w : world_ok w -> world_ok (set_arenas (alter f p) w).
Proof.
  intros [W1 W2 W3 W4 W5 W6 W7 W8 W9 W10]. constructor; cbn; try done.
  - by destruct W2.
  - eapply jan_ok_keep; [done|done|..|done|done]; cbn.
    + intros k' jr' Hk'. destruct (ro_map _ _ (jk_res _ W3 _ _ Hk')) as (m' & []). exists m'. by constructor.
    + intros k' jr' Hk'. by apply (ro_lock _ _ (jk_res _ W3 _ _ Hk')).
  - eapply ring_ok_keep; [done|done|by intros ?? -> ?|by intros ???|done].
  - intros q. rewrite lookup_alter_is_Some. apply W8.
Qed.

Lemma frame_arena F p f w : p ∈ fp_arenas F -> frame F w (set_arenas (alter f p) w).
Proof.
  intros Hp. constructor; try done. cbn. intros q st Hq Hn. rewrite lookup_alter_ne; [done|]. intros ->. done.
Qed.

(** The slab is nobody else's. *)
Lemma slab_apart w st l m wd :
  world_ok w -> slab w st l m wd -> as_mu st <> sk_lock (w_keys w) -> sk_lock (w_keys w) <> 0 ->
  as_janitorKey st <> sk_key (w_keys w) /\ rg_base (sk_region (w_keys w)) <> rg_base (as_region st).
Proof.
  intros W [_ _ _ (jr & Hk & Er & Em & _) _ _] Hr Hne. destruct (wk_ring _ W) as [?|(mk & Hl)]; [done|].
  destruct (ring_live_jr w mk Hl) as (jr' & Hk' & Er' & Em' & _).
  assert (as_janitorKey st <> sk_key (w_keys w)) as Hkk by (intros E; rewrite E in Hk; congruence).
  split; [done|]. destruct (jk_inj _ (wk_jan _ W) _ _ _ _ Hk Hk' Hkk) as (? & _). congruence.
Qed.

Lemma wp_ar_get p st (Q : arenaState -> world -> Prop) R w :
  w_arenas w !! p = Some st -> Q st w -> wp (ar_get p) Q R w.
Proof. intros E HQ. unfold wp, ar_get. by rewrite E. Qed.
Lemma wp_ar_set p f (Q : unit -> world -> Prop) R w :
  Q tt (set_arenas (alter f p) w) -> wp (ar_set p f) Q R w.
Proof. done. Qed.

(** A change of the arena's record that keeps its slab. *)
Lemma arena_ok_set w p st l wd f l' :
  arena_ok w p st l wd -> same_arena st (f st) -> as_region (f st) = as_region st -> as_readOnly (f st) = as_readOnly st ->
  as_destroyed (f st) = as_destroyed st -> as_released (f st) = as_released st -> list_ok (f st) l' ->
  (forall i g, gen_at (f st) i = Some g -> 0 <= g < 2 ^ 64) ->
  (forall i, i ∈ l' -> exists g, gen_at (f st) i = Some g /\ Z.odd g = false) ->
  (forall m, slab w st l m wd -> Forall (fun i => slot_bytes st m i = zeros (as_slotSize st)) l') ->
  arena_ok (set_arenas (alter f p) w) p (f st) l' wd.
Proof.
  intros [A1 A2 A3 A4 A5 A6 Ag Ai A7 A8 A9] S Er Eo Ed Erl Hl Hg Hi Hz. pose proof S as [S1 S2 S3 S4 S5 S6 S7].
  constructor; rewrite ?Er, ?S1, ?S5, ?Ed, ?Erl; try done.
  - cbn. by rewrite lookup_alter_eq, A1.
  - by eapply shape_same.
  - intros Hne. destruct (A9 Hne) as (m & Sl). exists m. pose proof (Hz m Sl) as Hz'. destruct Sl as [B1 B2 B3 B4 B5 B6].
    constructor; rewrite ?Er, ?Eo, ?S1, ?S2, ?S3, ?S4, ?S5, ?S6; try done; [by destruct B1|].
    eapply Forall_impl; [exact Hz'|]. intros i. unfold slot_bytes, slot_hi, slot_lo. by rewrite S2, S3.
Qed.

(** A change of the slab's bytes or protection that keeps the free slots. *)
Lemma arena_ok_remap w p st l wd m m' :
  world_ok w -> arena_ok w p st l wd -> slab w st l m wd ->
  zlen (mp_bytes m') = zlen (mp_bytes m) -> mp_held m' = mp_held m -> mp_outer m' = mp_outer m -> mp_prot m' = mp_prot m ->
  Forall (fun i => slot_bytes st m' i = zeros (as_slotSize st)) l ->
  world_ok (set_mem (insert (rg_base (as_region st)) m') w) /\
  arena_ok (set_mem (insert (rg_base (as_region st)) m') w) p st l wd /\
  slab (set_mem (insert (rg_base (as_region st)) m') w) st l m' wd.
Proof.
  intros W A Sl El Eh Eo Ep Hz.
  assert (slab (set_mem (insert (rg_base (as_region st)) m') w) st l m' wd) as Sl'.
  { destruct Sl as [B1 B2 B3 B4 B5 B6]. constructor; try done; [|by rewrite Ep].
    eapply mapped_with; [exact B1|done..|]. cbn. apply lookup_insert_eq. }
  split; [|split; [|done]].
  - eapply world_ok_remap; [done|apply Sl|done..].
  - destruct A as [A1 A2 A3 A4 A5 A6 Ag Ai A7 A8 A9]. constructor; try done. intros _. by exists m'.
Qed.

Lemma arena_ok_tick w p st l wd : arena_ok w p st l wd -> arena_ok (tick w) p st l wd.
Proof.
  intros [A1 A2 A3 A4 A5 A6 Ag Ai A7 A8 A9]. constructor; try done. intros Hne. destruct (A9 Hne) as (m & [B1 B2 B3 B4 B5 B6]).
  exists m. constructor; try done. by destruct B1.
Qed.
End spec.
