(* ===== verification/ArenaOps.v ===== *)
(** * The arena's operations, exactly

    What [Acquire], the borrow of a slot, [Release] and the mode changes
    return and do, on every branch. *)
From S2P Require Import Prelude Errors Canary World Memory Frame Sample Quarantine Janitor Process SealAuth SecureBuffer BufferSpec BufferBorrow BufferNew ArenaList SecureArena ArenaSpec.

Section ops.
Context `{K : Kernel} {KOk : KernelOk}.
Implicit Types (w : world) (st : arenaState) (m : mapping) (l : list Z).

Lemma uwrap_odd g : 0 <= g < 2 ^ 64 -> Z.odd g = false -> uwrap64 (g + 1) = g + 1 /\ Z.odd (g + 1) = true /\ g + 1 < 2 ^ 64.
Proof.
  intros Hg Ho. assert (g <> 2 ^ 64 - 1) as Hne by (intros ->; done).
  split; [apply uwrap64_id; lia|]. split; [by rewrite Z.add_1_r, Z.odd_succ, <- Z.negb_odd, Ho|lia].
Qed.

Lemma uwrap_even g : 0 <= g < 2 ^ 64 -> Z.odd g = true -> Z.odd (uwrap64 (g + 1)) = false /\ 0 <= uwrap64 (g + 1) < 2 ^ 64.
Proof.
  intros Hg Ho. split; [|apply Z.mod_pos_bound; lia]. destruct (decide (g = 2 ^ 64 - 1)) as [->|Hne]; [done|].
  rewrite uwrap64_id by lia. by rewrite Z.add_1_r, Z.odd_succ, <- Z.negb_odd, Ho.
Qed.

Lemma popFree_same st h st' : popFree st = Some (h, st') ->
  same_arena st st' /\ as_region st' = as_region st /\ as_readOnly st' = as_readOnly st /\
  as_destroyed st' = as_destroyed st /\ as_released st' = as_released st.
Proof.
  unfold popFree. destruct (slot_at st _) as [sm|]; cbn; [|done]. intros [= <- <-]. split; [|done].
  constructor; try done. cbn. unfold zlen. by rewrite length_insert.
Qed.

Lemma claimSlot_same st i g st' : claimSlot i g st = Some st' ->
  same_arena st st' /\ as_region st' = as_region st /\ as_readOnly st' = as_readOnly st /\
  as_destroyed st' = as_destroyed st /\ as_released st' = as_released st.
Proof.
  unfold claimSlot. destruct (slot_at st _) as [sm|]; cbn; [|done]. destruct (_ =? _); [|done]. intros [= <-]. split; [|done].
  constructor; try done. cbn. unfold zlen. by rewrite length_insert.
Qed.

Lemma pushFree_same st i :
  same_arena st (pushFree i st) /\ as_region (pushFree i st) = as_region st /\ as_readOnly (pushFree i st) = as_readOnly st /\
  as_destroyed (pushFree i st) = as_destroyed st /\ as_released (pushFree i st) = as_released st.
Proof.
  unfold pushFree. destruct (0 <=? _); (split; [|done]); constructor; try done; cbn; by rewrite !zlen_set_next_of.
Qed.

Lemma same_arena_trans s t u : same_arena s t -> same_arena t u -> same_arena s u.
Proof. intros [] []. constructor; congruence. Qed.

(** ** Acquire *)

Definition acquire_refusal st l (wd : bool) : option sentinel :=
  if as_destroyed st then Some ErrDestroyed
  else if wd then Some ErrWiped
  else match l with [] => Some ErrArenaFull | _ => None end.

(** Slot [i] has been handed out as [SlotRef p i g], zeroed. *)
Record acquired_as w p st (i : Z) (r : list Z) (s : ArenaSlot) (w' : world) : Prop := AcquiredAs {
  aq_handle : exists g st', s = SlotRef p i g /\ Z.odd g = true /\ liveHandle st' i g = true /\
    w' = set_arenas (alter (fun _ => st') p) w /\ arena_ok w' p st' r false /\ as_live st' = as_live st + 1;
  aq_zero : exists m, slab w st (i :: r) m false /\ slot_bytes st m i = zeros (as_slotSize st);
  aq_ok : world_ok w';
  aq_frame : frame (FP ∅ ∅ ∅ ∅ ∅ {[p]}) w w'
}.

Lemma returns_Acquire w p st l wd :
  world_ok w -> arena_ok w p st l wd ->
  returns (Arena.Acquire (ArenaRef p)) w (fun r w' =>
    match acquire_refusal st l wd with
    | Some s => r = inl (Sent s) /\ w' = w
    | None => exists i r' s, l = i :: r' /\ r = inr s /\ acquired_as w p st i r' s w'
    end).
Proof.
  intros W A. pose proof A as [A1 A2 A3 A4 A5 A6 Ag Ai [A7 A7'] A8 A9]. unfold Arena.Acquire, returns, acquire_refusal.
  apply wp_bind. eapply wp_ar_get; [done|]. destruct (as_destroyed st) eqn:Ed; [by apply wp_ret|].
  apply wp_bind. eapply wp_flag_load; [done|]. destruct wd; [by apply wp_ret|].
  destruct l as [|i r].
  { rewrite (lo_head _ _ A6). cbn. by apply wp_ret. }
  pose proof (list_ok_nonneg _ _ A6) as Hpos. apply Forall_cons in Hpos as [Hi0 _].
  destruct (as_freeHead st <? 0) eqn:Eh; [rewrite (lo_head _ _ A6) in Eh; cbn in Eh; lia|].
  destruct (popFree_ok _ _ _ A6) as (sm & st' & Es & Ep & Hl' & Es' & Elv). rewrite Ep.
  apply wp_bind, wp_ar_set, wp_ret. destruct (popFree_same _ _ _ Ep) as (S & Er & Eo & Ed' & Erl).
  destruct (Ai i ltac:(left)) as (g & Eg & Ho). assert (sm_generation sm = g) as Esm.
  { unfold gen_at in Eg. rewrite Es in Eg. by injection Eg. }
  rewrite Esm in *. destruct (uwrap_odd g (Ag _ _ Eg) Ho) as (Eu & Ho1 & Hlt). rewrite Eu in *.
  pose proof (gen_at_insert st st' i _ (gen_at_range _ _ _ Eg) Es') as Hga. cbn [sm_generation] in Hga.
  pose proof (lo_nodup _ _ A6) as Hnd. apply NoDup_cons in Hnd as [Hni Hnd].
  assert (rg_inner (as_region st) <> 0) as Hne by (intros E; rewrite E in A7; done).
  destruct (A9 Hne) as (m & Sl). pose proof (sl_zero _ _ _ _ _ Sl) as Hz. apply Forall_cons in Hz as [Hz0 Hz].
  exists i, r, (SlotRef p i (g + 1)). split; [done|]. split; [done|]. constructor.
  - exists (g + 1), st'. split; [done|]. split; [done|]. split; [apply liveHandle_spec; by rewrite Hga, decide_True by done|].
    split; [done|]. split; [|done]. apply (arena_ok_set w p st (i :: r) false (fun _ => st') r); try done.
    + intros j gj. rewrite Hga. case_decide; [intros [= <-]; pose proof (Ag _ _ Eg); lia|apply Ag].
    + intros j Hj. rewrite Hga. case_decide; [by subst|]. apply Ai. by right.
    + intros m' Sl'. pose proof (sl_zero _ _ _ _ _ Sl') as Hz'. by apply Forall_cons in Hz' as [_ ?].
  - by exists m.
  - by apply world_ok_arena.
  - apply frame_arena. cbn. set_solver.
Qed.
(** ** Borrowing a slot *)

(** The slab's mapping after bytes [b] at offset [lo]. *)
Definition with_slot (lo : Z) (b : list Z) m : mapping := with_bytes (lset lo b (mp_bytes m)) m.

Lemma with_slot_slots w st l m wd i b :
  slab w st l m wd -> shape st -> 0 <= i < as_count st -> zlen b = as_slotSize st ->
  let m' := with_slot (slot_lo st i) b m in
  zlen (mp_bytes m') = zlen (mp_bytes m) /\ slot_bytes st m' i = b /\
  (forall j, 0 <= j < as_count st -> j <> i -> slot_bytes st m' j = slot_bytes st m j) /\
  (forall j, 0 <= j < as_count st -> strip_bytes st m' j = strip_bytes st m j).
Proof.
  intros Sl Sh Hi Hb m'. pose proof (md_len _ _ _ (sl_map _ _ _ _ _ Sl)) as Hlen. pose proof (sl_fit _ _ _ _ _ Sl) as Hfit.
  destruct (slot_range st i Sh Hi) as (_ & _ & _ & H1 & H2 & H3 & H4). unfold canaryLen in *.
  assert (slot_lo st i + zlen b <= zlen (mp_bytes m)) as Hle by (unfold slot_hi in *; lia).
  split; [by apply zlen_lset|]. split; [|split].
  - unfold slot_bytes, slot_hi, m'. cbn. rewrite <- Hb. by apply lsub_lset_same.
  - intros j Hj Hne. destruct (slot_range st j Sh Hj) as (_ & _ & _ & J1 & J2 & J3 & J4). unfold slot_bytes, m'. cbn. unfold canaryLen in *.
    apply lsub_lset_disj; try lia.
    destruct (decide (i < j)) as [Hlt|Hge]; [pose proof (slot_disjoint st i j Sh Hlt)|pose proof (slot_disjoint st j i Sh ltac:(lia))];
      unfold slot_hi, canaryLen in *; lia.
  - intros j Hj. destruct (slot_range st j Sh Hj) as (_ & _ & _ & J1 & J2 & J3 & J4). unfold strip_bytes, m'. cbn. unfold canaryLen in *.
    apply lsub_lset_disj; try lia. destruct (decide (i = j)) as [->|Hne]; [unfold slot_hi in *; lia|].
    destruct (decide (i < j)) as [Hlt|Hge]; [pose proof (slot_disjoint st i j Sh Hlt)|pose proof (slot_disjoint st j i Sh ltac:(lia))];
      unfold slot_hi in *; lia.
Qed.

(** Taking the region lock and giving it back around a change elsewhere. *)
Lemma around_lock mu s w f g :
  lock_free w mu -> set_locks (insert mu (LockState 0 false)) (set_arenas f (set_mem g (relock mu s w))) = set_arenas f (set_mem g w).
Proof.
  intros Hl. destruct w. unfold relock, set_locks, set_arenas, set_mem. cbn. f_equal. rewrite insert_insert_eq. by apply insert_id.
Qed.

Lemma set_mem_id w b m : w_mem w !! b = Some m -> set_mem (insert b m) w = w.
Proof. intros E. destruct w. unfold set_mem. cbn in *. f_equal. by apply insert_id. Qed.
Lemma set_arenas_id w : set_arenas id w = w.
Proof. by destruct w. Qed.

Definition borrow_refusal st (wd : bool) (i g : Z) : option sentinel :=
  if as_destroyed st then Some ErrDestroyed
  else if wd then Some ErrWiped
  else if liveHandle st i g then None else Some ErrSlotReleased.

(** The slab after a callback wrote [b] into slot [i], and nothing else. *)
Record slot_written w p st l (i : Z) (b : list Z) (w' : world) : Prop := SlotWritten {
  sw_bytes : exists m, slab w st l m false /\ zlen b = as_slotSize st /\
    w' = set_mem (insert (rg_base (as_region st)) (with_slot (slot_lo st i) b m)) w /\
    slot_bytes st (with_slot (slot_lo st i) b m) i = b /\
    (forall j, 0 <= j < as_count st -> j <> i -> slot_bytes st (with_slot (slot_lo st i) b m) j = slot_bytes st m j) /\
    (forall j, 0 <= j < as_count st -> strip_bytes st (with_slot (slot_lo st i) b m) j = strip_bytes st m j);
  sw_ok : world_ok w';
  sw_arena : arena_ok w' p st l false;
  sw_frame : frame (FP {[rg_base (as_region st)]} ∅ ∅ ∅ ∅ ∅) w w'
}.

(** What a callback may do: leave some bytes in its slice and return or panic. *)
Definition confined st (i : Z) m (w : world) (P : list Z -> Prop) (w' : world) : Prop :=
  exists b, P b /\ zlen b = as_slotSize st /\
    w' = set_mem (insert (rg_base (as_region st)) (with_slot (slot_lo st i) b m)) w.

Lemma live_not_free w p st l wd i g : arena_ok w p st l wd -> liveHandle st i g = true -> Z.odd g = true -> i ∉ l.
Proof.
  intros A Hl Ho Hi. destruct (ao_idle _ _ _ _ _ A i Hi) as (g' & Eg & Hg). apply liveHandle_spec in Hl. congruence.
Qed.

Lemma confined_written w p st l m i g P w' :
  world_ok w -> arena_ok w p st l false -> slab w st l m false -> liveHandle st i g = true -> Z.odd g = true ->
  confined st i m (borrowed (as_mu st) w) P w' ->
  w_locks w' !! as_mu st = Some (LockState 1 false) /\ exists b, P b /\ slot_written w p st l i b (unlocked (as_mu st) w').
Proof.
  intros W A Sl Hl Ho (b & HP & Hb & ->). split; [apply lookup_insert_eq|]. exists b. split; [done|].
  pose proof (ao_shape _ _ _ _ _ A) as Sh. pose proof (gen_at_range _ _ _ (proj1 (liveHandle_spec _ _ _) Hl)) as Hi. rewrite (sp_slots _ Sh) in Hi.
  pose proof (live_not_free _ _ _ _ _ _ _ A Hl Ho) as Hni.
  destruct (with_slot_slots _ _ _ _ _ i b Sl Sh Hi Hb) as (E1 & E2 & E3 & E4). set (m' := with_slot _ b m) in *.
  assert (unlocked (as_mu st) (set_mem (insert (rg_base (as_region st)) m') (borrowed (as_mu st) w)) =
    set_mem (insert (rg_base (as_region st)) m') w) as ->.
  { pose proof (around_lock (as_mu st) (LockState 1 false) w id (insert (rg_base (as_region st)) m') (ao_lock _ _ _ _ _ A)) as E.
    by rewrite !set_arenas_id in E. }
  destruct (arena_ok_remap w p st l false m m' W A Sl E1) as (W' & A' & Sl'); [done..| |].
  { apply Forall_forall. intros j Hj. pose proof (sl_zero _ _ _ _ _ Sl) as Hz. rewrite Forall_forall in Hz.
    pose proof (lo_range _ _ (ao_list _ _ _ _ _ A)) as Hr. rewrite Forall_forall in Hr. specialize (Hr j Hj). rewrite (sp_slots _ Sh) in Hr.
    rewrite E3; [by apply Hz|done|by intros ->]. }
  constructor; try done; [by exists m|]. apply frame_set_mem. cbn. set_solver.
Qed.

(** A borrow refuses, or runs the callback on exactly the slot's bytes. *)
Lemma wp_slot_borrow w p st l wd i g fn (P : option gerr -> list Z -> Prop) (R : list Z -> Prop) :
  world_ok w -> arena_ok w p st l wd -> 0 <= i < as_count st -> Z.odd g = true ->
  (forall m, borrow_refusal st wd i g = None -> slab w st l m false ->
     wp (fn (as_region st) (slot_lo st i) (slot_hi st i))
       (fun e => confined st i m (borrowed (as_mu st) w) (P e)) (confined st i m (borrowed (as_mu st) w) R)
       (borrowed (as_mu st) w)) ->
  wp (Slot.WithBytesErr (SlotRef p i g) (Some fn))
    (fun e w' => match borrow_refusal st wd i g with
       | Some s => e = Some (Sent s) /\ w' = w
       | None => exists b, P e b /\ slot_written w p st l i b w' end)
    (fun w' => borrow_refusal st wd i g = None /\ exists b, R b /\ slot_written w p st l i b w') w.
Proof.
  intros W A Hi Ho Hfn. pose proof (ao_shape _ _ _ _ _ A) as Sh. destruct (ao_dead _ _ _ _ _ A) as [A7 A7'].
  unfold Slot.WithBytesErr, borrow_refusal in *. apply wp_bind. eapply wp_ar_get; [apply A|].
  destruct (as_destroyed st) eqn:Ed; [by apply wp_ret|].
  apply wp_bind, wp_lk_rLock; [apply A|]. apply wp_defer. apply wp_bind. eapply wp_ar_get; [apply A|].
  rewrite <- A7. cbn iota.
  assert (forall (Q : unit -> world -> Prop) R', Q tt w -> wp (lk_rUnlock (as_mu st)) Q R' (borrowed (as_mu st) w)) as Hback.
  { intros Q R' HQ. eapply wp_lk_rUnlock; [apply lookup_insert_eq|]. unfold borrowed. rewrite relock_unlocked; [done|apply A]. }
  apply wp_bind. eapply wp_flag_load; [apply A|]. destruct wd; [apply wp_ret; by apply Hback|].
  destruct (slot_at_some st i) as [sm Es]; [by rewrite (sp_slots _ Sh)|]. rewrite Es.
  assert (liveHandle st i g = (sm_generation sm =? g)) as Elive by (unfold liveHandle; by rewrite Es).
  destruct (sm_generation sm =? g) eqn:Eg; rewrite Elive in *; cbn [negb]; [|apply wp_ret; by apply Hback].
  destruct (slot_range st i Sh Hi) as (-> & -> & _ & H1 & H2 & H3 & H4). unfold canaryLen in *.
  destruct (ao_slab _ _ _ _ _ A) as (m & Sl); [intros E; rewrite E in A7; done|]. pose proof (sl_fit _ _ _ _ _ Sl) as Hfit.
  unfold Slot.slice_ok. destruct (_ && _ && _) eqn:Eok; [|apply andb_false_iff in Eok as [Eok%andb_false_iff|Eok]; lia].
  eapply wp_mono; [by apply (Hfn m)|..].
  - intros e w' Hc. destruct (confined_written _ _ _ _ _ _ g _ _ W A Sl Elive Ho Hc) as (Hl & b & HP & Hw).
    eapply wp_lk_rUnlock; [exact Hl|]. eauto.
  - intros w' Hc. destruct (confined_written _ _ _ _ _ _ g _ _ W A Sl Elive Ho Hc) as (Hl & b & HP & Hw).
    eapply wp_lk_rUnlock; [exact Hl|]. eauto.
Qed.
(** ** Releasing a slot *)

Lemma wp_canaryInit_done (Q : option gerr -> world -> Prop) R w :
  cn_done (w_canary w) = Some None -> Q None w -> wp canaryInit Q R w.
Proof. intros Hd HQ. unfold canaryInit. apply wp_bind, wp_gets. rewrite Hd. by apply wp_ret. Qed.

Lemma lset_lsub {A} lo hi (b : list A) : 0 <= lo <= hi -> hi <= zlen b -> lset lo (lsub lo hi b) b = b.
Proof.
  intros Hlo Hhi. unfold lset, lsub. rewrite length_take, length_drop.
  replace (Z.to_nat lo + Nat.min (Z.to_nat (hi - lo)) (length b - Z.to_nat lo))%nat with (Z.to_nat lo + Z.to_nat (hi - lo))%nat by (unfold zlen in *; lia).
  rewrite <- drop_drop, take_drop. apply take_drop.
Qed.

(** The slab after [Release] dealt with slot [i]: the slot zeroed, and its
    strip armed afresh unless the emergency wipe has been there. *)
Definition scrubbed st (pat : list Z) (wd : bool) (i : Z) (b : list Z) : list Z :=
  lset (slot_lo st i) (zeros (as_slotSize st))
    (if wd then b else lset (slot_hi st i) (patternBytes pat (Z.to_nat canaryLen)) b).

(** What it reports. *)
Definition overflowed st (pat : list Z) (wd : bool) (i : Z) m : bool :=
  negb wd && negb (bool_decide (strip_bytes st m i = patternBytes pat (Z.to_nat canaryLen))).

Lemma zlen_pattern pat : zlen (patternBytes pat (Z.to_nat canaryLen)) = canaryLen.
Proof. unfold zlen. by rewrite length_patternBytes. Qed.

Lemma scrubbed_slots w st l m wd i pat :
  slab w st l m wd -> shape st -> 0 <= i < as_count st ->
  let m' := with_bytes (scrubbed st pat wd i (mp_bytes m)) m in
  zlen (mp_bytes m') = zlen (mp_bytes m) /\ slot_bytes st m' i = zeros (as_slotSize st) /\
  (wd = false -> strip_bytes st m' i = patternBytes pat (Z.to_nat canaryLen)) /\
  (forall j, 0 <= j < as_count st -> j <> i -> slot_bytes st m' j = slot_bytes st m j /\ strip_bytes st m' j = strip_bytes st m j).
Proof.
  intros Sl Sh Hi m'. pose proof (md_len _ _ _ (sl_map _ _ _ _ _ Sl)) as Hlen. pose proof (sl_fit _ _ _ _ _ Sl) as Hfit.
  destruct (slot_range st i Sh Hi) as (_ & _ & _ & H1 & H2 & H3 & H4). pose proof (sp_slot _ Sh) as Hs.
  assert (zlen (zeros (as_slotSize st)) = as_slotSize st) as Hz by (apply zlen_zeros; lia). pose proof (zlen_pattern pat) as Hp.
  unfold canaryLen in H3. set (b1 := if wd then mp_bytes m else lset (slot_hi st i) (patternBytes pat (Z.to_nat canaryLen)) (mp_bytes m)).
  assert (zlen b1 = zlen (mp_bytes m)) as Hb1.
  { unfold b1. destruct wd; [done|]. apply zlen_lset; unfold canaryLen in *; lia. }
  assert (mp_bytes m' = lset (slot_lo st i) (zeros (as_slotSize st)) b1) as Em by done.
  assert (slot_lo st i + zlen (zeros (as_slotSize st)) = slot_hi st i) as Hend by (unfold slot_hi; lia).
  rewrite Em. split; [rewrite zlen_lset; lia|]. split; [|split].
  - unfold slot_bytes. rewrite Em, <- Hend. apply lsub_lset_same; lia.
  - intros ->. unfold strip_bytes. rewrite Em, lsub_lset_disj by lia. unfold b1.
    replace (slot_lo st (i + 1)) with (slot_hi st i + zlen (patternBytes pat (Z.to_nat canaryLen))) by (unfold canaryLen in *; lia).
    apply lsub_lset_same; unfold canaryLen in *; lia.
  - intros j Hj Hne. destruct (slot_range st j Sh Hj) as (_ & _ & _ & J1 & J2 & J3 & J4). unfold canaryLen in J3.
    assert (slot_lo st (j + 1) <= slot_lo st i \/ slot_lo st (i + 1) <= slot_lo st j) as Hd.
    { destruct (decide (i < j)) as [Hlt|Hge]; [right; by apply slot_disjoint|left; apply slot_disjoint; [done|lia]]. }
    assert (forall lo hi, slot_lo st j <= lo -> lo <= hi -> hi <= slot_lo st (j + 1) -> lsub lo hi (mp_bytes m') = lsub lo hi (mp_bytes m)) as Hout.
    { intros lo hi L1 L2 L3. rewrite Em, lsub_lset_disj by lia. unfold b1. destruct wd; [done|].
      unfold canaryLen in *. apply lsub_lset_disj; lia. }
    split; apply Hout; lia.
Qed.

(** The scrub, from inside the read lock. *)
Lemma wp_scrub w st l m wd i (Q : bool -> world -> Prop) R :
  slab w st l m wd -> shape st -> 0 <= i < as_count st -> mp_prot m = PROT_RW -> w_flags w !! as_wiped st = Some wd ->
  Q (overflowed st (cn_pattern (w_canary w)) wd i m)
    (set_mem (insert (rg_base (as_region st)) (with_bytes (scrubbed st (cn_pattern (w_canary w)) wd i (mp_bytes m)) m)) w) ->
  wp (Slot.scrub st i) Q R w.
Proof.
  intros Sl Sh Hi Hp Hw HQ. pose proof (sl_map _ _ _ _ _ Sl) as Hm. pose proof (md_len _ _ _ Hm) as Hlen. pose proof (sl_fit _ _ _ _ _ Sl) as Hfit.
  destruct (prot_rw_access m (md_held _ _ _ Hm) Hp) as [Hrd Hwr]. set (pat := cn_pattern (w_canary w)) in *.
  destruct (slot_range st i Sh Hi) as (E1 & E2 & E3 & H1 & H2 & H3 & H4). pose proof H3 as H3'. unfold canaryLen in H3'.
  assert (Slot.slice_ok (slot_lo st i) (slot_hi st i) (rg_inner (as_region st)) = true) as Ok1.
  { unfold Slot.slice_ok. rewrite !andb_true_iff. lia. }
  assert (Slot.slice_ok (slot_hi st i) (slot_lo st (i + 1)) (rg_inner (as_region st)) = true) as Ok2.
  { unfold Slot.slice_ok. rewrite !andb_true_iff. lia. }
  assert (slot_hi st i - slot_lo st i = as_slotSize st) as Hsz by (unfold slot_hi; lia).
  (* the wipe that ends it *)
  assert (forall b1 v, zlen b1 = zlen (mp_bytes m) ->
    Q v (set_mem (insert (rg_base (as_region st)) (with_bytes (lset (slot_lo st i) (zeros (as_slotSize st)) b1) m)) w) ->
    wp (secureWipeSlice (rg_base (as_region st)) (slot_lo st i) (slot_hi st i);; mret v) Q R
      (set_mem (insert (rg_base (as_region st)) (with_bytes b1 m)) w)) as Hwipe.
  { intros b1 v Hb1 HQ1. apply wp_bind. eapply wp_secureWipeSlice; [cbn; apply lookup_insert_eq|done|done|lia|cbn; lia|].
    apply wp_ret. rewrite Hsz. cbn [mp_bytes with_bytes].
    assert (forall a c, set_mem (insert (rg_base (as_region st)) c) (set_mem (insert (rg_base (as_region st)) a) w) =
      set_mem (insert (rg_base (as_region st)) c) w) as Hss by (intros; unfold set_mem; cbn; by rewrite insert_insert_eq).
    rewrite Hss. exact HQ1. }
  assert (w = set_mem (insert (rg_base (as_region st)) (with_bytes (mp_bytes m) m)) w) as Hid.
  { symmetry. replace (with_bytes (mp_bytes m) m) with m by by destruct m. apply set_mem_id, Hm. }
  unfold Slot.scrub. rewrite E3, E2, E1, Ok1, Ok2. apply wp_bind. eapply wp_flag_load; [exact Hw|].
  unfold overflowed, scrubbed in HQ. destruct wd; cbn [negb andb] in *.
  { apply wp_bind, wp_ret. rewrite Hid at 1. by apply Hwipe. }
  apply wp_bind, wp_bind. unfold Slot.stripIntact. destruct (slot_lo st (i + 1) <=? slot_hi st i) eqn:Ele; [lia|].
  apply wp_bind. apply wp_canaryInit_done; [apply Sl|]. apply wp_bind, wp_gets, wp_bind.
  eapply wp_mem_load; [apply Hm|done|]. apply wp_ret. fold pat. fold (strip_bytes st m i).
  assert (length (strip_bytes st m i) = Z.to_nat canaryLen) as Hls.
  { unfold strip_bytes. rewrite length_lsub by lia. f_equal. unfold canaryLen. lia. }
  destruct (canaryIntact None pat (strip_bytes st m i)) eqn:Ei; cbn [negb].
  - apply canaryIntact_iff in Ei. rewrite Hls in Ei. apply wp_ret.
    assert (lset (slot_hi st i) (patternBytes pat (Z.to_nat canaryLen)) (mp_bytes m) = mp_bytes m) as El.
    { rewrite <- Ei. apply lset_lsub; lia. }
    rewrite bool_decide_eq_true_2 in HQ by done. rewrite El in HQ. rewrite Hid at 1. by apply Hwipe.
  - assert (strip_bytes st m i <> patternBytes pat (Z.to_nat canaryLen)) as Hn.
    { intros E. rewrite <- Hls in E. apply canaryIntact_iff in E. congruence. }
    rewrite bool_decide_eq_false_2 in HQ by done. apply wp_bind. unfold Slot.rearmStrip. apply wp_bind.
    apply wp_canaryInit_done; [apply Sl|]. apply wp_bind, wp_gets, wp_bind. eapply wp_mem_copy_in; [apply Hm|done|lia|].
    apply wp_ret, wp_ret. replace (slot_lo st (i + 1) - slot_hi st i) with canaryLen by (unfold canaryLen; lia). fold pat.
    apply Hwipe; [|exact HQ]. pose proof (zlen_pattern pat) as Hzp. unfold canaryLen in *. apply zlen_lset; lia.
Qed.
(** The slot index after a [Release] of the live handle [(i, g)]. *)
Lemma released_list w p st l wd i g st' :
  arena_ok w p st l wd -> liveHandle st i g = true -> Z.odd g = true -> claimSlot i g st = Some st' ->
  let st2 := pushFree i st' in
  same_arena st st2 /\ as_region st2 = as_region st /\ as_readOnly st2 = as_readOnly st /\
  as_destroyed st2 = as_destroyed st /\ as_released st2 = as_released st /\ list_ok st2 (l ++ [i]) /\
  (forall j gj, gen_at st2 j = Some gj -> 0 <= gj < 2 ^ 64) /\
  (forall j, j ∈ l ++ [i] -> exists gj, gen_at st2 j = Some gj /\ Z.odd gj = false) /\
  liveHandle st2 i g = false /\ as_live st2 = as_live st - 1.
Proof.
  intros A Hl Ho Ec st2. pose proof (live_not_free _ _ _ _ _ _ _ A Hl Ho) as Hni.
  destruct (claimSlot_same _ _ _ _ Ec) as (S1 & R1 & O1 & D1 & L1). destruct (pushFree_same st' i) as (S2 & R2 & O2 & D2 & L2).
  destruct (claimSlot_ok _ _ _ _ _ (ao_list _ _ _ _ _ A) Ec) as [Hl1 Elv]. pose proof (proj1 (liveHandle_spec _ _ _) Hl) as Eg.
  pose proof (gen_at_range _ _ _ Eg) as Hi. pose proof (ao_gens _ _ _ _ _ A _ _ Eg) as Hg.
  destruct (pushFree_ok st' l i Hl1) as [Hl2 Elv2]; [by rewrite (sm_slots _ _ S1)|done|].
  destruct (uwrap_even g Hg Ho) as [He Hr].
  apply claimSlot_spec in Ec as (_ & sm & Es & Est). pose proof (gen_at_insert st st' i (SlotMeta (uwrap64 (g + 1)) (sm_next sm)) Hi) as Hga.
  rewrite Est in Hga. specialize (Hga eq_refl). rewrite <- Est in Hga. cbn [sm_generation] in Hga.
  split; [by eapply same_arena_trans|]. split; [exact (eq_trans R2 R1)|]. split; [exact (eq_trans O2 O1)|].
  split; [exact (eq_trans D2 D1)|]. split; [exact (eq_trans L2 L1)|]. split; [done|].
  split; [|split; [|split; [|unfold st2; lia]]].
  - intros j gj. unfold st2. rewrite gen_push, Hga. case_decide; [by intros [= <-]|apply A].
  - intros j Hj. unfold st2. setoid_rewrite gen_push. rewrite Hga. case_decide as Ej; [eauto|]. apply (ao_idle _ _ _ _ _ A).
    apply elem_of_app in Hj as [?|Hj%list_elem_of_singleton]; done.
  - apply not_true_is_false. intros Hlv%liveHandle_spec. unfold st2 in Hlv. rewrite gen_push, Hga, decide_True in Hlv by done.
    injection Hlv as Hlv. rewrite Hlv in He. congruence.
Qed.

(** A slot given back in world [w1]. *)
Record given_back w1 p st l (wd : bool) (i g : Z) (w' : world) : Prop := GivenBack {
  gb_push : exists st', claimSlot i g st = Some st' /\ w' = set_arenas (alter (fun _ => pushFree i st') p) w1 /\
    arena_ok w' p (pushFree i st') (l ++ [i]) wd /\ liveHandle (pushFree i st') i g = false /\
    as_live (pushFree i st') = as_live st - 1;
  gb_ok : world_ok w'
}.

Lemma returns_Release w p st l wd i g :
  world_ok w -> arena_ok w p st l wd -> 0 <= i < as_count st -> Z.odd g = true ->
  returns (Slot.Release (SlotRef p i g)) w (fun e w' =>
    if negb (liveHandle st i g) then e = None /\ w' = w
    else if as_destroyed st then e = None /\ given_back w p st l wd i g w'
    else if as_readOnly st && negb wd then e = Some (errorf "secmem.ArenaSlot.Release" (Sent ErrReadOnly)) /\ w' = w
    else exists m, slab w st l m wd /\
      let pat := cn_pattern (w_canary w) in
      e = (if overflowed st pat wd i m then Some (errorf "secmem.ArenaSlot.Release" (Sent ErrCanaryViolation)) else None) /\
      given_back (set_mem (insert (rg_base (as_region st)) (with_bytes (scrubbed st pat wd i (mp_bytes m)) m)) w) p st l wd i g w').
Proof.
  intros W A Hi Ho. pose proof (ao_shape _ _ _ _ _ A) as Sh. destruct (ao_dead _ _ _ _ _ A) as [A7 A7'].
  unfold Slot.Release, returns. apply wp_bind. eapply wp_ar_get; [apply A|].
  destruct (slot_at_some st i) as [sm Es]; [by rewrite (sp_slots _ Sh)|]. rewrite Es.
  assert (liveHandle st i g = (sm_generation sm =? g)) as Elive by (unfold liveHandle; by rewrite Es). rewrite <- Elive.
  destruct (liveHandle st i g) eqn:El; cbn [negb]; [|by apply wp_ret].
  assert (gen_at st i = Some g) as Eg by by apply liveHandle_spec.
  set (st1 := as_set_list (<[Z.to_nat i := SlotMeta (uwrap64 (g + 1)) (sm_next sm)]> (as_slots st)) (as_freeHead st) (as_freeTail st) (as_live st) st).
  assert (claimSlot i g st = Some st1) as Ec by (apply claimSlot_spec; eauto).
  destruct (released_list _ _ _ _ _ _ _ _ A El Ho Ec) as (S & Er & Eo & Ed & Erl & Hl2 & Hgens & Hidle & Hdead & Elv). set (st2 := pushFree i st1) in *.
  destruct (claimSlot_same _ _ _ _ Ec) as (S1 & R1 & O1 & D1 & L1).
  apply wp_bind, wp_lk_rLock; [apply A|]. apply wp_bind. eapply wp_ar_get; [apply A|]. apply wp_bind.
  (* the end: unlock, push, report *)
  assert (forall w1 f (v : bool) (Q : option gerr -> world -> Prop) R,
    w1 = set_arenas (alter (fun _ => st1) p) (set_mem f (borrowed (as_mu st) w)) ->
    Q (if v then Some (errorf "secmem.ArenaSlot.Release" (Sent ErrCanaryViolation)) else None)
      (set_arenas (alter (fun _ => st2) p) (set_mem f w)) ->
    wp (lk_rUnlock (as_mu st);; ar_set p (pushFree i);;
        mret (if v then Some (errorf "secmem.ArenaSlot.Release" (Sent ErrCanaryViolation)) else None)) Q R w1) as Hend.
  { intros w1 f v Q R -> HQ. apply wp_bind. eapply wp_lk_rUnlock; [apply lookup_insert_eq|]. apply wp_bind, wp_ar_set, wp_ret.
    replace (set_arenas _ (unlocked _ _)) with (set_arenas (alter (fun _ => st2) p) (set_mem f w)); [exact HQ|].
    rewrite <- (around_lock (as_mu st) (LockState 1 false) w (alter (fun _ => st2) p) f) by apply A.
    unfold unlocked, relock, borrowed, set_locks, set_arenas, set_mem. cbn. f_equal. symmetry. apply alter_alter_eq. }
  assert (forall w1, world_ok w1 -> arena_ok w1 p st l wd ->
    (forall m, slab w1 st l m wd -> slot_bytes st m i = zeros (as_slotSize st)) ->
    given_back w1 p st l wd i g (set_arenas (alter (fun _ => st2) p) w1)) as Hgive.
  { intros w1 W1 A1 Hz. constructor; [|by apply world_ok_arena]. exists st1. split; [done|]. split; [done|]. split; [|done].
    apply (arena_ok_set w1 p st l wd (fun _ => st2)); try done. intros m Sl. apply Forall_app. split; [apply Sl|].
    apply Forall_singleton. by apply Hz. }
  destruct (as_destroyed st) eqn:Edd.
  - rewrite <- A7. cbn [negb andb]. apply wp_ret. cbn iota. rewrite Ec. apply wp_bind, wp_ar_set, wp_bind, wp_ret.
    apply (Hend _ id false); [done|]. split; [done|]. replace (set_mem id w) with w by by destruct w.
    apply Hgive; [done|done|]. intros m Sl. pose proof (md_inner _ _ _ (sl_map _ _ _ _ _ Sl)). lia.
  - rewrite <- A7. cbn [negb andb]. destruct (ao_slab _ _ _ _ _ A) as (m & Sl); [intros E; rewrite E in A7; done|].
    pose proof (sl_prot _ _ _ _ _ Sl) as Hprot.
    assert (wp (if as_readOnly st then wiped ← flag_load (as_wiped st); mret (negb wiped) else mret false)
      (fun b w1 => b = as_readOnly st && negb wd /\ w1 = borrowed (as_mu st) w) (fun _ => False) (borrowed (as_mu st) w)) as Href.
    { destruct (as_readOnly st); [|by apply wp_ret]. apply wp_bind. eapply wp_flag_load; [apply A|]. by apply wp_ret. }
    eapply wp_returns; [exact Href|]. intros b w1 [-> ->]. destruct (as_readOnly st && negb wd) eqn:Ero.
    { apply wp_bind. eapply wp_lk_rUnlock; [apply lookup_insert_eq|]. apply wp_ret. split; [done|].
      unfold borrowed. by rewrite relock_unlocked by apply A. }
    assert (mp_prot m = PROT_RW) as Hrw by (rewrite Hprot, andb_comm, Ero; done).
    rewrite Ec. apply wp_bind, wp_ar_set, wp_bind.
    set (w1 := set_arenas (alter (fun _ => st1) p) (borrowed (as_mu st) w)). set (pat := cn_pattern (w_canary w)).
    assert (slab w1 st l m wd) as Sl1 by (destruct Sl as [[] B2 B3 B4 B5 B6]; constructor; done).
    assert (Slot.scrub st1 i = Slot.scrub st i) as -> by done.
    apply (wp_scrub w1 st l m wd); [done|done|done|done|apply A|]. change (cn_pattern (w_canary w1)) with pat.
    destruct (scrubbed_slots w st l m wd i pat Sl Sh Hi) as (E1 & E2 & E3 & E4). set (m' := with_bytes (scrubbed st pat wd i (mp_bytes m)) m) in *.
    eapply (Hend _ (insert (rg_base (as_region st)) m')); [done|]. exists m. split; [done|]. split; [done|].
    destruct (arena_ok_remap w p st l wd m m' W A Sl E1) as (W' & A' & Sl'); [done..| |].
    { apply Forall_forall. intros j Hj. pose proof (sl_zero _ _ _ _ _ Sl) as Hz. rewrite Forall_forall in Hz.
      pose proof (lo_range _ _ (ao_list _ _ _ _ _ A)) as Hr. rewrite Forall_forall in Hr. specialize (Hr j Hj). rewrite (sp_slots _ Sh) in Hr.
      destruct (E4 j Hr) as [-> _]; [intros ->; by eapply live_not_free|by apply Hz]. }
    apply Hgive; [done|done|]. intros m2 Sl2. pose proof (md_at _ _ _ (sl_map _ _ _ _ _ Sl2)) as Hat.
    rewrite (md_at _ _ _ (sl_map _ _ _ _ _ Sl')) in Hat. by injection Hat as <-.
Qed.
End ops.
