(* ===== verification/ArenaLife.v ===== *)
(** * Making, protecting and destroying an arena

    [NewArena] with the bounds its argument checks establish, the mode
    changes, and [Destroy]. *)
From S2P Require Import Prelude Errors Canary World Memory Frame Sample Quarantine Janitor Process SealAuth SecureBuffer BufferSpec BufferBorrow BufferNew ArenaList SecureArena ArenaSpec ArenaOps.

(** ** The argument checks *)

(** A Go [int]. *)
Definition is_int (z : Z) : Prop := MinInt <= z <= MaxInt.

Lemma checkArgs_spec slotSize count c :
  is_int slotSize -> is_int count ->
  Arena.checkArgs slotSize count c = None <->
  closedAtRestOpt c = false /\ 0 < slotSize /\ 0 < count <= MaxInt32 /\ count * (slotSize + canaryLen) <= MaxInt.
Proof.
  intros Hs Hc. unfold Arena.checkArgs, canaryLen, is_int in *. destruct (closedAtRestOpt c); [split; [done|by intros [? _]]|].
  destruct (slotSize <=? 0) eqn:E1; [split; [done|lia]|]. destruct (count <=? 0) eqn:E2; [split; [done|lia]|].
  destruct (MaxInt32 <? count) eqn:E3; [split; [done|lia]|].
  assert (0 < count <= MaxInt32) as Hcnt by lia.
  pose proof (Z.quot_div_nonneg MaxInt count ltac:(done) ltac:(lia)) as Eq. rewrite Eq.
  pose proof (Z.div_mod MaxInt count ltac:(lia)) as Hdm. pose proof (Z.mod_pos_bound MaxInt count ltac:(lia)) as Hmb.
  assert (0 <= MaxInt / count <= MaxInt) as Hq by (unfold MaxInt in *; nia).
  rewrite wrap64_id by (unfold MinInt, MaxInt in *; lia).
  destruct (_ <? slotSize) eqn:E4.
  - apply Z.ltb_lt in E4. split; [done|]. intros (_ & _ & _ & H). exfalso. assert (MaxInt / count + 1 <= slotSize + 16) by lia. nia.
  - apply Z.ltb_ge in E4. cbn. split; [|done]. intros _. repeat split; try lia. nia.
Qed.

Section life.
Context `{K : Kernel} {KOk : KernelOk}.
Implicit Types (w : world) (st : arenaState) (m : mapping) (l : list Z).

(** ** Modes *)

Lemma returns_setMode name (ro : bool) w p st l wd :
  world_ok w -> arena_ok w p st l wd ->
  returns (Arena.setMode name (if ro then PROT_READ else PROT_RW) ro (ArenaRef p)) w (fun e w' =>
    if as_destroyed st then e = Some (errorf name (Sent ErrDestroyed)) /\ w' = w
    else if wd then e = Some (errorf name (Sent ErrWiped)) /\ w' = w
    else (exists err, e = Some (errorf name err) /\ w' = tick w) \/
      exists m, slab w st l m false /\ e = None /\
        w' = set_arenas (alter (as_set_readOnly ro) p)
               (set_mem (insert (rg_base (as_region st)) (protect (if ro then PROT_READ else PROT_RW) m)) (tick w)) /\
        world_ok w' /\ arena_ok w' p (as_set_readOnly ro st) l false).
Proof.
  intros W A. destruct (ao_dead _ _ _ _ _ A) as [A7 A7']. set (prot := if ro then PROT_READ else PROT_RW).
  unfold Arena.setMode, returns. apply wp_bind. eapply wp_ar_get; [apply A|].
  apply wp_bind, wp_lk_lock; [apply A|]. apply wp_defer. apply wp_bind. eapply wp_ar_get; [apply A|]. rewrite <- A7.
  assert (forall (Q : unit -> world -> Prop) R', Q tt w -> wp (lk_unlock (as_mu st)) Q R' (locked (as_mu st) w)) as Hback.
  { intros Q R' HQ. eapply wp_lk_unlock; [apply lookup_insert_eq|].
    change (Q tt (unlocked (as_mu st) (locked (as_mu st) w))). by rewrite locked_unlocked by apply A. }
  destruct (as_destroyed st) eqn:Ed; [apply wp_ret; by apply Hback|].
  apply wp_bind. eapply wp_flag_load; [apply A|]. destruct wd; [apply wp_ret; by apply Hback|].
  destruct (ao_slab _ _ _ _ _ A) as (m & Sl); [intros E; rewrite E in A7; done|].
  assert (mapped (locked (as_mu st) w) (as_region st) m) as Hm by (destruct (sl_map _ _ _ _ _ Sl); by constructor).
  apply wp_bind. eapply wp_mprotect; [exact Hm|unfold prot; destruct ro; unfold prot_ok; auto|intros err|].
  - apply wp_ret. eapply wp_lk_unlock; [apply lookup_insert_eq|]. left. exists err. split; [done|].
    pose proof (around_lock (as_mu st) (LockState 0 true) (tick w) id id (ao_lock _ _ _ _ _ A)) as E.
    unfold locked, relock, set_locks, set_arenas, set_mem, tick in *. cbn in *. exact E.
  - apply wp_bind, wp_ar_set, wp_ret. eapply wp_lk_unlock; [apply lookup_insert_eq|]. right. exists m. split; [done|]. split; [done|].
    set (m' := protect prot m).
    pose proof (around_lock (as_mu st) (LockState 0 true) (tick w) (alter (as_set_readOnly ro) p) (insert (rg_base (as_region st)) m') (ao_lock _ _ _ _ _ A)) as E.
    unfold locked, relock, set_locks, set_arenas, set_mem, tick in *. cbn in *. split; [exact E|]. rewrite E. clear E.
    change (world_ok (set_arenas (alter (as_set_readOnly ro) p) (set_mem (insert (rg_base (as_region st)) m') (tick w))) /\
      arena_ok (set_arenas (alter (as_set_readOnly ro) p) (set_mem (insert (rg_base (as_region st)) m') (tick w))) p (as_set_readOnly ro st) l false).
    split.
    { apply world_ok_arena. eapply world_ok_remap; [by apply world_ok_tick|destruct (sl_map _ _ _ _ _ Sl); by constructor|..].
      - unfold m'. by rewrite protect_bytes.
      - unfold m'. by rewrite protect_held.
      - unfold m'. by rewrite protect_outer.
      - intros Hne E. destruct (slab_apart w st l m false W Sl (ao_ring _ _ _ _ _ A) Hne) as [_ Hx]. done. }
    destruct A as [B1 B2 B3 B4 B5 B6 Bg Bi B7 B8 B9]. constructor; try done.
    + cbn. by rewrite lookup_alter_eq, B1.
    + by destruct B5.
    + by destruct B6.
    + intros _. exists m'. destruct Sl as [[C1 C2 C3 C4 C5] S2 S3 S4 S5 S6]. constructor; cbn; try done.
      * constructor; unfold m'; rewrite ?protect_bytes, ?protect_held, ?protect_outer; try done. cbn. apply lookup_insert_eq.
      * unfold m'. by rewrite protect_prot.
      * eapply Forall_impl; [exact S6|]. intros i. unfold slot_bytes, m'. by rewrite protect_bytes.
Qed.

(** ** Destroy *)

(** An arena after [Destroy]: wiped, unmapped, in nobody's registry. *)
Record arena_gone w p st l (wd : bool) (e : option gerr) (w' : world) : Prop := ArenaGone {
  ag_ok : world_ok w';
  ag_arena : arena_ok w' p (as_set_released (as_set_destroyed st)) l wd;
  ag_frame : frame (FP {[rg_base (as_region st)]} ∅ ∅ {[as_janitorKey st]} ∅ {[p]}) w w';
  ag_reg : lookup_any w' (as_janitorKey st) = None;
  ag_fault : e = None -> mem_load (rg_base (as_region st)) w' = Fault;
  ag_left : forall m, w_mem w' !! rg_base (as_region st) = Some m -> mp_held m = false -> e <> None;
  ag_canary : forall m, slab w st l m wd -> wd = false ->
    intact None (cn_pattern (w_canary w)) (arenaCanary (as_stride st) (as_slotSize st) (as_count st) (rg_inner (as_region st))) (mp_bytes m) = false ->
    e <> None
}.

Lemma set_destroyed_ok w p st l wd :
  arena_ok w p st l wd -> as_destroyed st = true -> set_arenas (alter as_set_destroyed p) w = w.
Proof.
  intros A Ed. pose proof (ao_st _ _ _ _ _ A) as Hs. destruct w as [? ? ? ? ? ? ? ? ? ? ar]. unfold set_arenas. cbn in *. f_equal.
  apply alter_id. intros st' Hst. assert (st' = st) as -> by congruence. destruct st. cbn in *. by subst.
Qed.

Lemma returns_arenaDestroy w p st l wd :
  world_ok w -> arena_ok w p st l wd ->
  returns (Arena.Destroy (ArenaRef p)) w (fun e w' =>
    if as_destroyed st then e = None /\ w' = w else arena_gone w p st l wd e w').
Proof.
  intros W A. destruct (ao_dead _ _ _ _ _ A) as [A7 A7']. unfold Arena.Destroy, returns. apply wp_bind, wp_ar_set.
  set (w1 := set_arenas (alter as_set_destroyed p) w). pose proof (ao_st _ _ _ _ _ A) as Hst.
  assert (w_arenas w1 !! p = Some (as_set_destroyed st)) as Hst1 by (cbn; by rewrite lookup_alter_eq, Hst).
  apply wp_bind. eapply wp_ar_get; [exact Hst1|]. cbn [as_mu as_set_destroyed].
  apply wp_bind, wp_lk_lock; [apply A|]. apply wp_defer. apply wp_bind. eapply wp_ar_get; [exact Hst1|].
  cbn [as_region as_set_destroyed as_janitorKey]. rewrite <- A7. destruct (as_destroyed st) eqn:Ed.
  { apply wp_ret. eapply wp_lk_unlock; [apply lookup_insert_eq|]. split; [done|].
    change (unlocked (as_mu st) (locked (as_mu st) w1) = w). rewrite locked_unlocked; [by eapply set_destroyed_ok|]. apply A. }
  destruct (ao_slab _ _ _ _ _ A) as (m & Sl); [intros E; rewrite E in A7; done|].
  set (w2 := set_locks _ w1). pose proof (sl_reg _ _ _ _ _ Sl) as (jr & Hk & Er & Emu & Ew & Ec & Ecan).
  assert (world_ok w2) as W2.
  { apply world_ok_lock; [by apply world_ok_arena|exists (LockState 0 false); apply A|apply A|done|done]. }
  assert (mapped w2 (jr_region jr) m) as Hm2 by (rewrite Er; destruct (sl_map _ _ _ _ _ Sl); by constructor).
  apply wp_bind. eapply wp_returns.
  { apply (wp_release (as_janitorKey st) jr m true); [apply W2|apply W2|apply W2|exact Hk|exact Hm2|done]. }
  intros e w3 Rel. apply wp_bind, wp_ar_set, wp_ret.
  assert (world_ok w3) as W3.
  { eapply released_world_ok; [exact W2|exact Hk|exact Rel|]. intros Hne E.
    destruct (slab_apart w st l m wd W Sl (ao_ring _ _ _ _ _ A) Hne) as [Hx _]. by apply Hx. }
  pose proof (released_frame _ _ _ _ _ _ (wk_jan _ W2) Hk Rel) as Fr. rewrite Er, Ec in Fr. cbn [option_list list_to_set] in Fr.
  destruct Rel as [L1 L2 L3 L4 L5 L6 L7 L8 L9 L10 L11 L12 L13 L14 L15 L16 L17].
  eapply wp_lk_unlock; [cbn; rewrite L2; apply lookup_insert_eq|].
  set (w4 := set_locks _ _).
  assert (forall b, w_mem w4 !! b = w_mem w3 !! b) as Emem by done.
  constructor.
  - apply world_ok_lock; [by apply world_ok_arena|cbn; rewrite L2; eexists; apply lookup_insert_eq|cbn; rewrite L7; apply A|done|done].
  - destruct A as [B1 B2 B3 B4 B5 B6 Bg Bi B7 B8 B9]. constructor; cbn; try done.
    + rewrite L6, lookup_alter_eq. change (w_arenas w2) with (w_arenas w1). by rewrite Hst1.
    + unfold lock_free. cbn. apply lookup_insert_eq.
    + by rewrite L7.
    + rewrite L12; [done|]. rewrite Ec. done.
    + by destruct B5.
    + by destruct B6.
  - eapply (frame_unlock _ (as_mu st) (LockState 0 true)); [apply A|]. unfold relock.
    eapply frame_trans; [|eapply frame_trans; [eapply frame_mono; [|exact Fr]|]].
    + apply (frame_arena _ p as_set_destroyed). cbn. set_solver.
    + repeat split; cbn; set_solver.
    + apply frame_arena. cbn. set_solver.
  - unfold lookup_any. cbn. rewrite L1. cbn. by rewrite !lookup_delete_eq.
  - intros En. assert (e = None) as -> by by destruct e. specialize (L14 eq_refl). rewrite Er in L14. unfold mem_load in *.
    rewrite Emem. repeat case_match; done.
  - intros mx Hmx Hh. rewrite Emem in Hmx. destruct L15 as [Hne|Hl]; [by destruct e|]. rewrite Er in Hl. specialize (Hl mx Hmx). congruence.
  - intros m0 Sl0 -> Hbad. destruct L16 as [(e' & -> & _)|[_ Hr]]; [done|].
    assert (verdict w2 jr m <> None) as Hv.
    { unfold verdict. rewrite Ec, (Ecan eq_refl). assert (m0 = m) as ->.
      { pose proof (md_at _ _ _ (sl_map _ _ _ _ _ Sl0)) as E1. pose proof (md_at _ _ _ (sl_map _ _ _ _ _ Sl)) as E2. congruence. }
      change (cn_pattern (w_canary w2)) with (cn_pattern (w_canary w)). by rewrite Hbad. }
    specialize (Hr Hv). by destruct e.
Qed.
(** ** NewArena *)

(** Without a pattern, arming stops at the first strip. *)
Lemma arm_error e pat stride slot count n inner :
  0 < count -> 0 <= slot < stride -> stride <= zlen inner ->
  arm (Some e) pat (arenaCanary stride slot count n) inner = (Some e, inner).
Proof.
  intros Hc Hs Hl. unfold arm, forEachZone, arenaCanary. cbn [cl_count cl_stride cl_slotSize cl_tail].
  destruct (Z.to_nat count) as [|k] eqn:Ek; [lia|]. cbn [forEachStrip cl_stride cl_slotSize].
  destruct (_ <=? _) eqn:E; [lia|]. unfold inBounds at 1.
  destruct ((0 <=? _) && _ && _) eqn:E2; [done|]. apply andb_false_iff in E2 as [E2%andb_false_iff|E2]; lia.
Qed.

Lemma wp_armRegion w w1 size r m c (Q : option gerr -> world -> Prop) R :
  new_region w w1 size r m -> layout_wf c ->
  (forall e pat, arm (Some e) pat c (mp_bytes m) = (Some e, mp_bytes m)) ->
  (forall e w2, world_ok w2 -> drew w1 w2 -> mapped w2 r m -> Q (Some e) w2) ->
  (forall w2 pat armed, drew w1 w2 -> cn_done (w_canary w2) = Some None -> pat = cn_pattern (w_canary w2) ->
     arm None pat c (mp_bytes m) = (None, armed) -> zlen armed = rg_inner r -> intact None pat c armed = true ->
     Q None (set_mem (insert (rg_base r) (with_bytes armed m)) w2)) ->
  wp (Arena.armRegion r c) Q R w1.
Proof.
  intros N Hwf Herr He Hok. pose proof (nr_map _ _ _ _ _ N) as Hm. unfold Arena.armRegion.
  destruct (prot_rw_access m (md_held _ _ _ Hm) (nr_prot _ _ _ _ _ N)) as [Hrd Hwr].
  apply wp_bind, wp_canaryInit. intros e w2 Hd Hc. pose proof (drew_ok _ _ Hd (nr_ok _ _ _ _ _ N)) as W2.
  assert (mapped w2 r m) as Hm2 by (destruct Hd as [->|(c' & _ & ->)]; [done|by destruct Hm]).
  apply wp_bind, wp_gets, wp_bind. eapply wp_mem_load; [apply Hm2|done|]. apply wp_bind. destruct e as [e|].
  - rewrite Herr. cbn [fst snd]. eapply wp_mem_store; [apply Hm2|done|]. apply wp_ret.
    replace (with_bytes (mp_bytes m) m) with m by by destruct m. rewrite set_mem_id by apply Hm2. by apply He.
  - destruct (canary_exact (cn_pattern (w_canary w2)) c (mp_bytes m) Hwf) as (armed & Ea & Hlen & _ & Hin). rewrite Ea. cbn [fst snd].
    eapply wp_mem_store; [apply Hm2|done|]. apply wp_ret. eapply Hok; [done|by apply Hc|done|exact Ea| |].
    + unfold zlen. rewrite Hlen. apply (md_len _ _ _ Hm).
    + by apply Hin.
Qed.

(** The armed slab still holds zeros in every slot. *)
Lemma armed_slots st m pat armed :
  shape st -> as_count st * as_stride st <= zlen (mp_bytes m) -> mp_bytes m = zeros (zlen (mp_bytes m)) ->
  arm None pat (arenaCanary (as_stride st) (as_slotSize st) (as_count st) (zlen (mp_bytes m))) (mp_bytes m) = (None, armed) ->
  forall i, 0 <= i < as_count st -> slot_bytes st (with_bytes armed m) i = zeros (as_slotSize st).
Proof.
  intros Sh Hfit Hz Ea i Hi. pose proof Sh as [H1 H2 H3 H4 H5]. set (n := zlen (mp_bytes m)) in *.
  assert (layout_wf (arenaCanary (as_stride st) (as_slotSize st) (as_count st) n)) as Hwf.
  { apply arenaCanary_wf; [rewrite H3; unfold canaryLen; lia|lia]. }
  destruct (canary_exact pat _ (mp_bytes m) Hwf) as (armed' & Ea' & Hlen & Hout & _). rewrite Ea in Ea'. injection Ea' as <-.
  destruct (slot_range st i Sh Hi) as (_ & _ & _ & L1 & L2 & L3 & L4). unfold canaryLen in L3.
  assert (zlen armed = n) as Hza by (unfold zlen; by rewrite Hlen).
  unfold slot_bytes. cbn. apply list_eq. intros j. destruct (decide (j < Z.to_nat (as_slotSize st))%nat) as [Hj|Hj].
  - rewrite lookup_lsub by (unfold slot_hi in *; lia). rewrite Hout.
    + rewrite Hz. unfold zeros. rewrite !lookup_replicate_2; [done|lia|]. unfold slot_hi in *. lia.
    + fold n. intros Hin. rewrite H3 in Hin. apply (arenaCanary_partition (as_slotSize st) (as_count st) n) in Hin.
      * apply Hin. exists i. split; [done|]. unfold slot_hi, slot_lo in *. rewrite H3 in *. lia.
      * lia.
      * lia.
      * rewrite <- H3. done.
      * unfold slot_hi in *. lia.
  - rewrite !lookup_ge_None_2; [done|unfold zeros; rewrite length_replicate; lia|].
    rewrite length_lsub by lia. unfold slot_hi. lia.
Qed.

(** A new arena: [count] free zeroed slots of [slotSize] bytes, every strip
    armed, and nothing that existed touched. *)
Definition built_arena w slotSize count (res : gerr + SecureArena) (w' : world) : Prop :=
  world_ok w' /\ frame fp_empty w w' /\ jn_nextKey (w_jan w') <= jn_nextKey (w_jan w) + 1 /\
  match res with
  | inl _ => True
  | inr s => exists p st m, s = ArenaRef p /\ w_arenas w !! p = None /\ w_mem w !! rg_base (as_region st) = None /\
      arena_ok w' p st (seqZ 0 count) false /\ fresh_list count st /\ as_slotSize st = slotSize /\ as_count st = count /\
      as_readOnly st = false /\ slab w' st (seqZ 0 count) m false /\
      intact None (cn_pattern (w_canary w')) (arenaCanary (as_stride st) slotSize count (rg_inner (as_region st))) (mp_bytes m) = true
  end.

Definition arena_reg (w : world) (r : secRegion) (c : canaryLayout) : janitorRegion :=
  JanitorRegion r (w_next w) c None (Some (w_next w + 1)).

Lemma arena_registered w r c m :
  world_ok w -> mapped w r m -> unregistered w r -> cn_done (w_canary w) = Some None ->
  let w1 := with_reg (arena_reg w r c) (with_flag (with_lock w)) in world_ok w1 /\ frame fp_empty w w1.
Proof.
  intros W Hm Hu Hc w1. pose proof (world_ok_with_lock _ W) as W1. pose proof (world_ok_with_flag _ W1) as W2.
  assert (forall f, f ∈ jr_flags (arena_reg w r c) -> f = w_next w + 1) as Hfl by (intros f; unfold jr_flags; cbn; set_solver).
  split.
  - apply world_ok_with_reg; [done| |].
    + constructor.
      * exists m. by destruct Hm.
      * exists 0, false. split; [apply lookup_insert_eq|done].
      * intros f Hf. rewrite (Hfl f Hf). eexists. apply lookup_insert_eq.
      * unfold jr_flags. cbn. apply NoDup_singleton.
      * by right.
    + eapply (unshared_fresh w); [done|done|done|done|]. intros f Hf. rewrite (Hfl f Hf). lia.
  - eapply frame_trans; [by apply frame_with_lock|]. eapply frame_trans; [by apply frame_with_flag|]. apply frame_with_reg, W2.
Qed.

Lemma world_ok_new_arena st w : world_ok w -> world_ok (set_arenas (insert (w_next w) st) (set_next (w_next w + 1) w)).
Proof.
  intros [W1 W2 W3 W4 W5 W6 W7 W8 W9 W10]. constructor; cbn; try done; try lia.
  - by destruct W2.
  - eapply jan_ok_keep; [done|done|..|done|done]; cbn.
    + intros k' jr' Hk'. destruct (ro_map _ _ (jk_res _ W3 _ _ Hk')) as (m' & []). exists m'. by constructor.
    + intros k' jr' Hk'. by apply (ro_lock _ _ (jk_res _ W3 _ _ Hk')).
  - eapply ring_ok_keep; [done|done|by intros ?? -> ?|by intros ???|done].
  - intros f Hs. specialize (W5 f Hs). lia.
  - intros l Hs. specialize (W6 l Hs). lia.
  - intros p Hs. specialize (W7 p Hs). lia.
  - intros p. rewrite lookup_insert_is_Some. intros [<-|[_ Hs]]; [lia|]. specialize (W8 p Hs). lia.
Qed.

Lemma frame_new_arena F st w : world_ok w -> frame F w (set_arenas (insert (w_next w) st) (set_next (w_next w + 1) w)).
Proof.
  intros W. constructor; cbn; try done; try lia. intros p st' Hp _. rewrite lookup_insert_ne; [done|].
  pose proof (wk_arenas _ W p ltac:(eauto)). lia.
Qed.

Lemma returns_NewArena slotSize count opts w :
  world_ok w -> key_room w 1 -> is_int slotSize -> is_int count ->
  returns (Arena.NewArena slotSize count opts) w (fun r w' =>
    match Arena.checkArgs slotSize count (applyOptions opts) with
    | Some e => r = inl e /\ w' = w
    | None => built_arena w slotSize count r w'
    end).
Proof.
  intros W Hroom His Hic. unfold Arena.NewArena, returns. set (c := applyOptions opts).
  destruct (Arena.checkArgs slotSize count c) as [e|] eqn:Echk; [by apply wp_ret|].
  apply checkArgs_spec in Echk as (_ & Hs & Hc & Htot); [|done|done].
  assert (0 < count * (slotSize + canaryLen)) as Hpos by (unfold canaryLen; nia).
  assert (slotSize + canaryLen <= count * (slotSize + canaryLen)) as Hle by (unfold canaryLen in *; nia).
  rewrite (wrap64_id (slotSize + canaryLen)) by (unfold MinInt, canaryLen in *; lia).
  rewrite (Z.mul_comm _ count), (wrap64_id (count * _)) by (unfold MinInt; lia). set (stride := slotSize + canaryLen) in *.
  assert (forall e w', world_ok w' -> frame fp_empty w w' -> w_jan w' = w_jan w -> built_arena w slotSize count (inl e) w') as Hfail.
  { intros e w' W' F' E'. split; [done|]. split; [done|]. split; [rewrite E'; lia|done]. }
  apply wp_bind. eapply wp_returns; [by apply wp_cfg_alloc; [apply W|]|]. intros [e|[[r len] info]] w1 [Ha _].
  { apply wp_ret. destruct Ha as [(Hg & Hok & _) _]. apply Hfail; [by eapply world_ok_grows|by apply grows_frame|by apply grows_nextKey]. }
  destruct (alloc_new _ _ _ _ _ _ W Ha) as (-> & m & N). pose proof (nr_size _ _ _ _ _ N) as Hsz.
  pose proof (nr_map _ _ _ _ _ N) as Hm. pose proof (md_len _ _ _ Hm) as Hlen.
  pose proof (nr_grows _ _ _ _ _ N) as [[G1 G2 G3 G4 G5 G6 G7 G8 G9] _]. cbv zeta.
  assert (layout_wf (arenaCanary stride slotSize count (rg_inner r))) as Hwf by (apply arenaCanary_wf; unfold stride, canaryLen; lia).
  apply wp_bind. eapply wp_armRegion; [exact N|exact Hwf| |intros e w2 W2 D2 M2|intros w2 pat armed D2 Hcd Ep Ea Hza Hin].
  { intros e pat. apply arm_error; [lia|unfold stride, canaryLen; lia|lia]. }
  - destruct (drew_same _ _ D2) as (E1 & E2 & E3 & E4 & E5).
    assert (unregistered w2 r) as U2 by (eapply unregistered_jan; [exact E2|apply N]).
    apply wp_bind. eapply wp_returns; [by apply (wp_free_unregistered r m)|]. intros fe w3 [W3 [M T]].
    apply wp_ret. apply Hfail; [done| |by destruct M; congruence].
    eapply frame_touch_new; [apply (nr_new _ _ _ _ _ N)| |split; done].
    eapply frame_trans; [apply grows_frame, N|by apply drew_frame].
  - destruct (drew_same _ _ D2) as (E1 & E2 & E3 & E4 & E5). pose proof (drew_ok _ _ D2 (nr_ok _ _ _ _ _ N)) as W2.
    assert (mapped w2 r m) as Hm2 by (destruct D2 as [->|(c' & _ & ->)]; [done|by destruct Hm]).
    assert (w_arenas w2 = w_arenas w1 /\ w_locks w2 = w_locks w1 /\ w_next w2 = w_next w1) as (E6 & E7 & E8) by (by destruct D2 as [->|(c' & _ & ->)]).
    set (ma := with_bytes armed m). set (w3 := set_mem (insert (rg_base r) ma) w2).
    assert (mapped w3 r ma) as Hm3 by (eapply mapped_with; [exact Hm2|cbn; lia|done|done|apply lookup_insert_eq]).
    assert (w_jan w3 = w_jan w) as J3 by (cbn; congruence).
    assert (world_ok w3) as W3.
    { eapply world_ok_remap; [exact W2|exact Hm2|cbn; lia|done|done|]. intros _ _. done. }
    assert (unregistered w3 r) as U3 by (eapply (unregistered_jan w1); [cbn; congruence|apply N]).
    assert (frame fp_empty w w3) as F3.
    { eapply frame_touch_new; [apply (nr_new _ _ _ _ _ N)| |apply touch_insert, touch_refl].
      eapply frame_trans; [apply grows_frame, N|by apply drew_frame]. }
    destruct (arena_registered w3 r (arenaCanary stride slotSize count (rg_inner r)) ma W3 Hm3 U3 Hcd) as [W4 F4].
    apply wp_bind, wp_new_lock, wp_bind, wp_new_flag, wp_bind, wp_gets, wp_bind.
    pose proof (world_ok_with_flag _ (world_ok_with_lock _ W3)) as W3'.
    eapply (wp_register _ _ _ _ _ _ _ (with_flag (with_lock w3))); 
      [apply W3'|change (0 <= jn_nextKey (w_jan w3)); rewrite J3; apply W|unfold key_room in *; change (jn_nextKey (w_jan w3) + 1 < 2 ^ 64); by rewrite J3|].
    set (w4 := with_reg _ _) in *. apply wp_bind, wp_modify, wp_ret. cbn [w_next with_lock with_flag set_flags set_locks set_next].
    set (st := ArenaState _ _ _ _ _ _ _ _ _ _ _ _ _ _ _). set (w5 := set_arenas _ _).
    assert (world_ok w5) as W5 by by apply world_ok_new_arena.
    assert (frame fp_empty w w5) as F5.
    { eapply frame_trans; [exact F3|]. eapply frame_trans; [exact F4|]. by apply frame_new_arena. }
    split; [done|]. split; [done|]. split; [change (jn_nextKey (w_jan w3) + 1 <= jn_nextKey (w_jan w) + 1); rewrite J3; lia|].
    assert (shape st) as Sh.
    { constructor; cbn; try done. apply zlen_seedSlots. lia. }
    assert (fresh_list count st) as Fl.
    { constructor; cbn; try done. rewrite wrap32_id; [done|]. unfold MaxInt32 in *. lia. }
    assert (mp_bytes m = zeros (zlen (mp_bytes m))) as Hzm by (rewrite Hlen; apply N).
    assert (forall i, 0 <= i < count -> slot_bytes st ma i = zeros slotSize) as Hzero.
    { apply (armed_slots st m pat armed Sh); [cbn; lia|done|]. cbn. by rewrite Hlen. }
    assert (slab w5 st (seqZ 0 count) ma false) as Sl.
    { constructor; cbn; try done.
      - by destruct Hm3.
      - lia.
      - apply N.
      - eexists. split; [unfold lookup_any; cbn; by rewrite lookup_insert_eq|]. done.
      - apply Forall_forall. intros i Hi%elem_of_seqZ. apply Hzero. lia. }
    pose proof (wk_next _ W3) as Hnx. pose proof (ring_lock_below w3 W3) as Hring.
    exists (w_next w3 + 1 + 1), st, ma. split; [done|]. split.
    { destruct (w_arenas w !! (w_next w3 + 1 + 1)) eqn:E; [|done]. pose proof (wk_arenas _ W _ ltac:(eauto)) as Hb.
      cbn in Hb. rewrite E8, G3 in Hb. lia. }
    split; [apply N|]. split; [|split_and!; try done; change (cn_pattern (w_canary w5)) with (cn_pattern (w_canary w2)); by rewrite <- Ep].
    constructor; cbn; try done.
    + apply lookup_insert_eq.
    + unfold lock_free. cbn. apply lookup_insert_eq.
    + cbn in Hring. lia.
    + apply lookup_insert_eq.
    + by apply fresh_list_ok.
    + intros i g Eg. pose proof (gen_at_range _ _ _ Eg) as Hi. cbn in Hi. rewrite zlen_seedSlots in Hi by lia.
      rewrite (seeded_gen count) in Eg by done. injection Eg as <-. done.
    + intros i Hi%elem_of_seqZ. exists 0. split; [|done]. apply (seeded_gen count); [done|done|lia].
    + pose proof (md_inner _ _ _ Hm). destruct (_ =? 0) eqn:E; [lia|done].
    + pose proof (md_inner _ _ _ Hm). lia.
    + intros _. by exists ma.
Qed.
End life.
