(* ===== verification/ArenaTheorems.v ===== *)
(** * The secure arena's contract

    What a caller of an arena may rely on: the bounds the constructor checks,
    what a new arena is, what [Acquire] hands out, what a callback can reach,
    what [Release] leaves, and [Destroy]. *)
From S2P Require Import Prelude Errors Canary World Memory Frame Sample Quarantine Janitor Process SealAuth SecureBuffer BufferSpec BufferBorrow BufferNew BufferTheorems ArenaList SecureArena ArenaSpec ArenaOps ArenaLife.

(** The argument checks of [NewArena] accept exactly the arenas whose
    slab size fits an [int] (and whose count fits the 32-bit links), and for
    those no computation the code does with the sizes wraps: neither the
    stride, nor the total, nor any slot's start, end or strip end, which stay
    in order and inside the total. *)
Theorem arena_args_bounds slotSize count c :
  is_int slotSize -> is_int count ->
  let stride := wrap64 (slotSize + canaryLen) in
  let total := wrap64 (stride * count) in
  (Arena.checkArgs slotSize count c = None <->
     closedAtRestOpt c = false /\ 0 < slotSize /\ 0 < count <= MaxInt32 /\ count * (slotSize + canaryLen) <= MaxInt) /\
  (Arena.checkArgs slotSize count c = None ->
     stride = slotSize + canaryLen /\ total = count * stride /\ wrap32 (count - 1) = count - 1 /\
     forall i, 0 <= i < count ->
       let start := wrap64 (i * stride) in let end_ := wrap64 (start + slotSize) in let strip_end := wrap64 (start + stride) in
       start = i * stride /\ 0 <= start /\ start < end_ /\ strip_end = end_ + canaryLen /\ strip_end <= total).
Proof.
  intros Hs Hc stride total. split; [by apply checkArgs_spec|]. intros (_ & H1 & H2 & H3)%checkArgs_spec; [|done|done].
  assert (slotSize + canaryLen <= count * (slotSize + canaryLen)) as Hle by (unfold canaryLen in *; nia).
  assert (stride = slotSize + canaryLen) as Es by (unfold stride; rewrite wrap64_id; [done|unfold canaryLen, MinInt in *; lia]).
  assert (0 < count * stride) as Hp by (unfold canaryLen in *; nia). rewrite <- Es in H3.
  assert (total = count * stride) as Et by (unfold total; rewrite Z.mul_comm, wrap64_id; [done|unfold MinInt; lia]).
  split; [done|]. split; [done|]. split; [unfold MaxInt32 in *; rewrite wrap32_id; [done|unfold MaxInt32; lia]|].
  intros i Hi start end_ strip_end. assert (0 <= i * stride) by (unfold canaryLen in *; nia).
  assert (i * stride + stride <= total) by (rewrite Et; unfold canaryLen in *; nia). unfold canaryLen in *.
  assert (start = i * stride) as E1 by (unfold start; rewrite wrap64_id; [done|unfold MinInt; lia]).
  assert (end_ = i * stride + slotSize) as E2 by (unfold end_; rewrite E1, wrap64_id; [done|unfold MinInt; lia]).
  assert (strip_end = i * stride + stride) as E3 by (unfold strip_end; rewrite E1, wrap64_id; [done|unfold MinInt; lia]).
  split_and!; lia.
Qed.

Section contract.
Context `{K : Kernel} {KOk : KernelOk}.
Implicit Types (w : world) (st : arenaState) (m : mapping) (l : list Z).

(** [NewArena], for all arguments: a refused argument or a failed
    allocation leaves nothing behind; otherwise the arena is new, all its
    slots are free in ascending order and zero, every canary strip is armed,
    and nothing else in the process changed. *)
Theorem new_arena_exact slotSize count opts w :
  world_ok w -> key_room w 1 -> is_int slotSize -> is_int count ->
  returns (Arena.NewArena slotSize count opts) w (fun r w' =>
    match Arena.checkArgs slotSize count (applyOptions opts) with
    | Some e => r = inl e /\ w' = w
    | None => built_arena w slotSize count r w'
    end).
Proof. apply returns_NewArena. Qed.

(** C31. [Acquire], in every state: refused with the reason, changing nothing;
    or the slot at the head of the free list, under a handle that is live, and
    whose bytes are zero: no former owner's secret is handed on. *)
Theorem acquire_exact w p st l wd :
  world_ok w -> arena_ok w p st l wd ->
  returns (Arena.Acquire (ArenaRef p)) w (fun r w' =>
    match acquire_refusal st l wd with
    | Some s => r = inl (Sent s) /\ w' = w
    | None => exists i r' s, l = i :: r' /\ r = inr s /\ acquired_as w p st i r' s w'
    end).
Proof. apply returns_Acquire. Qed.

(** C32. A borrow of a slot, in every state: a destroyed or wiped arena and a
    stale handle are refused without running the callback; otherwise the
    callback runs on exactly the slot's range, and if it keeps to the slice it
    got, then on return and on panic alike every other slot and every canary
    strip is as before and the lock is free again. *)
Theorem slot_borrow_exact w p st l wd i g fn (P : option gerr -> list Z -> Prop) (R : list Z -> Prop) :
  world_ok w -> arena_ok w p st l wd -> 0 <= i < as_count st -> Z.odd g = true ->
  (forall m, borrow_refusal st wd i g = None -> slab w st l m false ->
     wp (fn (as_region st) (slot_lo st i) (slot_hi st i))
       (fun e => confined st i m (borrowed (as_mu st) w) (P e)) (confined st i m (borrowed (as_mu st) w) R)
       (borrowed (as_mu st) w)) ->
  wp (Slot.WithBytesErr (SlotRef p i g) (Some fn))
    (fun e w' => match borrow_refusal st wd i g with
       | Some s => e = Some (Sent s) /\ w' = w
       | None => exists b, P e b /\ slot_written w p st l i b w' end)
    (fun w' => borrow_refusal st wd i g = None /\ exists b, R b /\ slot_written w p st l i b w') w.
Proof. apply wp_slot_borrow. Qed.

(** C33. [Release], in every state: a stale handle is a no-op; on a destroyed
    arena only the slot index moves; on a read-only one it is refused and
    nothing changes; otherwise the slot is zero before it goes to the tail of
    the free list, every other slot and strip is untouched, and the report is
    [ErrCanaryViolation] exactly when the slot's strip did not hold the
    pattern, which is armed again (after an emergency wipe the strip is
    neither checked nor armed). *)
Theorem release_exact w p st l wd i g :
  world_ok w -> arena_ok w p st l wd -> 0 <= i < as_count st -> Z.odd g = true ->
  returns (Slot.Release (SlotRef p i g)) w (fun e w' =>
    if negb (liveHandle st i g) then e = None /\ w' = w
    else if as_destroyed st then e = None /\ given_back w p st l wd i g w'
    else if as_readOnly st && negb wd then e = Some (errorf "secmem.ArenaSlot.Release" (Sent ErrReadOnly)) /\ w' = w
    else exists m m' w1, slab w st l m wd /\ w1 = set_mem (insert (rg_base (as_region st)) m') w /\ given_back w1 p st l wd i g w' /\
      (e = None \/ e = Some (errorf "secmem.ArenaSlot.Release" (Sent ErrCanaryViolation))) /\
      (e <> None <-> wd = false /\ strip_bytes st m i <> patternBytes (cn_pattern (w_canary w)) (Z.to_nat canaryLen)) /\
      slot_bytes st m' i = zeros (as_slotSize st) /\
      (wd = false -> strip_bytes st m' i = patternBytes (cn_pattern (w_canary w)) (Z.to_nat canaryLen)) /\
      forall j, 0 <= j < as_count st -> j <> i -> slot_bytes st m' j = slot_bytes st m j /\ strip_bytes st m' j = strip_bytes st m j).
Proof.
  intros W A Hi Ho. eapply wp_returns; [by apply returns_Release|]. intros e w'. cbv beta.
  destruct (negb (liveHandle st i g)); [done|]. destruct (as_destroyed st); [done|]. destruct (as_readOnly st && negb wd); [done|].
  intros (m & Sl & -> & Hg). exists m, (with_bytes (scrubbed st (cn_pattern (w_canary w)) wd i (mp_bytes m)) m). eexists.
  split; [done|]. split; [reflexivity|]. split; [exact Hg|].
  destruct (scrubbed_slots w st l m wd i (cn_pattern (w_canary w)) Sl (ao_shape _ _ _ _ _ A) Hi) as (_ & E2 & E3 & E4).
  split; [destruct (overflowed _ _ _ _ _); auto|]. split; [|done]. unfold overflowed.
  destruct wd; cbn [negb andb]; [naive_solver|]. destruct (decide (strip_bytes st m i = patternBytes (cn_pattern (w_canary w)) (Z.to_nat canaryLen))) as [E|E].
  - rewrite bool_decide_eq_true_2 by done. naive_solver.
  - rewrite bool_decide_eq_false_2 by done. naive_solver.
Qed.

(** [Destroy], in every state, wiped or read-only included: nothing on a
    second call; otherwise the slab is out of every registry and refuses every
    access, nothing of it is left readable unless an error says so, an
    overwritten strip anywhere in the slab is reported, and nothing else in
    the process changed. *)
Theorem arena_destroy_exact w p st l wd :
  world_ok w -> arena_ok w p st l wd ->
  returns (Arena.Destroy (ArenaRef p)) w (fun e w' =>
    if as_destroyed st then e = None /\ w' = w else arena_gone w p st l wd e w').
Proof. apply returns_arenaDestroy. Qed.
End contract.

(** ** A concrete arena: two slots of eight bytes *)

#[local] Existing Instance windows_kernel.
#[local] Existing Instance windows_kernel_ok.

Definition arena_start : world := run (Arena.NewArena 8 2 []) sample_start.
Definition arena_dummy : arenaState :=
  ArenaState 0 secRegion_nil false [] 0 0 0 0 0 0 (AllocInfo false false false false false false false false false) false false 0 0.
Definition arena_st (w : world) : arenaState := default arena_dummy (w_arenas w !! 3).

Lemma arena_start_ok :
  Arena.NewArena 8 2 [] sample_start = Ret (inr (ArenaRef 3)) arena_start /\
  world_ok arena_start /\ arena_ok arena_start 3 (arena_st arena_start) [0; 1] false.
Proof.
  assert (Arena.NewArena 8 2 [] sample_start = Ret (inr (ArenaRef 3)) arena_start) as E by (vm_compute; reflexivity).
  split; [exact E|]. assert (key_room sample_start 1) as Hr by done.
  assert (is_int 8 /\ is_int 2) as [H8 H2] by (unfold is_int, MinInt, MaxInt; lia).
  pose proof (returns_ret _ _ _ _ _ (returns_NewArena 8 2 [] sample_start sample_start_ok Hr H8 H2) E) as H. cbv beta in H.
  change (Arena.checkArgs 8 2 (applyOptions [])) with (@None gerr) in H. cbv iota in H.
  destruct H as (W & _ & _ & p & st & m & [= <-] & _ & _ & A & _). split; [done|].
  unfold arena_st. by rewrite (ao_st _ _ _ _ _ A).
Qed.

Definition arena_held : world := run (Arena.Acquire (ArenaRef 3)) arena_start.

Lemma arena_held_ok :
  Arena.Acquire (ArenaRef 3) arena_start = Ret (inr (SlotRef 3 0 1)) arena_held /\
  world_ok arena_held /\ arena_ok arena_held 3 (arena_st arena_held) [1] false.
Proof.
  destruct arena_start_ok as (_ & W & A).
  assert (Arena.Acquire (ArenaRef 3) arena_start = Ret (inr (SlotRef 3 0 1)) arena_held) as E by (vm_compute; reflexivity).
  split; [exact E|]. pose proof (returns_ret _ _ _ _ _ (returns_Acquire arena_start 3 _ [0; 1] false W A) E) as H. cbv beta in H.
  assert (acquire_refusal (arena_st arena_start) [0; 1] false = None) as Ea by (vm_compute; reflexivity). rewrite Ea in H.
  destruct H as (i & r & s & [= <- <-] & [= <-] & [(g & st' & _ & _ & _ & _ & A' & _) _ W' _]). split; [done|].
  unfold arena_st. by rewrite (ao_st _ _ _ _ _ A').
Qed.

(** The slab's bytes. *)
Definition slab_of (w : world) : option (list Z) := mp_bytes <$> w_mem w !! rg_base (as_region (arena_st w)).

Lemma arena_args_bounds_witness :
  Arena.checkArgs 32 1000 cfg_zero = None /\ wrap64 (wrap64 (32 + canaryLen) * 1000) = 1000 * wrap64 (32 + canaryLen) /\
  Arena.checkArgs (2 ^ 40) (2 ^ 30) cfg_zero <> None.
Proof.
  assert (is_int 32 /\ is_int 1000) as [H1 H2] by (unfold is_int, MinInt, MaxInt; lia).
  assert (Arena.checkArgs 32 1000 cfg_zero = None) as E by (vm_compute; reflexivity).
  split; [exact E|]. split; [exact (proj1 (proj2 (proj2 (arena_args_bounds 32 1000 cfg_zero H1 H2) E)))|by vm_compute].
Defined.

Lemma new_arena_exact_witness :
  returns (Arena.NewArena 8 2 []) sample_start (fun r w' => built_arena sample_start 8 2 r w') /\
  slab_of arena_start = Some (zeros 8 ++ replicate 16 5 ++ zeros 8 ++ replicate 16 5 ++ replicate 16 5).
Proof.
  assert (is_int 8 /\ is_int 2) as [H8 H2] by (unfold is_int, MinInt, MaxInt; lia).
  split; [exact (new_arena_exact 8 2 [] sample_start sample_start_ok ltac:(done) H8 H2)|vm_compute; reflexivity].
Defined.

Lemma acquire_exact_witness :
  returns (Arena.Acquire (ArenaRef 3)) arena_start (fun r w' =>
    match acquire_refusal (arena_st arena_start) [0; 1] false with
    | Some s => r = inl (Sent s) /\ w' = arena_start
    | None => exists i r' s, [0; 1] = i :: r' /\ r = inr s /\ acquired_as arena_start 3 (arena_st arena_start) i r' s w'
    end).
Proof. destruct arena_start_ok as (_ & W & A). exact (acquire_exact arena_start 3 _ [0; 1] false W A). Defined.

(** A callback that fills its slice. *)
Definition fill (x : Z) : Slot.callback (option gerr) := fun r lo hi =>
  mem_copy_in (rg_base r) lo (replicate (Z.to_nat (hi - lo)) x);; mret None.

Lemma fill_confined w st l m (x i : Z) :
  slab w st l m false -> shape st -> 0 <= i < as_count st -> mp_prot m = PROT_RW ->
  wp (fill x (as_region st) (slot_lo st i) (slot_hi st i))
    (fun e => confined st i m (borrowed (as_mu st) w) (fun b => b = replicate (Z.to_nat (as_slotSize st)) x))
    (confined st i m (borrowed (as_mu st) w) (fun _ => False)) (borrowed (as_mu st) w).
Proof.
  intros Sl Sh Hi Hp. pose proof (sl_map _ _ _ _ _ Sl) as Hm. destruct (slot_range st i Sh Hi) as (_ & _ & _ & H1 & H2 & H3 & H4).
  pose proof (sl_fit _ _ _ _ _ Sl) as Hfit. unfold canaryLen in *. pose proof (sp_slot _ Sh) as Hs.
  unfold fill. replace (slot_hi st i - slot_lo st i) with (as_slotSize st) by (unfold slot_hi; lia).
  destruct (prot_rw_access m (md_held _ _ _ Hm) Hp) as [Hrd Hwr]. apply wp_bind.
  eapply wp_mem_copy_in; [apply Hm|done|rewrite (md_len _ _ _ Hm); lia|]. apply wp_ret. exists (replicate (Z.to_nat (as_slotSize st)) x).
  split; [done|]. split; [apply zlen_replicate; lia|done].
Qed.

Definition arena_filled : world := run (Slot.WithBytesErr (SlotRef 3 0 1) (Some (fill 7))) arena_held.

Lemma slot_borrow_exact_witness :
  wp (Slot.WithBytesErr (SlotRef 3 0 1) (Some (fill 7)))
    (fun e w' => exists b, b = replicate 8 7 /\ slot_written arena_held 3 (arena_st arena_held) [1] 0 b w') (fun _ => False) arena_held /\
  slab_of arena_filled = Some (replicate 8 7 ++ replicate 16 5 ++ zeros 8 ++ replicate 16 5 ++ replicate 16 5).
Proof.
  destruct arena_held_ok as (_ & W & A). split; [|vm_compute; reflexivity].
  assert (borrow_refusal (arena_st arena_held) false 0 1 = None) as Eb by (vm_compute; reflexivity).
  assert (0 <= 0 < as_count (arena_st arena_held)) as Hi by (change (as_count (arena_st arena_held)) with 2; lia).
  eapply wp_mono.
  - apply (slot_borrow_exact arena_held 3 _ [1] false 0 1 (fill 7) (fun _ b => b = replicate 8 7) (fun _ => False) W A Hi ltac:(done)).
    intros m _ Sl. apply (fill_confined arena_held _ [1] m 7 0 Sl (ao_shape _ _ _ _ _ A) Hi). exact (sl_prot _ _ _ _ _ Sl).
  - cbv beta. rewrite Eb. done.
  - cbv beta. intros w' (_ & b & [] & _).
Defined.

Lemma release_exact_witness :
  Slot.Release (SlotRef 3 0 1) arena_filled = Ret None (run (Slot.Release (SlotRef 3 0 1)) arena_filled) /\
  slab_of (run (Slot.Release (SlotRef 3 0 1)) arena_filled) = slab_of arena_start /\
  returns (Slot.Release (SlotRef 3 0 1)) arena_held (fun e w' =>
    exists w1, given_back w1 3 (arena_st arena_held) [1] false 0 1 w' /\ (e = None \/ e = Some (errorf "secmem.ArenaSlot.Release" (Sent ErrCanaryViolation)))).
Proof.
  split; [vm_compute; reflexivity|]. split; [vm_compute; reflexivity|]. destruct arena_held_ok as (_ & W & A).
  assert (0 <= 0 < as_count (arena_st arena_held)) as Hi by (change (as_count (arena_st arena_held)) with 2; lia).
  eapply wp_returns; [exact (release_exact arena_held 3 _ [1] false 0 1 W A Hi ltac:(done))|]. intros e w'. cbv beta.
  change (liveHandle (arena_st arena_held) 0 1) with true. change (as_destroyed (arena_st arena_held)) with false.
  change (as_readOnly (arena_st arena_held)) with false. cbn [negb andb]. intros (m & m' & w1 & _ & _ & Hg & He & _). eauto.
Defined.

Lemma arena_destroy_exact_witness :
  returns (Arena.Destroy (ArenaRef 3)) arena_held (arena_gone arena_held 3 (arena_st arena_held) [1] false) /\
  Slot.Release (SlotRef 3 0 1) (run (Arena.Destroy (ArenaRef 3)) arena_held) =
    Ret None (run (Slot.Release (SlotRef 3 0 1)) (run (Arena.Destroy (ArenaRef 3)) arena_held)).
Proof.
  destruct arena_held_ok as (_ & W & A). split; [|vm_compute; reflexivity].
  exact (arena_destroy_exact arena_held 3 _ [1] false W A).
Defined.
