(* ===== verification/Capabilities.v ===== *)
(** * Capability reports (capabilities.go)

    The [Capabilities] record, the start-up probe, the list of warnings and the
    one-line summary. Facts the build fixes (GOARCH and the runtimesecret
    experiment, which select wipe_amd64.go, wipe_arm64.go or wipe_generic.go,
    scrub_archflag_asm.go or scrub_archflag_generic.go, and
    scrub_runtimesecret.go or scrub_legacy.go) are the class [Build]; the sticky
    flag of scrub_window_unix.go is an argument. *)
From S2P Require Import Prelude Errors Canary World Memory Frame Effects Quarantine SecureBuffer SecureArena Sample.

Record Capabilities : Type := MkCapabilities {
  GOOS : string;
  GOARCH : string;
  OffHeap : bool;
  Mlocked : bool;
  MemfdSecret : bool;
  NoDump : bool;
  NoFork : bool;
  FlushedWipe : bool;
  RuntimeSecret : bool;
  FrameScrub : bool;
  AsyncPreemptSuppressed : bool;
  VectorRegisterClear : bool;
  GPRegisterClear : bool;
  GuardPages : bool;
  Insecure : bool;
  UnauthenticatedSeal : bool;
  ClosedAtRest : bool;
  DestroyQuarantine : bool
}.

Class Build : Type := {
  b_goarch : string;
  b_runtimesecret : bool
}.

(** The zero [allocInfo]. *)
Definition allocInfo_zero : allocInfo := AllocInfo false false false false false false false false false.

(** [if on { w = append(w, line) }]. *)
Definition warn (on : bool) (line : string) (w : list string) : list string :=
  if on then w ++ [line] else w.

Definition Warnings (c : Capabilities) : list string :=
  let w := [] in
  let w := warn (Insecure c) "INSECURE: plain heap fallback — no memory protection is in force at all" w in
  let w := warn (negb (OffHeap c) && negb (Insecure c))
    "memory is on the Go heap — not locked, not excluded from dumps, and not wiped when the collector frees it" w in
  let w := if negb (Mlocked c)
           then w ++ ["pages are not locked — secrets may be written to the swap device"%string]
           else warn (String.eqb (GOOS c) "windows")
             "VirtualLock pins pages into the working set only — when an idle process is outswapped, locked pages go to the pagefile with it" w in
  let w := warn (negb (MemfdSecret c))
    "no kernel isolation (memfd_secret) — a sufficiently privileged process or debugger can read the memory" w in
  let w := warn (negb (NoDump c)) "not excluded from core dumps" w in
  let w := warn (negb (NoFork c) && negb (String.eqb (GOOS c) "windows"))
    "mapping is inherited by forked children (no MADV_DONTFORK)" w in
  let w := warn (negb (FlushedWipe c))
    "wipe is a constant-time store only — no cache-line flush on this architecture" w in
  let w := warn (negb (RuntimeSecret c))
    "runtime/secret erasure inactive — Scrub is a best-effort stack-frame wipe" w in
  let w := warn (negb (FrameScrub c) && negb (RuntimeSecret c))
    "no stack scrub on this architecture — Scrub does not erase stack residue at all" w in
  let w := warn (negb (AsyncPreemptSuppressed c))
    "async preemption not suppressed — the runtime may spill the register file to the stack inside a Scrub window" w in
  let w := warn (negb (VectorRegisterClear c) && negb (RuntimeSecret c))
    "vector registers not cleared after a Scrub window — residue from vectorised crypto survives on this architecture" w in
  let w := warn (negb (GPRegisterClear c) && negb (RuntimeSecret c))
    "general-purpose registers not cleared after a Scrub window — residue from scalar code and short copies survives on this architecture" w in
  let w := warn (negb (GuardPages c)) "no guard pages — buffer overflows are not trapped" w in
  let w := warn (UnauthenticatedSeal c)
    "seal is not authenticated (WithUnauthenticatedSeal) — a bit flipped while sealed is handed back as the secret" w in
  warn (negb (DestroyQuarantine c))
    "no destroy quarantine — a slice retained past Destroy can alias the next allocation" w.

(** [flag] of [String]: the closure's two slices are its state. *)
Definition flag (name : string) (on : bool) (hm : list string * list string) : list string * list string :=
  if on then (hm.1 ++ [name], hm.2) else (hm.1, hm.2 ++ [name]).

Definition flags (c : Capabilities) : list string * list string :=
  let hm := ([], []) in
  let hm := flag "off-heap" (OffHeap c) hm in
  let hm := flag "mlock" (Mlocked c) hm in
  let hm := flag "memfd_secret" (MemfdSecret c) hm in
  let hm := flag "no-dump" (NoDump c) hm in
  let hm := flag "no-fork" (NoFork c) hm in
  let hm := flag "wipe+flush" (FlushedWipe c) hm in
  let hm := flag "runtime-secret" (RuntimeSecret c) hm in
  let hm := flag "frame-scrub" (FrameScrub c) hm in
  let hm := flag "preempt-suppress" (AsyncPreemptSuppressed c) hm in
  let hm := flag "vector-clear" (VectorRegisterClear c) hm in
  let hm := flag "gp-clear" (GPRegisterClear c) hm in
  let hm := flag "guard-pages" (GuardPages c) hm in
  let hm := flag "destroy-quarantine" (DestroyQuarantine c) hm in
  if ClosedAtRest c then (hm.1 ++ ["closed-at-rest"%string], hm.2) else hm.

Definition bracket (label : string) (l : list string) : string :=
  match l with
  | [] => ""
  | _ => label +:+ String.concat " " l +:+ "]"
  end.

Definition String_ (c : Capabilities) : string :=
  let '(have, miss) := flags c in
  GOOS c +:+ "/" +:+ GOARCH c
    +:+ (if Insecure c then " INSECURE(heap)" else "")
    +:+ (if UnauthenticatedSeal c then " unauthenticated-seal" else "")
    +:+ bracket " [" have +:+ bracket " missing:[" miss.

Section caps.
Context `{Kernel} `{Build}.

Definition runtime_GOOS : string := match k_os with Linux => "linux" | Windows => "windows" end.

(** The build-tagged constants: assembly exists for amd64 and arm64. *)
Definition asm_arch : bool := String.eqb b_goarch "amd64" || String.eqb b_goarch "arm64".
Definition archWipeFlushed : bool := asm_arch.
Definition archFrameScrub : bool := asm_arch.
Definition archVectorClear : bool := asm_arch.
Definition archGPClear : bool := asm_arch.
Definition RuntimeSecretActive : bool :=
  b_runtimesecret && match k_os with Linux => true | Windows => false end && asm_arch.
Definition asyncPreemptSuppressionInForce (suppressFailed : bool) : bool :=
  match k_os with Linux => negb suppressFailed | Windows => false end.

Definition capsFromAlloc (suppressFailed : bool) (info : allocInfo) : GM Capabilities :=
  inForce ← (if ai_guardPages info then quarantineInForce else mret false);
  mret (MkCapabilities runtime_GOOS b_goarch
    (ai_offHeap info) (ai_mlocked info) (ai_memfdSecret info) (ai_noDump info) (ai_noFork info)
    archWipeFlushed RuntimeSecretActive archFrameScrub (asyncPreemptSuppressionInForce suppressFailed)
    archVectorClear archGPClear (ai_guardPages info) (ai_insecure info)
    (ai_unauthenticatedSeal info) (ai_closedAtRest info) inForce).

Definition Probe (suppressFailed : bool) : GM Capabilities :=
  r ← allocSecretMem 1;
  match r with
  | inl _ => capsFromAlloc suppressFailed allocInfo_zero
  | inr (region, _, info) =>
      wipeInner region;;
      _ ← freeSecretMem region;
      capsFromAlloc suppressFailed info
  end.

(** The two methods. A nil wrapper, or one without state, reports the zero
    allocation. *)
Definition SecureBuffer_Capabilities (suppressFailed : bool) (s : SecureBuffer) : GM Capabilities :=
  match s with
  | Ref p => st ← buf_get p; capsFromAlloc suppressFailed (bs_backing st)
  | _ => capsFromAlloc suppressFailed allocInfo_zero
  end.
Definition SecureArena_Capabilities (suppressFailed : bool) (a : SecureArena) : GM Capabilities :=
  match a with
  | ArenaRef p => st ← ar_get p; capsFromAlloc suppressFailed (as_backing st)
  | _ => capsFromAlloc suppressFailed allocInfo_zero
  end.
End caps.

(** ** What the two renderings say *)

(** The process has every protection the library can provide. *)
Record fully_protected (c : Capabilities) : Prop := FullyProtected {
  fp_insecure : Insecure c = false;
  fp_offheap : OffHeap c = true;
  fp_mlock : Mlocked c = true;
  fp_memfd : MemfdSecret c = true;
  fp_nodump : NoDump c = true;
  fp_nofork : NoFork c = true;
  fp_flush : FlushedWipe c = true;
  fp_rtsecret : RuntimeSecret c = true;
  fp_preempt : AsyncPreemptSuppressed c = true;
  fp_guards : GuardPages c = true;
  fp_sealed : UnauthenticatedSeal c = false;
  fp_quar : DestroyQuarantine c = true
}.

Lemma warn_nil on l w : warn on l w = [] <-> on = false /\ w = [].
Proof. unfold warn. destruct on; [|naive_solver]. split; [by intros [_ ?]%app_nil|naive_solver]. Qed.

(** Everything but Windows: no line is left exactly when everything is in force;
    runtime/secret stands in for the three fallback layers. *)
Lemma warnings_none c :
  GOOS c <> "windows"%string -> Warnings c = [] <-> fully_protected c.
Proof.
  intros Hos. apply String.eqb_neq in Hos. unfold Warnings. rewrite Hos. cbn [negb]. rewrite !andb_true_r.
  split.
  - intros Hw. repeat (apply warn_nil in Hw as [? Hw]). destruct (Mlocked c) eqn:Hm; [|discriminate].
    repeat match goal with H : negb _ = false |- _ => apply negb_false_iff in H
      | H : _ && _ = false |- _ => apply andb_false_iff in H as [?|?] end; constructor; congruence.
  - intros []. repeat match goal with H : ?f c = _ |- _ => rewrite H; clear H end.
    by rewrite !andb_false_r.
Qed.

(** Windows never gets an empty list: VirtualLock only pins the working set. *)
Lemma warnings_windows c : GOOS c = "windows"%string -> Warnings c <> [].
Proof.
  intros Hos. unfold Warnings. rewrite Hos. change (String.eqb "windows" "windows") with true.
  destruct (Mlocked c); cbn [negb warn]; intros Hw; repeat (apply warn_nil in Hw as [_ Hw]);
    by apply app_nil in Hw as [_ ?].
Qed.

(** ** What the probe finds *)

Section probe.
Context `{!Kernel, !KernelOk, !Build}.

(** The facts the two allocators report of a region they hand out. *)
Record backed (info : allocInfo) : Prop := Backed {
  bk_offHeap : ai_offHeap info = true;
  bk_mlocked : ai_mlocked info = true;
  bk_guards : ai_guardPages info = true;
  bk_insecure : ai_insecure info = false;
  bk_auth : ai_unauthenticatedSeal info = false;
  bk_closed : ai_closedAtRest info = false;
  bk_memfd : ai_memfdSecret info = true -> k_os = Linux;
  bk_nofork : ai_noFork info = true -> k_os = Linux
}.

Definition alloc_facts w0 (r : gerr + (secRegion * Z * allocInfo)) (w' : world) : Prop :=
  zero_beyond w0 w' /\ match r with inl _ => True | inr (_, _, info) => backed info end.

Lemma anon_facts w0 rounded total w :
  k_os = Linux -> zero_beyond w0 w ->
  returns (allocMapAnonGuarded rounded total) w (fun r w' => zero_beyond w0 w' /\
    match r with inl _ => True | inr (_, info) => backed info end).
Proof.
  intros Hos Hz. unfold returns, allocMapAnonGuarded, reserveGuarded, unmapOnError.
  inv_walk (zero_beyond w0); by repeat split.
Qed.

Lemma alloc_secret_facts w0 size w :
  zero_beyond w0 w -> returns (allocSecretMem size) w (alloc_facts w0).
Proof.
  intros Hz. unfold returns, allocSecretMem. destruct k_os eqn:Hos.
  - unfold allocSecretMem_linux. destruct (guardedSizes size) as [|[[] ?]]; [by apply wp_ret|].
    wpsteps. eapply wp_returns; [by apply (inv_memfd (zero_beyond w0))|]. intros [?|[reg nf]] w1 Hz1; wpsteps; [|by repeat split].
    eapply wp_returns; [by apply anon_facts|]. intros [?|[r info]] w2 [Hz2 Hb]; wpsteps; by split.
  - unfold allocSecretMem_windows, werExcludeFromDumps. inv_walk (zero_beyond w0); by repeat split.
Qed.

(** With no call failing the allocation succeeds. *)
Lemma alloc_secret_succeeds size w :
  (forall t, k_errno t = None) -> mem_ok w ->
  0 < size -> size + 4 * k_page <= MaxInt ->
  returns (allocSecretMem size) w (fun r _ => exists a, r = inr a).
Proof.
  intros Hno Hok Hpos Hmax. pose proof k_page_pos. pose proof k_page_max.
  assert (exists rounded total, guardedSizes size = inr (k_page, rounded, total)) as (rounded & total & E).
  { unfold guardedSizes. rewrite (wrap64_id (3 * k_page)), (wrap64_id (MaxInt - 3 * k_page))
      by (unfold MinInt, MaxInt in *; lia).
    destruct (size <=? 0) eqn:E1; [lia|]. destruct (MaxInt - 3 * k_page <? size) eqn:E2; [lia|]. eauto. }
  assert (forall (Q : option gerr -> world -> Prop) R w1, Q None (tick w1) -> wp sys Q R w1) as Hsys
    by (intros Q R w1 HQ; unfold wp, sys; by rewrite Hno).
  assert (forall b f m (Q : option gerr -> world -> Prop) R w1, w_mem w1 !! b = Some m ->
    Q None (set_mem (insert b (f m)) (tick w1)) -> wp (k_change b f) Q R w1) as Hch.
  { intros b f m Q R w1 Hb HQ. unfold k_change. wpsteps. rewrite Hb. wpsteps. apply Hsys. by wpsteps. }
  assert (forall n memfd (Q : gerr + Z -> world -> Prop) R w1,
    (forall b w2, is_Some (w_mem w2 !! b) -> Q (inr b) w2) -> wp (k_mmap n memfd) Q R w1) as Hmm.
  { intros n memfd Q R w1 HQ. unfold k_mmap. wpsteps. apply Hsys. wpsteps. apply HQ. cbn.
    rewrite lookup_insert_eq. by eexists. }
  assert (forall rounded total w1, returns (allocMapAnonGuarded rounded total) w1 (fun r _ => exists a, r = inr a)) as Hanon.
  { intros r0 t0 w1. unfold returns, allocMapAnonGuarded, reserveGuarded. wpsteps. apply Hmm. intros b w2 [m Hm].
    wpsteps. eapply Hch; [done|]. wpsteps. eapply Hch; [cbn; apply lookup_insert_eq|].
    do 4 (wpsteps; apply Hsys). wpsteps. eauto. }
  unfold returns, allocSecretMem, allocSecretMem_linux, allocSecretMem_windows. rewrite E. destruct k_os.
  - wpsteps. unfold allocMemfdSecret. destruct (negb k_memfd_arch); wpsteps.
    { eapply wp_returns; [apply Hanon|]. intros ? w2 [[reg info] ->]. apply wp_ret. eauto. }
    do 2 (apply Hsys; wpsteps). apply Hmm. intros b w2 [m Hm]. wpsteps. apply Hsys. wpsteps.
    eapply Hch; [done|]. do 2 (wpsteps; apply Hsys). wpsteps. eauto.
  - wpsteps. apply Hmm. intros b w2 [m Hm]. wpsteps. eapply Hch; [done|]. wpsteps.
    eapply Hch; [cbn; apply lookup_insert_eq|]. wpsteps. unfold werExcludeFromDumps.
    case_match; [by apply wp_ret; apply wp_ret; eauto|]. do 2 (wpsteps; apply Hsys). wpsteps. eauto.
Qed.

(** The process-wide half of a report. *)
Record process_facts (sf : bool) (c : Capabilities) : Prop := ProcessFacts {
  pf_goos : GOOS c = runtime_GOOS;
  pf_goarch : GOARCH c = b_goarch;
  pf_flush : FlushedWipe c = asm_arch;
  pf_secret : RuntimeSecret c = RuntimeSecretActive;
  pf_frame : FrameScrub c = asm_arch;
  pf_preempt : AsyncPreemptSuppressed c = asyncPreemptSuppressionInForce sf;
  pf_vector : VectorRegisterClear c = asm_arch;
  pf_gp : GPRegisterClear c = asm_arch;
  pf_insecure : Insecure c = false;
  pf_auth : UnauthenticatedSeal c = false;
  pf_closed : ClosedAtRest c = false
}.

(** The per-allocation half: all of the region's protections, or none. *)
Definition allocation_facts (l : QuarantineLimits) (c : Capabilities) : Prop :=
  Mlocked c = OffHeap c /\ GuardPages c = OffHeap c /\
  DestroyQuarantine c = OffHeap c && ((0 <? ql_Regions l) && (0 <? ql_Bytes l)) /\
  (MemfdSecret c = true \/ NoFork c = true -> k_os = Linux) /\
  (OffHeap c = false -> MemfdSecret c = false /\ NoDump c = false /\ NoFork c = false).

Definition reported (sf : bool) (w : world) (c : Capabilities) : Prop :=
  process_facts sf c /\ allocation_facts (q_limits (w_quar w)) c.

Lemma caps_backed sf info w :
  backed info -> returns (capsFromAlloc sf info) w (fun c w' => w' = w /\ reported sf w c /\ OffHeap c = true).
Proof.
  destruct info as [oh ml mf nd nf gp ins ua cl]. intros []. cbn in *. subst.
  unfold returns, capsFromAlloc, quarantineInForce. wpsteps. split; [done|]. split; [|done].
  split; [by constructor|]. unfold allocation_facts. cbn. naive_solver.
Qed.

Lemma caps_zero sf w :
  returns (capsFromAlloc sf allocInfo_zero) w (fun c w' => w' = w /\ reported sf w c /\ OffHeap c = false).
Proof.
  unfold returns, capsFromAlloc. cbn [ai_guardPages allocInfo_zero]. wpsteps. split; [done|]. split; [|done].
  split; [by constructor|]. unfold allocation_facts. cbn. naive_solver.
Qed.

(** A truthful report has no warning exactly when nothing is left to protect. *)
Lemma reported_warnings sf w c :
  reported sf w c -> Warnings c = [] <->
    k_os = Linux /\ asm_arch = true /\ b_runtimesecret = true /\ sf = false /\
    0 < ql_Regions (q_limits (w_quar w)) /\ 0 < ql_Bytes (q_limits (w_quar w)) /\
    OffHeap c = true /\ MemfdSecret c = true /\ NoDump c = true /\ NoFork c = true.
Proof.
  intros [P (Em & Eg & Eq & Hl & _)]. destruct P. unfold runtime_GOOS, RuntimeSecretActive, asyncPreemptSuppressionInForce in *.
  destruct k_os eqn:Hos.
  - rewrite warnings_none by (by rewrite pf_goos0). rewrite andb_true_r in pf_secret0. split.
    + intros []. rewrite fp_rtsecret0 in pf_secret0. symmetry in pf_secret0. apply andb_true_iff in pf_secret0 as [? ?].
      rewrite fp_quar0, fp_offheap0 in Eq. symmetry in Eq. apply andb_true_iff in Eq as [? Eq]. apply andb_true_iff in Eq as [? ?].
      rewrite fp_preempt0 in pf_preempt0. symmetry in pf_preempt0. apply negb_true_iff in pf_preempt0.
      repeat split; first [done|lia].
    + intros (_ & Ha & Hb & -> & HR & HB & Ho & ?). rewrite Ha, Hb in *.
      assert ((0 <? ql_Regions (q_limits (w_quar w))) = true) as E1 by lia.
      assert ((0 <? ql_Bytes (q_limits (w_quar w))) = true) as E2 by lia. rewrite E1, E2, Ho in *.
      constructor; naive_solver.
  - split; [|naive_solver]. intros Hw. exfalso. by apply (warnings_windows c).
Qed.

Lemma alloc_or_fail w :
  mem_ok w -> returns (allocSecretMem 1) w (fun r _ =>
    (forall t, k_errno t = None) -> 1 + 4 * k_page <= MaxInt -> exists a, r = inr a).
Proof.
  intros Hok. assert (1 <= MaxInt) as Hone by (unfold MaxInt; lia).
  destruct (returns_run _ _ _ (alloc_secret_spec 1 w Hone Hok)) as (r & w1 & E & _).
  unfold returns, wp. rewrite E. intros Hno Hpg.
  eapply (returns_ret _ _ _ _ _ (alloc_secret_succeeds 1 w Hno Hok _ Hpg) E).
  Unshelve. lia.
Qed.

Lemma reported_quar sf w w' c : w_quar w' = w_quar w -> reported sf w' c -> reported sf w c.
Proof. intros E. unfold reported. by rewrite E. Qed.

(** [Probe] allocates for real and gives everything back: it returns
    whatever the kernel does, every mapping there was is as it was and nothing
    but zeros can be left beside them, and no other state changes. Its report
    has the process-wide facts of this build; the per-allocation facts are all
    those of a locked region between guard pages, or, exactly when the
    allocation failed, all false - and with no call failing it succeeds. The
    report's list of warnings is empty exactly when every protection is in
    force, which no Windows process reaches. *)
Theorem probe_exact sf w :
  mem_ok w ->
  returns (Probe sf) w (fun c w' =>
    mem_only w w' /\ w_mem w ⊆ w_mem w' /\ zero_beyond w w' /\ reported sf w c /\
    ((forall t, k_errno t = None) -> 1 + 4 * k_page <= MaxInt -> OffHeap c = true) /\
    (Warnings c = [] <->
       k_os = Linux /\ asm_arch = true /\ b_runtimesecret = true /\ sf = false /\
       0 < ql_Regions (q_limits (w_quar w)) /\ 0 < ql_Bytes (q_limits (w_quar w)) /\
       OffHeap c = true /\ MemfdSecret c = true /\ NoDump c = true /\ NoFork c = true)).
Proof.
  intros Hok. unfold Probe. wpsteps.
  assert (1 <= MaxInt) as Hone by (unfold MaxInt; lia).
  eapply (wp_mono _ (fun r w1 => (alloc_spec w 1 r w1 /\ alloc_facts w r w1) /\
      ((forall t, k_errno t = None) -> 1 + 4 * k_page <= MaxInt -> exists a, r = inr a)) _ (fun _ => False)).
  { eapply wp_mono; [apply wp_and; [apply wp_and;
      [by apply alloc_secret_spec|apply alloc_secret_facts, zb_refl]
      |by apply alloc_or_fail]| |]. all: naive_solver. }
  2: done.
  intros [e|[[r n] info]] w1 [[[((M1 & G1) & Hok1 & Ha) _] [Hz Hb]] Hs].
  - eapply wp_returns; [apply caps_zero|]. intros c ? (-> & Hr & Ho).
    apply (reported_quar _ w) in Hr; [|apply M1]. split; [done|]. split; [done|]. split; [done|]. split; [done|].
    split; [intros Hno Hpg; by destruct (Hs Hno Hpg)|by eapply reported_warnings].
  - destruct Ha as [Hnew _ (m & Hm & Hbytes & Hp & _) _ _ _]. wpsteps. eapply wp_wipeInner; [done..|]. wpsteps.
    set (m' := with_bytes (zeros (rg_inner r)) m).
    eapply wp_returns; [apply (wp_freeSecretMem r m')|].
    { destruct Hm. constructor; cbn; try done; [apply lookup_insert_eq|].
      rewrite zlen_zeros; cbn in *; lia. }
    intros e w2 [T2 H2]. eapply wp_returns; [by apply caps_backed|]. intros c ? (-> & Hr & Ho).
    assert (touch (rg_base r) w1 w2) as T by (eapply touch_trans; [|exact T2]; auto with secmem).
    assert (mem_only w w2) as M2 by (eapply mem_only_trans; [exact M1|apply T]).
    apply (reported_quar _ w) in Hr; [|apply M2]. split; [done|]. split; [|split].
    + apply map_subseteq_spec. intros b x Hx. assert (b <> rg_base r) by (intros ->; cbn in *; congruence).
      destruct T as [_ T]. rewrite T by done. by eapply lookup_weaken.
    + intros b x Hx. destruct (decide (b = rg_base r)) as [->|Hne].
      * right. destruct e; [|congruence]. destruct H2 as (x' & Hx' & E & _). assert (x = x') as -> by congruence.
        rewrite E. apply all_zero_zeros.
      * destruct T as [_ T]. rewrite T in Hx by done. by apply Hz.
    + split; [done|]. split; [done|by eapply reported_warnings].
Qed.
End probe.

(** The 1-byte probe on the sample Linux kernel of an amd64 build: everything
    but memfd_secret and runtime/secret. *)
Definition sample_build : Build := {| b_goarch := "amd64"; b_runtimesecret := false |}.
Lemma probe_exact_witness :
  let w := start_world DefaultQuarantineLimits in
  mem_ok w /\
  match @Probe linux_kernel sample_build false w with
  | Ret c w' => w_mem w ⊆ w_mem w' /\ OffHeap c = true /\ length (Warnings c) = 2%nat
  | _ => False
  end.
Proof.
  intros w. assert (mem_ok w) as Hok by (intros b m Hb; discriminate (eq_trans (eq_sym (lookup_empty b)) Hb)).
  split; [exact Hok|].
  assert (match @Probe linux_kernel sample_build false w with
          | Ret c _ => (OffHeap c, length (Warnings c)) | _ => (false, 0%nat) end = (true, 2%nat)) as Hc
    by (unfold w; vm_compute; reflexivity).
  pose proof (@probe_exact linux_kernel linux_kernel_ok sample_build false w Hok) as HP.
  unfold returns, wp in HP. destruct (@Probe linux_kernel sample_build false w) as [c w'| | |]; [|destruct HP..].
  destruct HP as (_ & Hsub & _). split; [exact Hsub|].
  exact (conj (f_equal fst Hc) (f_equal snd Hc)).
Defined.
