(* ===== verification/Termination.v ===== *)
(** * The termination handler (terminationwipe.go, terminationexit_*.go,
      terminationignore_signal.go)

    The handler goroutine of [InstallTerminationWipe] as a state machine over
    what it sees of the process: its channel of capacity one, its registration
    with os/signal, the channel its uninstall function closes, and the calls it
    makes. Signals are delivered, the wipe finishes or times out, and the
    re-raise succeeds or fails, at the environment's choice. *)
From S2P Require Import Prelude Errors World.

(** An [os.Signal]: a [syscall.Signal], or a caller's own implementation. *)
Inductive ossignal : Type := Signal (n : Z) | ForeignSignal (n : Z).
#[global] Instance ossignal_eq_dec : EqDecision ossignal.
Proof. solve_decision. Defined.

Definition SIGINT : ossignal := Signal 2.
Definition SIGTERM : ossignal := Signal 15.

(** The signals handled when the caller names none. *)
Definition handled_signals (signals : list ossignal) : list ossignal :=
  match signals with [] => [SIGINT; SIGTERM] | _ => signals end.

(** What the handler does, in the order it does it. *)
Inductive event : Type :=
| EvWipe (sig : ossignal) (completed : bool)
| EvWarnTimeout (sig : ossignal)
| EvStop
| EvReraise (sig : ossignal) (err : option gerr)
| EvWarnStays (sig : ossignal) (err : gerr)
| EvWarnExits (sig : ossignal) (err : gerr)
| EvExit (status : Z)
| EvNotify
| EvRearmed.

Definition errInheritedIgnored : gerr :=
  Msg "secmem: the signal was ignored when the handler was installed (an inherited disposition), so re-raising it would be discarded".

Definition forcedExitStatus (os : goos) : Z := match os with Linux => 130 | Windows => -1073741510 end.

(** [inheritedIgnores]: the map from a [syscall.Signal] to whether it was
    ignored; [recordInheritedIgnores] reads it before Notify. *)
Definition inheritedIgnores : Type := gmap Z bool.
Fixpoint recordInheritedIgnores (Ignored : Z -> bool) (rec : inheritedIgnores) (signals : list ossignal) : inheritedIgnores :=
  match signals with
  | [] => rec
  | Signal s :: signals => recordInheritedIgnores Ignored (<[s := Ignored s]> rec) signals
  | ForeignSignal _ :: signals => recordInheritedIgnores Ignored rec signals
  end.
Definition ignored (rec : inheritedIgnores) (sig : ossignal) : bool :=
  match sig with
  | Signal s => default false (rec !! s)
  | ForeignSignal _ => false
  end.

(** [completeTermination]: the calls made and the value returned. [reraise] is
    the result the re-raise has, if it is attempted. *)
Definition completeTermination (os : goos) (sig : ossignal) (forceExit inheritedIgnore : bool)
    (reraise : option gerr) : list event * bool :=
  let '(calls, err) := if inheritedIgnore then ([], Some errInheritedIgnored)
                       else ([EvReraise sig reraise], reraise) in
  match err with
  | None => (calls, false)
  | Some e =>
      if negb forceExit then (calls ++ [EvWarnStays sig e], true)
      else (calls ++ [EvWarnExits sig e; EvExit (forcedExitStatus os)], false)
  end.

(** The calls include a re-raise that succeeded. *)
Definition reraised (calls : list event) : bool :=
  existsb (fun e => match e with EvReraise _ None => true | _ => false end) calls.

(** ** The handler *)

(** Where the goroutine is: at the select, between the steps of handling a
    signal, on its way out after an uninstall, or returned. *)
Inductive pc : Type :=
| AtSelect
| Wiping (sig : ossignal)
| Stopping (sig : ossignal)
| Deciding (sig : ossignal)
| Notifying
| Leaving
| Returned.

Record handler : Type := Handler {
  h_pc : pc;
  h_notified : bool;           (* registered with os/signal *)
  h_ch : option ossignal;      (* the channel's buffer *)
  h_done : bool;               (* [done] is closed *)
  h_echo : list ossignal;      (* re-raised and not delivered yet *)
  h_trace : list event;
  h_unhandled : list ossignal  (* delivered to the disposition below *)
}.

Section handler.
Context (os : goos) (forceExit : bool) (signals : list ossignal) (inherited : inheritedIgnores).

(** [installTerminationWipeHooks] up to its [go] statement. *)
Definition installed : handler := Handler AtSelect true None false [] [EvNotify] [].

(** os/signal: a registered channel receives the signal unless it is full, in
    which case it is dropped; otherwise the disposition underneath gets it. *)
Definition deliver (sig : ossignal) (h : handler) : handler :=
  if h_notified h && bool_decide (sig ∈ signals)
  then Handler (h_pc h) true (Some (default sig (h_ch h))) (h_done h) (h_echo h) (h_trace h) (h_unhandled h)
  else Handler (h_pc h) (h_notified h) (h_ch h) (h_done h) (h_echo h) (h_trace h) (h_unhandled h ++ [sig]).

(** The returned function: [once.Do(func() { close(done) })]. *)
Definition uninstall (h : handler) : handler :=
  Handler (h_pc h) (h_notified h) (h_ch h) true (h_echo h) (h_trace h) (h_unhandled h).

(** One step of the goroutine. *)
Inductive handler_step : handler -> handler -> Prop :=
| hs_receive n sig d k t u :
    handler_step (Handler AtSelect n (Some sig) d k t u) (Handler (Wiping sig) n None d k t u)
| hs_done n c k t u :
    handler_step (Handler AtSelect n c true k t u) (Handler Leaving n c true k t u)
| hs_wipe sig completed n c d k t u :
    handler_step (Handler (Wiping sig) n c d k t u)
      (Handler (Stopping sig) n c d k
         (t ++ EvWipe sig completed :: if completed then [] else [EvWarnTimeout sig]) u)
| hs_stop sig n c d k t u :
    handler_step (Handler (Stopping sig) n c d k t u) (Handler (Deciding sig) false c d k (t ++ [EvStop]) u)
| hs_decide sig reraise calls rearm n c d k t u :
    completeTermination os sig forceExit (ignored inherited sig) reraise = (calls, rearm) ->
    handler_step (Handler (Deciding sig) n c d k t u)
      (Handler (if rearm then Notifying else Returned) n c d
         (if reraised calls then k ++ [sig] else k) (t ++ calls) u)
| hs_notify n c d k t u :
    handler_step (Handler Notifying n c d k t u) (Handler AtSelect true c d k (t ++ [EvNotify; EvRearmed]) u)
| hs_leave n c d k t u :
    handler_step (Handler Leaving n c d k t u) (Handler Returned false c d k (t ++ [EvStop]) u).

(** The environment: a signal from outside, the echo of a re-raise, or a call of
    the uninstall function. *)
Inductive env_step : handler -> handler -> Prop :=
| es_signal sig h : env_step h (deliver sig h)
| es_echo sig k1 k2 p n c d t u :
    env_step (Handler p n c d (k1 ++ sig :: k2) t u) (deliver sig (Handler p n c d (k1 ++ k2) t u))
| es_uninstall h : env_step h (uninstall h).

Inductive running : handler -> Prop :=
| run_install : running installed
| run_handler h h' : running h -> handler_step h h' -> running h'
| run_env h h' : running h -> env_step h h' -> running h'.

(** ** What a handled signal looks like *)

(** The calls of one handled signal, wipe first. [None] is a signal the handler
    gave up on: re-raised, or the process exited. *)
Inductive round (sig : ossignal) : list event -> bool -> Prop :=
| rd completed reraise calls rearm :
    completeTermination os sig forceExit (ignored inherited sig) reraise = (calls, rearm) ->
    round sig (EvWipe sig completed :: (if completed then [] else [EvWarnTimeout sig]) ++ EvStop :: calls
               ++ if rearm then [EvNotify; EvRearmed] else []) rearm.

(** Complete rounds after which the handler stayed installed. *)
Inductive survived : list event -> Prop :=
| sv_install : survived [EvNotify]
| sv_round t sig r : survived t -> round sig r true -> survived (t ++ r).

(** The trace against the place the goroutine is at. *)
Definition placed (p : pc) (t : list event) : Prop :=
  match p with
  | AtSelect | Wiping _ | Leaving => survived t
  | Stopping sig => exists t0 c, survived t0 /\
      t = t0 ++ EvWipe sig c :: (if c : bool then [] else [EvWarnTimeout sig])
  | Deciding sig => exists t0 c, survived t0 /\
      t = t0 ++ EvWipe sig c :: (if c : bool then [] else [EvWarnTimeout sig]) ++ [EvStop]
  | Notifying => exists t0 sig r, survived t0 /\ t = t0 ++ r /\ round sig (r ++ [EvNotify; EvRearmed]) true
  | Returned => exists t0, survived t0 /\ (t = t0 ++ [EvStop] \/ exists sig r, t = t0 ++ r /\ round sig r false)
  end.

(** ** Invariants *)

Definition registered_at (p : pc) : bool :=
  match p with AtSelect | Wiping _ | Stopping _ | Leaving => true | _ => false end.

Record handler_ok (h : handler) : Prop := HandlerOk {
  ho_placed : placed (h_pc h) (h_trace h);
  ho_registered : h_notified h = registered_at (h_pc h);
  ho_echo : h_echo h <> [] -> h_pc h = Returned
}.

Lemma complete_rearm sig inh rr calls rearm :
  completeTermination os sig forceExit inh rr = (calls, rearm) ->
  (rearm = true -> forceExit = false) /\ (reraised calls = true -> rearm = false) /\
  (inh = true -> reraised calls = false).
Proof. unfold completeTermination. destruct inh, rr, forceExit; cbn; intros [= <- <-]; naive_solver. Qed.

Lemma deliver_ok sig h : handler_ok h -> handler_ok (deliver sig h).
Proof. intros [? Hr ?]. unfold deliver. case_match; constructor; try done; cbn. by destruct (h_notified h). Qed.

Lemma handler_step_ok h h' : handler_ok h -> handler_step h h' -> handler_ok h'.
Proof.
  intros [Hp Hr He] Hs. destruct Hs; cbn in *; constructor; cbn; try done;
    try (intros Hk; by specialize (He Hk)).
  - by exists t, completed.
  - destruct Hp as (t0 & c0 & Hs & ->). exists t0, c0. split; [done|]. by rewrite <- app_assoc.
  - destruct Hp as (t0 & c0 & Hs & ->). destruct rearm; cbn.
    + exists t0, sig, (EvWipe sig c0 :: (if c0 then [] else [EvWarnTimeout sig]) ++ EvStop :: calls).
      split; [done|]. split; [by rewrite <- !app_assoc; cbn; rewrite <- app_assoc|].
      cbn. rewrite <- app_assoc. by apply (rd sig c0 reraise calls true).
    + exists t0. split; [done|]. right.
      exists sig, (EvWipe sig c0 :: (if c0 then [] else [EvWarnTimeout sig]) ++ EvStop :: calls).
      split; [by rewrite <- !app_assoc; cbn; rewrite <- app_assoc|].
      pose proof (rd sig c0 reraise calls false H) as R. by rewrite app_nil_r in R.
  - by destruct rearm.
  - destruct (complete_rearm _ _ _ _ _ H) as (_ & Hre & _). destruct (reraised calls) eqn:E.
    + rewrite Hre; done.
    + intros Hk. by specialize (He Hk).
  - destruct Hp as (t0 & sig & r & Hs & -> & R). rewrite <- app_assoc. by eapply sv_round.
  - exists t. split; [done|by left].
Qed.

Lemma env_step_ok h h' : handler_ok h -> env_step h h' -> handler_ok h'.
Proof.
  intros Hok Hs. destruct Hs as [sig h|sig k1 k2 p n c d t u|h].
  - by apply deliver_ok.
  - apply deliver_ok. destruct Hok as [Hp Hr He]. constructor; cbn in *; try done.
    intros _. apply He. by destruct k1.
  - by destruct Hok.
Qed.

Lemma running_ok h : running h -> handler_ok h.
Proof.
  induction 1; [constructor; cbn; [constructor|done..]| |].
  - by eapply handler_step_ok.
  - by eapply env_step_ok.
Qed.

(** How many steps of its own the goroutine is from its next rest. *)
Definition to_rest (p : pc) : nat :=
  match p with
  | Wiping _ => 4 | Stopping _ => 3 | Deciding _ => 2 | Notifying | Leaving => 1 | AtSelect | Returned => 0
  end.

Lemma step_to_rest h h' :
  handler_step h h' -> h_pc h = AtSelect \/ (to_rest (h_pc h') < to_rest (h_pc h))%nat.
Proof. intros []; cbn; auto; right; destruct rearm; cbn; lia. Qed.

Lemma handler_can_step h : h_pc h <> AtSelect -> h_pc h <> Returned -> exists h', handler_step h h'.
Proof.
  intros H1 H2. destruct h as [p n c d k t u]. cbn in *. destruct p; try done.
  - eexists. by apply (hs_wipe sig true).
  - eexists. apply hs_stop.
  - destruct (completeTermination os sig forceExit (ignored inherited sig) None) as [calls rearm] eqn:E.
    eexists. by eapply hs_decide.
  - eexists. apply hs_notify.
  - eexists. apply hs_leave.
Qed.

(** Where an event of a completed round comes from. *)
Lemma round_events sig r rearm e :
  round sig r rearm -> e ∈ r ->
  match e with
  | EvReraise s rr => s = sig /\ ignored inherited sig = false /\ (rr = None -> rearm = false)
  | EvExit st => forceExit = true /\ rearm = false /\ st = forcedExitStatus os
  | EvNotify | EvRearmed => rearm = true
  | _ => True
  end.
Proof.
  intros [c rr calls ra E] He. unfold completeTermination in E.
  destruct (ignored inherited sig) eqn:Ei, rr, forceExit eqn:Ef, c; cbn in E; injection E as <- <-;
    cbn in He; rewrite ?list_elem_of_In in He; cbn in He; destruct_or?; subst; naive_solver.
Qed.

Lemma survived_forced t : forceExit = true -> survived t -> t = [EvNotify].
Proof.
  intros Hf Hs. destruct Hs as [|t0 sig r _ Hr]; [done|].
  inversion Hr as [c rr calls ra E]; subst. apply complete_rearm in E as [Hra _].
  rewrite Hra in Hf; done.
Qed.

Lemma survived_events t e :
  survived t -> e ∈ t ->
  match e with
  | EvReraise s rr => ignored inherited s = false /\ rr <> None
  | EvExit _ => False
  | _ => True
  end.
Proof.
  induction 1 as [|t sig r Hs IH Hr]; intros He.
  - apply list_elem_of_singleton in He as ->. done.
  - apply elem_of_app in He as [He|He]; [by apply IH|].
    pose proof (round_events _ _ _ _ Hr He) as Hx. destruct e; try done; naive_solver.
Qed.

Lemma placed_events p t e :
  placed p t -> e ∈ t ->
  match e with
  | EvReraise s _ => ignored inherited s = false
  | EvExit st => forceExit = true /\ st = forcedExitStatus os /\ p = Returned
  | _ => True
  end.
Proof.
  assert (forall t, survived t -> e ∈ t -> match e with EvReraise s _ => ignored inherited s = false
    | EvExit st => forceExit = true /\ st = forcedExitStatus os /\ p = Returned | _ => True end) as Hsv.
  { intros t0 Hs Hin. pose proof (survived_events _ _ Hs Hin). destruct e; naive_solver. }
  intros Hp Hin. destruct p; cbn in Hp; try by eapply Hsv.
  - destruct Hp as (t0 & c & Hs & ->). apply elem_of_app in Hin as [Hin|Hin]; [by eapply Hsv|].
    apply elem_of_cons in Hin as [->|Hin]; [done|]. destruct c; [by apply elem_of_nil in Hin|].
    by apply list_elem_of_singleton in Hin as ->.
  - destruct Hp as (t0 & c & Hs & ->). apply elem_of_app in Hin as [Hin|Hin]; [by eapply Hsv|].
    apply elem_of_cons in Hin as [->|Hin]; [done|]. apply elem_of_app in Hin as [Hin|Hin];
      [destruct c; [by apply elem_of_nil in Hin|]|]; by apply list_elem_of_singleton in Hin as ->.
  - destruct Hp as (t0 & sig & r & Hs & -> & Hr). apply elem_of_app in Hin as [Hin|Hin]; [by eapply Hsv|].
    pose proof (round_events sig _ _ e Hr (proj2 (elem_of_app _ _ _) (or_introl Hin))) as Hx.
    destruct e; try done; naive_solver.
  - destruct Hp as (t0 & Hs & [->|(sig & r & -> & Hr)]); apply elem_of_app in Hin as [Hin|Hin];
      try by eapply Hsv.
    + by apply list_elem_of_singleton in Hin as ->.
    + pose proof (round_events sig _ _ e Hr Hin) as Hx. destruct e; try done; naive_solver.
Qed.

(** C36. The termination handler, in every reachable state and whatever the
    environment does. What it has done so far is some complete rounds after
    which it stayed installed, then at most the current one: wipe first, then
    deregister, then decide. Its registration is up exactly while it can still
    be asked to wipe before deciding. Once a signal was re-raised the goroutine
    is gone, so the echo never comes back to it. A signal inherited as ignored
    is never re-raised. With the forced exit it handles one signal and then the
    signal was re-raised or the process exits with the documented status;
    without it, it never exits. And whatever the wipe does, handling a signal
    always can proceed and is over after at most four steps. *)
Theorem handler_exact h :
  running h ->
  placed (h_pc h) (h_trace h) /\
  h_notified h = registered_at (h_pc h) /\
  (h_echo h <> [] -> h_pc h = Returned /\ forall sig, h_ch (deliver sig h) = h_ch h) /\
  (forall sig rr, EvReraise sig rr ∈ h_trace h -> ignored inherited sig = false) /\
  (forall st, EvExit st ∈ h_trace h -> forceExit = true /\ st = forcedExitStatus os /\ h_pc h = Returned) /\
  (forceExit = true -> h_pc h = AtSelect -> h_trace h = [EvNotify]) /\
  (h_pc h <> AtSelect -> h_pc h <> Returned -> exists h', handler_step h h') /\
  (forall h', handler_step h h' -> h_pc h = AtSelect \/ (to_rest (h_pc h') < to_rest (h_pc h) <= 4)%nat).
Proof.
  intros Hrun. destruct (running_ok h Hrun) as [Hp Hr He]. split; [done|]. split; [done|]. split.
  { intros Hk. split; [by apply He|]. intros sig. unfold deliver. by rewrite Hr, (He Hk). }
  split; [|split]; [intros sig rr Hin|intros st Hin|].
  - apply (placed_events _ _ _ Hp Hin).
  - apply (placed_events _ _ _ Hp Hin).
  - split; [intros Hf Hs; rewrite Hs in Hp; by apply survived_forced|].
    split; [apply handler_can_step|]. intros h' Hs. destruct (step_to_rest _ _ Hs) as [|Hlt]; [by left|right].
    split; [done|]. destruct (h_pc h); cbn; lia.
Qed.
End handler.

(** Ctrl-C on Linux with nothing ignored: wiped, deregistered, re-raised, and
    the echo goes to the default disposition. *)
Lemma handler_exact_witness :
  let h := Handler Returned false None false [SIGINT]
             [EvNotify; EvWipe SIGINT true; EvStop; EvReraise SIGINT None] [] in
  running Linux true (handled_signals []) ∅ h /\
  (h_pc h = Returned /\ forall sig, h_ch (deliver (handled_signals []) sig h) = h_ch h).
Proof.
  intros h. assert (running Linux true (handled_signals []) ∅ h) as Hrun.
  { set (sigs := handled_signals []).
    pose proof (run_env Linux true sigs ∅ _ _ (run_install Linux true sigs ∅) (es_signal sigs SIGINT _)) as R.
    apply run_handler with (2 := hs_receive Linux true ∅ true SIGINT false [] [EvNotify] []) in R.
    apply run_handler with (2 := hs_wipe Linux true ∅ SIGINT true true None false [] [EvNotify] []) in R.
    apply run_handler with (2 := hs_stop Linux true ∅ SIGINT true None false [] _ []) in R.
    exact (run_handler _ _ _ _ _ _ R
      (hs_decide Linux true ∅ SIGINT None [EvReraise SIGINT None] false false None false [] _ [] eq_refl)). }
  split; [exact Hrun|].
  exact (proj1 (proj2 (proj2 (handler_exact Linux true (handled_signals []) ∅ h Hrun))) ltac:(discriminate)).
Defined.
