(* ===== verification/KeyErrors.v ===== *)
(** * secmem-crypto's key-file errors (secmem-crypto/parse.go,
      secmem-crypto/parse_encrypted.go)

    The sentinels of the parsers. A label an error quotes is left out of its
    message: it is bounded by [labelForError] and not part of any claim. *)
From S2P Require Import Prelude Errors.

Definition errMalformed : gerr := Msg "malformed private key".
(** [fmt.Errorf("%w: ...", errMalformed)] *)
Definition malformed (what : string) : gerr := Wrap what [errMalformed].

Definition ErrEncryptedKey : gerr := Msg "secmemcrypto: private key is passphrase-protected".
Definition ErrNotEncrypted : gerr := Msg "secmemcrypto: private key is not passphrase-protected".
Definition ErrUnsupportedKey : gerr := Msg "secmemcrypto: unsupported private key type".
Definition ErrRetiredAlgorithm : gerr := Msg "secmemcrypto: retired algorithm".
Definition ErrHeapTransients : gerr := Msg "secmemcrypto: heap transients".
(** [fmt.Errorf("%w: ...", ErrUnsupportedKey)] *)
Definition unsupported (what : string) : gerr := Wrap what [ErrUnsupportedKey].

Definition errLegacyPEM : gerr := Wrap "legacy PEM encryption" [ErrRetiredAlgorithm].
Definition errCheckMismatch : gerr := malformed "check integers disagree".

(** crypto/x509's value for a wrong passphrase, and the one error for
    everything that goes wrong after decryption. *)
Definition IncorrectPasswordError : gerr := Msg "x509: decryption password incorrect".
Definition errOpenSSHDecrypt : gerr :=
  Wrap "OpenSSH private block did not decrypt to a valid key (wrong passphrase or corrupt file)" [IncorrectPasswordError].
