(* ===== verification/Bytes.v ===== *)
(** * Byte strings as integers

    Big-endian magnitudes and little-endian limb arrays, with the two helpers
    secmem-crypto/parse_openssh.go reads magnitudes with. *)
From S2P Require Import Prelude.

Definition is_byte (x : Z) : Prop := 0 <= x < 256.
Notation bytes b := (Forall is_byte b).

(** The integer a big-endian magnitude denotes. *)
Definition be (b : list Z) : Z := foldl (fun a x => 256 * a + x) 0 b.

(** Its [n]-byte encoding. *)
Fixpoint be_bytes (n : nat) (v : Z) : list Z :=
  match n with
  | O => []
  | S n => be_bytes n (v / 256) ++ [v mod 256]
  end.

(** The integer a little-endian array of 64-bit limbs denotes. *)
Fixpoint le (ws : list Z) : Z :=
  match ws with
  | [] => 0
  | w :: ws => w + 2 ^ 64 * le ws
  end.

Definition is_limb (w : Z) : Prop := 0 <= w < 2 ^ 64.
Notation limbs ws := (Forall is_limb ws).

(** ** The helpers *)

Fixpoint stripZeros (b : list Z) : list Z :=
  match b with
  | x :: b' => if (x =? 0) then stripZeros b' else b
  | [] => []
  end.

(** [bits.Len8]. *)
Definition Len8 (x : Z) : Z := if (x =? 0) then 0 else Z.log2 x + 1.

Definition bitLen (b : list Z) : Z :=
  match b with
  | [] => 0
  | x :: _ => (zlen b - 1) * 8 + Len8 x
  end.

(** ** Big-endian magnitudes *)

Lemma pow256_pos n : 0 < 256 ^ Z.of_nat n.
Proof. apply Z.pow_pos_nonneg; lia. Qed.

Lemma pow256_S n : 256 ^ Z.of_nat (S n) = 256 * 256 ^ Z.of_nat n.
Proof. rewrite Nat2Z.inj_succ, Z.pow_succ_r by lia. done. Qed.

Lemma foldl_be a b : foldl (fun a x => 256 * a + x) a b = a * 256 ^ zlen b + be b.
Proof.
  unfold be, zlen. revert a. induction b as [|x b IH]; intros a; cbn [foldl length].
  - change (Z.of_nat 0) with 0. lia.
  - rewrite IH, (IH (256 * 0 + x)), pow256_S. lia.
Qed.

Lemma be_cons x b : be (x :: b) = x * 256 ^ zlen b + be b.
Proof. unfold be at 1. cbn [foldl]. rewrite foldl_be. lia. Qed.

Lemma be_snoc b x : be (b ++ [x]) = 256 * be b + x.
Proof. unfold be. by rewrite foldl_app. Qed.

Lemma be_app a b : be (a ++ b) = be a * 256 ^ zlen b + be b.
Proof. unfold be at 1. by rewrite foldl_app, foldl_be. Qed.

Lemma be_bound b : bytes b -> 0 <= be b < 256 ^ zlen b.
Proof.
  unfold zlen. induction 1 as [|x b Hx Hb IH]; [done|].
  rewrite be_cons. cbn [length]. rewrite pow256_S. unfold zlen, is_byte in *.
  pose proof (pow256_pos (length b)). nia.
Qed.

Lemma length_be_bytes n v : length (be_bytes n v) = n.
Proof. revert v. induction n; intros v; cbn; [done|]. rewrite length_app, IHn. cbn. lia. Qed.

Lemma zlen_be_bytes n v : zlen (be_bytes n v) = Z.of_nat n.
Proof. unfold zlen. by rewrite length_be_bytes. Qed.

Lemma bytes_be_bytes n v : bytes (be_bytes n v).
Proof.
  revert v. induction n; intros v; cbn; [constructor|]. apply Forall_app. split; [done|].
  constructor; [|done]. unfold is_byte. apply Z.mod_pos_bound. lia.
Qed.

Lemma be_be_bytes n v : be (be_bytes n v) = v mod 256 ^ Z.of_nat n.
Proof.
  revert v. induction n as [|n IH]; intros v; cbn [be_bytes].
  - change (256 ^ Z.of_nat 0) with 1. by rewrite Z.mod_1_r.
  - rewrite be_snoc, IH, pow256_S. pose proof (pow256_pos n).
    rewrite Z.rem_mul_r by lia. lia.
Qed.

Lemma be_bytes_be b : bytes b -> be_bytes (length b) (be b) = b.
Proof.
  induction b as [|x b IH] using rev_ind; [done|]. intros [Hb [Hx _]%Forall_cons]%Forall_app.
  rewrite length_app, Nat.add_comm, be_snoc. cbn [length Nat.add be_bytes]. unfold is_byte in Hx.
  replace ((256 * be b + x) / 256) with (be b) by (rewrite Z.mul_comm, Z.div_add_l, Z.div_small; lia).
  replace ((256 * be b + x) mod 256) with x; [by rewrite IH|].
  rewrite Z.mul_comm, Z.add_comm, Z.mod_add by lia. rewrite Z.mod_small; lia.
Qed.

Lemma be_inj a b : bytes a -> bytes b -> length a = length b -> be a = be b -> a = b.
Proof. intros Ha Hb Hl E. rewrite <- (be_bytes_be a), <- (be_bytes_be b) by done. by rewrite Hl, E. Qed.

Lemma be_zero b : bytes b -> be b = 0 -> Forall (fun x => x = 0) b.
Proof.
  intros Hb. induction Hb as [|x b Hx Hb IH]; [constructor|]. rewrite be_cons.
  pose proof (be_bound b Hb). unfold is_byte in *. intros E.
  pose proof (pow256_pos (length b)) as Hp. fold (@zlen Z b) in Hp.
  assert (x = 0) by nia. subst. constructor; [done|]. apply IH. lia.
Qed.

(** ** The helpers' meaning *)

Lemma stripZeros_be b : be (stripZeros b) = be b.
Proof.
  induction b as [|x b IH]; [done|]. cbn [stripZeros]. destruct (x =? 0) eqn:E; [|done].
  apply Z.eqb_eq in E as ->. by rewrite IH, be_cons.
Qed.

Lemma stripZeros_bytes b : bytes b -> bytes (stripZeros b).
Proof. induction 1 as [|x b Hx Hb IH]; cbn; [constructor|]. destruct (x =? 0); [done|by constructor]. Qed.

(** No leading zero. *)
Definition stripped (b : list Z) : Prop := match b with x :: _ => x <> 0 | [] => True end.

Lemma stripZeros_stripped b : stripped (stripZeros b).
Proof. induction b as [|x b IH]; cbn; [done|]. destruct (x =? 0) eqn:E; [done|]. cbn. lia. Qed.

Lemma stripped_id b : stripped b -> stripZeros b = b.
Proof. destruct b as [|x b]; [done|]. cbn. intros ?. destruct (x =? 0) eqn:E; [lia|done]. Qed.

Lemma stripped_pos b : bytes b -> stripped b -> b <> [] -> 256 ^ (zlen b - 1) <= be b.
Proof.
  intros Hb Hs Hn. destruct b as [|x b]; [done|]. apply Forall_cons in Hb as [Hx Hb].
  rewrite be_cons. pose proof (be_bound b Hb). pose proof (pow256_pos (length b)) as Hp. fold (@zlen Z b) in Hp.
  rewrite zlen_cons. replace (1 + zlen b - 1) with (zlen b) by lia. unfold is_byte, stripped in *. nia.
Qed.

Lemma stripZeros_nil b : bytes b -> stripZeros b = [] <-> be b = 0.
Proof.
  intros Hb. pose proof (stripZeros_be b) as Eb. split; [by intros E; rewrite E in Eb|]. intros E.
  destruct (decide (stripZeros b = [])) as [|Hn]; [done|].
  pose proof (stripped_pos _ (stripZeros_bytes _ Hb) (stripZeros_stripped b) Hn) as Hp.
  rewrite Eb, E in Hp.
  pose proof (Z.pow_pos_nonneg 256 (zlen (stripZeros b) - 1)).
  destruct (stripZeros b); [done|]. rewrite zlen_cons in *. pose proof (zlen_nonneg l). lia.
Qed.

(** The stripped magnitude is determined by its value. *)
Lemma stripped_inj a b :
  bytes a -> bytes b -> stripped a -> stripped b -> be a = be b -> a = b.
Proof.
  intros Ha Hb Sa Sb E. destruct (decide (a = [])) as [->|Na], (decide (b = [])) as [->|Nb]; [done|..].
  - symmetry. rewrite <- (stripped_id b Sb). apply stripZeros_nil; [done|]. by rewrite <- E.
  - rewrite <- (stripped_id a Sa). apply stripZeros_nil; [done|]. by rewrite E.
  - apply be_inj; [done..| |done].
    pose proof (stripped_pos a Ha Sa Na). pose proof (stripped_pos b Hb Sb Nb).
    pose proof (be_bound a Ha). pose proof (be_bound b Hb). unfold zlen in *.
    destruct (lt_eq_lt_dec (length a) (length b)) as [[Hlt|]|Hlt]; [exfalso|done|exfalso].
    + assert (256 ^ Z.of_nat (length a) <= 256 ^ (Z.of_nat (length b) - 1)) by (apply Z.pow_le_mono_r; lia). lia.
    + assert (256 ^ Z.of_nat (length b) <= 256 ^ (Z.of_nat (length a) - 1)) by (apply Z.pow_le_mono_r; lia). lia.
Qed.

(** [bitLen] is the bit length of the integer. *)
Lemma bitLen_spec b : bytes b -> stripped b -> bitLen b = if (be b =? 0) then 0 else Z.log2 (be b) + 1.
Proof.
  intros Hb Hs. destruct b as [|x b]; [done|]. pose proof (stripped_pos _ Hb Hs ltac:(done)) as Hp.
  rewrite zlen_cons in Hp. pose proof (zlen_nonneg b).
  pose proof (Z.pow_pos_nonneg 256 (1 + zlen b - 1)). destruct (be (x :: b) =? 0) eqn:E; [lia|].
  apply Forall_cons in Hb as [Hx Hb]. pose proof (be_bound b Hb). cbn in Hs. unfold is_byte in Hx.
  unfold bitLen, Len8. destruct (x =? 0) eqn:Ex; [lia|]. rewrite zlen_cons, be_cons.
  replace (256 ^ zlen b) with (2 ^ (8 * zlen b)) in * by (rewrite Z.pow_mul_r by lia; done).
  assert (Z.log2 (x * 2 ^ (8 * zlen b) + be b) = 8 * zlen b + Z.log2 x) as ->; [|lia].
  apply Z.log2_unique; [pose proof (Z.log2_nonneg x); lia|].
  pose proof (Z.log2_spec x ltac:(lia)) as [L1 L2]. rewrite Z.pow_add_r by (pose proof (Z.log2_nonneg x); lia).
  replace (Z.succ (8 * zlen b + Z.log2 x)) with (8 * zlen b + Z.succ (Z.log2 x)) by lia.
  rewrite Z.pow_add_r by (pose proof (Z.log2_nonneg x); lia). nia.
Qed.
