(* ===== verification/ModReduce.v ===== *)
(** * Modular reduction over limbs (secmem-crypto/modreduce.go)

    The shift-and-subtract reduction that computes the CRT exponents, on 64-bit
    limbs with their wrap-around, and the borrow loop that computes [p-1]. The
    stack arrays are values here: their deferred wipe has no effect a caller
    can observe. *)
From S2P Require Import Prelude Bytes.

(** ** Constants of rsabounds.go and modreduce.go *)
Definition rsaMaxModulusBits : Z := 16384.
Definition rsaMaxPrimeBits : Z := 8192.
Definition modReduceLimbs : nat := Z.to_nat (rsaMaxPrimeBits / 64 + 1).

(** ** Loading and storing limbs *)

(** [w[i/8] |= uint64(b[len(b)-1-i]) << (8 * uint(i%8))] *)
Definition set_byte (b w : list Z) (i : nat) : list Z :=
  let byteIdx := (length b - 1 - i)%nat in
  alter (fun x => Z.lor x (uwrap64 (Z.shiftl (b !!! byteIdx) (8 * Z.of_nat (i mod 8))))) (i / 8)%nat w.

Definition setLimbsBE (w b : list Z) : bool * list Z :=
  if (length w <? (length b + 7) / 8)%nat then (false, w)
  else (true, foldl (set_byte b) ((fun _ => 0) <$> w) (seq 0 (length b))).

(** [dst[len(dst)-1-i] = byte(w[i/8] >> (8 * uint(i%8)))] *)
Definition get_byte (w : list Z) (i : nat) : Z :=
  Z.shiftr (w !!! (i / 8)%nat) (8 * Z.of_nat (i mod 8)) mod 256.

Definition limbsToBE (dst w : list Z) : list Z :=
  foldl (fun d i => <[(length dst - 1 - i)%nat := get_byte w i]> d) dst (seq 0 (length dst)).

(** ** The reduction *)

(** [r = 2r + carry], limb by limb. *)
Fixpoint shl1 (rs : list Z) (carry : Z) : list Z :=
  match rs with
  | [] => []
  | r :: rs => Z.lor (uwrap64 (Z.shiftl r 1)) carry :: shl1 rs (Z.shiftr r 63)
  end.

(** [bits.Sub64]. *)
Definition Sub64 (x y borrow : Z) : Z * Z :=
  (uwrap64 (x - y - borrow), if (x <? y + borrow) then 1 else 0).

(** [t = r - m], and the last borrow. *)
Fixpoint sub (rs ms : list Z) (borrow : Z) : list Z * Z :=
  match rs, ms with
  | r :: rs, m :: ms =>
      let '(t, borrow) := Sub64 r m borrow in
      let '(ts, borrow) := sub rs ms borrow in (t :: ts, borrow)
  | _, _ => ([], borrow)
  end.

(** One bit of [x]: [t] is kept unless the subtraction borrowed. *)
Definition reduce_bit (ms rs : list Z) (bit : Z) : list Z :=
  let rs := shl1 rs bit in
  let '(ts, borrow) := sub rs ms 0 in
  let mask := uwrap64 (borrow - 1) in
  zip_with (fun t r => Z.lor (Z.land t mask) (Z.ldiff r mask)) ts rs.

Definition bit_of (b : Z) (bit : Z) : Z := Z.land (Z.shiftr b bit) 1.

Definition reduce_byte (ms rs : list Z) (b : Z) : list Z :=
  foldl (fun rs bit => reduce_bit ms rs (bit_of b bit)) rs [7; 6; 5; 4; 3; 2; 1; 0].

Definition reduceMod (dst x m : list Z) : bool * list Z :=
  if (zlen m =? 0) || (rsaMaxPrimeBits <? zlen m * 8) || (rsaMaxModulusBits <? zlen x * 8)
     || negb (zlen dst =? zlen m)
  then (false, dst)
  else
  let zero := replicate modReduceLimbs 0 in
  let '(ok, mw) := setLimbsBE zero m in
  if negb ok then (false, dst)
  else
  let nl := ((length m + 7) / 8 + 1)%nat in
  let mws := take nl mw in
  let nonzero := foldl Z.lor 0 mws in
  if (nonzero =? 0) then (false, dst)
  else
  let rs := foldl (reduce_byte mws) (take nl zero) x in
  (true, limbsToBE dst (rs ++ drop nl zero)).

(** ** [p - 1] *)

(** From the last byte on, in 16-bit arithmetic; the bytes written and the
    last borrow. *)
Fixpoint dec_loop (p : list Z) : list Z * Z :=
  match p with
  | [] => ([], 1)
  | b :: p =>
      let '(d, borrow) := dec_loop p in
      let v := (b - borrow) mod 2 ^ 16 in
      (v mod 256 :: d, Z.shiftr v 15)
  end.

Definition decrementBE (dst p : list Z) : bool * list Z :=
  if negb (zlen dst =? zlen p) then (false, dst)
  else let '(d, borrow) := dec_loop p in ((borrow =? 0), d).

(** ** Limb arrays as integers *)

Lemma pow64_S x (ws : list Z) : 2 ^ (64 * zlen (x :: ws)) = 2 ^ 64 * 2 ^ (64 * zlen ws).
Proof. rewrite zlen_cons, <- Z.pow_add_r by (pose proof (zlen_nonneg ws); lia). f_equal. lia. Qed.

Lemma le_app a b : le (a ++ b) = le a + 2 ^ (64 * zlen a) * le b.
Proof.
  induction a as [|x a IH]; cbn [app le]; [change (zlen []) with 0; lia|].
  rewrite IH, pow64_S. ring.
Qed.

Lemma le_bound ws : limbs ws -> 0 <= le ws < 2 ^ (64 * zlen ws).
Proof.
  induction 1 as [|w ws Hw Hws IH]; [done|]. cbn [le]. rewrite pow64_S.
  unfold is_limb in Hw. nia.
Qed.

Lemma le_zeros n : le (replicate n 0) = 0.
Proof. induction n as [|n IH]; cbn [replicate le]; [done|]. rewrite IH. lia. Qed.

Lemma limbs_zeros n : limbs (replicate n 0).
Proof. apply Forall_replicate. unfold is_limb. lia. Qed.

Lemma le_insert ws q w w' :
  ws !! q = Some w -> le (<[q := w']> ws) = le ws + (w' - w) * 2 ^ (64 * Z.of_nat q).
Proof.
  revert q. induction ws as [|x ws IH]; intros [|q] Hq; try done.
  - injection Hq as ->. change (<[O := w']> (w :: ws)) with (w' :: ws). cbn [le]. change (2 ^ (64 * Z.of_nat 0)) with 1. lia.
  - change (<[S q := w']> (x :: ws)) with (x :: <[q := w']> ws). cbn [le]. rewrite (IH q Hq). rewrite Nat2Z.inj_succ.
    replace (64 * Z.succ (Z.of_nat q)) with (64 + 64 * Z.of_nat q) by lia. rewrite Z.pow_add_r by lia. ring.
Qed.

Lemma le_lookup ws q w : limbs ws -> ws !! q = Some w -> w = (le ws / 2 ^ (64 * Z.of_nat q)) mod 2 ^ 64.
Proof.
  intros Hl Hq. pose proof (take_drop_middle ws q w Hq) as E. rewrite <- E, le_app.
  assert (limbs (take q ws)) as Ht by (by apply Forall_take).
  pose proof (le_bound _ Ht) as Hb. assert (zlen (take q ws) = Z.of_nat q) as Ez.
  { unfold zlen. rewrite length_take. apply lookup_lt_Some in Hq. lia. }
  rewrite Ez in *. cbn [le]. rewrite Z.mul_comm, Z.div_add, Z.div_small by lia.
  pose proof (proj1 (Forall_lookup _ _) Hl _ _ Hq) as Hw. unfold is_limb in Hw.
  rewrite Z.add_0_l, (Z.mul_comm (2 ^ 64)), Z.mod_add by lia. rewrite Z.mod_small; lia.
Qed.

(** ** Loading and storing are exact *)

Lemma lor_add a v k : 0 <= k -> 0 <= a < 2 ^ k -> Z.lor a (v * 2 ^ k) = a + v * 2 ^ k.
Proof.
  intros Hk Ha. rewrite <- Z.add_lor_land. assert (Z.land a (v * 2 ^ k) = 0) as ->; [|lia].
  apply Z.bits_inj'. intros n Hn. rewrite Z.land_spec, Z.bits_0.
  destruct (decide (n < k)); [by rewrite Z.mul_pow2_bits_low, andb_false_r|].
  rewrite <- (Z.mod_small a (2 ^ k)) by done. by rewrite Z.mod_pow2_bits_high by lia.
Qed.

Lemma pow256_2 n : 256 ^ n = 2 ^ (8 * n).
Proof.
  destruct (decide (0 <= n)); [by rewrite Z.pow_mul_r by lia|]. rewrite !Z.pow_neg_r by lia. done.
Qed.

Lemma div8 i : (i / 8 * 8 + i mod 8 = i)%nat /\ (i mod 8 < 8)%nat.
Proof. pose proof (Nat.div_mod_eq i 8). pose proof (Nat.mod_upper_bound i 8). lia. Qed.

Lemma split_byte (i : nat) :
  8 * Z.of_nat i = 8 * Z.of_nat (i mod 8) + 64 * Z.of_nat (i / 8) /\ 0 <= Z.of_nat (i mod 8) < 8.
Proof. pose proof (div8 i). lia. Qed.

(** One byte more. *)
Lemma set_byte_spec b w i :
  limbs w -> le w < 256 ^ Z.of_nat i -> (i < length b)%nat -> bytes b -> (i / 8 < length w)%nat ->
  let w' := set_byte b w i in
  limbs w' /\ length w' = length w /\ le w' = le w + b !!! (length b - 1 - i)%nat * 256 ^ Z.of_nat i.
Proof.
  intros Hl Hle Hi Hb Hlen. unfold set_byte. set (v := b !!! _).
  assert (is_byte v) as Hv by (apply (Forall_lookup_total_1 _ _ _ Hb); lia).
  destruct (lookup_lt_is_Some_2 w (i / 8) Hlen) as [x Hx].
  pose proof (split_byte i) as [E8 Hr]. set (r := Z.of_nat (i mod 8)) in *. set (q := Z.of_nat (i / 8)) in *.
  assert (is_limb x) as Hxl by (apply (Forall_lookup_1 _ _ _ _ Hl Hx)).
  pose proof (le_bound w Hl) as Hwb.
  assert (0 <= x < 2 ^ (8 * r)) as Hxs.
  { split; [apply Hxl|]. rewrite (le_lookup w _ x Hl Hx). fold q. rewrite pow256_2, E8, Z.pow_add_r in Hle by lia.
    eapply Z.le_lt_trans; [apply Z.mod_le; [apply Z.div_pos; lia|lia]|]. apply Z.div_lt_upper_bound; lia. }
  assert (Z.shiftl v (8 * r) < 2 ^ 64 /\ 0 <= Z.shiftl v (8 * r)) as [Hs1 Hs2].
  { unfold is_byte in Hv. rewrite Z.shiftl_mul_pow2 by lia.
    assert (2 ^ (8 * r) * 2 ^ 8 <= 2 ^ 64) by (rewrite <- Z.pow_add_r by lia; apply Z.pow_le_mono_r; lia). nia. }
  rewrite uwrap64_id by lia.
  assert (Z.lor x (Z.shiftl v (8 * r)) = x + v * 2 ^ (8 * r)) as Elor
    by (rewrite Z.shiftl_mul_pow2 by lia; apply lor_add; lia).
  rewrite Z.shiftl_mul_pow2 in * by lia.
  assert (alter (fun x0 => Z.lor x0 (v * 2 ^ (8 * r))) (i / 8)%nat w = <[(i / 8)%nat := x + v * 2 ^ (8 * r)]> w) as ->.
  { rewrite <- Elor. apply list_eq. intros j. destruct (decide (j = (i / 8)%nat)) as [->|].
    - rewrite list_lookup_alter_eq, list_lookup_insert_eq by done. by rewrite Hx.
    - by rewrite list_lookup_alter_ne, list_lookup_insert_ne by done. }
  split; [|split].
  - apply Forall_insert; [done|]. unfold is_limb, is_byte in *. rewrite <- Elor. split; [apply Z.lor_nonneg; lia|].
    rewrite Elor. assert (2 ^ (8 * r) * 2 ^ 8 <= 2 ^ 64) by (rewrite <- Z.pow_add_r by lia; apply Z.pow_le_mono_r; lia). nia.
  - apply length_insert.
  - rewrite (le_insert _ _ _ _ Hx). fold q. rewrite pow256_2, E8, Z.pow_add_r by lia. ring.
Qed.

Lemma set_bytes_spec b w k :
  limbs w -> le w = 0 -> bytes b -> (k <= length b)%nat -> ((length b + 7) / 8 <= length w)%nat ->
  let w' := foldl (set_byte b) w (seq 0 k) in
  limbs w' /\ length w' = length w /\ le w' = be (drop (length b - k) b).
Proof.
  intros Hl H0 Hb Hk Hlen. induction k as [|k IH]; cbn zeta.
  { rewrite Nat.sub_0_r, drop_all. done. }
  destruct IH as (IL & Ilen & Ile); [lia|]. rewrite seq_S, foldl_app. cbn [foldl Nat.add].
  set (w1 := foldl (set_byte b) w (seq 0 k)) in *.
  assert (bytes (drop (length b - k) b)) as Hd by by apply Forall_drop.
  pose proof (be_bound _ Hd) as Hbd. assert (zlen (drop (length b - k) b) = Z.of_nat k) as Ez
    by (unfold zlen; rewrite length_drop; lia). rewrite Ez in Hbd.
  destruct (set_byte_spec b w1 k) as (L & E & V); [done|lia|lia|done| |].
  { rewrite Ilen. pose proof (div8 k). pose proof (div8 (length b + 7)). lia. }
  split; [done|]. split; [by rewrite E|]. rewrite V, Ile.
  assert (drop (length b - S k) b = b !!! (length b - 1 - k)%nat :: drop (length b - k) b) as ->.
  { replace (length b - k)%nat with (S (length b - S k)) by lia.
    replace (length b - 1 - k)%nat with (length b - S k)%nat by lia.
    apply drop_S. apply list_lookup_lookup_total_lt. lia. }
  rewrite be_cons, Ez. lia.
Qed.

Lemma setLimbsBE_spec w b :
  bytes b -> ((length b + 7) / 8 <= length w)%nat ->
  exists w', setLimbsBE w b = (true, w') /\ limbs w' /\ length w' = length w /\ le w' = be b.
Proof.
  intros Hb Hlen. unfold setLimbsBE. destruct (Nat.ltb_spec (length w) ((length b + 7) / 8)); [lia|].
  eexists. split; [done|].
  assert ((fun _ => 0) <$> w = replicate (length w) 0) as -> by (clear; induction w; cbn; by f_equal).
  destruct (set_bytes_spec b (replicate (length w) 0) (length b)) as (L & E & V);
    [apply limbs_zeros|apply le_zeros|done|done|by rewrite length_replicate|].
  rewrite Nat.sub_diag in V. split; [done|]. split; [by rewrite E, length_replicate|done].
Qed.

(** Byte [i] of a limb array. *)
Lemma get_byte_spec w i :
  limbs w -> (i / 8 < length w)%nat -> get_byte w i = (le w / 256 ^ Z.of_nat i) mod 256.
Proof.
  intros Hl Hlen. unfold get_byte. rewrite (le_lookup w (i / 8) (w !!! (i / 8)%nat) Hl)
    by (by apply list_lookup_lookup_total_lt).
  pose proof (split_byte i) as [E Hr]. rewrite pow256_2, E.
  set (r := Z.of_nat (i mod 8)) in *. set (q := Z.of_nat (i / 8)) in *. change 256 with (2 ^ 8).
  rewrite <- !Z.shiftr_div_pow2 by lia. apply Z.bits_inj'. intros n Hn.
  destruct (decide (n < 8)); [|by rewrite !Z.mod_pow2_bits_high by lia].
  rewrite !Z.mod_pow2_bits_low by lia. rewrite !Z.shiftr_spec by lia.
  rewrite Z.mod_pow2_bits_low by lia. rewrite Z.shiftr_spec by lia. f_equal. lia.
Qed.

Lemma be_bytes_cons n v : be_bytes (S n) v = (v / 256 ^ Z.of_nat n) mod 256 :: be_bytes n v.
Proof.
  revert v. induction n as [|n IH]; intros v.
  - cbn. by rewrite Z.div_1_r.
  - change (be_bytes (S (S n)) v) with (be_bytes (S n) (v / 256) ++ [v mod 256]). rewrite IH.
    change (be_bytes (S n) v) with (be_bytes n (v / 256) ++ [v mod 256]).
    rewrite pow256_S, Z.div_div by (try (pose proof (pow256_pos n)); lia). done.
Qed.

Lemma limbsToBE_spec dst w :
  limbs w -> ((length dst + 7) / 8 <= length w)%nat -> limbsToBE dst w = be_bytes (length dst) (le w).
Proof.
  intros Hl Hlen. unfold limbsToBE.
  assert (forall k, (k <= length dst)%nat ->
    foldl (fun d i => <[(length dst - 1 - i)%nat := get_byte w i]> d) dst (seq 0 k)
    = take (length dst - k) dst ++ be_bytes k (le w)) as Hk; [|rewrite Hk, Nat.sub_diag; done].
  induction k as [|k IH]; intros Hk; [by rewrite Nat.sub_0_r, take_ge, app_nil_r|].
  rewrite seq_S, foldl_app, IH by lia. cbn [foldl Nat.add].
  rewrite get_byte_spec by (try done; pose proof (div8 k); pose proof (div8 (length dst + 7)); lia).
  destruct (lookup_lt_is_Some_2 dst (length dst - S k)) as [x Hx]; [lia|].
  replace (length dst - k)%nat with (S (length dst - S k)) by lia. rewrite (take_S_r _ _ _ Hx).
  replace (length dst - 1 - k)%nat with (length (take (length dst - S k) dst) + 0)%nat
    by (rewrite length_take; lia).
  rewrite <- app_assoc, insert_app_r. rewrite be_bytes_cons. done.
Qed.

(** ** The reduction is exact *)

Definition is_bit (c : Z) : Prop := c = 0 \/ c = 1.

Lemma shl_limb r c :
  is_limb r -> is_bit c ->
  is_limb (Z.lor (uwrap64 (Z.shiftl r 1)) c) /\ is_bit (Z.shiftr r 63) /\
  Z.lor (uwrap64 (Z.shiftl r 1)) c + 2 ^ 64 * Z.shiftr r 63 = 2 * r + c.
Proof.
  intros Hr Hc. unfold is_limb, is_bit, uwrap64 in *. rewrite Z.shiftl_mul_pow2, Z.shiftr_div_pow2 by lia.
  change (2 ^ 1) with 2. pose proof (Z.div_mod r (2 ^ 63) ltac:(lia)) as Er.
  pose proof (Z.mod_pos_bound r (2 ^ 63) ltac:(lia)).
  assert (r / 2 ^ 63 = 0 \/ r / 2 ^ 63 = 1) as Hq.
  { assert (0 <= r / 2 ^ 63 < 2); [|lia]. split; [apply Z.div_pos; lia|apply Z.div_lt_upper_bound; lia]. }
  assert ((r * 2) mod 2 ^ 64 = r mod 2 ^ 63 * 2) as ->
    by (change (2 ^ 64) with (2 ^ 63 * 2); by rewrite Z.mul_mod_distr_r by lia).
  rewrite Z.lor_comm. replace (r mod 2 ^ 63 * 2) with (r mod 2 ^ 63 * 2 ^ 1) by lia.
  rewrite lor_add by lia. split; [|split; [done|]]; lia.
Qed.

Lemma shl1_spec rs c :
  limbs rs -> is_bit c ->
  limbs (shl1 rs c) /\ length (shl1 rs c) = length rs /\
  exists out, is_bit out /\ le (shl1 rs c) + 2 ^ (64 * zlen rs) * out = 2 * le rs + c.
Proof.
  intros Hl. revert c. induction Hl as [|r rs Hr Hl IH]; intros c Hc; cbn [shl1 le].
  { split; [done|]. split; [done|]. exists c. split; [done|]. change (zlen []) with 0. lia. }
  destruct (shl_limb r c Hr Hc) as (H1 & H2 & H3). destruct (IH _ H2) as (H4 & H5 & out & H6 & H7).
  split; [by constructor|]. split; [by cbn; rewrite H5|]. exists out. split; [done|].
  rewrite pow64_S. nia.
Qed.

Lemma sub_spec rs ms b :
  limbs rs -> limbs ms -> length rs = length ms -> is_bit b ->
  let '(ts, out) := sub rs ms b in
  limbs ts /\ length ts = length rs /\ is_bit out /\ le ts = le rs - le ms - b + 2 ^ (64 * zlen rs) * out.
Proof.
  intros Hr. revert ms b. induction Hr as [|r rs Hr Hrs IH]; intros [|m ms] b Hm Hlen Hb; try done; cbn [sub].
  { split; [done|]. split; [done|]. split; [done|]. change (zlen []) with 0. cbn. lia. }
  apply Forall_cons in Hm as [Hm Hms]. injection Hlen as Hlen. unfold Sub64.
  set (b' := if r <? m + b then 1 else 0).
  assert (is_bit b') as Hb' by (unfold b', is_bit; case_match; auto).
  specialize (IH ms b' Hms Hlen Hb'). destruct (sub rs ms b') as [ts out]. destruct IH as (H1 & H2 & H3 & H4).
  assert (uwrap64 (r - m - b) = r - m - b + 2 ^ 64 * b') as E.
  { unfold uwrap64, b', is_limb, is_bit in *. destruct (Z.ltb_spec r (m + b)).
    - rewrite <- (Z.mod_add _ 1) by lia. rewrite Z.mod_small; lia.
    - rewrite Z.mod_small; lia. }
  split; [constructor; [|done]|].
  { rewrite E. unfold is_limb, is_bit, b' in *. destruct (Z.ltb_spec r (m + b)); lia. }
  split; [by cbn; rewrite H2|]. split; [done|]. cbn [le]. rewrite E, H4, pow64_S. ring.
Qed.

Lemma select_spec ts rs out :
  limbs ts -> limbs rs -> length ts = length rs -> is_bit out ->
  zip_with (fun t r => Z.lor (Z.land t (uwrap64 (out - 1))) (Z.ldiff r (uwrap64 (out - 1)))) ts rs =
  if (out =? 0) then ts else rs.
Proof.
  intros Ht. revert rs. induction Ht as [|t ts Ht Hts IH]; intros [|r rs] Hr Hlen Ho; try done; cbn [zip_with].
  { by case_match. }
  apply Forall_cons in Hr as [Hr Hrs]. rewrite IH by (try done; cbn in Hlen; lia).
  unfold is_limb in *. destruct Ho as [-> | ->]; cbn [Z.eqb]; f_equal.
  - change (uwrap64 (0 - 1)) with (Z.ones 64). rewrite Z.land_ones, Z.mod_small by lia.
    rewrite Z.ldiff_ones_r_low; [by rewrite Z.lor_0_r|lia|].
    destruct (decide (r = 0)) as [->|]; [done|]. apply Z.log2_lt_pow2; lia.
  - change (uwrap64 (1 - 1)) with 0. by rewrite Z.land_0_r, Z.ldiff_0_r.
Qed.

(** One bit: [r] becomes [2r + bit mod m]. *)
Lemma reduce_bit_spec ms rs bit :
  limbs ms -> limbs rs -> length rs = length ms -> is_bit bit ->
  le rs < le ms -> 2 * le ms <= 2 ^ (64 * zlen ms) ->
  limbs (reduce_bit ms rs bit) /\ length (reduce_bit ms rs bit) = length ms /\
  le (reduce_bit ms rs bit) = (2 * le rs + bit) mod le ms.
Proof.
  intros Hm Hr Hlen Hbit Hlt Hroom. unfold reduce_bit.
  destruct (shl1_spec rs bit Hr Hbit) as (S1 & S2 & out & So & SE).
  pose proof (le_bound _ Hr) as Br. pose proof (le_bound _ Hm) as Bm.
  assert (zlen rs = zlen ms) as Ez by (unfold zlen; lia). rewrite Ez in *.
  pose proof (le_bound _ S1) as Bs. assert (zlen (shl1 rs bit) = zlen ms) as Ez1 by (unfold zlen in *; lia).
  rewrite Ez1 in Bs. assert (out = 0) as -> by (unfold is_bit in *; nia). rewrite Z.mul_0_r, Z.add_0_r in SE.
  pose proof (sub_spec (shl1 rs bit) ms 0 S1 Hm ltac:(lia) ltac:(by left)) as Hsub.
  destruct (sub (shl1 rs bit) ms 0) as [ts b]. destruct Hsub as (T1 & T2 & T3 & T4).
  rewrite select_spec by (done || lia). rewrite Ez1 in T4. pose proof (le_bound _ T1) as Bt.
  assert (zlen ts = zlen ms) as Ez2 by (unfold zlen in *; lia). rewrite Ez2 in Bt. unfold is_bit in *.
  destruct T3 as [-> | ->]; cbn [Z.eqb].
  - split; [done|]. split; [lia|]. apply Z.mod_unique with 1; [left; lia|]. lia.
  - split; [done|]. split; [lia|]. rewrite SE. symmetry. apply Z.mod_small. lia.
Qed.

Lemma fold_bits_spec ms rs b (l : list Z) :
  limbs ms -> limbs rs -> length rs = length ms -> le rs < le ms -> 2 * le ms <= 2 ^ (64 * zlen ms) ->
  let rs' := foldl (fun rs bit => reduce_bit ms rs (bit_of b bit)) rs l in
  limbs rs' /\ length rs' = length ms /\ le rs' < le ms /\
  le rs' = (foldl (fun a bit => 2 * a + bit_of b bit) (le rs) l) mod le ms.
Proof.
  intros Hm Hr Hlen Hlt Hroom. pose proof (le_bound _ Hr) as Br.
  induction l as [|i l IH] using rev_ind; cbn zeta.
  { split; [done|]. split; [done|]. split; [done|]. cbn [foldl]. rewrite Z.mod_small; lia. }
  rewrite !foldl_app. cbn [foldl]. destruct IH as (I1 & I2 & I3 & I4).
  assert (is_bit (bit_of b i)) as Hbit.
  { unfold bit_of, is_bit. rewrite (Z.land_ones _ 1) by lia.
    pose proof (Z.mod_pos_bound (Z.shiftr b i) (2 ^ 1) ltac:(lia)). lia. }
  destruct (reduce_bit_spec ms _ _ Hm I1 I2 Hbit I3 Hroom) as (J1 & J2 & J3).
  split; [done|]. split; [done|]. rewrite J3. split; [apply Z.mod_pos_bound; lia|]. rewrite I4.
  rewrite <- (Z.add_mod_idemp_l (2 * (_ mod _))), Z.mul_mod_idemp_r, Z.add_mod_idemp_l by lia. done.
Qed.

Lemma byte_bits a b :
  is_byte b -> foldl (fun a bit => 2 * a + bit_of b bit) a [7; 6; 5; 4; 3; 2; 1; 0] = 256 * a + b.
Proof.
  intros Hb. assert (b = foldl (fun a bit => 2 * a + bit_of b bit) 0 [7; 6; 5; 4; 3; 2; 1; 0]) as E.
  { assert (forallb (fun b => b =? foldl (fun a bit => 2 * a + bit_of b bit) 0 [7; 6; 5; 4; 3; 2; 1; 0])
      (Z.of_nat <$> seq 0 256) = true) as Hall by (vm_compute; reflexivity).
    rewrite forallb_forall in Hall. apply Z.eqb_eq. apply Hall. apply list_elem_of_In, list_elem_of_fmap.
    exists (Z.to_nat b). unfold is_byte in Hb. split; [lia|]. apply elem_of_seq. lia. }
  cbn [foldl] in *. lia.
Qed.

Lemma reduce_spec ms rs x :
  limbs ms -> limbs rs -> length rs = length ms -> le rs < le ms -> 2 * le ms <= 2 ^ (64 * zlen ms) -> bytes x ->
  let rs' := foldl (reduce_byte ms) rs x in
  limbs rs' /\ length rs' = length ms /\ le rs' < le ms /\
  le rs' = (foldl (fun a b => 256 * a + b) (le rs) x) mod le ms.
Proof.
  intros Hm Hr Hlen Hlt Hroom. pose proof (le_bound _ Hr) as Br.
  induction x as [|b x IH] using rev_ind; intros Hx; cbn zeta.
  { split; [done|]. split; [done|]. split; [done|]. cbn [foldl]. rewrite Z.mod_small; lia. }
  apply Forall_app in Hx as [Hx [Hb _]%Forall_cons]. destruct (IH Hx) as (I1 & I2 & I3 & I4).
  rewrite !foldl_app. cbn [foldl]. unfold reduce_byte at 1 3 5 7.
  destruct (fold_bits_spec ms _ b [7; 6; 5; 4; 3; 2; 1; 0] Hm I1 I2 I3 Hroom) as (J1 & J2 & J3 & J4).
  split; [done|]. split; [done|]. split; [done|]. rewrite J4, byte_bits, I4 by done.
  rewrite <- Z.add_mod_idemp_l, Z.mul_mod_idemp_r, Z.add_mod_idemp_l by lia. done.
Qed.

Lemma foldl_lor a ws : foldl Z.lor a ws = 0 <-> a = 0 /\ Forall (fun w => w = 0) ws.
Proof.
  revert a. induction ws as [|w ws IH]; intros a; cbn [foldl]; [naive_solver|].
  rewrite IH, Z.lor_eq_0_iff, Forall_cons. naive_solver.
Qed.

Lemma le_zero ws : limbs ws -> le ws = 0 <-> Forall (fun w => w = 0) ws.
Proof.
  intros Hl. split.
  - induction Hl as [|w ws Hw Hl IH]; [done|]. cbn [le]. pose proof (le_bound _ Hl).
    unfold is_limb in Hw. intros E. constructor; [lia|]. apply IH. lia.
  - induction 1 as [|w ws -> _ IH]; [done|]. inversion Hl; subst. cbn [le]. rewrite IH; done.
Qed.

(** The window of limbs that hold [m]. *)
Lemma le_take ws k : limbs ws -> le ws < 2 ^ (64 * Z.of_nat k) -> (k <= length ws)%nat -> le (take k ws) = le ws.
Proof.
  intros Hl Hlt Hk. pose proof (take_drop k ws) as E. rewrite <- E at 2. rewrite le_app.
  assert (zlen (take k ws) = Z.of_nat k) as Ez by (unfold zlen; rewrite length_take; lia). rewrite Ez.
  rewrite <- E, le_app, Ez in Hlt. pose proof (le_bound (take k ws) ltac:(by apply Forall_take)).
  pose proof (le_bound (drop k ws) ltac:(by apply Forall_drop)) as [Hd _].
  destruct (decide (le (drop k ws) = 0)) as [->|]; [lia|nia].
Qed.

(** What [reduceMod] accepts. *)
Definition reducible (dst x m : list Z) : bool :=
  negb (zlen m =? 0) && (zlen m * 8 <=? rsaMaxPrimeBits) && (zlen x * 8 <=? rsaMaxModulusBits)
  && (zlen dst =? zlen m) && negb (be m =? 0).

Lemma width_fits (m : list Z) :
  zlen m * 8 <= rsaMaxPrimeBits ->
  let nl := ((length m + 7) / 8 + 1)%nat in
  (nl <= modReduceLimbs)%nat /\ 2 * 256 ^ zlen m <= 2 ^ (64 * Z.of_nat nl).
Proof.
  unfold zlen, rsaMaxPrimeBits. change modReduceLimbs with 129%nat. intros H. cbn zeta.
  pose proof (div8 (length m + 7)) as [E1 E2]. split; [lia|].
  rewrite pow256_2, <- (Z.pow_succ_r 2) by lia. apply Z.pow_le_mono_r; lia.
Qed.

Lemma reduceMod_eq dst x m :
  bytes x -> bytes m ->
  reduceMod dst x m = if reducible dst x m then (true, be_bytes (length m) (be x mod be m)) else (false, dst).
Proof.
  intros Hx Hm. unfold reduceMod, reducible.
  destruct (zlen m =? 0) eqn:E1; [done|]. cbn [orb negb andb].
  rewrite (Z.ltb_antisym (zlen m * 8)), (Z.ltb_antisym (zlen x * 8)).
  destruct (zlen m * 8 <=? rsaMaxPrimeBits) eqn:E2; [|done]. cbn [orb negb andb].
  destruct (zlen x * 8 <=? rsaMaxModulusBits) eqn:E3; [|done]. cbn [orb negb andb].
  destruct (zlen dst =? zlen m) eqn:E4; [|done]. cbn [orb negb andb].
  apply Z.leb_le in E2. destruct (width_fits m E2) as [Hnl Hroom].
  destruct (setLimbsBE_spec (replicate modReduceLimbs 0) m Hm) as (mw & -> & Lmw & Nmw & Vmw).
  { rewrite length_replicate. lia. }
  rewrite length_replicate in Nmw. cbn [negb]. set (nl := ((length m + 7) / 8 + 1)%nat) in *.
  pose proof (be_bound m Hm) as Bm.
  assert (le (take nl mw) = be m) as Vm by (rewrite le_take; [done|done|lia|lia]).
  assert (limbs (take nl mw)) as Lm by by apply Forall_take.
  assert ((foldl Z.lor 0 (take nl mw) =? 0) = (be m =? 0)) as ->.
  { apply eq_bool_prop_intro. rewrite !Is_true_true, !Z.eqb_eq, foldl_lor, <- Vm, le_zero by done. naive_solver. }
  destruct (be m =? 0) eqn:E5; [done|]. cbn [negb].
  rewrite take_replicate, Nat.min_l by done. rewrite drop_replicate.
  assert (length (take nl mw) = nl) as Nm by (rewrite length_take; lia).
  destruct (reduce_spec (take nl mw) (replicate nl 0) x Lm (limbs_zeros nl)) as (R1 & R2 & R3 & R4);
    [by rewrite length_replicate|rewrite le_zeros; lia| |done|].
  { rewrite Vm. unfold zlen. rewrite Nm. lia. }
  f_equal. rewrite limbsToBE_spec.
  - apply Z.eqb_eq in E4. replace (length dst) with (length m) by (unfold zlen in E4; lia). f_equal.
    rewrite le_app, le_zeros, Z.mul_0_r, Z.add_0_r, R4, le_zeros, Vm. done.
  - apply Forall_app. split; [done|apply limbs_zeros].
  - rewrite length_app, R2, Nm, length_replicate. apply Z.eqb_eq in E4. unfold zlen in E4.
    replace (length dst) with (length m) by lia. lia.
Qed.

(** ** [p - 1] *)

Lemma dec_loop_spec p :
  bytes p -> dec_loop p = (be_bytes (length p) (be p - 1), if (be p =? 0) then 1 else 0).
Proof.
  induction 1 as [|b p Hb Hp IH]; [done|]. cbn [dec_loop length]. rewrite IH.
  pose proof (be_bound p Hp) as Bp. pose proof (pow256_pos (length p)) as Hpow. fold (@zlen Z p) in Hpow.
  rewrite be_bytes_cons, be_cons. fold (@zlen Z p). unfold is_byte in Hb.
  assert (be_bytes (length p) (b * 256 ^ zlen p + be p - 1) = be_bytes (length p) (be p - 1)) as ->.
  { apply be_inj; [apply bytes_be_bytes..|by rewrite !length_be_bytes|].
    rewrite !be_be_bytes. fold (@zlen Z p). rewrite <- (Z.mod_add (be p - 1) b) by lia. f_equal. lia. }
  destruct (Z.eqb_spec (be p) 0) as [E|E].
  - rewrite E. destruct (Z.eqb_spec b 0) as [->|Hb0].
    + change ((0 - 1) mod 2 ^ 16) with 65535. cbn [Z.eqb]. f_equal. f_equal.
      rewrite Z.mul_0_l. change (0 + 0 - 1) with (- (1)).
      assert ((-(1)) / 256 ^ zlen p = -1) as ->; [|done]. symmetry.
      apply Z.div_unique with (256 ^ zlen p - 1); lia.
    + rewrite (Z.mod_small (b - 1)) by lia. rewrite Z.shiftr_div_pow2, (Z.div_small (b - 1)) by lia.
      destruct (Z.eqb_spec (b * 256 ^ zlen p + 0) 0); [nia|]. f_equal. f_equal. f_equal.
      apply Z.div_unique with (256 ^ zlen p - 1); lia.
  - rewrite Z.sub_0_r, (Z.mod_small b (2 ^ 16)) by lia. rewrite Z.shiftr_div_pow2, (Z.div_small b (2 ^ 15)) by lia.
    destruct (Z.eqb_spec (b * 256 ^ zlen p + be p) 0); [nia|]. f_equal. f_equal. f_equal.
    apply Z.div_unique with (be p - 1); lia.
Qed.

Lemma decrementBE_eq dst p :
  bytes p -> decrementBE dst p =
    if negb (zlen dst =? zlen p) then (false, dst)
    else (negb (be p =? 0), be_bytes (length p) (be p - 1)).
Proof.
  intros Hp. unfold decrementBE. destruct (negb _); [done|]. rewrite dec_loop_spec by done.
  by destruct (be p =? 0).
Qed.

(** C37. The limb arithmetic is arithmetic on integers. [reduceMod] succeeds
    exactly for a non-zero modulus of at most 8192 bits, an operand of at most
    16384 bits and a destination as wide as the modulus; it then leaves the
    remainder there, big-endian and zero-padded, and otherwise leaves the
    destination alone. [decrementBE] writes [p - 1] modulo the width of [p] and
    succeeds exactly for [p > 0] and a destination as wide as [p]. *)
Theorem reduce_mod_exact dst x m p :
  bytes x -> bytes m -> bytes p ->
  let '(ok, out) := reduceMod dst x m in
  let '(ok', out') := decrementBE dst p in
  ok = reducible dst x m /\
  (if ok then length out = length m /\ bytes out /\ be out = be x mod be m else out = dst) /\
  ok' = (zlen dst =? zlen p) && (0 <? be p) /\
  (if zlen dst =? zlen p then length out' = length p /\ bytes out' /\ be out' = (be p - 1) mod 256 ^ zlen p
   else out' = dst).
Proof.
  intros Hx Hm Hp. rewrite reduceMod_eq, decrementBE_eq by done. pose proof (be_bound p Hp) as Bp.
  assert (reducible dst x m = true ->
    length (be_bytes (length m) (be x mod be m)) = length m /\ bytes (be_bytes (length m) (be x mod be m)) /\
    be (be_bytes (length m) (be x mod be m)) = be x mod be m) as Hred.
  { intros Hr. split; [apply length_be_bytes|]. split; [apply bytes_be_bytes|]. rewrite be_be_bytes.
    pose proof (be_bound m Hm) as Bm. unfold reducible in Hr. rewrite !andb_true_iff, !negb_true_iff, Z.eqb_neq in Hr.
    destruct Hr as [_ Hr]. apply Z.mod_small. fold (@zlen Z m). pose proof (Z.mod_pos_bound (be x) (be m)). 
    assert (be m <> 0) by (by apply Z.eqb_neq). lia. }
  destruct (reducible dst x m), (zlen dst =? zlen p); cbn [negb andb]; (split; [done|]);
    (split; [first [done|by apply Hred]|]); (split; [destruct (Z.eqb_spec (be p) 0); destruct (Z.ltb_spec 0 (be p)); done || lia|]);
    try done; (split; [apply length_be_bytes|]); (split; [apply bytes_be_bytes|apply be_be_bytes]).
Qed.

(** 258 mod 250 in one byte, and 0x0100 - 1 in two. *)
Lemma reduce_mod_exact_witness :
  reduceMod [0] [1; 2] [250] = (true, [8]) /\ decrementBE [0] [1; 0] = (false, [0]) /\
  (bytes [1; 2] /\ bytes [250]) /\ be [8] = be [1; 2] mod be [250].
Proof.
  assert (bytes [1; 2]) as H1 by (repeat constructor; unfold is_byte; lia).
  assert (bytes [250]) as H2 by (repeat constructor; unfold is_byte; lia).
  assert (bytes [1; 0]) as H3 by (repeat constructor; unfold is_byte; lia).
  assert (reduceMod [0] [1; 2] [250] = (true, [8])) as E1 by (vm_compute; reflexivity).
  assert (decrementBE [0] [1; 0] = (false, [0])) as E2 by (vm_compute; reflexivity).
  split; [exact E1|]. split; [exact E2|]. split; [exact (conj H1 H2)|].
  pose proof (reduce_mod_exact [0] [1; 2] [250] [1; 0] H1 H2 H3) as T. rewrite E1, E2 in T.
  exact (proj2 (proj2 (proj1 (proj2 T)))).
Defined.
