(* ===== verification/Writer.v ===== *)
(** * Writers into a fixed slice

    The two cursor types of secmem-crypto, [derWriter] (parse_openssh.go) and
    [sshWriter] (openssh_wire.go): a slice that never grows and an offset. A
    write past its end panics; [copy] is cut short there. *)
From S2P Require Import Prelude Bytes.

Record writer : Type := Writer { wr_b : list Z; wr_n : Z }.
Abbreviation WM := (M writer).

(** [w.b[w.off] = v; w.off++] *)
Definition putByte (v : Z) : WM unit := fun w =>
  if (0 <=? wr_n w) && (wr_n w <? zlen (wr_b w))
  then Ret tt (Writer (<[Z.to_nat (wr_n w) := v]> (wr_b w)) (wr_n w + 1))
  else Panic w.

(** [w.n += copy(w.b[w.n:], p)] *)
Definition bytes_ (p : list Z) : WM unit := fun w =>
  if (0 <=? wr_n w) && (wr_n w <=? zlen (wr_b w))
  then let k := Z.min (zlen p) (zlen (wr_b w) - wr_n w) in
       Ret tt (Writer (lset (wr_n w) (take (Z.to_nat k) p) (wr_b w)) (wr_n w + k))
  else Panic w.

(** [binary.BigEndian.PutUint32(w.b[w.n:], v); w.n += 4] *)
Definition uint32_ (v : Z) : WM unit := fun w =>
  if (0 <=? wr_n w) && (wr_n w + 4 <=? zlen (wr_b w))
  then Ret tt (Writer (lset (wr_n w) (be_bytes 4 v) (wr_b w)) (wr_n w + 4))
  else Panic w.

(** [m] appends exactly [vs], where there is room. *)
Definition writes (m : WM unit) (vs : list Z) : Prop :=
  forall pre rest, (length vs <= length rest)%nat ->
    m (Writer (pre ++ rest) (zlen pre)) =
    Ret tt (Writer (pre ++ vs ++ drop (length vs) rest) (zlen pre + zlen vs)).

Lemma writes_nil : writes (mret tt) [].
Proof. intros pre rest _. unfold mret, M_ret. rewrite drop_0. do 2 f_equal. cbn. change (zlen []) with 0. lia. Qed.

Lemma writes_seq m1 m2 v1 v2 : writes m1 v1 -> writes m2 v2 -> writes (m1;; m2) (v1 ++ v2).
Proof.
  intros H1 H2 pre rest Hlen. rewrite length_app in Hlen. unfold mbind, M_bind. rewrite H1 by lia.
  rewrite app_assoc, <- zlen_app, H2 by (rewrite length_drop; lia).
  rewrite <- !app_assoc, drop_drop, !zlen_app, length_app. do 2 f_equal. lia.
Qed.

Lemma lset_app (pre vs rest : list Z) :
  (length vs <= length rest)%nat -> lset (zlen pre) vs (pre ++ rest) = pre ++ vs ++ drop (length vs) rest.
Proof.
  intros H. unfold lset, zlen. rewrite Nat2Z.id, take_app_length. f_equal. f_equal.
  rewrite drop_app_ge by lia. f_equal. lia.
Qed.

Lemma writes_bytes p : writes (bytes_ p) p.
Proof.
  intros pre rest Hlen. unfold bytes_. cbn [wr_n wr_b]. rewrite zlen_app. pose proof (zlen_nonneg pre).
  unfold zlen in *. destruct (Z.leb_spec 0 (Z.of_nat (length pre))); [|lia]. cbn [andb].
  destruct (Z.leb_spec (Z.of_nat (length pre)) (Z.of_nat (length pre) + Z.of_nat (length rest))); [|lia].
  rewrite Z.min_l by lia. rewrite Nat2Z.id, take_ge by lia. f_equal. f_equal. by apply lset_app.
Qed.

Lemma writes_byte v : writes (putByte v) [v].
Proof.
  intros pre rest Hlen. unfold putByte. cbn [wr_n wr_b length] in *. rewrite zlen_app. pose proof (zlen_nonneg pre).
  destruct rest as [|x rest]; [cbn in Hlen; lia|]. rewrite zlen_cons. pose proof (zlen_nonneg rest).
  destruct (Z.leb_spec 0 (zlen pre)); [|lia]. destruct (Z.ltb_spec (zlen pre) (zlen pre + (1 + zlen rest))); [|lia].
  cbn [andb]. f_equal. f_equal. unfold zlen. rewrite Nat2Z.id.
  replace (length pre) with (length pre + 0)%nat by lia. by rewrite insert_app_r.
Qed.

Lemma writes_uint32 v : writes (uint32_ v) (be_bytes 4 v).
Proof.
  intros pre rest Hlen. rewrite length_be_bytes in Hlen. unfold uint32_. cbn [wr_n wr_b]. rewrite zlen_app.
  pose proof (zlen_nonneg pre). unfold zlen in *. destruct (Z.leb_spec 0 (Z.of_nat (length pre))); [|lia].
  destruct (Z.leb_spec (Z.of_nat (length pre) + 4) (Z.of_nat (length pre) + Z.of_nat (length rest))); [|lia].
  cbn [andb]. f_equal. f_equal. apply lset_app. by rewrite length_be_bytes.
Qed.

(** A write with something behind it. *)
Lemma writes_bind {A} m vs (k : unit -> WM A) pre rest :
  writes m vs -> (length vs <= length rest)%nat ->
  (m ≫= k) (Writer (pre ++ rest) (zlen pre)) = k tt (Writer ((pre ++ vs) ++ drop (length vs) rest) (zlen (pre ++ vs))).
Proof. intros Hm Hlen. unfold mbind, M_bind. rewrite Hm by done. by rewrite <- app_assoc, zlen_app. Qed.

(** From an empty start over exactly enough room. *)
Lemma writes_all m vs b :
  writes m vs -> length b = length vs -> m (Writer b 0) = Ret tt (Writer vs (zlen vs)).
Proof.
  intros Hm Hlen. pose proof (Hm [] b ltac:(lia)) as E. cbn [app] in E. change (zlen []) with 0 in E.
  rewrite E. by rewrite <- Hlen, drop_all, app_nil_r.
Qed.

(** A loop of writes. *)
Lemma writes_loop {A} (f : A -> WM unit) (vs : A -> list Z) (l : list A) :
  (forall x, x ∈ l -> writes (f x) (vs x)) ->
  writes (foldr (fun x m => f x;; m) (mret tt) l) (l ≫= vs).
Proof.
  induction l as [|x l IH]; intros H; [apply writes_nil|]. cbn. apply writes_seq; [apply H; left|].
  apply IH. intros y Hy. apply H. by right.
Qed.

#[export] Hint Resolve writes_nil writes_seq writes_bytes writes_byte writes_uint32 : writes.
