(* ===== verification/RsaKey.v ===== *)
(** * RSA keys: the size rule and the PKCS#1 assembly
      (secmem-crypto/rsabounds.go, secmem-crypto/parse_openssh.go)

    [checkRSAIntegers], the DER writer, and [pkcs1DER], which turns the six
    integers of an OpenSSH RSA key into an RSAPrivateKey. *)
From S2P Require Import Prelude Errors KeyErrors Bytes ModReduce Writer.

(** ** The size rule *)

Definition rsaMaxExponentBits : Z := 24.

Fixpoint checkCRT (crt : list (list Z)) : option gerr :=
  match crt with
  | [] => None
  | v :: crt => if (rsaMaxPrimeBits <? bitLen v) then Some (malformed "RSA CRT value too large") else checkCRT crt
  end.

Definition checkRSAIntegers (n e d p q : list Z) (crt : list (list Z)) : option gerr :=
  if (rsaMaxModulusBits <? bitLen n) then Some (malformed "RSA modulus too large")
  else if (rsaMaxModulusBits <? bitLen d) then Some (malformed "RSA private exponent too large")
  else if (rsaMaxPrimeBits <? bitLen p) || (rsaMaxPrimeBits <? bitLen q) then Some (malformed "RSA prime too large")
  else if (rsaMaxExponentBits <? bitLen e) || (bitLen e <? 2)
          || (Z.land (e !!! (length e - 1)%nat) 1 =? 0) then Some (malformed "RSA public exponent")
  else checkCRT crt.

(** ** The DER writer *)

(** [derInt]: a stripped magnitude. *)
Record derInt : Type := DerInt { raw : list Z }.

Definition magnitude (x : derInt) : Z * bool :=
  (zlen (raw x), match raw x with b :: _ => negb (Z.land b 128 =? 0) | [] => false end).

Definition contentLen (x : derInt) : Z :=
  let '(nbytes, high) := magnitude x in
  if (nbytes =? 0) then 1 else if high : bool then nbytes + 1 else nbytes.

(** The loop of [derLengthOctets]: a [uint64] is zero after eight shifts. *)
Fixpoint octets (fuel : nat) (v : Z) : Z :=
  match fuel with
  | O => 0
  | S fuel => if (v =? 0) then 0 else 1 + octets fuel (Z.shiftr v 8)
  end.
Definition derLengthOctets (n : Z) : Z := octets 8 (uwrap64 n).

Definition derLengthLen (n : Z) : Z := if (n <? 128) then 1 else 1 + derLengthOctets n.

Definition encodedLen (x : derInt) : Z :=
  let c := contentLen x in 1 + derLengthLen c + c.

Definition putLength (n : Z) : WM unit :=
  if (n <? 128) then putByte (Z.max n 0 mod 256)
  else let k := derLengthOctets n in
       putByte (Z.lor 128 (k mod 256));;
       foldr (fun i m => putByte (Z.shiftr n (8 * i) mod 256);; m) (mret tt) (reverse (seqZ 0 k)).

Definition putInteger (x : derInt) : WM unit :=
  putByte 2;;
  putLength (contentLen x);;
  let '(nbytes, high) := magnitude x in
  if (nbytes =? 0) then putByte 0
  else (if high : bool then putByte 0 else mret tt);; bytes_ (raw x).

(** ** [pkcs1DER] *)

(** [buf[:n]] of a stack array. *)
Definition slice_to (buf : list Z) (n : Z) : M unit (list Z) :=
  if (0 <=? n) && (n <=? zlen buf) then mret (take (Z.to_nat n) buf) else panic.

(** The closure that fills the buffer: what it leaves in [dst], or its error. *)
Definition writeDER (fields : list derInt) (content : Z) (dst : list Z) : M unit (gerr + list Z) :=
  match (putByte 48;; putLength content;; foldr (fun f m => putInteger f;; m) (mret tt) fields) (Writer dst 0) with
  | Ret _ w => if negb (wr_n w =? zlen dst) then mret (inl (malformed "internal DER size mismatch"))
               else mret (inr (wr_b w))
  | _ => panic
  end.

(** [newEmptyBuffer] is the allocation's outcome; what it returns is a zeroed
    buffer of the size asked for. *)
Definition pkcs1DER (newEmptyBuffer : Z -> option gerr) (n e d p q iqmp : list Z) : M unit (gerr + list Z) :=
  let n := stripZeros n in let e := stripZeros e in let d := stripZeros d in
  let p := stripZeros p in let q := stripZeros q in let iqmp := stripZeros iqmp in
  if (zlen n =? 0) || (zlen e =? 0) || (zlen d =? 0) || (zlen p =? 0) || (zlen q =? 0) || (zlen iqmp =? 0)
  then mret (inl errMalformed)
  else match checkRSAIntegers n e d p q [iqmp] with
  | Some err => mret (inl err)
  | None =>
      let stack := replicate (Z.to_nat (rsaMaxPrimeBits / 8)) 0 in
      pm1 ← slice_to stack (zlen p);
      let '(ok1, pm1) := decrementBE pm1 p in
      if negb ok1 then mret (inl errMalformed) else
      qm1 ← slice_to stack (zlen q);
      let '(ok2, qm1) := decrementBE qm1 q in
      if negb ok2 || (zlen (stripZeros pm1) =? 0) || (zlen (stripZeros qm1) =? 0)
      then mret (inl errMalformed) else
      dpBuf ← slice_to stack (zlen p);
      let '(ok3, dpBuf) := reduceMod dpBuf d pm1 in
      if negb ok3 then mret (inl errMalformed) else
      dqBuf ← slice_to stack (zlen q);
      let '(ok4, dqBuf) := reduceMod dqBuf d qm1 in
      if negb ok4 then mret (inl errMalformed) else
      let dp := stripZeros dpBuf in
      let dq := stripZeros dqBuf in
      let fields := DerInt <$> [[]; n; e; d; p; q; dp; dq; iqmp] in
      let content := foldl (fun a f => a + encodedLen f) 0 fields in
      let total := 1 + derLengthLen content + content in
      match newEmptyBuffer total with
      | Some err => mret (inl (errorf "allocate RSA key buffer" err))
      | None => writeDER fields content (zeros total)
      end
  end.

(** ** The DER of X.690, on integers *)

Definition width (v : Z) : Z := Z.log2 v / 8 + 1.

Definition der_length (n : Z) : list Z :=
  if (n <? 128) then [n] else 128 + width n :: be_bytes (Z.to_nat (width n)) n.

(** The shortest two's-complement content octets of [v >= 0]. *)
Definition der_content (v : Z) : list Z :=
  if (v =? 0) then [0]
  else (if Z.testbit v (8 * width v - 1) then [0] else []) ++ be_bytes (Z.to_nat (width v)) v.

Definition der_integer (v : Z) : list Z := 2 :: der_length (zlen (der_content v)) ++ der_content v.
Definition der_sequence (c : list Z) : list Z := 48 :: der_length (zlen c) ++ c.

(** RFC 8017 A.1.2: version 0, n, e, d, p, q, d mod (p-1), d mod (q-1), qInv. *)
Definition rsa_private_key (n e d p q qinv : Z) : list Z :=
  der_sequence ([0; n; e; d; p; q; d mod (p - 1); d mod (q - 1); qinv] ≫= der_integer).

(** ** Widths *)

Lemma width_pos v : 0 < v -> 1 <= width v.
Proof. intros. unfold width. pose proof (Z.log2_nonneg v). pose proof (Z.div_pos (Z.log2 v) 8). lia. Qed.

Lemma octets_spec f v : 0 <= v < 256 ^ Z.of_nat f -> octets f v = if (v =? 0) then 0 else width v.
Proof.
  revert v. induction f as [|f IH]; intros v Hv; cbn [octets].
  { change (256 ^ Z.of_nat 0) with 1 in Hv. by replace v with 0 by lia. }
  destruct (Z.eqb_spec v 0); [done|]. rewrite pow256_S in Hv.
  assert (0 <= Z.shiftr v 8 < 256 ^ Z.of_nat f) as Hs.
  { rewrite Z.shiftr_div_pow2 by lia. change (2 ^ 8) with 256.
    split; [apply Z.div_pos; lia|apply Z.div_lt_upper_bound; lia]. }
  rewrite IH by done. pose proof (Z.log2_nonneg v). unfold width. destruct (Z.eqb_spec (Z.shiftr v 8) 0) as [E|E].
  - rewrite Z.shiftr_div_pow2 in E by lia. apply Z.div_small_iff in E; [|lia].
    assert (Z.log2 v < 8) by (apply Z.log2_lt_pow2; lia). rewrite Z.div_small; lia.
  - assert (8 <= Z.log2 v) as H8.
    { apply Z.log2_le_pow2; [lia|]. rewrite Z.shiftr_div_pow2 in E by lia. destruct (decide (2 ^ 8 <= v)); [done|].
      destruct E. apply Z.div_small. lia. }
    rewrite Z.log2_shiftr, Z.max_r by lia.
    replace (Z.log2 v - 8) with (Z.log2 v + (-1) * 8) by lia. rewrite Z.div_add by lia. lia.
Qed.

Lemma width_bound v k : 0 < v < 256 ^ k -> 0 < k -> width v <= k.
Proof.
  intros Hv Hk. rewrite pow256_2 in Hv. assert (Z.log2 v < 8 * k) by (apply Z.log2_lt_pow2; lia).
  unfold width. assert (Z.log2 v / 8 < k); [|lia]. apply Z.div_lt_upper_bound; lia.
Qed.

Lemma derLengthOctets_spec n : 128 <= n < 2 ^ 63 -> derLengthOctets n = width n /\ 1 <= width n <= 8.
Proof.
  intros Hn. unfold derLengthOctets. rewrite uwrap64_id by lia. rewrite octets_spec by (cbn; lia).
  destruct (Z.eqb_spec n 0); [lia|]. split; [done|]. split; [apply width_pos; lia|].
  apply width_bound; [|lia]. cbn. lia.
Qed.

Lemma zlen_der_length n : 0 <= n < 2 ^ 63 -> zlen (der_length n) = derLengthLen n.
Proof.
  intros Hn. unfold der_length, derLengthLen. destruct (Z.ltb_spec n 128); [done|].
  destruct (derLengthOctets_spec n ltac:(lia)) as [-> ?]. rewrite zlen_cons, zlen_be_bytes. lia.
Qed.

Lemma be_bytes_loop k v :
  reverse (seqZ 0 (Z.of_nat k)) ≫= (fun i => [Z.shiftr v (8 * i) mod 256]) = be_bytes k v.
Proof.
  induction k as [|k IH]; [done|]. rewrite seqZ_S, reverse_app, be_bytes_cons, <- IH.
  cbn. f_equal. rewrite Z.shiftr_div_pow2, pow256_2 by lia. by rewrite Z.add_0_l.
Qed.

Lemma putLength_writes n : 0 <= n < 2 ^ 63 -> writes (putLength n) (der_length n).
Proof.
  intros Hn. unfold putLength, der_length. destruct (Z.ltb_spec n 128).
  { rewrite Z.max_l, Z.mod_small by lia. apply writes_byte. }
  destruct (derLengthOctets_spec n ltac:(lia)) as [-> Hw]. rewrite (Z.mod_small (width n)) by lia.
  replace (Z.lor 128 (width n)) with (128 + width n)
    by (rewrite Z.lor_comm; change 128 with (1 * 2 ^ 7); rewrite lor_add by (cbn; lia); lia).
  change (128 + width n :: ?l) with ([128 + width n] ++ l). apply writes_seq; [apply writes_byte|].
  rewrite <- be_bytes_loop, Z2Nat.id by lia. apply writes_loop. intros i _. apply writes_byte.
Qed.

(** ** Integers *)

(** What a magnitude must be for the writer to encode it minimally. *)
Definition mag_ok (b : list Z) : Prop := bytes b /\ stripped b /\ zlen b < 2 ^ 62.

Lemma width_be b : bytes b -> stripped b -> b <> [] -> width (be b) = zlen b.
Proof.
  intros Hb Hs Hn. pose proof (stripped_pos b Hb Hs Hn) as Hp. pose proof (be_bound b Hb) as Hlt.
  destruct b as [|x b]; [done|]. set (v := be (x :: b)) in *. rewrite zlen_cons in *. pose proof (zlen_nonneg b).
  replace (1 + zlen b - 1) with (zlen b) in Hp by lia. rewrite pow256_2 in *.
  assert (0 < 2 ^ (8 * zlen b)) by (apply Z.pow_pos_nonneg; lia). unfold width.
  assert (8 * zlen b <= Z.log2 v) by (apply Z.log2_le_pow2; lia).
  assert (Z.log2 v < 8 * (1 + zlen b)) by (apply Z.log2_lt_pow2; lia).
  assert (Z.log2 v / 8 = zlen b); [|lia]. symmetry. apply Z.div_unique with (Z.log2 v - 8 * zlen b); lia.
Qed.

Lemma high_bit x : is_byte x -> negb (Z.land x 128 =? 0) = Z.testbit x 7.
Proof.
  intros Hx. assert (forallb (fun x => Bool.eqb (negb (Z.land x 128 =? 0)) (Z.testbit x 7)) (Z.of_nat <$> seq 0 256) = true)
    as Hall by (vm_compute; reflexivity).
  rewrite forallb_forall in Hall. apply eqb_prop, Hall, list_elem_of_In, list_elem_of_fmap.
  exists (Z.to_nat x). unfold is_byte in Hx. split; [lia|]. apply elem_of_seq. lia.
Qed.

Lemma top_bit x b : is_byte x -> bytes b -> Z.testbit (be (x :: b)) (8 * zlen (x :: b) - 1) = Z.testbit x 7.
Proof.
  intros Hx Hb. rewrite be_cons, zlen_cons, pow256_2. pose proof (be_bound b Hb) as Hlt. rewrite pow256_2 in Hlt.
  pose proof (zlen_nonneg b). rewrite Z.add_comm, <- lor_add by lia.
  rewrite Z.lor_spec. rewrite Z.mul_pow2_bits by lia.
  replace (8 * (1 + zlen b) - 1 - 8 * zlen b) with 7 by lia.
  rewrite <- (Z.mod_small (be b) (2 ^ (8 * zlen b))) by lia. by rewrite Z.mod_pow2_bits_high by lia.
Qed.

Lemma der_content_be b :
  bytes b -> stripped b ->
  der_content (be b) = match b with [] => [0] | x :: _ => (if negb (Z.land x 128 =? 0) then [0] else []) ++ b end.
Proof.
  intros Hb Hs. unfold der_content. destruct b as [|x b]; [done|].
  rewrite width_be by done. pose proof (stripped_pos _ Hb Hs ltac:(done)) as Hp.
  rewrite zlen_cons in Hp. pose proof (zlen_nonneg b). pose proof (Z.pow_pos_nonneg 256 (1 + zlen b - 1)).
  destruct (Z.eqb_spec (be (x :: b)) 0); [lia|]. inversion Hb; subst.
  rewrite top_bit, high_bit by done. f_equal. unfold zlen. by rewrite Nat2Z.id, be_bytes_be.
Qed.

Lemma contentLen_spec b : mag_ok b -> contentLen (DerInt b) = zlen (der_content (be b)).
Proof.
  intros (Hb & Hs & _). rewrite der_content_be by done. unfold contentLen, magnitude. cbn [raw].
  destruct b as [|x b]; [done|]. rewrite zlen_cons. pose proof (zlen_nonneg b).
  destruct (Z.eqb_spec (1 + zlen b) 0); [lia|]. rewrite zlen_app, zlen_cons.
  destruct (negb _); [change (zlen [0]) with 1|change (zlen []) with 0]; lia.
Qed.

Lemma contentLen_bound b : 0 <= contentLen (DerInt b) <= zlen b + 1.
Proof.
  unfold contentLen, magnitude. cbn [raw]. pose proof (zlen_nonneg b).
  destruct (Z.eqb_spec (zlen b) 0); [lia|]. destruct b; [lia|]. case_match; lia.
Qed.

Lemma encodedLen_spec b : mag_ok b -> encodedLen (DerInt b) = zlen (der_integer (be b)).
Proof.
  intros Hb. unfold encodedLen, der_integer. pose proof (contentLen_bound b). destruct Hb as (? & ? & ?).
  rewrite <- zlen_der_length by lia. rewrite zlen_cons, zlen_app, contentLen_spec by done. lia.
Qed.

Lemma putInteger_writes b : mag_ok b -> writes (putInteger (DerInt b)) (der_integer (be b)).
Proof.
  intros Hm. unfold putInteger, der_integer. pose proof (contentLen_bound b). pose proof Hm as (Hb & Hs & ?).
  change (2 :: ?l) with ([2] ++ l). apply writes_seq; [apply writes_byte|].
  apply writes_seq; [rewrite contentLen_spec by done; apply putLength_writes; rewrite <- contentLen_spec by done; lia|].
  rewrite der_content_be by done. unfold magnitude. cbn [raw]. destruct b as [|x b]; [apply writes_byte|].
  rewrite zlen_cons. pose proof (zlen_nonneg b). destruct (Z.eqb_spec (1 + zlen b) 0); [lia|].
  apply writes_seq; [destruct (negb _); [apply writes_byte|apply writes_nil]|apply writes_bytes].
Qed.

(** ** The size rule, on integers *)

Definition bits (v : Z) : Z := if (v =? 0) then 0 else Z.log2 v + 1.

Definition is_malformed (err : gerr) : Prop := err = errMalformed \/ exists what, err = malformed what.

(** The caps of rsabounds.go, and an odd public exponent above one. *)
Definition fits_caps (n e d p q qinv : Z) : bool :=
  (bits n <=? 16384) && (bits d <=? 16384) && (bits p <=? 8192) && (bits q <=? 8192) && (bits qinv <=? 8192) &&
  (2 <=? bits e) && (bits e <=? 24) && Z.odd e.

(** What a key must be: six numbers within the caps, and primes above one. *)
Definition rsa_ok (n e d p q qinv : Z) : bool :=
  forallb (fun v => negb (v =? 0)) [n; e; d; p; q; qinv] && fits_caps n e d p q qinv && (2 <=? p) && (2 <=? q).

Lemma last_odd b : bytes b -> b <> [] -> (Z.land (b !!! (length b - 1)%nat) 1 =? 0) = negb (Z.odd (be b)).
Proof.
  intros Hb Hn. destruct b as [|x b _] using rev_ind; [done|]. rewrite length_app. cbn [length].
  replace (length b + 1 - 1)%nat with (length b) by lia. rewrite lookup_total_app_r, Nat.sub_diag by lia. change ([x] !!! 0%nat) with x.
  assert (Z.odd (be (b ++ [x])) = Z.odd x) as -> by (rewrite be_snoc, Z.odd_add, Z.odd_mul; by destruct (Z.odd x)).
  change (Z.land x 1) with (Z.land x (Z.ones 1)). rewrite Z.land_ones, Zmod_odd by lia. by destruct (Z.odd x).
Qed.

Lemma check_spec n e d p q i :
  Forall (fun b => bytes b /\ stripped b) [n; e; d; p; q; i] -> e <> [] ->
  match checkRSAIntegers n e d p q [i] with
  | None => fits_caps (be n) (be e) (be d) (be p) (be q) (be i) = true
  | Some err => fits_caps (be n) (be e) (be d) (be p) (be q) (be i) = false /\ is_malformed err
  end.
Proof.
  rewrite !Forall_cons. intros ([? ?] & [? ?] & [? ?] & [? ?] & [? ?] & [? ?] & _) He.
  unfold checkRSAIntegers, fits_caps, rsaMaxModulusBits, rsaMaxPrimeBits, rsaMaxExponentBits.
  rewrite last_odd by done. unfold bits. rewrite <- !bitLen_spec by done. cbn [checkCRT].
  unfold rsaMaxPrimeBits. repeat rewrite Z.ltb_antisym.
  repeat (destruct (_ <=? _); cbn [andb orb negb]; try (split; [done|right; by eexists])); try done.
  all: destruct (Z.odd _); cbn; first [done|split; [done|right; by eexists]].
Qed.

(** ** The assembly *)

(** A stripped magnitude of at most [8 * k] bits has at most [k] bytes. *)
Lemma bits_zlen b k : bytes b -> stripped b -> 0 <= k -> bits (be b) <= 8 * k -> zlen b <= k.
Proof.
  intros Hb Hs Hk Hbits. destruct (decide (b = [])) as [->|Hn]; [done|].
  rewrite <- width_be by done. pose proof (stripped_pos b Hb Hs Hn) as Hp.
  pose proof (zlen_nonneg b). destruct b as [|x b]; [done|]. rewrite zlen_cons in *. pose proof (zlen_nonneg b).
  pose proof (Z.pow_pos_nonneg 256 (1 + zlen b - 1) ltac:(lia) ltac:(lia)).
  unfold bits in Hbits. destruct (Z.eqb_spec (be (x :: b)) 0); [lia|]. unfold width.
  assert (Z.log2 (be (x :: b)) / 8 < k); [|lia]. apply Z.div_lt_upper_bound; lia.
Qed.

Lemma slice_stack (p : list Z) :
  zlen p <= 1024 ->
  slice_to (replicate (Z.to_nat (rsaMaxPrimeBits / 8)) 0) (zlen p) tt = Ret (replicate (length p) 0) tt.
Proof.
  intros Hp. unfold slice_to. change (Z.to_nat (rsaMaxPrimeBits / 8)) with (Z.to_nat 1024).
  rewrite zlen_replicate by lia. unfold zlen in *.
  destruct (Z.leb_spec 0 (Z.of_nat (length p))); [|lia]. destruct (Z.leb_spec (Z.of_nat (length p)) 1024); [|lia].
  cbn [andb]. rewrite take_replicate, Nat2Z.id, Nat.min_l by lia. done.
Qed.

(** The two CRT exponents. *)
Lemma crt_step p d :
  bytes p -> stripped p -> bytes d -> 2 <= be p -> zlen p <= 1024 -> zlen d <= 2048 ->
  let pm1 := be_bytes (length p) (be p - 1) in
  decrementBE (replicate (length p) 0) p = (true, pm1) /\ stripZeros pm1 <> [] /\
  reduceMod (replicate (length p) 0) d pm1 = (true, be_bytes (length p) (be d mod (be p - 1))).
Proof.
  intros Hp Hs Hd H2 Hlp Hld pm1.
  pose proof (be_bound p Hp) as Bp. pose proof (pow256_pos (length p)) as Hpow. unfold zlen in Bp.
  assert (be pm1 = be p - 1) as Vm by (unfold pm1; rewrite be_be_bytes, Z.mod_small; lia).
  assert (length pm1 = length p) as Lm by apply length_be_bytes.
  assert (bytes pm1) as Bm by apply bytes_be_bytes.
  split; [|split].
  - rewrite decrementBE_eq by done. unfold zlen. rewrite length_replicate, Z.eqb_refl. cbn [negb].
    by destruct (Z.eqb_spec (be p) 0); [lia|].
  - rewrite stripZeros_nil, Vm by done. lia.
  - rewrite reduceMod_eq by done. unfold reducible. rewrite Vm. unfold zlen in *. rewrite Lm, length_replicate.
    destruct p as [|x p]; [cbn in H2; lia|]. cbn [length] in *. unfold rsaMaxPrimeBits, rsaMaxModulusBits.
    destruct (Z.eqb_spec (Z.of_nat (S (length p))) 0); [lia|].
    destruct (Z.leb_spec (Z.of_nat (S (length p)) * 8) 8192); [|lia].
    destruct (Z.leb_spec (Z.of_nat (length d) * 8) 16384); [|lia].
    rewrite Z.eqb_refl. destruct (Z.eqb_spec (be (x :: p) - 1) 0); [lia|]. done.
Qed.

Lemma content_eq (bs : list (list Z)) a :
  Forall mag_ok bs ->
  foldl (fun a f => a + encodedLen f) a (DerInt <$> bs) = a + zlen ((be <$> bs) ≫= der_integer).
Proof.
  intros H. revert a. induction H as [|b bs Hb Hbs IH]; intros a; [change (zlen _) with 0; cbn; lia|].
  cbn [fmap list_fmap foldl]. rewrite IH, encodedLen_spec by done. rewrite bind_cons, zlen_app. lia.
Qed.

Lemma der_integer_len b : mag_ok b -> zlen (der_integer (be b)) <= 11 + zlen b.
Proof.
  intros Hm. rewrite <- encodedLen_spec by done. unfold encodedLen. pose proof (contentLen_bound b).
  destruct Hm as (_ & _ & ?). unfold derLengthLen. destruct (Z.ltb_spec (contentLen (DerInt b)) 128); [lia|].
  destruct (derLengthOctets_spec (contentLen (DerInt b)) ltac:(lia)) as [-> ?]. lia.
Qed.

(** Writing the structure fills the buffer exactly. *)
Lemma writeDER_eq (bs : list (list Z)) :
  Forall mag_ok bs -> let c := (be <$> bs) ≫= der_integer in zlen c < 2 ^ 62 ->
  let content := foldl (fun a f => a + encodedLen f) 0 (DerInt <$> bs) in
  let total := 1 + derLengthLen content + content in
  total = zlen (der_sequence c) /\
  writeDER (DerInt <$> bs) content (zeros total) tt = Ret (inr (der_sequence c)) tt.
Proof.
  intros Hbs c Hc content total. pose proof (zlen_nonneg c) as Hc0.
  assert (content = zlen c) as Ec by (unfold content; by rewrite content_eq).
  assert (total = zlen (der_sequence c)) as Et.
  { unfold total, der_sequence. rewrite Ec, zlen_cons, zlen_app, zlen_der_length by lia. lia. }
  split; [done|]. unfold writeDER.
  assert (writes (putByte 48;; putLength content;; foldr (fun f m => putInteger f;; m) (mret tt) (DerInt <$> bs))
    (der_sequence c)) as Hw.
  { unfold der_sequence. change (48 :: ?l) with ([48] ++ l). apply writes_seq; [apply writes_byte|]. rewrite Ec.
    apply writes_seq; [apply putLength_writes; lia|].
    assert (c = (DerInt <$> bs) ≫= (fun f => der_integer (be (raw f)))) as ->.
    { unfold c. clear. induction bs as [|b bs IH]; [done|]. rewrite !fmap_cons, !bind_cons, IH. done. }
    apply writes_loop. intros f (b & -> & Hb)%list_elem_of_fmap. apply putInteger_writes.
    by apply (proj1 (Forall_forall _ _) Hbs). }
  rewrite (writes_all _ _ (zeros total) Hw).
  - cbn [wr_n wr_b]. pose proof (zlen_zeros total) as Hz. rewrite zlen_zeros by (rewrite Et; apply zlen_nonneg).
    by rewrite Et, Z.eqb_refl.
  - pose proof (zlen_zeros total) as Hz. rewrite Et in Hz at 1. specialize (Hz (zlen_nonneg _)).
    unfold zlen in *. lia.
Qed.

Lemma concat_len (bs : list (list Z)) k :
  Forall mag_ok bs -> Forall (fun b => zlen b <= k) bs ->
  zlen ((be <$> bs) ≫= der_integer) <= Z.of_nat (length bs) * (11 + k).
Proof.
  induction 1 as [|b bs Hb Hbs IH]; intros Hk; [done|]. apply Forall_cons in Hk as [Hk1 Hk].
  rewrite fmap_cons, bind_cons, zlen_app. pose proof (der_integer_len b Hb). specialize (IH Hk). cbn [length]. lia.
Qed.

Lemma nil_iff (b : list Z) : (zlen b =? 0) = bool_decide (b = []).
Proof. destruct b as [|x b]; [done|]. rewrite zlen_cons. pose proof (zlen_nonneg b). by destruct (Z.eqb_spec (1 + zlen b) 0); [lia|]. Qed.

(** [p - 1], computed on the stack. *)
Lemma pm1_step p :
  bytes p -> stripped p -> be p <> 0 ->
  decrementBE (replicate (length p) 0) p = (true, be_bytes (length p) (be p - 1)) /\
  (zlen (stripZeros (be_bytes (length p) (be p - 1))) =? 0) = negb (2 <=? be p).
Proof.
  intros Hp Hs H0. pose proof (be_bound p Hp) as Bp. unfold zlen in Bp. split.
  - rewrite decrementBE_eq by done. unfold zlen. rewrite length_replicate, Z.eqb_refl. cbn [negb].
    by destruct (Z.eqb_spec (be p) 0).
  - rewrite nil_iff. apply eq_bool_prop_intro. rewrite bool_decide_spec, negb_True, Is_true_true, Z.leb_le.
    rewrite stripZeros_nil, be_be_bytes, Z.mod_small by (apply bytes_be_bytes || lia). lia.
Qed.

(** A CRT exponent as it is written out. *)
Lemma crt_mag p d :
  bytes p -> stripped p -> 2 <= be p -> zlen p <= 1024 ->
  let dp := stripZeros (be_bytes (length p) (be d mod (be p - 1))) in
  be dp = be d mod (be p - 1) /\ mag_ok dp /\ zlen dp <= 2048.
Proof.
  intros Hp Hs H2 Hl dp. pose proof (be_bound p Hp) as Bp. unfold zlen in Bp.
  pose proof (Z.mod_pos_bound (be d) (be p - 1) ltac:(lia)).
  assert (be dp = be d mod (be p - 1)) as E by (unfold dp; rewrite stripZeros_be, be_be_bytes, Z.mod_small; lia).
  assert (bytes dp) as Hb by apply stripZeros_bytes, bytes_be_bytes.
  assert (stripped dp) as Hst by apply stripZeros_stripped.
  assert (zlen dp <= zlen p) as Hle.
  { unfold dp. rewrite <- (zlen_be_bytes (length p) (be d mod (be p - 1))) at 1. clear.
    generalize (be_bytes (length p) (be d mod (be p - 1))). intros l.
    induction l as [|x l IH]; cbn; [lia|]. destruct (x =? 0); rewrite ?zlen_cons in *; lia. }
  split; [done|]. split; [|lia]. split; [done|]. split; [done|]. lia.
Qed.

(** The run of [pkcs1DER] on any six magnitudes. *)
Lemma pkcs1DER_run newEmptyBuffer n e d p q iqmp :
  bytes n -> bytes e -> bytes d -> bytes p -> bytes q -> bytes iqmp ->
  let key := rsa_private_key (be n) (be e) (be d) (be p) (be q) (be iqmp) in
  exists r, pkcs1DER newEmptyBuffer n e d p q iqmp tt = Ret r tt /\
    if rsa_ok (be n) (be e) (be d) (be p) (be q) (be iqmp)
    then r = match newEmptyBuffer (zlen key) with
             | Some err => inl (errorf "allocate RSA key buffer" err)
             | None => inr key
             end
    else exists err, r = inl err /\ is_malformed err.
Proof.
  intros Hn He Hd Hp Hq Hi. unfold pkcs1DER.
  assert (forall b, bytes b -> exists c, stripZeros b = c /\ be b = be c /\ bytes c /\ stripped c) as Hst.
  { intros b Hb. exists (stripZeros b). split; [done|]. split; [by rewrite stripZeros_be|].
    split; [by apply stripZeros_bytes|apply stripZeros_stripped]. }
  destruct (Hst n Hn) as (n' & -> & -> & ? & ?). destruct (Hst e He) as (e' & -> & -> & ? & ?).
  destruct (Hst d Hd) as (d' & -> & -> & ? & ?). destruct (Hst p Hp) as (p' & -> & -> & ? & ?).
  destruct (Hst q Hq) as (q' & -> & -> & ? & ?). destruct (Hst iqmp Hi) as (i' & -> & -> & ? & ?).
  clear Hst Hn He Hd Hp Hq Hi n e d p q iqmp. cbn zeta. unfold rsa_ok. cbn [forallb].
  assert (forall b, bytes b -> stripped b -> (zlen b =? 0) = (be b =? 0)) as Hz.
  { intros b Hb Hs. rewrite nil_iff. apply eq_bool_prop_intro. rewrite bool_decide_spec, Is_true_true, Z.eqb_eq.
    rewrite <- (stripped_id b Hs) at 1. by apply stripZeros_nil. }
  rewrite !Hz by done.
  destruct (be n' =? 0) eqn:En, (be e' =? 0) eqn:Ee, (be d' =? 0) eqn:Ed, (be p' =? 0) eqn:Ep, (be q' =? 0) eqn:Eq,
    (be i' =? 0) eqn:Ei; cbn [orb andb negb]; try (eexists; split; [reflexivity|]; eexists; split; [done|by left]).
  assert (forall b, (be b =? 0) = false -> b <> []) as Hne by (intros b Hb ->; done).
  pose proof (check_spec n' e' d' p' q' i' ltac:(by repeat constructor) (Hne _ Ee)) as Hchk.
  destruct (checkRSAIntegers n' e' d' p' q' [i']) as [err|].
  { destruct Hchk as [-> ?]. cbn. eauto. }
  rewrite Hchk. cbn [andb].
  assert (zlen p' <= 1024 /\ zlen q' <= 1024 /\ Forall (fun b => zlen b <= 2048) [n'; e'; d'; p'; q'; i']) as (Lp & Lq & L).
  { unfold fits_caps in Hchk. rewrite !andb_true_iff, !Z.leb_le in Hchk.
    destruct Hchk as [[[[[[[? ?] ?] ?] ?] ?] ?] ?].
    split; [apply bits_zlen; done || lia|]. split; [apply bits_zlen; done || lia|].
    repeat constructor; (apply bits_zlen; done || lia). }
  apply Z.eqb_neq in Ep, Eq. destruct (pm1_step p' ltac:(done) ltac:(done) Ep) as [Dp Zp].
  destruct (pm1_step q' ltac:(done) ltac:(done) Eq) as [Dq Zq].
  unfold mbind, M_bind. rewrite slice_stack, Dp by done. cbn [negb].
  rewrite slice_stack, Dq, Zp, Zq by done. cbn [negb orb].
  destruct (2 <=? be p') eqn:P2, (2 <=? be q') eqn:Q2; cbn [negb orb andb];
    try (eexists; split; [reflexivity|]; eexists; split; [done|by left]).
  apply Z.leb_le in P2, Q2. rewrite !Forall_cons in L. destruct L as (? & ? & ? & ? & ? & ? & _).
  destruct (crt_step p' d') as (_ & _ & Rp); [done..|]. destruct (crt_step q' d') as (_ & _ & Rq); [done..|].
  rewrite slice_stack, Rp by done. cbn [negb]. rewrite slice_stack, Rq by done. cbn [negb].
  destruct (crt_mag p' d') as (Vp & Mp & Np); [done..|]. destruct (crt_mag q' d') as (Vq & Mq & Nq); [done..|].
  set (dp := stripZeros (be_bytes (length p') (be d' mod _))) in *.
  set (dq := stripZeros (be_bytes (length q') (be d' mod _))) in *.
  set (bs := [[]; n'; e'; d'; p'; q'; dp; dq; i']).
  assert (Forall (fun b => zlen b <= 2048) bs) as Hlen by (repeat constructor; done).
  assert (Forall mag_ok bs) as Hbs.
  { assert (forall b, bytes b -> stripped b -> zlen b <= 2048 -> mag_ok b) as Hmk
      by (intros; split; [done|]; split; [done|lia]).
    unfold bs. repeat (apply Forall_cons; split); first [done|by apply Hmk]. }
  destruct (writeDER_eq bs Hbs) as [Et Ew].
  { pose proof (concat_len bs 2048 Hbs Hlen) as Hc. change (length bs) with 9%nat in Hc. lia. }
  assert (be <$> bs = [0; be n'; be e'; be d'; be p'; be q'; be d' mod (be p' - 1); be d' mod (be q' - 1); be i']) as Eb
    by (unfold bs; rewrite !fmap_cons, Vp, Vq; done).
  rewrite Eb in Et, Ew. change (der_sequence _) with
    (rsa_private_key (be n') (be e') (be d') (be p') (be q') (be i')) in Et, Ew.
  change (foldl _ 0 (DerInt <$> _)) with (foldl (fun a f => a + encodedLen f) 0 (DerInt <$> bs)).
  rewrite Et in Ew |- *. destruct (newEmptyBuffer _) as [err|]; eexists; (split; [|reflexivity]); [done|exact Ew].
Qed.

(** C38. [pkcs1DER] is the DER of RFC 8017, for every six magnitudes: it never
    panics and never reports a layout mismatch. It refuses exactly the keys the
    size rule and the primes' lower bound exclude, with a malformed-key error;
    for every other key it asks for a buffer of exactly the structure's size
    and, unless that is refused, fills it with the minimal encoding of version
    0, the six integers and [d mod (p-1)] and [d mod (q-1)] in their places. *)
Theorem pkcs1_der_exact newEmptyBuffer n e d p q iqmp :
  bytes n -> bytes e -> bytes d -> bytes p -> bytes q -> bytes iqmp ->
  let key := rsa_private_key (be n) (be e) (be d) (be p) (be q) (be iqmp) in
  exists r, pkcs1DER newEmptyBuffer n e d p q iqmp tt = Ret r tt /\
    if rsa_ok (be n) (be e) (be d) (be p) (be q) (be iqmp)
    then r = match newEmptyBuffer (zlen key) with
             | Some err => inl (errorf "allocate RSA key buffer" err)
             | None => inr key
             end
    else exists err, r = inl err /\ is_malformed err.
Proof. apply pkcs1DER_run. Qed.

(** The key of p = 5, q = 11. *)
Lemma pkcs1_der_exact_witness :
  (bytes [55] /\ bytes [3] /\ bytes [27] /\ bytes [5] /\ bytes [11] /\ bytes [0; 1]) /\
  pkcs1DER (fun _ => None) [55] [3] [27] [5] [11] [0; 1] tt =
    Ret (inr [48; 27; 2; 1; 0; 2; 1; 55; 2; 1; 3; 2; 1; 27; 2; 1; 5; 2; 1; 11; 2; 1; 3; 2; 1; 7; 2; 1; 1]) tt.
Proof.
  assert (forall x, is_byte x -> bytes [x]) as Hb by (intros; constructor; [done|constructor]).
  assert (bytes [55]) as H1 by (apply Hb; unfold is_byte; lia). assert (bytes [3]) as H2 by (apply Hb; unfold is_byte; lia).
  assert (bytes [27]) as H3 by (apply Hb; unfold is_byte; lia). assert (bytes [5]) as H4 by (apply Hb; unfold is_byte; lia).
  assert (bytes [11]) as H5 by (apply Hb; unfold is_byte; lia).
  assert (bytes [0; 1]) as H6 by (repeat constructor; unfold is_byte; lia).
  split; [exact (conj H1 (conj H2 (conj H3 (conj H4 (conj H5 H6)))))|].
  destruct (pkcs1_der_exact (fun _ => None) [55] [3] [27] [5] [11] [0; 1] H1 H2 H3 H4 H5 H6) as (r & E & Hr).
  rewrite E. f_equal. exact Hr.
Defined.
