(* ===== verification/Pem.v ===== *)
(** * The PEM armour (secmem-crypto/openssh_wire.go, secmem-crypto/parse.go)

    The encoder that lays base64 out into a fixed slice, the locator that finds
    a block's type and body, and the decoder. Of the standard library this uses
    base64.StdEncoding and a few functions of package bytes, defined here as
    documented. *)
From S2P Require Import Prelude Errors KeyErrors Bytes Writer.
From Stdlib Require Import Ascii.

(** The bytes of a string literal. *)
Definition str (s : string) : list Z := (fun c => Z.of_N (N_of_ascii c)) <$> String.list_ascii_of_string s.

(** ** package bytes *)

Fixpoint HasPrefix (b pat : list Z) {struct pat} : bool :=
  match pat, b with
  | [], _ => true
  | p :: pat, x :: b => (p =? x) && HasPrefix b pat
  | _, [] => false
  end.

Fixpoint Index (b pat : list Z) : option nat :=
  if HasPrefix b pat then Some 0%nat
  else match b with
       | [] => None
       | _ :: b => S <$> Index b pat
       end.

Definition IndexByte (b : list Z) (c : Z) : option nat := Index b [c].

Definition bytes_Equal (a b : list Z) : bool := bool_decide (a = b).

(** The UTF-8 encodings of [unicode.IsSpace]. *)
Definition spaces : list (list Z) :=
  [[9]; [10]; [11]; [12]; [13]; [32]; [194; 133]; [194; 160]; [225; 154; 128]; [226; 128; 128]; [226; 128; 129];
   [226; 128; 130]; [226; 128; 131]; [226; 128; 132]; [226; 128; 133]; [226; 128; 134]; [226; 128; 135];
   [226; 128; 136]; [226; 128; 137]; [226; 128; 138]; [226; 128; 168]; [226; 128; 169]; [226; 128; 175];
   [226; 129; 159]; [227; 128; 128]].

(** Drop any of [sps] at the front, as long as there is one. *)
Fixpoint trim (fuel : nat) (sps : list (list Z)) (b : list Z) : list Z :=
  match fuel with
  | O => b
  | S fuel => match find (HasPrefix b) sps with
              | Some s => trim fuel sps (drop (length s) b)
              | None => b
              end
  end.
Definition TrimSpace (b : list Z) : list Z :=
  let b := trim (length b) spaces b in
  reverse (trim (length b) (reverse <$> spaces) (reverse b)).

(** [bytes.TrimRight(b, "\r")] *)
Definition TrimCR (b : list Z) : list Z := reverse (trim (length b) [[13]] (reverse b)).

(** [bytes.EqualFold] against an ASCII literal: the encodings that fold to one
    of its characters ('k' is also the Kelvin sign, 's' also the long s). *)
Definition folds (c : Z) : list (list Z) :=
  let l := if (65 <=? c) && (c <=? 90) then c + 32 else c in
  if (97 <=? l) && (l <=? 122)
  then [l] :: [l - 32] :: (if (l =? 107) then [[226; 132; 170]] else if (l =? 115) then [[197; 191]] else [])
  else [[c]].
Fixpoint EqualFold (name lit : list Z) : bool :=
  match lit with
  | [] => match name with [] => true | _ => false end
  | c :: lit => match find (HasPrefix name) (folds c) with
                | Some s => EqualFold (drop (length s) name) lit
                | None => false
                end
  end.

(** ** base64.StdEncoding *)

Definition enc6 (n : Z) : Z :=
  if (n <? 26) then 65 + n else if (n <? 52) then 71 + n else if (n <? 62) then n - 4
  else if (n =? 62) then 43 else 47.

Definition dec6 (c : Z) : option Z :=
  if (65 <=? c) && (c <=? 90) then Some (c - 65)
  else if (97 <=? c) && (c <=? 122) then Some (c - 71)
  else if (48 <=? c) && (c <=? 57) then Some (c + 4)
  else if (c =? 43) then Some 62 else if (c =? 47) then Some 63 else None.

Definition EncodedLen (n : Z) : Z := (n + 2) / 3 * 4.
Definition DecodedLen (n : Z) : Z := n / 4 * 3.

Fixpoint Encode (src : list Z) : list Z :=
  match src with
  | a :: b :: c :: src =>
      enc6 (a / 4) :: enc6 (a mod 4 * 16 + b / 16) :: enc6 (b mod 16 * 4 + c / 64) :: enc6 (c mod 64) :: Encode src
  | [a; b] => [enc6 (a / 4); enc6 (a mod 4 * 16 + b / 16); enc6 (b mod 16 * 4); 61]
  | [a] => [enc6 (a / 4); enc6 (a mod 4 * 16); 61; 61]
  | [] => []
  end.

(** The four-character quanta of a text without line breaks. *)
Fixpoint Decode_quanta (src : list Z) : option (list Z) :=
  match src with
  | [] => Some []
  | a :: b :: c :: d :: src =>
      match dec6 a, dec6 b, dec6 c, dec6 d with
      | Some a, Some b, Some c, Some d =>
          l ← Decode_quanta src;
          Some (a * 4 + b / 16 :: b mod 16 * 16 + c / 4 :: c mod 4 * 64 + d :: l)
      | Some a, Some b, Some c, None =>
          if (d =? 61) then match src with [] => Some [a * 4 + b / 16; b mod 16 * 16 + c / 4] | _ => None end else None
      | Some a, Some b, None, _ =>
          if (c =? 61) && (d =? 61) then match src with [] => Some [a * 4 + b / 16] | _ => None end else None
      | _, _, _, _ => None
      end
  | _ => None
  end.
Definition Decode (src : list Z) : option (list Z) :=
  Decode_quanta (filter (fun c => c <> 10 /\ c <> 13) src).

(** ** Encoding *)

Definition pemBegin : list Z := str "-----BEGIN ".
Definition pemEnd : list Z := str "-----END ".
Definition pemDashes : list Z := str "-----".

Definition pemLen (typ : list Z) (n : Z) : Z :=
  let enc := EncodedLen n in
  let lines := (enc + 63) / 64 in
  zlen pemBegin + zlen typ + zlen pemDashes + 1 + enc + lines + zlen pemEnd + zlen typ + zlen pemDashes + 1.

(** [base64.StdEncoding.Encode(dst[n:], src); n += EncodedLen(len(src))]: a
    destination that is too short is indexed out of range. *)
Definition encodeTo (src : list Z) : WM unit := fun w =>
  if wr_n w + EncodedLen (zlen src) <=? zlen (wr_b w) then bytes_ (Encode src) w else Panic w.

Fixpoint pemLines (fuel : nat) (src : list Z) : WM unit :=
  match fuel, src with
  | S fuel, _ :: _ => let k := Nat.min 48 (length src) in
      encodeTo (take k src);; putByte 10;; pemLines fuel (drop k src)
  | _, _ => mret tt
  end.

Definition pemEncode (typ src : list Z) : WM Z :=
  (bytes_ pemBegin;; bytes_ typ;; bytes_ pemDashes;; putByte 10;;
   pemLines (length src) src;;
   bytes_ pemEnd;; bytes_ typ;; bytes_ pemDashes;; putByte 10);;
  gets wr_n.

(** ** Locating *)

Definition splitLine (b : list Z) : option (list Z * list Z) :=
  k ← IndexByte b 10; Some (TrimCR (take k b), drop (k + 1) b).
Definition nextLine (b : list Z) : option (list Z) := snd <$> splitLine b.

(** The header loop: what is left to read, whether a header names encryption,
    and how many there were. Every turn consumes a line. *)
Fixpoint pemHeaders (fuel : nat) (rest : list Z) (encrypted : bool) (headers : nat) : option (list Z * bool * nat) :=
  match fuel with
  | O => None
  | S fuel =>
      match splitLine rest with
      | None => None
      | Some (line, after) =>
          match IndexByte line 58 with
          | Some k =>
              let name := TrimSpace (take k line) in
              let encrypted := encrypted || EqualFold name (str "Proc-Type") || EqualFold name (str "DEK-Info") in
              pemHeaders fuel after encrypted (S headers)
          | None =>
              let rest := if (0 <? headers)%nat && (zlen (TrimSpace line) =? 0) then after else rest in
              Some (rest, encrypted, headers)
          end
      end
  end.

Definition pemBlock (data : list Z) : gerr + (list Z * list Z) :=
  match Index data pemBegin with
  | None => inl (malformed "no PEM block")
  | Some i =>
      let rest := drop (i + length pemBegin) data in
      match Index rest pemDashes with
      | None => inl (malformed "unterminated PEM header")
      | Some j =>
          let typ := take j rest in
          match nextLine (drop (j + length pemDashes) rest) with
          | None => inl (malformed "truncated PEM block")
          | Some rest =>
              match pemHeaders (S (length rest)) rest false 0 with
              | None => inl (malformed "truncated PEM block")
              | Some (rest, encrypted, headers) =>
                  if encrypted : bool then inl (Wrap "" [ErrEncryptedKey; errLegacyPEM])
                  else if (0 <? headers)%nat then inl (Wrap "PEM headers" [ErrUnsupportedKey])
                  else match Index rest pemEnd with
                       | None => inl (malformed "no PEM footer")
                       | Some e =>
                           let footer := drop (e + length pemEnd) rest in
                           if negb (HasPrefix footer typ) || negb (HasPrefix (drop (length typ) footer) pemDashes)
                           then inl (malformed "PEM footer does not match header")
                           else inr (typ, take e rest)
                       end
              end
          end
      end
  end.

(** [decodePEMBody]; [newEmptyBuffer] is the allocation's outcome. What is
    left after the truncation is what was decoded. *)
Definition decodePEMBody (newEmptyBuffer : Z -> option gerr) (body : list Z) : gerr + list Z :=
  let body := TrimSpace body in
  let n := DecodedLen (zlen body) in
  if (n =? 0) then inl (malformed "empty PEM body")
  else match newEmptyBuffer n with
       | Some err => inl (errorf "allocate key buffer" err)
       | None =>
           match Decode body with
           | None => inl (Wrap "" [errMalformed; Msg "illegal base64 data"])
           | Some blob => if (zlen blob =? 0) then inl (malformed "empty PEM body") else inr blob
           end
       end.

(** ** Searching *)

Lemma HasPrefix_app pat r : HasPrefix (pat ++ r) pat = true.
Proof. induction pat as [|p pat IH]; cbn; [done|]. by rewrite Z.eqb_refl, IH. Qed.

Lemma HasPrefix_head x b p pat : x <> p -> HasPrefix (x :: b) (p :: pat) = false.
Proof. intros. cbn. by destruct (Z.eqb_spec p x); [congruence|]. Qed.

(** The first occurrence is the one behind a stretch that has not the pattern's
    first byte. *)
Lemma Index_skip (pre : list Z) p pat r :
  p ∉ pre -> Index (pre ++ (p :: pat) ++ r) (p :: pat) = Some (length pre).
Proof.
  induction pre as [|x pre IH]; intros Hp.
  - change ([] ++ (p :: pat) ++ r) with ((p :: pat) ++ r). pose proof (HasPrefix_app (p :: pat) r) as E.
    cbn [app] in *. cbn [Index]. by rewrite E.
  - apply not_elem_of_cons in Hp as [Hx Hp]. cbn [app Index]. rewrite HasPrefix_head by congruence.
    cbn [app] in IH. rewrite IH by done. done.
Qed.

Lemma IndexByte_none (b : list Z) c : c ∉ b -> IndexByte b c = None.
Proof.
  unfold IndexByte. induction b as [|x b IH]; intros Hc; [done|]. apply not_elem_of_cons in Hc as [Hx Hc].
  cbn [Index]. rewrite HasPrefix_head by congruence. by rewrite IH.
Qed.

Lemma split_first (b : list Z) c : c ∈ b -> exists pre post, b = pre ++ [c] ++ post /\ c ∉ pre.
Proof.
  induction b as [|x b IH]; [by intros ?%elem_of_nil|]. destruct (decide (x = c)) as [->|Hne].
  - intros _. exists [], b. split; [done|]. by apply not_elem_of_nil.
  - intros [->|Hc]%elem_of_cons; [done|]. destruct (IH Hc) as (pre & post & -> & Hp).
    exists (x :: pre), post. split; [done|]. apply not_elem_of_cons. done.
Qed.

(** A first byte of no space encoding, read from either end. *)
Definition solid (x : Z) : Prop := 33 <= x < 128.

Lemma trim_stop fuel sps x b : Forall (fun s => exists y t, s = y :: t /\ y <> x) sps -> trim fuel sps (x :: b) = x :: b.
Proof.
  intros Hs. destruct fuel as [|fuel]; [done|]. cbn [trim].
  assert (find (HasPrefix (x :: b)) sps = None) as ->; [|done].
  induction Hs as [|s sps (y & t & -> & Hy) _ IH]; [done|]. cbn [find]. by rewrite HasPrefix_head by congruence.
Qed.

Lemma trim_one n sps b s :
  find (HasPrefix b) sps = Some s -> trim (S n) sps b = trim n sps (drop (length s) b).
Proof. intros E. cbn [trim]. by rewrite E. Qed.

Lemma spaces_heads x : solid x -> Forall (fun s => exists y t, s = y :: t /\ y <> x) spaces.
Proof. unfold solid. intros Hx. unfold spaces. cbn [fmap list_fmap].
  repeat (apply Forall_cons; split; [do 2 eexists; (split; [reflexivity|lia])|]). by constructor. Qed.
Lemma spaces_tails x : solid x -> Forall (fun s => exists y t, s = y :: t /\ y <> x) (reverse <$> spaces).
Proof.
  unfold solid. intros Hx. let l := eval vm_compute in (reverse <$> spaces) in change (reverse <$> spaces) with l.
  repeat (apply Forall_cons; split; [do 2 eexists; (split; [reflexivity|lia])|]). by constructor.
Qed.

(** A solid text with one line feed behind it. *)
Lemma TrimSpace_line x b y : solid x -> solid y -> TrimSpace (x :: b ++ [y; 10]) = x :: b ++ [y].
Proof.
  intros Hx Hy. unfold TrimSpace. rewrite trim_stop by by apply spaces_heads.
  replace (x :: b ++ [y; 10]) with ((x :: b ++ [y]) ++ [10]) by (cbn; by rewrite <- app_assoc).
  rewrite reverse_app. change (reverse [10]) with [10]. rewrite length_app, Nat.add_comm.
  change ([10] ++ ?l) with (10 :: l). cbn [length Nat.add].
  rewrite (trim_one _ _ _ [10]) by (vm_compute; reflexivity).
  change (drop (length [10]) (10 :: ?l)) with l. change (x :: b ++ [y]) with ((x :: b) ++ [y]). rewrite reverse_app.
  change (reverse [y]) with [y]. change ([y] ++ ?l) with (y :: l). rewrite trim_stop by by apply spaces_tails.
  by rewrite reverse_cons, reverse_involutive.
Qed.

(** ** base64 *)

Definition char_ok (c : Z) : Prop := solid c /\ c <> 45 /\ c <> 58.

Lemma code_table n : 0 <= n < 64 -> dec6 (enc6 n) = Some n /\ char_ok (enc6 n) /\ enc6 n <> 61.
Proof.
  intros Hn.
  assert (forallb (fun n => bool_decide (dec6 (enc6 n) = Some n) && (33 <=? enc6 n) && (enc6 n <? 128)
    && negb (enc6 n =? 45) && negb (enc6 n =? 58) && negb (enc6 n =? 61)) (Z.of_nat <$> seq 0 64) = true) as Hall
    by (vm_compute; reflexivity).
  rewrite forallb_forall in Hall. specialize (Hall n).
  rewrite !andb_true_iff, bool_decide_eq_true, !negb_true_iff, !Z.eqb_neq, Z.leb_le, Z.ltb_lt in Hall.
  destruct Hall as [[[[[? ?] ?] ?] ?] ?]; [|unfold char_ok, solid; done].
  apply list_elem_of_In, list_elem_of_fmap. exists (Z.to_nat n). split; [lia|]. apply elem_of_seq. lia.
Qed.

(** Induction on quanta of three bytes. *)
Lemma quanta_ind (P : list Z -> Prop) :
  P [] -> (forall a, P [a]) -> (forall a b, P [a; b]) ->
  (forall a b c l, P l -> P (a :: b :: c :: l)) -> forall l, P l.
Proof.
  intros H0 H1 H2 H3. fix IH 1. intros [|a [|b [|c l]]]; [done|apply H1|apply H2|]. apply H3, IH.
Qed.

Lemma sextets a b c :
  is_byte a -> is_byte b -> is_byte c ->
  0 <= a / 4 < 64 /\ 0 <= a mod 4 * 16 + b / 16 < 64 /\ 0 <= b mod 16 * 4 + c / 64 < 64 /\ 0 <= c mod 64 < 64 /\
  0 <= a mod 4 * 16 < 64 /\ 0 <= b mod 16 * 4 < 64.
Proof. unfold is_byte. intros. Z.div_mod_to_equations. lia. Qed.

Lemma Decode_Encode src : bytes src -> Decode_quanta (Encode src) = Some src.
Proof.
  induction src as [|a|a b|a b c src IH] using quanta_ind; intros Hb.
  - done.
  - apply Forall_cons in Hb as [Ha _]. assert (is_byte 0) as H0 by (unfold is_byte; lia).
    destruct (sextets a 0 0 Ha H0 H0) as (S1 & _ & _ & _ & S2 & _).
    cbn [Encode Decode_quanta]. rewrite (proj1 (code_table _ S1)), (proj1 (code_table _ S2)).
    change (dec6 61) with (@None Z). cbn. do 2 f_equal. unfold is_byte in *. Z.div_mod_to_equations. lia.
  - apply Forall_cons in Hb as [Ha [Hb _]%Forall_cons]. assert (is_byte 0) as H0 by (unfold is_byte; lia).
    destruct (sextets a b 0 Ha Hb H0) as (S1 & S2 & _ & _ & _ & S3).
    cbn [Encode Decode_quanta].
    rewrite (proj1 (code_table _ S1)), (proj1 (code_table _ S2)), (proj1 (code_table _ S3)).
    change (dec6 61) with (@None Z). cbn. unfold is_byte in *. repeat f_equal; Z.div_mod_to_equations; lia.
  - apply Forall_cons in Hb as [Ha [Hb [Hc Hs]%Forall_cons]%Forall_cons].
    destruct (sextets a b c Ha Hb Hc) as (S1 & S2 & S3 & S4 & _).
    cbn [Encode Decode_quanta].
    rewrite (proj1 (code_table _ S1)), (proj1 (code_table _ S2)), (proj1 (code_table _ S3)), (proj1 (code_table _ S4)).
    rewrite (IH Hs). cbn. unfold is_byte in *. repeat f_equal; Z.div_mod_to_equations; lia.
Qed.

Lemma Encode_chars src : bytes src -> Forall char_ok (Encode src).
Proof.
  assert (is_byte 0) as H0 by (unfold is_byte; lia). assert (char_ok 61) as H61 by (unfold char_ok, solid; lia).
  induction src as [|a|a b|a b c src IH] using quanta_ind; intros Hb; cbn [Encode].
  - constructor.
  - apply Forall_cons in Hb as [Ha _]. destruct (sextets a 0 0 Ha H0 H0) as (S1 & _ & _ & _ & S2 & _).
    repeat constructor; try apply H61; by apply code_table.
  - apply Forall_cons in Hb as [Ha [Hb _]%Forall_cons]. destruct (sextets a b 0 Ha Hb H0) as (S1 & S2 & _ & _ & _ & S3).
    repeat constructor; try apply H61; by apply code_table.
  - apply Forall_cons in Hb as [Ha [Hb [Hc Hs]%Forall_cons]%Forall_cons].
    destruct (sextets a b c Ha Hb Hc) as (S1 & S2 & S3 & S4 & _).
    repeat (apply Forall_cons; split); try (by apply code_table). by apply IH.
Qed.

Lemma zlen_Encode src : zlen (Encode src) = EncodedLen (zlen src).
Proof.
  induction src as [|a|a b|a b c src IH] using quanta_ind; [done..|]. cbn [Encode]. rewrite !zlen_cons, IH.
  unfold EncodedLen. replace (1 + (1 + (1 + zlen src)) + 2) with (zlen src + 2 + 1 * 3) by lia.
  rewrite Z.div_add by lia. lia.
Qed.

Lemma Encode_app a b : (3 | zlen a) -> Encode (a ++ b) = Encode a ++ Encode b.
Proof.
  induction a as [|x|x y|x y z a IH] using quanta_ind; intros H3.
  - done.
  - destruct H3 as [k Hk]. change (zlen [x]) with 1 in Hk. lia.
  - destruct H3 as [k Hk]. change (zlen [x; y]) with 2 in Hk. lia.
  - cbn [app Encode]. rewrite IH; [done|]. rewrite !zlen_cons in H3.
    destruct H3 as [k Hk]. exists (k - 1). lia.
Qed.

(** ** The layout *)

(** What the line loop writes. *)
Fixpoint pemText (fuel : nat) (src : list Z) : list Z :=
  match fuel, src with
  | S fuel, _ :: _ => let k := Nat.min 48 (length src) in
      Encode (take k src) ++ [10] ++ pemText fuel (drop k src)
  | _, _ => []
  end.

Definition pemFile (typ src : list Z) : list Z :=
  pemBegin ++ typ ++ pemDashes ++ [10] ++ pemText (length src) src ++ pemEnd ++ typ ++ pemDashes ++ [10].

Lemma encodeTo_writes src : writes (encodeTo src) (Encode src).
Proof.
  intros pre rest Hlen. unfold encodeTo. cbn [wr_n wr_b]. rewrite <- zlen_Encode, zlen_app. unfold zlen in *.
  destruct (Z.leb_spec (Z.of_nat (length pre) + Z.of_nat (length (Encode src)))
    (Z.of_nat (length pre) + Z.of_nat (length rest))); [|lia].
  by apply (writes_bytes (Encode src)).
Qed.

Lemma pemLines_writes fuel src : writes (pemLines fuel src) (pemText fuel src).
Proof.
  revert src. induction fuel as [|fuel IH]; intros [|x src]; try apply writes_nil. cbn [pemLines pemText].
  apply writes_seq; [apply encodeTo_writes|]. apply writes_seq; [apply writes_byte|apply IH].
Qed.

(** The text is the encoding with line feeds between. *)
Lemma pemText_filter fuel src :
  (length src <= fuel)%nat -> bytes src -> filter (fun c => c <> 10 /\ c <> 13) (pemText fuel src) = Encode src.
Proof.
  revert src. induction fuel as [|fuel IH]; intros src Hlen Hb; [by destruct src; cbn in Hlen; [|lia]|].
  destruct src as [|x src]; [done|]. set (l := x :: src) in *. change (pemText (S fuel) l) with
    (Encode (take (Nat.min 48 (length l)) l) ++ [10] ++ pemText fuel (drop (Nat.min 48 (length l)) l)).
  assert (1 <= length l)%nat by (cbn; lia).
  rewrite !filter_app, IH by (try (by apply Forall_drop); rewrite length_drop; lia).
  assert (filter (fun c => c <> 10 /\ c <> 13) [10] = []) as -> by done.
  assert (forall a, Forall char_ok a -> filter (fun c => c <> 10 /\ c <> 13) a = a) as Hall.
  { induction 1 as [|c a Hc _ IHa]; [done|]. rewrite filter_cons_True, IHa; [done|].
    unfold char_ok, solid in Hc. lia. }
  rewrite Hall by (apply Encode_chars; by apply Forall_take).
  destruct (decide (length l <= 48)%nat).
  - rewrite Nat.min_r, take_ge, drop_ge by lia. by rewrite app_nil_r.
  - rewrite Nat.min_l by lia. cbn [app]. rewrite <- Encode_app, take_drop; [done|].
    exists 16. unfold zlen. rewrite length_take. lia.
Qed.

(** Its characters, and the last one. *)
Lemma pemText_chars fuel src : bytes src -> Forall (fun c => c = 10 \/ char_ok c) (pemText fuel src).
Proof.
  revert src. induction fuel as [|fuel IH]; intros [|x src] Hb; try constructor. cbn [pemText].
  apply Forall_app. split.
  - eapply Forall_impl; [apply Encode_chars; by apply Forall_take|]. auto.
  - apply Forall_app. split; [by repeat constructor|]. apply IH. by apply Forall_drop.
Qed.

Lemma Encode_nonempty src : src <> [] -> exists x b y, Encode src = x :: b ++ [y].
Proof.
  intros Hn. assert (2 <= length (Encode src))%nat as Hlen.
  { destruct src as [|a [|b [|c src]]]; [done|..]; cbn; lia. }
  destruct (Encode src) as [|x l]; [cbn in Hlen; lia|]. destruct l as [|z l _] using rev_ind; [cbn in Hlen; lia|].
  by exists x, l, z.
Qed.

Lemma pemText_shape fuel src :
  (length src <= fuel)%nat -> src <> [] -> bytes src ->
  exists x b y, pemText fuel src = x :: b ++ [y; 10] /\ solid x /\ solid y.
Proof.
  revert src. induction fuel as [|fuel IH]; intros src Hlen Hn Hb; [by destruct src; cbn in Hlen; [|lia]|].
  destruct src as [|z src]; [done|]. set (l := z :: src) in *. change (pemText (S fuel) l) with
    (Encode (take (Nat.min 48 (length l)) l) ++ [10] ++ pemText fuel (drop (Nat.min 48 (length l)) l)).
  assert (1 <= length l)%nat by (cbn; lia).
  assert (bytes (take (Nat.min 48 (length l)) l)) as Hbt by by apply Forall_take.
  destruct (Encode_nonempty (take (Nat.min 48 (length l)) l)) as (x & b & y & E).
  { intros E. apply (f_equal length) in E. rewrite length_take in E. cbn [length] in E. lia. }
  pose proof (Encode_chars _ Hbt) as Hc. rewrite E in Hc |- *.
  apply Forall_cons in Hc as [[Hx _] [_ [[Hy _] _]%Forall_cons]%Forall_app].
  destruct (decide (drop (Nat.min 48 (length l)) l = [])) as [Ed|Ed].
  - rewrite Ed. exists x, b, y. split; [|done]. destruct fuel; cbn; by rewrite <- app_assoc.
  - destruct (IH (drop (Nat.min 48 (length l)) l)) as (x' & b' & y' & -> & _ & Hy');
      [rewrite length_drop; lia|done|by apply Forall_drop|].
    exists x, (b ++ [y] ++ [10] ++ x' :: b'), y'. split; [|done]. cbn. rewrite <- !app_assoc. cbn. done.
Qed.

Lemma pemText_len fuel src :
  (length src <= fuel)%nat -> zlen (pemText fuel src) = EncodedLen (zlen src) + (EncodedLen (zlen src) + 63) / 64.
Proof.
  revert src. induction fuel as [|fuel IH]; intros src Hlen; [by destruct src; cbn in Hlen; [|lia]|].
  destruct src as [|z src]; [done|]. set (l := z :: src) in *. change (pemText (S fuel) l) with
    (Encode (take (Nat.min 48 (length l)) l) ++ [10] ++ pemText fuel (drop (Nat.min 48 (length l)) l)).
  assert (1 <= length l)%nat by (cbn; lia).
  rewrite !zlen_app, zlen_Encode, IH by (rewrite length_drop; lia). change (zlen [10]) with 1.
  unfold EncodedLen, zlen. rewrite length_take, length_drop. destruct (decide (length l <= 48)%nat).
  - replace (Nat.min (Nat.min 48 (length l)) (length l)) with (length l) by lia.
    replace (length l - Nat.min 48 (length l))%nat with 0%nat by lia. Z.div_mod_to_equations. lia.
  - replace (Nat.min (Nat.min 48 (length l)) (length l)) with 48%nat by lia.
    replace (Nat.min 48 (length l)) with 48%nat by lia. rewrite Nat2Z.inj_sub by lia.
    change (Z.of_nat 48) with 48. Z.div_mod_to_equations. lia.
Qed.

Lemma pemFile_len typ src : zlen (pemFile typ src) = pemLen typ (zlen src).
Proof.
  unfold pemFile, pemLen. rewrite !zlen_app, pemText_len by done. change (zlen [10]) with 1. lia.
Qed.

(** The encoder fills a slice of [pemLen] bytes exactly. *)
Lemma pemEncode_run typ src b :
  zlen b = pemLen typ (zlen src) ->
  pemEncode typ src (Writer b 0) = Ret (zlen b) (Writer (pemFile typ src) (zlen b)).
Proof.
  intros Hb. rewrite <- pemFile_len in Hb. unfold pemEncode, mbind at 1, M_bind at 1.
  rewrite (writes_all _ (pemFile typ src)); [by rewrite Hb| |unfold zlen in Hb; lia].
  unfold pemFile. repeat first [apply writes_bytes|apply writes_byte|apply pemLines_writes|apply writes_seq].
Qed.

Lemma trim_elem fuel sps (l : list Z) c : c ∈ trim fuel sps l -> c ∈ l.
Proof.
  revert l. induction fuel as [|fuel IH]; intros l; [done|]. cbn [trim]. destruct (find _ _) as [s|]; [|done].
  intros Hc%IH. rewrite <- (take_drop (length s) l). apply elem_of_app. by right.
Qed.

Lemma TrimCR_elem l c : c ∈ TrimCR l -> c ∈ l.
Proof. unfold TrimCR. rewrite elem_of_reverse. intros Hin%trim_elem. by rewrite elem_of_reverse in Hin. Qed.

(** The locator finds what the encoder wrote, for a label without dashes and
    colons. *)
Lemma pemHeaders_none fuel rest encrypted :
  10 ∈ rest -> (forall k, 58 ∉ take k rest) -> pemHeaders (S fuel) rest encrypted 0 = Some (rest, encrypted, 0%nat).
Proof.
  intros H10 H58. cbn [pemHeaders]. unfold splitLine.
  destruct (split_first rest 10 H10) as (pre & post & -> & Hpre). unfold IndexByte at 1.
  rewrite (Index_skip pre 10 [] post Hpre). cbn [mbind option_bind].
  assert (IndexByte (TrimCR (take (length pre) (pre ++ [10] ++ post))) 58 = None) as ->.
  { apply IndexByte_none. intros Hin. apply (H58 (length pre)). revert Hin.
    rewrite take_app_length. apply TrimCR_elem. }
  done.
Qed.

Definition label_ok (typ : list Z) : Prop := 45 ∉ typ /\ 58 ∉ typ.

Lemma chars_no_dash l : Forall (fun c => c = 10 \/ char_ok c) l -> 45 ∉ l /\ 58 ∉ l.
Proof.
  intros Hl. split; intros Hin; pose proof (proj1 (Forall_forall _ _) Hl _ Hin) as [|(_ & ? & ?)]; done.
Qed.

Lemma pemBlock_file typ src :
  label_ok typ -> bytes src -> pemBlock (pemFile typ src) = inr (typ, pemText (length src) src).
Proof.
  intros [Hd Hc] Hb. destruct (chars_no_dash _ (pemText_chars (length src) src Hb)) as [Td Tc].
  set (text := pemText (length src) src) in *. unfold pemBlock, pemFile. fold text.
  pose proof (Index_skip [] 45 (drop 1 pemBegin) (typ ++ pemDashes ++ [10] ++ text ++ pemEnd ++ typ ++ pemDashes ++ [10])
    (not_elem_of_nil _)) as E1. change ([] ++ (45 :: drop 1 pemBegin) ++ ?r) with (pemBegin ++ r) in E1.
  change (45 :: drop 1 pemBegin) with pemBegin in E1. rewrite E1. cbn [length Nat.add].
  rewrite drop_app_length.
  pose proof (Index_skip typ 45 (drop 1 pemDashes) ([10] ++ text ++ pemEnd ++ typ ++ pemDashes ++ [10]) Hd) as E2.
  change (45 :: drop 1 pemDashes) with pemDashes in E2. rewrite E2. rewrite take_app_length.
  rewrite (app_assoc typ), drop_app_le by (rewrite length_app; lia).
  rewrite <- (length_app typ pemDashes), drop_all. change ([] ++ [10] ++ ?r) with (10 :: r).
  assert (forall r, nextLine (10 :: r) = Some r) as -> by reflexivity.
  set (rest := text ++ pemEnd ++ typ ++ pemDashes ++ [10]).
  rewrite pemHeaders_none.
  - cbn [Nat.ltb Nat.leb].
    pose proof (Index_skip text 45 (drop 1 pemEnd) (typ ++ pemDashes ++ [10]) Td) as E3.
    change (45 :: drop 1 pemEnd) with pemEnd in E3. unfold rest. rewrite E3, take_app_length.
    rewrite (app_assoc text), drop_app_le by (rewrite length_app; lia).
    rewrite <- (length_app text pemEnd), drop_all. cbn [app].
    rewrite HasPrefix_app, drop_app_length, HasPrefix_app. done.
  - unfold rest. rewrite !elem_of_app, list_elem_of_singleton. by do 4 right.
  - intros k Hin. assert (58 ∈ rest) as Hr by (rewrite <- (take_drop k rest); apply elem_of_app; by left).
    unfold rest in Hr. rewrite !elem_of_app in Hr.
    assert (58 ∉ pemEnd /\ 58 ∉ pemDashes /\ 58 ∉ [10]) as (N1 & N2 & N3)
      by (split_and?; apply (bool_decide_unpack _); vm_compute; exact I).
    naive_solver.
Qed.

(** And the decoder gives the bytes back. *)
Lemma decodePEMBody_text alloc src :
  src <> [] -> bytes src -> (forall n, alloc n = None) ->
  decodePEMBody alloc (pemText (length src) src) = inr src.
Proof.
  intros Hn Hb Halloc. unfold decodePEMBody.
  destruct (pemText_shape (length src) src ltac:(done) Hn Hb) as (x & b & y & E & Hx & Hy).
  pose proof (pemText_filter (length src) src ltac:(done) Hb) as Hf. rewrite E in Hf |- *.
  rewrite TrimSpace_line by done.
  assert (Decode (x :: b ++ [y]) = Some src) as Hdec.
  { unfold Decode. rewrite <- (Decode_Encode src Hb). f_equal. rewrite <- Hf.
    change (x :: b ++ [y; 10]) with ((x :: b) ++ [y] ++ [10]). rewrite app_assoc, (filter_app _ _ [10]).
    change (filter _ [10]) with (@nil Z). by rewrite app_nil_r. }
  assert (4 <= zlen (x :: b ++ [y])) as H4.
  { assert (Encode src = filter (fun c => c <> 10 /\ c <> 13) (x :: b ++ [y])) as Ef.
    { rewrite <- Hf. change (x :: b ++ [y; 10]) with ((x :: b) ++ [y] ++ [10]). rewrite app_assoc, (filter_app _ _ [10]).
      change (filter _ [10]) with (@nil Z). by rewrite app_nil_r. }
    assert (zlen (Encode src) <= zlen (x :: b ++ [y])) as Hle
      by (rewrite Ef; unfold zlen; pose proof (length_filter (fun c => c <> 10 /\ c <> 13) (x :: b ++ [y])); lia).
    rewrite zlen_Encode in Hle. unfold EncodedLen in Hle. destruct src as [|z src]; [done|].
    rewrite (zlen_cons z) in Hle. pose proof (zlen_nonneg src).
    assert (1 <= (1 + zlen src + 2) / 3) by (Z.div_mod_to_equations; lia). lia. }
  assert (DecodedLen (zlen (x :: b ++ [y])) =? 0 = false) as ->.
  { apply Z.eqb_neq. unfold DecodedLen. assert (1 <= zlen (x :: b ++ [y]) / 4) by (Z.div_mod_to_equations; lia). lia. }
  rewrite Halloc, Hdec. destruct src as [|z src]; [done|]. rewrite zlen_cons. pose proof (zlen_nonneg src).
  by destruct (Z.eqb_spec (1 + zlen src) 0); [lia|].
Qed.
