(* ===== verification/Utf8.v ===== *)
(** * Go strings as UTF-8

    The parts of unicode/utf8, unicode and strings that httpauth and redact
    call, over byte lists: decoding and encoding of a rune, [range] over a
    string, rune boundaries, spaces, and the two case operations. Unicode's
    tables beyond ASCII are the class [Unicode]. *)
From S2P Require Import Prelude Bytes Pem.

Definition RuneError : Z := 65533.
Definition MaxRune : Z := 1114111.

(** A code point that has an encoding: no surrogate, in range. *)
Definition scalar (r : Z) : Prop := 0 <= r < 55296 \/ 57344 <= r <= MaxRune.

Definition inRange (lo hi b : Z) : bool := (lo <=? b) && (b <=? hi).

(** [utf8.acceptRanges]: what the byte after a lead byte may be. *)
Definition acceptLo (b0 : Z) : Z := if (b0 =? 224) then 160 else if (b0 =? 240) then 144 else 128.
Definition acceptHi (b0 : Z) : Z := if (b0 =? 237) then 159 else if (b0 =? 244) then 143 else 191.

(** [utf8.DecodeRuneInString]: the rune and its width; an invalid encoding is
    [RuneError] of width one. *)
Definition decodeRune (s : list Z) : Z * nat :=
  match s with
  | [] => (RuneError, 0%nat)
  | b0 :: t =>
      if (b0 <? 128) then (b0, 1%nat)
      else if inRange 194 223 b0 then
        match t with
        | b1 :: _ => if inRange 128 191 b1 then ((b0 - 192) * 64 + (b1 - 128), 2%nat) else (RuneError, 1%nat)
        | _ => (RuneError, 1%nat)
        end
      else if inRange 224 239 b0 then
        match t with
        | b1 :: b2 :: _ =>
            if inRange (acceptLo b0) (acceptHi b0) b1 && inRange 128 191 b2
            then ((b0 - 224) * 4096 + (b1 - 128) * 64 + (b2 - 128), 3%nat) else (RuneError, 1%nat)
        | _ => (RuneError, 1%nat)
        end
      else if inRange 240 244 b0 then
        match t with
        | b1 :: b2 :: b3 :: _ =>
            if inRange (acceptLo b0) (acceptHi b0) b1 && inRange 128 191 b2 && inRange 128 191 b3
            then ((b0 - 240) * 262144 + (b1 - 128) * 4096 + (b2 - 128) * 64 + (b3 - 128), 4%nat) else (RuneError, 1%nat)
        | _ => (RuneError, 1%nat)
        end
      else (RuneError, 1%nat)
  end.

Definition isScalar (r : Z) : bool := inRange 0 55295 r || inRange 57344 MaxRune r.

(** [utf8.AppendRune]: a code point without an encoding becomes U+FFFD. *)
Definition encodeRune (r : Z) : list Z :=
  let r := if isScalar r then r else RuneError in
  if (r <? 128) then [r]
  else if (r <? 2048) then [192 + r / 64; 128 + r mod 64]
  else if (r <? 65536) then [224 + r / 4096; 128 + r / 64 mod 64; 128 + r mod 64]
  else [240 + r / 262144; 128 + r / 4096 mod 64; 128 + r / 64 mod 64; 128 + r mod 64].

(** [utf8.RuneStart]: [b&0xC0 != 0x80] on a byte. *)
Definition RuneStart (b : Z) : bool := negb (inRange 128 191 b).

(** [for i, r := range s]: each rune with its width. *)
Fixpoint runes_fuel (fuel : nat) (s : list Z) : list (Z * nat) :=
  match fuel, s with
  | S fuel, _ :: _ => let '(r, n) := decodeRune s in (r, n) :: runes_fuel fuel (drop n s)
  | _, _ => []
  end.
Definition runes (s : list Z) : list (Z * nat) := runes_fuel (length s) s.

(** [unicode.IsSpace]: the White_Space property. *)
Definition IsSpace (r : Z) : bool :=
  inRange 9 13 r || (r =? 32) || (r =? 133) || (r =? 160) || (r =? 5760) || inRange 8192 8202 r
  || (r =? 8232) || (r =? 8233) || (r =? 8239) || (r =? 8287) || (r =? 12288).

(** ** Case *)

(** The tables beyond ASCII: the lower-case rune, the next rune of the
    simple-folding orbit, and the general categories. *)
Class Unicode : Type := {
  u_ToLower : Z -> Z;
  u_SimpleFold : Z -> Z;
  u_IsLetter : Z -> bool;
  u_IsNumber : Z -> bool;
  u_IsMark : Z -> bool;
  u_IsDigit : Z -> bool;
  u_IsUpper : Z -> bool;
  u_IsLower : Z -> bool
}.

Section case.
Context `{Unicode}.

(** [unicode.IsLetter] and its kin. *)
Definition ascii_or (f u : Z -> bool) (r : Z) : bool := if (r <? 128) then f r else u r.
Definition IsDigit (r : Z) : bool := ascii_or (inRange 48 57) u_IsDigit r.
Definition IsNumber (r : Z) : bool := ascii_or (inRange 48 57) u_IsNumber r.
Definition IsUpper (r : Z) : bool := ascii_or (inRange 65 90) u_IsUpper r.
Definition IsLower (r : Z) : bool := ascii_or (inRange 97 122) u_IsLower r.
Definition IsLetter (r : Z) : bool := ascii_or (fun r => inRange 65 90 r || inRange 97 122 r) u_IsLetter r.
Definition IsMark (r : Z) : bool := ascii_or (fun _ => false) u_IsMark r.

Definition lowerASCII (b : Z) : Z := if inRange 65 90 b then b + 32 else b.

(** [strings.ToLower] *)
Definition strings_ToLower (s : list Z) : list Z :=
  if forallb (fun b => b <? 128) s then lowerASCII <$> s
  else mjoin ((fun p => encodeRune (if (p.1 <? 128) then lowerASCII p.1 else u_ToLower p.1)) <$> runes s).

(** The orbit walk of [strings.EqualFold], [sr <= tr]: orbits have at most four
    members. *)
Fixpoint foldReaches (fuel : nat) (sr r tr : Z) : bool :=
  match fuel with
  | O => r =? tr
  | S fuel => if negb (r =? sr) && (r <? tr) then foldReaches fuel sr (u_SimpleFold r) tr else r =? tr
  end.

Definition sameFold (a b : Z) : bool :=
  let sr := Z.min a b in
  let tr := Z.max a b in
  if (sr =? tr) then true
  else if (tr <? 128) then inRange 65 90 sr && (tr =? sr + 32)
  else foldReaches 4 sr (u_SimpleFold sr) tr.

(** [strings.EqualFold]: rune by rune, to the end of both. *)
Definition strings_EqualFold (s t : list Z) : bool :=
  let rs := fst <$> runes s in
  let rt := fst <$> runes t in
  bool_decide (length rs = length rt) && forallb (fun p => sameFold p.1 p.2) (zip rs rt).
End case.

(** ** Laws *)

(** Strings that are the encoding of some runes. *)
Definition utf8 (s : list Z) : Prop := exists rs, Forall scalar rs /\ s = mjoin (encodeRune <$> rs).

Lemma inRange_spec lo hi b : inRange lo hi b = true <-> lo <= b <= hi.
Proof. unfold inRange. lia. Qed.

Lemma isScalar_spec r : isScalar r = true <-> scalar r.
Proof. unfold isScalar, scalar, inRange, MaxRune. lia. Qed.

(** Decide every boolean test the goal branches on. *)
Ltac tests :=
  repeat match goal with
    | |- context [if ?b then _ else _] =>
        lazymatch b with context [if _ then _ else _] => fail | _ => idtac end;
        let E := fresh "E" in destruct b eqn:E
    end.

Lemma encodeRune_nonempty r : encodeRune r <> [].
Proof. unfold encodeRune. tests; done. Qed.

Lemma zlen_encodeRune r : 1 <= zlen (encodeRune r) <= 4.
Proof. unfold encodeRune. tests; unfold zlen; cbn; lia. Qed.

Lemma acceptLo_bounds b : 128 <= acceptLo b <= 160.
Proof. unfold acceptLo. tests; lia. Qed.

Lemma acceptHi_bounds b : 143 <= acceptHi b <= 191.
Proof. unfold acceptHi. tests; lia. Qed.
Lemma split_6 r : 0 <= r -> r = r / 64 * 64 + r mod 64 /\ 0 <= r mod 64 < 64 /\ 0 <= r / 64.
Proof. intros. pose proof (Z.div_mod r 64). pose proof (Z.mod_pos_bound r 64). pose proof (Z.div_pos r 64). lia. Qed.

Lemma decode_encode r t : scalar r -> decodeRune (encodeRune r ++ t) = (r, length (encodeRune r)).
Proof.
  intros Hr. unfold encodeRune. rewrite (proj2 (isScalar_spec r) Hr). unfold scalar, MaxRune in Hr.
  assert (0 <= r) as Hr0 by lia.
  destruct (Z.ltb_spec r 128); [cbn; destruct (Z.ltb_spec r 128); [done|lia]|].
  destruct (split_6 r Hr0) as (E & ? & P1). destruct (split_6 _ P1) as (E1 & ? & P2). destruct (split_6 _ P2) as (E2 & ? & P3).
  replace (r / 4096) with (r / 64 / 64) by (rewrite Z.div_div by lia; done).
  replace (r / 262144) with (r / 64 / 64 / 64) by (rewrite !Z.div_div by lia; done).
  destruct (Z.ltb_spec r 2048); [|destruct (Z.ltb_spec r 65536)]; cbn [app decodeRune length];
    unfold inRange, acceptLo, acceptHi;
    repeat match goal with |- context [if ?b then _ else _] =>
      lazymatch b with context [if _ then _ else _] => fail | _ => idtac end;
      let E := fresh in destruct b eqn:E; try (exfalso; lia) end;
    f_equal; lia.
Qed.
(** The decoder's arithmetic, inverted: two, three and four bytes. *)
Ltac encode_by r Hr :=
  unfold encodeRune; rewrite (proj2 (isScalar_spec r) Hr);
  repeat match goal with |- context [r <? ?k] => destruct (Z.ltb_spec r k); [try (exfalso; lia)|try (exfalso; lia)] end;
  repeat (apply (f_equal2 cons)); try done; Z.to_euclidean_division_equations; lia.

Lemma encode_two b0 b1 r :
  194 <= b0 <= 223 -> 128 <= b1 <= 191 -> r = (b0 - 192) * 64 + (b1 - 128) ->
  scalar r /\ encodeRune r = [b0; b1].
Proof. intros ?? Er. assert (Hr : scalar r) by (unfold scalar, MaxRune; lia). split; [done|]. encode_by r Hr. Qed.

Lemma encode_three b0 b1 b2 r :
  224 <= b0 <= 239 -> acceptLo b0 <= b1 <= acceptHi b0 -> 128 <= b2 <= 191 ->
  r = (b0 - 224) * 4096 + (b1 - 128) * 64 + (b2 - 128) ->
  scalar r /\ encodeRune r = [b0; b1; b2].
Proof.
  unfold acceptLo, acceptHi. intros ? H1 ? Er.
  repeat match type of H1 with context [if ?c then _ else _] => destruct c eqn:? end;
    (assert (Hr : scalar r) by (unfold scalar, MaxRune; lia); split; [done|]; encode_by r Hr).
Qed.

Lemma encode_four b0 b1 b2 b3 r :
  240 <= b0 <= 244 -> acceptLo b0 <= b1 <= acceptHi b0 -> 128 <= b2 <= 191 -> 128 <= b3 <= 191 ->
  r = (b0 - 240) * 262144 + (b1 - 128) * 4096 + (b2 - 128) * 64 + (b3 - 128) ->
  scalar r /\ encodeRune r = [b0; b1; b2; b3].
Proof.
  unfold acceptLo, acceptHi. intros ? H1 ?? Er.
  repeat match type of H1 with context [if ?c then _ else _] => destruct c eqn:? end;
    (assert (Hr : scalar r) by (unfold scalar, MaxRune; lia); split; [done|]; encode_by r Hr).
Qed.

Lemma encode_one b : 0 <= b < 128 -> scalar b /\ encodeRune b = [b].
Proof. intros ?. assert (Hr : scalar b) by (unfold scalar, MaxRune; lia). split; [done|]. encode_by b Hr. Qed.

(** What is decoded: a scalar value by its encoding, or one invalid byte; a
    list that is no byte string decodes a negative element to itself. *)
Lemma decode_spec b s :
  (exists r t, scalar r /\ b :: s = encodeRune r ++ t /\ decodeRune (b :: s) = (r, length (encodeRune r))) \/
  decodeRune (b :: s) = (RuneError, 1%nat) /\ 128 <= b \/
  decodeRune (b :: s) = (b, 1%nat) /\ b < 0.
Proof.
  destruct (Z.ltb_spec b 0) as [Hneg|Hb].
  { right; right. unfold decodeRune. destruct (Z.ltb_spec b 128); [done|lia]. }
  destruct (decodeRune (b :: s)) as [r n] eqn:E.
  assert (Hs : (r = RuneError /\ n = 1%nat /\ 128 <= b) \/ (scalar r /\ exists t, b :: s = encodeRune r ++ t)).
  { unfold decodeRune in E. destruct (Z.ltb_spec b 128).
    { injection E as <- <-. right. destruct (encode_one b) as [? ->]; [lia|]. split; [done|]. by exists s. }
    repeat match type of E with (if ?c then _ else _) = _ => destruct c eqn:? | match ?l with [] => _ | _ => _ end = _ => destruct l end;
      try (injection E as <- <-; left; done); right; injection E as Er <-; symmetry in Er;
      repeat match goal with
        | H : _ && _ = true |- _ => apply andb_true_iff in H as [??]
        | H : inRange _ _ _ = true |- _ => apply inRange_spec in H end.
    - destruct (encode_two _ _ _ ltac:(eassumption) ltac:(eassumption) Er) as [? ->]. split; [done|]. by exists s.
    - destruct (encode_three _ _ _ _ ltac:(eassumption) ltac:(eassumption) ltac:(eassumption) Er) as [? ->]. split; [done|]. by exists s.
    - edestruct (encode_four b z z0 z1 r) as [? ->]; [done..|]. split; [done|]. by exists s. }
  destruct Hs as [(-> & -> & ?)|(Hr & t & Es)]; [by right; left|left]. exists r, t. split; [done|]. split; [done|].
  rewrite Es, decode_encode in E by done. by injection E as <-.
Qed.

Lemma decode_width b s : (1 <= (decodeRune (b :: s)).2 <= 4)%nat.
Proof.
  unfold decodeRune. repeat match goal with
    | |- context [if ?c then _ else _] => destruct c
    | |- context [match ?l with [] => _ | _ => _ end] => is_var l; destruct l
    end; cbn; lia.
Qed.

Lemma runes_fuel_enough fuel s : (length s <= fuel)%nat -> runes_fuel fuel s = runes s.
Proof.
  unfold runes. revert fuel. induction s as [s IH] using (induction_ltof1 _ length). intros [|fuel] Hle.
  - destruct s; [done|cbn in Hle; lia].
  - destruct s as [|b s]; [done|]. cbn [length runes_fuel]. pose proof (decode_width b s).
    destruct (decodeRune (b :: s)) as [r n]. cbn [snd] in *. f_equal. unfold ltof in IH. cbn in Hle, IH.
    rewrite (IH _) by (rewrite ?length_drop; cbn; lia). symmetry. apply IH; rewrite length_drop; cbn; lia.
Qed.

Lemma runes_cons b s :
  runes (b :: s) = decodeRune (b :: s) :: runes (drop (decodeRune (b :: s)).2 (b :: s)).
Proof.
  unfold runes at 1. cbn [length runes_fuel]. pose proof (decode_width b s). destruct (decodeRune (b :: s)) as [r n].
  cbn [snd] in *. f_equal. apply runes_fuel_enough. rewrite length_drop. cbn. lia.
Qed.

Lemma runes_encode r t : scalar r -> runes (encodeRune r ++ t) = (r, length (encodeRune r)) :: runes t.
Proof.
  intros Hr. pose proof (decode_encode r t Hr) as E. pose proof (encodeRune_nonempty r).
  destruct (encodeRune r) as [|b s] eqn:Es; [done|]. cbn [app] in *. rewrite runes_cons, E. cbn [snd].
  do 2 f_equal. change (b :: s ++ t) with ((b :: s) ++ t). apply drop_app_length.
Qed.

Lemma runes_utf8 rs : Forall scalar rs -> fst <$> runes (mjoin (encodeRune <$> rs)) = rs.
Proof.
  induction 1 as [|r rs Hr _ IH]; [done|]. cbn [fmap list_fmap mjoin list_join]. rewrite runes_encode by done.
  cbn. by f_equal.
Qed.

Lemma utf8_nil : utf8 [].
Proof. by exists []. Qed.

Lemma utf8_rune r : scalar r -> utf8 (encodeRune r).
Proof. intros. exists [r]. split; [by apply Forall_singleton|]. cbn. by rewrite app_nil_r. Qed.

Lemma utf8_app s t : utf8 s -> utf8 t -> utf8 (s ++ t).
Proof.
  intros (rs & Hr & ->) (rt & Ht & ->). exists (rs ++ rt). rewrite fmap_app, join_app. split; [by apply Forall_app|done].
Qed.

Lemma ascii_encode s : Forall (fun b => 0 <= b < 128) s -> s = mjoin (encodeRune <$> s).
Proof.
  induction 1 as [|b s Hb _ IH]; [done|]. cbn [fmap list_fmap mjoin list_join].
  rewrite (proj2 (encode_one b Hb)). cbn. by f_equal.
Qed.

Lemma ascii_utf8 s : Forall (fun b => 0 <= b < 128) s -> utf8 s.
Proof.
  intros H. exists s. split; [|by apply ascii_encode]. eapply Forall_impl; [exact H|]. intros. by apply encode_one.
Qed.

Lemma ascii_runes s : Forall (fun b => 0 <= b < 128) s -> fst <$> runes s = s.
Proof.
  intros H. rewrite (ascii_encode s H) at 1. apply runes_utf8.
  eapply Forall_impl; [exact H|]. intros. by apply encode_one.
Qed.

(** Only the first byte of an encoding is a rune start. *)
Lemma encode_inside r (i : nat) b :
  scalar r -> encodeRune r !! i = Some b -> RuneStart b = true <-> i = 0%nat.
Proof.
  intros Hr. unfold RuneStart, inRange, encodeRune. rewrite (proj2 (isScalar_spec r) Hr).
  assert (0 <= r <= MaxRune) as [H0 H1] by (unfold scalar in Hr; unfold MaxRune in *; lia). unfold MaxRune in H1.
  destruct (Z.ltb_spec r 128); [|destruct (Z.ltb_spec r 2048); [|destruct (Z.ltb_spec r 65536)]];
    repeat (destruct i as [|i]; [intros [= <-]; split; [try done; intros; exfalso|intros; try done]; Z.to_euclidean_division_equations; lia|]); done.
Qed.

(** A valid string cut at a rune start is the encoding of its first runes. *)
Lemma encoded_cut rs (cut : nat) :
  Forall scalar rs -> (forall b, mjoin (encodeRune <$> rs) !! cut = Some b -> RuneStart b = true) ->
  exists k, take cut (mjoin (encodeRune <$> rs)) = mjoin (encodeRune <$> take k rs).
Proof.
  intros Hr. revert cut. induction Hr as [|r rs Hr Hrs IH]; intros cut Hc; [exists 0%nat; by destruct cut|].
  cbn [fmap list_fmap mjoin list_join] in *. pose proof (encodeRune_nonempty r) as Hne.
  destruct (decide (cut < length (encodeRune r))%nat) as [Hlt|Hge].
  - destruct (lookup_lt_is_Some_2 (encodeRune r) cut Hlt) as [b Hb].
    assert (cut = 0%nat) as -> by (apply (encode_inside r cut b Hr Hb), Hc; by apply lookup_app_l_Some). by exists 0%nat.
  - destruct (IH (cut - length (encodeRune r))%nat) as [k Hk].
    { intros b Hb. apply Hc. rewrite lookup_app_r by lia. done. }
    exists (S k). rewrite take_app_ge by lia. cbn [take fmap list_fmap mjoin list_join]. f_equal. exact Hk.
Qed.

(** Comparing ASCII strings ignores case and nothing else. *)
Lemma EqualFold_ascii `{Unicode} s t :
  Forall (fun b => 0 <= b < 128) s -> Forall (fun b => 0 <= b < 128) t ->
  strings_EqualFold s t = bool_decide (lowerASCII <$> s = lowerASCII <$> t).
Proof.
  intros Hs Ht. unfold strings_EqualFold. rewrite !ascii_runes by done. revert t Ht.
  induction Hs as [|a s Ha Hs IH]; intros [|b t] Ht; try done.
  apply Forall_cons in Ht as [Hb Ht]. specialize (IH t Ht). cbn [zip zip_with forallb fst snd fmap list_fmap length].
  assert (sameFold a b = bool_decide (lowerASCII a = lowerASCII b)) as ->.
  { unfold sameFold, lowerASCII. destruct (Z.eqb_spec (Z.min a b) (Z.max a b)); [symmetry; apply bool_decide_eq_true; assert (a = b) as -> by lia; done|].
    destruct (Z.ltb_spec (Z.max a b) 128); [|lia].
    assert (forall b1 b2 : bool, (b1 = true <-> b2 = true) -> b1 = b2) as Hbool by (intros [] [] [? ?]; naive_solver).
    apply Hbool. rewrite bool_decide_eq_true. unfold inRange. tests; lia. }
  change (list_fmap Z Z lowerASCII) with (@fmap list _ Z Z lowerASCII).
  rewrite andb_assoc, (andb_comm (bool_decide _) (bool_decide (lowerASCII a = _))), <- andb_assoc.
  replace (bool_decide (S (length s) = S (length t))) with (bool_decide (length s = length t)) by (apply bool_decide_ext; lia).
  rewrite IH. symmetry. rewrite <- bool_decide_and. apply bool_decide_ext. split; [by intros [= ? ?]|intros [-> ->]; done].
Qed.

Lemma EqualFold_refl `{Unicode} s : strings_EqualFold s s = true.
Proof.
  unfold strings_EqualFold. rewrite bool_decide_true by done. cbn [andb].
  induction (fst <$> runes s) as [|r rs IH]; [done|]. cbn [zip zip_with forallb fst snd]. rewrite IH, andb_true_r.
  unfold sameFold. rewrite Z.min_id, Z.max_id, Z.eqb_refl. done.
Qed.

(** Tables that know nothing beyond ASCII. *)
Definition ascii_unicode : Unicode :=
  {| u_ToLower r := r; u_SimpleFold r := r; u_IsLetter _ := false; u_IsNumber _ := false; u_IsMark _ := false;
     u_IsDigit _ := false; u_IsUpper _ := false; u_IsLower _ := false |}.
