(* ===== verification/Regexp.v ===== *)
(** * package regexp, as redact uses it

    The syntax redact's patterns are written in, a parser for it, leftmost-first
    matching over the runes of a string, and the three calls made of a compiled
    pattern: all matches with their submatches, ReplaceAllString and Expand.
    Matching explores the alternatives in the order of the pattern, which is
    what leftmost-first means; a starred body that matched nothing ends its
    loop, and no body in redact's patterns can. Names in templates are ASCII. *)
From S2P Require Import Prelude Bytes Pem Utf8.

(** ** Syntax *)

(** A character class: ranges, whether they are taken without regard to case,
    whether the class is their complement. *)
Record cclass : Type := CClass { cc_fold : bool; cc_neg : bool; cc_ranges : list (Z * Z) }.

Inductive regex : Type :=
| Eps
| Chr (c : cclass)
| WordB
| Cat (r1 r2 : regex)
| Alt (r1 r2 : regex)
| Rep (r : regex) (lo : nat) (hi : option nat) (greedy : bool)
| Cap (i : nat) (r : regex).

(** The runes that fold with an ASCII letter: its other case, and the long s
    and the Kelvin sign. *)
Definition orbit (r : Z) : list Z :=
  r :: (if inRange 65 90 r then [r + 32] else if inRange 97 122 r then [r - 32] else [])
    ++ (if (r =? 383) then [115; 83] else if (r =? 8490) then [107; 75] else [])
    ++ (if (r =? 115) || (r =? 83) then [383] else if (r =? 107) || (r =? 75) then [8490] else []).

Definition inRanges (rs : list (Z * Z)) (r : Z) : bool := existsb (fun p => inRange p.1 p.2 r) rs.
Definition inClass (c : cclass) (r : Z) : bool :=
  xorb (cc_neg c) (if cc_fold c then existsb (inRanges (cc_ranges c)) (orbit r) else inRanges (cc_ranges c) r).

(** ** Parsing *)

Definition spaceRanges : list (Z * Z) := [(9, 10); (12, 13); (32, 32)].
Definition notSpaceRanges : list (Z * Z) := [(0, 8); (11, 11); (14, 31); (33, MaxRune)].

Definition hexVal (c : Z) : Z := if inRange 48 57 c then c - 48 else if inRange 97 102 c then c - 87 else c - 55.

(** What a backslash introduces, inside a class or outside: a set of ranges. *)
Definition parseEscape (s : list Z) : option (list (Z * Z) * list Z) :=
  match s with
  | 115 :: s => Some (spaceRanges, s)
  | 83 :: s => Some (notSpaceRanges, s)
  | 110 :: s => Some ([(10, 10)], s)
  | 114 :: s => Some ([(13, 13)], s)
  | 120 :: a :: b :: s => let v := hexVal a * 16 + hexVal b in Some ([(v, v)], s)
  | c :: s => if inRange 97 122 c || inRange 65 90 c || inRange 48 57 c then None else Some ([(c, c)], s)
  | [] => None
  end.

(** The members of a class up to its bracket. *)
Fixpoint parseClass (fuel : nat) (s : list Z) : option (list (Z * Z) * list Z) :=
  match fuel with
  | O => None
  | S fuel =>
      match s with
      | 93 :: s => Some ([], s)
      | 92 :: s =>
          '(rs, s) ← parseEscape s;
          '(rest, s) ← parseClass fuel s;
          Some (rs ++ rest, s)
      | a :: 45 :: b :: s' =>
          if (b =? 93) then '(rest, s) ← parseClass fuel (45 :: b :: s'); Some ((a, a) :: rest, s)
          else '(rest, s) ← parseClass fuel s'; Some ((a, b) :: rest, s)
      | a :: s => '(rest, s) ← parseClass fuel s; Some ((a, a) :: rest, s)
      | [] => None
      end
  end.

Fixpoint parseNat (acc : nat) (s : list Z) : nat * list Z :=
  match s with
  | c :: s' => if inRange 48 57 c then parseNat (acc * 10 + Z.to_nat (c - 48)) s' else (acc, s)
  | [] => (acc, s)
  end.

(** A repetition operator behind an atom, with its lazy mark. *)
Definition parseRepeat (r : regex) (s : list Z) : option (regex * list Z) :=
  let lazy lo hi s := match s with 63 :: s => (Rep r lo hi false, s) | _ => (Rep r lo hi true, s) end in
  match s with
  | 42 :: s => Some (lazy 0%nat None s)
  | 43 :: s => Some (lazy 1%nat None s)
  | 63 :: s => Some (lazy 0%nat (Some 1%nat) s)
  | 123 :: s =>
      let '(lo, s) := parseNat 0 s in
      match s with
      | 125 :: s => Some (lazy lo (Some lo) s)
      | 44 :: 125 :: s => Some (lazy lo None s)
      | 44 :: s => let '(hi, s) := parseNat 0 s in
                   match s with 125 :: s => Some (lazy lo (Some hi) s) | _ => None end
      | _ => None
      end
  | _ => Some (r, s)
  end.

(** Alternatives, sequences and atoms; [i] is the case flag, [n] the number of
    the next group. *)
Fixpoint parseAlt (fuel : nat) (i : bool) (n : nat) (s : list Z) : option (regex * nat * list Z) :=
  match fuel with
  | O => None
  | S fuel =>
      '(r, n, s) ← parseCat fuel i n s;
      match s with
      | 124 :: s => '(r2, n, s) ← parseAlt fuel i n s; Some (Alt r r2, n, s)
      | _ => Some (r, n, s)
      end
  end
with parseCat (fuel : nat) (i : bool) (n : nat) (s : list Z) : option (regex * nat * list Z) :=
  match fuel with
  | O => None
  | S fuel =>
      match s with
      | [] | 41 :: _ | 124 :: _ => Some (Eps, n, s)
      | _ =>
          '(r, n, s) ← parseAtom fuel i n s;
          '(r, s) ← parseRepeat r s;
          '(r2, n, s) ← parseCat fuel i n s;
          Some (Cat r r2, n, s)
      end
  end
with parseAtom (fuel : nat) (i : bool) (n : nat) (s : list Z) : option (regex * nat * list Z) :=
  match fuel with
  | O => None
  | S fuel =>
      match s with
      | 40 :: 63 :: 58 :: s =>
          '(r, n, s) ← parseAlt fuel i n s;
          match s with 41 :: s => Some (r, n, s) | _ => None end
      | 40 :: 63 :: _ => None
      | 40 :: s =>
          '(r, n', s) ← parseAlt fuel i (S n) s;
          match s with 41 :: s => Some (Cap n r, n', s) | _ => None end
      | 91 :: 94 :: s => '(rs, s) ← parseClass (length s) s; Some (Chr (CClass i true rs), n, s)
      | 91 :: s => '(rs, s) ← parseClass (length s) s; Some (Chr (CClass i false rs), n, s)
      | 46 :: s => Some (Chr (CClass false true [(10, 10)]), n, s)
      | 92 :: 98 :: s => Some (WordB, n, s)
      | 92 :: s => '(rs, s) ← parseEscape s; Some (Chr (CClass i false rs), n, s)
      | c :: s => if bool_decide (c ∈ str "*+?{}]^$)") then None else Some (Chr (CClass i false [(c, c)]), n, s)
      | [] => None
      end
  end.

(** [regexp.Compile]: the flag group (?i) is understood in front. *)
Definition Compile (s : list Z) : option regex :=
  let '(i, s) := if HasPrefix s (str "(?i)") then (true, drop 4 s) else (false, s) in
  match parseAlt (4 * length s + 4) i 1 s with
  | Some (r, _, []) => Some r
  | _ => None
  end.

(** ** Matching *)

(** A position: the rune before it, its offset, the runes behind it with their
    widths, and the submatches so far, the latest first. *)
Record mstate : Type := MState {
  ms_prev : option Z;
  ms_off : Z;
  ms_rest : list (Z * nat);
  ms_caps : list (nat * (Z * Z))
}.

Definition isWord (r : Z) : bool := inRange 48 57 r || inRange 65 90 r || (r =? 95) || inRange 97 122 r.
Definition wordAt (o : option Z) : bool := match o with Some r => isWord r | None => false end.
Definition ahead (s : mstate) : option Z := match ms_rest s with (r, _) :: _ => Some r | [] => None end.

(** One rune further. *)
Definition advance (s : mstate) : option mstate :=
  match ms_rest s with
  | [] => None
  | (r, w) :: rest => Some (MState (Some r) (ms_off s + Z.of_nat w) rest (ms_caps s))
  end.

(** The repetition operator over the matcher of its body: [lo] mandatory
    turns, then at most [n] more that each consume something, the longest
    choice first when greedy. *)
Section repeat.
Variable body : (mstate -> option mstate) -> mstate -> option mstate.
Variable greedy : bool.
Variable k : mstate -> option mstate.

Fixpoint moreTurns (n : nat) (s : mstate) : option mstate :=
  match n with
  | O => k s
  | S n =>
      let turn := body (fun s' => if (ms_off s' =? ms_off s) then None else moreTurns n s') in
      if greedy
      then match turn s with Some r => Some r | None => k s end
      else match k s with Some r => Some r | None => turn s end
  end.

Fixpoint turns (lo : nat) (hi : option nat) (s : mstate) : option mstate :=
  match lo with
  | O => moreTurns (match hi with Some h => h | None => length (ms_rest s) end) s
  | S lo => body (turns lo (pred <$> hi)) s
  end.
End repeat.

(** The matcher, with what is to match behind [r] as a continuation. *)
Fixpoint matchRe (r : regex) (k : mstate -> option mstate) (s : mstate) {struct r} : option mstate :=
  match r with
  | Eps => k s
  | Chr c =>
      match ms_rest s with
      | (x, w) :: rest => if inClass c x then k (MState (Some x) (ms_off s + Z.of_nat w) rest (ms_caps s)) else None
      | [] => None
      end
  | WordB => if xorb (wordAt (ms_prev s)) (wordAt (ahead s)) then k s else None
  | Cat r1 r2 => matchRe r1 (matchRe r2 k) s
  | Alt r1 r2 => match matchRe r1 k s with Some s' => Some s' | None => matchRe r2 k s end
  | Rep r lo hi greedy => turns (matchRe r) greedy k lo hi s
  | Cap i r => matchRe r (fun s' => k (MState (ms_prev s') (ms_off s') (ms_rest s') ((i, (ms_off s, ms_off s')) :: ms_caps s'))) s
  end.

(** The leftmost match from a position on: its start and the state behind it. *)
Fixpoint search_from (r : regex) (prev : option Z) (off : Z) (rest : list (Z * nat)) : option (Z * mstate) :=
  match matchRe r Some (MState prev off rest []) with
  | Some s' => Some (off, s')
  | None =>
      match rest with
      | [] => None
      | (c, w) :: rest => search_from r (Some c) (off + Z.of_nat w) rest
      end
  end.
Definition search (r : regex) (s : mstate) : option (Z * mstate) := search_from r (ms_prev s) (ms_off s) (ms_rest s).

Definition start_state (src : list Z) : mstate := MState None 0 (runes src) [].

(** A match: where it is, and its submatches. *)
Record submatch : Type := Submatch { sm_start : Z; sm_end : Z; sm_caps : list (nat * (Z * Z)) }.

(** [re.FindAllStringSubmatchIndex(src, -1)]: an empty match right behind a
    match is not reported. *)
Fixpoint allMatches (fuel : nat) (r : regex) (s : mstate) (prevEnd : Z) : list submatch :=
  match fuel with
  | O => []
  | S fuel =>
      match search r s with
      | None => []
      | Some (start, s') =>
          let m := Submatch start (ms_off s') (ms_caps s') in
          if (ms_off s' =? ms_off s) then
            (if (start =? prevEnd) then [] else [m]) ++
            match advance s with None => [] | Some s2 => allMatches fuel r s2 (ms_off s') end
          else m :: allMatches fuel r s' (ms_off s')
      end
  end.
Definition FindAll (r : regex) (src : list Z) : list submatch := allMatches (S (length src)) r (start_state src) (-1).

(** [re.ReplaceAllString]'s loop; [repl] is the text for a match. *)
Fixpoint replaceLoop (fuel : nat) (r : regex) (src : list Z) (repl : submatch -> list Z) (s : mstate) (lastEnd : Z) : list Z :=
  match fuel with
  | O => lsub lastEnd (zlen src) src
  | S fuel =>
      match search r s with
      | None => lsub lastEnd (zlen src) src
      | Some (start, s') =>
          let m := Submatch start (ms_off s') (ms_caps s') in
          lsub lastEnd start src ++
          (if (lastEnd <? ms_off s') || (start =? 0) then repl m else []) ++
          (if (ms_off s' =? ms_off s)
           then match advance s with
                | None => lsub (ms_off s') (zlen src) src
                | Some s2 => replaceLoop fuel r src repl s2 (ms_off s')
                end
           else replaceLoop fuel r src repl s' (ms_off s'))
      end
  end.

(** ** Templates *)

Definition isNameChar (c : Z) : bool := isWord c.

Fixpoint nameChars (s : list Z) : list Z * list Z :=
  match s with
  | c :: s' => if isNameChar c then let '(n, r) := nameChars s' in (c :: n, r) else ([], s)
  | [] => ([], [])
  end.

(** A group number, or -1. *)
Fixpoint nameNumber (acc : Z) (name : list Z) : Z :=
  match name with
  | [] => acc
  | c :: name => if negb (inRange 48 57 c) || (100000000 <=? acc) then -1 else nameNumber (acc * 10 + (c - 48)) name
  end.

(** [extract]: the number behind a dollar sign, and the rest. *)
Definition extract (s : list Z) : option (Z * list Z) :=
  let '(brace, s) := match s with 123 :: s => (true, s) | _ => (false, s) end in
  let '(name, rest) := nameChars s in
  match name with
  | [] => None
  | c :: name' =>
      let num := if (c =? 48) && negb (bool_decide (name' = [])) then -1 else nameNumber 0 name in
      if brace then match rest with 125 :: rest => Some (num, rest) | _ => None end
      else Some (num, rest)
  end.

(** What group [n] of a match holds; group 0 is the match. *)
Definition group (src : list Z) (m : submatch) (n : Z) : list Z :=
  if (n =? 0) then lsub (sm_start m) (sm_end m) src
  else match find (fun p => Z.of_nat p.1 =? n) (sm_caps m) with
       | Some (_, (a, b)) => lsub a b src
       | None => []
       end.

(** [re.Expand] of a template; there are no named groups. *)
Fixpoint expand (fuel : nat) (template src : list Z) (m : submatch) : list Z :=
  match fuel, template with
  | S fuel, 36 :: 36 :: t => 36 :: expand fuel t src m
  | S fuel, 36 :: t =>
      match extract t with
      | Some (num, rest) => (if (0 <=? num) then group src m num else []) ++ expand fuel rest src m
      | None => 36 :: expand fuel t src m
      end
  | S fuel, c :: t => c :: expand fuel t src m
  | _, _ => []
  end.
Definition Expand (template src : list Z) (m : submatch) : list Z := expand (length template) template src m.

Definition ReplaceAllString (r : regex) (src template : list Z) : list Z :=
  replaceLoop (S (length src)) r src (Expand template src) (start_state src) 0.

(** ** What matching consumes *)

Definition width (l : list (Z * nat)) : Z := Z.of_nat (sum_list_with snd l).

(** [s'] is [s] some runes further. *)
Definition reaches (s s' : mstate) : Prop :=
  exists pre, ms_rest s = pre ++ ms_rest s' /\ ms_off s' = ms_off s + width pre.

Lemma width_app a b : width (a ++ b) = width a + width b.
Proof. unfold width. rewrite sum_list_with_app. lia. Qed.

Lemma reaches_refl s : reaches s s.
Proof. exists []. split; [done|]. unfold width. cbn. lia. Qed.

Lemma reaches_trans s1 s2 s3 : reaches s1 s2 -> reaches s2 s3 -> reaches s1 s3.
Proof.
  intros (p1 & E1 & O1) (p2 & E2 & O2). exists (p1 ++ p2). rewrite width_app, <- app_assoc, E1, E2. split; [done|lia].
Qed.

(** A matcher that only moves forward, whatever is to match behind it. *)
Definition forward (m : (mstate -> option mstate) -> mstate -> option mstate) : Prop :=
  forall k s out, m k s = Some out -> exists s1, reaches s s1 /\ k s1 = Some out.

Lemma moreTurns_forward body greedy n : forward body -> forward (fun k => moreTurns body greedy k n).
Proof.
  intros Hb k. induction n as [|n IH]; intros s out; cbn [moreTurns]; [intros E; exists s; split; [apply reaches_refl|done]|].
  set (turn := body _). assert (turn s = Some out -> exists s1, reaches s s1 /\ k s1 = Some out) as Ht.
  { intros E. apply Hb in E as (s1 & H1 & E). destruct (_ =? _); [done|]. apply IH in E as (s2 & H2 & E).
    exists s2. split; [by eapply reaches_trans|done]. }
  assert (k s = Some out -> exists s1, reaches s s1 /\ k s1 = Some out) as Hk by (intros E; exists s; split; [apply reaches_refl|done]).
  destruct greedy.
  - destruct (turn s) eqn:E; [intros [= ->]; by apply Ht|done].
  - destruct (k s) eqn:E; [intros [= ->]; by apply Hk|done].
Qed.

Lemma turns_forward body greedy lo hi : forward body -> forward (fun k => turns body greedy k lo hi).
Proof.
  intros Hb k. revert hi. induction lo as [|lo IH]; intros hi s out; cbn [turns]; [by apply moreTurns_forward|].
  intros E. apply Hb in E as (s1 & H1 & E). apply IH in E as (s2 & H2 & E). exists s2. split; [by eapply reaches_trans|done].
Qed.

Lemma matchRe_forward r : forward (matchRe r).
Proof.
  induction r as [|c| |r1 IH1 r2 IH2|r1 IH1 r2 IH2|r IH lo hi g|i r IH]; intros k s out; cbn [matchRe].
  - intros E. exists s. split; [apply reaches_refl|done].
  - destruct (ms_rest s) as [|[x w] rest] eqn:Er; [done|]. destruct (inClass c x); [|done]. intros E. eexists. split; [|exact E].
    exists [(x, w)]. split; [by rewrite Er|]. unfold width. cbn. lia.
  - destruct (xorb _ _); [|done]. intros E. exists s. split; [apply reaches_refl|done].
  - intros E. apply IH1 in E as (s1 & H1 & E). apply IH2 in E as (s2 & H2 & E). exists s2. split; [by eapply reaches_trans|done].
  - destruct (matchRe r1 k s) eqn:E1; [intros [= ->]; by apply IH1|apply IH2].
  - by apply turns_forward.
  - intros E. apply IH in E as (s1 & H1 & E). eexists. split; [|exact E]. done.
Qed.

(** A match starts at a rune boundary at or behind the position, and its end
    is a boundary at or behind its start. *)
Lemma search_spec r s start s' :
  search r s = Some (start, s') ->
  exists s1, reaches s s1 /\ ms_off s1 = start /\ reaches s1 s'.
Proof.
  unfold search. destruct s as [prev off rest caps]. cbn [ms_prev ms_off ms_rest]. intros E.
  assert (exists s1, reaches (MState prev off rest []) s1 /\ ms_off s1 = start /\ reaches s1 s') as (s1 & H1 & E1 & H2).
  { revert prev off E. induction rest as [|[c w] rest IH]; intros prev off; cbn [search_from];
      destruct (matchRe r Some (MState prev off _ [])) as [o|] eqn:Em; try done.
    1,2: intros [= <- <-]; apply matchRe_forward in Em as (s1 & H1 & [= ->]); eexists; split; [apply reaches_refl|done].
    intros E. destruct (IH _ _ E) as (s1 & H1 & E1 & H2). exists s1. split; [|done].
    eapply reaches_trans; [|exact H1]. exists [(c, w)]. split; [done|]. unfold width. cbn. lia. }
  exists s1. split; [|done]. destruct H1 as (pre & ? & ?). by exists pre.
Qed.

Lemma width_nonneg l : 0 <= width l.
Proof. unfold width. lia. Qed.

Lemma runes_width s : Forall (fun p => 1 <= p.2)%nat (runes s).
Proof.
  induction s as [s IH] using (induction_ltof1 _ length). unfold ltof in IH. destruct s as [|b s]; [constructor|].
  rewrite runes_cons. pose proof (decode_width b s). constructor; [lia|]. apply IH. rewrite length_drop. cbn [length]. lia.
Qed.

(** A position inside a text: every rune ahead has a width. *)
Definition positioned (s : mstate) : Prop := Forall (fun p => 1 <= p.2)%nat (ms_rest s).

Lemma reaches_positioned s s' : positioned s -> reaches s s' ->
  positioned s' /\ ms_off s <= ms_off s' /\
  (length (ms_rest s') <= length (ms_rest s))%nat /\ (ms_off s' <> ms_off s -> (length (ms_rest s') < length (ms_rest s))%nat).
Proof.
  unfold positioned. intros Hp (pre & E & O). rewrite E in *. apply Forall_app in Hp as [_ Hp]. pose proof (width_nonneg pre).
  rewrite length_app. split_and!; [done|lia|lia|]. intros Hne. destruct pre; [|cbn; lia]. unfold width in O. cbn in O. lia.
Qed.

Lemma advance_spec s s2 : positioned s -> advance s = Some s2 ->
  positioned s2 /\ ms_off s < ms_off s2 /\ length (ms_rest s) = S (length (ms_rest s2)).
Proof.
  unfold positioned, advance. destruct (ms_rest s) as [|[c w] rest]; [done|]. intros [Hw Hp]%Forall_cons [= <-].
  cbn in *. split_and!; [done|lia|done].
Qed.

(** ** Replacing is splicing the matches *)

(** [src] from [last] on, with [repl m] for every match [m]. *)
Fixpoint splice (src : list Z) (repl : submatch -> list Z) (ms : list submatch) (last : Z) : list Z :=
  match ms with
  | [] => lsub last (zlen src) src
  | m :: ms => lsub last (sm_start m) src ++ repl m ++ splice src repl ms (sm_end m)
  end.

Lemma lsub_none {A} lo (l : list A) : lsub lo lo l = [].
Proof. unfold lsub. by rewrite Z.sub_diag. Qed.

Lemma replaceLoop_splice fuel r src repl s prevEnd lastEnd :
  positioned s -> 0 <= lastEnd <= ms_off s ->
  (prevEnd = -1 /\ lastEnd = 0) \/ (prevEnd = lastEnd /\ 0 < ms_off s) ->
  replaceLoop fuel r src repl s lastEnd = splice src repl (allMatches fuel r s prevEnd) lastEnd.
Proof.
  revert s prevEnd lastEnd. induction fuel as [|fuel IH]; intros s prevEnd lastEnd Hp Hl Hprev; cbn [replaceLoop allMatches]; [done|].
  destruct (search r s) as [[start s']|] eqn:E; [|done]. cbv zeta.
  destruct (search_spec _ _ _ _ E) as (s1 & H1 & <- & H2).
  destruct (reaches_positioned _ _ Hp H1) as (Hp1 & Ho1 & _). destruct (reaches_positioned _ _ Hp1 H2) as (Hp2 & Ho2 & _).
  destruct (Z.eqb_spec (ms_off s') (ms_off s)) as [Ee|Ne].
  - assert (ms_off s1 = ms_off s) as E1 by lia. rewrite E1, Ee.
    assert (match advance s with Some s2 => replaceLoop fuel r src repl s2 (ms_off s) | None => lsub (ms_off s) (zlen src) src end =
      splice src repl (match advance s with Some s2 => allMatches fuel r s2 (ms_off s) | None => [] end) (ms_off s)) as Hrest.
    { destruct (advance s) as [s2|] eqn:Ea; [|done]. destruct (advance_spec _ _ Hp Ea) as (Hp3 & Ho3 & _). apply IH; [done|lia|right; lia]. }
    destruct (Z.eqb_spec (ms_off s) prevEnd) as [Er|Er]; cbn [app].
    + assert (lastEnd = ms_off s /\ 0 < ms_off s) as [El Hpos] by lia. rewrite El, lsub_none. cbn [app].
      replace (ms_off s <? ms_off s) with false by lia. replace (ms_off s =? 0) with false by lia. cbn [orb app]. exact Hrest.
    + replace ((lastEnd <? ms_off s) || (ms_off s =? 0)) with true by lia. cbn [splice sm_start sm_end]. by rewrite Hrest.
  - replace ((lastEnd <? ms_off s') || (ms_off s1 =? 0)) with true by lia. cbn [splice sm_start sm_end].
    rewrite (IH s' (ms_off s')); [done|done|lia|right; lia].
Qed.

Lemma allMatches_S fuel r s prevEnd :
  allMatches (S fuel) r s prevEnd =
  match search r s with
  | None => []
  | Some (start, s') =>
      if (ms_off s' =? ms_off s)
      then (if (start =? prevEnd) then [] else [Submatch start (ms_off s') (ms_caps s')]) ++
           match advance s with None => [] | Some s2 => allMatches fuel r s2 (ms_off s') end
      else Submatch start (ms_off s') (ms_caps s') :: allMatches fuel r s' (ms_off s')
  end.
Proof. done. Qed.

(** More fuel than there are runes ahead changes nothing: the loop has ended. *)
Lemma allMatches_fuel fuel r s prevEnd :
  positioned s -> (length (ms_rest s) < fuel)%nat ->
  allMatches (S fuel) r s prevEnd = allMatches fuel r s prevEnd.
Proof.
  revert s prevEnd. induction fuel as [|fuel IH]; intros s prevEnd Hp Hf; [lia|].
  rewrite (allMatches_S (S fuel)), (allMatches_S fuel).
  destruct (search r s) as [[start s']|] eqn:E; [|done].
  destruct (search_spec _ _ _ _ E) as (s1 & H1 & _ & H2).
  assert (reaches s s') as Hr by by eapply reaches_trans. destruct (reaches_positioned _ _ Hp Hr) as (Hp2 & Ho2 & _ & Hlt).
  destruct (Z.eqb_spec (ms_off s') (ms_off s)).
  - f_equal. destruct (advance s) as [s2|] eqn:Ea; [|done]. destruct (advance_spec _ _ Hp Ea) as (Hp3 & _ & Hlen). apply IH; [done|lia].
  - f_equal. apply IH; [done|]. specialize (Hlt ltac:(done)). lia.
Qed.

Lemma length_runes s : (length (runes s) <= length s)%nat.
Proof.
  induction s as [s IH] using (induction_ltof1 _ length). unfold ltof in IH. destruct s as [|b s]; [done|].
  rewrite runes_cons. pose proof (decode_width b s). cbn [length].
  specialize (IH (drop (decodeRune (b :: s)).2 (b :: s))). rewrite length_drop in IH. cbn [length] in IH. lia.
Qed.

(** The bound of [FindAll]'s loop is enough. *)
Lemma FindAll_enough r src n : FindAll r src = allMatches (n + S (length src)) r (start_state src) (-1).
Proof.
  unfold FindAll. induction n as [|n IH]; [done|]. rewrite Nat.add_succ_l, (allMatches_fuel (n + S (length src))); [done|apply runes_width|].
  cbn. pose proof (length_runes src). lia.
Qed.

Lemma ReplaceAllString_splice r src t : ReplaceAllString r src t = splice src (Expand t src) (FindAll r src) 0.
Proof. apply replaceLoop_splice; [apply runes_width|cbn; lia|by left]. Qed.
