(* ===== verification/Sanitizer.v ===== *)
(** * The log sanitizer (redact/sanitizer.go)

    Rules over the patterns of Regexp.v, the allowlist index, the control
    character backstop, truncation, and the passes of [Sanitize] up to its
    bound; with the rule sets the package ships. Strings are byte lists. *)
From stdpp Require Import sorting.
From S2P Require Import Prelude Bytes Pem Utf8 Regexp.

#[local] Open Scope Z_scope.

(** ** Data *)

Inductive Category : Type := CategoryInjection | CategorySecret | CategoryEntropy.
#[global] Instance Category_eq_dec : EqDecision Category.
Proof. solve_decision. Defined.

(** A nil [Filter] is [None]. *)
Record Rule : Type := MkRule {
  r_Name : list Z;
  r_Category : Category;
  r_Pattern : regex;
  r_Tag : list Z;
  r_Filter : option (list Z -> bool)
}.

Definition tag (r : Rule) : list Z :=
  if bool_decide (r_Tag r = []) then str "[REDACTED:" ++ r_Name r ++ str "]" else r_Tag r.

Record sanitizerConfig : Type := SanitizerConfig { sc_allowlist : list regex; sc_maxLen : Z }.
Definition SanitizerOption : Type := sanitizerConfig -> sanitizerConfig.

Record Sanitizer : Type := MkSanitizer {
  s_rules : list Rule;
  s_allowlist : list regex;
  s_maxLen : Z
}.

Definition truncatedTag : list Z := str "[REDACTED:truncated]".

Definition WithMaxLen (n : Z) : SanitizerOption := fun c => SanitizerConfig (sc_allowlist c) n.
Definition WithAllowlist (patterns : list regex) : SanitizerOption := fun c => SanitizerConfig patterns (sc_maxLen c).

Definition NewSanitizer (rules : list Rule) (opts : list SanitizerOption) : Sanitizer :=
  let cfg := foldl (fun c o => o c) (SanitizerConfig [] 4096) opts in
  MkSanitizer rules (sc_allowlist cfg) (sc_maxLen cfg).

(** ** Truncation *)

Definition HasSuffix (s suffix : list Z) : bool := HasPrefix (reverse s) (reverse suffix).

(** [for cut > 0 && !utf8.RuneStart(m[cut]) { cut-- }] *)
Fixpoint backup (m : list Z) (cut : nat) : nat :=
  match cut with
  | O => O
  | S c => if RuneStart (m !!! cut) then cut else backup m c
  end.

Definition truncate (s : Sanitizer) (m : list Z) : list Z :=
  if (s_maxLen s <=? 0) || (zlen m <=? s_maxLen s) then m
  else if HasSuffix m truncatedTag && (zlen m - zlen truncatedTag <=? s_maxLen s) then m
  else take (backup m (Z.to_nat (s_maxLen s))) m ++ truncatedTag.

(** ** Control characters *)

Definition invalidTag : list Z := str "[REDACTED:invalid_utf8]".
Definition controlTag : list Z := str "[REDACTED:control_char]".

Definition isControl (r : Z) : bool := (r <? 32) || (r =? 127) || inRange 128 159 r.

(** What a rune of the given width becomes, and whether that is a change. *)
Definition stripRune (p : Z * nat) : list Z * bool :=
  let '(r, w) := p in
  if (r =? RuneError) && (w =? 1)%nat then (invalidTag, true)
  else if isControl r then (controlTag, true)
  else (encodeRune r, false).

Definition stripNonPrintable (s : list Z) : list Z :=
  let parts := stripRune <$> runes s in
  if existsb snd parts then mjoin (fst <$> parts) else s.

(** ** The allowlist *)

Record allowIndex : Type := AllowIndex { ai_ends : list Z; ai_starts : list Z; ai_maxEnd : list Z }.

(** [sort.Search(n, f)] *)
Fixpoint sortSearch (fuel : nat) (i j : Z) (f : Z -> bool) : Z :=
  match fuel with
  | O => i
  | S fuel =>
      if (i <? j) then
        let h := (i + j) / 2 in
        if negb (f h) then sortSearch fuel (h + 1) j f else sortSearch fuel i h f
      else i
  end.
Definition SearchInts (a : list Z) (x : Z) : Z :=
  sortSearch (length a) 0 (zlen a) (fun i => x <=? a !!! Z.to_nat i).

(** The running maximum of the ends. *)
Fixpoint maxEnds (prev : option Z) (spans : list (Z * Z)) : list Z :=
  match spans with
  | [] => []
  | (_, e) :: spans =>
      let m := match prev with Some p => if (p <? e) then e else p | None => e end in
      m :: maxEnds (Some m) spans
  end.

Definition by_start (p q : Z * Z) : Prop := p.1 <= q.1.
#[global] Instance by_start_dec : RelDecision by_start.
Proof. intros p q. unfold by_start. apply _. Defined.

(** The index of spans sorted by start. *)
Definition index_of (spans : list (Z * Z)) : allowIndex :=
  AllowIndex (merge_sort Z.le (snd <$> spans)) (fst <$> spans) (maxEnds None spans).

Definition allowSpans (allow : list regex) (message : list Z) : list (Z * Z) :=
  allow ≫= fun a => (fun m => (sm_start m, sm_end m)) <$> FindAll a message.

Definition indexAllowlist (s : Sanitizer) (message : list Z) : allowIndex :=
  let spans := allowSpans (s_allowlist s) message in
  if bool_decide (spans = []) then AllowIndex [] [] []
  else index_of (merge_sort by_start spans).

Definition exempts (a : allowIndex) (start end_ : Z) : bool :=
  if bool_decide (ai_ends a = []) then false
  else
  let i := SearchInts (ai_ends a) start in
  if (i <? zlen (ai_ends a)) && (ai_ends a !!! Z.to_nat i =? start) then true
  else
  let i := SearchInts (ai_starts a) (start + 1) - 1 in
  (0 <=? i) && (end_ <=? ai_maxEnd a !!! Z.to_nat i).

(** ** Rules *)

(** The loop over the matches, from [lastEnd] on. *)
Fixpoint applyMatches (keep : submatch -> bool) (repl : submatch -> list Z) (message : list Z) (ms : list submatch) (lastEnd : Z) : list Z :=
  match ms with
  | [] => lsub lastEnd (zlen message) message
  | m :: ms =>
      if keep m then applyMatches keep repl message ms lastEnd
      else lsub lastEnd (sm_start m) message ++ repl m ++ applyMatches keep repl message ms (sm_end m)
  end.

Definition applyRule (s : Sanitizer) (message : list Z) (rule : Rule) : list Z :=
  let gated := bool_decide (r_Category rule = CategoryEntropy) && negb (bool_decide (s_allowlist s = [])) in
  match gated, r_Filter rule with
  | false, None => ReplaceAllString (r_Pattern rule) message (tag rule)
  | _, _ =>
      let matches := FindAll (r_Pattern rule) message in
      if bool_decide (matches = []) then message
      else
      let allow := if gated then indexAllowlist s message else AllowIndex [] [] [] in
      applyMatches
        (fun m => (gated && exempts allow (sm_start m) (sm_end m))
                  || match r_Filter rule with
                     | Some f => negb (f (lsub (sm_start m) (sm_end m) message))
                     | None => false
                     end)
        (Expand (tag rule) message) message matches 0
  end.

(** ** Passes *)

Definition maxSanitizePasses : nat := 16.

Definition onePass (s : Sanitizer) (message : list Z) : list Z :=
  truncate s (stripNonPrintable (foldl (applyRule s) message (s_rules s))).

Fixpoint passes (n : nat) (s : Sanitizer) (prev : list Z) : list Z :=
  match n with
  | O => prev
  | S n => let cur := onePass s prev in
           if bool_decide (cur = prev) then cur else passes n s cur
  end.

Definition Sanitize (s : Sanitizer) (message : list Z) : list Z :=
  if bool_decide (message = []) then message else passes maxSanitizePasses s (truncate s message).

(** ** The rules of the package *)

(** A Go raw string. It cannot contain a backquote, so one stands for the
    double quote here. *)
Definition raw (s : string) : list Z := (fun c => if (c =? 96) then 34 else c) <$> str s.
(** [regexp.MustCompile] of a pattern that compiles. *)
Definition MustCompile (s : list Z) : regex := default Eps (Compile s).

Definition credSep : list Z := raw "(?:\\?`|'|\]|%5[dD])?\s*(?:=>|[=:]|%3[dDaA])\s*".
Definition credValue : list Z := raw "(?:\\`(?:[^`\\]|\\[^`])*\\`|`(?:[^`\\]|\\.)*`|'[^']*'|\S+)".
Definition credPattern (field : list Z) : list Z := raw "(?i)" ++ field ++ credSep ++ credValue.
Definition credRe (field : list Z) : regex := MustCompile (credPattern field).

Definition passwordNames : list Z := raw "(?:password|passwd|passphrase|(?:\b|_)pass|(?:\b|_)pwd)".
Definition secretNames : list Z := raw "(?:secret(?:[_-]?access)?(?:[_-]?key)?|(?:\b|_)private[_-]?key|(?:\b|_)signing[_-]?key|credentials?)".
Definition tokenNames : list Z := raw "(?:token|(?:\b|_)bearer)".
Definition apiKeyNames : list Z := raw "(?:\b|_)api[_-]?key".
Definition authNames : list Z := raw "auth".

Definition pemKeyPattern : list Z := raw "-----BEGIN [A-Z ]*PRIVATE KEY-----(?:[\s\S]*?-----END [A-Z ]*PRIVATE KEY-----)?".
Definition authorizationPattern : list Z :=
  raw "(?i)(?:\b|_)(?:proxy[_-])?authorization" ++ credSep ++
  raw "(?:\\`(?:[^`\\]|\\[^`])*\\`|`(?:[^`\\]|\\.)*`|'[^']*'|\[[^\]]*\]|(?:[\[`']*[a-z0-9_-]+\s+)?\S+)".
Definition cookiePattern : list Z :=
  raw "(?i)(?:\b|_)(?:set[_-])?cookies?" ++ credSep ++
  raw "(?:\\`(?:[^`\\]|\\[^`])*\\`|`(?:[^`\\]|\\.)*`|'[^']*'|[^\s;]+(?:;\s*[^\s;]+)*)".
Definition urlPasswordPattern : list Z := raw "(?i)(\b[a-z][a-z0-9+.-]*://[^\s/?#@:]*:)[^\s/?#@]+@".
Definition urlQueryPattern : list Z :=
  raw "(?i)([?&](?:code|token|access_token|id_token|refresh_token|" ++
  raw "client_secret|secret|password|passwd|pwd|api_key|apikey|key|sig|signature|" ++
  raw "x-amz-signature|x-amz-security-token|auth|authorization)=)[^\s&#`']+".
Definition jwtPattern : list Z := raw "\beyJ[A-Za-z0-9_-]{8,}\.eyJ[A-Za-z0-9_-]{8,}\.[A-Za-z0-9_-]{8,}".
Definition bearerPattern : list Z := raw "(?i)\bbearer\s+[A-Za-z0-9._~+/=-]{20,}".
Definition crlfPattern : list Z := raw "[\r\n]+".
Definition ansiPattern : list Z := raw "\x1b\[[0-9;]*[a-zA-Z]".
Definition shellVarPattern : list Z := raw "\$\{[^}]*\}".
Definition shellCmdPattern : list Z := raw "\$\([^)]*\)".
Definition base64Pattern : list Z := raw "[A-Za-z0-9+/_-]{40,}={0,2}".
Definition hexPattern : list Z := raw "\b(?:0[xX])?[0-9a-fA-F]{40,}\b".

(** The loop over the bytes, with the three flags. *)
Fixpoint mixedRun (m : list Z) (digit upper lower : bool) : bool :=
  match m with
  | [] => false
  | c :: m =>
      let digit := digit || inRange 48 57 c in
      let upper := upper || inRange 65 90 c in
      let lower := lower || inRange 97 122 c in
      if digit && upper && lower then true else mixedRun m digit upper lower
  end.
Definition looksLikeBase64Secret (m : list Z) : bool :=
  if HasSuffix m (str "=") then true else mixedRun m false false false.

Definition secret (name : string) (pattern : list Z) : Rule :=
  MkRule (str name) CategorySecret (MustCompile pattern) [] None.
Definition injection (name : string) (pattern : list Z) : Rule :=
  MkRule (str name) CategoryInjection (MustCompile pattern) [] None.

Definition DefaultRules : list Rule := [
  secret "pem_private_key" pemKeyPattern;
  secret "authorization_header" authorizationPattern;
  secret "cookie_header" cookiePattern;
  MkRule (str "url_password") CategorySecret (MustCompile urlPasswordPattern) (str "${1}[REDACTED:url_password]@") None;
  secret "password_field" (credPattern passwordNames);
  secret "secret_field" (credPattern secretNames);
  secret "token_field" (credPattern tokenNames);
  secret "api_key_field" (credPattern apiKeyNames);
  secret "auth_field" (credPattern authNames);
  MkRule (str "url_query_credential") CategorySecret (MustCompile urlQueryPattern) (str "${1}[REDACTED:url_query_credential]") None;
  secret "jwt" jwtPattern;
  secret "bearer_token" bearerPattern;
  injection "crlf_injection" crlfPattern;
  injection "ansi_escape" ansiPattern;
  injection "shell_variable" shellVarPattern;
  injection "shell_command" shellCmdPattern;
  MkRule (str "base64_secret") CategoryEntropy (MustCompile base64Pattern) [] (Some looksLikeBase64Secret);
  MkRule (str "hex_secret") CategoryEntropy (MustCompile hexPattern) [] None].

Definition CommonProviderPatterns : list (string * list Z) := [
  ("github_pat"%string, raw "ghp_[a-zA-Z0-9]{36}");
  ("github_oauth"%string, raw "gho_[a-zA-Z0-9]{36}");
  ("github_user"%string, raw "ghu_[a-zA-Z0-9]{36}");
  ("github_server"%string, raw "ghs_[a-zA-Z0-9]{36}");
  ("github_refresh"%string, raw "ghr_[a-zA-Z0-9]{36}");
  ("github_fine_grained_pat"%string, raw "github_pat_[a-zA-Z0-9_]{22,}");
  ("gitlab_pat"%string, raw "glpat-[a-zA-Z0-9_-]{20,}");
  ("openai_key"%string, raw "\bsk-(?:[a-z]+-)*[a-zA-Z0-9_-]{20,}");
  ("aws_access_key_id"%string, raw "\b(?:AKIA|ASIA)[0-9A-Z]{16}\b");
  ("aws_secret_access_key"%string, raw "(?i)(?:aws[_-]?)?secret[_-]?access[_-]?key" ++ credSep ++ raw "(?:\\?`|')?[A-Za-z0-9/+]{40}");
  ("slack_token"%string, raw "\bxox[baprs]-[0-9A-Za-z-]{10,}\b")].
Definition CommonProviderRules : list Rule := (fun p => secret p.1 p.2) <$> CommonProviderPatterns.

Definition allowPatterns : list (list Z) :=
  (fun s => raw "(?i)" ++ str s ++ raw "[=:\s]+") <$>
  ["commit"; "container_id"; "build_id"; "request_id"; "trace_id"; "span_id"; "fingerprint"]%string.
Definition DefaultAllowlist : list regex := MustCompile <$> allowPatterns.

Definition NewDefaultSanitizer : Sanitizer := NewSanitizer DefaultRules [WithAllowlist DefaultAllowlist].
Definition NewStrictSanitizer : Sanitizer := NewSanitizer DefaultRules [].
Definition InjectionOnlyRules : list Rule := filter (fun r => r_Category r = CategoryInjection) DefaultRules.

(** ** The output of a pass *)

(** Text a log line may carry: valid UTF-8 without C0, DEL or C1. *)
Definition graphic (r : Z) : Prop := 32 <= r /\ r <> 127 /\ ~ 128 <= r <= 159.
Definition printable (s : list Z) : Prop :=
  exists rs, Forall (fun r => scalar r /\ graphic r) rs /\ s = mjoin (encodeRune <$> rs).

Lemma isControl_spec r : isControl r = false <-> graphic r.
Proof. unfold isControl, graphic, inRange. lia. Qed.

Lemma printable_app s t : printable s -> printable t -> printable (s ++ t).
Proof.
  intros (rs & Hr & ->) (rt & Ht & ->). exists (rs ++ rt). rewrite fmap_app, join_app. split; [by apply Forall_app|done].
Qed.

Lemma printable_rune r : scalar r -> isControl r = false -> printable (encodeRune r).
Proof. intros ? ?%isControl_spec. exists [r]. split; [by apply Forall_singleton|]. cbn. by rewrite app_nil_r. Qed.

Lemma printable_ascii s : forallb (fun b => inRange 32 126 b) s = true -> printable s.
Proof.
  intros H. exists s. assert (Forall (fun b => 32 <= b <= 126) s) as F.
  { apply Forall_forall. intros x Hx. apply list_elem_of_In in Hx. rewrite forallb_forall in H. by apply inRange_spec, H. }
  split; [|apply ascii_encode; eapply Forall_impl; [exact F|]; cbv beta; intros; lia].
  eapply Forall_impl; [exact F|]. cbv beta. intros x Hx. split; [apply encode_one; lia|]. unfold graphic. lia.
Qed.

Lemma join_cons {A} (x : list A) l : mjoin (x :: l) = x ++ mjoin l.
Proof. done. Qed.
Lemma existsb_cons {A} (f : A -> bool) x l : existsb f (x :: l) = f x || existsb f l.
Proof. done. Qed.

Lemma strip_parts s :
  printable (mjoin (fst <$> (stripRune <$> runes s))) /\
  (existsb snd (stripRune <$> runes s) = false -> mjoin (fst <$> (stripRune <$> runes s)) = s).
Proof.
  induction s as [s IH] using (induction_ltof1 _ length). unfold ltof in IH. destruct s as [|b s]; [split; [by exists []|done]|].
  assert (forall p t, runes (b :: s) = p :: runes t -> (length t < length (b :: s))%nat -> printable (stripRune p).1 ->
    ((stripRune p).2 = false -> b :: s = (stripRune p).1 ++ t) ->
    printable (mjoin (fst <$> (stripRune <$> runes (b :: s)))) /\
    (existsb snd (stripRune <$> runes (b :: s)) = false -> mjoin (fst <$> (stripRune <$> runes (b :: s))) = b :: s)) as Hstep.
  { intros p t -> Hlt Hp Heq. destruct (IH t Hlt) as [IH1 IH2]. rewrite !fmap_cons, join_cons, existsb_cons.
    split; [by apply printable_app|]. intros [E1 E2]%orb_false_iff. rewrite IH2 by done. symmetry. by apply Heq. }
  destruct (decode_spec b s) as [(r & t & Hr & Es & Ed)|[[Ed Hb]|[Ed Hb]]].
  - assert ((r =? RuneError) && (length (encodeRune r) =? 1)%nat = false) as E1.
    { destruct (Z.eqb_spec r RuneError) as [->|]; [|done]. reflexivity. }
    apply (Hstep (r, length (encodeRune r)) t); unfold stripRune; rewrite ?E1.
    + rewrite Es. by apply runes_encode.
    + rewrite Es, length_app. pose proof (zlen_encodeRune r). unfold zlen in *. lia.
    + destruct (isControl r) eqn:Ec; [by apply printable_ascii|by apply printable_rune].
    + by destruct (isControl r).
  - apply (Hstep (RuneError, 1%nat) s); [by rewrite runes_cons, Ed|cbn; lia|by apply printable_ascii|done].
  - assert ((b =? RuneError) = false) as E1 by (unfold RuneError; lia). assert (isControl b = true) as E2 by (unfold isControl; lia).
    apply (Hstep (b, 1%nat) s); unfold stripRune; rewrite ?E1, ?E2; [by rewrite runes_cons, Ed|cbn; lia|by apply printable_ascii|done].
Qed.

Lemma strip_printable s : printable (stripNonPrintable s).
Proof.
  unfold stripNonPrintable. destruct (strip_parts s) as [H1 H2]. destruct (existsb _ _) eqn:E; [done|]. by rewrite <- (H2 eq_refl).
Qed.

(** Printable text is left alone. *)
Lemma strip_fixed s : printable s -> stripNonPrintable s = s.
Proof.
  intros (rs & Hr & ->). unfold stripNonPrintable. assert (existsb snd (stripRune <$> runes (mjoin (encodeRune <$> rs))) = false) as ->; [|done].
  induction Hr as [|r rs [Hs Hc%isControl_spec] _ IH]; [done|]. cbn [fmap list_fmap mjoin list_join]. rewrite runes_encode by done.
  cbn [fmap list_fmap existsb]. fold (@fmap list _ _ _ stripRune). rewrite orb_false_iff. split; [|done].
  unfold stripRune. rewrite Hc. destruct (Z.eqb_spec r RuneError) as [->|]; done.
Qed.

(** ** Truncation *)

Lemma backup_spec m cut :
  (backup m cut <= cut)%nat /\ (backup m cut = 0%nat \/ RuneStart (m !!! backup m cut) = true).
Proof.
  induction cut as [|c IH]; cbn [backup]; [by split; [|left]|]. destruct (RuneStart (m !!! S c)) eqn:E; [by split; [|right]|].
  destruct IH as [? ?]. split; [lia|done].
Qed.

Lemma truncate_printable s m : printable m -> printable (truncate s m).
Proof.
  intros Hm. unfold truncate. destruct (_ || _); [done|]. destruct (_ && _); [done|]. set (cut := Z.to_nat (s_maxLen s)).
  apply printable_app; [|by apply printable_ascii]. destruct Hm as (rs & Hr & ->). destruct (backup_spec (mjoin (encodeRune <$> rs)) cut) as [_ Hb].
  destruct (encoded_cut rs (backup (mjoin (encodeRune <$> rs)) cut)) as [k Hk].
  - eapply Forall_impl; [exact Hr|]. by intros ? [].
  - intros b Hl. destruct Hb as [Hb|Hb].
    + rewrite Hb in Hl. destruct Hr as [|r rs [Hs _] _]; [done|]. cbn [fmap list_fmap mjoin list_join] in Hl.
      pose proof (encodeRune_nonempty r). destruct (encodeRune r) as [|x l] eqn:E; [done|]. injection Hl as <-.
      eapply (encode_inside r 0); [done| |done]. by rewrite E.
    + by rewrite (list_lookup_total_correct _ _ _ Hl) in Hb.
  - rewrite Hk. exists (take k rs). split; [by apply Forall_take|done].
Qed.

Lemma truncate_length s m : 0 < s_maxLen s -> zlen (truncate s m) <= s_maxLen s + zlen truncatedTag.
Proof.
  intros Hp. assert (0 <= zlen truncatedTag) by apply zlen_nonneg. unfold truncate. destruct (Z.leb_spec (s_maxLen s) 0); [lia|].
  destruct (Z.leb_spec (zlen m) (s_maxLen s)); cbn [orb]; [lia|].
  destruct (HasSuffix m truncatedTag); cbn [andb]; [destruct (Z.leb_spec (zlen m - zlen truncatedTag) (s_maxLen s)); [lia|]|];
    (rewrite zlen_app; destruct (backup_spec m (Z.to_nat (s_maxLen s))) as [Hb _]; unfold zlen; rewrite length_take; lia).
Qed.

Lemma HasSuffix_app a b : HasSuffix (a ++ b) b = true.
Proof. unfold HasSuffix. rewrite reverse_app. apply HasPrefix_app. Qed.

Lemma truncate_idem s m : truncate s (truncate s m) = truncate s m.
Proof.
  assert (forall x, truncate s m = x -> (x = m \/ exists k, (k <= Z.to_nat (s_maxLen s))%nat /\ x = take k m ++ truncatedTag /\ 0 < s_maxLen s) ->
    truncate s x = x) as Hx.
  { intros x Ex [->|(k & Hk & -> & Hp)]; [done|]. unfold truncate. rewrite HasSuffix_app, zlen_app.
    replace (zlen (take k m) + zlen truncatedTag - zlen truncatedTag <=? s_maxLen s) with true; [by destruct (_ || _)|].
    symmetry. apply Z.leb_le. unfold zlen. rewrite length_take. lia. }
  apply Hx; [done|]. unfold truncate. destruct (Z.leb_spec (s_maxLen s) 0); [by left|]. destruct (zlen m <=? s_maxLen s); [by left|].
  cbn [orb]. destruct (_ && _); [by left|]. right. eexists. split; [apply backup_spec|]. done.
Qed.

(** ** Passes *)

Lemma onePass_printable s m : printable (onePass s m).
Proof. apply truncate_printable, strip_printable. Qed.

(** The passes iterate [onePass]; they end at a fixpoint or at the bound,
    every one of them having changed the text. *)
Lemma passes_spec n s x :
  exists k, (k <= n)%nat /\ passes n s x = Nat.iter k (onePass s) x /\
    (0 < n -> 0 < k)%nat /\
    (onePass s (passes n s x) = passes n s x \/
     k = n /\ forall j, (j < n)%nat -> Nat.iter (S j) (onePass s) x <> Nat.iter j (onePass s) x).
Proof.
  revert x. induction n as [|n IH]; intros x; cbn [passes].
  - exists 0%nat. split_and!; [done|done|lia|right; split; [done|lia]].
  - case_bool_decide as E.
    + exists 1%nat. split_and!; [lia|done|lia|left; by rewrite !E].
    + destruct (IH (onePass s x)) as (k & Hk & Ek & _ & Hor). exists (S k). split_and!; [lia| |lia|].
      * rewrite Ek. by rewrite <- Nat.iter_succ_r.
      * destruct Hor as [?|[-> Hj]]; [by left|right]. split; [done|]. intros [|j] Hlt; [done|].
        specialize (Hj j ltac:(lia)). by rewrite <- !Nat.iter_succ_r in Hj.
Qed.

(** ** The allowlist index *)

Lemma sortSearch_spec n f fuel i j :
  (forall h h', 0 <= h <= h' -> h' < n -> f h = true -> f h' = true) ->
  0 <= i <= j -> j <= n -> (Z.to_nat (j - i) <= fuel)%nat ->
  (forall h, 0 <= h < i -> f h = false) -> (forall h, j <= h < n -> f h = true) ->
  0 <= sortSearch fuel i j f <= n /\ (forall h, 0 <= h < sortSearch fuel i j f -> f h = false) /\
  (forall h, sortSearch fuel i j f <= h < n -> f h = true).
Proof.
  intros Hm. revert i j. induction fuel as [|fuel IH]; intros i j Hij Hj Hf Hlo Hhi; cbn [sortSearch].
  - assert (i = j) as -> by lia. split; [lia|done].
  - destruct (Z.ltb_spec i j); [|assert (i = j) as -> by lia; split; [lia|done]].
    assert (i <= (i + j) / 2 < j) by (split; [apply Z.div_le_lower_bound|apply Z.div_lt_upper_bound]; lia).
    set (h := (i + j) / 2) in *. clearbody h. destruct (f h) eqn:E; cbn [negb].
    + apply IH; [lia|lia|lia|done|]. intros x Hx. apply (Hm h); [lia|lia|done].
    + apply IH; [lia|lia|lia| |done]. intros x Hx. destruct (f x) eqn:Ex; [|done].
      rewrite (Hm x h) in E; [done|lia|lia|done].
Qed.

Lemma sorted_lookup (a : list Z) (i j : nat) x y :
  StronglySorted Z.le a -> (i <= j)%nat -> a !! i = Some x -> a !! j = Some y -> x <= y.
Proof.
  intros Hs. revert i j. induction Hs as [|z a Hs IH Hz]; intros i j Hij Hi Hj; [done|].
  destruct i as [|i], j as [|j]; [cbn in *; simplify_eq; lia| |lia|].
  - cbn in Hi, Hj. simplify_eq. rewrite Forall_forall in Hz. apply Hz. by eapply list_elem_of_lookup_2.
  - apply (IH i j); [lia|done|done].
Qed.

(** In a sorted list the search answers how many elements are smaller. *)
Lemma SearchInts_spec a x :
  StronglySorted Z.le a ->
  0 <= SearchInts a x <= zlen a /\
  forall j y, a !! j = Some y -> (y < x <-> Z.of_nat j < SearchInts a x).
Proof.
  intros Hs. unfold SearchInts.
  destruct (sortSearch_spec (zlen a) (fun i => x <=? a !!! Z.to_nat i) (length a) 0 (zlen a)) as (Hk & Hlo & Hhi).
  - intros h h' Hh Hn Hle. apply Z.leb_le in Hle. apply Z.leb_le. unfold zlen in Hn.
    destruct (lookup_lt_is_Some_2 a (Z.to_nat h) ltac:(lia)) as [y Hy]. destruct (lookup_lt_is_Some_2 a (Z.to_nat h') ltac:(lia)) as [y' Hy'].
    rewrite (list_lookup_total_correct _ _ _ Hy) in Hle. rewrite (list_lookup_total_correct _ _ _ Hy').
    pose proof (sorted_lookup a (Z.to_nat h) (Z.to_nat h') y y' Hs ltac:(lia) Hy Hy'). lia.
  - unfold zlen. lia.
  - lia.
  - unfold zlen. lia.
  - lia.
  - lia.
  - set (k := sortSearch _ _ _ _) in *. split; [exact Hk|]. intros j y Hy. pose proof (lookup_lt_Some _ _ _ Hy) as Hlt.
    assert (a !!! Z.to_nat (Z.of_nat j) = y) as Ht by (rewrite Nat2Z.id; by apply list_lookup_total_correct).
    split; intros Hc.
    + destruct (Z.ltb_spec (Z.of_nat j) k); [done|]. specialize (Hhi (Z.of_nat j) ltac:(unfold zlen; lia)). cbv beta in Hhi. rewrite Ht in Hhi. lia.
    + specialize (Hlo (Z.of_nat j) ltac:(lia)). cbv beta in Hlo. rewrite Ht in Hlo. lia.
Qed.

Lemma SearchInts_found a x :
  StronglySorted Z.le a ->
  (SearchInts a x <? zlen a) && (a !!! Z.to_nat (SearchInts a x) =? x) = true <-> x ∈ a.
Proof.
  intros Hs. destruct (SearchInts_spec a x Hs) as [Hk Hj]. set (k := SearchInts a x) in *. clearbody k. rewrite andb_true_iff, Z.ltb_lt, Z.eqb_eq. split.
  - intros [Hlt Ex]. unfold zlen in Hlt. destruct (lookup_lt_is_Some_2 a (Z.to_nat k) ltac:(lia)) as [y Hy].
    rewrite (list_lookup_total_correct _ _ _ Hy) in Ex. subst. by eapply list_elem_of_lookup_2.
  - intros [j Hx]%list_elem_of_lookup. pose proof (lookup_lt_Some _ _ _ Hx). pose proof (proj2 (Hj j x Hx)) as Hn.
    assert (k <= Z.of_nat j) by (destruct (Z.leb_spec k (Z.of_nat j)); [done|]; apply Hj in Hx as [_ Hx]; lia).
    split; [unfold zlen; lia|]. destruct (lookup_lt_is_Some_2 a (Z.to_nat k) ltac:(lia)) as [y Hy].
    rewrite (list_lookup_total_correct _ _ _ Hy). pose proof (sorted_lookup a (Z.to_nat k) j y x Hs ltac:(lia) Hy Hx) as Hle.
    destruct (Z.ltb_spec y x) as [Hyx|]; [|lia]. apply (Hj _ _ Hy) in Hyx. lia.
Qed.

Lemma length_maxEnds prev spans : length (maxEnds prev spans) = length spans.
Proof. revert prev. induction spans as [|[a e] spans IH]; intros prev; cbn; [done|]. by rewrite IH. Qed.

Lemma maxEnds_spec prev spans (i : nat) m e :
  maxEnds prev spans !! i = Some m ->
  (e <= m <-> (exists p, prev = Some p /\ e <= p) \/ exists sp, sp ∈ take (S i) spans /\ e <= sp.2).
Proof.
  revert prev i. induction spans as [|[a b] spans IH]; intros prev i; cbn [maxEnds]; [done|].
  set (m0 := match prev with Some p => if p <? b then b else p | None => b end).
  assert (e <= m0 <-> (exists p, prev = Some p /\ e <= p) \/ e <= b) as H0.
  { unfold m0. destruct prev as [p|]; [|naive_solver]. destruct (Z.ltb_spec p b); split; [by right| |left; eauto|]; intros [(? & [= <-] & ?)|?]; lia. }
  destruct i as [|i]; cbn [lookup list_lookup].
  - intros [= <-]. rewrite H0. cbn [take]. split; (intros [?|Hb]; [by left|right]); [exists (a, b); split; [left|done]|].
    destruct Hb as (sp & [->|Hn]%elem_of_cons & ?); [done|]. rewrite take_0 in Hn. by apply elem_of_nil in Hn.
  - intros Hl. rewrite (IH (Some m0) i Hl). cbn [take]. split.
    + intros [(p & [= <-] & Hp)|(sp & Hsp & ?)]; [apply H0 in Hp as [?|?]; [by left|right; exists (a, b); split; [left|done]]|].
      right. exists sp. split; [by right|done].
    + intros [?|(sp & [->|Hsp]%elem_of_cons & ?)]; [left; exists m0; split; [done|]; apply H0; by left| |right; eauto].
      left. exists m0. split; [done|]. apply H0. by right.
Qed.

(** An allowlist match spares a span: it ends where the span begins, or holds
    all of it. *)
Definition spares (sp : Z * Z) (start end_ : Z) : Prop := sp.2 = start \/ sp.1 <= start /\ end_ <= sp.2.

#[global] Instance by_start_total : Total by_start.
Proof. intros p q. unfold by_start. lia. Qed.
#[global] Instance by_start_trans : Transitive by_start.
Proof. intros p q r. unfold by_start. lia. Qed.

(** On any order of the spans that is sorted by start. *)
Lemma index_exact spans start end_ :
  StronglySorted by_start spans -> spans <> [] ->
  exempts (index_of spans) start end_ = true <-> exists sp, sp ∈ spans /\ spares sp start end_.
Proof.
  intros Hs Hne. unfold exempts, index_of. cbn [ai_ends ai_starts ai_maxEnd].
  pose proof (merge_sort_Permutation Z.le (snd <$> spans)) as Hp.
  assert (StronglySorted Z.le (merge_sort Z.le (snd <$> spans))) as Hse by (apply StronglySorted_merge_sort; apply _).
  set (ends := merge_sort Z.le (snd <$> spans)) in *. clearbody ends.
  rewrite bool_decide_false by (intros ->; apply Permutation_nil in Hp; by destruct spans).
  destruct ((SearchInts ends start <? zlen ends) && _) eqn:E.
  { apply SearchInts_found in E; [|done]. rewrite Hp in E. apply list_elem_of_fmap in E as (sp & -> & Hsp).
    split; [|done]. intros _. exists sp. split; [done|by left]. }
  assert (start ∉ (snd <$> spans)) as Hn.
  { rewrite <- Hp. intros Hin. apply SearchInts_found in Hin; [|done]. by rewrite Hin in E. }
  assert (StronglySorted Z.le (fst <$> spans)) as Hss.
  { clear -Hs. induction Hs as [|p l Hs IH Hp]; cbn; constructor; [done|]. apply Forall_fmap. eapply Forall_impl; [exact Hp|]. done. }
  destruct (SearchInts_spec (fst <$> spans) (start + 1) Hss) as [Hk Hj]. set (k := SearchInts (fst <$> spans) (start + 1)) in *. clearbody k.
  assert (forall (j : nat) sp, spans !! j = Some sp -> sp.1 <= start <-> Z.of_nat j < k) as Hj'.
  { intros j sp Hsp. rewrite <- (Hj j sp.1) by (by rewrite list_lookup_fmap, Hsp). lia. }
  clear Hj. unfold zlen in Hk. rewrite length_fmap in Hk. rewrite andb_true_iff, !Z.leb_le. split.
  - intros [Hk1 Hm]. destruct (lookup_lt_is_Some_2 (maxEnds None spans) (Z.to_nat (k - 1))) as [m Hl]; [rewrite length_maxEnds; lia|].
    rewrite (list_lookup_total_correct _ _ _ Hl) in Hm. apply (maxEnds_spec _ _ _ _ _ Hl) in Hm as [(p & ? & _)|(sp & Hsp & He)]; [done|].
    exists sp. apply list_elem_of_lookup in Hsp as [j Hsp]. apply lookup_take_Some in Hsp as [Hsp Hlt].
    split; [by eapply list_elem_of_lookup_2|]. right. split; [|done]. apply (Hj' j sp Hsp). lia.
  - intros (sp & Hsp & [<-|[Hst He]]); [destruct Hn; by apply list_elem_of_fmap_2|].
    apply list_elem_of_lookup in Hsp as [j Hsp]. pose proof (proj1 (Hj' j sp Hsp) Hst) as Hlt. split; [lia|].
    destruct (lookup_lt_is_Some_2 (maxEnds None spans) (Z.to_nat (k - 1))) as [m Hl]; [rewrite length_maxEnds; lia|].
    rewrite (list_lookup_total_correct _ _ _ Hl). apply (maxEnds_spec _ _ _ _ _ Hl). right. exists sp. split; [|done].
    eapply list_elem_of_lookup_2. apply lookup_take_Some. split; [exact Hsp|lia].
Qed.

Lemma exempts_exact s message start end_ :
  exempts (indexAllowlist s message) start end_ = true <->
  exists sp, sp ∈ allowSpans (s_allowlist s) message /\ spares sp start end_.
Proof.
  unfold indexAllowlist. set (spans := allowSpans _ _). case_bool_decide as E.
  - rewrite E. unfold exempts. cbn. split; [done|]. by intros (sp & ?%elem_of_nil & _).
  - pose proof (merge_sort_Permutation by_start spans) as Hp. rewrite index_exact.
    + by setoid_rewrite Hp.
    + apply StronglySorted_merge_sort; apply _.
    + intros En. rewrite En in Hp. apply E. by apply Permutation_nil.
Qed.

(** ** One rule *)

(** A match the rule leaves in the text. *)
Definition spared (s : Sanitizer) (message : list Z) (rule : Rule) (m : submatch) : Prop :=
  r_Category rule = CategoryEntropy /\
    (exists sp, sp ∈ allowSpans (s_allowlist s) message /\ spares sp (sm_start m) (sm_end m)) \/
  exists f, r_Filter rule = Some f /\ f (lsub (sm_start m) (sm_end m) message) = false.

Lemma applyMatches_splice keep repl message ms lastEnd :
  applyMatches keep repl message ms lastEnd = splice message repl (filter (fun m => keep m = false) ms) lastEnd.
Proof.
  revert lastEnd. induction ms as [|m ms IH]; intros lastEnd; cbn [applyMatches]; [done|]. rewrite filter_cons.
  destruct (keep m) eqn:E; [rewrite decide_False by congruence; apply IH|rewrite decide_True by done]. cbn [splice]. by rewrite IH.
Qed.

(** One rule replaces exactly the matches it should: the result is the
    message with the expanded tag in the place of every match of the pattern,
    left to right, that is not spared, and the text between them as it was. A
    match is spared by the rule's filter or, for an entropy rule, by an
    allowlist match that ends where it begins or contains it; the index with
    its two binary searches answers that question exactly, and the plain
    ReplaceAllString of an ungated rule is the same computation. *)
Theorem apply_rule_exact s message rule :
  exists kept, applyRule s message rule = splice message (Expand (tag rule) message) kept 0 /\
    kept `sublist_of` FindAll (r_Pattern rule) message /\
    forall m, m ∈ FindAll (r_Pattern rule) message -> (m ∈ kept <-> ~ spared s message rule m).
Proof.
  unfold applyRule, spared. set (ms := FindAll _ _). set (gated := bool_decide _ && _).
  assert (forall m, gated && exempts (indexAllowlist s message) (sm_start m) (sm_end m) = true <->
    r_Category rule = CategoryEntropy /\
    exists sp, sp ∈ allowSpans (s_allowlist s) message /\ spares sp (sm_start m) (sm_end m)) as Hg.
  { intros m. rewrite andb_true_iff, exempts_exact. unfold gated. rewrite andb_true_iff, bool_decide_eq_true, negb_true_iff, bool_decide_eq_false.
    split; [tauto|]. intros [? (sp & Hsp & Hs)]. split; [|by eauto]. split; [done|]. intros En. rewrite En in Hsp. by apply elem_of_nil in Hsp. }
  destruct gated eqn:Egated, (r_Filter rule) as [f|] eqn:Ef; cbn [andb orb] in *.
  4: { exists ms. split; [apply ReplaceAllString_splice|]. split; [done|]. intros m Hm. split; [|done]. intros _ [Hc|(f & [=] & _)]. by apply Hg in Hc. }
  all: (case_bool_decide as En; [exists []; rewrite En; split; [cbn; by rewrite lsub_full|split; [done|by intros ? ?%elem_of_nil]]|]);
    (eexists; split; [apply applyMatches_splice|]; split; [apply sublist_filter|]);
    intros m Hm; rewrite list_elem_of_filter; specialize (Hg m); cbv beta in *; rewrite ?orb_false_iff, ?orb_false_r;
    (split; [intros [E _]|intros Hn; split; [|done]]).
  - destruct E as [E1 E2]. intros [Hp|(g & [= <-] & E3)]; [apply Hg in Hp; congruence|by rewrite E3 in E2].
  - split; [apply not_true_iff_false; intros Hp; apply Hn; left; by apply Hg|].
    apply negb_false_iff, not_false_iff_true. intros E. apply Hn. right. eauto.
  - destruct E as [E _]. intros [Hp|(g & [=] & _)]. apply Hg in Hp. congruence.
  - split; [|done]. apply not_true_iff_false. intros Hp. apply Hn. left. by apply Hg.
  - intros [Hp|(g & [= <-] & E3)]; [by apply Hg in Hp|by rewrite E3 in E].
  - apply negb_false_iff, not_false_iff_true. intros E. apply Hn. right. eauto.
Qed.

(** ** The whole call *)

(** The bound is reached by a message of ordinary text: after a redacted query
    parameter the tag's own name and bracket read as a credential field, so
    every pass takes one more word that begins with a colon, and a second call
    goes on where the first one stopped. *)
Definition colon_words : list Z :=
  str "?code=a :1 :2 :3 :4 :5 :6 :7 :8 :9 :10 :11 :12 :13 :14 :15 :16 :17 :18 :19 :20".

Lemma sanitize_not_idempotent :
  Sanitize NewDefaultSanitizer colon_words = str "?code=[REDACTED:url_query_credential] :16 :17 :18 :19 :20" /\
  Sanitize NewDefaultSanitizer (Sanitize NewDefaultSanitizer colon_words) <> Sanitize NewDefaultSanitizer colon_words.
Proof. split; [vm_compute; reflexivity|vm_compute; discriminate]. Qed.


Lemma passes_last n s x : (0 < n)%nat -> exists y, passes n s x = onePass s y.
Proof.
  intros Hn. destruct (passes_spec n s x) as (k & _ & Ek & Hpos & _). specialize (Hpos Hn). destruct k as [|k]; [lia|].
  rewrite Ek. cbn [Nat.iter nat_rect]. eauto.
Qed.

Lemma Sanitize_shape s m :
  Sanitize s m = [] \/
  printable (Sanitize s m) /\ (0 < s_maxLen s -> zlen (Sanitize s m) <= s_maxLen s + zlen truncatedTag).
Proof.
  unfold Sanitize. case_bool_decide; [by left|right]. destruct (passes_last maxSanitizePasses s (truncate s m)) as [y ->]; [unfold maxSanitizePasses; lia|].
  split; [apply onePass_printable|]. intros. by apply truncate_length.
Qed.

(** C3. Whatever the rules, the allowlist and the message, what [Sanitize]
    returns is valid UTF-8 without a control character and, under a length
    limit, no longer than the limit and the marker; it is the result of at
    most sixteen passes over the truncated message, the last of which changed
    nothing unless all sixteen did; and once a pass changes nothing, sanitizing
    again gives the same text. The condition is needed: with the default rules
    there is a message that stops at the bound, and a second call changes it. *)
Theorem sanitize_exact s message :
  let out := Sanitize s message in
  (message = [] /\ out = [] \/
  printable out /\
  (0 < s_maxLen s -> zlen out <= s_maxLen s + zlen truncatedTag) /\
  (exists k, (0 < k <= maxSanitizePasses)%nat /\ out = Nat.iter k (onePass s) (truncate s message) /\
     (onePass s out = out \/ k = maxSanitizePasses /\ forall j, (j < k)%nat ->
        Nat.iter (S j) (onePass s) (truncate s message) <> Nat.iter j (onePass s) (truncate s message))) /\
  (onePass s out = out -> Sanitize s out = out)) /\
  exists m, Sanitize NewDefaultSanitizer (Sanitize NewDefaultSanitizer m) <> Sanitize NewDefaultSanitizer m.
Proof.
  split; [|exists colon_words; apply sanitize_not_idempotent].
  unfold Sanitize. case_bool_decide as Em; [by left|right].
  destruct (passes_spec maxSanitizePasses s (truncate s message)) as (k & Hk & Ek & Hpos & Hor).
  specialize (Hpos ltac:(unfold maxSanitizePasses; lia)).
  destruct (passes_last maxSanitizePasses s (truncate s message)) as [x Ex]; [unfold maxSanitizePasses; lia|].
  split_and!.
  - rewrite Ex. apply onePass_printable.
  - intros Hp. rewrite Ex. by apply truncate_length.
  - exists k. split_and!; [lia|lia|done|]. destruct Hor as [?|[-> ?]]; [by left|by right].
  - intros Hfix. set (o := passes _ s (truncate s message)) in *. case_bool_decide; [done|].
    assert (truncate s o = o) as -> by (rewrite Ex; apply truncate_idem).
    unfold maxSanitizePasses. cbn [passes]. rewrite Hfix. by rewrite bool_decide_true.
Qed.

(** Every pattern the package compiles is in the syntax modelled. *)
Lemma patterns_compile :
  Forall (fun p => is_Some (Compile p))
    ([pemKeyPattern; authorizationPattern; cookiePattern; urlPasswordPattern; credPattern passwordNames;
      credPattern secretNames; credPattern tokenNames; credPattern apiKeyNames; credPattern authNames; urlQueryPattern;
      jwtPattern; bearerPattern; crlfPattern; ansiPattern; shellVarPattern; shellCmdPattern; base64Pattern; hexPattern]
     ++ (snd <$> CommonProviderPatterns) ++ allowPatterns).
Proof. repeat (apply Forall_cons; split; [vm_compute; eauto|]). constructor. Qed.
