(* ===== verification/OpenSSHCipher.v ===== *)
(** * The ciphers of an OpenSSH key file (secmem-crypto/openssh_wire.go,
      openssh_cipher.go, openssh_chacha.go, marshal_openssh.go,
      internal/bcryptpbkdf/bcrypt_pbkdf.go)

    The cipher table, AES-CTR and AES-CBC over a block cipher, the ChaCha20 of
    chacha20-poly1305@openssh.com with its 32-bit arithmetic, the block
    arithmetic of bcrypt_pbkdf over the hash of Blowfish, and [opensshCrypt],
    which puts them together. crypto/aes, crypto/sha512, crypto/ed25519,
    crypto/ecdsa, crypto/x509 and x/crypto/poly1305 are parameters, as are the outcomes of allocating the locked scratch buffer
    and of wiping the AES key schedule. *)
From S2P Require Import Prelude Errors KeyErrors Bytes Pem Blowfish.

(** ** Constants and the cipher table *)

Definition opensshAESBlock : Z := 16.
Definition opensshNoneBlock : Z := 8.
Definition chachaTagLen : Z := 16.
Definition chachaKeyLen : Z := 32.
Definition chachaOpenSSHKeyLen : Z := 64.
Definition chachaBlockSize : nat := 64.

Inductive opensshCipher : Type :=
| cipherUnsupported
| cipherAES128CTR | cipherAES192CTR | cipherAES256CTR
| cipherAES128CBC | cipherAES192CBC | cipherAES256CBC
| cipherChaCha20Poly1305.
#[global] Instance opensshCipher_eq_dec : EqDecision opensshCipher.
Proof. solve_decision. Defined.

Definition keyLen (c : opensshCipher) : Z :=
  match c with
  | cipherAES128CTR | cipherAES128CBC => 16
  | cipherAES192CTR | cipherAES192CBC => 24
  | cipherAES256CTR | cipherAES256CBC => 32
  | cipherChaCha20Poly1305 => chachaOpenSSHKeyLen
  | cipherUnsupported => 0
  end.
Definition ivLen (c : opensshCipher) : Z :=
  match c with cipherChaCha20Poly1305 => 0 | _ => opensshAESBlock end.
Definition blockLen (c : opensshCipher) : Z :=
  match c with cipherChaCha20Poly1305 => opensshNoneBlock | _ => opensshAESBlock end.
Definition tagLen (c : opensshCipher) : Z :=
  match c with cipherChaCha20Poly1305 => chachaTagLen | _ => 0 end.
Definition cbc (c : opensshCipher) : bool :=
  match c with cipherAES128CBC | cipherAES192CBC | cipherAES256CBC => true | _ => false end.

Definition opensshCipherNone : list Z := str "none".
Definition opensshKDFNone : list Z := str "none".
Definition opensshKDFBcrypt : list Z := str "bcrypt".
Definition opensshCipherCTR : list Z := str "aes256-ctr".

Definition opensshCipherByName (name : list Z) : opensshCipher :=
  if bytes_Equal name opensshCipherCTR then cipherAES256CTR
  else if bytes_Equal name (str "aes256-cbc") then cipherAES256CBC
  else if bytes_Equal name (str "aes128-ctr") then cipherAES128CTR
  else if bytes_Equal name (str "aes192-ctr") then cipherAES192CTR
  else if bytes_Equal name (str "aes128-cbc") then cipherAES128CBC
  else if bytes_Equal name (str "aes192-cbc") then cipherAES192CBC
  else if bytes_Equal name (str "chacha20-poly1305@openssh.com") then cipherChaCha20Poly1305
  else cipherUnsupported.

(** ** The AES modes, over a block function *)

Definition xor_bytes (a b : list Z) : list Z := zip_with Z.lxor a b.

(** [ctr[i]++] from the last byte on, while it wraps to zero. *)
Fixpoint ctr_inc (ctr : list Z) : list Z * bool :=
  match ctr with
  | [] => ([], true)
  | x :: ctr =>
      let '(ctr, carry) := ctr_inc ctr in
      if carry : bool then let y := (x + 1) mod 256 in (y :: ctr, y =? 0) else (x :: ctr, false)
  end.

(** One turn per keystream block; [fuel] is the length of the text. *)
Fixpoint ctr_loop (enc : list Z -> list Z) (fuel : nat) (ctr src : list Z) : list Z :=
  match fuel, src with
  | S fuel, _ :: _ =>
      let ks := enc ctr in
      let n := Nat.min (length src) (length ks) in
      xor_bytes (take n src) (take n ks) ++ ctr_loop enc fuel (ctr_inc ctr).1 (drop n src)
  | _, _ => []
  end.
Definition ctrXOR (enc : list Z -> list Z) (iv src : list Z) : list Z := ctr_loop enc (length src) iv src.

Fixpoint cbc_loop (dec : list Z -> list Z) (fuel : nat) (prev src : list Z) : list Z :=
  match fuel, src with
  | S fuel, _ :: _ =>
      let blk := take 16 src in
      xor_bytes (dec blk) prev ++ cbc_loop dec fuel blk (drop 16 src)
  | _, _ => []
  end.
(** [None]: the panic on a length that is no multiple of the block. *)
Definition cbcDecrypt (dec : list Z -> list Z) (iv src : list Z) : option (list Z) :=
  if negb (Z.rem (zlen src) opensshAESBlock =? 0) then None else Some (cbc_loop dec (length src) iv src).

(** ** ChaCha20 with a 64-bit nonce *)

Definition rotl32 (x : Z) (n : Z) : Z := Z.lor (Z.shiftl x n mod 2 ^ 32) (Z.shiftr x (32 - n)).

Definition chachaQR (x : list Z) (a b c d : nat) : list Z :=
  let x := <[a := add32 (x !!! a) (x !!! b)]> x in
  let x := <[d := rotl32 (Z.lxor (x !!! d) (x !!! a)) 16]> x in
  let x := <[c := add32 (x !!! c) (x !!! d)]> x in
  let x := <[b := rotl32 (Z.lxor (x !!! b) (x !!! c)) 12]> x in
  let x := <[a := add32 (x !!! a) (x !!! b)]> x in
  let x := <[d := rotl32 (Z.lxor (x !!! d) (x !!! a)) 8]> x in
  let x := <[c := add32 (x !!! c) (x !!! d)]> x in
  <[b := rotl32 (Z.lxor (x !!! b) (x !!! c)) 7]> x.

Definition double_round (x : list Z) : list Z :=
  let x := chachaQR x 0 4 8 12 in
  let x := chachaQR x 1 5 9 13 in
  let x := chachaQR x 2 6 10 14 in
  let x := chachaQR x 3 7 11 15 in
  let x := chachaQR x 0 5 10 15 in
  let x := chachaQR x 1 6 11 12 in
  let x := chachaQR x 2 7 8 13 in
  chachaQR x 3 4 9 14.

(** [binary.LittleEndian] on 32-bit words. *)
Definition le32 (b : list Z) (off : nat) : Z := be (reverse (take 4 (drop off b))).
Definition put32 (v : Z) : list Z := reverse (be_bytes 4 v).

Definition chachaBlock (key nonce : list Z) (counter : Z) : list Z :=
  let s := [1634760805; 857760878; 2036477234; 1797285236]
           ++ ((fun i => le32 key (4 * i)) <$> seq 0 8)
           ++ [counter mod 2 ^ 32; Z.shiftr counter 32 mod 2 ^ 32; le32 nonce 0; le32 nonce 4] in
  let x := Nat.iter 10 double_round s in
  zip_with add32 x s ≫= put32.

Fixpoint chacha_loop (key nonce : list Z) (fuel : nat) (counter : Z) (src : list Z) : list Z :=
  match fuel, src with
  | S fuel, _ :: _ =>
      let ks := chachaBlock key nonce counter in
      let n := Nat.min (length src) chachaBlockSize in
      xor_bytes (take n src) (take n ks) ++ chacha_loop key nonce fuel (uwrap64 (counter + 1)) (drop n src)
  | _, _ => []
  end.
Definition chachaXOR (key nonce : list Z) (counter : Z) (src : list Z) : list Z :=
  chacha_loop key nonce (length src) counter src.

(** ** Parameters *)

Class Crypto : Type := {
  c_aes_enc : list Z -> list Z -> list Z;        (* crypto/aes: key, block *)
  c_aes_dec : list Z -> list Z -> list Z;
  c_sha512 : list Z -> list Z;                   (* crypto/sha512 *)
  c_poly1305 : list Z -> list Z -> list Z;       (* message, key *)
  c_ed25519 : list Z -> list Z;                  (* public key of a seed *)
  c_ecdsa : Z -> list Z -> gerr + list Z;        (* ecdsa.ParseRawPrivateKey by curve size: public point *)
  c_rsa : list Z -> option gerr;                 (* crypto/x509's parse of an RSA DER *)
  c_alloc : Z -> option gerr;                    (* allocation of a secure buffer by size *)
  c_wipeAES : option gerr;                       (* locating and wiping the AES key schedule *)
  c_heapTransients : bool                        (* runtime/secret active, or allowed by option *)
}.

Class CryptoOk `{Crypto} : Prop := {
  c_aes_len : forall k b, length b = 16%nat -> length (c_aes_enc k b) = 16%nat;
  c_aes_bytes : forall k b, bytes (c_aes_enc k b);
  c_aes_dec_bytes : forall k b, bytes (c_aes_dec k b);
  c_sha512_len : forall b, length (c_sha512 b) = 64%nat;
  c_ed25519_len : forall s, length (c_ed25519 s) = 32%nat;
  c_ed25519_bytes : forall s, bytes (c_ed25519 s);
  c_aes_dec_len : forall k b, length b = 16%nat -> length (c_aes_dec k b) = 16%nat
}.

Section crypt.
Context `{Crypto}.

(** ** bcrypt_pbkdf *)

Definition MaxKeyLen : Z := 1024.
Definition MaxSaltLen : Z := 2 ^ 20.

Definition Check_ (keyLen : Z) (password salt : list Z) (rounds : Z) : option gerr :=
  if (rounds <? 1) then Some (Msg "bcrypt_pbkdf: number of rounds is too small")
  else if (zlen password =? 0) then Some (Msg "bcrypt_pbkdf: empty password")
  else if (zlen salt =? 0) || (MaxSaltLen <? zlen salt) then Some (Msg "bcrypt_pbkdf: bad salt length")
  else if (keyLen <=? 0) then Some (Msg "bcrypt_pbkdf: empty output")
  else if (MaxKeyLen <? keyLen) then Some (Msg "bcrypt_pbkdf: keyLen is too large")
  else None.

(** Rounds two and up of one block; [None] is a panic of the hash. *)
Fixpoint bcrypt_rounds (n : nat) (shapass tmp out : list Z) : option (list Z) :=
  match n with
  | O => Some out
  | S n => tmp ← bcryptHash shapass (c_sha512 tmp); bcrypt_rounds n shapass tmp (xor_bytes out tmp)
  end.

Definition bcrypt_block (shapass salt : list Z) (rounds block : Z) : option (list Z) :=
  tmp ← bcryptHash shapass (c_sha512 (salt ++ be_bytes 4 block));
  bcrypt_rounds (Z.to_nat (rounds - 1)) shapass tmp tmp.

(** Byte [i] of block [block] lands at index [i * numBlocks + (block - 1)]. *)
Definition scatter (numBlocks block : Z) (out blk : list Z) : list Z :=
  foldl (fun out iv => let idx := iv.1 * numBlocks + (block - 1) in
                       if (idx <? zlen out) then <[Z.to_nat idx := iv.2]> out else out)
        out (zip (seqZ 0 (zlen blk)) blk).

Fixpoint derive_blocks (shapass salt : list Z) (rounds numBlocks : Z) (blocks out : list Z) : option (list Z) :=
  match blocks with
  | [] => Some out
  | block :: blocks =>
      blk ← bcrypt_block shapass salt rounds block;
      derive_blocks shapass salt rounds numBlocks blocks (scatter numBlocks block out blk)
  end.

Definition derive (keyLen : Z) (password salt : list Z) (rounds : Z) : option (list Z) :=
  let numBlocks := (keyLen + 31) / 32 in
  derive_blocks (c_sha512 password) salt rounds numBlocks (seqZ 1 numBlocks) (zeros keyLen).

Definition Derive (keyLen : Z) (password salt : list Z) (rounds : Z) : option (gerr + list Z) :=
  match Check_ keyLen password salt rounds with
  | Some err => Some (inl err)
  | None => inr <$> derive keyLen password salt rounds
  end.

(** ** chacha20-poly1305@openssh.com *)

Definition opensshChaChaOpen (src tag keyMaterial : list Z) : option (list Z) :=
  let key := take 32 keyMaterial in
  let nonce := replicate 8 0 in
  let polyKey := take 32 (chachaBlock key nonce 0) in
  let want := c_poly1305 src polyKey in
  if negb (bytes_Equal want tag) then None else Some (chachaXOR key nonce 1 src).

(** ** [opensshCrypt] *)

(** The size of the locked scratch: KDF workspace, key and IV, two blocks. *)
Definition scratchSize (workspace : Z) : Z := workspace + (64 + 16) + 32.

(** A panic of the CBC routine goes through, after the deferred wipes. *)
Definition opensshCrypt (workspace : Z) (src tag passphrase salt : list Z) (rounds : Z)
    (mode : opensshCipher) (decrypt : bool) : M unit (gerr + list Z) :=
  match c_alloc (scratchSize workspace) with
  | Some err => mret (inl (errorf "allocate kdf workspace" err))
  | None =>
      if (keyLen mode =? 0) then mret (inl (unsupported "OpenSSH cipher"))
      else match Derive (keyLen mode + ivLen mode) passphrase salt rounds with
      | None => panic
      | Some (inl err) => mret (inl err)
      | Some (inr kiv) =>
          match mode with
          | cipherChaCha20Poly1305 =>
              mret (if negb decrypt then inl (unsupported "chacha20-poly1305 for encryption")
                    else match opensshChaChaOpen src tag kiv with
                         | None => inl IncorrectPasswordError
                         | Some dst => inr dst
                         end)
          | _ =>
              let key := take (Z.to_nat (keyLen mode)) kiv in
              let iv := drop (Z.to_nat (keyLen mode)) kiv in
              r ← (if cbc mode
                   then if negb decrypt then mret (inl (unsupported "CBC for encryption"))
                        else match cbcDecrypt (c_aes_dec key) iv src with
                             | Some dst => mret (inr dst)
                             | None => panic
                             end
                   else mret (inr (ctrXOR (c_aes_enc key) iv src)));
              mret match c_wipeAES with
                   | Some werr => match errorsJoin [match r with inl e => Some e | inr _ => None end; Some werr] with
                                  | Some e => inl e
                                  | None => r
                                  end
                   | None => r
                   end
          end
      end
  end.
End crypt.

(** The first keystream bytes of the all-zero key and nonce. *)
Example chacha_zero_key :
  take 16 (chachaBlock (replicate 32 0) (replicate 8 0) 0) =
  [118; 184; 224; 173; 160; 241; 61; 144; 64; 93; 106; 229; 83; 134; 189; 40].
Proof. vm_compute. reflexivity. Qed.

(** ** CTR is its own inverse *)

Lemma length_xor a b : length (xor_bytes a b) = Nat.min (length a) (length b).
Proof. apply length_zip_with. Qed.

Lemma xor_cancel a k : (length a <= length k)%nat -> xor_bytes (xor_bytes a (take (length a) k)) (take (length a) k) = a.
Proof.
  revert k. induction a as [|x a IH]; intros [|y k] Hlen; cbn in *; try done; try lia.
  f_equal; [|apply IH; lia]. by rewrite Z.lxor_assoc, Z.lxor_nilpotent, Z.lxor_0_r.
Qed.

Lemma bytes_xor a b : bytes a -> bytes b -> bytes (xor_bytes a b).
Proof.
  intros Ha. revert b. induction Ha as [|x a Hx Ha IH]; intros [|y b] Hb; try constructor;
    apply Forall_cons in Hb as [Hy Hb]; [|by apply IH].
  unfold is_byte in *. split; [apply Z.lxor_nonneg; lia|].
  destruct (decide (Z.lxor x y = 0)) as [->|Hne]; [lia|]. change 256 with (2 ^ 8).
  apply Z.log2_lt_pow2; [pose proof (Z.lxor_nonneg x y); lia|].
  eapply Z.le_lt_trans; [apply Z.log2_lxor; lia|].
  apply Z.max_lub_lt; (destruct (decide (x = 0)) as [->|]; destruct (decide (y = 0)) as [->|]; try (cbn; lia);
    apply Z.log2_lt_pow2; lia).
Qed.

Lemma length_ctr_inc ctr : length (ctr_inc ctr).1 = length ctr.
Proof. induction ctr as [|x ctr IH]; [done|]. cbn. destruct (ctr_inc ctr) as [c []]; cbn in *; lia. Qed.

Section ctr.
Context (enc : list Z -> list Z).
Context (Henc : forall b, length b = 16%nat -> length (enc b) = 16%nat).

Lemma length_ctr_loop fuel ctr src :
  length ctr = 16%nat -> (length src <= fuel)%nat -> length (ctr_loop enc fuel ctr src) = length src.
Proof.
  revert ctr src. induction fuel as [|fuel IH]; intros ctr [|x src] Hc Hlen; cbn in Hlen; try done; try lia.
  cbn [ctr_loop]. rewrite length_app, length_xor, !length_take, (Henc _ Hc).
  rewrite IH; [rewrite length_drop; cbn [length]; lia|by rewrite length_ctr_inc|rewrite length_drop; cbn [length]; lia].
Qed.

Lemma ctr_loop_involutive fuel ctr src :
  length ctr = 16%nat -> (length src <= fuel)%nat ->
  ctr_loop enc fuel ctr (ctr_loop enc fuel ctr src) = src.
Proof.
  revert ctr src. induction fuel as [|fuel IH]; intros ctr src Hc Hlen; [by destruct src; cbn in Hlen; [|lia]|].
  destruct src as [|x src]; [done|]. set (l := x :: src) in *.
  set (n := Nat.min (length l) 16). assert (1 <= n <= length l)%nat as Hn by (unfold n, l; cbn; lia).
  assert (ctr_loop enc (S fuel) ctr l = xor_bytes (take n l) (take n (enc ctr)) ++
    ctr_loop enc fuel (ctr_inc ctr).1 (drop n l)) as E1 by (cbn [ctr_loop l]; by rewrite (Henc _ Hc)).
  rewrite E1. set (c := xor_bytes (take n l) (take n (enc ctr))).
  assert (length c = n) as Lc by (unfold c; rewrite length_xor, !length_take, (Henc _ Hc); unfold n; lia).
  assert (length (drop n l) <= fuel)%nat as Hd by (rewrite length_drop; lia).
  assert (length (ctr_inc ctr).1 = 16%nat) as Hi by by rewrite length_ctr_inc.
  set (d := ctr_loop enc fuel (ctr_inc ctr).1 (drop n l)).
  assert (length d = length (drop n l)) as Ld by (by apply length_ctr_loop).
  destruct c as [|y c'] eqn:Ec; [cbn in Lc; lia|]. cbn [ctr_loop app]. change (y :: c' ++ d) with ((y :: c') ++ d).
  rewrite <- Ec in *. assert (Nat.min (length (c ++ d)) (length (enc ctr)) = n) as ->.
  { rewrite length_app, Ld, length_drop, Lc, (Henc _ Hc). unfold n. lia. }
  rewrite <- Lc at 1 3. rewrite take_app_length, drop_app_length. unfold d. rewrite IH by done.
  unfold c. assert (length (take n l) = n) as Lt by (rewrite length_take; lia).
  rewrite <- Lt at 2 3. rewrite xor_cancel by (rewrite Lt, (Henc _ Hc); unfold n; lia). apply take_drop.
Qed.

Lemma ctrXOR_involutive iv src :
  length iv = 16%nat -> ctrXOR enc iv (ctrXOR enc iv src) = src.
Proof.
  intros Hiv. unfold ctrXOR. rewrite length_ctr_loop by done. by apply ctr_loop_involutive.
Qed.

Lemma bytes_ctrXOR iv src : (forall b, bytes (enc b)) -> bytes src -> bytes (ctrXOR enc iv src).
Proof.
  intros He. unfold ctrXOR. generalize (length src) as fuel. intros fuel. revert iv src.
  induction fuel as [|fuel IH]; intros iv [|x src] Hb; try constructor. cbn [ctr_loop]. apply Forall_app. split.
  - apply bytes_xor; by apply Forall_take.
  - apply IH. by apply Forall_drop.
Qed.
End ctr.

(** ** The scatter of a block *)

Lemma length_scatter numBlocks block out blk : length (scatter numBlocks block out blk) = length out.
Proof.
  unfold scatter. generalize (zip (seqZ 0 (zlen blk)) blk) as l. intros l. revert out.
  induction l as [|[i v] l IH]; intros out; [done|]. cbn [foldl]. rewrite IH. case_match; [apply length_insert|done].
Qed.

(** ** Everything is bytes *)

Lemma bytes_scatter numBlocks block out blk : bytes out -> bytes blk -> bytes (scatter numBlocks block out blk).
Proof.
  intros Ho Hb. unfold scatter.
  assert (Forall (fun iv => is_byte iv.2) (zip (seqZ 0 (zlen blk)) blk)) as Hz.
  { apply Forall_forall. intros [i v] Hin%elem_of_zip_r. by apply (proj1 (Forall_forall _ _) Hb). }
  revert out Ho. induction Hz as [|[i v] l Hv _ IH]; intros out Ho; [done|]. cbn [foldl]. apply IH.
  case_match; [by apply Forall_insert|done].
Qed.

(** ** The KDF's output *)

Section kdf.
Context `{CryptoOk}.

Lemma bcrypt_rounds_some n shapass tmp out :
  shapass <> [] -> bytes out -> exists r, bcrypt_rounds n shapass tmp out = Some r /\ bytes r.
Proof.
  intros Hs. revert tmp out. induction n as [|n IH]; intros tmp out Ho; [by exists out|]. cbn [bcrypt_rounds].
  destruct (bcryptHash_some shapass (c_sha512 tmp) Hs) as (t & -> & _ & Ht). apply IH. by apply bytes_xor.
Qed.

Lemma derive_blocks_some shapass salt rounds numBlocks blocks out :
  shapass <> [] -> bytes out ->
  exists r, derive_blocks shapass salt rounds numBlocks blocks out = Some r /\ length r = length out /\ bytes r.
Proof.
  intros Hs. revert out. induction blocks as [|block blocks IH]; intros out Ho; [by exists out|]. cbn [derive_blocks].
  unfold bcrypt_block. destruct (bcryptHash_some shapass (c_sha512 (salt ++ be_bytes 4 block)) Hs) as (t & -> & _ & Ht).
  cbn [mbind option_bind].
  destruct (bcrypt_rounds_some (Z.to_nat (rounds - 1)) shapass t t Hs Ht) as (blk & -> & Hb). cbn [mbind option_bind].
  destruct (IH (scatter numBlocks block out blk)) as (r & Er & Hl & Hr); [by apply bytes_scatter|].
  exists r. by rewrite Hl, length_scatter.
Qed.

Lemma derive_some keyLen password salt rounds :
  exists r, derive keyLen password salt rounds = Some r /\ length r = Z.to_nat keyLen /\ bytes r.
Proof.
  unfold derive. destruct (derive_blocks_some (c_sha512 password) salt rounds ((keyLen + 31) / 32)
    (seqZ 1 ((keyLen + 31) / 32)) (zeros keyLen)) as (r & Er & Hl & Hb).
  - intros E. pose proof (c_sha512_len password) as L. rewrite E in L. done.
  - apply Forall_replicate. unfold is_byte. lia.
  - exists r. split; [done|]. split; [|done]. rewrite Hl. apply length_replicate.
Qed.
End kdf.

Lemma bytes_cbcDecrypt dec iv src dst :
  (forall b, bytes (dec b)) -> bytes iv -> bytes src -> cbcDecrypt dec iv src = Some dst -> bytes dst.
Proof.
  intros Hd Hiv Hs. unfold cbcDecrypt. destruct (negb _); [done|]. intros [= <-]. generalize (length src) as fuel.
  intros fuel. revert iv src Hiv Hs. induction fuel as [|fuel IH]; intros iv [|x src] Hiv Hs; try constructor.
  cbn [cbc_loop]. apply Forall_app. split; [by apply bytes_xor|]. apply IH; [by apply Forall_take|by apply Forall_drop].
Qed.

Lemma bytes_chachaXOR key nonce counter src : bytes src -> bytes (chachaXOR key nonce counter src).
Proof.
  assert (forall c, bytes (chachaBlock key nonce c)) as Hblock.
  { intros c. unfold chachaBlock. generalize (Nat.iter 10 double_round). intros rounds. cbv zeta.
    apply Forall_bind, Forall_true. intros v. unfold put32. apply Forall_reverse, bytes_be_bytes. }
  unfold chachaXOR. generalize (length src) as fuel. intros fuel. revert counter src.
  induction fuel as [|fuel IH]; intros counter src Hs; [constructor|]. destruct src as [|x src]; [constructor|].
  cbn [chacha_loop]. apply Forall_app_2; [|apply IH; by apply Forall_drop].
  apply bytes_xor; [by apply Forall_take|apply Forall_take, Hblock].
Qed.
