(* ===== verification/OpenSSH.v ===== *)
(** * The OpenSSH private-key container (secmem-crypto/parse_openssh.go,
      parse_encrypted.go, marshal_openssh.go, and the signer constructors of
      parse.go)

    The wire reader, the header rules, the private block, the two entry points
    for unprotected and protected files, and the writer. A signer is what it
    holds: the seed and public key, the scalar and public point, or the DER. *)
From S2P Require Import Prelude Errors KeyErrors Bytes Writer RsaKey Pem OpenSSHCipher.

Inductive curve : Type := P224 | P256 | P384 | P521.
Definition BitSize (c : curve) : Z := match c with P224 => 224 | P256 => 256 | P384 => 384 | P521 => 521 end.
Definition scalarSize (c : curve) : Z := (BitSize c + 7) / 8.

Inductive Signer : Type :=
| Ed25519Signer (seed pub : list Z)
| ECDSASigner (c : curve) (scalar pub : list Z)
| RSASigner (der : list Z).

(** What the private block yields: a signer, or the DER to build one from. *)
Inductive parsed : Type := PSigner (s : Signer) | PDer (der : list Z).

(** ** The reader *)

(** [sshReader]: the value read and what is left. *)
Definition r_uint32 (b : list Z) : option (Z * list Z) :=
  if (zlen b <? 4) then None else Some (be (take 4 b), drop 4 b).
Definition r_str (b : list Z) : option (list Z * list Z) :=
  '(n, b) ← r_uint32 b;
  if (zlen b <? n) then None else Some (take (Z.to_nat n) b, drop (Z.to_nat n) b).

Record opensshHeader : Type := OpensshHeader {
  h_cipher : list Z; h_kdf : list Z; h_kdfOpts : list Z;
  h_numKeys : Z;
  h_pubBlob : list Z; h_privBlock : list Z; h_rest : list Z
}.

Definition opensshMagic : list Z := str "openssh-key-v1" ++ [0].

Definition readFields (b : list Z) : option opensshHeader :=
  '(cipher, b) ← r_str b;
  '(kdf, b) ← r_str b;
  '(kdfOpts, b) ← r_str b;
  '(numKeys, b) ← r_uint32 b;
  '(pubBlob, b) ← r_str b;
  '(privBlock, b) ← r_str b;
  Some (OpensshHeader cipher kdf kdfOpts numKeys pubBlob privBlock b).

Definition readOpenSSHHeader (b : list Z) : gerr + opensshHeader :=
  if negb (HasPrefix b opensshMagic) then inl errMalformed
  else match readFields (drop (length opensshMagic) b) with
  | None => inl errMalformed
  | Some h =>
      let cipherNone := bytes_Equal (h_cipher h) opensshCipherNone in
      let kdfNone := bytes_Equal (h_kdf h) opensshKDFNone in
      if negb (Bool.eqb cipherNone kdfNone) then inl (malformed "OpenSSH cipher and KDF disagree about encryption")
      else if kdfNone && negb (zlen (h_kdfOpts h) =? 0) then inl (malformed "KDF options with KDF none")
      else inr h
  end.

Definition checkOpenSSHPadding (pad : list Z) (blockSize : Z) : option gerr :=
  if (blockSize <=? zlen pad) then Some (malformed "bad padding")
  else if forallb (fun ib => ib.2 =? ib.1 + 1) (zip (seqZ 0 (zlen pad)) pad) then None
  else Some (malformed "bad padding").

(** ** The signers *)

Section signers.
Context `{Crypto}.

Definition checkHeapTransients (op : string) : option gerr :=
  if c_heapTransients then None else Some (Wrap op [ErrHeapTransients]).

Definition ErrBadSeedLength : gerr := Msg "secmemcrypto: bad seed length".
Definition ErrBadScalarLength : gerr := Msg "secmemcrypto: bad scalar length".

(** [newEd25519Signer] over a live buffer: the public key. *)
Definition newEd25519Signer (seed : list Z) : gerr + list Z :=
  if negb (zlen seed =? 32) then inl (Wrap "" [ErrBadSeedLength]) else inr (c_ed25519 seed).

(** The seed copied to a fresh buffer, and the signer over that. *)
Definition ed25519FromSeed (seed : list Z) (pub : option (list Z)) : gerr + Signer :=
  if negb (zlen seed =? 32) then inl (Wrap "" [ErrBadSeedLength])
  else match c_alloc (zlen seed) with
  | Some err => inl (errorf "allocate seed buffer" err)
  | None =>
      match newEd25519Signer seed with
      | inl err => inl err
      | inr derived =>
          match pub with
          | Some pub => if bytes_Equal pub derived then inr (Ed25519Signer seed derived)
                        else inl (malformed "public key does not match private key")
          | None => inr (Ed25519Signer seed derived)
          end
      end
  end.

Definition ecdsaPubMatches (c : curve) (derived pub : list Z) : bool :=
  match pub with
  | [] => false
  | x :: xs =>
      if (x =? 4) then bytes_Equal pub derived
      else if (x =? 2) || (x =? 3) then
        let size := scalarSize c in
        if negb (zlen pub =? 1 + size) || negb (zlen derived =? 1 + 2 * size) then false
        else let yParity := Z.land (derived !!! (length derived - 1)%nat) 1 in
             bytes_Equal xs (lsub 1 (1 + size) derived) && (x - 2 =? yParity)
      else false
  end.

Definition newECDSASigner (c : curve) (scalar : list Z) : gerr + (list Z) :=
  match checkHeapTransients "secmemcrypto: new ecdsa signer" with
  | Some err => inl err
  | None => if negb (zlen scalar =? scalarSize c) then inl (Wrap "" [ErrBadScalarLength])
            else match c_ecdsa (BitSize c) scalar with
            | inl err => inl (errorf "secmemcrypto: new ecdsa signer" err)
            | inr pub => inr pub
            end
  end.

Definition ecdsaFromScalar (d : list Z) (c : curve) (pub : option (list Z)) : gerr + Signer :=
  let d := stripZeros d in
  let size := scalarSize c in
  if (zlen d =? 0) || (size <? zlen d) then inl (malformed "scalar out of range")
  else match c_alloc size with
  | Some err => inl (errorf "allocate scalar buffer" err)
  | None =>
      let out := lset (size - zlen d) d (zeros size) in
      match newECDSASigner c out with
      | inl err => inl err
      | inr derived =>
          match pub with
          | Some pub => if ecdsaPubMatches c derived pub then inr (ECDSASigner c out derived)
                        else inl (malformed "public key does not match private key")
          | None => inr (ECDSASigner c out derived)
          end
      end
  end.

(** [newRSASigner]: the gate, then what locating the PKCS#1 key in the DER and
    crypto/x509 say of it. *)
Definition newRSASigner (der : list Z) : gerr + Signer :=
  match checkHeapTransients "secmemcrypto: new rsa signer" with
  | Some err => inl err
  | None => match c_rsa der with
            | Some err => inl (errorf "secmemcrypto: new rsa signer" err)
            | None => inr (RSASigner der)
            end
  end.

(** The DER's own buffer becomes the signer's. *)
Definition rsaFromDER (der : list Z) : gerr + Signer := newRSASigner der.

(** ** The private block *)

Definition disagree : gerr := malformed "public and private key blocks disagree".

Definition curve_named (name : list Z) : option curve :=
  if bytes_Equal name (str "nistp256") then Some P256
  else if bytes_Equal name (str "nistp384") then Some P384
  else if bytes_Equal name (str "nistp521") then Some P521
  else None.

(** string pub(32) | string priv(64 = seed || pub) | string comment | pad *)
Definition parseEd25519Block (p pub : list Z) (blockSize : Z) : gerr + Signer :=
  match ('(pk, p) ← r_str p; '(sk, p) ← r_str p; '(_, p) ← r_str p; Some (pk, sk, p)) with
  | None => inl errMalformed
  | Some (pk, sk, p) =>
      if negb (zlen pk =? 32) || negb (zlen sk =? 64) then inl errMalformed
      else match checkOpenSSHPadding p blockSize with
      | Some err => inl err
      | None =>
          match r_str pub with
          | None => inl disagree
          | Some (pubKey, _) =>
              if negb (bytes_Equal pubKey pk) || negb (bytes_Equal (drop 32 sk) pk) then inl disagree
              else ed25519FromSeed (take 32 sk) (Some pk)
          end
      end
  end.

(** string curve | string Q | mpint d | string comment | pad *)
Definition parseECDSABlock (keyType p pub : list Z) (blockSize : Z) : gerr + Signer :=
  match ('(c, p) ← r_str p; '(q, p) ← r_str p; '(d, p) ← r_str p; '(_, p) ← r_str p; Some (c, q, d, p)) with
  | None => inl errMalformed
  | Some (curveName, q, d, p) =>
      match checkOpenSSHPadding p blockSize with
      | Some err => inl err
      | None =>
          if negb (bytes_Equal curveName (drop 11 keyType)) then inl errMalformed
          else match curve_named curveName with
          | None => inl (unsupported "curve")
          | Some c =>
              match ('(pubCurve, pub) ← r_str pub; '(pubQ, pub) ← r_str pub; Some (pubCurve, pubQ)) with
              | Some (pubCurve, pubQ) =>
                  if negb (bytes_Equal pubCurve curveName) || negb (bytes_Equal pubQ q) then inl disagree
                  else ecdsaFromScalar d c (Some q)
              | None => inl disagree
              end
          end
      end
  end.

(** mpint n | mpint e | mpint d | mpint iqmp | mpint p | mpint q | string
    comment | pad *)
Definition parseRSABlock (p pub : list Z) (blockSize : Z) : M unit (gerr + list Z) :=
  match ('(n, p) ← r_str p; '(e, p) ← r_str p; '(d, p) ← r_str p; '(iqmp, p) ← r_str p;
         '(prime1, p) ← r_str p; '(prime2, p) ← r_str p; '(_, p) ← r_str p;
         Some (n, e, d, iqmp, prime1, prime2, p)) with
  | None => mret (inl errMalformed)
  | Some (n, e, d, iqmp, prime1, prime2, p) =>
      match checkOpenSSHPadding p blockSize with
      | Some err => mret (inl err)
      | None =>
          match ('(pubE, pub) ← r_str pub; '(pubN, pub) ← r_str pub; Some (pubE, pubN)) with
          | Some (pubE, pubN) =>
              if negb (bytes_Equal (stripZeros pubE) (stripZeros e)) || negb (bytes_Equal (stripZeros pubN) (stripZeros n))
              then mret (inl disagree)
              else pkcs1DER c_alloc n e d prime1 prime2 iqmp
          | None => mret (inl disagree)
          end
      end
  end.

Definition parseOpenSSHPrivateBlock (privBlock pubBlob : list Z) (blockSize : Z) : M unit (gerr + parsed) :=
  match ('(check1, p) ← r_uint32 privBlock; '(check2, p) ← r_uint32 p; Some (check1, check2, p)) with
  | None => mret (inl errMalformed)
  | Some (check1, check2, p) =>
      if negb (check1 =? check2) then mret (inl errCheckMismatch)
      else match r_str p with
      | None => mret (inl errMalformed)
      | Some (keyType, p) =>
          match r_str pubBlob with
          | None => mret (inl disagree)
          | Some (pubType, pub) =>
              if negb (bytes_Equal pubType keyType) then mret (inl disagree)
              else if bytes_Equal keyType (str "ssh-ed25519") then
                mret (match parseEd25519Block p pub blockSize with inl e => inl e | inr s => inr (PSigner s) end)
              else if bytes_Equal keyType (str "ecdsa-sha2-nistp256") || bytes_Equal keyType (str "ecdsa-sha2-nistp384")
                      || bytes_Equal keyType (str "ecdsa-sha2-nistp521") then
                mret (match parseECDSABlock keyType p pub blockSize with inl e => inl e | inr s => inr (PSigner s) end)
              else if bytes_Equal keyType (str "ssh-rsa") then
                r ← parseRSABlock p pub blockSize;
                mret (match r with inl e => inl e | inr der => inr (PDer der) end)
              else mret (inl (unsupported "OpenSSH key type"))
          end
      end
  end.

(** ** The two entry points *)

Definition parseOpenSSH (blob : list Z) : M unit (gerr + Signer) :=
  match readOpenSSHHeader blob with
  | inl err => mret (inl err)
  | inr h =>
      if negb (bytes_Equal (h_cipher h) opensshCipherNone) then mret (inl ErrEncryptedKey)
      else if negb (zlen (h_rest h) =? 0) then mret (inl (malformed "trailing bytes after the OpenSSH container"))
      else if negb (h_numKeys h =? 1) then mret (inl (unsupported "OpenSSH file holds several keys"))
      else if (zlen (h_privBlock h) =? 0) || negb (Z.rem (zlen (h_privBlock h)) opensshNoneBlock =? 0)
      then mret (inl (malformed "private block is not a multiple of the cipher block size"))
      else r ← parseOpenSSHPrivateBlock (h_privBlock h) (h_pubBlob h) opensshNoneBlock;
           mret (match r with
                 | inl err => inl err
                 | inr (PDer der) => rsaFromDER der
                 | inr (PSigner s) => inr s
                 end)
  end.

Definition admitOpenSSHKeyType (pubBlob : list Z) : option gerr :=
  match r_str pubBlob with
  | None => Some (malformed "public key block")
  | Some (keyType, _) =>
      if bytes_Equal keyType (str "ssh-ed25519") then None
      else if bytes_Equal keyType (str "ecdsa-sha2-nistp256") || bytes_Equal keyType (str "ecdsa-sha2-nistp384")
              || bytes_Equal keyType (str "ecdsa-sha2-nistp521")
      then checkHeapTransients "secmemcrypto: new ecdsa signer"
      else if bytes_Equal keyType (str "ssh-rsa") then checkHeapTransients "secmemcrypto: new rsa signer"
      else Some (unsupported "OpenSSH key type")
  end.

Definition opensshMaxRounds : Z := 2048.

(** Everything the encrypted form decides before the KDF runs: a refusal, or
    the cipher with the salt and the rounds. *)
Definition admitEncrypted (h : opensshHeader) : gerr + (opensshCipher * list Z * Z) :=
  if bytes_Equal (h_cipher h) opensshCipherNone then inl ErrNotEncrypted
  else if negb (bytes_Equal (h_kdf h) opensshKDFBcrypt) then inl (unsupported "OpenSSH KDF")
  else
  let mode := opensshCipherByName (h_cipher h) in
  if bool_decide (mode = cipherUnsupported) then inl (unsupported "OpenSSH cipher")
  else if negb (zlen (h_rest h) =? tagLen mode) then inl (malformed "bytes follow the encrypted block")
  else if negb (h_numKeys h =? 1) then inl (unsupported "OpenSSH file holds several keys")
  else match ('(salt, k) ← r_str (h_kdfOpts h); '(rounds, k) ← r_uint32 k; Some (salt, rounds, k)) with
  | None => inl (malformed "bcrypt KDF options")
  | Some (salt, rounds, k) =>
      if negb (zlen k =? 0) || (zlen salt =? 0) || (rounds =? 0) then inl (malformed "bcrypt KDF options")
      else if (MaxSaltLen <? zlen salt) then inl (malformed "bcrypt KDF salt too long")
      else if (opensshMaxRounds <? rounds) then inl (unsupported "bcrypt KDF rounds")
      else if (zlen (h_privBlock h) =? 0) || negb (Z.rem (zlen (h_privBlock h)) (blockLen mode) =? 0)
      then inl (malformed "encrypted block is not a multiple of the cipher block size")
      else match admitOpenSSHKeyType (h_pubBlob h) with
      | Some err => inl err
      | None =>
          match c_alloc (zlen (h_privBlock h)) with
          | Some err => inl (errorf "allocate key buffer" err)
          | None => inr (mode, salt, rounds)
          end
      end
  end.

(** [errors.Is(err, x509.IncorrectPasswordError)] *)
Fixpoint isIncorrectPassword (e : gerr) : bool :=
  match e with
  | Msg m => String.eqb m "x509: decryption password incorrect"
  | Wrap _ es | Joined es => existsb isIncorrectPassword es
  | Sent _ | Errno _ => false
  end.

(** The rest: the KDF and the cipher, the block, the signer. *)
Definition openEncrypted (workspace : Z) (h : opensshHeader) (passphrase : list Z) : M unit (gerr + Signer) :=
  match admitEncrypted h with
  | inl err => mret (inl err)
  | inr (mode, salt, rounds) =>
      r ← opensshCrypt workspace (h_privBlock h) (h_rest h) passphrase salt rounds mode true;
      match r with
      | inl err => mret (inl (if isIncorrectPassword err then errOpenSSHDecrypt else err))
      | inr plain =>
          r ← parseOpenSSHPrivateBlock plain (h_pubBlob h) (blockLen mode);
          mret (match r with
                | inl _ => inl errOpenSSHDecrypt
                | inr (PSigner s) => inr s
                | inr (PDer der) => match rsaFromDER der with
                                    | inl _ => inl errOpenSSHDecrypt
                                    | inr s => inr s
                                    end
                end)
      end
  end.

Definition parseOpenSSHEncrypted (workspace : Z) (blob passphrase : list Z) : M unit (gerr + Signer) :=
  match readOpenSSHHeader blob with
  | inl err => mret (inl err)
  | inr h => openEncrypted workspace h passphrase
  end.
End signers.
