(* ===== verification/Marshal.v ===== *)
(** * Writing an OpenSSH key file (secmem-crypto/marshal_openssh.go,
      openssh_wire.go)

    The wire writer on top of the cursor of Writer, the container assembled in
    a slice of exactly the computed size, its private block encrypted in place
    and the PEM armour around it; then the round trip through the readers of
    Pem and OpenSSH. *)
From S2P Require Import Prelude Errors KeyErrors Bytes Writer RsaKey Pem OpenSSHCipher OpenSSH.

(** ** The wire writer *)

(** [uint32(n)] of an int. *)
Definition length_ (n : Z) : WM unit := uint32_ (n mod 2 ^ 32).
Definition str_ (p : list Z) : WM unit := uint32_ (zlen p mod 2 ^ 32);; bytes_ p.
Definition strs (s : list Z) : WM unit := uint32_ (zlen s mod 2 ^ 32);; bytes_ s.

Definition sshStrLen (n : Z) : Z := 4 + n.

Definition opensshPEMType : list Z := str "OPENSSH PRIVATE KEY".
Definition opensshKeyEd25519 : list Z := str "ssh-ed25519".
Definition opensshSaltLen : Z := 16.
Definition opensshKDFOptsSize : Z := 4 + opensshSaltLen + 4.
Definition MaxOpenSSHKDFRounds : Z := opensshMaxRounds.

(** A write into slice [b]: what it returns and the slice. *)
Definition withSlice {A} (m : WM A) (b : list Z) : M unit (A * list Z) := fun u =>
  match m (Writer b 0) with
  | Ret a w => Ret (a, wr_b w) u
  | Panic _ => Panic u
  | Fault => Fault
  | Block => Block
  end.

(** [kdfOpts]: salt length, the salt [rand.Read] put there, rounds. *)
Definition writeKDFOpts (salt : list Z) (rounds : Z) : WM Z :=
  (length_ opensshSaltLen;; bytes_ salt;; uint32_ (rounds mod 2 ^ 32));; gets wr_n.

(** [for i := 1; i <= padLen; i++ { c[w.n] = byte(i); w.n++ }] *)
Definition writePad (padLen : Z) : WM unit :=
  foldr (fun i m => putByte (i mod 256);; m) (mret tt) (seqZ 1 padLen).

(** The body of the borrow: where the private block starts and what [w.n] is
    at the end. *)
Definition writeContainer (cipherName kdfName kdfOpts check seed pubKey comment : list Z)
    (pubBlobLen privPadded padLen : Z) : WM (Z * Z) :=
  (bytes_ opensshMagic;; strs cipherName;; strs kdfName;; str_ kdfOpts;; uint32_ 1;;
   length_ pubBlobLen;; strs opensshKeyEd25519;; str_ pubKey;;
   length_ privPadded);;
  start ← gets wr_n;
  (bytes_ check;; bytes_ check;; strs opensshKeyEd25519;; str_ pubKey;;
   length_ 64;; bytes_ seed;; bytes_ pubKey;; strs comment;; writePad padLen);;
  n ← gets wr_n;
  mret (start, n).

Definition pubBlobLen : Z := sshStrLen (zlen opensshKeyEd25519) + sshStrLen 32.
Definition privLen (comment : list Z) : Z :=
  4 + 4 + sshStrLen (zlen opensshKeyEd25519) + sshStrLen 32 + sshStrLen 64 + sshStrLen (zlen comment).
Definition padLen (blockSize privLen : Z) : Z := Z.rem (blockSize - Z.rem privLen blockSize) blockSize.
Definition containerLen (cipherName kdfName : list Z) (kdfOptsLen privPadded : Z) : Z :=
  zlen opensshMagic + sshStrLen (zlen cipherName) + sshStrLen (zlen kdfName) +
  sshStrLen kdfOptsLen + 4 + sshStrLen pubBlobLen + sshStrLen privPadded.

Section marshal.
Context `{Crypto}.

(** The private block encrypted in place, with the salt read back from the
    options. *)
Definition encryptBlock (workspace : Z) (c kdfOpts passphrase : list Z) (rounds start privPadded : Z) : M unit (gerr + list Z) :=
  r ← opensshCrypt workspace (lsub start (start + privPadded) c) [] passphrase
        (lsub 4 (4 + opensshSaltLen) kdfOpts) rounds cipherAES256CTR false;
  mret (match r with inl err => inl err | inr block => inr (lset start block c) end).

(** The container in a fresh buffer of [total] bytes. *)
Definition buildContainer (workspace : Z) (seed : gerr + list Z) (pubKey comment passphrase cipherName kdfName kdfOpts check : list Z)
    (rounds blockSize : Z) : M unit (gerr + list Z) :=
  let padLen := padLen blockSize (privLen comment) in
  let privPadded := privLen comment + padLen in
  let total := containerLen cipherName kdfName (zlen kdfOpts) privPadded in
  match c_alloc total with
  | Some err => mret (inl (errorf "allocate container buffer" err))
  | None =>
      match seed with
      | inl err => mret (inl err)
      | inr seed =>
          '(start, n, c) ← withSlice (writeContainer cipherName kdfName kdfOpts check seed pubKey comment
                                         pubBlobLen privPadded padLen) (zeros total);
          if negb (n =? total) then mret (inl (Msg "internal: container layout mismatch"))
          else if (zlen passphrase =? 0) then mret (inr c)
          else encryptBlock workspace c kdfOpts passphrase rounds start privPadded
      end
  end.

(** The armour in a second buffer. *)
Definition armour (cont : list Z) : M unit (gerr + list Z) :=
  let n := pemLen opensshPEMType (zlen cont) in
  match c_alloc n with
  | Some err => mret (inl (errorf "allocate openssh private key buffer" err))
  | None =>
      '(k, o) ← withSlice (pemEncode opensshPEMType cont) (zeros n);
      mret (if negb (k =? n) then inl (Msg "internal: PEM layout mismatch") else inr o)
  end.

(** [s] is [None] for a nil signer or one without a seed buffer; otherwise what
    borrowing the seed buffer gives. [salt] and [check] are what [rand.Read]
    answers. *)
Definition marshalOpenSSH (workspace : Z) (s : option (gerr + list Z)) (pubKey comment passphrase : list Z) (rounds : Z)
    (salt check : gerr + list Z) : M unit (gerr + list Z) :=
  match s with
  | None => mret (inl (Sent ErrDestroyed))
  | Some seed =>
      let encrypted := 0 <? zlen passphrase in
      if encrypted && ((rounds <? 1) || (MaxOpenSSHKDFRounds <? rounds)) then mret (inl (Msg "rounds must be between 1 and 2048"))
      else
      kdf ← (if encrypted then
               match salt with
               | inl err => mret (inl (errorf "salt" err))
               | inr salt => '(n, o) ← withSlice (writeKDFOpts salt rounds) (zeros opensshKDFOptsSize);
                             mret (inr (take (Z.to_nat n) o))
               end
             else mret (inr []));
      match kdf, check with
      | inl err, _ => mret (inl err)
      | inr _, inl err => mret (inl (errorf "check bytes" err))
      | inr kdfOpts, inr check =>
          cont ← buildContainer workspace seed pubKey comment passphrase
                   (if encrypted then opensshCipherCTR else opensshCipherNone)
                   (if encrypted then opensshKDFBcrypt else opensshKDFNone) kdfOpts check rounds
                   (if encrypted then opensshAESBlock else opensshNoneBlock);
          match cont with
          | inl err => mret (inl err)
          | inr cont => armour cont
          end
      end
  end.

(** ** The exported calls *)

Definition OpenSSHKDFRounds : Z := 16.

Definition marshalled (r : gerr + list Z) : gerr + list Z :=
  match r with
  | inl err => inl (errorf "secmemcrypto: marshal openssh private key" err)
  | inr out => inr out
  end.

Definition MarshalOpenSSHPrivateKey (workspace : Z) (s : option (gerr + list Z)) (pubKey comment : list Z)
    (salt check : gerr + list Z) : M unit (gerr + list Z) :=
  r ← marshalOpenSSH workspace s pubKey comment [] OpenSSHKDFRounds salt check; mret (marshalled r).

Definition MarshalOpenSSHPrivateKeyWithPassphraseParams (workspace : Z) (s : option (gerr + list Z))
    (pubKey comment passphrase : list Z) (Rounds : Z) (salt check : gerr + list Z) : M unit (gerr + list Z) :=
  if (zlen passphrase =? 0)
  then mret (inl (Msg "secmemcrypto: marshal openssh private key: empty passphrase (use MarshalOpenSSHPrivateKey for an unencrypted file)"))
  else r ← marshalOpenSSH workspace s pubKey comment passphrase Rounds salt check; mret (marshalled r).

Definition MarshalOpenSSHPrivateKeyWithPassphrase (workspace : Z) (s : option (gerr + list Z))
    (pubKey comment passphrase : list Z) (salt check : gerr + list Z) : M unit (gerr + list Z) :=
  MarshalOpenSSHPrivateKeyWithPassphraseParams workspace s pubKey comment passphrase OpenSSHKDFRounds salt check.
End marshal.

(** ** What the file holds *)

Definition sshS (s : list Z) : list Z := be_bytes 4 (zlen s) ++ s.

Definition pubBlobOf (pub : list Z) : list Z := sshS opensshKeyEd25519 ++ sshS pub.
Definition blockOf (check seed pub comment : list Z) (blockSize : Z) : list Z :=
  check ++ check ++ sshS opensshKeyEd25519 ++ sshS pub ++ sshS (seed ++ pub) ++ sshS comment ++
  seqZ 1 (padLen blockSize (privLen comment)).
Definition containerOf (cipher kdf kdfOpts pub block : list Z) : list Z :=
  opensshMagic ++ sshS cipher ++ sshS kdf ++ sshS kdfOpts ++ be_bytes 4 1 ++ sshS (pubBlobOf pub) ++ sshS block.

(** ** The writer writes it *)

Lemma zlen_sshS s : zlen (sshS s) = 4 + zlen s.
Proof. unfold sshS. by rewrite zlen_app, zlen_be_bytes. Qed.

Lemma writes_str s : zlen s < 2 ^ 32 -> writes (str_ s) (sshS s).
Proof.
  intros Hs. unfold str_, sshS. pose proof (zlen_nonneg s). rewrite Z.mod_small by done.
  apply writes_seq; auto with writes.
Qed.

Lemma writes_strs s : zlen s < 2 ^ 32 -> writes (strs s) (sshS s).
Proof. apply writes_str. Qed.

Lemma writes_length n : 0 <= n < 2 ^ 32 -> writes (length_ n) (be_bytes 4 n).
Proof. intros Hn. unfold length_. rewrite Z.mod_small by done. apply writes_uint32. Qed.

Lemma writes_pad n : n <= 255 -> writes (writePad n) (seqZ 1 n).
Proof.
  intros Hn. unfold writePad. replace (seqZ 1 n) with (seqZ 1 n ≫= (fun i => [i mod 256])) at 2.
  - apply (writes_loop (fun i => putByte (i mod 256)) (fun i => [i mod 256])). intros i _. apply writes_byte.
  - assert (Forall (fun i => i mod 256 = i) (seqZ 1 n)) as Hall.
    { apply Forall_forall. intros i Hi. apply elem_of_seqZ in Hi. apply Z.mod_small. lia. }
    induction Hall as [|i l Hi _ IH]; [done|]. cbn. by rewrite Hi, IH.
Qed.

Lemma padLen_bound b n : 0 < b -> 0 <= n -> 0 <= padLen b n < b.
Proof.
  intros Hb Hn. unfold padLen. pose proof (Z.rem_bound_pos n b). apply Z.rem_bound_pos; lia.
Qed.

Lemma padLen_mult b n : 0 < b -> 0 <= n -> Z.rem (n + padLen b n) b = 0.
Proof.
  intros Hb Hn. unfold padLen. pose proof (Z.rem_bound_pos n b Hn Hb).
  pose proof (Z.quot_rem' n b) as Hq. set (r := Z.rem n b) in *.
  destruct (decide (r = 0)) as [E|E].
  - rewrite E, Z.sub_0_r, Z.rem_same, Z.add_0_r by lia. done.
  - rewrite (Z.rem_small (b - r)) by lia. replace (n + (b - r)) with ((Z.quot n b + 1) * b) by lia.
    apply Z.rem_mul. lia.
Qed.

#[local] Hint Resolve writes_str writes_strs writes_length writes_pad : writes.

Lemma zlen_seqZ i n : 0 <= n -> zlen (seqZ i n) = n.
Proof. intros. unfold zlen. rewrite length_seqZ. lia. Qed.

Section layout.
Context (cipher kdf kdfOpts check seed pub comment : list Z) (bs : Z).
Context (Hcipher : zlen cipher < 2 ^ 31) (Hkdf : zlen kdf < 2 ^ 31) (Hopts : zlen kdfOpts < 2 ^ 31).
Context (Hcheck : zlen check = 4) (Hseed : zlen seed = 32) (Hpub : zlen pub = 32).
Context (Hcomment : zlen comment < 2 ^ 31) (Hbs : 0 < bs <= 16).

Notation block := (blockOf check seed pub comment bs).
Notation pad := (padLen bs (privLen comment)).

Lemma privLen_nonneg : 0 <= privLen comment.
Proof. unfold privLen, sshStrLen. change (zlen opensshKeyEd25519) with 11. pose proof (zlen_nonneg comment). lia. Qed.

Lemma pad_bound : 0 <= pad < bs.
Proof. apply padLen_bound; [lia|apply privLen_nonneg]. Qed.

Lemma zlen_block : zlen block = privLen comment + pad.
Proof.
  pose proof pad_bound. unfold blockOf. rewrite !zlen_app, !zlen_sshS, zlen_app, zlen_seqZ by lia.
  set (p := padLen _ _) in *. clearbody p.
  unfold privLen, sshStrLen. change (zlen opensshKeyEd25519) with 11. lia.
Qed.

Lemma zlen_block_bound : 16 <= zlen block < 2 ^ 32.
Proof.
  pose proof pad_bound as Hp. pose proof (zlen_nonneg comment). rewrite zlen_block.
  set (p := padLen _ _) in *. clearbody p. unfold privLen, sshStrLen.
  change (zlen opensshKeyEd25519) with 11. lia.
Qed.

Lemma zlen_pubBlob : zlen (pubBlobOf pub) = pubBlobLen.
Proof. unfold pubBlobOf, pubBlobLen, sshStrLen. rewrite zlen_app, !zlen_sshS. lia. Qed.

Lemma zlen_container : zlen (containerOf cipher kdf kdfOpts pub block) = containerLen cipher kdf (zlen kdfOpts) (privLen comment + pad).
Proof.
  unfold containerOf, containerLen. rewrite !zlen_app, !zlen_sshS, zlen_be_bytes, zlen_block, zlen_pubBlob.
  unfold sshStrLen. change (Z.of_nat 4) with 4. lia.
Qed.

(** What is in front of the private block. *)
Definition frontOf : list Z :=
  opensshMagic ++ sshS cipher ++ sshS kdf ++ sshS kdfOpts ++ be_bytes 4 1 ++ sshS (pubBlobOf pub) ++ be_bytes 4 (zlen block).

Lemma container_front : containerOf cipher kdf kdfOpts pub block = frontOf ++ block.
Proof. unfold containerOf, frontOf, sshS at 5. by rewrite <- !app_assoc. Qed.

Lemma front_writes :
  writes (bytes_ opensshMagic;; strs cipher;; strs kdf;; str_ kdfOpts;; uint32_ 1;;
          length_ pubBlobLen;; strs opensshKeyEd25519;; str_ pub;; length_ (privLen comment + pad)) frontOf.
Proof.
  pose proof zlen_block_bound. pose proof zlen_block as Eb. unfold frontOf. rewrite Eb.
  unfold sshS at 4. rewrite zlen_pubBlob. unfold pubBlobOf. rewrite <- !app_assoc.
  assert (zlen opensshKeyEd25519 < 2 ^ 32) by by vm_compute.
  assert (0 <= pubBlobLen < 2 ^ 32) by (vm_compute; split; congruence).
  repeat (apply writes_seq; [auto with writes lia|]); apply writes_length; lia.
Qed.

Lemma block_writes :
  writes (bytes_ check;; bytes_ check;; strs opensshKeyEd25519;; str_ pub;;
          length_ 64;; bytes_ seed;; bytes_ pub;; strs comment;; writePad pad) block.
Proof.
  pose proof pad_bound. unfold blockOf. assert (zlen opensshKeyEd25519 < 2 ^ 32) by by vm_compute.
  unfold sshS at 3. rewrite zlen_app, Hseed, Hpub, <- !app_assoc.
  repeat (apply writes_seq; [auto with writes lia|]). apply writes_pad. lia.
Qed.

Lemma writeContainer_run b :
  zlen b = zlen (containerOf cipher kdf kdfOpts pub block) ->
  writeContainer cipher kdf kdfOpts check seed pub comment pubBlobLen (privLen comment + pad) pad (Writer b 0) =
  Ret (zlen frontOf, zlen (containerOf cipher kdf kdfOpts pub block))
      (Writer (containerOf cipher kdf kdfOpts pub block) (zlen (containerOf cipher kdf kdfOpts pub block))).
Proof.
  rewrite container_front. intros Hb. unfold zlen in Hb. rewrite length_app in Hb.
  change (Writer b 0) with (Writer ([] ++ b) (zlen (@nil Z))). unfold writeContainer.
  rewrite (writes_bind _ _ _ _ _ front_writes) by lia. cbn [app].
  change ((gets wr_n ≫= ?k) ?w) with (k (wr_n w) w). cbv beta. cbn [wr_n].
  rewrite (writes_bind _ _ _ _ _ block_writes) by (rewrite length_drop; lia).
  change ((gets wr_n ≫= ?k) ?w) with (k (wr_n w) w). cbv beta. cbn [wr_n].
  by rewrite drop_drop, drop_ge, app_nil_r by lia.
Qed.

(** The same layout around any block of that length. *)
Lemma container_block e :
  length e = length block -> lset (zlen frontOf) e (containerOf cipher kdf kdfOpts pub block) = containerOf cipher kdf kdfOpts pub e.
Proof.
  intros He. rewrite container_front. rewrite lset_app by lia. rewrite drop_ge, app_nil_r by lia.
  assert (zlen e = zlen block) as Hz by (unfold zlen; lia).
  unfold containerOf, frontOf. rewrite <- Hz. unfold sshS at 9. by rewrite <- !app_assoc.
Qed.

Lemma container_lsub : lsub (zlen frontOf) (zlen frontOf + (privLen comment + pad)) (containerOf cipher kdf kdfOpts pub block) = block.
Proof.
  rewrite container_front, <- zlen_block. unfold lsub, zlen.
  rewrite Nat2Z.id, drop_app_length, take_ge by lia. done.
Qed.
End layout.

(** ** The readers read it *)

Lemma r_uint32_app v r : 0 <= v < 2 ^ 32 -> r_uint32 (be_bytes 4 v ++ r) = Some (v, r).
Proof.
  intros Hv. unfold r_uint32. rewrite zlen_app, zlen_be_bytes. pose proof (zlen_nonneg r).
  destruct (Z.ltb_spec (Z.of_nat 4 + zlen r) 4); [lia|].
  rewrite <- (length_be_bytes 4 v) at 1 3. rewrite take_app_length, drop_app_length, be_be_bytes, Z.mod_small by done. done.
Qed.

Lemma r_str_app s r : zlen s < 2 ^ 32 -> r_str (sshS s ++ r) = Some (s, r).
Proof.
  intros Hs. unfold r_str, sshS. rewrite <- app_assoc, r_uint32_app by (pose proof (zlen_nonneg s); lia). cbn.
  rewrite zlen_app. pose proof (zlen_nonneg r). destruct (Z.ltb_spec (zlen s + zlen r) (zlen s)); [lia|].
  unfold zlen. by rewrite Nat2Z.id, take_app_length, drop_app_length.
Qed.

Lemma r_str_all s : zlen s < 2 ^ 32 -> r_str (sshS s) = Some (s, []).
Proof. intros Hs. rewrite <- (app_nil_r (sshS s)). by apply r_str_app. Qed.

Lemma readHeader_container cipher kdf kdfOpts pub block :
  zlen cipher < 2 ^ 31 -> zlen kdf < 2 ^ 31 -> zlen kdfOpts < 2 ^ 31 -> zlen pub = 32 -> zlen block < 2 ^ 32 ->
  (cipher = opensshCipherNone <-> kdf = opensshKDFNone) -> (kdf = opensshKDFNone -> kdfOpts = []) ->
  readOpenSSHHeader (containerOf cipher kdf kdfOpts pub block) =
  inr (OpensshHeader cipher kdf kdfOpts 1 (pubBlobOf pub) block []).
Proof.
  intros H1 H2 H3 H4 H5 Hnone Hopts. unfold readOpenSSHHeader, containerOf.
  rewrite HasPrefix_app. cbn [negb]. rewrite drop_app_length. unfold readFields.
  assert (zlen (pubBlobOf pub) < 2 ^ 32) by (unfold pubBlobOf; rewrite zlen_app, !zlen_sshS, H4; vm_compute; reflexivity).
  rewrite r_str_app by lia. cbn [mbind option_bind]. rewrite r_str_app by lia. cbn [mbind option_bind].
  rewrite r_str_app by lia. cbn [mbind option_bind]. rewrite r_uint32_app by lia. cbn [mbind option_bind].
  rewrite r_str_app by lia. cbn [mbind option_bind]. rewrite r_str_all by lia. cbn [mbind option_bind].
  cbn [h_cipher h_kdf h_kdfOpts]. unfold bytes_Equal.
  rewrite (bool_decide_ext _ _ Hnone), eqb_reflx. cbn [negb].
  case_bool_decide as Hk; [|done]. by rewrite (Hopts Hk).
Qed.

Lemma checkPadding_seqZ n bs : 0 <= n < bs -> checkOpenSSHPadding (seqZ 1 n) bs = None.
Proof.
  intros Hn. unfold checkOpenSSHPadding. rewrite zlen_seqZ by lia.
  destruct (Z.leb_spec bs n); [lia|]. change (seqZ 1 n) with (seqZ (1 + 0) n). rewrite <- fmap_add_seqZ.
  induction (seqZ 0 n) as [|i l IH]; [done|]. cbn. rewrite (Z.add_comm i), Z.eqb_refl. exact IH.
Qed.

Lemma bytes_Equal_refl b : bytes_Equal b b = true.
Proof. unfold bytes_Equal. by apply bool_decide_eq_true. Qed.

Lemma parseBlock_ed25519 `{!Crypto} check seed comment bs :
  zlen check = 4 -> bytes check -> zlen seed = 32 -> zlen (c_ed25519 seed) = 32 -> zlen comment < 2 ^ 31 -> 0 < bs <= 16 ->
  (forall n, c_alloc n = None) ->
  parseOpenSSHPrivateBlock (blockOf check seed (c_ed25519 seed) comment bs) (pubBlobOf (c_ed25519 seed)) bs tt =
  Ret (inr (PSigner (Ed25519Signer seed (c_ed25519 seed)))) tt.
Proof.
  intros Hc Hcb Hs Hp Hm Hbs Halloc. set (pub := c_ed25519 seed) in *.
  pose proof (pad_bound comment bs Hbs) as Hpad. unfold blockOf, pubBlobOf, parseOpenSSHPrivateBlock.
  assert (check = be_bytes 4 (be check)) as Ec by (rewrite <- (be_bytes_be check Hcb) at 1; f_equal; unfold zlen in Hc; lia).
  pose proof (be_bound check Hcb) as Bc. rewrite Hc in Bc.
  set (v := be check) in *. clearbody v. subst check. clear Hcb Hc.
  assert (zlen (seed ++ pub) = 64) as Hsp by (rewrite zlen_app; lia).
  rewrite r_uint32_app by exact Bc. cbn [mbind option_bind].
  rewrite r_uint32_app by exact Bc. cbn [mbind option_bind]. rewrite Z.eqb_refl. cbn [negb].
  rewrite r_str_app by (vm_compute; reflexivity). rewrite r_str_app by (vm_compute; reflexivity).
  rewrite bytes_Equal_refl. cbn [negb]. change (bytes_Equal opensshKeyEd25519 (str "ssh-ed25519")) with true. cbn iota.
  unfold mret, M_ret. f_equal. unfold parseEd25519Block.
  rewrite r_str_app by lia. cbn [mbind option_bind]. rewrite r_str_app by lia. cbn [mbind option_bind].
  rewrite r_str_app by lia. cbn [mbind option_bind]. rewrite Hsp, Hp. cbn [Z.eqb Pos.eqb negb orb].
  rewrite checkPadding_seqZ by lia. rewrite r_str_all by lia. rewrite bytes_Equal_refl.
  assert (length seed = 32%nat) as Ls by (unfold zlen in Hs; lia). 
  assert (take 32 (seed ++ pub) = seed) as -> by (rewrite <- Ls; apply take_app_length).
  assert (drop 32 (seed ++ pub) = pub) as -> by (rewrite <- Ls; apply drop_app_length).
  rewrite bytes_Equal_refl. cbn [negb orb].
  unfold ed25519FromSeed, newEd25519Signer. rewrite Hs, Halloc. cbn [Z.eqb Pos.eqb negb]. fold pub. by rewrite bytes_Equal_refl.
Qed.

(** ** The marshaller's run *)

Section run.
Context `{!Crypto}.
Context (Halloc : forall n, c_alloc n = None) (Hwipe : c_wipeAES = None).

Lemma armour_run cont : armour cont tt = Ret (inr (pemFile opensshPEMType cont)) tt.
Proof.
  unfold armour. rewrite Halloc. set (n := pemLen _ _).
  assert (0 <= n) as Hn by (unfold n; rewrite <- pemFile_len; apply zlen_nonneg).
  unfold mbind, M_bind, withSlice. rewrite pemEncode_run by by rewrite zlen_zeros.
  rewrite zlen_zeros, Z.eqb_refl by done. done.
Qed.

(** The key stream of a passphrase and salt. *)
Definition ctrOf (passphrase salt : list Z) (rounds : Z) (src : list Z) : list Z :=
  let kiv := default [] (derive 48 passphrase salt rounds) in
  ctrXOR (c_aes_enc (take 32 kiv)) (drop 32 kiv) src.

Lemma kiv_some `{!CryptoOk} passphrase salt rounds :
  exists kiv, derive 48 passphrase salt rounds = Some kiv /\ length kiv = 48%nat.
Proof. destruct (derive_some 48 passphrase salt rounds) as (kiv & E & L & _). by exists kiv. Qed.

Lemma crypt_ctr `{!CryptoOk} ws src tag passphrase salt rounds d :
  passphrase <> [] -> zlen salt = 16 -> 1 <= rounds ->
  opensshCrypt ws src tag passphrase salt rounds cipherAES256CTR d tt = Ret (inr (ctrOf passphrase salt rounds src)) tt.
Proof.
  intros Hp Hs Hr. unfold opensshCrypt. rewrite Halloc. cbn [keyLen ivLen cbc].
  change (32 =? 0) with false. cbn iota. change (32 + opensshAESBlock) with 48. unfold Derive, Check_. rewrite Hs.
  destruct (Z.ltb_spec rounds 1); [lia|]. destruct passphrase as [|x passphrase]; [done|].
  rewrite zlen_cons. pose proof (zlen_nonneg passphrase). destruct (Z.eqb_spec (1 + zlen passphrase) 0); [lia|].
  cbn [Z.eqb orb Z.leb]. change (MaxSaltLen <? 16) with false. change (MaxKeyLen <? 48) with false. cbn iota.
  unfold ctrOf. destruct (kiv_some (x :: passphrase) salt rounds) as (kiv & -> & _). cbn [fmap option_fmap option_map]. change (default [] (Some kiv)) with kiv.
  unfold mbind, M_bind, mret, M_ret. by rewrite Hwipe.
Qed.

Lemma length_ctrOf `{!CryptoOk} passphrase salt rounds src : length (ctrOf passphrase salt rounds src) = length src.
Proof.
  unfold ctrOf. destruct (kiv_some passphrase salt rounds) as (kiv & -> & L). change (default [] (Some kiv)) with kiv.
  apply length_ctr_loop; [by apply c_aes_len| |done]. by rewrite length_drop, L.
Qed.

Lemma ctrOf_involutive `{!CryptoOk} passphrase salt rounds src :
  ctrOf passphrase salt rounds (ctrOf passphrase salt rounds src) = src.
Proof.
  unfold ctrOf. destruct (kiv_some passphrase salt rounds) as (kiv & -> & L). change (default [] (Some kiv)) with kiv.
  apply ctrXOR_involutive; [by apply c_aes_len|]. by rewrite length_drop, L.
Qed.

Lemma bytes_ctrOf `{!CryptoOk} passphrase salt rounds src : bytes src -> bytes (ctrOf passphrase salt rounds src).
Proof. apply bytes_ctrXOR. intros b. apply c_aes_bytes. Qed.

Section build.
Context (ws rounds bs : Z) (cipher kdf salt passphrase check seed comment : list Z) (optsTail : list Z).
Let pub := c_ed25519 seed.
Context (Hcipher : zlen cipher < 2 ^ 31) (Hkdf : zlen kdf < 2 ^ 31).
Context (Hcheck : zlen check = 4) (Hseed : zlen seed = 32) (Hpub : zlen (c_ed25519 seed) = 32).
Context (Hcomment : zlen comment < 2 ^ 31) (Hbs : 0 < bs <= 16).

Lemma buildContainer_run kdfOpts :
  zlen kdfOpts < 2 ^ 31 ->
  (passphrase = [] \/ passphrase <> [] /\ kdfOpts = sshS salt ++ optsTail /\ zlen salt = 16 /\ 1 <= rounds) ->
  CryptoOk ->
  buildContainer ws (inr seed) pub comment passphrase cipher kdf kdfOpts check rounds bs tt =
  Ret (inr (containerOf cipher kdf kdfOpts pub
    (let block := blockOf check seed pub comment bs in
     if (zlen passphrase =? 0) then block else ctrOf passphrase salt rounds block))) tt.
Proof.
  intros Hopts Hcase Hok. unfold buildContainer. rewrite Halloc.
  rewrite <- (zlen_container cipher kdf kdfOpts check seed pub comment bs) by done.
  set (total := zlen (containerOf _ _ _ _ _)). assert (0 <= total) by apply zlen_nonneg.
  unfold mbind at 1, M_bind at 1, withSlice. rewrite writeContainer_run by (rewrite ?zlen_zeros by done; done).
  cbn [wr_b]. fold total. rewrite Z.eqb_refl. cbn [negb]. destruct Hcase as [->|(Hp & -> & Hsalt & Hr)]; [done|].
  assert (zlen passphrase =? 0 = false) as -> by (apply Z.eqb_neq; unfold zlen; destruct passphrase; cbn; [done|lia]).
  unfold encryptBlock. rewrite container_lsub by done.
  assert (lsub 4 (4 + opensshSaltLen) (sshS salt ++ optsTail) = salt) as ->.
  { unfold lsub, sshS, opensshSaltLen. rewrite <- app_assoc. change (Z.to_nat 4) with 4%nat.
    rewrite <- (length_be_bytes 4 (zlen salt)) at 1. rewrite drop_app_length. change (Z.to_nat (4 + 16 - 4)) with 16%nat.
    assert (length salt = 16%nat) as <- by (unfold zlen in Hsalt; lia). apply take_app_length. }
  unfold mbind, M_bind. rewrite crypt_ctr by done. unfold mret, M_ret. do 2 f_equal. apply container_block.
  apply length_ctrOf.
Qed.
End build.

Lemma kdfOpts_run salt rounds :
  zlen salt = 16 -> 1 <= rounds <= 2048 ->
  withSlice (writeKDFOpts salt rounds) (zeros opensshKDFOptsSize) tt = Ret (24, sshS salt ++ be_bytes 4 rounds) tt.
Proof.
  intros Hs Hr. unfold withSlice, writeKDFOpts, mbind at 1, M_bind at 1.
  rewrite (writes_all _ (sshS salt ++ be_bytes 4 rounds)).
  - unfold gets. cbn [wr_n wr_b]. by rewrite zlen_app, zlen_sshS, zlen_be_bytes, Hs.
  - rewrite Z.mod_small by lia. unfold sshS. rewrite Hs, <- app_assoc.
    repeat (apply writes_seq; [auto with writes|]); auto with writes. apply writes_length. by vm_compute.
  - pose proof (zlen_app (sshS salt) (be_bytes 4 rounds)) as E. rewrite zlen_sshS, zlen_be_bytes, Hs in E.
    unfold zlen in E. change (length (zeros opensshKDFOptsSize)) with 24%nat. lia.
Qed.
Notation pub seed := (c_ed25519 seed).

(** The container for a passphrase, none when it is empty. *)
Definition containerFor (passphrase salt : list Z) (rounds : Z) (check seed comment : list Z) : list Z :=
  if (zlen passphrase =? 0)
  then containerOf opensshCipherNone opensshKDFNone [] (pub seed) (blockOf check seed (pub seed) comment 8)
  else containerOf opensshCipherCTR opensshKDFBcrypt (sshS salt ++ be_bytes 4 rounds) (pub seed)
         (ctrOf passphrase salt rounds (blockOf check seed (pub seed) comment 16)).

Record fileArgs (passphrase salt : list Z) (rounds : Z) (check seed comment : list Z) : Prop := {
  fa_rounds : passphrase <> [] -> 1 <= rounds <= 2048;
  fa_salt : zlen salt = 16; fa_saltb : bytes salt;
  fa_check : zlen check = 4; fa_checkb : bytes check;
  fa_seed : zlen seed = 32; fa_seedb : bytes seed;
  fa_comment : zlen comment < 2 ^ 31; fa_commentb : bytes comment
}.

Lemma zlen_nonzero {A} (l : list A) : l <> [] -> zlen l =? 0 = false /\ 0 <? zlen l = true.
Proof. destruct l as [|x l]; [done|]. intros _. rewrite zlen_cons. pose proof (zlen_nonneg l). lia. Qed.

Section file.
Context `{!CryptoOk} (ws rounds : Z) (passphrase salt check seed comment : list Z).
Context (Hargs : fileArgs passphrase salt rounds check seed comment).

Lemma zlen_pub : zlen (pub seed) = 32.
Proof. unfold zlen. by rewrite c_ed25519_len. Qed.

Lemma marshal_run :
  marshalOpenSSH ws (Some (inr seed)) (pub seed) comment passphrase rounds (inr salt) (inr check) tt =
  Ret (inr (pemFile opensshPEMType (containerFor passphrase salt rounds check seed comment))) tt.
Proof.
  destruct Hargs. pose proof zlen_pub. unfold marshalOpenSSH, containerFor.
  destruct (decide (passphrase = [])) as [->|Hp].
  - change (0 <? zlen (@nil Z)) with false. change (zlen (@nil Z) =? 0) with true. cbn [andb].
    unfold mbind at 1, M_bind at 1, mret at 1, M_ret at 1. unfold mbind at 1, M_bind at 1.
    rewrite (buildContainer_run ws rounds _ _ _ [] [] check seed comment []); try done; [apply armour_run|by left].
  - destruct (zlen_nonzero _ Hp) as [-> ->]. specialize (fa_rounds0 Hp). unfold MaxOpenSSHKDFRounds, opensshMaxRounds.
    destruct (Z.ltb_spec rounds 1); [lia|]. destruct (Z.ltb_spec 2048 rounds); [lia|]. cbn [andb orb].
    unfold mbind at 1, M_bind at 1. unfold mbind at 1, M_bind at 1. rewrite kdfOpts_run by done.
    assert (zlen (sshS salt ++ be_bytes 4 rounds) = 24) as E by (rewrite zlen_app, zlen_sshS, zlen_be_bytes; lia).
    unfold mret, M_ret. rewrite take_ge by (unfold zlen in E; lia). unfold mbind, M_bind.
    rewrite (buildContainer_run ws rounds _ _ _ salt passphrase check seed comment (be_bytes 4 rounds)); try done.
    + destruct (zlen_nonzero _ Hp) as [-> _]. apply armour_run.
    + lia.
    + right. split_and!; [done..|lia].
Qed.
Notation signer := (Ed25519Signer seed (pub seed)).

Lemma parse_plain pw :
  passphrase = [] ->
  let c := containerFor passphrase salt rounds check seed comment in
  parseOpenSSH c tt = Ret (inr signer) tt /\ parseOpenSSHEncrypted ws c pw tt = Ret (inl ErrNotEncrypted) tt.
Proof.
  intros ->. destruct Hargs. pose proof zlen_pub as Hpub. unfold containerFor. cbn zeta. change (zlen (@nil Z) =? 0) with true. cbn iota.
  pose proof (zlen_block_bound check seed (pub seed) comment 8 ltac:(done) ltac:(done) ltac:(done) ltac:(done) ltac:(lia)) as Hb.
  pose proof (zlen_block check seed (pub seed) comment 8 ltac:(done) ltac:(done) ltac:(done) ltac:(lia)) as Eb.
  unfold parseOpenSSH, parseOpenSSHEncrypted. rewrite readHeader_container by (done || lia).
  split; [|done]. cbn [h_cipher h_rest h_numKeys h_privBlock h_pubBlob]. rewrite bytes_Equal_refl. cbn [negb].
  change (zlen (@nil Z) =? 0) with true. change (1 =? 1) with true. cbn [negb].
  destruct (Z.eqb_spec (zlen (blockOf check seed (pub seed) comment 8)) 0); [lia|].
  assert (Z.rem (zlen (blockOf check seed (pub seed) comment 8)) opensshNoneBlock = 0) as ->.
  { rewrite Eb. apply padLen_mult; [done|]. by apply privLen_nonneg. }
  cbn [Z.eqb negb orb]. unfold mbind, M_bind.
  by rewrite (parseBlock_ed25519 check seed comment 8) by (done || lia).
Qed.

Lemma parse_protected :
  passphrase <> [] ->
  let c := containerFor passphrase salt rounds check seed comment in
  parseOpenSSHEncrypted ws c passphrase tt = Ret (inr signer) tt /\ parseOpenSSH c tt = Ret (inl ErrEncryptedKey) tt.
Proof.
  intros Hp. destruct Hargs. pose proof zlen_pub as Hpub. unfold containerFor. destruct (zlen_nonzero _ Hp) as [-> _]. cbn zeta.
  specialize (fa_rounds0 Hp).
  pose proof (zlen_block_bound check seed (pub seed) comment 16 ltac:(done) ltac:(done) ltac:(done) ltac:(done) ltac:(lia)) as Hb.
  pose proof (zlen_block check seed (pub seed) comment 16 ltac:(done) ltac:(done) ltac:(done) ltac:(lia)) as Eb.
  set (block := blockOf _ _ _ _ _) in *. set (e := ctrOf _ _ _ _).
  assert (zlen e = zlen block) as He by (unfold zlen, e; by rewrite length_ctrOf).
  assert (zlen (sshS salt ++ be_bytes 4 rounds) = 24) as E24 by (rewrite zlen_app, zlen_sshS, zlen_be_bytes; lia).
  unfold parseOpenSSH, parseOpenSSHEncrypted. rewrite readHeader_container by (done || lia).
  split; [|done]. unfold openEncrypted, admitEncrypted. cbn [h_cipher h_kdf h_kdfOpts h_rest h_numKeys h_privBlock h_pubBlob].
  change (bytes_Equal opensshCipherCTR opensshCipherNone) with false. rewrite bytes_Equal_refl.
  change (opensshCipherByName opensshCipherCTR) with cipherAES256CTR. cbn [negb tagLen blockLen].
  change (bool_decide (cipherAES256CTR = cipherUnsupported)) with false. change (zlen (@nil Z) =? 0) with true. cbn [negb Z.eqb Pos.eqb].
  rewrite r_str_app by lia. cbn [mbind option_bind].
  rewrite <- (app_nil_r (be_bytes 4 rounds)), r_uint32_app by lia. cbn [mbind option_bind].
  change (zlen (@nil Z) =? 0) with true. rewrite fa_salt0. destruct (Z.eqb_spec rounds 0); [lia|]. cbn [negb orb Z.eqb].
  change (MaxSaltLen <? 16) with false. destruct (Z.ltb_spec opensshMaxRounds rounds) as [Hlt|_]; [unfold opensshMaxRounds in Hlt; lia|].
  destruct (Z.eqb_spec (zlen e) 0); [lia|].
  assert (Z.rem (zlen e) opensshAESBlock = 0) as ->.
  { rewrite He, Eb. apply padLen_mult; [done|]. by apply privLen_nonneg. }
  cbn [Z.eqb negb orb]. unfold admitOpenSSHKeyType at 1. unfold pubBlobOf at 1. rewrite r_str_app by done.
  change (bytes_Equal opensshKeyEd25519 (str "ssh-ed25519")) with true. rewrite Halloc.
  unfold mbind at 1, M_bind at 1. rewrite crypt_ctr by (done || lia).
  unfold e. rewrite ctrOf_involutive. unfold mbind, M_bind.
  pose proof (parseBlock_ed25519 check seed comment 16) as E. fold block in E. change (blockLen cipherAES256CTR) with 16.
  by rewrite E by (done || lia).
Qed.
End file.
End run.

(** ** The round trip *)

Lemma bytes_sshS s : bytes s -> bytes (sshS s).
Proof. intros Hs. unfold sshS. apply Forall_app. split; [apply bytes_be_bytes|done]. Qed.

Lemma bytes_str s : bytes (str s).
Proof.
  unfold str. apply Forall_fmap, Forall_true. intros c. unfold compose, is_byte.
  pose proof (Ascii.N_ascii_bounded c). lia.
Qed.

Lemma bytes_seqZ n : n <= 255 -> bytes (seqZ 1 n).
Proof. intros Hn. apply Forall_forall. intros i Hi%elem_of_seqZ. unfold is_byte. lia. Qed.

Lemma bytes_names : bytes opensshKeyEd25519 /\ bytes opensshMagic /\ bytes opensshCipherNone /\ bytes opensshKDFNone /\
  bytes opensshCipherCTR /\ bytes opensshKDFBcrypt.
Proof. split_and!; try apply bytes_str. apply Forall_app. split; [apply bytes_str|by repeat constructor]. Qed.

#[local] Hint Resolve bytes_sshS bytes_be_bytes Forall_app_2 : bytes.

Lemma bytes_blockOf check seed pub comment bs :
  bytes check -> bytes seed -> bytes pub -> bytes comment -> 0 < bs <= 16 -> bytes (blockOf check seed pub comment bs).
Proof.
  intros. pose proof (pad_bound comment bs ltac:(lia)). unfold blockOf.
  pose proof bytes_names as (? & _). pose proof (bytes_seqZ (padLen bs (privLen comment)) ltac:(lia)). auto 12 with bytes.
Qed.

Lemma bytes_containerOf cipher kdf kdfOpts pub block :
  bytes cipher -> bytes kdf -> bytes kdfOpts -> bytes pub -> bytes block -> bytes (containerOf cipher kdf kdfOpts pub block).
Proof.
  intros. unfold containerOf, pubBlobOf. pose proof bytes_names as (? & ? & _). auto 12 with bytes.
Qed.

Lemma bytes_containerFor `{CryptoOk} passphrase salt rounds check seed comment :
  fileArgs passphrase salt rounds check seed comment -> bytes (containerFor passphrase salt rounds check seed comment).
Proof.
  intros []. pose proof (c_ed25519_bytes seed). pose proof bytes_names as (_ & _ & ? & ? & ? & ?). unfold containerFor.
  case_match; apply bytes_containerOf; auto using bytes_blockOf, bytes_ctrOf with bytes lia.
Qed.

(** C39. The file an exported marshal call writes for a seed, with a passphrase
    or without, is a PEM block of the right type whose body decodes, and the
    container in it opens as exactly the signer of that seed: without a
    passphrase through [parseOpenSSH], with one through [parseOpenSSHEncrypted]
    under the same passphrase; the other entry point names the file as
    encrypted, or as not. *)
Theorem openssh_roundtrip `{CryptoOk} ws passphrase salt rounds check seed comment :
  (forall n, c_alloc n = None) -> c_wipeAES = None ->
  fileArgs passphrase salt rounds check seed comment ->
  let s := Some (inr seed) in
  let pub := c_ed25519 seed in
  exists file body c,
    (if decide (passphrase = [])
     then MarshalOpenSSHPrivateKey ws s pub comment (inr salt) (inr check)
     else MarshalOpenSSHPrivateKeyWithPassphraseParams ws s pub comment passphrase rounds (inr salt) (inr check)) tt
      = Ret (inr file) tt /\
    pemBlock file = inr (opensshPEMType, body) /\
    decodePEMBody c_alloc body = inr c /\
    (passphrase = [] ->
       parseOpenSSH c tt = Ret (inr (Ed25519Signer seed pub)) tt /\
       forall pw, parseOpenSSHEncrypted ws c pw tt = Ret (inl ErrNotEncrypted) tt) /\
    (passphrase <> [] ->
       parseOpenSSHEncrypted ws c passphrase tt = Ret (inr (Ed25519Signer seed pub)) tt /\
       parseOpenSSH c tt = Ret (inl ErrEncryptedKey) tt).
Proof.
  intros Halloc Hwipe Hargs. cbv zeta. set (c := containerFor passphrase salt rounds check seed comment).
  assert (bytes c) as Hc by by apply bytes_containerFor.
  assert (c <> []) as Hn by (unfold c, containerFor; by case_match).
  exists (pemFile opensshPEMType c), (pemText (length c) c), c. split_and!.
  - case_decide as Hp.
    + unfold MarshalOpenSSHPrivateKey, mbind, M_bind, c. subst passphrase.
      rewrite (marshal_run Halloc Hwipe ws OpenSSHKDFRounds [] salt check seed comment); [done|]. by destruct Hargs.
    + unfold MarshalOpenSSHPrivateKeyWithPassphraseParams. destruct (zlen_nonzero _ Hp) as [-> _].
      unfold mbind, M_bind. by rewrite marshal_run.
  - apply pemBlock_file; [|done]. split; apply (bool_decide_unpack _); vm_compute; exact I.
  - by apply decodePEMBody_text.
  - intros Hp. split; [by apply (parse_plain Halloc ws rounds passphrase salt check seed comment Hargs [])|].
    intros pw. by apply (parse_plain Halloc ws rounds passphrase salt check seed comment Hargs pw).
  - intros Hp. by apply parse_protected.
Qed.

(** A concrete library: a block function that adds the key, a digest and a hash
    of a fixed length. *)
Definition toy : Crypto := {|
  c_aes_enc k b := (fun x => (x + be k) mod 256) <$> b;
  c_aes_dec k b := (fun x => (x - be k) mod 256) <$> b;
  c_sha512 b := be_bytes 64 (be b);
  c_poly1305 m k := be_bytes 16 (be m + be k);
  c_ed25519 s := be_bytes 32 (be s + 1);
  c_ecdsa _ _ := inl (Msg "no curve");
  c_rsa _ := Some (Msg "no RSA");
  c_alloc _ := None;
  c_wipeAES := None;
  c_heapTransients := false
|}.

Lemma toy_ok : @CryptoOk toy.
Proof.
  split; unfold c_aes_enc, c_aes_dec, c_sha512, c_ed25519, toy.
  - intros k b Hb. by rewrite length_fmap.
  - intros k b. apply Forall_fmap, Forall_true. intros x. apply Z.mod_pos_bound. lia.
  - intros k b. apply Forall_fmap, Forall_true. intros x. apply Z.mod_pos_bound. lia.
  - intros b. apply length_be_bytes.
  - intros s. apply length_be_bytes.
  - intros s. apply bytes_be_bytes.
  - intros k b Hb. by rewrite length_fmap.
Qed.

#[local] Existing Instances toy toy_ok.

Lemma toy_args : fileArgs (str "pw") (seqZ 7 16) 16 [1; 2; 3; 4] (seqZ 0 32) (str "k").
Proof.
  split; try apply bytes_str; try (by vm_compute); try (apply (bool_decide_unpack _); by vm_compute).
Qed.

Lemma openssh_roundtrip_witness : exists file body c,
    MarshalOpenSSHPrivateKeyWithPassphraseParams 4096 (Some (inr (seqZ 0 32))) (c_ed25519 (seqZ 0 32)) (str "k") (str "pw") 16
      (inr (seqZ 7 16)) (inr [1; 2; 3; 4]) tt = Ret (inr file) tt /\
    pemBlock file = inr (opensshPEMType, body) /\ decodePEMBody c_alloc body = inr c /\
    parseOpenSSHEncrypted 4096 c (str "pw") tt = Ret (inr (Ed25519Signer (seqZ 0 32) (c_ed25519 (seqZ 0 32)))) tt.
Proof.
  destruct (@openssh_roundtrip toy toy_ok 4096 _ _ _ _ _ _ (fun _ => eq_refl) eq_refl toy_args) as (file & body & c & H1 & H2 & H3 & _ & H4).
  exists file, body, c. rewrite decide_False in H1 by discriminate. destruct (H4 ltac:(discriminate)) as [H5 _]. exact (conj H1 (conj H2 (conj H3 H5))).
Defined.
