(* ===== verification/Verdict.v ===== *)
(** * What opening a protected file answers (secmem-crypto/parse_encrypted.go)

    After the key derivation, everything that can be wrong with a file collapses
    to one error. [with_contents] keeps what a header says in clear and replaces
    what only the passphrase can judge: the private block and the
    authenticator. *)
From S2P Require Import Prelude Errors KeyErrors Bytes Writer RsaKey Pem OpenSSHCipher OpenSSH Marshal.

Definition with_contents (h : opensshHeader) (block rest : list Z) : opensshHeader :=
  OpensshHeader (h_cipher h) (h_kdf h) (h_kdfOpts h) (h_numKeys h) (h_pubBlob h) block rest.

(** ** Reading bytes gives bytes *)

Lemma r_str_bytes b s r : bytes b -> r_str b = Some (s, r) -> bytes s /\ bytes r.
Proof.
  intros Hb. unfold r_str, r_uint32. case_match; [done|]. cbn. case_match; [done|]. intros [= <- <-].
  split; [by apply Forall_take, Forall_drop|by apply Forall_drop, Forall_drop].
Qed.

Lemma r_uint32_bytes b v r : bytes b -> r_uint32 b = Some (v, r) -> bytes r.
Proof. intros Hb. unfold r_uint32. case_match; [done|]. intros [= <- <-]. by apply Forall_drop. Qed.

(** Take one string off the front of a hypothesis of reads. *)
Ltac read_step :=
  match goal with
  | Hb : bytes ?b, H : (r_str ?b ≫= _) = Some _ |- _ =>
      let s := fresh "s" in let r := fresh "r" in let E := fresh "E" in
      destruct (r_str b) as [[s r]|] eqn:E; [|discriminate H]; cbn [mbind option_bind] in H;
      destruct (r_str_bytes b s r Hb E)
  | Hb : bytes ?b, H : (r_uint32 ?b ≫= _) = Some _ |- _ =>
      let v := fresh "v" in let r := fresh "r" in let E := fresh "E" in
      destruct (r_uint32 b) as [[v r]|] eqn:E; [|discriminate H]; cbn [mbind option_bind] in H;
      pose proof (r_uint32_bytes b v r Hb E)
  end.

Section verdict.
Context `{CryptoOk}.

(** ** The block parser always returns *)

Lemma parseRSABlock_returns p pub bs : bytes p -> exists r, parseRSABlock p pub bs tt = Ret r tt.
Proof.
  intros Hp. unfold parseRSABlock. case_match eqn:E; [|by eexists].
  repeat case_match; try by eexists. simplify_eq.
  repeat read_step. simplify_eq. edestruct pkcs1DER_run as (res & Er & _); [..|by eexists]; done.
Qed.

Lemma parseBlock_returns plain pub bs : bytes plain -> exists r, parseOpenSSHPrivateBlock plain pub bs tt = Ret r tt.
Proof.
  intros Hp. unfold parseOpenSSHPrivateBlock. case_match eqn:E; [|by eexists].
  destruct p as [[check1 check2] p]. repeat read_step. simplify_eq.
  repeat (case_match; try by eexists).
  match goal with Hr : r_str ?b = Some (?s, ?r), Hb : bytes ?b |- _ => destruct (r_str_bytes b s r Hb Hr) end.
  edestruct parseRSABlock_returns as [res Er]; [eassumption|]. unfold mbind, M_bind. rewrite Er. by eexists.
Qed.
(** ** The cipher's answer *)

(** The error a refusal after the derivation is reported as. *)
Definition answer (err : gerr) : gerr := if isIncorrectPassword err then errOpenSSHDecrypt else err.

(** The one error of every failing run past the admission: locking the scratch
    memory and wiping the key schedule are the host's to refuse. *)
Definition failure (ws : Z) (mode : opensshCipher) : gerr :=
  match c_alloc (scratchSize ws), mode, c_wipeAES with
  | Some err, _, _ => answer (errorf "allocate kdf workspace" err)
  | None, cipherChaCha20Poly1305, _ => errOpenSSHDecrypt
  | None, _, Some werr => answer (Joined [werr])
  | None, _, None => errOpenSSHDecrypt
  end.

Lemma crypt_answer ws src tag passphrase salt rounds mode :
  mode <> cipherUnsupported -> passphrase <> [] -> bytes src ->
  Check_ (keyLen mode + ivLen mode) passphrase salt rounds = None ->
  Z.rem (zlen src) (blockLen mode) = 0 ->
  exists r, opensshCrypt ws src tag passphrase salt rounds mode true tt = Ret r tt /\
    match r with
    | inl err => answer err = failure ws mode
    | inr plain => bytes plain /\ failure ws mode = errOpenSSHDecrypt
    end.
Proof.
  intros Hmode Hp Hb Hcheck Hlen. unfold opensshCrypt, failure.
  destruct (c_alloc (scratchSize ws)) as [err|]; [by eexists|].
  assert (keyLen mode =? 0 = false) as -> by by destruct mode.
  unfold Derive. rewrite Hcheck.
  destruct (derive_some (keyLen mode + ivLen mode) passphrase salt rounds) as (kiv & -> & _ & Hk). cbn [fmap option_fmap option_map].
  assert (forall m, cbc m = true -> blockLen m = opensshAESBlock) as Hbl by by intros [].
  destruct (decide (mode = cipherChaCha20Poly1305)) as [->|Hcc].
  - cbn [negb]. unfold mret, M_ret. eexists. split; [reflexivity|]. unfold opensshChaChaOpen.
    destruct (negb _); [reflexivity|]. split; [|reflexivity]. by apply bytes_chachaXOR.
  - set (dst := if cbc mode then cbc_loop (c_aes_dec (take (Z.to_nat (keyLen mode)) kiv)) (length src)
                    (drop (Z.to_nat (keyLen mode)) kiv) src
                else ctrXOR (c_aes_enc (take (Z.to_nat (keyLen mode)) kiv)) (drop (Z.to_nat (keyLen mode)) kiv) src).
    assert (bytes dst) as Hd.
    { unfold dst. destruct (cbc mode) eqn:Ecbc; [|apply bytes_ctrXOR; [intros b; apply c_aes_bytes|done]].
      eapply bytes_cbcDecrypt; [intros b; apply c_aes_dec_bytes|by apply Forall_drop|exact Hb|].
      unfold cbcDecrypt. rewrite (Hbl _ Ecbc) in Hlen. by rewrite Hlen. }
    exists (match c_wipeAES with Some werr => inl (Joined [werr]) | None => inr dst end). split.
    + unfold dst. destruct mode; try done; cbn [cbc negb]; unfold cbcDecrypt;
        rewrite ?(Hbl cipherAES128CBC), ?(Hbl cipherAES192CBC), ?(Hbl cipherAES256CBC) in Hlen by done;
        rewrite ?Hlen; cbn [Z.eqb negb]; unfold mbind, M_bind, mret, M_ret; by destruct c_wipeAES.
    + by destruct mode, c_wipeAES.
Qed.
(** ** The admission *)

(** It reads only the lengths of the contents. *)
Lemma admit_contents h b1 r1 b2 r2 :
  zlen b1 = zlen b2 -> zlen r1 = zlen r2 ->
  admitEncrypted (with_contents h b1 r1) = admitEncrypted (with_contents h b2 r2).
Proof. intros Eb Er. unfold admitEncrypted. cbn. by rewrite Eb, Er. Qed.

Lemma admit_ok h mode salt rounds pw :
  bytes (h_kdfOpts h) -> pw <> [] -> admitEncrypted h = inr (mode, salt, rounds) ->
  mode <> cipherUnsupported /\ Check_ (keyLen mode + ivLen mode) pw salt rounds = None /\
  Z.rem (zlen (h_privBlock h)) (blockLen mode) = 0.
Proof.
  intros Hopts Hpw. unfold admitEncrypted. case_match; [done|]. case_match; [done|].
  set (m := opensshCipherByName (h_cipher h)). case_bool_decide as Hm; [done|]. case_match; [done|]. case_match; [done|].
  case_match eqn:Ekdf; [|done]. destruct p as [[salt' rounds'] k]. case_match eqn:E1; [done|]. case_match eqn:E2; [done|].
  case_match eqn:E3; [done|]. case_match eqn:E4; [done|]. case_match; [done|]. case_match; [done|]. intros [= <- <- <-].
  assert (0 <= rounds') as Hr.
  { clear -Ekdf Hopts. read_step. unfold r_uint32 in Ekdf. destruct (zlen r <? 4); [discriminate Ekdf|]. cbn in Ekdf. simplify_eq.
    by apply be_bound, Forall_take. }
  apply orb_false_iff in E1 as [[_ E1]%orb_false_iff E5]. apply orb_false_iff in E4 as [_ E4].
  apply Z.eqb_neq in E5. apply negb_false_iff, Z.eqb_eq in E4. split; [done|]. split; [|done]. unfold Check_.
  destruct (Z.ltb_spec rounds' 1); [lia|]. destruct (zlen_nonzero pw Hpw) as [-> _]. rewrite E1, E2. cbn [orb].
  by destruct m.
Qed.

End verdict.

(** C40. For what a protected file says in clear, and the lengths of the rest,
    there is one error: whatever the encrypted block, the authenticator and the
    passphrase are, opening the file returns, with a signer or with that error.
    It is the refusal of the admission, decided before the derivation, when
    there is one; otherwise it is [errOpenSSHDecrypt], on a host that locks the
    scratch memory and can wipe the key schedule. *)
Theorem encrypted_one_bit `{CryptoOk} ws h n t :
  bytes (h_kdfOpts h) ->
  exists e, forall block rest pw,
    zlen block = n -> zlen rest = t -> bytes block -> pw <> [] ->
    exists r, openEncrypted ws (with_contents h block rest) pw tt = Ret r tt /\
      (r = inl e \/ exists s, r = inr s) /\
      match admitEncrypted (with_contents h block rest) with
      | inl err => r = inl err
      | inr _ => (forall k, c_alloc k = None) -> c_wipeAES = None -> e = errOpenSSHDecrypt
      end.
Proof.
  intros Hopts. set (h0 := with_contents h (zeros n) (zeros t)).
  exists (match admitEncrypted h0 with inl err => err | inr (mode, _, _) => failure ws mode end).
  intros block rest pw Hn Ht Hb Hpw. unfold openEncrypted.
  rewrite (admit_contents h block rest (zeros n) (zeros t)) by (rewrite zlen_zeros; lia || (subst; apply zlen_nonneg)).
  fold h0. destruct (admitEncrypted h0) as [err|[[mode salt] rounds]] eqn:Ea; [eexists; split_and!; by eauto|].
  destruct (admit_ok h0 mode salt rounds pw Hopts Hpw Ea) as (Hm & Hc & Hl).
  change (h_privBlock h0) with (zeros n) in Hl. rewrite zlen_zeros, <- Hn in Hl by (subst; apply zlen_nonneg).
  destruct (crypt_answer ws block rest pw salt rounds mode Hm Hpw Hb Hc Hl) as (r & Er & Hr).
  assert ((forall k, c_alloc k = None) -> c_wipeAES = None -> failure ws mode = errOpenSSHDecrypt) as Hf.
  { intros Ha Hw. unfold failure. rewrite Ha, Hw. by destruct mode. }
  cbn [with_contents h_privBlock h_rest h_pubBlob]. unfold mbind at 1, M_bind at 1. rewrite Er.
  destruct r as [err|plain].
  - unfold answer in Hr. eexists. split_and!; [reflexivity|left; by rewrite <- Hr|done].
  - destruct Hr as [Hp Hr]. destruct (parseBlock_returns plain (h_pubBlob h) (blockLen mode) Hp) as [r Ep].
    unfold mbind, M_bind. rewrite Ep. eexists. split_and!; [reflexivity| |done]. rewrite Hr.
    destruct r as [?|[s|der]]; [by left|by right; eexists|]. destruct (rsaFromDER der); [by left|by right; eexists].
Qed.


#[local] Existing Instances toy toy_ok.

(** A protected Ed25519 header, with blocks of two AES blocks. *)
Definition toy_header : opensshHeader :=
  OpensshHeader opensshCipherCTR opensshKDFBcrypt (sshS (seqZ 7 16) ++ be_bytes 4 2) 1 (pubBlobOf (c_ed25519 (seqZ 0 32))) [] [].

Lemma encrypted_one_bit_witness :
  exists r, openEncrypted 4096 (with_contents toy_header (seqZ 0 32) []) (str "guess") tt = Ret r tt /\
    (r = inl errOpenSSHDecrypt \/ exists s, r = inr s).
Proof.
  assert (bytes (h_kdfOpts toy_header) /\ bytes (seqZ 0 32)) as [B1 B2]
    by (split; apply (bool_decide_unpack _); vm_compute; exact I).
  destruct (@encrypted_one_bit toy toy_ok 4096 toy_header 32 0 B1) as (e & He).
  destruct (He (seqZ 0 32) [] (str "guess") eq_refl eq_refl B2 ltac:(discriminate)) as (r & Er & Hr & Ha).
  exists r. split; [exact Er|].
  assert (exists x, admitEncrypted (with_contents toy_header (seqZ 0 32) []) = inr x) as [x Ex]
    by (eexists; vm_compute; reflexivity).
  rewrite Ex in Ha. rewrite (Ha (fun _ => eq_refl) eq_refl) in Hr. exact Hr.
Defined.
