(* ===== verification/Hmac.v ===== *)
(** * HMAC and HKDF inside one region (secmem-crypto/hmac_inplace.go)

    The one-shot hashes the module runs in place, HMAC assembled in a scratch
    slice, HKDF on top of it, and the two references they are compared with,
    RFC 2104 and RFC 5869. The digests of the standard library are a
    parameter. *)
From S2P Require Import Prelude Errors Bytes.

Inductive inPlaceHash : Type :=
| hashNone
| hashSHA224 | hashSHA256 | hashSHA384 | hashSHA512 | hashSHA512_224 | hashSHA512_256
| hashSHA3_224 | hashSHA3_256 | hashSHA3_384 | hashSHA3_512
| hashSHA1.
#[global] Instance inPlaceHash_eq_dec : EqDecision inPlaceHash.
Proof. solve_decision. Defined.

Definition maxHashSize : Z := 64.
Definition hmacStackRegion : Z := 1536.

Definition size (h : inPlaceHash) : Z :=
  match h with
  | hashSHA1 => 20
  | hashSHA224 | hashSHA512_224 | hashSHA3_224 => 28
  | hashSHA256 | hashSHA512_256 | hashSHA3_256 => 32
  | hashSHA384 | hashSHA3_384 => 48
  | hashSHA512 | hashSHA3_512 => 64
  | hashNone => 0
  end.

Definition block (h : inPlaceHash) : Z :=
  match h with
  | hashSHA1 | hashSHA224 | hashSHA256 => 64
  | hashSHA384 | hashSHA512 | hashSHA512_224 | hashSHA512_256 => 128
  | hashSHA3_224 => 144
  | hashSHA3_256 => 136
  | hashSHA3_384 => 104
  | hashSHA3_512 => 72
  | hashNone => 0
  end.

(** The standard library's digests, and what allocating a locked region of a
    size and destroying it afterwards answer. *)
Class Digests : Type := {
  d_sum : inPlaceHash -> list Z -> list Z;
  d_alloc : Z -> option gerr;
  d_destroy : option gerr
}.
Class DigestsOk `{Digests} : Prop := {
  d_sum_len : forall h data, h <> hashNone -> zlen (d_sum h data) = size h
}.

Section hmac.
Context `{Digests}.

(** [sum(dst, data)]; [None] is the panic of the default case. *)
Definition sum (h : inPlaceHash) (dst data : list Z) : option (list Z) :=
  match h with
  | hashNone => None
  | _ => Some (copy_at 0 (d_sum h data) dst)
  end.

(** ** HMAC *)

Definition hmacScratchSize (h : inPlaceHash) (msgLen : Z) : Z := block h + Z.max msgLen (size h).

(** [for _, p := range parts { n += copy(scratch[n:], p) }] *)
Definition put_parts (scratch : list Z) (n : Z) (parts : list (list Z)) : list Z * Z :=
  foldl (fun '(s, n) p => (copy_at n p s, n + Z.min (zlen p) (zlen s - n))) (scratch, n) parts.

(** [clear(pad); copy(pad, key); pad ^= c] for [pad := scratch[:block]]. *)
Definition set_pad (block c : Z) (key scratch : list Z) : list Z :=
  xor_first block c (lset 0 (take (Z.to_nat block) key) (lset 0 (zeros block) scratch)).

(** The key, hashed first when it is longer than a block. *)
Definition hmac_key (h : inPlaceHash) (key : list Z) : option (list Z) :=
  if block h <? zlen key
  then hashedKey ← sum h (zeros maxHashSize) key; Some (take (Z.to_nat (size h)) hashedKey)
  else Some key.

(** [dst] and [scratch] afterwards; [None] is a panic. *)
Definition hmacInPlace (h : inPlaceHash) (dst scratch key : list Z) (parts : list (list Z)) : option (list Z * list Z) :=
  let size := size h in
  let block := block h in
  let total := foldl (fun a p => a + zlen p) 0 parts in
  if (zlen scratch <? hmacScratchSize h total) || (zlen dst <? size) then None
  else
  key ← hmac_key h key;
  let '(scratch, n) := put_parts scratch block parts in
  let scratch := set_pad block 54 key scratch in
  inner ← sum h (zeros maxHashSize) (lsub 0 n scratch);
  let scratch := set_pad block 92 key scratch in
  let scratch := copy_at block (take (Z.to_nat size) inner) scratch in
  out ← sum h (lsub 0 size dst) (lsub 0 (block + size) scratch);
  Some (lset 0 out dst, lset 0 (zeros (Z.max n (block + size))) scratch).

(** [compute] on a stack array when [n] bytes fit, in a locked buffer of [n]
    bytes otherwise: the error of allocating it, [dst] untouched, or the error
    of destroying it and [dst] afterwards. *)
Definition in_region (n : Z) (compute : list Z -> option (list Z * list Z)) : M unit (gerr + option gerr * list Z) :=
  if (n <=? hmacStackRegion) then
    match compute (zeros n) with
    | None => panic
    | Some (dst, _) => mret (inr (None, dst))
    end
  else
    match d_alloc n with
    | Some err => mret (inl err)
    | None => match compute (zeros n) with
              | None => panic
              | Some (dst, _) => mret (inr (errorsJoin [None; d_destroy], dst))
              end
    end.

Definition hmacIntoInPlace (h : inPlaceHash) (dst secret info : list Z) : M unit (gerr + option gerr * list Z) :=
  in_region (hmacScratchSize h (zlen info)) (fun region => hmacInPlace h dst region secret [info]).

(** ** HKDF *)

(** The expansion loop: [t], its live prefix [prev], the scratch and [dst].
    Every turn writes [size] bytes of [dst]. *)
Fixpoint hkdf_loop (fuel : nat) (h : inPlaceHash) (prk info : list Z) (ctr off : Z) (t prev scratch dst : list Z)
  : option (list Z) :=
  match fuel with
  | O => None
  | S fuel =>
      if (zlen dst <=? off) then Some dst
      else
      let ctr := (ctr + 1) mod 256 in
      '(t, scratch) ← hmacInPlace h t scratch prk [prev; info; [ctr]];
      hkdf_loop fuel h prk info ctr (off + size h) t t scratch (copy_at off t dst)
  end.

(** [dst] and the region afterwards. [prk], [t] and [scratch] are disjoint
    slices of the region, which is wiped whole. *)
Definition hkdfCompute (h : inPlaceHash) (dst region secret salt info : list Z) : option (list Z * list Z) :=
  if (zlen region <? 2 * maxHashSize) then None
  else
  let prk := lsub 0 (size h) region in
  let t := lsub maxHashSize (maxHashSize + size h) region in
  let scratch := drop (Z.to_nat (2 * maxHashSize)) region in
  '(prk, scratch) ← hmacInPlace h prk scratch salt [secret];
  dst ← hkdf_loop (S (length dst)) h prk info 0 0 t [] scratch dst;
  Some (dst, zeros (zlen region)).

Definition hkdfInPlace (h : inPlaceHash) (dst secret salt info : list Z) : M unit (gerr + option gerr * list Z) :=
  in_region (2 * maxHashSize + block h + Z.max (zlen secret) (size h + zlen info + 1))
    (fun region => hkdfCompute h dst region secret salt info).

(** ** The references *)

(** RFC 2104. *)
Definition HMAC (h : inPlaceHash) (key msg : list Z) : list Z :=
  let key := if block h <? zlen key then d_sum h key else key in
  let k0 := key ++ zeros (block h - zlen key) in
  d_sum h ((Z.lxor 92 <$> k0) ++ d_sum h ((Z.lxor 54 <$> k0) ++ msg)).

(** RFC 5869: [T(i)] from [T(i-1)], the concatenation, its prefix. *)
Fixpoint HKDF_T (n : nat) (i : Z) (h : inPlaceHash) (prk info prev : list Z) : list Z :=
  match n with
  | O => []
  | S n => let t := HMAC h prk (prev ++ info ++ [i]) in t ++ HKDF_T n (i + 1) h prk info t
  end.
Definition HKDF (h : inPlaceHash) (secret salt info : list Z) (L : Z) : list Z :=
  let n := (L + size h - 1) / size h in
  take (Z.to_nat L) (HKDF_T (Z.to_nat n) 1 h (HMAC h salt secret) info []).
End hmac.

(** ** The in-place computation *)

Lemma size_bounds h : h <> hashNone -> 20 <= size h <= 64 /\ size h <= block h <= 144.
Proof. destruct h; cbn; intros; done || lia. Qed.

Lemma lset0 (bs l : list Z) : lset 0 bs l = bs ++ drop (length bs) l.
Proof. unfold lset. by rewrite Nat.add_0_l. Qed.

Lemma lset0_app (bs a b : list Z) : length bs = length a -> lset 0 bs (a ++ b) = bs ++ b.
Proof. intros E. by rewrite lset0, E, drop_app_length. Qed.

Lemma zlen_concat_nonneg (parts : list (list Z)) : foldl (fun a p => a + zlen p) 0 parts = zlen (concat parts).
Proof.
  assert (forall a, foldl (fun a p => a + zlen p) a parts = a + zlen (concat parts)) as ->; [|lia].
  induction parts as [|p parts IH]; intros a; cbn [foldl concat]; [change (zlen (@nil Z)) with 0; lia|].
  rewrite IH, zlen_app. lia.
Qed.

Lemma put_parts_app pre r parts :
  zlen (concat parts) <= zlen r ->
  put_parts (pre ++ r) (zlen pre) parts =
  (pre ++ concat parts ++ drop (length (concat parts)) r, zlen pre + zlen (concat parts)).
Proof.
  unfold put_parts. revert pre r. induction parts as [|p parts IH]; intros pre r Hle; cbn [foldl concat].
  - rewrite drop_0. cbn [app]. f_equal. change (zlen (@nil Z)) with 0. lia.
  - cbn [concat] in Hle. rewrite zlen_app in Hle. pose proof (zlen_nonneg (concat parts)).
    rewrite copy_at_app by lia. rewrite zlen_app, Z.add_simpl_l, Z.min_l by lia.
    rewrite app_assoc, <- (zlen_app pre p), IH by (unfold zlen in *; rewrite length_drop; lia).
    rewrite <- !app_assoc, drop_drop, length_app, !zlen_app. f_equal. lia.
Qed.

Lemma set_pad_app c key a b n :
  zlen a = n -> zlen key <= n ->
  set_pad n c key (a ++ b) = (Z.lxor c <$> (key ++ zeros (n - zlen key))) ++ b.
Proof.
  intros Ha Hk. pose proof (zlen_nonneg a). pose proof (zlen_nonneg key). unfold set_pad.
  rewrite lset0_app by (unfold zlen, zeros in *; rewrite length_replicate; lia).
  rewrite take_ge by (unfold zlen in *; lia).
  rewrite (zeros_split n (zlen key)) by lia. rewrite <- app_assoc.
  rewrite lset0_app by (unfold zlen, zeros in *; rewrite length_replicate; lia).
  rewrite app_assoc. rewrite <- (xor_first_app c (key ++ zeros (n - zlen key))). f_equal.
  rewrite zlen_app, zlen_zeros; lia.
Qed.

Section run.
Context `{DigestsOk}.

Lemma zlen_HMAC h key msg : h <> hashNone -> zlen (HMAC h key msg) = size h.
Proof. intros Hh. unfold HMAC. by apply d_sum_len. Qed.

Lemma sum_run h dst data : h <> hashNone -> sum h dst data = Some (copy_at 0 (d_sum h data) dst).
Proof. by destruct h. Qed.

Lemma copy_at_0 (src dst : list Z) : zlen src <= zlen dst -> copy_at 0 src dst = src ++ drop (length src) dst.
Proof. intros Hle. apply (copy_at_app [] dst src Hle). Qed.

(** The digest as the first bytes of an array of the largest size. *)
Lemma sum_prefix h data : h <> hashNone ->
  exists r, sum h (zeros maxHashSize) data = Some r /\ take (Z.to_nat (size h)) r = d_sum h data.
Proof.
  intros Hh. rewrite sum_run by done. eexists. split; [reflexivity|].
  pose proof (d_sum_len h data Hh) as L. pose proof (size_bounds h Hh).
  rewrite copy_at_0 by (rewrite L, zlen_zeros; unfold maxHashSize; lia).
  rewrite take_app_le by (unfold zlen in L; lia). apply take_ge. unfold zlen in L. lia.
Qed.

Lemma hmac_key_run h key : h <> hashNone ->
  exists k, hmac_key h key = Some k /\ zlen k <= block h /\ k = if block h <? zlen key then d_sum h key else key.
Proof.
  intros Hh. unfold hmac_key. pose proof (size_bounds h Hh). destruct (Z.ltb_spec (block h) (zlen key)).
  - destruct (sum_prefix h key Hh) as (r & -> & E). cbn. rewrite E. eexists. split; [reflexivity|].
    rewrite d_sum_len by done. split; [lia|done].
  - by exists key.
Qed.

(** HMAC lands in [dst]; every byte of the scratch that was written is zero
    again and the rest is as it was. *)
Lemma hmacInPlace_run h dst scratch key parts :
  let m := block h + Z.max (zlen (concat parts)) (size h) in
  h <> hashNone -> m <= zlen scratch -> size h <= zlen dst ->
  hmacInPlace h dst scratch key parts =
  Some (lset 0 (HMAC h key (concat parts)) dst, zeros m ++ drop (Z.to_nat m) scratch).
Proof.
  intros m Hh Hs Hd. pose proof (size_bounds h Hh) as Hb. pose proof (zlen_nonneg (concat parts)).
  assert (block h + zlen (concat parts) <= m /\ block h + size h <= m) as [Hm1 Hm2] by (unfold m; lia).
  unfold hmacInPlace, hmacScratchSize. rewrite zlen_concat_nonneg. fold m.
  destruct (Z.ltb_spec (zlen scratch) m); [lia|]. destruct (Z.ltb_spec (zlen dst) (size h)); [lia|]. cbn [orb].
  destruct (hmac_key_run h key Hh) as (k & -> & Hk & Ek). cbn [mbind option_bind].
  rewrite <- (take_drop (Z.to_nat (block h)) scratch) at 1. set (a := take _ scratch). set (r := drop _ scratch).
  assert (zlen a = block h) as La by (unfold a, zlen in *; rewrite length_take; lia).
  assert (zlen r = zlen scratch - block h) as Lr by (unfold r, zlen in *; rewrite length_drop; lia).
  rewrite <- La at 1. rewrite put_parts_app by lia. set (msg := concat parts) in *.
  set (tail := drop (length msg) r). rewrite (set_pad_app 54 k a) by done.
  set (k0 := k ++ zeros (block h - zlen k)). assert (forall c, zlen (Z.lxor c <$> k0) = block h) as Lk.
  { intros c. unfold zlen. rewrite length_fmap. fold (zlen k0). unfold k0. rewrite zlen_app, zlen_zeros; lia. }
  assert (lsub 0 (zlen a + zlen msg) ((Z.lxor 54 <$> k0) ++ msg ++ tail) = (Z.lxor 54 <$> k0) ++ msg) as ->.
  { rewrite app_assoc, La, <- (Lk 54), <- zlen_app. unfold lsub, zlen. rewrite Z.sub_0_r, Nat2Z.id. apply take_app_length. }
  destruct (sum_prefix h ((Z.lxor 54 <$> k0) ++ msg) Hh) as (inner & -> & Ei). cbn [mbind option_bind].
  rewrite Ei. set (d := d_sum h ((Z.lxor 54 <$> k0) ++ msg)) in *. assert (zlen d = size h) as Ld by by apply d_sum_len.
  rewrite (set_pad_app 92 k) by done. fold k0.
  assert (zlen (msg ++ tail) = zlen r) as Lm by (unfold tail, zlen in *; rewrite length_app, length_drop; lia).
  pose proof (copy_at_app (Z.lxor 92 <$> k0) (msg ++ tail) d ltac:(lia)) as Ec. rewrite Lk in Ec. rewrite Ec.
  rewrite sum_run by done. cbn [mbind option_bind].
  assert (lsub 0 (block h + size h) ((Z.lxor 92 <$> k0) ++ d ++ drop (length d) (msg ++ tail)) = (Z.lxor 92 <$> k0) ++ d) as ->.
  { rewrite app_assoc, <- (Lk 92), <- Ld, <- zlen_app. unfold lsub, zlen. rewrite Z.sub_0_r, Nat2Z.id. apply take_app_length. }
  assert (d_sum h ((Z.lxor 92 <$> k0) ++ d) = HMAC h key msg) as -> by (unfold HMAC, d, k0; by rewrite Ek).
  assert (Hm : Z.max (zlen a + zlen msg) (block h + size h) = m) by (unfold m; rewrite La; lia). rewrite Hm.
  pose proof (zlen_HMAC h key msg Hh) as LH. f_equal. f_equal.
  - f_equal. rewrite copy_at_0; [|rewrite zlen_lsub by lia; lia]. rewrite drop_ge, app_nil_r; [done|].
    rewrite length_lsub by lia. unfold zlen in LH. lia.
  - rewrite lset0. unfold zeros at 2. rewrite length_replicate. f_equal. pose proof (Lk 92) as L92. unfold zlen in *.
    rewrite drop_app_ge by lia. rewrite drop_app_ge by lia. rewrite drop_drop.
    rewrite drop_app_ge by lia. unfold tail, r. rewrite !drop_drop. f_equal. lia.
Qed.

(** ** The expansion *)

Lemma ceil_step x k : 0 < k -> 0 < x -> Z.to_nat ((x + k - 1) / k) = S (Z.to_nat ((x - k + k - 1) / k)).
Proof.
  intros Hk Hx. replace (x + k - 1) with (x - k + k - 1 + 1 * k) by lia. rewrite Z.div_add by lia.
  assert (0 <= (x - k + k - 1) / k) by (apply Z.div_pos; lia). lia.
Qed.

Lemma ceil_zero x k : 0 < k -> - k < x <= 0 -> Z.to_nat ((x + k - 1) / k) = 0%nat.
Proof. intros Hk Hx. rewrite Z.div_small by lia. done. Qed.

(** One block of output in its place. *)
Lemma copy_block off t (dst : list Z) :
  0 <= off <= zlen dst ->
  zlen (copy_at off t dst) = zlen dst /\
  take (Z.to_nat (off + zlen t)) (copy_at off t dst) = take (Z.to_nat off) dst ++ take (Z.to_nat (zlen dst - off)) t.
Proof.
  intros Ho. set (u := take (Z.to_nat (zlen dst - off)) t). unfold copy_at. fold u.
  assert (zlen u = Z.min (zlen t) (zlen dst - off)) as Lu by (unfold u, zlen in *; rewrite length_take; lia).
  split; [apply zlen_lset; lia|]. unfold lset. rewrite app_assoc. pose proof (zlen_nonneg t).
  assert (length (take (Z.to_nat off) dst) = Z.to_nat off) as Lo by (unfold zlen in *; rewrite length_take; lia).
  assert (length (take (Z.to_nat off) dst ++ u) = (Z.to_nat off + length u)%nat) as Lou by (rewrite length_app; lia).
  destruct (decide (zlen t <= zlen dst - off)).
  - rewrite take_app_le by (rewrite Lou; unfold zlen in *; lia). apply take_ge. rewrite Lou. unfold zlen in *. lia.
  - rewrite drop_ge by (unfold zlen in *; lia). rewrite app_nil_r. apply take_ge. rewrite Lou. unfold zlen in *. lia.
Qed.

Lemma zlen_wiped n (l : list Z) : 0 <= n <= zlen l -> zlen (zeros n ++ drop (Z.to_nat n) l) = zlen l.
Proof. intros Hn. rewrite zlen_app, zlen_zeros by lia. unfold zlen in *. rewrite length_drop. lia. Qed.

Lemma hkdf_loop_run h prk info (fuel : nat) ctr off t prev scratch dst :
  h <> hashNone -> zlen t = size h -> zlen prev <= size h -> 0 <= ctr -> 0 <= off < zlen dst + size h ->
  block h + size h + zlen info + 1 <= zlen scratch ->
  zlen dst - off <= (255 - ctr) * size h -> Z.max 0 (zlen dst - off) < Z.of_nat fuel ->
  hkdf_loop fuel h prk info ctr off t prev scratch dst =
  Some (take (Z.to_nat off) dst ++
        take (Z.to_nat (zlen dst - off)) (HKDF_T (Z.to_nat ((zlen dst - off + size h - 1) / size h)) (ctr + 1) h prk info prev)).
Proof.
  intros Hh. pose proof (size_bounds h Hh) as Hb. revert ctr off t prev scratch dst.
  induction fuel as [|fuel IH]; intros ctr off t prev scratch dst Ht Hprev Hc Ho Hs Hctr Hf; [lia|].
  cbn [hkdf_loop]. destruct (Z.leb_spec (zlen dst) off) as [Hle|Hlt].
  - rewrite ceil_zero by lia. cbn [HKDF_T]. rewrite take_nil, app_nil_r, take_ge by (unfold zlen in *; lia). done.
  - rewrite (Z.mod_small (ctr + 1)) by nia. set (T := HMAC h prk (prev ++ info ++ [ctr + 1])).
    assert (zlen T = size h) as LT by by apply zlen_HMAC.
    pose proof (zlen_nonneg info). pose proof (zlen_nonneg prev).
    assert (concat [prev; info; [ctr + 1]] = prev ++ info ++ [ctr + 1]) as Econ by done.
    assert (zlen (prev ++ info ++ [ctr + 1]) = zlen prev + zlen info + 1) as Lmsg by (rewrite !zlen_app; change (zlen [ctr + 1]) with 1; lia).
    rewrite hmacInPlace_run by (rewrite ?Econ, ?Lmsg; done || lia). rewrite Econ. fold T. cbn [mbind option_bind].
    rewrite (lset_full T t) by (unfold zlen in *; lia). destruct (copy_block off T dst ltac:(lia)) as [Ld Et].
    rewrite IH; rewrite ?Ld; try lia; [|rewrite zlen_wiped by lia; lia].
    rewrite (ceil_step (zlen dst - off)) by lia. cbn [HKDF_T]. fold T.
    rewrite <- LT, Et, <- app_assoc. do 2 f_equal.
    replace (zlen dst - off - zlen T) with (zlen dst - (off + zlen T)) by lia.
    rewrite take_app. f_equal. f_equal. unfold zlen in *. lia.
Qed.

(** The whole derivation in one region. *)
Lemma hkdfCompute_run h dst region secret salt info :
  h <> hashNone -> zlen dst <= 255 * size h ->
  2 * maxHashSize + block h + Z.max (zlen secret) (size h + zlen info + 1) <= zlen region ->
  hkdfCompute h dst region secret salt info = Some (HKDF h secret salt info (zlen dst), zeros (zlen region)).
Proof.
  intros Hh Hd Hr. pose proof (size_bounds h Hh). pose proof (zlen_nonneg secret). pose proof (zlen_nonneg info).
  pose proof (zlen_nonneg dst). unfold hkdfCompute, maxHashSize in *. destruct (Z.ltb_spec (zlen region) (2 * 64)); [lia|].
  set (scratch := drop _ region). assert (zlen scratch = zlen region - 128) as Ls by (unfold scratch, zlen in *; rewrite length_drop; lia).
  assert (concat [secret] = secret) as Es by (cbn; apply app_nil_r).
  rewrite hmacInPlace_run by (rewrite ?Es, ?zlen_lsub by lia; done || lia). rewrite Es. cbn [mbind option_bind].
  pose proof (zlen_HMAC h salt secret Hh) as LH.
  rewrite (lset_full (HMAC h salt secret)) by (rewrite length_lsub by lia; unfold zlen in LH; lia).
  rewrite hkdf_loop_run; rewrite ?zlen_lsub by lia; try done || lia.
  - cbn [mbind option_bind]. rewrite take_0, Z.sub_0_r. reflexivity.
  - change (zlen (@nil Z)) with 0. lia.
  - rewrite zlen_wiped by lia. lia.
  - unfold zlen. lia.
Qed.

(** Where the region lives decides only which errors there can be. *)
Lemma in_region_run n compute dst region u :
  compute (zeros n) = Some (dst, region) ->
  in_region n compute u =
  Ret (if (n <=? hmacStackRegion) then inr (None, dst)
       else match d_alloc n with
            | Some err => inl err
            | None => inr (errorsJoin [None; d_destroy], dst)
            end) u.
Proof. intros E. unfold in_region. rewrite E. by destruct (n <=? hmacStackRegion), (d_alloc n). Qed.

Lemma hmacIntoInPlace_run h dst secret info u :
  h <> hashNone -> zlen dst = size h ->
  hmacIntoInPlace h dst secret info u =
  Ret (if (hmacScratchSize h (zlen info) <=? hmacStackRegion) then inr (None, HMAC h secret info)
       else match d_alloc (hmacScratchSize h (zlen info)) with
            | Some err => inl err
            | None => inr (errorsJoin [None; d_destroy], HMAC h secret info)
            end) u.
Proof.
  intros Hh Hd. pose proof (size_bounds h Hh). pose proof (zlen_nonneg info). pose proof (zlen_HMAC h secret info Hh).
  assert (concat [info] = info) as E by (cbn; apply app_nil_r).
  unfold hmacIntoInPlace. eapply in_region_run. cbn beta. unfold hmacScratchSize.
  rewrite hmacInPlace_run by (rewrite ?E, ?zlen_zeros by lia; done || lia). rewrite E.
  rewrite lset_full by (unfold zlen in *; lia). done.
Qed.

Definition hkdfRegion (h : inPlaceHash) (secret info : list Z) : Z :=
  2 * maxHashSize + block h + Z.max (zlen secret) (size h + zlen info + 1).

Lemma hkdfInPlace_run h dst secret salt info u :
  h <> hashNone -> zlen dst <= 255 * size h ->
  hkdfInPlace h dst secret salt info u =
  Ret (if (hkdfRegion h secret info <=? hmacStackRegion) then inr (None, HKDF h secret salt info (zlen dst))
       else match d_alloc (hkdfRegion h secret info) with
            | Some err => inl err
            | None => inr (errorsJoin [None; d_destroy], HKDF h secret salt info (zlen dst))
            end) u.
Proof.
  intros Hh Hd. pose proof (size_bounds h Hh). pose proof (zlen_nonneg secret). pose proof (zlen_nonneg info).
  unfold hkdfInPlace. eapply in_region_run. unfold maxHashSize. rewrite hkdfCompute_run; [done|done|done|].
  unfold hkdfRegion, maxHashSize. rewrite zlen_zeros; lia.
Qed.

(** Enough blocks for any length. *)
Lemma zlen_HKDF_T (n : nat) i h prk info prev : h <> hashNone -> zlen (HKDF_T n i h prk info prev) = Z.of_nat n * size h.
Proof.
  intros Hh. revert i prev. induction n as [|n IH]; intros i prev; [done|]. cbn [HKDF_T].
  rewrite zlen_app, IH, zlen_HMAC by done. lia.
Qed.

Lemma zlen_HKDF h secret salt info L : h <> hashNone -> 0 <= L -> zlen (HKDF h secret salt info L) = L.
Proof.
  intros Hh HL. pose proof (size_bounds h Hh). unfold HKDF. set (t := HKDF_T _ _ _ _ _ _).
  assert (L <= zlen t).
  { unfold t. rewrite zlen_HKDF_T by done. pose proof (Z.div_mod (L + size h - 1) (size h) ltac:(lia)).
    pose proof (Z.mod_pos_bound (L + size h - 1) (size h) ltac:(lia)).
    pose proof (Z.div_pos (L + size h - 1) (size h) ltac:(lia) ltac:(lia)). nia. }
  unfold zlen in *. rewrite length_take. lia.
Qed.
End run.

(** ** A concrete digest *)

(** A digest of the right length that depends on every byte and its place. *)
Definition toy_digests : Digests := {|
  d_sum := fun h data => (fun i => (foldl (fun a x => (31 * a + x + 1) mod 65521) i data) mod 256) <$> seqZ 0 (size h);
  d_alloc := fun _ => None;
  d_destroy := None
|}.
Lemma toy_digests_ok : @DigestsOk toy_digests.
Proof.
  constructor. intros h data Hh. unfold zlen. cbn. rewrite length_fmap, length_seqZ.
  pose proof (size_bounds h Hh). lia.
Qed.
