(* ===== verification/Kdf.v ===== *)
(** * Keyed derivation into a SecureBuffer (secmem-crypto/kdf.go,
      hmac_inplace.go's hash identification)

    [HMACInto] and [HKDFInto] over the buffers of SecureBuffer.v: the argument
    checks, the identification of the caller's hash with its cache, the borrow
    of the output buffer and the computations of Hmac.v inside it. Argon2 and
    the bodies of crypto/hmac and x/crypto/hkdf are outside. *)
From S2P Require Import Prelude Errors KeyErrors Bytes Pem Canary World Memory Frame Sample Quarantine Janitor Process SealAuth SecureBuffer BufferAccess BufferSpec BufferBorrow BufferReads BufferTheorems Hmac.

(** ** Identifying the caller's hash *)

(** The dynamic type of a [hash.Hash]. *)
Inductive digestType : Type := sha256Type | sha512Type | sha3Type | otherType (n : Z).
#[global] Instance digestType_eq_dec : EqDecision digestType.
Proof. solve_decision. Defined.

(** A fresh instance from the caller's constructor; [h_Sum] is its answer
    after one write. *)
Record hash : Type := Hash {
  h_typ : digestType;
  h_Size : Z;
  h_BlockSize : Z;
  h_Sum : list Z -> list Z
}.

Record inPlaceHashEntry : Type := InPlaceHashEntry { e_typ : digestType; e_size : Z; e_id : inPlaceHash }.

(** The cache [inPlaceHashSeen]; a nil pointer is the empty list. *)
Definition seen : Type := list inPlaceHashEntry.

Definition inPlaceHashProbe : list Z := str "secmem-crypto: is this constructor the one-shot it looks like?".

(** The switch on type and size. *)
Definition candidate (typ : digestType) (size : Z) : inPlaceHash :=
  if bool_decide (typ = sha256Type) && (size =? 28) then hashSHA224
  else if bool_decide (typ = sha256Type) && (size =? 32) then hashSHA256
  else if bool_decide (typ = sha512Type) && (size =? 48) then hashSHA384
  else if bool_decide (typ = sha512Type) && (size =? 64) then hashSHA512
  else if bool_decide (typ = sha512Type) && (size =? 28) then hashSHA512_224
  else if bool_decide (typ = sha512Type) && (size =? 32) then hashSHA512_256
  else if bool_decide (typ = sha3Type) && (size =? 28) then hashSHA3_224
  else if bool_decide (typ = sha3Type) && (size =? 32) then hashSHA3_256
  else if bool_decide (typ = sha3Type) && (size =? 48) then hashSHA3_384
  else if bool_decide (typ = sha3Type) && (size =? 64) then hashSHA3_512
  else hashNone.

(** The loop over the cache. *)
Definition lookup_seen (cache : seen) (typ : digestType) (size : Z) : option inPlaceHash :=
  e_id <$> head (filter (fun e => e_typ e = typ /\ e_size e = size) cache).

Section identify.
Context `{Digests}.

(** The answer and the cache; [None] is a panic. *)
Definition inPlaceHashOf (cache : seen) (probe : hash) : option (inPlaceHash * seen) :=
  let typ := h_typ probe in
  let size := h_Size probe in
  match lookup_seen cache typ size with
  | Some id => Some (id, cache)
  | None =>
      let id := candidate typ size in
      if bool_decide (id = hashNone) then Some (hashNone, cache)
      else
      want ← sum id (zeros maxHashSize) inPlaceHashProbe;
      let ok := (h_BlockSize probe =? block id) && bytes_Equal (h_Sum probe inPlaceHashProbe) (take (Z.to_nat size) want) in
      if negb ok then Some (hashNone, cache)
      else Some (id, cache ++ [InPlaceHashEntry typ size id])
  end.
End identify.

(** ** The entry points *)

Section kdf.
Context `{Kernel} `{Digests}.

(** [out == nil] *)
Definition is_nil (out : SecureBuffer) : bool := match out with NilRecv => true | _ => false end.

(** [options.allowHeapTransients || heapTransientsAllowed()] *)
Variable heapTransients : bool.
(** crypto/hmac, and x/crypto/hkdf read by [io.ReadFull]. *)
Variable heapHMAC : hash -> list Z -> list Z -> list Z.
Variable heapHKDF : hash -> list Z -> list Z -> list Z -> Z -> list Z * option gerr.

Definition checkHeapTransientsHash (op : string) : option gerr :=
  if heapTransients then None else Some (errorf op ErrHeapTransients).

(** The borrow's callback: [derive] on the slice [dst]. *)
Definition derive_callback (derive : list Z -> M unit (gerr + option gerr * list Z)) : callback (option gerr) := fun r n =>
  bs ← mem_load (rg_base r);
  match derive (lsub 0 n bs) tt with
  | Ret (inl err) _ => mret (Some err)
  | Ret (inr (err, dst)) _ => mem_copy_in (rg_base r) 0 dst;; mret err
  | Panic _ => panic
  | Fault => fault
  | Block => Prelude.block
  end.

(** The part behind the checks: identify, derive in place or on the heap. *)
Definition derive_into (op : string) (probe : hash) (cache : seen) (out : SecureBuffer)
    (inPlace : inPlaceHash -> list Z -> M unit (gerr + option gerr * list Z))
    (onHeap : list Z -> M unit (gerr + option gerr * list Z)) : GM (option gerr * seen) :=
  match inPlaceHashOf cache probe with
  | None => panic
  | Some (id, cache) =>
      if negb (bool_decide (id = hashNone)) then
        err ← WithBytesErr out (Some (derive_callback (inPlace id)));
        mret (errorf op <$> err, cache)
      else
        match checkHeapTransientsHash op with
        | Some err => mret (Some err, cache)
        | None => err ← WithBytesErr out (Some (derive_callback onHeap));
                  mret (errorf op <$> err, cache)
        end
  end.

(** [h] is [None] for a nil constructor, [Some None] for one that returns nil. *)
Definition HMACInto (h : option (option hash)) (secret info : list Z) (out : SecureBuffer) (cache : seen)
  : GM (option gerr * seen) :=
  match h with
  | None => mret (Some (Msg "secmemcrypto: nil hash function"), cache)
  | Some probe =>
      if is_nil out then mret (Some (Msg "secmemcrypto: nil output buffer"), cache)
      else
      d ← IsDestroyed out;
      if (d : bool) then mret (Some (errorf "secmemcrypto: hmac derive" (Sent ErrDestroyed)), cache)
      else
      match probe with
      | None => mret (Some (Msg "secmemcrypto: hash function returned nil"), cache)
      | Some probe =>
          size ← Len out;
          if negb (size =? h_Size probe) then mret (Some (Msg "secmemcrypto: hmac derive: output buffer size"), cache)
          else derive_into "secmemcrypto: hmac derive" probe cache out
                 (fun id dst => hmacIntoInPlace id dst secret info)
                 (fun dst => mret (inr (None, copy_at 0 (heapHMAC probe secret info) dst)))
      end
  end.

Definition HKDFInto (h : option (option hash)) (secret salt info : list Z) (out : SecureBuffer) (cache : seen)
  : GM (option gerr * seen) :=
  match h with
  | None => mret (Some (Msg "secmemcrypto: nil hash function"), cache)
  | Some probe =>
      if is_nil out then mret (Some (Msg "secmemcrypto: nil output buffer"), cache)
      else
      d ← IsDestroyed out;
      if (d : bool) then mret (Some (errorf "secmemcrypto: hkdf derive" (Sent ErrDestroyed)), cache)
      else
      size ← Len out;
      if (size <=? 0) then mret (Some (Msg "secmemcrypto: empty output buffer"), cache)
      else
      match probe with
      | None => mret (Some (Msg "secmemcrypto: hash function returned nil"), cache)
      | Some probe =>
          if (255 * h_Size probe <? size) then mret (Some (Msg "secmemcrypto: hkdf derive: output exceeds the RFC 5869 limit"), cache)
          else derive_into "secmemcrypto: hkdf derive" probe cache out
                 (fun id dst => hkdfInPlace id dst secret salt info)
                 (fun dst => let '(bytes, err) := heapHKDF probe secret salt info (zlen dst) in
                             mret (inr (err, copy_at 0 bytes dst)))
      end
  end.
End kdf.

(** ** The cache *)

Section cache.
Context `{DigestsOk}.

(** Only verified verdicts are cached. *)
Definition seen_ok (cache : seen) : Prop :=
  Forall (fun e => e_id e <> hashNone /\ e_id e = candidate (e_typ e) (e_size e)) cache.

Lemma candidate_size typ n : candidate typ n <> hashNone -> size (candidate typ n) = n.
Proof.
  unfold candidate. destruct typ;
    repeat match goal with |- context [bool_decide (?a = ?b)] =>
      first [rewrite (bool_decide_eq_true_2 (a = b)) by done | rewrite (bool_decide_eq_false_2 (a = b)) by done] end;
    cbn [andb]; repeat match goal with |- context [n =? ?k] => destruct (Z.eqb_spec n k) as [->|_]; [done|] end; done.
Qed.

(** An identified hash is the candidate for the instance's type and output
    size, first seen with an instance that agreed with it on the probe. *)
Lemma inPlaceHashOf_ok cache probe :
  seen_ok cache ->
  exists id cache', inPlaceHashOf cache probe = Some (id, cache') /\ seen_ok cache' /\
    (id <> hashNone -> id = candidate (h_typ probe) (h_Size probe) /\ size id = h_Size probe) /\
    (forall e, e ∈ cache' -> e ∈ cache \/
       e = InPlaceHashEntry (h_typ probe) (h_Size probe) id /\ id <> hashNone /\
       h_BlockSize probe = block id /\ h_Sum probe inPlaceHashProbe = d_sum id inPlaceHashProbe).
Proof.
  intros Hc. unfold inPlaceHashOf, lookup_seen.
  destruct (filter _ cache) as [|e es] eqn:Ef; cbn [head fmap option_fmap option_map].
  - case_bool_decide as Hid; [exists hashNone, cache; split_and!; [done..|]; by left|].
    destruct (sum_prefix (candidate (h_typ probe) (h_Size probe)) inPlaceHashProbe Hid) as (r & -> & Er).
    rewrite candidate_size in Er by done. cbn [mbind option_bind]. rewrite Er. unfold bytes_Equal.
    destruct (Z.eqb_spec (h_BlockSize probe) (block (candidate (h_typ probe) (h_Size probe)))); cbn [andb negb];
      [|exists hashNone, cache; split_and!; [done..|]; by left].
    case_bool_decide; cbn [negb]; [|exists hashNone, cache; split_and!; [done..|]; by left].
    do 2 eexists. split; [reflexivity|]. split_and!.
    + apply Forall_app_2; [done|]. by repeat constructor.
    + intros _. split; [done|by apply candidate_size].
    + intros x Hx. apply elem_of_app in Hx as [Hx|Hx]; [by left|right]. apply list_elem_of_singleton in Hx as ->. done.
  - assert (He : e ∈ cache /\ e_typ e = h_typ probe /\ e_size e = h_Size probe).
    { assert (e ∈ filter (fun e => e_typ e = h_typ probe /\ e_size e = h_Size probe) cache) as Hin by (rewrite Ef; left).
      apply list_elem_of_filter in Hin. tauto. }
    destruct He as (Hin & Et & Es). unfold seen_ok in Hc. rewrite Forall_forall in Hc. destruct (Hc e Hin) as [Hn Eq].
    rewrite Et, Es in Eq. exists (e_id e), cache. split_and!; [done|by apply Forall_forall| |by left].
    intros _. split; [done|]. rewrite Eq. apply candidate_size. by rewrite <- Eq.
Qed.
End cache.

(** ** The whole call *)

Section into.
Context `{K : Kernel} {KOk : KernelOk} `{D : Digests} {DOk : DigestsOk}.
Variable heapTransients : bool.
Variable heapHMAC : hash -> list Z -> list Z -> list Z.
Variable heapHKDF : hash -> list Z -> list Z -> list Z -> Z -> list Z * option gerr.
Implicit Types (w : world) (st : bufferState).

(** What a derivation that passed the argument checks ends with: a refusal of
    the borrow, or the output in the buffer; with an error, the buffer may be
    as it was. *)
Definition derived (op : string) (w : world) p st wd (out : Z -> list Z) (sure : bool) (e : option gerr) (w' : world) : Prop :=
  match refusal st wd with
  | Some s => e = Some (errorf op (Sent s)) /\ w' = w
  | None => exists n b b', holds w p st n b /\ settled w p st n b' w' /\
      (b' = lset 0 (out n) b \/ b' = b /\ e <> None) /\ (sure = true -> bs_closedAtRest st = false -> e = None)
  end.

Lemma wp_derive_callback derive st n b (out : list Z) (oe : option gerr) sure :
  bs_readOnly st = false -> 0 <= n <= zlen b -> zlen out = n ->
  (exists r, derive (lsub 0 n b) tt = Ret r tt /\ (r = inr (oe, out) \/ exists err, r = inl err) /\ (sure = true -> r = inr (None, out))) ->
  slice_callback (derive_callback derive) st n b
    (fun e b' => (b' = lset 0 out b \/ b' = b /\ e <> None) /\ (sure = true -> e = None)) (fun _ => False).
Proof.
  intros Hro Hn Ho (r & Hr & Hcase & Hsure) w m Hm Hop <-. unfold derive_callback. apply wp_bind.
  eapply wp_mem_load; [apply Hm|by apply Hop|]. cbn beta. rewrite Hr.
  destruct Hcase as [->|[err ->]].
  - apply wp_bind. eapply wp_mem_copy_in; [apply Hm|by apply Hop|lia|]. apply wp_ret. cbn beta.
    eexists. split; [split; [|reflexivity]|]; [apply zlen_lset; lia|].
    split; [by left|]. intros Hs. specialize (Hsure Hs). congruence.
  - apply wp_ret. exists (mp_bytes m). split; [split; [done|]|].
    + destruct w, m; unfold set_mem; cbn in *. f_equal. symmetry. apply insert_id, Hm.
    + split; [right; done|]. intros Hs. by specialize (Hsure Hs).
Qed.

(** A derivation under the borrow. *)
Lemma wp_borrow_derive op derive w p st c wd (out : Z -> list Z) (oe : option gerr) sure :
  world_ok w -> buf_ok w p st c wd -> bs_readOnly st = false ->
  (forall n b, holds w p st n b -> zlen (out n) = n /\ exists r, derive (lsub 0 n b) tt = Ret r tt /\
     (r = inr (oe, out n) \/ exists err, r = inl err) /\ (sure = true -> r = inr (None, out n))) ->
  wp (WithBytesErr (Ref p) (Some (derive_callback derive))) (fun e => derived op w p st wd out sure (errorf op <$> e)) (fun _ => False) w.
Proof.
  intros W B Hro Hder. eapply wp_mono.
  - apply (wp_WithBytesErr p st c wd _
      (fun b e b' => exists n, holds w p st n b /\ (b' = lset 0 (out n) b \/ b' = b /\ e <> None) /\ (sure = true -> e = None))
      (fun _ _ => False) w W B).
    intros n b Hh. destruct (Hder n b Hh) as [Ho Hr]. pose proof Hh as [_ (m & L & <-)].
    assert (0 <= n <= zlen (mp_bytes m)).
    { pose proof (lv_len _ _ _ _ _ _ _ L). pose proof (bc_map _ _ _ _ (lv_core _ _ _ _ _ _ _ L)) as Hm.
      destruct Hm. unfold zlen in *. lia. }
    intros w1 m1 Hm1 Hop1 Eb. eapply wp_mono; [by eapply wp_derive_callback|..]; [|done].
    cbn beta. intros e w' (b' & Hw & HP). exists b'. split; [done|]. by exists n.
  - cbn beta. intros e w' Ha. unfold derived, accessed in *.
    destruct (refusal st wd) as [s|]; [destruct Ha as [-> ->]; done|].
    destruct Ha as (n & b & Hh & [(e' & b' & (n' & Hh' & HP & Hs) & Hset & He)|(Hc & He & Hset)]).
    + exists n', b, b'. split_and!; [done| |..].
      * destruct Hh as [E _], Hh' as [E' _]. rewrite E in E'. by injection E' as ->.
      * destruct HP as [->|[-> Hn]]; [by left|]. right. split; [done|]. destruct He as [->|[_ ->]]; [|done]. by destruct e'.
      * intros Hsure Hcl. rewrite (Hs Hsure) in He. destruct He as [->|[? _]]; [done|congruence].
    + exists n, b, b. split_and!; [done|done| |congruence]. right. split; [done|]. by destruct e.
  - cbn beta. by intros w' (n & b & b' & _ & [] & _).
Qed.

Lemma returns_derive_into op probe cache id cache' inPlace onHeap w p st c wd (out : Z -> list Z) (oe : option gerr) sure :
  world_ok w -> buf_ok w p st c wd -> bs_readOnly st = false ->
  inPlaceHashOf cache probe = Some (id, cache') -> id <> hashNone ->
  (forall n b, holds w p st n b -> zlen (out n) = n /\ exists r, inPlace id (lsub 0 n b) tt = Ret r tt /\
     (r = inr (oe, out n) \/ exists err, r = inl err) /\ (sure = true -> r = inr (None, out n))) ->
  returns (derive_into heapTransients op probe cache (Ref p) inPlace onHeap) w
    (fun r w' => r.2 = cache' /\ derived op w p st wd out sure r.1 w').
Proof.
  intros W B Hro Hid Hne Hder. unfold derive_into. rewrite Hid, bool_decide_false by done. cbn [negb].
  unfold returns. apply wp_bind. eapply wp_mono; [by eapply (wp_borrow_derive op (inPlace id))|..]; cbn beta; [|done].
  intros e w' He. by apply wp_ret.
Qed.

(** What [in_region] answers, in the form the callback wants. *)
Lemma region_result (fits : bool) (alloc : option gerr) (e : option gerr) (out : list Z) :
  exists r : gerr + option gerr * list Z,
    (if fits then inr (None, out) else match alloc with Some err => inl err | None => inr (e, out) end) = r /\
    (r = inr (if fits then None else e, out) \/ exists err, r = inl err) /\ (fits = true -> r = inr (None, out)).
Proof. eexists. split; [reflexivity|]. destruct fits; [auto|]. destruct alloc; split; try done; eauto. Qed.

(** C12. [HMACInto] and [HKDFInto] on any buffer the module can hold, over any
    hash they identify, with a cache of verified verdicts: a destroyed buffer
    and one of the wrong length are refused, in that order, then a wiped or a
    sealed one; otherwise the buffer ends holding exactly the HMAC of RFC 2104,
    or the key of RFC 5869 of the buffer's length, or is unchanged with an
    error, and there is no error when the working region is small enough for
    the stack and the buffer is not closed at rest. The cache stays one of
    verified verdicts. *)
Theorem kdf_into_exact w p st c wd cache probe id cache' secret salt info :
  world_ok w -> buf_ok w p st c wd -> bs_readOnly st = false -> seen_ok cache ->
  inPlaceHashOf cache probe = Some (id, cache') -> id <> hashNone ->
  seen_ok cache' /\
  returns (HMACInto heapTransients heapHMAC (Some (Some probe)) secret info (Ref p) cache) w (fun r w' =>
    match bs_data st with
    | None => r = (Some (errorf "secmemcrypto: hmac derive" (Sent ErrDestroyed)), cache) /\ w' = w
    | Some n =>
        if negb (n =? size id) then r = (Some (Msg "secmemcrypto: hmac derive: output buffer size"), cache) /\ w' = w
        else r.2 = cache' /\
             derived "secmemcrypto: hmac derive" w p st wd (fun _ => HMAC id secret info)
               (hmacScratchSize id (zlen info) <=? hmacStackRegion) r.1 w'
    end) /\
  returns (HKDFInto heapTransients heapHKDF (Some (Some probe)) secret salt info (Ref p) cache) w (fun r w' =>
    match bs_data st with
    | None => r = (Some (errorf "secmemcrypto: hkdf derive" (Sent ErrDestroyed)), cache) /\ w' = w
    | Some n =>
        if (n <=? 0) then r = (Some (Msg "secmemcrypto: empty output buffer"), cache) /\ w' = w
        else if (255 * size id <? n) then r = (Some (Msg "secmemcrypto: hkdf derive: output exceeds the RFC 5869 limit"), cache) /\ w' = w
        else r.2 = cache' /\
             derived "secmemcrypto: hkdf derive" w p st wd (fun n => HKDF id secret salt info n)
               (hkdfRegion id secret info <=? hmacStackRegion) r.1 w'
    end).
Proof.
  intros W B Hro Hc Hid Hne. destruct (inPlaceHashOf_ok cache probe Hc) as (id' & c' & E & Hc' & Hcand & _).
  rewrite Hid in E. injection E as <- <-. destruct (Hcand Hne) as [_ Hsize]. split; [done|].
  split; (unfold returns, HMACInto, HKDFInto; cbn [is_nil]; apply wp_bind; eapply wp_IsDestroyed; [exact B|]).
  - destruct (bs_data st) as [n|] eqn:Ed; [rewrite bool_decide_false by done|by rewrite bool_decide_true by done; apply wp_ret].
    apply wp_bind. eapply wp_Len; [exact B|]. rewrite Ed, <- Hsize. change (default 0 (Some n)) with n. cbv beta. destruct (Z.eqb_spec n (size id)); cbn [negb]; [|by apply wp_ret].
    eapply (returns_derive_into _ _ _ _ _ _ _ _ _ _ _ _ _
      (if (hmacScratchSize id (zlen info) <=? hmacStackRegion) then None else errorsJoin [None; d_destroy])); [done..|].
    intros n' b Hh. pose proof (proj1 Hh) as En. rewrite Ed in En. injection En as <-. split; [rewrite zlen_HMAC; done|].
    rewrite hmacIntoInPlace_run by (rewrite ?(zlen_slice _ _ _ _ _ Hh); done). destruct (region_result (hmacScratchSize id (zlen info) <=? hmacStackRegion)
      (d_alloc (hmacScratchSize id (zlen info))) (errorsJoin [None; d_destroy]) (HMAC id secret info)) as (r & -> & Hr). by exists r.
  - destruct (bs_data st) as [n|] eqn:Ed; [rewrite bool_decide_false by done|by rewrite bool_decide_true by done; apply wp_ret].
    apply wp_bind. eapply wp_Len; [exact B|]. rewrite Ed, <- Hsize. change (default 0 (Some n)) with n. cbv beta. destruct (Z.leb_spec n 0); [by apply wp_ret|].
    destruct (Z.ltb_spec (255 * size id) n); [by apply wp_ret|].
    eapply (returns_derive_into _ _ _ _ _ _ _ _ _ _ _ _ _
      (if (hkdfRegion id secret info <=? hmacStackRegion) then None else errorsJoin [None; d_destroy])); [done..|].
    intros n' b Hh. pose proof (proj1 Hh) as En. rewrite Ed in En. injection En as <-. split; [apply zlen_HKDF; [done|lia]|].
    pose proof (zlen_slice _ _ _ _ _ Hh) as Ls. rewrite hkdfInPlace_run by (rewrite ?Ls; done || lia). rewrite Ls.
    destruct (region_result (hkdfRegion id secret info <=? hmacStackRegion)
      (d_alloc (hkdfRegion id secret info)) (errorsJoin [None; d_destroy]) (HKDF id secret salt info n)) as (r & -> & Hr). by exists r.
Qed.
End into.

(** ** A concrete derivation *)

#[local] Existing Instance windows_kernel.
#[local] Existing Instance windows_kernel_ok.

#[local] Existing Instance toy_digests.
#[local] Existing Instance toy_digests_ok.

Definition toy_probe : hash := Hash sha256Type 32 64 (d_sum hashSHA256).
Definition toy_cache : seen := [InPlaceHashEntry sha256Type 32 hashSHA256].

(** The bytes of the sample buffer's page after a call. *)
Definition derived_bytes {A} (m : outcome world A) : option (list Z) :=
  match m with Ret _ w => lsub 0 5 <$> (mp_bytes <$> w_mem w !! 64) | _ => None end.

Lemma kdf_into_exact_witness :
  (seen_ok toy_cache /\
   returns (HMACInto false (fun _ _ _ => []) (Some (Some toy_probe)) [7] [8] (Ref 4) []) sample_open (fun r w' =>
     match bs_data (sample_st sample_open) with
     | None => r = (Some (errorf "secmemcrypto: hmac derive" (Sent ErrDestroyed)), []) /\ w' = sample_open
     | Some n =>
         if negb (n =? size hashSHA256) then r = (Some (Msg "secmemcrypto: hmac derive: output buffer size"), []) /\ w' = sample_open
         else r.2 = toy_cache /\
              derived "secmemcrypto: hmac derive" sample_open 4 (sample_st sample_open) false (fun _ => HMAC hashSHA256 [7] [8])
                (hmacScratchSize hashSHA256 (zlen [8]) <=? hmacStackRegion) r.1 w'
     end) /\
   returns (HKDFInto false (fun _ _ _ _ _ => ([], None)) (Some (Some toy_probe)) [7] [9] [8] (Ref 4) []) sample_open (fun r w' =>
     match bs_data (sample_st sample_open) with
     | None => r = (Some (errorf "secmemcrypto: hkdf derive" (Sent ErrDestroyed)), []) /\ w' = sample_open
     | Some n =>
         if (n <=? 0) then r = (Some (Msg "secmemcrypto: empty output buffer"), []) /\ w' = sample_open
         else if (255 * size hashSHA256 <? n) then r = (Some (Msg "secmemcrypto: hkdf derive: output exceeds the RFC 5869 limit"), []) /\ w' = sample_open
         else r.2 = toy_cache /\
              derived "secmemcrypto: hkdf derive" sample_open 4 (sample_st sample_open) false (fun n => HKDF hashSHA256 [7] [9] [8] n)
                (hkdfRegion hashSHA256 [7] [8] <=? hmacStackRegion) r.1 w'
     end)) /\
  derived_bytes (HKDFInto false (fun _ _ _ _ _ => ([], None)) (Some (Some toy_probe)) [7] [9] [8] (Ref 4) [] sample_open) =
    Some (HKDF hashSHA256 [7] [9] [8] 5) /\
  derived_bytes (HKDFInto false (fun _ _ _ _ _ => ([], None)) (Some (Some toy_probe)) [7] [9] [8] (Ref 4) [] sample_open) <>
    Some [1; 2; 3; 4; 5].
Proof.
  split; [|split; [vm_compute; reflexivity|vm_compute; discriminate]]. destruct sample_open_ok as (W & B & _).
  apply (kdf_into_exact false (fun _ _ _ => []) (fun _ _ _ _ _ => ([], None)) sample_open 4 (sample_st sample_open) false false
    [] toy_probe hashSHA256 toy_cache [7] [9] [8] W B); [vm_compute; reflexivity|constructor|vm_compute; reflexivity|done].
Defined.
