(* ===== verification/Pbkdf2.v ===== *)
(** * PBKDF2 inside one region (secmem-crypto/pbkdf2_inplace.go)

    The derivation over the one-shot hashes of Hmac.v, with the two padded keys
    laid down once, and its equality with RFC 8018 (section 5.2). The slices of
    the region are disjoint and are kept as separate lists. *)
From S2P Require Import Prelude Errors Bytes Hmac.

Section pbkdf2.
Context `{Digests}.

Definition pbkdf2RegionSize (h : inPlaceHash) (saltLen : Z) : Z :=
  let block := block h in
  3 * maxHashSize + 2 * (block + maxHashSize) + block + Z.max (saltLen + 4) (size h).

(** [copy(pad, password); pad ^= c] for the first [block] bytes of [msg],
    which nothing clears first. *)
Definition lay_pad (block c : Z) (password msg : list Z) : list Z :=
  xor_first block c (lset 0 (take (Z.to_nat block) password) msg).

(** The turns [j = 1 .. iter-1] of one block. *)
Fixpoint pbkdf2_iter (n : nat) (h : inPlaceHash) (inMsg outMsg u t : list Z)
  : option (list Z * list Z * list Z * list Z) :=
  match n with
  | O => Some (inMsg, outMsg, u, t)
  | S n =>
      let inMsg := copy_at (block h) u inMsg in
      inner ← sum h (drop (Z.to_nat (block h)) outMsg) inMsg;
      let outMsg := lset (block h) inner outMsg in
      u ← sum h u outMsg;
      pbkdf2_iter n h inMsg outMsg u (zip_with Z.lxor t u)
  end.

(** The output loop. Every turn writes at least one byte of [dst]. *)
Fixpoint pbkdf2_loop (fuel : nat) (h : inPlaceHash) (password salt : list Z) (iter off i : Z)
    (t u inMsg outMsg scratch dst : list Z) : option (list Z) :=
  match fuel with
  | O => None
  | S fuel =>
      if (zlen dst <=? off) then Some dst
      else
      '(u, scratch) ← hmacInPlace h u scratch password [salt; be_bytes 4 i];
      let t := copy_at 0 u t in
      '(inMsg, outMsg, u, t) ← pbkdf2_iter (Z.to_nat (iter - 1)) h inMsg outMsg u t;
      pbkdf2_loop fuel h password salt iter (off + Z.min (zlen t) (zlen dst - off)) ((i + 1) mod 2 ^ 32)
        t u inMsg outMsg scratch (copy_at off t dst)
  end.

(** [dst] afterwards; [None] is a panic. *)
Definition pbkdf2Run (h : inPlaceHash) (dst region password salt : list Z) (iter : Z) : option (list Z) :=
  let size := size h in
  let block := block h in
  let inStart := 3 * maxHashSize in
  let outStart := 3 * maxHashSize + block + maxHashSize in
  if (zlen region <? outStart + block + maxHashSize) then None
  else
  let t := lsub 0 size region in
  let u := lsub maxHashSize (maxHashSize + size) region in
  let hashed := lsub (2 * maxHashSize) (2 * maxHashSize + size) region in
  let inMsg := lsub inStart (inStart + block + size) region in
  let outMsg := lsub outStart (outStart + block + size) region in
  let scratch := drop (Z.to_nat (outStart + block + maxHashSize)) region in
  password ← (if block <? zlen password then sum h hashed password else Some password);
  let inMsg := lay_pad block 54 password inMsg in
  let outMsg := lay_pad block 92 password outMsg in
  pbkdf2_loop (S (length dst)) h password salt iter 0 1 t u inMsg outMsg scratch dst.

(** [dst] and the region. *)
Definition pbkdf2Compute (h : inPlaceHash) (dst region password salt : list Z) (iter : Z) : option (list Z * list Z) :=
  dst ← pbkdf2Run h dst region password salt iter;
  Some (dst, zeros (zlen region)).

(** ** RFC 8018 *)

(** [U_1, U_2, ...] *)
Definition PBKDF2_U (h : inPlaceHash) (password salt : list Z) (i : Z) (j : nat) : list Z :=
  Nat.iter j (HMAC h password) (HMAC h password (salt ++ be_bytes 4 i)).
(** The exclusive or of [U_1 .. U_c]. *)
Definition PBKDF2_F (h : inPlaceHash) (password salt : list Z) (c i : Z) : list Z :=
  foldl (zip_with Z.lxor) (PBKDF2_U h password salt i 0) (PBKDF2_U h password salt i <$> seq 1 (Z.to_nat (c - 1))).
(** The first [dkLen] bytes of [T_1 || T_2 || ...]. *)
Definition PBKDF2 (h : inPlaceHash) (password salt : list Z) (c dkLen : Z) : list Z :=
  let l := (dkLen + size h - 1) / size h in
  take (Z.to_nat dkLen) (concat (PBKDF2_F h password salt c <$> seqZ 1 l)).
End pbkdf2.

(** ** The padded keys *)

Section run.
Context `{DigestsOk}.

(** The key after hashing a long one, padded to a block. *)
Definition padded (h : inPlaceHash) (key : list Z) : list Z :=
  let key := if block h <? zlen key then d_sum h key else key in
  key ++ zeros (block h - zlen key).

Lemma HMAC_padded h key msg :
  HMAC h key msg = d_sum h ((Z.lxor 92 <$> padded h key) ++ d_sum h ((Z.lxor 54 <$> padded h key) ++ msg)).
Proof. done. Qed.

Lemma zlen_padded h key c : h <> hashNone -> zlen (Z.lxor c <$> padded h key) = block h.
Proof.
  intros Hh. pose proof (size_bounds h Hh). unfold zlen at 1. rewrite length_fmap. fold (zlen (padded h key)).
  unfold padded. destruct (Z.ltb_spec (block h) (zlen key)); rewrite zlen_app, zlen_zeros; rewrite ?d_sum_len by done; lia.
Qed.

(** Hashing the key once and for all changes nothing. *)
Lemma padded_hashed h key : h <> hashNone ->
  padded h (if block h <? zlen key then d_sum h key else key) = padded h key.
Proof.
  intros Hh. pose proof (size_bounds h Hh). unfold padded. destruct (Z.ltb_spec (block h) (zlen key)).
  - destruct (Z.ltb_spec (block h) (zlen (d_sum h key))) as [L|]; [|done]. rewrite d_sum_len in L by done. lia.
  - destruct (Z.ltb_spec (block h) (zlen key)); [lia|done].
Qed.

Lemma HMAC_hashed h key msg : h <> hashNone ->
  HMAC h (if block h <? zlen key then d_sum h key else key) msg = HMAC h key msg.
Proof. intros Hh. by rewrite !HMAC_padded, padded_hashed. Qed.

(** Laid over zeros, a pad is the padded key. *)
Lemma lay_pad_zeros h c key n : h <> hashNone -> zlen key <= block h -> 0 <= n ->
  lay_pad (block h) c key (zeros (block h + n)) = (Z.lxor c <$> padded h key) ++ zeros n.
Proof.
  intros Hh Hk Hn. pose proof (size_bounds h Hh). pose proof (zlen_nonneg key). unfold lay_pad, padded.
  destruct (Z.ltb_spec (block h) (zlen key)); [lia|].
  rewrite take_ge by (unfold zlen in *; lia). rewrite (zeros_split _ (zlen key)) by lia.
  rewrite lset0_app by (unfold zlen, zeros in *; rewrite length_replicate; lia).
  replace (block h + n - zlen key) with (block h - zlen key + n) by lia.
  rewrite (zeros_split (block h - zlen key + n) (block h - zlen key)) by lia.
  replace (block h - zlen key + n - (block h - zlen key)) with n by lia. rewrite app_assoc.
  rewrite <- (xor_first_app c (key ++ zeros (block h - zlen key))). f_equal. rewrite zlen_app, zlen_zeros; lia.
Qed.

(** ** The loops *)

Lemma digest_over h data (b : list Z) : h <> hashNone -> zlen b = size h -> sum h b data = Some (d_sum h data).
Proof.
  intros Hh Hb. pose proof (d_sum_len h data Hh). rewrite sum_run by done. f_equal. rewrite copy_at_0 by lia.
  rewrite drop_ge by (unfold zlen in *; lia). apply app_nil_r.
Qed.

(** A digest in the slot behind a pad. *)
Lemma copy_behind n (pad x d : list Z) : zlen pad = n -> zlen d = zlen x -> copy_at n d (pad ++ x) = pad ++ d.
Proof. intros <- L. rewrite copy_at_app by lia. rewrite drop_ge by (unfold zlen in L; lia). by rewrite app_nil_r. Qed.

Lemma lset_behind n (pad x d : list Z) : zlen pad = n -> zlen d = zlen x -> lset n d (pad ++ x) = pad ++ d.
Proof.
  intros <- L. rewrite <- (copy_behind (zlen pad) pad x d) by done. unfold copy_at.
  rewrite zlen_app, take_ge; [done|]. unfold zlen in *. lia.
Qed.

Lemma zlen_xor (a b : list Z) : zlen a = zlen b -> zlen (zip_with Z.lxor a b) = zlen a.
Proof. unfold zlen. rewrite length_zip_with. lia. Qed.

Lemma pbkdf2_iter_run h key (n : nat) x y u t :
  h <> hashNone -> zlen x = size h -> zlen y = size h -> zlen u = size h ->
  exists x' y',
    zlen x' = size h /\ zlen y' = size h /\
    pbkdf2_iter n h ((Z.lxor 54 <$> padded h key) ++ x) ((Z.lxor 92 <$> padded h key) ++ y) u t =
    Some ((Z.lxor 54 <$> padded h key) ++ x', (Z.lxor 92 <$> padded h key) ++ y',
          Nat.iter n (HMAC h key) u, foldl (zip_with Z.lxor) t ((fun j => Nat.iter j (HMAC h key) u) <$> seq 1 n)).
Proof.
  intros Hh. revert x y u t. induction n as [|n IH]; intros x y u t Hx Hy Hu; [by exists x, y|].
  cbn [pbkdf2_iter]. pose proof (zlen_padded h key 54 Hh) as L54. pose proof (zlen_padded h key 92 Hh) as L92.
  rewrite (copy_behind (block h)) by (done || lia).
  replace (Z.to_nat (block h)) with (length (Z.lxor 92 <$> padded h key)) by (unfold zlen in *; lia).
  rewrite drop_app_length, digest_over by done. cbn [mbind option_bind].
  set (d := d_sum h ((Z.lxor 54 <$> padded h key) ++ u)). assert (zlen d = size h) as Ld by by apply d_sum_len.
  rewrite (lset_behind (block h)) by (done || lia).
  rewrite digest_over by done. cbn [mbind option_bind]. unfold d. rewrite <- HMAC_padded.
  destruct (IH u (d_sum h ((Z.lxor 54 <$> padded h key) ++ u)) (HMAC h key u) (zip_with Z.lxor t (HMAC h key u)))
    as (x' & y' & Hx' & Hy' & ->); [done|done|by apply zlen_HMAC|].
  exists x', y'. split_and!; try done. rewrite <- Nat.iter_succ_r. f_equal. f_equal.
  cbn [seq fmap list_fmap foldl]. f_equal. rewrite <- (fmap_S_seq 1 n), <- list_fmap_compose.
  apply list_fmap_ext. intros k j _. cbn. by rewrite <- Nat.iter_succ_r.
Qed.

Lemma zlen_PBKDF2_U h password salt i j : h <> hashNone -> zlen (PBKDF2_U h password salt i j) = size h.
Proof. intros Hh. unfold PBKDF2_U. destruct j; cbn; by apply zlen_HMAC. Qed.

Lemma zlen_PBKDF2_F h password salt c i : h <> hashNone -> zlen (PBKDF2_F h password salt c i) = size h.
Proof.
  intros Hh. unfold PBKDF2_F. pose proof (zlen_PBKDF2_U h password salt i 0 Hh) as L. revert L.
  generalize (PBKDF2_U h password salt i 0) as t. induction (seq 1 (Z.to_nat (c - 1))) as [|j js IH]; intros t L; [done|].
  cbn. apply IH. rewrite zlen_xor; [done|]. by rewrite L, zlen_PBKDF2_U.
Qed.

(** A partial last block leaves nothing for a further one. *)
Lemma concat_ceil_step (F : Z -> list Z) i L k :
  0 < k -> 0 < L -> (forall i, zlen (F i) = k) ->
  take (Z.to_nat L) (concat (F <$> seqZ i ((L + k - 1) / k))) =
  take (Z.to_nat L) (F i) ++
  take (Z.to_nat (L - Z.min k L)) (concat (F <$> seqZ (i + 1) ((L - Z.min k L + k - 1) / k))).
Proof.
  intros Hk HL HF. pose proof (ceil_step L k Hk HL) as E.
  rewrite seqZ_cons by lia. cbn [fmap list_fmap concat]. rewrite take_app. pose proof (HF i) as Li.
  replace (Z.pred ((L + k - 1) / k)) with ((L - k + k - 1) / k) by (assert (0 <= (L - k + k - 1) / k) by (apply Z.div_pos; lia); lia).
  f_equal. replace (Z.succ i) with (i + 1) by lia. destruct (Z.le_ge_cases k L).
  - rewrite Z.min_l by lia. f_equal. unfold zlen in *. lia.
  - rewrite Z.min_r by lia. rewrite Z.sub_diag. unfold zlen in *.
    replace (Z.to_nat L - length (F i))%nat with 0%nat by lia. done.
Qed.

Lemma pbkdf2_loop_run h key salt iter (fuel : nat) off i t u x y scratch dst :
  h <> hashNone -> zlen t = size h -> zlen u = size h -> zlen x = size h -> zlen y = size h ->
  0 <= off <= zlen dst -> block h + Z.max (zlen salt + 4) (size h) <= zlen scratch ->
  1 <= i -> i + (zlen dst - off + size h - 1) / size h < 2 ^ 32 -> zlen dst - off < Z.of_nat fuel ->
  pbkdf2_loop fuel h key salt iter off i t u
    ((Z.lxor 54 <$> padded h key) ++ x) ((Z.lxor 92 <$> padded h key) ++ y) scratch dst =
  Some (take (Z.to_nat off) dst ++
        take (Z.to_nat (zlen dst - off))
          (concat (PBKDF2_F h key salt iter <$> seqZ i ((zlen dst - off + size h - 1) / size h)))).
Proof.
  intros Hh. pose proof (size_bounds h Hh) as Hb. revert off i t u x y scratch dst.
  induction fuel as [|fuel IH]; intros off i t u x y scratch dst Ht Hu Hx Hy Ho Hs Hi Hc Hf; [lia|].
  cbn [pbkdf2_loop]. destruct (Z.leb_spec (zlen dst) off) as [Hle|Hlt].
  - replace (zlen dst - off) with 0 by lia. rewrite take_0, app_nil_r, take_ge by (unfold zlen in *; lia). done.
  - assert (concat [salt; be_bytes 4 i] = salt ++ be_bytes 4 i) as Econ by (cbn [concat]; by rewrite app_nil_r).
    assert (zlen (salt ++ be_bytes 4 i) = zlen salt + 4) as Lm by (rewrite zlen_app, zlen_be_bytes; lia).
    pose proof (zlen_nonneg salt). rewrite hmacInPlace_run by (rewrite ?Econ, ?Lm; done || lia). rewrite Econ.
    cbn [mbind option_bind]. set (U := HMAC h key (salt ++ be_bytes 4 i)).
    assert (zlen U = size h) as LU by by apply zlen_HMAC.
    rewrite (lset_full U u) by (unfold zlen in *; lia). rewrite (copy_at_0 U t) by lia. rewrite (drop_ge t) by (unfold zlen in *; lia).
    rewrite app_nil_r. destruct (pbkdf2_iter_run h key (Z.to_nat (iter - 1)) x y U U Hh Hx Hy LU) as (x' & y' & Hx' & Hy' & ->).
    cbn [mbind option_bind]. fold (PBKDF2_F h key salt iter i). pose proof (zlen_PBKDF2_F h key salt iter i Hh) as LT.
    change (foldl (zip_with Z.lxor) U _) with (PBKDF2_F h key salt iter i).
    set (T := PBKDF2_F h key salt iter i) in *. rewrite LT. destruct (copy_block off T dst Ho) as [Ld Et].
    pose proof (ceil_step (zlen dst - off) (size h) ltac:(lia) ltac:(lia)) as Ec.
    assert (0 <= (zlen dst - off - size h + size h - 1) / size h) by (apply Z.div_pos; lia).
    rewrite Z.mod_small by lia. rewrite IH; rewrite ?Ld; try done || lia.
    + rewrite (concat_ceil_step _ i (zlen dst - off)) by first [lia | intros; by apply zlen_PBKDF2_F]. rewrite app_assoc. f_equal.
      replace (zlen dst - (off + size h `min` (zlen dst - off))) with (zlen dst - off - size h `min` (zlen dst - off)) by lia.
      f_equal. fold T. rewrite LT in Et. rewrite <- Et. unfold zlen in *.
      destruct (Z.le_ge_cases (size h) (Z.of_nat (length dst) - off)); [by rewrite Z.min_l by lia|].
      rewrite Z.min_r, !take_ge by lia. done.
    + set (k := Z.to_nat (iter - 1)). clearbody k. destruct k; cbn; [done|by apply zlen_HMAC].
    + rewrite zlen_wiped by lia. lia.
    + destruct (Z.le_ge_cases (size h) (zlen dst - off)).
      * rewrite Z.min_l by lia. replace (zlen dst - (off + size h)) with (zlen dst - off - size h) by lia. lia.
      * rewrite Z.min_r by lia. rewrite (Z.div_small (_ - (off + _) + _ - 1)) by lia. lia.
Qed.

Lemma PBKDF2_hashed h password salt c n : h <> hashNone ->
  PBKDF2 h (if block h <? zlen password then d_sum h password else password) salt c n = PBKDF2 h password salt c n.
Proof.
  intros Hh. unfold PBKDF2. f_equal. f_equal. apply list_fmap_ext. intros _ i _. unfold PBKDF2_F.
  assert (HU : forall j, PBKDF2_U h (if block h <? zlen password then d_sum h password else password) salt i j = PBKDF2_U h password salt i j).
  { intros j. unfold PBKDF2_U. induction j as [|j IH]; [by apply HMAC_hashed|]. by rewrite !Nat.iter_succ, IH, HMAC_hashed. }
  rewrite HU. f_equal. apply list_fmap_ext. intros _ j _. apply HU.
Qed.

(** On a zeroed region of the required size: RFC 8018. *)
Lemma pbkdf2Compute_run h dst n password salt iter :
  h <> hashNone -> pbkdf2RegionSize h (zlen salt) <= n -> (zlen dst + size h - 1) / size h + 1 < 2 ^ 32 ->
  pbkdf2Compute h dst (zeros n) password salt iter = Some (PBKDF2 h password salt iter (zlen dst), zeros n).
Proof.
  intros Hh Hn Hl. pose proof (size_bounds h Hh). pose proof (zlen_nonneg salt). pose proof (zlen_nonneg dst).
  unfold pbkdf2RegionSize in Hn. unfold pbkdf2Compute, pbkdf2Run, maxHashSize in *.
  rewrite zlen_zeros by lia. destruct (Z.ltb_spec n (3 * 64 + block h + 64 + block h + 64)); [lia|].
  rewrite !lsub_zeros by lia. rewrite drop_zeros by lia.
  assert ((if block h <? zlen password then sum h (zeros (2 * 64 + size h - 2 * 64)) password else Some password) =
          Some (if block h <? zlen password then d_sum h password else password)) as ->.
  { destruct (block h <? zlen password); [|done]. apply digest_over; [done|]. rewrite zlen_zeros; lia. }
  cbn [mbind option_bind]. rewrite <- (PBKDF2_hashed h password) by done.
  set (key := if block h <? zlen password then d_sum h password else password).
  assert (zlen key <= block h). { unfold key. destruct (Z.ltb_spec (block h) (zlen password)); rewrite ?d_sum_len by done; lia. }
  assert (forall a, a + block h + size h - a = block h + size h) as Ea by (intros; lia). rewrite !Ea.
  rewrite !lay_pad_zeros by (done || lia).
  rewrite pbkdf2_loop_run; rewrite ?zlen_zeros by lia; try done || lia.
  - cbn [mbind option_bind]. rewrite take_0, Z.sub_0_r. done.
  - rewrite Z.sub_0_r. lia.
  - unfold zlen. lia.
Qed.

Lemma zlen_PBKDF2 h password salt c L : h <> hashNone -> 0 <= L -> zlen (PBKDF2 h password salt c L) = L.
Proof.
  intros Hh HL. pose proof (size_bounds h Hh) as Hb. unfold PBKDF2. set (l := (L + size h - 1) / size h).
  assert (L <= l * size h) as Hl by
    (unfold l; pose proof (Z.div_mod (L + size h - 1) (size h)); pose proof (Z.mod_pos_bound (L + size h - 1) (size h)); lia).
  assert (forall js, zlen (concat (PBKDF2_F h password salt c <$> js)) = zlen js * size h) as Hc.
  { intros js. induction js as [|i js IH]; [done|]. cbn [fmap list_fmap concat]. rewrite zlen_app, zlen_PBKDF2_F, IH, zlen_cons by done. lia. }
  specialize (Hc (seqZ 1 l)). assert (0 <= l) by (apply Z.div_pos; lia). revert Hc. unfold zlen. rewrite length_take, length_seqZ. lia.
Qed.
End run.
