(* ===== verification/Scrypt.v ===== *)
(** * scrypt inside one region (secmem-crypto/internal/scrypt/scrypt.go,
      scrypt_inplace.go)

    The memory-hard step on 32-bit words, with its two blocks that change
    places every half turn, and the derivation around it; their equality with
    RFC 7914. A slice of 32-bit words over the region is a list of words. *)
From S2P Require Import Prelude Errors KeyErrors Bytes ModReduce Pem Blowfish OpenSSHCipher Hmac Pbkdf2.

(** ** Salsa20/8 *)

(** [x_i ^= RotateLeft32(x_j + x_k, n)] *)
Definition salsa_op (x : list Z) (op : nat * nat * nat * nat) : list Z :=
  let '(i, j, k, n) := op in <[i := Z.lxor (x !!! i) (rotl32 (add32 (x !!! j) (x !!! k)) (Z.of_nat n))]> x.

(** The body of the loop, in the order of the source. *)
Definition salsa_ops : list (nat * nat * nat * nat) :=
  [(4, 0, 12, 7); (8, 4, 0, 9); (12, 8, 4, 13); (0, 12, 8, 18);
   (9, 5, 1, 7); (13, 9, 5, 9); (1, 13, 9, 13); (5, 1, 13, 18);
   (14, 10, 6, 7); (2, 14, 10, 9); (6, 2, 14, 13); (10, 6, 2, 18);
   (3, 15, 11, 7); (7, 3, 15, 9); (11, 7, 3, 13); (15, 11, 7, 18);
   (1, 0, 3, 7); (2, 1, 0, 9); (3, 2, 1, 13); (0, 3, 2, 18);
   (6, 5, 4, 7); (7, 6, 5, 9); (4, 7, 6, 13); (5, 4, 7, 18);
   (11, 10, 9, 7); (8, 11, 10, 9); (9, 8, 11, 13); (10, 9, 8, 18);
   (12, 15, 14, 7); (13, 12, 15, 9); (14, 13, 12, 13); (15, 14, 13, 18)]%nat.

(** [salsaXOR]: what it stores in both [tmp] and [out]. *)
Definition salsaXOR (tmp inw : list Z) : list Z :=
  let w := zip_with Z.lxor tmp inw in
  zip_with add32 (Nat.iter 4 (fun x => foldl salsa_op x salsa_ops) w) w.

(** ** Blocks *)

Definition blockCopy (off : Z) (dst src : list Z) (n : Z) : list Z := lset off (take (Z.to_nat n) src) dst.

(** [dst[i] ^= v] for the first [n]. *)
Definition blockXOR (dst src : list Z) (n : Z) : list Z :=
  zip_with Z.lxor (take (Z.to_nat n) dst) (take (Z.to_nat n) src) ++ drop (Z.to_nat n) dst.

(** The loop of [blockMix], [n] turns from [i]. *)
Fixpoint mix_loop (n : nat) (i r : Z) (inw tmp out : list Z) : list Z * list Z :=
  match n with
  | O => (tmp, out)
  | S n =>
      let tmp := salsaXOR tmp (lsub (i * 16) (i * 16 + 16) inw) in
      let out := lset (i * 8) tmp out in
      let tmp := salsaXOR tmp (lsub (i * 16 + 16) (i * 16 + 32) inw) in
      let out := lset (i * 8 + r * 16) tmp out in
      mix_loop n (i + 2) r inw tmp out
  end.

(** [tmp] and [out]. *)
Definition blockMix (tmp inw out : list Z) (r : Z) : list Z * list Z :=
  let tmp := blockCopy 0 tmp (drop (Z.to_nat ((2 * r - 1) * 16)) inw) 16 in
  mix_loop (Z.to_nat r) 0 r inw tmp out.

Definition integer (b : list Z) (r : Z) : Z :=
  let j := Z.to_nat ((2 * r - 1) * 16) in
  Z.lor (b !!! j) (Z.shiftl (b !!! S j) 32).

(** ** smix *)

(** The loop that fills V, [n] turns from block [i]. *)
Fixpoint smix_fill (n : nat) (i r : Z) (v x y tmp : list Z) : list Z * list Z * list Z * list Z :=
  match n with
  | O => (v, x, y, tmp)
  | S n =>
      let R := 32 * r in
      let v := blockCopy (i * R) v x R in
      let '(tmp, y) := blockMix tmp x y r in
      let v := blockCopy ((i + 1) * R) v y R in
      let '(tmp, x) := blockMix tmp y x r in
      smix_fill n (i + 2) r v x y tmp
  end.

(** The loop that reads V at the places the blocks say, [n] turns. *)
Fixpoint smix_walk (n : nat) (r N : Z) (v x y tmp : list Z) : list Z * list Z * list Z :=
  match n with
  | O => (x, y, tmp)
  | S n =>
      let R := 32 * r in
      let j := Z.land (integer x r) (N - 1) in
      let x := blockXOR x (drop (Z.to_nat (j * R)) v) R in
      let '(tmp, y) := blockMix tmp x y r in
      let j := Z.land (integer y r) (N - 1) in
      let y := blockXOR y (drop (Z.to_nat (j * R)) v) R in
      let '(tmp, x) := blockMix tmp y x r in
      smix_walk n r N v x y tmp
  end.

(** [b] and the working words afterwards. [x] is the first block of [xy]. *)
Definition smix (b : list Z) (r N : Z) (v xy tmp : list Z) : list Z * (list Z * list Z * list Z) :=
  let R := 32 * r in
  let x := (fun i => le32 b (4 * i)) <$> seq 0 (Z.to_nat R) in
  let y := drop (Z.to_nat R) xy in
  let '(v, x, y, tmp) := smix_fill (Z.to_nat ((N + 1) / 2)) 0 r v x y tmp in
  let '(x, y, tmp) := smix_walk (Z.to_nat ((N + 1) / 2)) r N v x y tmp in
  (lset 0 (x ≫= put32) b, (v, x ++ y, tmp)).

(** ** Mix *)

Definition BlockSize (r : Z) : Z := 128 * r.
Definition WorkSize (N r : Z) : Z := 128 * r * N + 256 * r + 64.

(** One block after another; [n] bounds the turns. *)
Fixpoint mix_blocks (n : nat) (b : list Z) (i N r : Z) (v xy tmp : list Z) : option (list Z) :=
  match n with
  | O => None
  | S n =>
      if (zlen b <=? i) then Some b
      else
      let '(c, (v, xy, tmp)) := smix (drop (Z.to_nat i) b) r N v xy tmp in
      mix_blocks n (take (Z.to_nat i) b ++ c) (i + BlockSize r) N r v xy tmp
  end.

(** [b] afterwards; [None] is a panic. [words] is the region as 32-bit words,
    [workLen] its length in bytes. *)
Definition Mix (b : list Z) (N r : Z) (workLen : Z) (aligned : bool) (words : list Z) : option (list Z) :=
  if (N <=? 1) || negb (Z.land N (N - 1) =? 0) then None
  else if (r <=? 0) then None
  else if (zlen b =? 0) || negb (Z.rem (zlen b) (BlockSize r) =? 0) then None
  else
  let need := WorkSize N r in
  if (workLen <? need) then None
  else if negb aligned then None
  else
  let v := lsub 0 (32 * N * r) words in
  let xy := lsub (32 * N * r) (32 * N * r + 64 * r) words in
  let tmp := lsub (32 * N * r + 64 * r) (32 * N * r + 64 * r + 16) words in
  mix_blocks (S (length b)) b 0 N r v xy tmp.

(** ** RFC 7914 *)

(** Salsa20/8 as the Salsa20 specification writes it. *)
Definition quarterround (y : list Z) (a b c d : nat) : list Z :=
  let z1 := Z.lxor (y !!! b) (rotl32 (add32 (y !!! a) (y !!! d)) 7) in
  let z2 := Z.lxor (y !!! c) (rotl32 (add32 z1 (y !!! a)) 9) in
  let z3 := Z.lxor (y !!! d) (rotl32 (add32 z2 z1) 13) in
  let z0 := Z.lxor (y !!! a) (rotl32 (add32 z3 z2) 18) in
  <[a := z0]> (<[d := z3]> (<[c := z2]> (<[b := z1]> y))).
Definition rowround (y : list Z) : list Z :=
  quarterround (quarterround (quarterround (quarterround y 0 1 2 3) 5 6 7 4) 10 11 8 9) 15 12 13 14.
Definition columnround (x : list Z) : list Z :=
  quarterround (quarterround (quarterround (quarterround x 0 4 8 12) 5 9 13 1) 10 14 2 6) 15 3 7 11.
Definition Salsa20_8 (x : list Z) : list Z := zip_with add32 (Nat.iter 4 (fun x => rowround (columnround x)) x) x.

(** [n] blocks of 16 words. *)
Fixpoint chunks (n : nat) (w : list Z) : list (list Z) :=
  match n with
  | O => []
  | S n => take 16 w :: chunks n (drop 16 w)
  end.
Fixpoint chain (X : list Z) (B : list (list Z)) {struct B} : list (list Z) :=
  match B with
  | [] => []
  | b :: B => let Y := Salsa20_8 (zip_with Z.lxor X b) in Y :: chain Y B
  end.
Fixpoint evens {A} (l : list A) : list A := match l with x :: _ :: l => x :: evens l | _ => l end.
Fixpoint odds {A} (l : list A) : list A := match l with _ :: y :: l => y :: odds l | _ => [] end.

(** scryptBlockMix (section 4) on [2r] blocks laid end to end. *)
Definition BlockMix (r : Z) (B : list Z) : list Z :=
  let n := Z.to_nat (2 * r) in
  let Y := chain (take 16 (drop (Z.to_nat ((2 * r - 1) * 16)) B)) (chunks n B) in
  concat (evens Y) ++ concat (odds Y).

(** The little-endian integer of the last block. *)
Fixpoint words_value (w : list Z) : Z := match w with [] => 0 | x :: w => x + 2 ^ 32 * words_value w end.
Definition Integrify (r : Z) (B : list Z) : Z := words_value (drop (Z.to_nat ((2 * r - 1) * 16)) B).

(** scryptROMix (section 5), on words and on octets. *)
Definition ROMix (r N : Z) (B : list Z) : list Z :=
  let V j := Nat.iter j (BlockMix r) B in
  Nat.iter (Z.to_nat N) (fun X => BlockMix r (zip_with Z.lxor X (V (Z.to_nat (Integrify r X mod N))))) (V (Z.to_nat N)).
Definition scryptROMix (r N : Z) (b : list Z) : list Z :=
  ROMix r N ((fun i => le32 b (4 * i)) <$> seq 0 (Z.to_nat (32 * r))) ≫= put32.

(** Each block of the string in turn. *)
Fixpoint each_block (n : nat) (size : nat) (f : list Z -> list Z) (b : list Z) : list Z :=
  match n with
  | O => []
  | S n => f (take size b) ++ each_block n size f (drop size b)
  end.

(** ** The derivation *)

Section derive.
Context `{Digests}.

Definition scryptRegionSize (saltLen n r p : Z) : Z :=
  let b := p * BlockSize r in
  WorkSize n r + b + pbkdf2RegionSize hashSHA256 (Z.max saltLen b).

(** [dst] and the region afterwards; [None] is a panic. [aligned] is whether
    the region starts at a multiple of four. *)
Definition scryptCompute (aligned : bool) (dst region password salt : list Z) (n r p : Z) : option (list Z * list Z) :=
  let workLen := WorkSize n r in
  let bLen := p * BlockSize r in
  if (zlen region <? workLen + bLen) then None
  else
  let work := (fun i => le32 region (4 * i)) <$> seq 0 (Z.to_nat (workLen / 4)) in
  let b := lsub workLen (workLen + bLen) region in
  let kdf := drop (Z.to_nat (workLen + bLen)) region in
  let n1 := pbkdf2RegionSize hashSHA256 (zlen salt) in
  if (zlen kdf <? n1) then None
  else
  '(b, kdf1) ← pbkdf2Compute hashSHA256 b (lsub 0 n1 kdf) password salt 1;
  let kdf := lset 0 kdf1 kdf in
  b ← Mix b n r workLen aligned work;
  let n2 := pbkdf2RegionSize hashSHA256 bLen in
  if (zlen kdf <? n2) then None
  else
  '(dst, kdf2) ← pbkdf2Compute hashSHA256 dst (lsub 0 n2 kdf) password b 1;
  let kdf := lset 0 kdf2 kdf in
  Some (dst, zeros (workLen + bLen) ++ kdf).

(** Section 6. *)
Definition scrypt (password salt : list Z) (n r p dkLen : Z) : list Z :=
  let B := PBKDF2 hashSHA256 password salt 1 (p * 128 * r) in
  let B := each_block (Z.to_nat p) (Z.to_nat (128 * r)) (scryptROMix r n) B in
  PBKDF2 hashSHA256 password B 1 dkLen.
End derive.

(** ** The blocks *)

Definition is_word32 (x : Z) : Prop := 0 <= x < 2 ^ 32.

Lemma length_quarterround y a b c d : length (quarterround y a b c d) = length y.
Proof. unfold quarterround. by rewrite !length_insert. Qed.

Lemma length_rounds x : length (rowround (columnround x)) = length x.
Proof. unfold rowround, columnround. do 8 rewrite length_quarterround. done. Qed.

Lemma foldl_salsa_length ops x : length (foldl salsa_op x ops) = length x.
Proof.
  revert x. induction ops as [|[[[i j] k] n] ops IH]; intros x; [done|]. cbn [foldl]. rewrite IH. apply length_insert.
Qed.

(** Four statements are a quarter round. *)
Lemma salsa_ops_quarter x (a b c d : nat) ops :
  length x = 16%nat -> (a < 16)%nat -> (b < 16)%nat -> (c < 16)%nat -> (d < 16)%nat ->
  NoDup [a; b; c; d] ->
  foldl salsa_op x ((b, a, d, 7) :: (c, b, a, 9) :: (d, c, b, 13) :: (a, d, c, 18) :: ops)%nat = foldl salsa_op (quarterround x a b c d) ops.
Proof.
  intros Hx Ha Hb Hc Hd Hnd. cbn [foldl]. f_equal. unfold salsa_op.
  assert (a <> b /\ a <> c /\ a <> d /\ b <> c /\ b <> d /\ c <> d) as (?&?&?&?&?&?).
  { apply NoDup_cons in Hnd as [N1 Hnd]. apply NoDup_cons in Hnd as [N2 Hnd]. apply NoDup_cons in Hnd as [N3 _]. set_solver. }
  unfold quarterround.
  repeat first [rewrite list_lookup_total_insert_eq by (rewrite ?length_insert; lia) | rewrite list_lookup_total_insert_ne by done].
  done.
Qed.

(** The thirty-two statements are a column round and a row round. *)
Lemma salsa_ops_rounds x : length x = 16%nat -> foldl salsa_op x salsa_ops = rowround (columnround x).
Proof.
  intros Hx. unfold salsa_ops, rowround, columnround.
  do 8 (rewrite (salsa_ops_quarter _ _ _ _ _ _);
    [|by rewrite ?length_quarterround|lia|lia|lia|lia|by repeat (constructor; [set_solver|]); constructor]).
  done.
Qed.

Lemma salsaXOR_spec tmp inw : length tmp = 16%nat -> length inw = 16%nat -> salsaXOR tmp inw = Salsa20_8 (zip_with Z.lxor tmp inw).
Proof.
  intros Ht Hi. unfold salsaXOR, Salsa20_8. set (w := zip_with Z.lxor tmp inw). f_equal.
  assert (length w = 16%nat) as Hw by (unfold w; rewrite length_zip_with; lia).
  assert (forall n, Nat.iter n (fun x => foldl salsa_op x salsa_ops) w = Nat.iter n (fun x => rowround (columnround x)) w /\
    length (Nat.iter n (fun x => foldl salsa_op x salsa_ops) w) = 16%nat) as Hn; [|apply (Hn 4%nat)].
  induction n as [|n [IH IHl]]; [done|]. rewrite !Nat.iter_succ. split.
  - rewrite salsa_ops_rounds by done. by rewrite IH.
  - by rewrite foldl_salsa_length.
Qed.

Lemma length_Salsa20_8 x : length x = 16%nat -> length (Salsa20_8 x) = 16%nat.
Proof.
  intros Hx. unfold Salsa20_8. rewrite length_zip_with.
  assert (forall n, length (Nat.iter n (fun x => rowround (columnround x)) x) = 16%nat) as Hn; [|rewrite Hn; lia].
  induction n as [|n IH]; [done|]. rewrite Nat.iter_succ. by rewrite length_rounds.
Qed.

Lemma words_add32 a x : Forall is_word32 (zip_with add32 a x).
Proof.
  revert x. induction a as [|y a IH]; intros [|z x]; cbn; constructor; [|done].
  unfold is_word32, add32. apply Z.mod_pos_bound. lia.
Qed.
Lemma words_Salsa20_8 x : Forall is_word32 (Salsa20_8 x).
Proof. apply words_add32. Qed.
#[local] Opaque Salsa20_8 salsaXOR.

(** ** blockMix *)

Lemma length_chain X B : length (chain X B) = length B.
Proof. revert X. induction B as [|b B IH]; intros X; cbn; [done|]. by rewrite IH. Qed.

Lemma length_chunks n w : length (chunks n w) = n.
Proof. revert w. induction n as [|n IH]; intros w; cbn; [done|]. by rewrite IH. Qed.

Lemma chain_blocks X B :
  length X = 16%nat -> Forall (fun b => length b = 16%nat) B -> Forall (fun b => length b = 16%nat /\ Forall is_word32 b) (chain X B).
Proof.
  intros HX HB. revert X HX. induction HB as [|b B Hb HB IH]; intros X HX; cbn [chain]; constructor.
  - split; [apply length_Salsa20_8; rewrite length_zip_with; lia|apply words_Salsa20_8].
  - apply IH, length_Salsa20_8. rewrite length_zip_with. lia.
Qed.

Lemma chunks_blocks n w : (16 * n <= length w)%nat -> Forall (fun b => length b = 16%nat) (chunks n w).
Proof.
  revert w. induction n as [|n IH]; intros w Hw; cbn [chunks]; constructor; [rewrite length_take; lia|].
  apply IH. rewrite length_drop. lia.
Qed.

(** [n] turns of the loop, the outputs so far being [E] and [O]. *)
Lemma mix_loop_run n i r inw tmp E e O o :
  length tmp = 16%nat -> 0 <= i -> zlen E = i * 8 -> zlen (E ++ e) = r * 16 -> zlen O = i * 8 ->
  length e = (16 * n)%nat -> length o = (16 * n)%nat -> i * 16 + 32 * Z.of_nat n <= zlen inw ->
  exists tmp', length tmp' = 16%nat /\
  mix_loop n i r inw tmp ((E ++ e) ++ O ++ o) =
  (tmp', let Y := chain tmp (chunks (2 * n) (drop (Z.to_nat (i * 16)) inw)) in
         (E ++ concat (evens Y)) ++ O ++ concat (odds Y)).
Proof.
  revert i tmp E e O o. induction n as [|n IH]; intros i tmp E e O o Ht Hi HE HEe HO He Ho Hin.
  - exists tmp. split; [done|]. destruct e; [|done]. destruct o; [|done]. done.
  - cbn [mix_loop]. set (b0 := lsub (i * 16) (i * 16 + 16) inw). set (b1 := lsub (i * 16 + 16) (i * 16 + 32) inw).
    assert (length b0 = 16%nat /\ length b1 = 16%nat) as [L0 L1] by (unfold b0, b1; rewrite !length_lsub by lia; lia).
    rewrite (salsaXOR_spec tmp b0) by done. set (Y0 := Salsa20_8 (zip_with Z.lxor tmp b0)).
    assert (length Y0 = 16%nat) as LY0 by (apply length_Salsa20_8; rewrite length_zip_with; lia).
    rewrite (salsaXOR_spec Y0 b1) by done. set (Y1 := Salsa20_8 (zip_with Z.lxor Y0 b1)).
    assert (length Y1 = 16%nat) as LY1 by (apply length_Salsa20_8; rewrite length_zip_with; lia).
    assert (exists e0 e', e = e0 ++ e' /\ length e0 = 16%nat /\ length e' = (16 * n)%nat) as (e0 & e' & -> & Le & He')
      by (exists (take 16 e), (drop 16 e); rewrite take_drop, length_take, length_drop; split_and!; [done|lia..]).
    assert (exists o0 o', o = o0 ++ o' /\ length o0 = 16%nat /\ length o' = (16 * n)%nat) as (o0 & o' & -> & Lo & Ho')
      by (exists (take 16 o), (drop 16 o); rewrite take_drop, length_take, length_drop; split_and!; [done|lia..]).
    assert (lset (i * 8) Y0 ((E ++ e0 ++ e') ++ O ++ o0 ++ o') = ((E ++ Y0) ++ e') ++ O ++ o0 ++ o') as ->.
    { rewrite <- !app_assoc. apply lset_mid; [lia|lia]. }
    assert (lset (i * 8 + r * 16) Y1 (((E ++ Y0) ++ e') ++ O ++ o0 ++ o') = ((E ++ Y0) ++ e') ++ (O ++ Y1) ++ o') as ->.
    { rewrite <- (app_assoc O), (app_assoc _ O), (app_assoc _ O). apply lset_mid; [|lia].
      revert HEe. unfold zlen in *. rewrite !length_app. lia. }
    destruct (IH (i + 2) Y1 (E ++ Y0) e' (O ++ Y1) o') as (tmp' & Ht' & ->); try done || lia.
    1, 2, 3: revert HEe; unfold zlen in *; rewrite !length_app; lia.
    exists tmp'. split; [done|]. f_equal.
    replace (2 * S n)%nat with (S (S (2 * n))) by lia. cbn [chunks chain].
    assert (take 16 (drop (Z.to_nat (i * 16)) inw) = b0) as -> by (unfold b0, lsub; f_equal; lia).
    assert (take 16 (drop 16 (drop (Z.to_nat (i * 16)) inw)) = b1) as ->
      by (unfold b1, lsub; rewrite drop_drop; f_equal; [lia|f_equal; lia]).
    assert (drop 16 (drop 16 (drop (Z.to_nat (i * 16)) inw)) = drop (Z.to_nat ((i + 2) * 16)) inw) as ->
      by (rewrite !drop_drop; f_equal; lia).
    fold Y0 Y1. cbn [evens odds concat]. by rewrite !app_assoc.
Qed.

(** [blockMix] is scryptBlockMix, whatever [out] and [tmp] held. *)
Lemma blockMix_run tmp inw out r :
  0 < r -> length tmp = 16%nat -> zlen inw = 32 * r -> zlen out = 32 * r ->
  exists tmp', length tmp' = 16%nat /\ blockMix tmp inw out r = (tmp', BlockMix r inw).
Proof.
  intros Hr Ht Hi Ho. unfold blockMix, blockCopy. rewrite lset_full
    by (rewrite length_take, length_drop; unfold zlen in Hi; lia).
  set (X := take (Z.to_nat 16) (drop (Z.to_nat ((2 * r - 1) * 16)) inw)).
  assert (length X = 16%nat) as LX by (unfold X; rewrite length_take, length_drop; unfold zlen in Hi; lia).
  rewrite <- (take_drop (Z.to_nat (r * 16)) out).
  destruct (mix_loop_run (Z.to_nat r) 0 r inw X [] (take (Z.to_nat (r * 16)) out) [] (drop (Z.to_nat (r * 16)) out))
    as (tmp' & Ht' & E); try done || lia.
  1, 2, 3: unfold zlen in *; cbn [app]; rewrite ?length_take, ?length_drop; lia.
  exists tmp'. split; [done|]. cbn [app] in E. rewrite E. unfold BlockMix. rewrite drop_0. f_equal.
  by replace (2 * Z.to_nat r)%nat with (Z.to_nat (2 * r)) by lia.
Qed.

Lemma evens_odds_blocks (n : nat) (Y : list (list Z)) :
  Forall (fun b => length b = 16%nat /\ Forall is_word32 b) Y -> length Y = (2 * n)%nat ->
  length (concat (evens Y)) = (16 * n)%nat /\ length (concat (odds Y)) = (16 * n)%nat /\
  Forall is_word32 (concat (evens Y)) /\ Forall is_word32 (concat (odds Y)).
Proof.
  revert Y. induction n as [|n IH]; intros Y HY HL; [by destruct Y|].
  destruct Y as [|a [|b Y]]; [cbn in HL; lia..|]. apply Forall_cons in HY as [[La Wa] HY]. apply Forall_cons in HY as [[Lb Wb] HY].
  destruct (IH Y) as (L1 & L2 & W1 & W2); [done|cbn in HL; lia|]. cbn [evens odds concat].
  rewrite !length_app. split_and!; [lia|lia|by apply Forall_app_2..].
Qed.

Lemma BlockMix_ok r B : 0 < r -> zlen B = 32 * r -> zlen (BlockMix r B) = 32 * r /\ Forall is_word32 (BlockMix r B).
Proof.
  intros Hr HB. unfold BlockMix. set (Y := chain _ _).
  assert (Forall (fun b => length b = 16%nat /\ Forall is_word32 b) Y) as HY.
  { apply chain_blocks; [rewrite length_take, length_drop; unfold zlen in HB; lia|]. apply chunks_blocks. unfold zlen in HB. lia. }
  destruct (evens_odds_blocks (Z.to_nat r) Y HY) as (L1 & L2 & W1 & W2).
  { unfold Y. rewrite length_chain, length_chunks. lia. }
  split; [rewrite zlen_app; unfold zlen; lia|by apply Forall_app_2].
Qed.

Section romix.
Variables (r N k : Z) (B : list Z).
Hypothesis Hr : 0 < r.
Hypothesis HN : N = 2 ^ k.
Hypothesis Hk : 1 <= k <= 64.
Hypothesis HB : zlen B = 32 * r.

Let V (j : nat) : list Z := Nat.iter j (BlockMix r) B.

Lemma zlen_V j : zlen (V j) = 32 * r.
Proof. induction j as [|j IH]; [done|]. unfold V. rewrite Nat.iter_succ. by apply BlockMix_ok. Qed.

(** [v] holds the first [i] blocks. *)
Definition filled (v : list Z) (i : Z) : Prop :=
  zlen v = N * (32 * r) /\ forall j, 0 <= j < i -> take (Z.to_nat (32 * r)) (drop (Z.to_nat (j * (32 * r))) v) = V (Z.to_nat j).

Lemma filled_step v i : filled v i -> 0 <= i < N -> filled (blockCopy (i * (32 * r)) v (V (Z.to_nat i)) (32 * r)) (i + 1).
Proof.
  intros [Hv Hf] Hi. unfold blockCopy. rewrite take_ge by (pose proof (zlen_V (Z.to_nat i)) as L; unfold zlen in L; lia).
  pose proof (zlen_V (Z.to_nat i)) as Li.
  assert (0 <= i * (32 * r) /\ i * (32 * r) + 32 * r <= N * (32 * r)) as [H1 H2] by nia.
  split; [by rewrite zlen_lset by lia|]. intros j Hj. destruct (decide (j = i)) as [->|].
  - pose proof (lsub_lset_same (i * (32 * r)) (V (Z.to_nat i)) v H1 ltac:(lia)) as E. unfold lsub in E. rewrite Li in E.
    replace (i * (32 * r) + 32 * r - i * (32 * r)) with (32 * r) in E by lia. done.
  - rewrite <- (Hf j) by lia. assert (0 <= j * (32 * r) /\ (j + 1) * (32 * r) <= i * (32 * r)) as [H3 H4] by nia.
    pose proof (lsub_lset_disj (j * (32 * r)) (j * (32 * r) + 32 * r) (i * (32 * r)) (V (Z.to_nat i)) v) as E. unfold lsub in E.
    replace (j * (32 * r) + 32 * r - j * (32 * r)) with (32 * r) in E by lia. apply E; lia.
Qed.

Lemma smix_fill_run (n : nat) i v y tmp :
  filled v i -> 0 <= i -> i + 2 * Z.of_nat n <= N -> zlen y = 32 * r -> length tmp = 16%nat ->
  exists v' y' tmp', smix_fill n i r v (V (Z.to_nat i)) y tmp = (v', V (Z.to_nat (i + 2 * Z.of_nat n)), y', tmp') /\
    filled v' (i + 2 * Z.of_nat n) /\ zlen y' = 32 * r /\ length tmp' = 16%nat.
Proof.
  revert i v y tmp. induction n as [|n IH]; intros i v y tmp Hv Hi Hn Hy Ht.
  - exists v, y, tmp. replace (i + 2 * Z.of_nat 0) with i by lia. done.
  - cbn [smix_fill]. pose proof (filled_step v i Hv ltac:(lia)) as Hv1.
    destruct (blockMix_run tmp (V (Z.to_nat i)) y r Hr Ht (zlen_V _) Hy) as (t1 & Ht1 & ->).
    assert (forall j, 0 <= j -> BlockMix r (V (Z.to_nat j)) = V (Z.to_nat (j + 1))) as HV.
    { intros j Hj. replace (Z.to_nat (j + 1)) with (S (Z.to_nat j)) by lia. unfold V. by rewrite Nat.iter_succ. }
    rewrite HV by lia. pose proof (filled_step _ (i + 1) Hv1 ltac:(lia)) as Hv2.
    destruct (blockMix_run t1 (V (Z.to_nat (i + 1))) (V (Z.to_nat i)) r Hr Ht1 (zlen_V _) (zlen_V _)) as (t2 & Ht2 & ->).
    rewrite HV by lia. replace (i + 1 + 1) with (i + 2) in * by lia.
    destruct (IH (i + 2) _ (V (Z.to_nat (i + 1))) t2 Hv2) as (v' & y' & t' & -> & Hf & Hy' & Ht'); [lia|lia|apply zlen_V|done|].
    exists v', y', t'. replace (i + 2 + 2 * Z.of_nat n) with (i + 2 * Z.of_nat (S n)) in * by lia. done.
Qed.

(** The index the source masks out of 64 bits is the integer modulo [N]. *)
Lemma integer_mod X : zlen X = 32 * r -> Forall is_word32 X -> Z.land (integer X r) (N - 1) = Integrify r X mod N.
Proof.
  intros HX HW. unfold integer, Integrify. set (j := Z.to_nat ((2 * r - 1) * 16)).
  assert (exists a b rest, drop j X = a :: b :: rest) as (a & b & rest & Ed).
  { destruct (drop j X) as [|a [|b rest]] eqn:E; [..|by do 3 eexists];
      apply (f_equal length) in E; rewrite length_drop in E; cbn in E; unfold j, zlen in *; lia. }
  assert (X !!! j = a /\ X !!! S j = b) as [-> ->].
  { rewrite !list_lookup_total_alt. pose proof (lookup_drop X j 0) as E0. pose proof (lookup_drop X j 1) as E1.
    rewrite Ed in E0, E1. cbn in E0, E1. rewrite Nat.add_0_r in E0. rewrite Nat.add_1_r in E1. by rewrite <- E0, <- E1. }
  assert (is_word32 a /\ is_word32 b) as [Ha Hb].
  { apply (Forall_drop _ j) in HW. rewrite Ed in HW. apply Forall_cons in HW as [? HW]. apply Forall_cons in HW as [? _]. done. }
  rewrite Ed. cbn [words_value]. unfold is_word32 in *.
  rewrite Z.shiftl_mul_pow2, lor_add by lia.
  rewrite HN, Z.sub_1_r, <- Z.ones_equiv, Z.land_ones by lia.
  replace (a + 2 ^ 32 * (b + 2 ^ 32 * words_value rest)) with (a + b * 2 ^ 32 + words_value rest * 2 ^ (64 - k) * 2 ^ k).
  - by rewrite Z.mod_add by lia.
  - rewrite <- Z.mul_assoc, <- Z.pow_add_r by lia. replace (64 - k + k) with 64 by lia. lia.
Qed.
End romix.

Section walk.
Variables (r N k : Z) (B : list Z).
Hypothesis Hr : 0 < r.
Hypothesis HN : N = 2 ^ k.
Hypothesis Hk : 1 <= k <= 64.
Hypothesis HB : zlen B = 32 * r.

Let V (j : nat) : list Z := Nat.iter j (BlockMix r) B.
Let F (X : list Z) : list Z := BlockMix r (zip_with Z.lxor X (V (Z.to_nat (Integrify r X mod N)))).

Lemma blockXOR_run X v :
  filled r N B v N -> zlen X = 32 * r -> Forall is_word32 X ->
  blockXOR X (drop (Z.to_nat (Z.land (integer X r) (N - 1) * (32 * r))) v) (32 * r) =
  zip_with Z.lxor X (V (Z.to_nat (Integrify r X mod N))) /\
  zlen (zip_with Z.lxor X (V (Z.to_nat (Integrify r X mod N)))) = 32 * r.
Proof.
  intros [Hv Hf] HX HW. rewrite (integer_mod r N k B Hr HN Hk) by done.
  assert (0 < N) by (rewrite HN; apply Z.pow_pos_nonneg; lia).
  pose proof (Z.mod_pos_bound (Integrify r X) N ltac:(lia)). unfold blockXOR. rewrite Hf by lia.
  rewrite take_ge, drop_ge, app_nil_r by (unfold zlen in HX; lia). split; [done|].
  pose proof (zlen_V r B Hr HB (Z.to_nat (Integrify r X mod N))) as L. unfold V, zlen in *. rewrite length_zip_with. lia.
Qed.

Lemma smix_walk_run (n : nat) X v y tmp :
  filled r N B v N -> zlen X = 32 * r -> Forall is_word32 X -> zlen y = 32 * r -> length tmp = 16%nat ->
  exists y' tmp', smix_walk n r N v X y tmp = (Nat.iter (2 * n) F X, y', tmp') /\
    zlen (Nat.iter (2 * n) F X) = 32 * r /\ zlen y' = 32 * r /\ length tmp' = 16%nat.
Proof.
  intros Hv. revert X y tmp. induction n as [|n IH]; intros X y tmp HX HW Hy Ht; [by exists y, tmp|].
  cbn [smix_walk]. destruct (blockXOR_run X v Hv HX HW) as [-> L1].
  destruct (blockMix_run tmp _ y r Hr Ht L1 Hy) as (t1 & Ht1 & ->). fold (F X).
  assert (forall X, zlen (zip_with Z.lxor X (V (Z.to_nat (Integrify r X mod N)))) = 32 * r -> zlen (F X) = 32 * r /\ Forall is_word32 (F X)) as HF
    by (intros; by apply BlockMix_ok).
  destruct (HF X L1) as [LF WF]. destruct (blockXOR_run (F X) v Hv LF WF) as [-> L2].
  destruct (blockMix_run t1 _ (zip_with Z.lxor X (V (Z.to_nat (Integrify r X mod N)))) r Hr Ht1 L2 L1) as (t2 & Ht2 & ->).
  fold (F (F X)). destruct (HF (F X) L2) as [LFF WFF].
  destruct (IH (F (F X)) (zip_with Z.lxor (F X) (V (Z.to_nat (Integrify r (F X) mod N)))) t2 LFF WFF L2 Ht2) as (y' & t' & E & H1 & H2 & H3).
  exists y', t'. rewrite E. replace (2 * S n)%nat with (S (S (2 * n))) by lia. by rewrite !Nat.iter_succ_r.
Qed.
End walk.

(** ** One block of bytes *)

Definition words_of (r : Z) (b : list Z) : list Z := (fun i => le32 b (4 * i)) <$> seq 0 (Z.to_nat (32 * r)).

Lemma zlen_words_of r b : 0 < r -> zlen (words_of r b) = 32 * r.
Proof. intros. unfold words_of, zlen. rewrite length_fmap, length_seq. lia. Qed.

Lemma length_put32s ws : length (ws ≫= put32) = (4 * length ws)%nat.
Proof. induction ws as [|w ws IH]; [done|]. rewrite bind_cons, length_app, IH. unfold put32. rewrite length_reverse, length_be_bytes. cbn. lia. Qed.

Lemma words_of_take r b n : 0 < r -> 128 * r <= Z.of_nat n -> words_of r (take n b) = words_of r b.
Proof.
  intros Hr Hn. unfold words_of. apply list_fmap_ext. intros i x Hi. apply lookup_seq in Hi as [-> Hi]. unfold le32.
  f_equal. f_equal. rewrite !take_drop_commute, take_take. f_equal. f_equal. lia.
Qed.

Lemma zlen_ROMix r N B : 0 < r -> 0 < N -> zlen B = 32 * r -> zlen (ROMix r N B) = 32 * r.
Proof.
  intros Hr HN HB. unfold ROMix. assert (forall n X, zlen X = 32 * r -> zlen (Nat.iter n (fun X => BlockMix r (zip_with Z.lxor X
    (Nat.iter (Z.to_nat (Integrify r X mod N)) (BlockMix r) B))) X) = 32 * r) as H; [|apply H, (zlen_V r B Hr HB)].
  induction n as [|n IH]; intros X HX; [done|]. rewrite Nat.iter_succ. apply BlockMix_ok; [done|].
  pose proof (IH X HX) as L. set (Y := Nat.iter n _ X) in *. pose proof (zlen_V r B Hr HB (Z.to_nat (Integrify r Y mod N))) as L2.
  unfold zlen in *. rewrite length_zip_with. lia.
Qed.

(** [smix] replaces the block by scryptROMix of it, whatever the working
    memory held. *)
Lemma smix_run b r N k v xy tmp :
  0 < r -> N = 2 ^ k -> 1 <= k <= 64 -> 128 * r <= zlen b -> zlen v = 32 * N * r -> zlen xy = 64 * r -> length tmp = 16%nat ->
  exists v' xy' tmp', smix b r N v xy tmp = (scryptROMix r N (take (Z.to_nat (128 * r)) b) ++ drop (Z.to_nat (128 * r)) b, (v', xy', tmp')) /\
    zlen v' = 32 * N * r /\ zlen xy' = 64 * r /\ length tmp' = 16%nat /\
    zlen (scryptROMix r N (take (Z.to_nat (128 * r)) b)) = 128 * r.
Proof.
  intros Hr HN Hk Hb Hv Hxy Ht. unfold smix. fold (words_of r b). set (B := words_of r b).
  pose proof (zlen_words_of r b Hr) as LB. fold B in LB.
  assert (exists h, N = 2 * h /\ 0 < h) as (h & Eh & Hh).
  { exists (2 ^ (k - 1)). split; [rewrite HN, <- Z.pow_succ_r by lia; f_equal; lia|apply Z.pow_pos_nonneg; lia]. }
  assert (Z.to_nat ((N + 1) / 2) = Z.to_nat h) as -> by (rewrite Eh, Z.mul_comm, Z.div_add_l by lia; change (1 / 2) with 0; f_equal; lia).
  assert (filled r N B v 0) as H0 by (split; [rewrite Hv; ring|lia]).
  destruct (smix_fill_run r N k B Hr HN Hk LB (Z.to_nat h) 0 v (drop (Z.to_nat (32 * r)) xy) tmp H0) as (v1 & y1 & t1 & E1 & Hf & Hy1 & Ht1); [lia|lia| |done|].
  { unfold zlen in *. rewrite length_drop. lia. }
  change (Nat.iter (Z.to_nat 0) (BlockMix r) B) with B in E1. rewrite E1.
  replace (0 + 2 * Z.of_nat (Z.to_nat h)) with N in * by lia.
  assert (exists m, Z.to_nat N = S m) as [m Em] by (exists (Z.to_nat (N - 1)); lia).
  pose proof (BlockMix_ok r (Nat.iter m (BlockMix r) B) Hr (zlen_V r B Hr LB m)) as [L2 W2].
  rewrite <- Nat.iter_succ, <- Em in L2, W2.
  destruct (smix_walk_run r N k B Hr HN Hk LB (Z.to_nat h) _ v1 y1 t1 Hf L2 W2 Hy1 Ht1) as (y2 & t2 & E2 & L3 & Hy2 & Ht2).
  rewrite E2. replace (2 * Z.to_nat h)%nat with (Z.to_nat N) in * by lia. do 3 eexists. split.
  - f_equal. unfold scryptROMix. fold (words_of r (take (Z.to_nat (128 * r)) b)). rewrite words_of_take by lia. fold B.
    fold (ROMix r N B). rewrite lset0. f_equal. f_equal. rewrite length_put32s.
    pose proof (zlen_ROMix r N B Hr ltac:(lia) LB) as L. unfold zlen in L. lia.
  - destruct Hf as [Hf _]. split_and!; [rewrite Hf; ring|rewrite zlen_app; lia|done|].
    unfold scryptROMix. fold (words_of r (take (Z.to_nat (128 * r)) b)). rewrite words_of_take by lia. fold B.
    unfold zlen. rewrite length_put32s. pose proof (zlen_ROMix r N B Hr ltac:(lia) LB) as L. unfold zlen in L. lia.
Qed.

(** ** All blocks *)

Lemma zlen_each_block m r (f : list Z -> list Z) b :
  0 < r -> (forall c, zlen c = 128 * r -> zlen (f c) = 128 * r) -> zlen b = Z.of_nat m * (128 * r) ->
  zlen (each_block m (Z.to_nat (128 * r)) f b) = zlen b.
Proof.
  intros Hr Hf. revert b. induction m as [|m IH]; intros b Hb; cbn [each_block]; [by destruct b|].
  rewrite zlen_app, IH, Hf; unfold zlen in *; rewrite ?length_take, ?length_drop; lia.
Qed.

Lemma zlen_scryptROMix r N b : 0 < r -> 0 < N -> zlen (scryptROMix r N b) = 128 * r.
Proof.
  intros Hr HN. unfold scryptROMix. fold (words_of r b). unfold zlen. rewrite length_put32s.
  pose proof (zlen_ROMix r N _ Hr HN (zlen_words_of r b Hr)) as L. unfold zlen in L. lia.
Qed.

Lemma mix_blocks_run m n r N k pre rest v xy tmp :
  0 < r -> N = 2 ^ k -> 1 <= k <= 64 -> zlen rest = Z.of_nat m * (128 * r) -> (m < n)%nat ->
  zlen v = 32 * N * r -> zlen xy = 64 * r -> length tmp = 16%nat ->
  mix_blocks n (pre ++ rest) (zlen pre) N r v xy tmp = Some (pre ++ each_block m (Z.to_nat (128 * r)) (scryptROMix r N) rest).
Proof.
  intros Hr HN Hk. assert (0 < N) by (rewrite HN; apply Z.pow_pos_nonneg; lia).
  revert n pre rest v xy tmp. induction m as [|m IH]; intros n pre rest v xy tmp Hrest Hn Hv Hxy Ht; (destruct n as [|n]; [lia|]);
    cbn [mix_blocks each_block]; rewrite zlen_app.
  - destruct (Z.leb_spec (zlen pre + zlen rest) (zlen pre)); [|lia]. by destruct rest.
  - destruct (Z.leb_spec (zlen pre + zlen rest) (zlen pre)); [lia|].
    replace (Z.to_nat (zlen pre)) with (length pre) by (unfold zlen; lia). rewrite drop_app_length, take_app_length.
    destruct (smix_run rest r N k v xy tmp) as (v' & xy' & t' & -> & Hv' & Hxy' & Ht' & _); [done|done|done|lia|done|done|done|].
    set (c := scryptROMix r N _). assert (zlen c = 128 * r) as Lc by by apply zlen_scryptROMix.
    rewrite app_assoc. unfold BlockSize. rewrite <- Lc, <- zlen_app, Lc.
    rewrite IH by (done || lia || (unfold zlen in *; rewrite length_drop; lia)). by rewrite <- app_assoc.
Qed.

Lemma land_pred_pow2 N : 0 < N -> Z.land N (N - 1) = 0 -> N = 2 ^ Z.log2 N.
Proof.
  intros HN E. pose proof (Z.log2_spec N HN) as [L1 L2]. pose proof (Z.log2_nonneg N).
  destruct (Z.eq_dec N (2 ^ Z.log2 N)) as [|Hne]; [done|]. exfalso.
  assert (Z.log2 (N - 1) = Z.log2 N) as E1 by (apply Z.log2_unique; lia).
  assert (Z.testbit (Z.land N (N - 1)) (Z.log2 N) = true) as Hb
    by (rewrite Z.land_spec, Z.bit_log2 by lia; cbn [andb]; rewrite <- E1; apply Z.bit_log2; lia).
  by rewrite E, Z.bits_0 in Hb.
Qed.

(** [Mix] is scryptROMix of every block. *)
Lemma Mix_run b N r m workLen words :
  1 < N -> Z.land N (N - 1) = 0 -> N <= MaxInt -> 0 < r -> (0 < m)%nat -> zlen b = Z.of_nat m * (128 * r) ->
  WorkSize N r <= workLen -> WorkSize N r <= 4 * zlen words ->
  Mix b N r workLen true words = Some (each_block m (Z.to_nat (128 * r)) (scryptROMix r N) b).
Proof.
  intros HN Hp HM Hr Hm Hb Hw Hws. unfold Mix, BlockSize, WorkSize in *. pose proof (land_pred_pow2 N ltac:(lia) Hp) as E.
  assert (1 <= Z.log2 N <= 64) as Hk.
  { split; [apply Z.log2_le_pow2; lia|]. apply Z.le_trans with (Z.log2 MaxInt); [by apply Z.log2_le_mono|done]. }
  rewrite Hp. destruct (Z.leb_spec N 1); [lia|]. cbn [Z.eqb negb orb]. destruct (Z.leb_spec r 0); [lia|].
  assert (0 < 128 * r * N) by nia. destruct (Z.eqb_spec (zlen b) 0); [nia|]. cbn [orb].
  rewrite Hb at 1. rewrite Z.rem_mul by lia. cbn [Z.eqb negb].
  destruct (Z.ltb_spec workLen (128 * r * N + 256 * r + 64)); [lia|]. cbn [negb].
  refine (mix_blocks_run m (S (length b)) r N (Z.log2 N) [] b _ _ _ Hr E Hk Hb _ _ _ _).
  - unfold zlen in Hb. nia.
  - rewrite zlen_lsub by lia. lia.
  - rewrite zlen_lsub by lia. lia.
  - rewrite length_lsub by lia. lia.
Qed.

(** ** RFC 7914 *)

Section whole.
Context `{DigestsOk}.

Lemma zlen_ceil L k : 0 < k -> 0 <= L -> (L + k - 1) / k <= L.
Proof.
  intros Hk HL. destruct (Z.eq_dec L 0) as [->|]; [rewrite Z.div_small by lia; lia|]. apply Z.div_le_upper_bound; nia.
Qed.

Lemma lset_zeros k n : 0 <= k <= n -> lset 0 (zeros k) (zeros n) = zeros n.
Proof.
  intros Hk. rewrite lset0. unfold zeros at 2. rewrite length_replicate, drop_zeros by lia.
  rewrite (zeros_split n k) by lia. do 2 f_equal. lia.
Qed.

Lemma scryptCompute_run dst m password salt n r p :
  1 < n -> Z.land n (n - 1) = 0 -> n <= MaxInt -> 0 < r -> 0 < p -> p * (128 * r) < 2 ^ 31 -> zlen dst < 2 ^ 31 ->
  scryptRegionSize (zlen salt) n r p <= m ->
  scryptCompute true dst (zeros m) password salt n r p = Some (scrypt password salt n r p (zlen dst), zeros m).
Proof.
  intros Hn Hp2 HM Hr Hp HB Hd Hm. pose proof (zlen_nonneg salt). pose proof (zlen_nonneg dst).
  unfold scryptRegionSize, scryptCompute, WorkSize, BlockSize, pbkdf2RegionSize, maxHashSize in *. cbn [block size] in *.
  assert (0 < 128 * r * n) by nia. assert (0 < p * (128 * r)) by nia.
  set (W := 128 * r * n + 256 * r + 64) in *. set (bLen := p * (128 * r)) in *.
  rewrite zlen_zeros by lia. destruct (Z.ltb_spec m (W + bLen)); [lia|].
  rewrite drop_zeros by lia. rewrite Z2Nat.id by lia. rewrite zlen_zeros by lia.
  destruct (Z.ltb_spec (m - (W + bLen)) (3 * 64 + 2 * (64 + 64) + 64 + Z.max (zlen salt + 4) 32)); [lia|].
  assert (W + bLen <= m) as HWb by lia.
  rewrite !lsub_zeros by lia. replace (W + bLen - W) with bLen by lia. rewrite !Z.sub_0_r.
  pose proof (zlen_ceil bLen 32 ltac:(lia) ltac:(lia)). pose proof (zlen_ceil (zlen dst) 32 ltac:(lia) ltac:(lia)).
  rewrite pbkdf2Compute_run; [|done|unfold pbkdf2RegionSize, maxHashSize; cbn [block size]; lia|rewrite zlen_zeros by lia; cbn [size]; lia].
  cbn [mbind option_bind]. rewrite zlen_zeros by lia. set (B := PBKDF2 hashSHA256 password salt 1 bLen).
  assert (zlen B = bLen) as LB by (apply zlen_PBKDF2; [done|lia]).
  rewrite lset_zeros by lia.
  rewrite (Mix_run B n r (Z.to_nat p)); try done || lia; unfold WorkSize; fold W; try lia.
  2: { unfold zlen. rewrite length_fmap, length_seq. assert (W = 4 * (W / 4)); [|lia]. unfold W.
       replace (128 * r * n + 256 * r + 64) with ((32 * r * n + 64 * r + 16) * 4) by lia. rewrite Z.div_mul by lia. lia. }
  cbn [mbind option_bind]. rewrite zlen_zeros by lia.
  destruct (Z.ltb_spec (m - (W + bLen)) (3 * 64 + 2 * (64 + 64) + 64 + Z.max (bLen + 4) 32)); [lia|].
  rewrite lsub_zeros by lia. rewrite Z.sub_0_r.
  set (B' := each_block _ _ _ B). assert (zlen B' = bLen) as LB'.
  { unfold B'. rewrite (zlen_each_block _ r); [done|done|intros; apply zlen_scryptROMix; lia|lia]. }
  rewrite pbkdf2Compute_run; [|done|unfold pbkdf2RegionSize, maxHashSize; cbn [block size]; lia|cbn [size]; lia].
  cbn [mbind option_bind]. rewrite lset_zeros by lia. f_equal. f_equal.
  - unfold scrypt. by replace (p * 128 * r) with bLen by lia.
  - symmetry. rewrite <- zeros_split; [|lia]. done.
Qed.
End whole.

(** C4. The two password-based derivations run in one zeroed region, for every
    password and salt: PBKDF2 with its pads laid once writes the key of
    RFC 8018 and scrypt with its two alternating blocks that of RFC 7914, and
    both leave the region zero. The memory-hard step panics on exactly the
    arguments it refuses and is otherwise scryptROMix of every block, whatever
    its working memory holds. *)
Theorem password_kdf_exact `{DigestsOk} h dst m password salt iter b N r workLen aligned words :
  h <> hashNone -> pbkdf2RegionSize h (zlen salt) <= m -> zlen dst < 2 ^ 31 -> N <= MaxInt -> WorkSize N r <= 4 * zlen words ->
  pbkdf2Compute h dst (zeros m) password salt iter = Some (PBKDF2 h password salt iter (zlen dst), zeros m) /\
  (forall p, Mix b N r workLen aligned words <> None -> 0 < p -> p * (128 * r) < 2 ^ 31 -> scryptRegionSize (zlen salt) N r p <= m ->
     scryptCompute true dst (zeros m) password salt N r p = Some (scrypt password salt N r p (zlen dst), zeros m)) /\
  (Mix b N r workLen aligned words = None <->
     N <= 1 \/ Z.land N (N - 1) <> 0 \/ r <= 0 \/ zlen b = 0 \/ Z.rem (zlen b) (BlockSize r) <> 0 \/ workLen < WorkSize N r \/ aligned = false) /\
  (Mix b N r workLen aligned words <> None ->
     Mix b N r workLen aligned words = Some (each_block (Z.to_nat (zlen b / BlockSize r)) (Z.to_nat (BlockSize r)) (scryptROMix r N) b)).
Proof.
  intros Hh Hm Hd HN Hw. pose proof (size_bounds h Hh) as Hs. pose proof (zlen_nonneg dst). pose proof (zlen_ceil (zlen dst) (size h)).
  split; [apply pbkdf2Compute_run; [done|done|lia]|].
  assert (Mix b N r workLen aligned words = None /\
     (N <= 1 \/ Z.land N (N - 1) <> 0 \/ r <= 0 \/ zlen b = 0 \/ Z.rem (zlen b) (BlockSize r) <> 0 \/ workLen < WorkSize N r \/ aligned = false) \/
    (1 < N /\ Z.land N (N - 1) = 0 /\ 0 < r /\ zlen b <> 0 /\ Z.rem (zlen b) (BlockSize r) = 0 /\ WorkSize N r <= workLen /\ aligned = true) /\
     Mix b N r workLen aligned words = Some (each_block (Z.to_nat (zlen b / BlockSize r)) (Z.to_nat (BlockSize r)) (scryptROMix r N) b))
    as [[E1 E2]|[(K1 & K2 & K3 & K4 & K5 & K6 & ->) E]].
  { unfold Mix at 1 2. destruct (Z.leb_spec N 1); [left; auto|]. destruct (Z.eqb_spec (Z.land N (N - 1)) 0) as [Hp|]; [|left; auto]. cbn [orb negb].
    destruct (Z.leb_spec r 0); [left; auto|]. destruct (Z.eqb_spec (zlen b) 0); [left; tauto|].
    destruct (Z.eqb_spec (Z.rem (zlen b) (BlockSize r)) 0) as [Hrem|]; [|left; tauto]. cbn [orb negb].
    destruct (Z.ltb_spec workLen (WorkSize N r)); [left; tauto|]. destruct aligned; [|left; tauto]. right. split; [done|].
    pose proof (zlen_nonneg b). unfold BlockSize in *. rewrite Z.rem_mod_nonneg in Hrem by lia.
    pose proof (Z.div_mod (zlen b) (128 * r) ltac:(lia)) as Hdiv. assert (0 < zlen b / (128 * r)) by
      (apply Z.div_str_pos; split; [lia|]; destruct (Z.lt_ge_cases (zlen b) (128 * r)); [rewrite Z.mod_small in Hrem by lia; lia|lia]).
    rewrite <- (Mix_run b N r (Z.to_nat (zlen b / (128 * r))) workLen words); [|done|done|done|lia|lia|rewrite Z2Nat.id by lia; lia|done|done].
    unfold Mix, BlockSize. rewrite Hp. destruct (Z.leb_spec N 1); [lia|]. destruct (Z.leb_spec r 0); [lia|].
    destruct (Z.eqb_spec (zlen b) 0); [lia|]. rewrite Z.rem_mod_nonneg, Hrem by lia. cbn [Z.eqb orb negb].
    by destruct (Z.ltb_spec workLen (WorkSize N r)); [lia|]. }
  - split; [by intros p Hn|]. split; [by split|by intros Hn].
  - rewrite E. split; [|split; [split; [done|intros; exfalso; naive_solver lia]|done]].
    intros p _ Hp HB Hreg. apply scryptCompute_run; done || lia.
Qed.

(** ** A concrete derivation *)

#[local] Existing Instances toy_digests toy_digests_ok.

Lemma password_kdf_exact_witness :
  (pbkdf2Compute hashSHA256 (zeros 40) (zeros 2000) (str "pw") (str "salt") 3 =
     Some (PBKDF2 hashSHA256 (str "pw") (str "salt") 3 40, zeros 2000) /\
   scryptCompute true (zeros 40) (zeros 2000) (str "pw") (str "salt") 4 1 1 = Some (scrypt (str "pw") (str "salt") 4 1 1 40, zeros 2000) /\
   Mix (seqZ 0 128) 4 1 900 true (zeros 225) = Some (scryptROMix 1 4 (seqZ 0 128) ++ [])) /\
  PBKDF2 hashSHA256 (str "pw") (str "salt") 3 40 <> PBKDF2 hashSHA256 (str "pw") (str "salt") 2 40.
Proof.
  split; [|vm_compute; discriminate].
  destruct (password_kdf_exact hashSHA256 (zeros 40) 2000 (str "pw") (str "salt") 3 (seqZ 0 128) 4 1 900 true (zeros 225))
    as (H1 & H2 & _ & H4); [done|vm_compute; discriminate|vm_compute; reflexivity|vm_compute; discriminate|vm_compute; discriminate|].
  assert (Mix (seqZ 0 128) 4 1 900 true (zeros 225) <> None) as Hn by (vm_compute; discriminate).
  split; [exact H1|]. split; [apply (H2 1 Hn); vm_compute; (reflexivity || discriminate)|exact (H4 Hn)].
Defined.

(** PBKDF2's pads are copied over whatever the region holds, so a region that is
    not zero gives another key. *)
Lemma pbkdf2_dirty_region :
  exists region, zlen region = pbkdf2RegionSize hashSHA256 4 /\
    fst <$> pbkdf2Compute hashSHA256 (zeros 32) region (str "pw") (str "salt") 2 <> Some (PBKDF2 hashSHA256 (str "pw") (str "salt") 2 32).
Proof. exists (replicate 544 1). split; vm_compute; [reflexivity|discriminate]. Qed.
