(* ===== verification/Pbes2.v ===== *)
(** * Encrypted PKCS#8 files (secmem-crypto/pbes2.go)

    The reader of EncryptedPrivateKeyInfo with every refusal decided before the
    key derivation, the derivation and decryption in one locked region, and the
    padding check. x/crypto/cryptobyte and encoding/asn1 are parameters; an
    object identifier is the list of its components. *)
From S2P Require Import Prelude Errors KeyErrors Bytes ModReduce Pem Blowfish OpenSSHCipher OpenSSH Marshal Hmac Pbkdf2 Scrypt.

Definition MaxPBKDF2Iterations : Z := 2000000.
Definition MaxScryptMemory : Z := 64 * 2 ^ 20.
Definition MaxScryptWork : Z := 2 ^ 22.
Definition maxPBES2Salt : Z := 1024.
Definition cipherScratch : Z := 2 * opensshAESBlock.

(** ** Object identifiers *)

Definition oid : Type := list Z.
Definition oidPBES2 : oid := [1; 2; 840; 113549; 1; 5; 13].
Definition oidPBKDF2 : oid := [1; 2; 840; 113549; 1; 5; 12].
Definition oidScrypt : oid := [1; 3; 6; 1; 4; 1; 11591; 4; 11].
Definition oidHMACArc : oid := [1; 2; 840; 113549; 2].
Definition oidAES128CBC : oid := [2; 16; 840; 1; 101; 3; 4; 1; 2].
Definition oidAES192CBC : oid := [2; 16; 840; 1; 101; 3; 4; 1; 22].
Definition oidAES256CBC : oid := [2; 16; 840; 1; 101; 3; 4; 1; 42].
Definition oidAES128GCM : oid := [2; 16; 840; 1; 101; 3; 4; 1; 6].
Definition oidAES192GCM : oid := [2; 16; 840; 1; 101; 3; 4; 1; 26].
Definition oidAES256GCM : oid := [2; 16; 840; 1; 101; 3; 4; 1; 46].
Definition oidDESEDE3CBC : oid := [1; 2; 840; 113549; 3; 7].
Definition oidRC2CBC : oid := [1; 2; 840; 113549; 3; 2].
Definition oidDESCBC : oid := [1; 3; 14; 3; 2; 7].
Definition oidPBES1Arc : oid := [1; 2; 840; 113549; 1; 5].
Definition oidPKCS12PBEArc : oid := [1; 2; 840; 113549; 1; 12; 1].

Definition oid_Equal (a b : oid) : bool := bool_decide (a = b).
(** [len(oid) == len(arc)+1 && oid[:len(arc)].Equal(arc)] *)
Definition under (arc a : oid) : bool :=
  (zlen a =? zlen arc + 1) && oid_Equal (take (length arc) a) arc.

Definition prfByOID (a : oid) : inPlaceHash :=
  if negb (under oidHMACArc a) then hashNone
  else match a !!! length oidHMACArc with
       | 7 => hashSHA1
       | 8 => hashSHA224
       | 9 => hashSHA256
       | 10 => hashSHA384
       | 11 => hashSHA512
       | 12 => hashSHA512_224
       | 13 => hashSHA512_256
       | _ => hashNone
       end.

Definition oidIsRetiredPBE (a : oid) : bool :=
  if under oidPBES1Arc a then
    match a !!! length oidPBES1Arc with
    | 1 | 3 | 4 | 6 | 10 | 11 => true
    | _ => false
    end
  else if under oidPKCS12PBEArc a then
    let last := a !!! length oidPKCS12PBEArc in (1 <=? last) && (last <=? 6)
  else false.

Definition errRetiredPBE : gerr := Wrap "PKCS#8 PBES1 / PKCS#12 password-based encryption" [ErrRetiredAlgorithm].
Definition errRetiredPBES2Cipher : gerr := Wrap "PBES2 over DES, 3DES or RC2" [ErrRetiredAlgorithm].
Definition errPBES2Decrypt : gerr :=
  Wrap "PKCS#8 encrypted key did not decrypt to a valid key (wrong passphrase or corrupt file)" [IncorrectPasswordError].
(** [fmt.Errorf("%w: %w", a, b)] *)
Definition both (a b : gerr) : gerr := Wrap "" [a; b].

(** ** ASN.1 *)

Inductive asn1Tag : Type := INTEGER | OCTET_STRING | NULL | SEQUENCE.
#[global] Instance asn1Tag_eq_dec : EqDecision asn1Tag.
Proof. solve_decision. Defined.

(** [cryptobyte.String]'s methods: what is read and what is left. *)
Class Cryptobyte : Type := {
  ReadASN1 : asn1Tag -> list Z -> option (list Z * list Z);
  ReadASN1ObjectIdentifier : list Z -> option (oid * list Z);
  ReadASN1Integer : list Z -> option (Z * list Z);
  PeekASN1Tag : asn1Tag -> list Z -> bool;
  ReadOptionalASN1 : asn1Tag -> list Z -> option (option (list Z) * list Z);
  SkipOptionalASN1 : asn1Tag -> list Z -> option (list Z)
}.

Definition Empty (s : list Z) : bool := zlen s =? 0.

(** A read that fails is [errMalformed]. *)
Definition read {A B} (o : option A) (k : A -> gerr + B) : gerr + B :=
  match o with None => inl errMalformed | Some a => k a end.
(** [if !b { return errMalformed }] *)
Definition require {B} (b : bool) (k : gerr + B) : gerr + B := if b then k else inl errMalformed.

Record pbes2File : Type := Pbes2File {
  f_scrypt : bool;
  f_prf : inPlaceHash;
  f_iter : Z;
  f_n : Z; f_r : Z; f_p : Z;
  f_keyLen : Z;
  f_salt : list Z;
  f_iv : list Z;
  f_ct : list Z
}.

Section read.
Context `{Cryptobyte}.

(** [ok] is [Some]; [over] a count beyond 31 bits, its value then zero. *)
Definition readASN1Count (s : list Z) : option (Z * bool * list Z) :=
  '(raw, rest) ← ReadASN1 INTEGER s;
  match raw with
  | [] => None
  | b0 :: raw' =>
      if negb (Z.land b0 128 =? 0) then None
      else if match raw' with b1 :: _ => (b0 =? 0) && (Z.land b1 128 =? 0) | [] => false end then None
      else
      let raw := if b0 =? 0 then raw' else raw in
      if (4 <? zlen raw) then Some (0, true, rest)
      else
      let v := foldl (fun v b => Z.lor (uwrap64 (Z.shiftl v 8)) b) 0 raw in
      if (MaxInt32 <? v) then Some (0, true, rest) else Some (v, false, rest)
  end.

(** The optional keyLength, which must be the scheme's. *)
Definition readKeyLen (keyLen : Z) (s : list Z) : gerr + list Z :=
  if PeekASN1Tag INTEGER s then
    read (ReadASN1Integer s) (fun '(n, s) =>
    if negb (n =? keyLen) then inl (malformed "keyLength disagrees with the encryption scheme") else inr s)
  else inr s.

(** The salt, the iteration count and the PRF. *)
Definition readPBKDF2Params (keyLen : Z) (kdfParams : list Z) : gerr + (list Z * Z * inPlaceHash) :=
  if PeekASN1Tag SEQUENCE kdfParams then inl (unsupported "PBKDF2 salt given as otherSource")
  else
  read (ReadASN1 OCTET_STRING kdfParams) (fun '(salt, kdfParams) =>
  require (negb (zlen salt =? 0)) (
  if (maxPBES2Salt <? zlen salt) then inl (malformed "PBKDF2 salt")
  else
  read (readASN1Count kdfParams) (fun '(iter, over, kdfParams) =>
  require (negb (negb over && (iter =? 0))) (
  if over || (MaxPBKDF2Iterations <? iter) then inl (unsupported "PBKDF2 iteration count")
  else
  match readKeyLen keyLen kdfParams with
  | inl err => inl err
  | inr kdfParams =>
      read (ReadOptionalASN1 SEQUENCE kdfParams) (fun '(prf, kdfParams) =>
      match prf with
      | None => require (Empty kdfParams) (inr (salt, iter, hashSHA1))
      | Some prf =>
          read (ReadASN1ObjectIdentifier prf) (fun '(a, prf) =>
          read (SkipOptionalASN1 NULL prf) (fun prf =>
          require (Empty prf) (
          if bool_decide (prfByOID a = hashNone) then inl (unsupported "PBKDF2 PRF")
          else require (Empty kdfParams) (inr (salt, iter, prfByOID a)))))
      end)
  end)))).

(** The salt and N, r, p. *)
Definition readScryptParams (keyLen : Z) (kdfParams : list Z) : gerr + (list Z * Z * Z * Z) :=
  read (ReadASN1 OCTET_STRING kdfParams) (fun '(salt, kdfParams) =>
  require (negb (zlen salt =? 0)) (
  if (maxPBES2Salt <? zlen salt) then inl (malformed "scrypt salt")
  else
  read (readASN1Count kdfParams) (fun '(n, nOver, kdfParams) =>
  read (readASN1Count kdfParams) (fun '(r, rOver, kdfParams) =>
  read (readASN1Count kdfParams) (fun '(p, pOver, kdfParams) =>
  require (negb ((negb nOver && (n =? 0)) || (negb rOver && (r =? 0)) || (negb pOver && (p =? 0)))) (
  if negb nOver && ((n =? 1) || negb (Z.land n (n - 1) =? 0)) then inl (malformed "scrypt cost parameter N is not a power of two greater than 1")
  else if negb nOver && negb rOver && (r =? 1) && (2 ^ 16 <=? n) then inl (malformed "scrypt cost parameter N is not below 2^(128*r/8)")
  else
  let un := uwrap64 n in
  let ur := uwrap64 r in
  let up := uwrap64 p in
  if nOver || rOver || pOver || (MaxScryptMemory / 128 <? ur)
     || (MaxScryptMemory <? uwrap64 (uwrap64 (128 * ur) * uwrap64 (uwrap64 (un + uwrap64 (2 * up)) + 2)))
  then inl (unsupported "scrypt parameters need more working memory")
  else if (MaxScryptWork <? uwrap64 (uwrap64 (un * ur) * up)) then inl (unsupported "scrypt cost N*r*p exceeds the maximum")
  else
  match readKeyLen keyLen kdfParams with
  | inl err => inl err
  | inr kdfParams => require (Empty kdfParams) (inr (salt, n, r, p))
  end)))))).

(** The encryption scheme: key length and IV. *)
Definition readScheme (scheme : list Z) : gerr + (Z * list Z) :=
  read (ReadASN1ObjectIdentifier scheme) (fun '(a, scheme) =>
  let iv (keyLen : Z) :=
    read (ReadASN1 OCTET_STRING scheme) (fun '(iv, scheme) =>
    require (Empty scheme && (zlen iv =? opensshAESBlock)) (inr (keyLen, iv))) in
  if oid_Equal a oidAES128CBC then iv 16
  else if oid_Equal a oidAES192CBC then iv 24
  else if oid_Equal a oidAES256CBC then iv 32
  else if oid_Equal a oidAES128GCM || oid_Equal a oidAES192GCM || oid_Equal a oidAES256GCM then inl (unsupported "PBES2 scheme AES-GCM")
  else if oid_Equal a oidDESEDE3CBC || oid_Equal a oidRC2CBC || oid_Equal a oidDESCBC then inl (both ErrUnsupportedKey errRetiredPBES2Cipher)
  else inl (unsupported "PBES2 scheme")).

Definition readPBES2 (der : list Z) : gerr + pbes2File :=
  read (ReadASN1 SEQUENCE der) (fun '(seq, in_) =>
  require (Empty in_) (
  read (ReadASN1 SEQUENCE seq) (fun '(alg, seq) =>
  read (ReadASN1ObjectIdentifier alg) (fun '(a, alg) =>
  read (ReadASN1 OCTET_STRING seq) (fun '(ct, seq) =>
  require (Empty seq) (
  if negb (oid_Equal a oidPBES2) then
    inl (if oidIsRetiredPBE a then both ErrUnsupportedKey errRetiredPBE else unsupported "PKCS#8 encryption algorithm")
  else
  read (ReadASN1 SEQUENCE alg) (fun '(params, alg) =>
  require (Empty alg) (
  read (ReadASN1 SEQUENCE params) (fun '(kdf, params) =>
  read (ReadASN1 SEQUENCE params) (fun '(scheme, params) =>
  require (Empty params) (
  match readScheme scheme with
  | inl err => inl err
  | inr (keyLen, iv) =>
      read (ReadASN1ObjectIdentifier kdf) (fun '(a, kdf) =>
      if negb (oid_Equal a oidPBKDF2) && negb (oid_Equal a oidScrypt) then inl (unsupported "PBES2 KDF")
      else
      read (ReadASN1 SEQUENCE kdf) (fun '(kdfParams, kdf) =>
      require (Empty kdf) (
      let finish (f : pbes2File) :=
        if (zlen ct =? 0) || negb (Z.rem (zlen ct) opensshAESBlock =? 0)
        then inl (malformed "encrypted data is not a multiple of the cipher block size") else inr f in
      if oid_Equal a oidScrypt then
        match readScryptParams keyLen kdfParams with
        | inl err => inl err
        | inr (salt, n, r, p) => finish (Pbes2File true hashNone 0 n r p keyLen salt iv ct)
        end
      else
        match readPBKDF2Params keyLen kdfParams with
        | inl err => inl err
        | inr (salt, iter, prf) => finish (Pbes2File false prf iter 0 0 0 keyLen salt iv ct)
        end)))
  end))))))))))).

(** [ParsePrivateKey]'s answer for a file it will not open. *)
Definition encryptedPKCS8Error (der : list Z) : gerr :=
  match
    '(seq, _) ← ReadASN1 SEQUENCE der;
    '(alg, _) ← ReadASN1 SEQUENCE seq;
    ReadASN1ObjectIdentifier alg
  with
  | None => ErrEncryptedKey
  | Some (a, alg) =>
      if oidIsRetiredPBE a then both ErrEncryptedKey errRetiredPBE
      else if negb (oid_Equal a oidPBES2) then ErrEncryptedKey
      else
      match
        '(params, _) ← ReadASN1 SEQUENCE alg;
        '(_, params) ← ReadASN1 SEQUENCE params;
        '(scheme, _) ← ReadASN1 SEQUENCE params;
        ReadASN1ObjectIdentifier scheme
      with
      | None => ErrEncryptedKey
      | Some (a, _) =>
          if oid_Equal a oidDESEDE3CBC || oid_Equal a oidRC2CBC || oid_Equal a oidDESCBC
          then both ErrEncryptedKey errRetiredPBES2Cipher else ErrEncryptedKey
      end
  end.
End read.

(** ** Decryption *)

Section decrypt.
Context `{Digests} `{Crypto}.

(** The KDF's working region. *)
Definition kdfRegion (f : pbes2File) : Z :=
  if f_scrypt f then scryptRegionSize (zlen (f_salt f)) (f_n f) (f_r f) (f_p f)
  else pbkdf2RegionSize (f_prf f) (zlen (f_salt f)).

(** [pbes2Decrypt] into a buffer of the ciphertext's length. The locked
    scratch is fresh, so zero and page-aligned. *)
Definition pbes2Decrypt (f : pbes2File) (passphrase : list Z) : M unit (gerr + list Z) :=
  match c_alloc (kdfRegion f + f_keyLen f + cipherScratch) with
  | Some err => mret (inl (errorf "allocate kdf workspace" err))
  | None =>
      match (if f_scrypt f
             then scryptCompute true (zeros (f_keyLen f)) (zeros (kdfRegion f)) passphrase (f_salt f) (f_n f) (f_r f) (f_p f)
             else pbkdf2Compute (f_prf f) (zeros (f_keyLen f)) (zeros (kdfRegion f)) passphrase (f_salt f) (f_iter f))
      with
      | None => panic
      | Some (key, _) =>
          match cbcDecrypt (c_aes_dec key) (f_iv f) (f_ct f) with
          | None => panic
          | Some dst => mret match errorsJoin [None; c_wipeAES] with Some e => inl e | None => inr dst end
          end
      end
  end.

(** [pkcs7Unpad]: the plaintext length, or not ok. *)
Definition ConstantTimeLessOrEq (x y : Z) : Z := if x <=? y then 1 else 0.
Definition ConstantTimeByteEq (x y : Z) : Z := if x =? y then 1 else 0.
Definition pkcs7Unpad (p : list Z) : option Z :=
  let n := zlen p in
  let padByte := p !!! Z.to_nat (n - 1) in
  let pad := padByte in
  let good := Z.land (ConstantTimeLessOrEq 1 pad) (ConstantTimeLessOrEq pad opensshAESBlock) in
  let good := foldl (fun good i =>
    let claimed := ConstantTimeLessOrEq i pad in
    Z.land good (Z.lor (ConstantTimeByteEq (p !!! Z.to_nat (n - i)) padByte) (Z.lxor claimed 1)))
    good (seqZ 1 opensshAESBlock) in
  if negb (good =? 1) then None else Some (n - pad).

(** The borrow of the container: the plaintext buffer and the length it is
    then truncated to. *)
Definition openPBES2 `{Cryptobyte} (der passphrase : list Z) : M unit (gerr + (list Z * Z)) :=
  match readPBES2 der with
  | inl err => mret (inl err)
  | inr f =>
      match c_alloc (zlen (f_ct f)) with
      | Some err => mret (inl (errorf "allocate key buffer" err))
      | None =>
          r ← pbes2Decrypt f passphrase;
          mret match r with
               | inl err => inl err
               | inr p => match pkcs7Unpad p with
                          | None => inl errPBES2Decrypt
                          | Some n => inr (p, n)
                          end
               end
      end
  end.
End decrypt.

(** ** The padding *)

(** RFC 5652: the text, then between one and sixteen bytes of their count. *)
Definition PKCS7 (p : list Z) (n : Z) : Prop :=
  exists pad, 1 <= pad <= opensshAESBlock /\ 0 <= n /\ p = take (Z.to_nat n) p ++ replicate (Z.to_nat pad) pad /\ n + pad = zlen p.

Lemma bits_all (f : Z -> Z) (l : list Z) g :
  (g = 0 \/ g = 1) -> Forall (fun i => f i = 0 \/ f i = 1) l ->
  foldl (fun good i => Z.land good (f i)) g l = 1 <-> g = 1 /\ Forall (fun i => f i = 1) l.
Proof.
  revert g. induction l as [|i l IH]; intros g Hg Hf; cbn [foldl]; [by split; [auto|intros []]|].
  apply Forall_cons in Hf as [Hi Hf]. rewrite IH; [|destruct Hg as [->| ->], Hi as [E|E]; rewrite E; cbn; auto|done].
  rewrite Forall_cons. destruct Hg as [->| ->], Hi as [E|E]; rewrite E; cbn; naive_solver.
Qed.

Lemma padded_at p n pad j :
  0 <= n -> p = take (Z.to_nat n) p ++ replicate (Z.to_nat pad) pad -> n + pad = zlen p -> n <= j < zlen p -> p !!! Z.to_nat j = pad.
Proof.
  intros Hn Ep El Hj. apply list_lookup_total_correct. rewrite Ep.
  rewrite lookup_app_r by (rewrite length_take; unfold zlen in *; lia).
  apply lookup_replicate_2. rewrite length_take. unfold zlen in *. lia.
Qed.

(** The constant-time check accepts exactly the padded strings. *)
Lemma pkcs7Unpad_run p n : opensshAESBlock <= zlen p -> pkcs7Unpad p = Some n <-> PKCS7 p n.
Proof.
  unfold PKCS7, opensshAESBlock. intros Hp. unfold pkcs7Unpad, opensshAESBlock. set (x := p !!! Z.to_nat (zlen p - 1)).
  set (f := fun i => Z.lor (ConstantTimeByteEq (p !!! Z.to_nat (zlen p - i)) x) (Z.lxor (ConstantTimeLessOrEq i x) 1)).
  change (foldl _ _ _) with (foldl (fun good i => Z.land good (f i)) (Z.land (ConstantTimeLessOrEq 1 x) (ConstantTimeLessOrEq x 16)) (seqZ 1 16)).
  assert (forall i, (f i = 0 \/ f i = 1) /\ (f i = 1 <-> (i <= x -> p !!! Z.to_nat (zlen p - i) = x))) as Hf.
  { intros i. unfold f, ConstantTimeByteEq, ConstantTimeLessOrEq.
    destruct (Z.eqb_spec (p !!! Z.to_nat (zlen p - i)) x), (Z.leb_spec i x); cbn; split; auto; split; auto; try done; intros; exfalso; lia. }
  assert (forall a b, Z.land (ConstantTimeLessOrEq a x) (ConstantTimeLessOrEq x b) = 1 <-> a <= x <= b) as Hg.
  { intros a b. unfold ConstantTimeLessOrEq. destruct (Z.leb_spec a x), (Z.leb_spec x b); cbn; split; try done; lia. }
  assert (foldl (fun good i => Z.land good (f i)) (Z.land (ConstantTimeLessOrEq 1 x) (ConstantTimeLessOrEq x 16)) (seqZ 1 16) = 1 <->
          1 <= x <= 16 /\ forall i, 1 <= i <= x -> p !!! Z.to_nat (zlen p - i) = x) as Hall.
  { rewrite bits_all, Hg.
    - rewrite Forall_forall. split; intros [H1 H2]; (split; [done|]).
      + intros i Hi. apply Hf; [|lia]. apply H2. apply elem_of_seqZ. lia.
      + intros i Hi. apply Hf. intros Hix. apply elem_of_seqZ in Hi. apply H2. lia.
    - unfold ConstantTimeLessOrEq. destruct (1 <=? x), (x <=? 16); auto.
    - apply Forall_forall. intros i _. apply Hf. }
  destruct (Z.eqb_spec (foldl (fun good i => Z.land good (f i)) (Z.land (ConstantTimeLessOrEq 1 x) (ConstantTimeLessOrEq x 16)) (seqZ 1 16)) 1) as [E|E]; cbn [negb].
  - apply Hall in E as [Hx Hi]. split.
    + intros [= <-]. exists x. split; [lia|]. split; [lia|]. split; [|lia].
      apply list_eq. intros j. destruct (decide (j < Z.to_nat (zlen p - x))%nat).
      * rewrite lookup_app_l by (rewrite length_take; unfold zlen in *; lia). by rewrite lookup_take_lt.
      * rewrite lookup_app_r by (rewrite length_take; unfold zlen in *; lia). rewrite length_take, Nat.min_l by (unfold zlen; lia).
        destruct (decide (j < length p)%nat).
        -- rewrite lookup_replicate_2 by (unfold zlen in *; lia). rewrite <- (Hi (zlen p - Z.of_nat j)) by (unfold zlen in *; lia).
           replace (Z.to_nat (zlen p - (zlen p - Z.of_nat j))) with j by lia. by apply list_lookup_lookup_total_lt.
        -- rewrite !lookup_ge_None_2; rewrite ?length_replicate; [done|unfold zlen in *; lia|lia].
    + intros (pad & Hpad & Hn & Ep & El). f_equal. assert (x = pad) as ->; [|lia]. eapply padded_at; [exact Hn|exact Ep|lia..].
  - split; [done|]. intros (pad & Hpad & Hn & Ep & El). exfalso. apply E, Hall.
    assert (forall i, 1 <= i <= pad -> p !!! Z.to_nat (zlen p - i) = pad) as Hi by (intros; eapply padded_at; [exact Hn|exact Ep|lia..]).
    assert (x = pad) as -> by (apply Hi; lia). split; [done|]. intros i Hix. apply Hi. lia.
Qed.

(** ** What is accepted *)

(** The documented behaviour of [cryptobyte.String]: what a method reads and
    what it leaves are slices of the input. *)
Class CryptobyteOk `{Cryptobyte} : Prop := {
  ReadASN1_slice : forall t s c rest, ReadASN1 t s = Some (c, rest) -> exists hdr, s = hdr ++ c ++ rest;
  ReadASN1ObjectIdentifier_slice : forall s a rest, ReadASN1ObjectIdentifier s = Some (a, rest) -> exists hdr, s = hdr ++ rest
}.

Record accepted (f : pbes2File) : Prop := Accepted {
  ac_keyLen : f_keyLen f = 16 \/ f_keyLen f = 24 \/ f_keyLen f = 32;
  ac_iv : zlen (f_iv f) = opensshAESBlock;
  ac_salt : 1 <= zlen (f_salt f) <= maxPBES2Salt;
  ac_ct : 0 < zlen (f_ct f);
  ac_ct_blocks : Z.rem (zlen (f_ct f)) opensshAESBlock = 0;
  ac_pbkdf2 : f_scrypt f = false -> f_prf f <> hashNone /\ 1 <= f_iter f <= MaxPBKDF2Iterations;
  ac_scrypt : f_scrypt f = true ->
    1 < f_n f /\ Z.land (f_n f) (f_n f - 1) = 0 /\ 1 <= f_r f /\ 1 <= f_p f /\ f_n f < 2 ^ (128 * f_r f / 8) /\
    128 * f_r f * (f_n f + 2 * f_p f + 2) <= MaxScryptMemory /\ f_n f * f_r f * f_p f <= MaxScryptWork
}.

(** One step through a reader that accepts. *)
Ltac accept H :=
  lazymatch type of H with
  | read ?o _ = inr _ =>
      let x := fresh "x" in let E := fresh "E" in
      destruct o as [x|] eqn:E; cbn [read] in H; [|discriminate H];
      repeat match goal with y : prod _ _ |- _ => destruct y end; cbn beta iota in H
  | require ?b _ = inr _ => let E := fresh "E" in destruct b eqn:E; cbn [require] in H; [|discriminate H]
  | (if ?b then inl _ else _) = inr _ => let E := fresh "E" in destruct b eqn:E; [discriminate H|]
  | (match ?r with inl _ => _ | inr _ => _ end) = inr _ =>
      let x := fresh "x" in let E := fresh "E" in
      destruct r as [x|x] eqn:E; [discriminate H|];
      repeat match goal with y : prod _ _ |- _ => destruct y end; cbn beta iota in H
  end.

Section accept.
Context `{CryptobyteOk}.

Lemma readASN1Count_ok s v over rest :
  bytes s -> readASN1Count s = Some (v, over, rest) -> 0 <= v <= MaxInt32 /\ bytes rest.
Proof.
  intros Hs. unfold readASN1Count. destruct (ReadASN1 INTEGER s) as [[raw r]|] eqn:E; cbn [mbind option_bind]; [|done].
  apply ReadASN1_slice in E as [hdr ->]. apply Forall_app in Hs as [_ Hs]. apply Forall_app in Hs as [Hraw Hr].
  destruct raw as [|b0 raw']; [done|]. destruct (negb _); [done|].
  destruct (match raw' with [] => false | b1 :: _ => (b0 =? 0) && (Z.land b1 128 =? 0) end); [done|].
  set (raw := if b0 =? 0 then raw' else b0 :: raw').
  assert (bytes raw) as Hb by (unfold raw; apply Forall_cons in Hraw as [? ?]; by destruct (b0 =? 0); [|constructor]).
  assert (forall a, 0 <= a -> 0 <= foldl (fun v b => Z.lor (uwrap64 (Z.shiftl v 8)) b) a raw) as Hv.
  { induction Hb as [|b bs Hb0 Hbs IH]; intros a Ha; [done|]. cbn [foldl]. apply IH, Z.lor_nonneg. split; [|by destruct Hb0].
    apply Z.mod_pos_bound. lia. }
  destruct (4 <? zlen raw); [intros [= <- _ <-]; done|]. specialize (Hv 0 ltac:(lia)).
  destruct (Z.ltb_spec MaxInt32 (foldl (fun v b => Z.lor (uwrap64 (Z.shiftl v 8)) b) 0 raw)); intros [= <- _ <-]; done.
Qed.

Lemma ReadASN1_bytes t s c rest : bytes s -> ReadASN1 t s = Some (c, rest) -> bytes c /\ bytes rest.
Proof. intros Hs E. apply ReadASN1_slice in E as [hdr ->]. apply Forall_app in Hs as [_ Hs]. by apply Forall_app in Hs. Qed.
Lemma ReadOID_bytes s a rest : bytes s -> ReadASN1ObjectIdentifier s = Some (a, rest) -> bytes rest.
Proof. intros Hs E. apply ReadASN1ObjectIdentifier_slice in E as [hdr ->]. by apply Forall_app in Hs as [_ Hs]. Qed.

Lemma salt_bounds (salt : list Z) : negb (zlen salt =? 0) = true -> (maxPBES2Salt <? zlen salt) = false -> 1 <= zlen salt <= maxPBES2Salt.
Proof. pose proof (zlen_nonneg salt). lia. Qed.

Lemma readPBKDF2Params_ok keyLen s salt iter prf :
  bytes s -> readPBKDF2Params keyLen s = inr (salt, iter, prf) ->
  1 <= zlen salt <= maxPBES2Salt /\ prf <> hashNone /\ 1 <= iter <= MaxPBKDF2Iterations.
Proof.
  intros Hs A. unfold readPBKDF2Params in A. do 4 accept A. pose proof (salt_bounds _ E1 E2) as Hsalt.
  apply (ReadASN1_bytes _ _ _ _ Hs) in E0 as [_ Hl]. do 4 accept A.
  apply (readASN1Count_ok _ _ _ _ Hl) in E0 as [Hv _]. apply orb_false_iff in E4 as [-> Hi].
  assert (1 <= z <= MaxPBKDF2Iterations) as Hz by (cbn in E3; lia).
  accept A. destruct o as [prf'|]; [|accept A; injection A as <- <- <-; done].
  do 3 accept A. case_bool_decide; [done|]. accept A. injection A as <- <- <-. done.
Qed.

(** No product of the cost parameters wraps once [r] is bounded. *)
Lemma scrypt_products n r p :
  0 <= n <= MaxInt32 -> 0 <= r <= MaxInt32 -> 0 <= p <= MaxInt32 -> r <= MaxScryptMemory / 128 ->
  uwrap64 (uwrap64 (128 * uwrap64 r) * uwrap64 (uwrap64 (uwrap64 n + uwrap64 (2 * uwrap64 p)) + 2)) = 128 * r * (n + 2 * p + 2) /\
  (128 * r * (n + 2 * p + 2) <= MaxScryptMemory -> 1 <= r -> uwrap64 (uwrap64 (uwrap64 n * uwrap64 r) * uwrap64 p) = n * r * p).
Proof.
  unfold MaxInt32. intros Hn Hr Hp Hcap. change (MaxScryptMemory / 128) with 524288 in Hcap.
  rewrite (uwrap64_id n), (uwrap64_id r), (uwrap64_id p), (uwrap64_id (2 * p)), (uwrap64_id (n + 2 * p)), (uwrap64_id (n + 2 * p + 2)),
    (uwrap64_id (128 * r)) by lia.
  split; [apply uwrap64_id; split; [nia|]; apply Z.le_lt_trans with (128 * 524288 * (2 ^ 31 - 1 + 2 * (2 ^ 31 - 1) + 2)); [|lia];
    apply Z.mul_le_mono_nonneg; lia|].
  unfold MaxScryptMemory. intros Hm Hr1. assert (n < 2 ^ 20 /\ p < 2 ^ 20) as [Hn' Hp'] by nia.
  assert (0 <= n * r <= 2 ^ 20 * 524288) as Hnr by nia. rewrite (uwrap64_id (n * r)) by lia. apply uwrap64_id. nia.
Qed.

Lemma readScryptParams_ok keyLen s salt n r p :
  bytes s -> readScryptParams keyLen s = inr (salt, n, r, p) ->
  1 <= zlen salt <= maxPBES2Salt /\
  1 < n /\ Z.land n (n - 1) = 0 /\ 1 <= r /\ 1 <= p /\ n < 2 ^ (128 * r / 8) /\
  128 * r * (n + 2 * p + 2) <= MaxScryptMemory /\ n * r * p <= MaxScryptWork.
Proof.
  intros Hs A. unfold readScryptParams in A. do 3 accept A. pose proof (salt_bounds _ E0 E1) as Hsalt.
  apply (ReadASN1_bytes _ _ _ _ Hs) in E as [_ Hl]. do 3 accept A.
  apply (readASN1Count_ok _ _ _ _ Hl) in E as [Hn Hl0]. apply (readASN1Count_ok _ _ _ _ Hl0) in E2 as [Hr Hl1].
  apply (readASN1Count_ok _ _ _ _ Hl1) in E3 as [Hp _]. clear Hl Hl0 Hl1.
  do 5 accept A. destruct b, b0, b1; cbn [orb] in *; try discriminate. cbn [negb andb] in *.
  match goal with E : (_ <? _) || (MaxScryptMemory <? _) = false |- _ => apply orb_false_iff in E as [Ecap Emem] end.
  rewrite (uwrap64_id z0) in Ecap by (unfold MaxInt32 in *; lia).
  destruct (scrypt_products z z0 z1 Hn Hr Hp ltac:(lia)) as [P1 P2]. rewrite P1 in Emem.
  assert (z <> 0 /\ z0 <> 0 /\ z1 <> 0 /\ z <> 1 /\ Z.land z (z - 1) = 0) as (?&?&?&?&?) by lia.
  rewrite P2 in * by lia. do 2 accept A. injection A as <- <- <- <-. split_and!; try done || lia.
  destruct (decide (z0 = 1)) as [->|]; [change (128 * 1 / 8) with 16; lia|].
  apply Z.lt_le_trans with (2 ^ 32); [unfold MaxInt32 in *; lia|]. apply Z.pow_le_mono_r; [lia|].
  apply Z.div_le_lower_bound; lia.
Qed.

Lemma readScheme_ok scheme keyLen iv :
  readScheme scheme = inr (keyLen, iv) -> (keyLen = 16 \/ keyLen = 24 \/ keyLen = 32) /\ zlen iv = opensshAESBlock.
Proof.
  intros A. unfold readScheme in A. accept A.
  assert (forall k, read (ReadASN1 OCTET_STRING l) (fun '(iv, scheme) =>
      require (Empty scheme && (zlen iv =? opensshAESBlock)) (inr (k, iv))) = inr (keyLen, iv) -> keyLen = k /\ zlen iv = opensshAESBlock) as Hiv.
  { intros k B. do 2 accept B. injection B as <- <-. apply andb_true_iff in E1 as [_ E1]. split; [done|lia]. }
  destruct (oid_Equal o oidAES128CBC); [destruct (Hiv 16 A); auto|]. destruct (oid_Equal o oidAES192CBC); [destruct (Hiv 24 A); auto|].
  destruct (oid_Equal o oidAES256CBC); [destruct (Hiv 32 A); auto|]. by do 2 accept A.
Qed.

Lemma readPBES2_ok der f : bytes der -> readPBES2 der = inr f -> accepted f.
Proof.
  intros Hs A. unfold readPBES2 in A. repeat accept A.
  repeat match goal with
  | E : ReadASN1 _ ?s = Some _, Hb : bytes ?s |- _ => apply (ReadASN1_bytes _ _ _ _ Hb) in E; destruct E
  | E : ReadASN1ObjectIdentifier ?s = Some _, Hb : bytes ?s |- _ => apply (ReadOID_bytes _ _ _ Hb) in E
  end.
  destruct (readScheme_ok _ _ _ E11) as [Hk Hiv].
  assert (forall c : gerr + pbes2File, (if (zlen l4 =? 0) || negb (Z.rem (zlen l4) opensshAESBlock =? 0) then inl (malformed "encrypted data is not a multiple of the cipher block size") else c) = inr f ->
    0 < zlen l4 /\ Z.rem (zlen l4) opensshAESBlock = 0 /\ c = inr f) as Hct.
  { intros c. pose proof (zlen_nonneg l4). destruct (Z.eqb_spec (zlen l4) 0); [done|].
    destruct (Z.eqb_spec (Z.rem (zlen l4) opensshAESBlock) 0); cbn [orb negb]; [|done]. intros ->. split; [lia|done]. }
  destruct (oid_Equal o0 oidScrypt); accept A; apply Hct in A as (C1 & C2 & [= <-]).
  - match goal with E : readScryptParams _ _ = _ |- _ => destruct (readScryptParams_ok _ _ _ _ _ _ H13 E) as (S1 & S2) end.
    by split; cbn.
  - match goal with E : readPBKDF2Params _ _ = _ |- _ => destruct (readPBKDF2Params_ok _ _ _ _ _ H13 E) as (S1 & S2) end.
    by split; cbn.
Qed.
End accept.

(** ** Opening *)

Section open.
Context `{DigestsOk} `{CryptoOk} `{CryptobyteOk}.

(** The key of the file: RFC 7914 or RFC 8018. *)
Definition derived_key (f : pbes2File) (passphrase : list Z) : list Z :=
  if f_scrypt f then scrypt passphrase (f_salt f) (f_n f) (f_r f) (f_p f) (f_keyLen f)
  else PBKDF2 (f_prf f) passphrase (f_salt f) (f_iter f) (f_keyLen f).

(** The locked memory of a file that was accepted: the published figure and
    under 2 KiB. *)
Lemma region_bound f : accepted f ->
  0 < kdfRegion f + f_keyLen f + cipherScratch < MaxScryptMemory + 2048 /\
  (f_scrypt f = true -> kdfRegion f + f_keyLen f + cipherScratch < 128 * f_r f * (f_n f + 2 * f_p f + 2) + 2048).
Proof.
  intros [Hk _ Hs _ _ Hpb Hsc]. unfold kdfRegion, cipherScratch, opensshAESBlock, maxPBES2Salt in *. destruct (f_scrypt f).
  - destruct (Hsc eq_refl) as (Hn & _ & Hr & Hp & _ & Hm & _).
    unfold scryptRegionSize, WorkSize, BlockSize, pbkdf2RegionSize, maxHashSize. cbn [block size].
    assert (0 < f_p f * (128 * f_r f) /\ 0 < 128 * f_r f * f_n f) as [Hb Hn'] by nia.
    replace (128 * f_r f * (f_n f + 2 * f_p f + 2)) with (128 * f_r f * f_n f + 256 * f_r f + 2 * (f_p f * (128 * f_r f))) in * by ring. lia.
  - split; [|done]. destruct (Hpb eq_refl) as [Hh _]. pose proof (size_bounds _ Hh). unfold pbkdf2RegionSize, MaxScryptMemory, maxHashSize in *. lia.
Qed.

Lemma length_cbc_loop (dec : list Z -> list Z) (fuel : nat) prev src :
  (forall b, length b = 16%nat -> length (dec b) = 16%nat) -> length prev = 16%nat ->
  (length src <= fuel)%nat -> (exists k, length src = 16 * k)%nat -> length (cbc_loop dec fuel prev src) = length src.
Proof.
  intros Hd. revert prev src. induction fuel as [|fuel IH]; intros prev src Hp Hf [k Hk]; [destruct src; [done|cbn in Hf; lia]|].
  destruct src as [|x src]; [done|]. cbn [cbc_loop]. set (s := x :: src) in *.
  assert (1 <= k)%nat by (destruct k; [done|lia]). assert (length (take 16 s) = 16%nat) as L by (rewrite length_take; lia).
  assert (length (drop 16 s) = 16 * (k - 1))%nat as Ld by (rewrite length_drop; lia).
  unfold xor_bytes. rewrite length_app, length_zip_with, Hd by done.
  rewrite IH by (done || lia || by exists (k - 1)%nat). lia.
Qed.

(** Decryption of an accepted file under the derived key never panics. *)
Lemma pbes2Decrypt_run f passphrase u : accepted f ->
  exists p, cbcDecrypt (c_aes_dec (derived_key f passphrase)) (f_iv f) (f_ct f) = Some p /\ zlen p = zlen (f_ct f) /\
  pbes2Decrypt f passphrase u =
  Ret (match c_alloc (kdfRegion f + f_keyLen f + cipherScratch) with
       | Some err => inl (errorf "allocate kdf workspace" err)
       | None => match errorsJoin [None; c_wipeAES] with Some e => inl e | None => inr p end
       end) u.
Proof.
  intros A. pose proof A as [Hk Hiv Hs Hct Hrem Hpb Hsc]. unfold cbcDecrypt. rewrite Hrem. cbn [Z.eqb negb]. eexists. split; [reflexivity|]. split.
  { unfold zlen. f_equal. apply length_cbc_loop; [intros; by apply c_aes_dec_len|unfold zlen, opensshAESBlock in Hiv; lia|done|].
    unfold opensshAESBlock in Hrem. exists (Z.to_nat (zlen (f_ct f) / 16)). rewrite Z.rem_mod_nonneg in Hrem by lia.
    pose proof (Z.div_mod (zlen (f_ct f)) 16 ltac:(lia)). pose proof (Z.div_pos (zlen (f_ct f)) 16 ltac:(lia) ltac:(lia)). unfold zlen in *. lia. }
  unfold pbes2Decrypt. destruct (c_alloc _); [done|]. unfold derived_key, kdfRegion. destruct (f_scrypt f) eqn:Es.
  - destruct (Hsc eq_refl) as (Hn & Hp2 & Hr & Hp & _ & Hm & _). unfold MaxScryptMemory in Hm.
    rewrite scryptCompute_run; try done || lia; rewrite ?zlen_zeros by lia; try lia; unfold MaxInt; try nia.
    unfold cbcDecrypt. rewrite Hrem. done.
  - destruct (Hpb eq_refl) as [Hh _]. pose proof (size_bounds _ Hh).
    rewrite pbkdf2Compute_run; rewrite ?zlen_zeros by lia; try done || lia.
    + unfold cbcDecrypt. rewrite Hrem. done.
    + assert ((f_keyLen f + size (f_prf f) - 1) / size (f_prf f) <= f_keyLen f) by (apply zlen_ceil; lia). lia.
Qed.
End open.

(** C19. Opening an encrypted PKCS#8 file, whatever its bytes: the call
    returns, with the reader's refusal or, for a file it accepts, after locking
    less than the published cap and two kilobytes. Every parameter of an
    accepted file is in its range with no product wrapped; the key is that of
    RFC 7914 or RFC 8018, the ciphertext goes through CBC under it, and the
    plaintext length is the one PKCS#7 padding gives, a string with no such
    padding being the one error. A buffer that cannot be allocated and a key
    schedule that cannot be wiped are reported as themselves. *)
Theorem pbes2_open_exact `{DigestsOk} `{CryptoOk} `{CryptobyteOk} der passphrase u :
  bytes der ->
  exists r, openPBES2 der passphrase u = Ret r u /\
  match readPBES2 der with
  | inl e => r = inl e
  | inr f =>
      let locked := kdfRegion f + f_keyLen f + cipherScratch in
      accepted f /\ 0 < locked < MaxScryptMemory + 2048 /\
      exists p, cbcDecrypt (c_aes_dec (derived_key f passphrase)) (f_iv f) (f_ct f) = Some p /\
      match c_alloc (zlen (f_ct f)), c_alloc locked, c_wipeAES with
      | Some err, _, _ => r = inl (errorf "allocate key buffer" err)
      | None, Some err, _ => r = inl (errorf "allocate kdf workspace" err)
      | None, None, Some e => r = inl (Joined [e])
      | None, None, None => (forall n, PKCS7 p n -> r = inr (p, n)) /\ (~ (exists n, PKCS7 p n) -> r = inl errPBES2Decrypt)
      end
  end.
Proof.
  intros Hs. unfold openPBES2. destruct (readPBES2 der) as [e|f] eqn:Ef; [by exists (inl e)|].
  pose proof (readPBES2_ok der f Hs Ef) as A. destruct (region_bound f A) as [Hb _].
  destruct (pbes2Decrypt_run f passphrase u A) as (p & Ep & Lp & Er).
  assert (opensshAESBlock <= zlen p) as Hp.
  { rewrite Lp. destruct A as [_ _ _ Hct Hrem _ _]. unfold opensshAESBlock in *. rewrite Z.rem_mod_nonneg in Hrem by lia.
    pose proof (Z.div_mod (zlen (f_ct f)) 16 ltac:(lia)). pose proof (Z.div_pos (zlen (f_ct f)) 16 ltac:(lia) ltac:(lia)). lia. }
  destruct (c_alloc (zlen (f_ct f))) as [err|]; [eexists; split; [reflexivity|]; split; [done|]; split; [done|]; by exists p|].
  unfold mbind, M_bind. rewrite Er. eexists. split; [reflexivity|]. split; [done|]. split; [done|]. exists p. split; [done|].
  destruct (c_alloc _); [done|]. destruct c_wipeAES; [done|]. cbn [errorsJoin omap list_omap id].
  split; [intros n Hn|intros Hn]; destruct (pkcs7Unpad p) as [k|] eqn:Ek.
  - apply pkcs7Unpad_run in Hn; [|done]. congruence.
  - apply pkcs7Unpad_run in Hn; [|done]. congruence.
  - exfalso. apply Hn. exists k. by apply pkcs7Unpad_run.
  - done.
Qed.

(** ** A concrete file *)

#[local] Existing Instances toy_digests toy_digests_ok toy toy_ok.

(** DER with short lengths. *)
Definition der_tag (t : asn1Tag) : Z :=
  match t with INTEGER => 2 | OCTET_STRING => 4 | NULL => 5 | SEQUENCE => 48 end.
Definition der_read (tag : Z) (s : list Z) : option (list Z * list Z) :=
  match s with
  | t :: n :: s => if (t =? tag) && (n <? 128) && (n <=? zlen s) then Some (take (Z.to_nat n) s, drop (Z.to_nat n) s) else None
  | _ => None
  end.
Definition base128 (s : list Z) : list Z :=
  (foldl (fun '(done, v) b => if b <? 128 then (done ++ [v * 128 + b], 0) else (done, v * 128 + (b - 128))) ([], 0) s).1.
Definition toy_der : Cryptobyte := {|
  ReadASN1 t := der_read (der_tag t);
  ReadASN1ObjectIdentifier s :=
    '(c, rest) ← der_read 6 s;
    match c with x :: c => Some (x / 40 :: x mod 40 :: base128 c, rest) | [] => None end;
  ReadASN1Integer s := '(c, rest) ← der_read 2 s; Some (be c, rest);
  PeekASN1Tag t s := match s with x :: _ => x =? der_tag t | [] => false end;
  ReadOptionalASN1 t s :=
    match s with
    | x :: _ => if x =? der_tag t then '(c, rest) ← der_read (der_tag t) s; Some (Some c, rest) else Some (None, s)
    | [] => Some (None, s)
    end;
  SkipOptionalASN1 t s :=
    match s with
    | x :: _ => if x =? der_tag t then snd <$> der_read (der_tag t) s else Some s
    | [] => Some s
    end
|}.

Lemma der_read_slice tag s c rest : der_read tag s = Some (c, rest) -> s = take 2 s ++ c ++ rest.
Proof.
  unfold der_read. destruct s as [|t [|n s]]; [done..|]. destruct (_ && _); [|done]. intros [= <- <-].
  change (t :: n :: s = t :: n :: (take (Z.to_nat n) s ++ drop (Z.to_nat n) s)). by rewrite take_drop.
Qed.

Lemma toy_der_ok : @CryptobyteOk toy_der.
Proof.
  constructor.
  - intros t s c rest E. exists (take 2 s). exact (der_read_slice _ _ _ _ E).
  - intros s a rest. cbn. destruct (der_read 6 s) as [[c r]|] eqn:E; cbn; [|done]. apply der_read_slice in E.
    destruct c as [|x c]; [done|]. intros [= <- <-]. exists (take 2 s ++ x :: c). by rewrite <- app_assoc.
Qed.
#[local] Existing Instances toy_der toy_der_ok.

Definition tlv (tag : Z) (c : list Z) : list Z := tag :: zlen c :: c.
(** aes-128-cbc under a PBKDF2-HMAC-SHA256 key, and under an scrypt key. *)
Definition sample_scheme : list Z :=
  tlv 48 (tlv 6 [96; 134; 72; 1; 101; 3; 4; 1; 2] ++ tlv 4 (seqZ 100 16)).
Definition sample_pbkdf2 : list Z :=
  tlv 48 (tlv 6 [42; 134; 72; 134; 247; 13; 1; 5; 12] ++
          tlv 48 (tlv 4 (str "saltsalt") ++ tlv 2 [3] ++ tlv 48 (tlv 6 [42; 134; 72; 134; 247; 13; 2; 9] ++ tlv 5 []))).
Definition sample_scrypt (n : Z) : list Z :=
  tlv 48 (tlv 6 [43; 6; 1; 4; 1; 218; 71; 4; 11] ++ tlv 48 (tlv 4 (str "saltsalt") ++ tlv 2 [n] ++ tlv 2 [1] ++ tlv 2 [1])).
Definition sample_file (kdf ct : list Z) : list Z :=
  tlv 48 (tlv 48 (tlv 6 [42; 134; 72; 134; 247; 13; 1; 5; 13] ++ tlv 48 (kdf ++ sample_scheme)) ++ tlv 4 ct).
(** The ciphertext of one padded block under the key the file names. *)
Definition sample_plain : list Z := str "secret" ++ replicate 10 10.
Definition sample_ct (kdf : list Z) : list Z :=
  match readPBES2 (sample_file kdf (seqZ 0 16)) with
  | inr f => c_aes_enc (derived_key f (str "pw")) (xor_bytes sample_plain (f_iv f))
  | inl _ => []
  end.
Definition opened (o : outcome unit (gerr + list Z * Z)) : option (list Z) :=
  match o with Ret (inr (p, n)) _ => Some (take (Z.to_nat n) p) | _ => None end.

Lemma pbes2_open_exact_witness :
  (exists r, openPBES2 (sample_file sample_pbkdf2 (sample_ct sample_pbkdf2)) (str "pw") tt = Ret r tt /\
     exists f, readPBES2 (sample_file sample_pbkdf2 (sample_ct sample_pbkdf2)) = inr f /\ accepted f) /\
  opened (openPBES2 (sample_file sample_pbkdf2 (sample_ct sample_pbkdf2)) (str "pw") tt) = Some (str "secret") /\
  opened (openPBES2 (sample_file (sample_scrypt 2) (sample_ct (sample_scrypt 2))) (str "pw") tt) = Some (str "secret") /\
  readPBES2 (sample_file (sample_scrypt 3) (seqZ 0 16)) = inl (malformed "scrypt cost parameter N is not a power of two greater than 1").
Proof.
  split; [|split; [vm_compute; reflexivity|split; vm_compute; reflexivity]].
  destruct (pbes2_open_exact (sample_file sample_pbkdf2 (sample_ct sample_pbkdf2)) (str "pw") tt) as (r & Er & Hr).
  - apply (bool_decide_unpack _). vm_compute. exact I.
  - exists r. split; [exact Er|]. destruct (readPBES2 (sample_file sample_pbkdf2 (sample_ct sample_pbkdf2))) as [e|f] eqn:E.
    + exfalso. revert E. vm_compute. discriminate.
    + exists f. split; [reflexivity|apply Hr].
Defined.
