(* ===== verification/Httpauth.v ===== *)
(** * The authenticating HTTP transport (httpauth/transport.go)

    A [Transport] keeps a credential in a SecureBuffer (the one of
    SecureBuffer.v) and puts it into one header of a clone of each request the
    host filter admits. The state is the process's world together with the
    objects net/http shares by pointer: requests, header maps, responses, the
    scratch slices the header value is assembled in, and the bodies closed so
    far. The base transport and what other goroutines do to the token between
    the two calls that read it are parameters. *)
From S2P Require Import Prelude Errors Bytes Pem Utf8 Canary World Memory Frame Sample Quarantine Janitor Process SealAuth SecureBuffer BufferAccess BufferSpec BufferBorrow BufferReads BufferTheorems.

(** ** Errors *)

Definition ErrNoToken : gerr := Msg "httpauth: no token".
Definition ErrNilRequest : gerr := Msg "httpauth: nil request".
Definition ErrBasicUsername : gerr := Msg "httpauth: basic username must not contain ':'".
Definition ErrInsecureScheme : gerr := Msg "httpauth: refusing to send the credential over cleartext http".
Definition ErrNoHosts : gerr := Msg "httpauth: no host filter".
Definition ErrInvalidConfig : gerr := Msg "httpauth: invalid configuration".
Definition invalid (what : string) : gerr := Wrap what [ErrInvalidConfig].

(** ** Data *)

Record hostEntry : Type := HostEntry { he_scheme : list Z; he_host : list Z }.

(** [t_base = None] is a nil RoundTripper. *)
Record Transport : Type := MkTransport {
  t_base : option Z;
  t_header : list Z;
  t_prefix : list Z;
  t_token : SecureBuffer;
  t_hosts : list hostEntry;
  t_anyHost : bool;
  t_insecure : bool;
  t_basic : bool;
  t_basicUser : list Z
}.

Record config : Type := Config {
  c_hosts : list (list Z);
  c_anyHost : bool;
  c_insecure : bool;
  c_base : option Z
}.

(** A nil [Option] is [None]. *)
Definition Option : Type := option (config -> config).

Definition WithHosts (entries : list (list Z)) : Option :=
  Some (fun c => Config (c_hosts c ++ entries) (c_anyHost c) (c_insecure c) (c_base c)).
Definition WithAnyHost : Option :=
  Some (fun c => Config (c_hosts c) true (c_insecure c) (c_base c)).
Definition WithInsecureHTTP : Option :=
  Some (fun c => Config (c_hosts c) (c_anyHost c) true (c_base c)).
Definition WithBase (rt : option Z) : Option :=
  Some (fun c => Config (c_hosts c) (c_anyHost c) (c_insecure c) rt).

(** ** Construction *)

Definition defaultHeader : list Z := str "Authorization".

Definition isLetterDigit (c : Z) : bool := inRange 97 122 c || inRange 65 90 c || inRange 48 57 c.
Definition tokenMarks : list Z := str "!#$%&'*+-.^_`|~".
Definition validFieldName (name : list Z) : bool :=
  negb (bool_decide (name = [])) &&
  forallb (fun c => isLetterDigit c || bool_decide (c ∈ tokenMarks)) name.

(** [strings.ContainsAny(s, chars)] for ASCII [chars]. *)
Definition ContainsAny (s chars : list Z) : bool := existsb (fun c => bool_decide (c ∈ chars)) s.
Definition Contains (s sub : list Z) : bool := bool_decide (is_Some (Index s sub)).
(** [strings.TrimSuffix(s, "/")] *)
Definition TrimSlash (s : list Z) : list Z :=
  match reverse s with c :: r => if (c =? 47) then reverse r else s | [] => s end.

Section build.
Context `{Unicode}.

Definition http : list Z := str "http".
Definition https : list Z := str "https".

(** The scheme of an entry, and what is left of it. *)
Definition entryScheme (entry : list Z) : gerr + (list Z * list Z) :=
  match Index entry (str "://") with
  | None => inr ([], entry)
  | Some i =>
      let scheme := strings_ToLower (take i entry) in
      if negb (bool_decide (scheme = http)) && negb (bool_decide (scheme = https))
      then inl (invalid "scheme must be http or https")
      else inr (scheme, drop (i + 3) entry)
  end.

Definition parseHostEntry (entry : list Z) : gerr + hostEntry :=
  match entryScheme entry with
  | inl e => inl e
  | inr (scheme, rest) =>
      let rest := TrimSlash rest in
      if bool_decide (rest = []) then inl (invalid "empty host")
      else if ContainsAny rest (str "/?#@") || existsb IsSpace (fst <$> runes rest)
      then inl (invalid "want host or host:port, optionally with an http:// or https:// scheme")
      else inr (HostEntry scheme rest)
  end.

(** The loop over the entries: the first error wins. *)
Fixpoint parseHosts (raws : list (list Z)) : gerr + list hostEntry :=
  match raws with
  | [] => inr []
  | raw :: raws =>
      match parseHostEntry raw with
      | inl e => inl e
      | inr e => match parseHosts raws with inl err => inl err | inr es => inr (e :: es) end
      end
  end.

Definition applyOptions (opts : list Option) : config :=
  foldl (fun c o => match o with Some f => f c | None => c end) (Config [] false false None) opts.

Definition build (t : Transport) (token : SecureBuffer) (opts : list Option) : gerr + Transport :=
  match token with
  | NilRecv => inl ErrNoToken
  | _ =>
      let c := applyOptions opts in
      if negb (bool_decide (c_hosts c = [])) && c_anyHost c
      then inl (invalid "WithHosts and WithAnyHost are contradictory")
      else if bool_decide (c_hosts c = []) && negb (c_anyHost c) then inl ErrNoHosts
      else
      match parseHosts (c_hosts c) with
      | inl e => inl e
      | inr hosts =>
          inr (MkTransport (c_base c) (t_header t) (t_prefix t) token hosts (c_anyHost c) (c_insecure c)
                 (t_basic t) (t_basicUser t))
      end
  end.

Definition NewHeader (header prefix : list Z) (token : SecureBuffer) (opts : list Option) : gerr + Transport :=
  let header := if bool_decide (header = []) then defaultHeader else header in
  if negb (validFieldName header) then inl (invalid "header name is not a valid HTTP field name")
  else if ContainsAny prefix [13; 10; 0] then inl (invalid "header prefix contains CR, LF or NUL")
  else build (MkTransport None header prefix NilRecv [] false false false []) token opts.

Definition NewBearer (token : SecureBuffer) (opts : list Option) : gerr + Transport :=
  NewHeader defaultHeader (str "Bearer ") token opts.

Definition NewBasic (username : list Z) (password : SecureBuffer) (opts : list Option) : gerr + Transport :=
  if Contains username (str ":") then inl ErrBasicUsername
  else build (MkTransport None defaultHeader [] NilRecv [] false false true username) password opts.
End build.

(** ** Requests *)

Record URL : Type := MkURL { u_Scheme : list Z; u_Host : list Z; u_rest : Z }.

(** A request: its header map and body are pointers; [r_rest] is everything
    else. *)
Record Request : Type := MkRequest {
  r_URL : option URL;
  r_Header : option Z;
  r_Body : option Z;
  r_rest : Z
}.
Definition Header : Type := gmap (list Z) (list (list Z)).

Record net : Type := Net {
  n_world : world;
  n_reqs : gmap Z Request;
  n_headers : gmap Z Header;
  n_resps : gmap Z (option Z);
  n_heap : gmap Z (list Z);
  n_closed : list Z;
  n_next : Z
}.
Abbreviation HM := (M net).

Definition net_world w (s : net) : net :=
  Net w (n_reqs s) (n_headers s) (n_resps s) (n_heap s) (n_closed s) (n_next s).
Definition net_reqs f (s : net) : net :=
  Net (n_world s) (f (n_reqs s)) (n_headers s) (n_resps s) (n_heap s) (n_closed s) (n_next s).
Definition net_headers f (s : net) : net :=
  Net (n_world s) (n_reqs s) (f (n_headers s)) (n_resps s) (n_heap s) (n_closed s) (n_next s).
Definition net_resps f (s : net) : net :=
  Net (n_world s) (n_reqs s) (n_headers s) (f (n_resps s)) (n_heap s) (n_closed s) (n_next s).
Definition net_heap f (s : net) : net :=
  Net (n_world s) (n_reqs s) (n_headers s) (n_resps s) (f (n_heap s)) (n_closed s) (n_next s).
Definition net_closed f (s : net) : net :=
  Net (n_world s) (n_reqs s) (n_headers s) (n_resps s) (n_heap s) (f (n_closed s)) (n_next s).
Definition net_next n (s : net) : net :=
  Net (n_world s) (n_reqs s) (n_headers s) (n_resps s) (n_heap s) (n_closed s) n.

(** A call into the package's core. *)
Definition core {A} (m : GM A) : HM A := fun s =>
  match m (n_world s) with
  | Ret a w => Ret a (net_world w s)
  | Panic w => Panic (net_world w s)
  | Fault => Fault
  | Block => Prelude.Block
  end.

(** Reading through a pointer. *)
Definition deref {A} (heap : net -> gmap Z A) (p : Z) : HM A := fun s =>
  match heap s !! p with Some a => Ret a s | None => Panic s end.
Definition fresh : HM Z := fun s => Ret (n_next s) (net_next (n_next s + 1) s).

(** [make([]byte, n)], an assignment into it, and [secmem.SecureWipe]. *)
Definition make_bytes (n : Z) : HM Z := p ← fresh; modify (net_heap (insert p (zeros n)));; mret p.
Definition bytes_put (p off : Z) (src : list Z) : HM unit := modify (net_heap (alter (copy_at off src) p)).
Definition SecureWipe (p : Z) : HM unit := modify (net_heap (alter (fun b => zeros (zlen b)) p)).

(** [req.Clone(ctx)]: a new request over a copy of the header map, if any. *)
Definition Clone (q : Z) : HM Z :=
  r ← deref n_reqs q;
  h ← match r_Header r with
      | None => mret None
      | Some h => m ← deref n_headers h; h' ← fresh; modify (net_headers (insert h' m));; mret (Some h')
      end;
  p ← fresh;
  modify (net_reqs (insert p (MkRequest (r_URL r) h (r_Body r) (r_rest r))));;
  mret p.

(** [textproto.CanonicalMIMEHeaderKey]: upper case at the start and after a
    dash, for a name made of field bytes. *)
Fixpoint canonical (upper : bool) (s : list Z) : list Z :=
  match s with
  | [] => []
  | c :: s =>
      let c := if upper && inRange 97 122 c then c - 32 else if negb upper && inRange 65 90 c then c + 32 else c in
      c :: canonical (c =? 45) s
  end.
Definition CanonicalMIMEHeaderKey (s : list Z) : list Z :=
  if forallb (fun c => isLetterDigit c || bool_decide (c ∈ tokenMarks)) s then canonical true s else s.

(** [req.Header.Set(key, value)]; a nil map panics. *)
Definition Header_Set (q : Z) (key value : list Z) : HM unit :=
  r ← deref n_reqs q;
  match r_Header r with
  | None => panic
  | Some h => modify (net_headers (alter <[CanonicalMIMEHeaderKey key := [value]]> h))
  end.

(** [if clone.Header == nil { clone.Header = make(http.Header) }] *)
Definition ensureHeader (q : Z) : HM unit :=
  r ← deref n_reqs q;
  match r_Header r with
  | Some _ => mret tt
  | None => h ← fresh; modify (net_headers (insert h ∅));;
            modify (net_reqs (insert q (MkRequest (r_URL r) (Some h) (r_Body r) (r_rest r))))
  end.

Definition closeBody (req : option Z) : HM unit :=
  match req with
  | None => mret tt
  | Some q =>
      r ← deref n_reqs q;
      match r_Body r with
      | None => mret tt
      | Some b => modify (net_closed (fun l => l ++ [b]))
      end
  end.

(** ** The decision *)

Inductive decision : Type := inject | forward | refuse.

Section decide_.
Context `{Unicode}.

(** The loop over the entries, with [matched]. *)
Fixpoint decide_hosts (scheme host : list Z) (insecure : bool) (hosts : list hostEntry) (matched : bool) : decision :=
  match hosts with
  | [] => if matched then refuse else forward
  | e :: hosts =>
      if negb (strings_EqualFold host (he_host e)) then decide_hosts scheme host insecure hosts matched
      else if bool_decide (he_scheme e = []) then
        if bool_decide (scheme = https) || insecure then inject
        else decide_hosts scheme host insecure hosts true
      else if bool_decide (he_scheme e = scheme) then inject
      else decide_hosts scheme host insecure hosts true
  end.

Definition decide_req (t : Transport) (r : Request) : decision :=
  let scheme := match r_URL r with Some u => strings_ToLower (u_Scheme u) | None => [] end in
  let host := match r_URL r with Some u => u_Host u | None => [] end in
  if t_anyHost t
  then if bool_decide (scheme = https) || t_insecure t then inject else refuse
  else match r_URL r with
       | None => forward
       | Some _ => decide_hosts scheme host (t_insecure t) (t_hosts t) false
       end.
End decide_.

(** ** The value *)

Section transport.
Context `{Kernel} `{Unicode}.

(** The base transport: called with a RoundTripper (nil stands for
    [http.DefaultTransport]) and a request. *)
Variable roundTripper : option Z -> Z -> HM (option Z * option gerr).
(** What other goroutines do between the length and the copy. *)
Variable others : GM unit.

Definition baseRT (t : Transport) (q : Z) : HM (option Z * option gerr) := roundTripper (t_base t) q.

(** [t.copyToken(buf[off:], n)] *)
Definition copyToken (t : Transport) (buf off n : Z) : HM (option gerr) :=
  b ← deref n_heap buf;
  let dst := drop (Z.to_nat off) b in
  r ← core (CopyOut (t_token t) dst 0);
  let '(got, err, dst') := (r : Z * option gerr * list Z) in
  modify (net_heap (insert buf (take (Z.to_nat off) b ++ dst')));;
  if (n =? 0) then
    if is_err err ErrDestroyed || is_err err ErrSealed
    then mret (errorf "httpauth: reading token" <$> err)
    else mret (Some (Msg "httpauth: token is empty"))
  else
    match err with
    | Some e => mret (Some (errorf "httpauth: reading token" e))
    | None => if negb (got =? n) then mret (Some (Msg "httpauth: token changed length during read")) else mret None
    end.

(** The scrub window itself acts below the level of values. *)
Definition headerValue (t : Transport) : HM (list Z * option gerr) :=
  n ← core (Len (t_token t));
  core others;;
  buf ← make_bytes (zlen (t_prefix t) + n);
  defer
    (bytes_put buf 0 (t_prefix t);;
     err ← copyToken t buf (zlen (t_prefix t)) n;
     match err with
     | Some e => mret ([], Some e)
     | None => value ← deref n_heap buf; mret (value, None)
     end)
    (SecureWipe buf).

Definition basicPrefix : list Z := str "Basic ".

Definition basicValue (t : Transport) : HM (list Z * option gerr) :=
  n ← core (Len (t_token t));
  core others;;
  raw ← make_bytes (zlen (t_basicUser t) + 1 + n);
  defer
    (bytes_put raw 0 (t_basicUser t);;
     bytes_put raw (zlen (t_basicUser t)) [58];;
     err ← copyToken t raw (zlen (t_basicUser t) + 1) n;
     match err with
     | Some e => mret ([], Some e)
     | None =>
         userpass ← deref n_heap raw;
         enc ← make_bytes (zlen basicPrefix + EncodedLen (zlen userpass));
         defer
           (bytes_put enc 0 basicPrefix;;
            bytes_put enc (zlen basicPrefix) (Encode userpass);;
            value ← deref n_heap enc; mret (value, None))
           (SecureWipe enc)
     end)
    (SecureWipe raw).

(** ** The round trip *)

(** [if resp != nil { resp.Request = req }] *)
Definition returnResponse (q : Z) (r : option Z * option gerr) : HM (option Z * option gerr) :=
  match r with
  | (Some resp, rerr) => modify (net_resps (insert resp (Some q)));; mret (Some resp, rerr)
  | (None, rerr) => mret (None, rerr)
  end.

(** Behind the checks, for a request to be authenticated. *)
Definition sendWithToken (t : Transport) (q : Z) : HM (option Z * option gerr) :=
  clone ← Clone q;
  ensureHeader clone;;
  v ← (if t_basic t then basicValue t else headerValue t);
  match v with
  | (_, Some e) => closeBody (Some q);; mret (None, Some e)
  | (value, None) =>
      Header_Set clone (t_header t) value;;
      r ← baseRT t clone;
      returnResponse q r
  end.

(** [t] and [req] are pointers and may be nil. *)
Definition RoundTrip (t : option Transport) (req : option Z) : HM (option Z * option gerr) :=
  match t with
  | None => closeBody req;; mret (None, Some (Msg "httpauth: RoundTrip on a nil *Transport"))
  | Some t =>
      match req with
      | None => mret (None, Some ErrNilRequest)
      | Some q =>
          match t_token t with
          | NilRecv => closeBody req;; mret (None, Some ErrNoToken)
          | _ =>
              r ← deref n_reqs q;
              match decide_req t r with
              | forward => baseRT t q
              | refuse => closeBody req;; mret (None, Some ErrInsecureScheme)
              | inject => sendWithToken t q
              end
          end
      end
  end.
End transport.

(** ** ForceHTTP1 *)

Record Protocols : Type := MkProtocols { pr_http1 : bool; pr_http2 : bool; pr_h2c : bool }.

(** The fields of [*http.Transport] that select the protocol; [ht_rest] is
    everything else. A nil pointer, map or config is [None]. *)
Record HttpTransport : Type := MkHttpTransport {
  ht_ForceAttemptHTTP2 : bool;
  ht_TLSNextProto : option (gmap (list Z) Z);
  ht_Protocols : option Protocols;
  ht_NextProtos : option (list (list Z));
  ht_rest : Z
}.

Definition h2 : list Z := str "h2".

(** [def] is [http.DefaultTransport] when it is an [*http.Transport],
    [proxyOnly] the rest of [&http.Transport{Proxy: ...}]. *)
Definition ForceHTTP1 (def : option HttpTransport) (proxyOnly : Z) (base : option HttpTransport) : HttpTransport :=
  let t := match base, def with
           | Some b, _ => b
           | None, Some dt => dt
           | None, None => MkHttpTransport false None None None proxyOnly
           end in
  MkHttpTransport false (Some ∅) (Some (MkProtocols true false false))
    (match ht_NextProtos t with
     | Some protos => if (0 <? zlen protos) then Some (filter (fun p => p <> h2) protos) else Some protos
     | None => None
     end) (ht_rest t).

(** ** What a constructor hands out *)

Section constructors.
Context `{Unicode}.

(** An entry as it may be stored: no character that could end the host part. *)
Record entry_ok (e : hostEntry) : Prop := EntryOk {
  eo_scheme : he_scheme e ∈ [[]; http; https];
  eo_host : he_host e <> [];
  eo_chars : Forall (fun c => c ∉ str "/?#@") (he_host e);
  eo_space : Forall (fun r => IsSpace r = false) (fst <$> runes (he_host e))
}.

(** The text of an entry: a scheme in any case, the host, one slash. *)
Definition entry_text (raw : list Z) (e : hostEntry) : Prop :=
  exists pre slash, raw = pre ++ he_host e ++ slash /\ slash ∈ [[]; str "/"] /\
    (pre = [] /\ he_scheme e = [] \/ exists s, pre = s ++ str "://" /\ strings_ToLower s = he_scheme e /\ he_scheme e <> []).

(** A transport the constructors return. *)
Record transport_ok (t : Transport) : Prop := TransportOk {
  to_token : t_token t <> NilRecv;
  to_header : validFieldName (t_header t) = true;
  to_prefix : Forall (fun c => c <> 13 /\ c <> 10 /\ c <> 0) (t_prefix t);
  to_user : 58 ∉ t_basicUser t;
  to_hosts : t_hosts t = [] <-> t_anyHost t = true;
  to_entries : Forall entry_ok (t_hosts t)
}.

Lemma TrimSlash_spec s : exists slash, s = TrimSlash s ++ slash /\ slash ∈ [[]; str "/"].
Proof.
  unfold TrimSlash. destruct (reverse s) as [|c r] eqn:E; [exists []; rewrite app_nil_r; split; [done|left]|].
  assert (s = reverse r ++ [c]) as Es by (rewrite <- (reverse_involutive s), E, reverse_cons; done).
  destruct (Z.eqb_spec c 47) as [->|_]; [exists [47]; split; [done|right; left]|exists []; rewrite app_nil_r; split; [done|left]].
Qed.

Lemma HasPrefix_spec b pat : HasPrefix b pat = true -> b = pat ++ drop (length pat) b.
Proof.
  revert b. induction pat as [|p pat IH]; intros [|x b]; cbn; try done. intros [->%Z.eqb_eq E]%andb_true_iff.
  f_equal. by apply IH.
Qed.

Lemma Index_spec b pat i : Index b pat = Some i -> b = take i b ++ pat ++ drop (i + length pat) b.
Proof.
  revert i. induction b as [|x b IH]; intros i; cbn [Index]; destruct (HasPrefix _ pat) eqn:E.
  1,3: intros [= <-]; by apply HasPrefix_spec in E.
  - done.
  - destruct (Index b pat) as [j|]; [|done]. intros [= <-]. cbn [take drop app Nat.add]. f_equal. by apply IH.
Qed.

Lemma existsb_none {A} (f : A -> bool) l : existsb f l = false <-> Forall (fun x => f x = false) l.
Proof.
  induction l as [|x l IH]; cbn; [by split; intros; [constructor|]|]. rewrite orb_false_iff, Forall_cons, IH. done.
Qed.

Lemma ContainsAny_none s chars : ContainsAny s chars = false -> Forall (fun c => c ∉ chars) s.
Proof.
  intros E%existsb_none. eapply Forall_impl; [exact E|]. cbn. intros c Hc. by apply bool_decide_eq_false in Hc.
Qed.

Lemma parseHostEntry_sound raw e : parseHostEntry raw = inr e -> entry_ok e /\ entry_text raw e.
Proof.
  unfold parseHostEntry. destruct (entryScheme raw) as [|[scheme rest]] eqn:Es; [done|].
  case_bool_decide as Hr; [done|]. destruct (ContainsAny _ _) eqn:Ec; [done|]. cbn [orb].
  destruct (existsb _ _) eqn:Ep; [done|]. intros [= <-]. destruct (TrimSlash_spec rest) as (slash & Er & Hs).
  unfold entryScheme in Es. destruct (Index raw (str "://")) as [i|] eqn:Ei.
  - case_bool_decide as H1; [|case_bool_decide as H2; [|done]]; cbn [negb andb] in Es; injection Es as <- Edrop.
    all: assert (strings_ToLower (take i raw) ∈ [[]; http; https] /\ strings_ToLower (take i raw) <> []) as [??]
      by (rewrite ?H1, ?H2; split; [apply list_elem_of_In; cbn; tauto|done]).
    all: (split; [split; [done|done|by apply ContainsAny_none|by apply existsb_none]|]);
      exists (take i raw ++ str "://"), slash; cbn [he_host he_scheme];
      (split_and!; [|done|right; by exists (take i raw)]);
      rewrite <- app_assoc, <- Er, <- Edrop; exact (Index_spec _ _ _ Ei).
  - injection Es as <- <-. split; [split; [left|done|by apply ContainsAny_none|by apply existsb_none]|].
    exists [], slash. split_and!; [done|done|by left].
Qed.

Lemma parseHosts_sound raws es :
  parseHosts raws = inr es -> Forall2 (fun raw e => entry_ok e /\ entry_text raw e) raws es.
Proof.
  revert es. induction raws as [|raw raws IH]; cbn [parseHosts]; intros es.
  - intros [= <-]. constructor.
  - destruct (parseHostEntry raw) as [|e] eqn:E; [done|]. destruct (parseHosts raws) as [|es']; [done|].
    intros [= <-]. constructor; [by apply parseHostEntry_sound|by apply IH].
Qed.

Lemma parseHosts_error raws err :
  parseHosts raws = inl err -> exists raw m, raw ∈ raws /\ parseHostEntry raw = inl (invalid m) /\ err = invalid m.
Proof.
  induction raws as [|raw raws IH]; cbn [parseHosts]; [done|]. destruct (parseHostEntry raw) as [e|] eqn:E.
  - intros [= <-]. assert (exists m, e = invalid m) as [m ->].
    { unfold parseHostEntry, entryScheme in E.
      repeat match type of E with
        | context [match Index ?a ?b with _ => _ end] => destruct (Index a b)
        | context [if ?b then _ else _] => destruct b end; simplify_eq; eauto. }
    exists raw, m. split; [left|done].
  - destruct (parseHosts raws); [|done]. intros [= <-]. destruct (IH eq_refl) as (r & m & ? & ? & ?).
    exists r, m. split; [by right|done].
Qed.

(** A transport carries its options: the entries in order, each the parse of
    one the caller wrote. *)
Definition configured (t : Transport) (opts : list Option) : Prop :=
  let c := applyOptions opts in
  t_base t = c_base c /\ t_anyHost t = c_anyHost c /\ t_insecure t = c_insecure c /\
  Forall2 entry_text (c_hosts c) (t_hosts t).

(** Why options are refused. *)
Definition refused_config (token : SecureBuffer) (opts : list Option) (e : gerr) : Prop :=
  let c := applyOptions opts in
  e = ErrNoToken /\ token = NilRecv \/
  e = ErrNoHosts /\ c_hosts c = [] /\ c_anyHost c = false \/
  (exists m, e = invalid m) /\
    (c_hosts c <> [] /\ c_anyHost c = true \/ exists raw m, raw ∈ c_hosts c /\ parseHostEntry raw = inl (invalid m)).

Lemma build_spec t0 token opts :
  validFieldName (t_header t0) = true -> Forall (fun c => c <> 13 /\ c <> 10 /\ c <> 0) (t_prefix t0) -> 58 ∉ t_basicUser t0 ->
  match build t0 token opts with
  | inr t => transport_ok t /\ t_token t = token /\ t_basic t = t_basic t0 /\ t_header t = t_header t0 /\
             t_prefix t = t_prefix t0 /\ t_basicUser t = t_basicUser t0 /\ configured t opts
  | inl e => refused_config token opts e
  end.
Proof.
  intros Hh Hp Hu. unfold build, configured, refused_config. assert (token = NilRecv \/ token <> NilRecv) as [->|Hn] by (destruct token; [by left|by right..]); [by left|].
  assert (forall (x : gerr + Transport), match token with NilRecv => inl ErrNoToken | _ => x end = x) as -> by (intros; by destruct token).
  set (c := applyOptions opts). case_bool_decide as Hc; cbn [negb andb]; destruct (c_anyHost c) eqn:Ea; cbn [negb andb].
  - rewrite Hc. cbn [parseHosts]. by split_and!.
  - right; left. done.
  - right; right. split; [eauto|]. by left.
  - destruct (parseHosts (c_hosts c)) as [e|es] eqn:E.
    + destruct (parseHosts_error _ _ E) as (raw & m & ? & ? & ->). right; right. split; [eauto|]. right. eauto.
    + pose proof (parseHosts_sound _ _ E) as F. split_and!; cbn; try done.
      * constructor; cbn; try done; [split; [|done]; intros ->; by inversion F; subst; congruence|].
        clear -F. induction F as [|? ? ? ? [? ?]]; by constructor.
      * eapply Forall2_impl; [exact F|]. by intros ?? [].
Qed.

Lemma Index_absent (b : list Z) c : Contains b [c] = false -> c ∉ b.
Proof.
  unfold Contains. intros H1%bool_decide_eq_false Hin. apply H1. destruct (split_first b c Hin) as (pre & post & -> & Hp).
  rewrite Index_skip by done. by eexists.
Qed.

Lemma prefix_clean prefix :
  ContainsAny prefix [13; 10; 0] = false -> Forall (fun c => c <> 13 /\ c <> 10 /\ c <> 0) prefix.
Proof.
  intros Hp%ContainsAny_none. eapply Forall_impl; [exact Hp|]. intros c Hc. rewrite !not_elem_of_cons in Hc. tauto.
Qed.

(** C18. A transport exists only in a state that cannot leak by accident:
    whatever options the constructors are given, the transport they return has
    a token, a valid header name, a prefix without CR, LF or NUL, a user name
    without a colon, and either the any-host flag or at least one entry, each
    entry being a host without path, query, fragment, user info or space, under
    no scheme, http or https, read off the text the caller wrote. Every other
    argument gives the error that names what is wrong with it. *)
Theorem constructors_exact token opts header prefix user :
  let name := if bool_decide (header = []) then defaultHeader else header in
  match NewHeader header prefix token opts with
  | inr t => transport_ok t /\ t_token t = token /\ t_basic t = false /\ t_header t = name /\
             t_prefix t = prefix /\ configured t opts
  | inl e => (exists m, e = invalid m) /\ (validFieldName name = false \/ ContainsAny prefix [13; 10; 0] = true) \/
             validFieldName name = true /\ ContainsAny prefix [13; 10; 0] = false /\ refused_config token opts e
  end /\
  match NewBasic user token opts with
  | inr t => transport_ok t /\ t_token t = token /\ t_basic t = true /\ t_header t = defaultHeader /\
             t_basicUser t = user /\ configured t opts
  | inl e => e = ErrBasicUsername /\ 58 ∈ user \/ 58 ∉ user /\ refused_config token opts e
  end.
Proof.
  intros name. split.
  - unfold NewHeader. fold name. destruct (validFieldName name) eqn:Hn; cbn [negb]; [|left; eauto].
    destruct (ContainsAny _ _) eqn:Hp; [left; eauto|].
    pose proof (build_spec (MkTransport None name prefix NilRecv [] false false false []) token opts Hn
      (prefix_clean _ Hp) ltac:(apply not_elem_of_nil)) as B.
    destruct (build _ _ _); [by right|]. cbn in B. tauto.
  - unfold NewBasic. destruct (Contains user (str ":")) eqn:Hu.
    + left. split; [done|]. destruct (decide (58 ∈ user)) as [|Hn]; [done|]. unfold Contains in Hu.
      change (str ":") with [58] in Hu. pose proof (IndexByte_none user 58 Hn) as E. unfold IndexByte in E. by rewrite E in Hu.
    + pose proof (Index_absent user 58 Hu) as Hc.
      pose proof (build_spec (MkTransport None defaultHeader [] NilRecv [] false false true user) token opts eq_refl
        ltac:(constructor) Hc) as B.
      destruct (build _ _ _); [by right|]. cbn in B. tauto.
Qed.

(** ** What the filter admits *)

Definition requestScheme (r : Request) : list Z :=
  match r_URL r with Some u => strings_ToLower (u_Scheme u) | None => [] end.

(** The request's host is one the credential is meant for. *)
Definition listed (t : Transport) (r : Request) : Prop :=
  t_anyHost t = true \/
  exists u e, r_URL r = Some u /\ e ∈ t_hosts t /\ strings_EqualFold (u_Host u) (he_host e) = true.

(** The credential may go with it: over https or with the opt-in, or under an
    entry that names the request's scheme. *)
Definition admits (t : Transport) (r : Request) : Prop :=
  let secure := requestScheme r = https \/ t_insecure t = true in
  if t_anyHost t then secure
  else exists u e, r_URL r = Some u /\ e ∈ t_hosts t /\ strings_EqualFold (u_Host u) (he_host e) = true /\
       (he_scheme e = [] /\ secure \/ he_scheme e <> [] /\ he_scheme e = requestScheme r).

Definition entry_admits (scheme host : list Z) (insecure : bool) (e : hostEntry) : Prop :=
  strings_EqualFold host (he_host e) = true /\
  (he_scheme e = [] /\ (scheme = https \/ insecure = true) \/ he_scheme e <> [] /\ he_scheme e = scheme).

Lemma decide_hosts_spec scheme host insecure hosts matched :
  match decide_hosts scheme host insecure hosts matched with
  | inject => exists e, e ∈ hosts /\ entry_admits scheme host insecure e
  | refuse => (matched = true \/ exists e, e ∈ hosts /\ strings_EqualFold host (he_host e) = true) /\
              forall e, e ∈ hosts -> ~ entry_admits scheme host insecure e
  | forward => matched = false /\ forall e, e ∈ hosts -> strings_EqualFold host (he_host e) = false
  end.
Proof.
  revert matched. induction hosts as [|e hosts IH]; intros matched; cbn [decide_hosts].
  { destruct matched; split; try done; try (by left); by intros e ?%elem_of_nil. }
  destruct (strings_EqualFold host (he_host e)) eqn:Ef; cbn [negb].
  - assert (~ entry_admits scheme host insecure e ->
      match decide_hosts scheme host insecure hosts true with
      | inject => exists e', e' ∈ e :: hosts /\ entry_admits scheme host insecure e'
      | refuse => (matched = true \/ exists e', e' ∈ e :: hosts /\ strings_EqualFold host (he_host e') = true) /\
                  forall e', e' ∈ e :: hosts -> ~ entry_admits scheme host insecure e'
      | forward => matched = false /\ forall e', e' ∈ e :: hosts -> strings_EqualFold host (he_host e') = false
      end) as Hnext.
    { intros Hna. specialize (IH true). destruct (decide_hosts _ _ _ _ _); [|by destruct IH|].
      - destruct IH as (e' & ? & ?). exists e'. split; [by right|done].
      - destruct IH as [_ IH]. split; [right; exists e; split; [left|done]|]. by intros e' [->|]%elem_of_cons; [|apply IH]. }
    unfold entry_admits in *. case_bool_decide as H1; [destruct (_ || _) eqn:Eo|case_bool_decide as H2].
    + exists e. split; [left|]. apply orb_true_iff in Eo. rewrite bool_decide_eq_true in Eo. tauto.
    + apply Hnext. apply orb_false_iff in Eo as [Eo1%bool_decide_eq_false Eo2]. intros [_ [[_ [?|?]]|[? _]]]; congruence.
    + exists e. split; [left|]. tauto.
    + apply Hnext. tauto.
  - specialize (IH matched). destruct (decide_hosts _ _ _ _ _).
    + destruct IH as (e' & ? & ?). exists e'. split; [by right|done].
    + destruct IH as [? IH]. split; [done|]. by intros e' [->|]%elem_of_cons; [|apply IH].
    + destruct IH as [[?|(e' & ? & ?)] IH]; (split; [|intros x [->|]%elem_of_cons; [intros [? _]; congruence|by apply IH]]);
        [by left|right; exists e'; split; [by right|done]].
Qed.

Lemma decide_spec t r :
  match decide_req t r with
  | inject => admits t r
  | forward => ~ listed t r
  | refuse => listed t r /\ ~ admits t r
  end.
Proof.
  unfold decide_req, admits, listed, requestScheme. destruct (t_anyHost t); [|destruct (r_URL r) as [u|]].
  - destruct (_ || _) eqn:E.
    + apply orb_true_iff in E. by rewrite bool_decide_eq_true in E.
    + apply orb_false_iff in E as [E1%bool_decide_eq_false E2]. split; [by left|]. intros [?|?]; congruence.
  - pose proof (decide_hosts_spec (strings_ToLower (u_Scheme u)) (u_Host u) (t_insecure t) (t_hosts t) false) as D.
    destruct (decide_hosts _ _ _ _ _).
    + destruct D as (e & ? & ? & ?). by exists u, e.
    + destruct D as [_ D]. intros [?|(u' & e & [= <-] & He & Ef)]; [done|]. rewrite (D e He) in Ef. done.
    + destruct D as [[?|(e & ? & ?)] D]; [done|]. split; [right; by exists u, e|].
      intros (u' & e' & [= <-] & He & Ef & Hs). by apply (D e' He).
  - intros [?|(u & e & ? & _)]; done.
Qed.
End constructors.

(** ** The round trip *)

Section round.
Context `{K : Kernel} {KOk : KernelOk} `{Unicode}.
Variable roundTripper : option Z -> Z -> HM (option Z * option gerr).
Implicit Types (w : world) (st : bufferState) (s : net).

Lemma wp_core {A} (m : GM A) (Q : A -> net -> Prop) R s :
  wp m (fun a w => Q a (net_world w s)) (fun w => R (net_world w s)) (n_world s) -> wp (core m) Q R s.
Proof. unfold wp, core. by destruct (m (n_world s)). Qed.

Lemma wp_deref {A} (heap : net -> gmap Z A) p a (Q : A -> net -> Prop) R s :
  heap s !! p = Some a -> Q a s -> wp (deref heap p) Q R s.
Proof. unfold wp, deref. by intros ->. Qed.

Lemma wp_fresh (Q : Z -> net -> Prop) R s :
  Q (n_next s) (net_next (n_next s + 1) s) -> wp fresh Q R s.
Proof. done. Qed.

(** Every pointer in use is older than the next one. *)
Record net_ok s : Prop := NetOk {
  no_reqs : forall p r, n_reqs s !! p = Some r -> p < n_next s;
  no_headers : forall p h, n_headers s !! p = Some h -> p < n_next s;
  no_heap : forall p b, n_heap s !! p = Some b -> p < n_next s;
  no_header : forall p r h, n_reqs s !! p = Some r -> r_Header r = Some h -> is_Some (n_headers s !! h)
}.

(** The token after the read: untouched, or open and holding what it held. *)
Definition token_kept w p st w' : Prop :=
  w' = w \/ exists n c, holds w p st n c /\ settled w p st n c w'.

(** What reading a token measured as [n] bytes can end with. *)
Definition read_outcome w p st wd n (err : option gerr) (got : list Z) : Prop :=
  match refusal st wd, err with
  | Some sn, _ => err = Some (errorf "httpauth: reading token" (Sent sn))
  | None, Some e =>
      exists n2 c, holds w p st n2 c /\
        (bs_closedAtRest st = true \/
         n = 0 /\ e = Msg "httpauth: token is empty" \/
         0 < n /\ n2 < n /\
           (e = errorf "httpauth: reading token" (Msg "secmem.SecureBuffer.CopyOut: srcOffset out of range") \/
            e = Msg "httpauth: token changed length during read"))
  | None, None => 0 < n /\ exists n2 c, holds w p st n2 c /\ n <= n2 /\ got = lsub 0 n c
  end.

Lemma zlen_drop {A} k (l : list A) : 0 <= k <= zlen l -> zlen (drop (Z.to_nat k) l) = zlen l - k.
Proof. unfold zlen. rewrite length_drop. lia. Qed.

Lemma holds_room w p st n c : holds w p st n c -> 0 <= n <= zlen c.
Proof.
  intros [_ (m & L & <-)]. pose proof (lv_len _ _ _ _ _ _ _ L).
  pose proof (md_len _ _ _ (bc_map _ _ _ _ (lv_core _ _ _ _ _ _ _ L))). lia.
Qed.

Lemma refusal_reported sn st wd :
  refusal st wd = Some sn -> is_err (Some (Sent sn)) ErrDestroyed || is_err (Some (Sent sn)) ErrSealed = true.
Proof. unfold refusal. destruct (bs_data st), wd, (bs_sealed st); by intros [= <-]. Qed.

Lemma wp_copyToken t p st c wd buf b off n s (Q : option gerr -> net -> Prop) :
  t_token t = Ref p -> world_ok (n_world s) -> buf_ok (n_world s) p st c wd ->
  n_heap s !! buf = Some b -> 0 <= off -> 0 <= n -> zlen b = off + n ->
  (forall err got w', zlen got = n -> token_kept (n_world s) p st w' -> read_outcome (n_world s) p st wd n err got ->
     Q err (net_heap (insert buf (take (Z.to_nat off) b ++ got)) (net_world w' s))) ->
  wp (copyToken t buf off n) Q (fun _ => False) s.
Proof.
  intros Et W B Hb Ho Hn Hl HQ. unfold copyToken. apply wp_bind. eapply wp_deref; [exact Hb|].
  pose proof (zlen_drop off b ltac:(lia)) as Hd. set (dst := drop (Z.to_nat off) b) in *. rewrite Et.
  apply wp_bind, wp_core. eapply wp_returns; [apply (returns_CopyOut p st c wd dst 0 _ W B)|]. cbn beta.
  intros [[got err] dst'] w' Ha. apply wp_bind, wp_modify. unfold accessed in Ha.
  destruct (refusal st wd) as [sn|] eqn:Er.
  - destruct Ha as [[= -> -> ->] ->].
    assert (forall x : HM (option gerr), x = mret (Some (errorf "httpauth: reading token" (Sent sn))) ->
      wp x Q (fun _ => False) (net_heap (insert buf (take (Z.to_nat off) b ++ dst)) (net_world (n_world s) s))) as Hx.
    { intros x ->. apply wp_ret, HQ; [lia|by left|]. unfold read_outcome. by rewrite Er. }
    destruct (n =? 0); apply Hx; [|done]. by rewrite (refusal_reported _ _ _ Er).
  - destruct Ha as (n2 & bs & Hh & Ha). replace (0 <? 0) with false in Ha by done. cbn [orb] in Ha. unfold read_outcome in HQ. rewrite Er in HQ.
    pose proof Hh as [_ (m & L & _)]. pose proof (lv_len _ _ _ _ _ _ _ L) as Hn2.
    destruct (Z.leb_spec n2 0).
    { destruct Ha as [[= -> -> ->] ->]. cbn [is_err errorsIs orb fmap option_fmap option_map].
      destruct (Z.eqb_spec n 0); (apply wp_ret, HQ; [lia|by left|]); exists n2, bs; (split; [done|]); right; [by left|right].
      split; [lia|]. split; [lia|by left]. }
    cbv zeta in Ha. destruct Ha as (Hres & Hset & Hopen). cbn [fst snd] in *.
    assert (token_kept (n_world s) p st w') as Hk by (right; eauto).
    set (k := Z.min (zlen dst) (n2 - 0)) in *. rewrite Z.add_0_l in Hres, Hopen.
    assert (0 <= k <= n2 /\ (k = n \/ k = n2 /\ n2 < n)) as (? & Hkn) by (unfold k; lia).
    assert (zlen (lsub 0 k bs) = k) as Hzk by (pose proof (holds_room _ _ _ _ _ Hh); rewrite zlen_lsub; lia).
    assert (zlen dst' = n) as Hz.
    { destruct Hres as [[= -> ->]|[_ [= -> ->]]]; [rewrite zlen_lset; lia|lia]. }
    assert (forall e, err = Some e -> bs_closedAtRest st = true) as Hcl.
    { intros e ->. destruct (bs_closedAtRest st); [done|]. by destruct (Hopen eq_refl) as [[=] _]. }
    destruct (Z.eqb_spec n 0) as [->|Hn0].
    + destruct err as [e|]; [destruct (_ || _)|]; (apply wp_ret, HQ; [done|done|]; exists n2, bs; split; [done|]);
        [left; by eapply Hcl..|right; by left].
    + destruct err as [e|]; [apply wp_ret, HQ; [done|done|]; exists n2, bs; split; [done|]; left; by eapply Hcl|].
      destruct Hres as [[= -> ->]|[? _]]; [|done]. destruct (Z.eqb_spec k n) as [Ekn|Hne]; cbn [negb]; (apply wp_ret, HQ; [done|done|]).
      * split; [lia|]. exists n2, bs. split; [done|]. split; [lia|]. rewrite Ekn in Hzk |- *. apply lset_full. clear - Hzk Hd Hl. unfold zlen in *. lia.
      * exists n2, bs. split; [done|]. right; right. split; [lia|]. split; [lia|by right].
Qed.
End round.

(** ** The value *)

(** The header value for a token. *)
Definition credential (t : Transport) (token : list Z) : list Z :=
  if t_basic t then basicPrefix ++ Encode (t_basicUser t ++ [58] ++ token) else t_prefix t ++ token.

Lemma put_front (src : list Z) n : 0 <= n -> copy_at 0 src (zeros (zlen src + n)) = src ++ zeros n.
Proof.
  intros Hn. pose proof (copy_at_app [] (zeros (zlen src + n)) src) as E. cbn [app] in E. change (zlen []) with 0 in E.
  rewrite E by (rewrite zlen_zeros; pose proof (zlen_nonneg src); lia). f_equal.
  rewrite drop_zeros by (unfold zlen; lia). f_equal. unfold zlen. lia.
Qed.

Lemma drop_all_zeros (l : list Z) n : zlen l = n -> drop (length l) (zeros n) = [].
Proof. intros <-. rewrite drop_zeros by (unfold zlen; lia). unfold zlen. by rewrite Z.sub_diag. Qed.

(** What building a value leaves behind: no object that was there has changed,
    and every slice made since is zero. *)
Record scratched (s s' : net) : Prop := Scratched {
  sc_reqs : n_reqs s' = n_reqs s;
  sc_headers : n_headers s' = n_headers s;
  sc_resps : n_resps s' = n_resps s;
  sc_closed : n_closed s' = n_closed s;
  sc_next : n_next s <= n_next s';
  sc_old : forall a, a < n_next s -> n_heap s' !! a = n_heap s !! a;
  sc_new : forall a b, n_next s <= a -> n_heap s' !! a = Some b -> all_zero b
}.

Section value.
Context `{K : Kernel} {KOk : KernelOk}.
Implicit Types (w : world) (st : bufferState) (s : net).

Definition valued (t : Transport) w p st wd n (r : list Z * option gerr) : Prop :=
  exists got, read_outcome w p st wd n r.2 got /\ (r.2 = None -> r.1 = credential t got /\ zlen got = n).

Lemma wp_scratch n s (Q : Z -> net -> Prop) R :
  Q (n_next s) (net_heap (insert (n_next s) (zeros n)) (net_next (n_next s + 1) s)) -> wp (make_bytes n) Q R s.
Proof. done. Qed.

Lemma data_nonneg w p st c wd : buf_ok w p st c wd -> 0 <= default 0 (bs_data st).
Proof.
  intros B. destruct (bs_data st) as [n|] eqn:E; [|done]. destruct (bo_live _ _ _ _ _ B n E) as [m L].
  exact (proj1 (lv_len _ _ _ _ _ _ _ L)).
Qed.

Lemma wp_headerValue others t p st c wd st2 c2 wd2 w2 s (Q : list Z * option gerr -> net -> Prop) :
  t_token t = Ref p -> t_basic t = false -> (forall a b, n_heap s !! a = Some b -> a < n_next s) ->
  buf_ok (n_world s) p st c wd -> others (n_world s) = Ret tt w2 -> world_ok w2 -> buf_ok w2 p st2 c2 wd2 ->
  (forall r s', scratched s s' -> token_kept w2 p st2 (n_world s') ->
     valued t w2 p st2 wd2 (default 0 (bs_data st)) r -> Q r s') ->
  wp (headerValue others t) Q (fun _ => False) s.
Proof.
  intros Et Eb Hheap B Ho W2 B2 HQ. unfold headerValue. pose proof (data_nonneg _ _ _ _ _ B) as Hn.
  apply wp_bind, wp_core. rewrite Et. eapply wp_Len; [exact B|]. set (n := default 0 (bs_data st)) in *.
  apply wp_bind, wp_core. unfold wp at 1. cbn [n_world net_world]. rewrite Ho.
  apply wp_bind, wp_scratch. apply wp_defer. apply wp_bind, wp_modify. apply wp_bind.
  eapply (wp_copyToken t p st2 c2 wd2 _ (t_prefix t ++ zeros n)); [done|exact W2|exact B2| |apply zlen_nonneg|exact Hn|by rewrite zlen_app, zlen_zeros|].
  { cbn [n_heap net_heap net_next net_world n_next]. rewrite lookup_alter_eq, lookup_insert_eq. cbn. by rewrite put_front. }
  intros err got w' Hz Hk Hr.
  assert (forall r, r.2 = err -> (err = None -> r.1 = t_prefix t ++ got) ->
    wp (mret r) (fun a s' => wp (SecureWipe (n_next s)) (fun _ => Q a) (fun _ => False) s') (fun _ => False)
      (net_heap (insert (n_next s) (take (Z.to_nat (zlen (t_prefix t))) (t_prefix t ++ zeros n) ++ got))
         (net_world w' (net_heap (alter (copy_at 0 (t_prefix t)) (n_next s))
            (net_heap (insert (n_next s) (zeros (zlen (t_prefix t) + n))) (net_next (n_next s + 1) (net_world w2 (net_world (n_world s) s)))))))) as Hend.
  { intros r Er Ev. apply wp_ret. apply wp_modify, HQ.
    - split; cbn; try done; [lia| |].
      + intros a Ha. rewrite lookup_alter_ne, lookup_insert_ne, lookup_alter_ne, lookup_insert_ne by lia. done.
      + intros a b Ha Hb. destruct (decide (a = n_next s)) as [->|Hne].
        * rewrite lookup_alter_eq, lookup_insert_eq in Hb. cbn in Hb. injection Hb as <-. apply all_zero_zeros.
        * rewrite lookup_alter_ne, lookup_insert_ne, lookup_alter_ne, lookup_insert_ne in Hb by congruence. apply Hheap in Hb. lia.
    - exact Hk.
    - exists got. rewrite Er. split; [exact Hr|]. intros E. split; [|exact Hz]. unfold credential. rewrite Eb. by apply Ev. }
  destruct err as [e|]; [by apply Hend|].
  apply wp_bind. eapply wp_deref; [cbn; apply lookup_insert_eq|]. apply Hend; [done|]. intros _. cbn [fst].
  unfold zlen. rewrite Nat2Z.id, take_app_length. done.
Qed.

Lemma wp_basicValue others t p st c wd st2 c2 wd2 w2 s (Q : list Z * option gerr -> net -> Prop) :
  t_token t = Ref p -> t_basic t = true -> (forall a b, n_heap s !! a = Some b -> a < n_next s) ->
  buf_ok (n_world s) p st c wd -> others (n_world s) = Ret tt w2 -> world_ok w2 -> buf_ok w2 p st2 c2 wd2 ->
  (forall r s', scratched s s' -> token_kept w2 p st2 (n_world s') ->
     valued t w2 p st2 wd2 (default 0 (bs_data st)) r -> Q r s') ->
  wp (basicValue others t) Q (fun _ => False) s.
Proof.
  intros Et Eb Hheap B Ho W2 B2 HQ. unfold basicValue. pose proof (data_nonneg _ _ _ _ _ B) as Hn.
  apply wp_bind, wp_core. rewrite Et. eapply wp_Len; [exact B|]. set (n := default 0 (bs_data st)) in *.
  apply wp_bind, wp_core. unfold wp at 1. cbn [n_world net_world]. rewrite Ho. set (user := t_basicUser t) in *.
  assert (zlen (user ++ [58]) = zlen user + 1) as Hlen by by rewrite zlen_app.
  apply wp_bind, wp_scratch. apply wp_defer. apply wp_bind, wp_modify. apply wp_bind, wp_modify. apply wp_bind.
  eapply (wp_copyToken t p st2 c2 wd2 _ ((user ++ [58]) ++ zeros n)); [done|exact W2|exact B2| |rewrite <- Hlen; apply zlen_nonneg|exact Hn
    |by rewrite zlen_app, zlen_zeros, Hlen|].
  { cbn [n_heap net_heap net_next net_world n_next]. rewrite !lookup_alter_eq, lookup_insert_eq. cbn. f_equal.
    rewrite <- Z.add_assoc, put_front by lia. rewrite copy_at_app by (rewrite zlen_zeros by lia; change (zlen [58]) with 1; lia).
    rewrite drop_zeros by (cbn; lia). rewrite <- app_assoc. do 3 f_equal. cbn. lia. }
  intros err got w' Hz Hk Hr. set (s1 := net_heap _ (net_world w' _)).
  assert (Hs1 : n_next s1 = n_next s + 1 /\ n_heap s1 !! n_next s = Some ((user ++ [58]) ++ got) /\
    (forall a, a <> n_next s -> n_heap s1 !! a = n_heap s !! a) /\
    n_reqs s1 = n_reqs s /\ n_headers s1 = n_headers s /\ n_resps s1 = n_resps s /\ n_closed s1 = n_closed s /\ n_world s1 = w').
  { unfold s1. cbn. split_and!; try done.
    - rewrite lookup_insert_eq. f_equal. f_equal. rewrite <- Hlen. unfold zlen. rewrite Nat2Z.id. by rewrite take_app_length.
    - intros a Ha. by rewrite lookup_insert_ne, !lookup_alter_ne, lookup_insert_ne by congruence. }
  clearbody s1. destruct Hs1 as (Hnx & Hraw & Hold & E1 & E2 & E3 & E4 & Ew). destruct err as [e|].
  - apply wp_ret, wp_modify, HQ; [|cbn; by rewrite Ew|by exists got].
    split; cbn; try done; [lia|intros a Ha; rewrite lookup_alter_ne by lia; apply Hold; lia|].
    intros a b Ha Hb. destruct (decide (a = n_next s)) as [->|Hne].
    + rewrite lookup_alter_eq, Hraw in Hb. injection Hb as <-. apply all_zero_zeros.
    + rewrite lookup_alter_ne, Hold in Hb by congruence. apply Hheap in Hb. lia.
  - apply wp_bind. eapply wp_deref; [exact Hraw|]. apply wp_bind, wp_scratch. apply wp_defer.
    apply wp_bind, wp_modify. apply wp_bind, wp_modify. apply wp_bind.
    eapply wp_deref; [cbn; by rewrite !lookup_alter_eq, lookup_insert_eq|]. apply wp_ret, wp_modify, wp_modify, HQ.
    + split; cbn; try done; [lia|intros a Ha; rewrite !lookup_alter_ne, lookup_insert_ne by lia; apply Hold; lia|].
      intros a b Ha Hb. rewrite Hnx in *. destruct (decide (a = n_next s)) as [->|Hne].
      * rewrite lookup_alter_eq, !lookup_alter_ne, lookup_insert_ne, Hraw in Hb by lia. injection Hb as <-. apply all_zero_zeros.
      * destruct (decide (a = n_next s + 1)) as [->|Hne2].
        -- rewrite lookup_alter_ne, !lookup_alter_eq, lookup_insert_eq in Hb by lia. injection Hb as <-. apply all_zero_zeros.
        -- rewrite !lookup_alter_ne, lookup_insert_ne, Hold in Hb by congruence. apply Hheap in Hb. lia.
    + cbn. by rewrite Ew.
    + exists got. split; [done|]. intros _. split; [|done]. cbn [fst]. unfold credential. rewrite Eb. fold user.
      rewrite put_front by (unfold EncodedLen; pose proof (zlen_nonneg ((user ++ [58]) ++ got)); apply Z.mul_nonneg_nonneg; [apply Z.div_pos|]; lia).
      rewrite <- app_assoc in *. rewrite <- zlen_Encode. rewrite copy_at_app by (rewrite zlen_zeros by apply zlen_nonneg; lia).
      rewrite drop_all_zeros by done. by rewrite app_nil_r.
Qed.
End value.

(** ** The whole call *)

(** The objects the caller has pointers to are as they were, no response was
    touched, and no scratch slice holds anything. *)
Record untouched (s s' : net) : Prop := Untouched {
  un_reqs : forall a, a < n_next s -> n_reqs s' !! a = n_reqs s !! a;
  un_headers : forall a, a < n_next s -> n_headers s' !! a = n_headers s !! a;
  un_resps : n_resps s' = n_resps s;
  un_heap : forall a, a < n_next s -> n_heap s' !! a = n_heap s !! a;
  un_scratch : forall a b, n_next s <= a -> n_heap s' !! a = Some b -> all_zero b
}.

(** The bodies closed once the request is given up. *)
Definition closed_with (r : Request) (s : net) : list Z :=
  n_closed s ++ match r_Body r with Some b => [b] | None => [] end.

(** The caller's header fields. *)
Definition header_of (s : net) (r : Request) : Header :=
  default ∅ (r_Header r ≫= fun h => n_headers s !! h).

Section roundtrip.
Context `{K : Kernel} {KOk : KernelOk} `{Unicode}.
Implicit Types (w : world) (st : bufferState) (s : net).

(** The clone: a new request over a new header map with the caller's fields. *)
Lemma wp_clone s q r (Q : Z -> net -> Prop) R :
  net_ok s -> n_reqs s !! q = Some r ->
  (forall s' cl h, n_next s <= cl < n_next s' -> n_next s <= h < n_next s' ->
     n_reqs s' = <[cl := MkRequest (r_URL r) (Some h) (r_Body r) (r_rest r)]> (n_reqs s) ->
     n_headers s' = <[h := header_of s r]> (n_headers s) ->
     n_resps s' = n_resps s -> n_heap s' = n_heap s -> n_closed s' = n_closed s -> n_world s' = n_world s ->
     Q cl s') ->
  wp (cl ← Clone q; ensureHeader cl;; mret cl) Q R s.
Proof.
  intros O Hq HQ. apply wp_bind. unfold Clone. apply wp_bind. eapply wp_deref; [exact Hq|]. destruct (r_Header r) as [h0|] eqn:Eh.
  - destruct (no_header s O q r h0 Hq Eh) as [m Hm]. apply wp_bind, wp_bind. eapply wp_deref; [exact Hm|].
    apply wp_bind, wp_fresh. apply wp_bind, wp_modify, wp_ret. apply wp_bind, wp_fresh. apply wp_bind, wp_modify, wp_ret.
    apply wp_bind. unfold ensureHeader. apply wp_bind. eapply wp_deref; [cbn; apply lookup_insert_eq|]. cbn [r_Header]. apply wp_ret, wp_ret.
    apply (HQ _ _ (n_next s)); cbn; try done; [lia..|]. unfold header_of. rewrite Eh. cbn. by rewrite Hm.
  - apply wp_bind, wp_ret. apply wp_bind, wp_fresh. apply wp_bind, wp_modify, wp_ret.
    apply wp_bind. unfold ensureHeader. apply wp_bind. eapply wp_deref; [cbn; apply lookup_insert_eq|]. cbn [r_Header].
    apply wp_bind, wp_fresh. apply wp_bind, wp_modify, wp_modify, wp_ret.
    apply (HQ _ _ (n_next s + 1)); cbn; try done; [lia..| |].
    + by rewrite insert_insert_eq.
    + unfold header_of. by rewrite Eh.
Qed.

Lemma wp_value others t p st c wd st2 c2 wd2 w2 s (Q : list Z * option gerr -> net -> Prop) :
  t_token t = Ref p -> (forall a b, n_heap s !! a = Some b -> a < n_next s) ->
  buf_ok (n_world s) p st c wd -> others (n_world s) = Ret tt w2 -> world_ok w2 -> buf_ok w2 p st2 c2 wd2 ->
  (forall r s', scratched s s' -> token_kept w2 p st2 (n_world s') ->
     valued t w2 p st2 wd2 (default 0 (bs_data st)) r -> Q r s') ->
  wp (if t_basic t then basicValue others t else headerValue others t) Q (fun _ => False) s.
Proof. intros. destruct (t_basic t) eqn:Eb; [by eapply wp_basicValue|by eapply wp_headerValue]. Qed.

(** Runs and binds. *)
Lemma bind_run {St A B} (m : M St A) (k : A -> M St B) (s : St) a (s' : St) : m s = Ret a s' -> (m ≫= k) s = k a s'.
Proof. unfold mbind, M_bind. by intros ->. Qed.

Lemma clone_run {A} q (k : Z -> HM A) s cl s' :
  (cl ← Clone q; ensureHeader cl;; mret cl) s = Ret cl s' -> (cl ← Clone q; ensureHeader cl;; k cl) s = k cl s'.
Proof.
  unfold mbind, M_bind. destruct (Clone q s) as [c s0| | |]; try done. destruct (ensureHeader c s0); try done.
  by intros [= -> ->].
Qed.

Lemma closeBody_run q r s : n_reqs s !! q = Some r ->
  exists s', closeBody (Some q) s = Ret tt s' /\ n_closed s' = closed_with r s /\ net_closed (fun _ => n_closed s) s' = s.
Proof.
  intros Hq. unfold closeBody, closed_with. rewrite (bind_run _ _ s r s); [|unfold deref; by rewrite Hq].
  destruct (r_Body r); (eexists; split; [reflexivity|]); cbn; (split; [by rewrite ?app_nil_r|by destruct s]).
Qed.

(** C28. [RoundTrip] on a transport with a token, for any base transport, any
    state of the token and anything other goroutines do to it in between.
    A request for a host nobody listed goes to the base transport as it is,
    and the token is not read. A listed host over a scheme nothing admits is
    refused and its body closed. Otherwise the base transport is called with a
    clone that differs from the caller's request in one header, which holds
    the prefix and the whole token (or the RFC 7617 encoding), the caller's
    request and header fields are as they were, every scratch slice is zero,
    and the response is pointed back at the caller's request; or the token
    could not be read in full, the call fails with the reason, the base
    transport is not called and the body is closed. *)
Theorem round_trip_exact roundTripper others t q r p st c wd st2 c2 wd2 w2 s :
  net_ok s -> t_token t = Ref p -> n_reqs s !! q = Some r ->
  buf_ok (n_world s) p st c wd -> others (n_world s) = Ret tt w2 -> world_ok w2 -> buf_ok w2 p st2 c2 wd2 ->
  let run := RoundTrip roundTripper others (Some t) (Some q) s in
  let n := default 0 (bs_data st) in
  ~ listed t r /\ run = roundTripper (t_base t) q s \/
  listed t r /\ ~ admits t r /\
    (exists s', run = Ret (None, Some ErrInsecureScheme) s' /\ n_closed s' = closed_with r s /\
       net_closed (fun _ => n_closed s) s' = s) \/
  admits t r /\
    ((exists e s' got, run = Ret (None, Some e) s' /\ n_closed s' = closed_with r s /\ untouched s s' /\
        token_kept w2 p st2 (n_world s') /\ read_outcome w2 p st2 wd2 n (Some e) got) \/
     (exists s1 cl h token, run = (roundTripper (t_base t) cl ≫= returnResponse q) s1 /\
        n_next s <= cl /\ n_next s <= h /\
        n_reqs s1 !! cl = Some (MkRequest (r_URL r) (Some h) (r_Body r) (r_rest r)) /\
        n_headers s1 !! h = Some (<[CanonicalMIMEHeaderKey (t_header t) := [credential t token]]> (header_of s r)) /\
        n_closed s1 = n_closed s /\ untouched s s1 /\
        token_kept w2 p st2 (n_world s1) /\ read_outcome w2 p st2 wd2 n None token /\ zlen token = n)).
Proof.
  intros O Et Hq B Ho W2 B2 run n. subst run. unfold RoundTrip. rewrite Et. rewrite (bind_run _ _ s r s); [|unfold deref; by rewrite Hq].
  pose proof (decide_spec t r) as D. destruct (decide_req t r); [right; right|by left|right; left].
  2: { destruct D as [? ?]. destruct (closeBody_run q r s Hq) as (s' & E & ? & ?). do 2 (split; [done|]). exists s'.
       split; [by rewrite (bind_run _ _ _ _ _ E)|done]. }
  split; [done|]. unfold sendWithToken.
  destruct (returns_run (cl ← Clone q; ensureHeader cl;; mret cl) s (fun cl s' => exists h,
    (n_next s <= cl < n_next s' /\ n_next s <= h < n_next s') /\
    n_reqs s' = <[cl := MkRequest (r_URL r) (Some h) (r_Body r) (r_rest r)]> (n_reqs s) /\
    n_headers s' = <[h := header_of s r]> (n_headers s) /\
    n_resps s' = n_resps s /\ n_heap s' = n_heap s /\ n_closed s' = n_closed s /\ n_world s' = n_world s)) as
    (cl & s0 & Erun & h & [Hcl Hh] & E1 & E2 & E3 & E4 & E5 & E6).
  { apply (wp_clone s q r); [done|done|]. intros. by exists h. }
  rewrite (clone_run _ _ _ _ _ Erun). clear Erun.
  destruct (returns_run (if t_basic t then basicValue others t else headerValue others t) s0 (fun v s' =>
    scratched s0 s' /\ token_kept w2 p st2 (n_world s') /\ valued t w2 p st2 wd2 n v)) as
    ([value err] & s1 & Erun & [F1 F2 F3 F4 F5 F6 F7] & Hk & token & Hr & Hv).
  { eapply (wp_value others t p st c wd st2 c2 wd2 w2); rewrite ?E6; try done.
    intros a b Hb. rewrite E4 in Hb. apply (no_heap s O) in Hb. lia. }
  rewrite (bind_run _ _ _ _ _ Erun). clear Erun. cbn [fst snd] in *.
  assert (untouched s s1) as Hun.
  { split; [intros a Ha; rewrite F1, E1, lookup_insert_ne by lia; done|intros a Ha; rewrite F2, E2, lookup_insert_ne by lia; done|
      congruence|intros a Ha; rewrite F6 by lia; by rewrite E4|].
    intros a b Ha Hb. destruct (decide (a < n_next s0)); [|apply (F7 a b); [lia|done]].
    rewrite F6, E4 in Hb by done. apply (no_heap s O) in Hb. lia. }
  assert (Hq1 : n_reqs s1 !! q = Some r) by (rewrite (un_reqs _ _ Hun); [done|by eapply no_reqs]).
  destruct err as [e|]; [left|right].
  - destruct (closeBody_run q r s1 Hq1) as (s2 & E & Ec & Es). exists e, s2, token. rewrite (bind_run _ _ _ _ _ E).
    assert (n_world s2 = n_world s1 /\ untouched s s2) as [Ew Hun2].
    { rewrite <- Es in Hun |- *. split; [done|]. by destruct Hun; split. }
    split_and!; [done| |done|by rewrite Ew|done]. rewrite Ec. unfold closed_with. congruence.
  - destruct (Hv eq_refl) as [-> Hz]. exists (net_headers (alter <[CanonicalMIMEHeaderKey (t_header t) := [credential t token]]> h) s1), cl, h, token.
    unfold Header_Set. split_and!; [| lia | lia | | | | |exact Hk|exact Hr|exact Hz].
    + unfold mbind at 1, M_bind at 1. rewrite (bind_run _ _ s1 (MkRequest (r_URL r) (Some h) (r_Body r) (r_rest r)) s1); [done|].
      unfold deref. by rewrite F1, E1, lookup_insert_eq.
    + cbn. by rewrite F1, E1, lookup_insert_eq.
    + cbn. by rewrite lookup_alter_eq, F2, E2, lookup_insert_eq.
    + cbn. congruence.
    + destruct Hun as [U1 U2 U3 U4 U5]. split; cbn; [exact U1| |exact U3|exact U4|exact U5].
      intros a Ha. rewrite lookup_alter_ne by lia. by apply U2.
Qed.
End roundtrip.

(** ** ForceHTTP1 *)

(** The copy speaks HTTP/1.1 and nothing else, and keeps the rest. *)
Lemma ForceHTTP1_exact def proxyOnly base :
  let t := ForceHTTP1 def proxyOnly base in
  ht_ForceAttemptHTTP2 t = false /\ ht_TLSNextProto t = Some ∅ /\ ht_Protocols t = Some (MkProtocols true false false) /\
  (forall l, ht_NextProtos t = Some l -> h2 ∉ l) /\
  (forall b, base = Some b -> ht_rest t = ht_rest b /\
     forall l p, ht_NextProtos b = Some l -> p ∈ l -> p <> h2 -> exists l', ht_NextProtos t = Some l' /\ p ∈ l').
Proof.
  unfold ForceHTTP1. cbn. split_and!; [done..| |].
  - intros l. destruct (ht_NextProtos _) as [[|p0 l0]|]; [|rewrite zlen_cons|done].
    + intros [= <-]. apply not_elem_of_nil.
    + destruct (Z.ltb_spec 0 (1 + zlen l0)); [|pose proof (zlen_nonneg l0); lia].
      intros [= <-] [? _]%list_elem_of_filter. done.
  - intros b ->. split; [done|]. intros l p -> Hp Hne. destruct (0 <? zlen l) eqn:E; (eexists; split; [done|]); [|done].
    by apply list_elem_of_filter.
Qed.

(** ** A concrete round trip *)

#[local] Existing Instance windows_kernel.
#[local] Existing Instance windows_kernel_ok.
#[local] Existing Instance ascii_unicode.

Definition sample_transport : Transport :=
  match NewBearer (Ref 4) [WithHosts [str "api.example.com"]] with
  | inr t => t
  | inl _ => MkTransport None [] [] NilRecv [] false false false []
  end.
Definition sample_request : Request :=
  MkRequest (Some (MkURL (str "https") (str "API.example.com") 0)) (Some 2) (Some 3) 0.
Definition sample_net : net := Net sample_open {[1 := sample_request]} {[2 := ∅]} ∅ ∅ [] 10.

(** A base transport that answers with response 99 for the request it got. *)
Definition sample_base : option Z -> Z -> HM (option Z * option gerr) := fun _ cl =>
  modify (net_resps (insert 99 (Some cl)));; mret (Some 99, None).

Definition sample_others : GM unit := mret tt.

Lemma sample_net_ok : net_ok sample_net.
Proof.
  split; cbn; intros p x.
  - intros [<- _]%lookup_singleton_Some. lia.
  - intros [<- _]%lookup_singleton_Some. lia.
  - by rewrite lookup_empty.
  - intros h [<- <-]%lookup_singleton_Some [= <-]. rewrite lookup_singleton_eq. eauto.
Qed.

Lemma round_trip_exact_witness :
  (exists s', RoundTrip sample_base sample_others (Some sample_transport) (Some 1) sample_net = Ret (Some 99, None) s' /\
    n_headers s' !! 10 = Some {[str "Authorization" := [str "Bearer " ++ [1; 2; 3; 4; 5]]]} /\
    n_headers s' !! 2 = Some ∅ /\ n_resps s' !! 99 = Some (Some 1) /\ n_heap s' !! 12 = Some (zeros 12)) /\
  exists st, buf_ok sample_open 4 st false false /\
    (let run := RoundTrip sample_base sample_others (Some sample_transport) (Some 1) sample_net in
     ~ listed sample_transport sample_request /\ run = sample_base None 1 sample_net \/
     listed sample_transport sample_request /\ ~ admits sample_transport sample_request /\
       (exists s', run = Ret (None, Some ErrInsecureScheme) s' /\ n_closed s' = closed_with sample_request sample_net /\
          net_closed (fun _ => []) s' = sample_net) \/
     admits sample_transport sample_request /\
       ((exists e s' got, run = Ret (None, Some e) s' /\ n_closed s' = closed_with sample_request sample_net /\
           untouched sample_net s' /\ token_kept sample_open 4 st (n_world s') /\
           read_outcome sample_open 4 st false (default 0 (bs_data st)) (Some e) got) \/
        (exists s1 cl h token, run = (sample_base None cl ≫= returnResponse 1) s1 /\ 10 <= cl /\ 10 <= h /\
           n_reqs s1 !! cl = Some (MkRequest (r_URL sample_request) (Some h) (Some 3) 0) /\
           n_headers s1 !! h = Some (<[CanonicalMIMEHeaderKey (t_header sample_transport) := [credential sample_transport token]]>
             (header_of sample_net sample_request)) /\
           n_closed s1 = [] /\ untouched sample_net s1 /\ token_kept sample_open 4 st (n_world s1) /\
           read_outcome sample_open 4 st false (default 0 (bs_data st)) None token /\ zlen token = default 0 (bs_data st)))).
Proof.
  split; [eexists; split; [vm_compute; reflexivity|split_and!; vm_compute; reflexivity]|].
  destruct sample_open_ok as (W & B & _). exists (sample_st sample_open). split; [exact B|].
  exact (round_trip_exact sample_base sample_others sample_transport 1 sample_request 4 (sample_st sample_open) false false
    (sample_st sample_open) false false sample_open sample_net sample_net_ok eq_refl eq_refl B eq_refl W B).
Defined.
