(* ===== verification/Handler.v ===== *)
(** * The redacting log handler (redact/handler.go)

    Keys as components, the matching of sensitive keys, the walk that renders
    an arbitrary value, and the attribute sanitizer. A Go value is what
    reflection shows of it: its kind with its members, and the answers of its
    own rendering methods. Pointers point into a heap, so values may be cyclic;
    the walk recurses on the depth it has left. *)
From stdpp Require Import sorting.
From S2P Require Import Prelude Bytes Pem Utf8 Regexp Sanitizer.

#[local] Open Scope Z_scope.

(** ** Keys *)

Definition keyTag : list Z := str "[REDACTED:key]".

Definition DefaultSensitiveKeys : list (list Z) := str <$> [
  "password"; "passwd"; "pwd"; "pass"; "passphrase"; "passcode";
  "secret"; "secret_key"; "client_secret"; "api_secret";
  "token"; "access_token"; "refresh_token"; "id_token"; "session_token"; "jwt";
  "api_key"; "apikey"; "x_api_key";
  "authorization"; "auth"; "bearer";
  "cookie"; "cookies"; "set_cookie"; "session";
  "private_key"; "privatekey"; "signing_key"; "secret_access_key";
  "credential"; "credentials"]%string.

(** A name as components; a path is the components of the open groups. *)
Abbreviation path := (list (list Z)).
Definition keySet : Type := list path.

Section keys.
Context `{Unicode}.

(** The components so far and the one being read, in runes. *)
Definition flush (comps : path) (cur : list Z) : path :=
  if bool_decide (cur = []) then comps else comps ++ [strings_ToLower (mjoin (encodeRune <$> cur))].

(** Whether a component ends between [prev] and [r], [next] being behind. *)
Definition boundary (prev r : Z) (next : option Z) : bool :=
  if negb (eqb (IsDigit r) (IsDigit prev)) then true
  else if IsUpper r && IsLower prev then true
  else IsUpper r && IsUpper prev && match next with Some x => IsLower x | None => false end.

Fixpoint splitRunes (prev : option Z) (rs : list Z) (comps : path) (cur : list Z) : path :=
  match rs with
  | [] => flush comps cur
  | r :: rest =>
      if negb (IsLetter r) && negb (IsNumber r) && negb (IsMark r)
      then splitRunes (Some r) rest (flush comps cur) []
      else
        match prev, cur with
        | Some p, _ :: _ =>
            if boundary p r (head rest) then splitRunes (Some r) rest (flush comps cur) [r]
            else splitRunes (Some r) rest comps (cur ++ [r])
        | _, _ => splitRunes (Some r) rest comps (cur ++ [r])
        end
  end.

Definition splitKey (key : list Z) : path := splitRunes None (fst <$> runes key) [] [].

Definition newKeySet (names : list (list Z)) : keySet :=
  foldl (fun ks n => let comps := splitKey n in if (0 <? zlen comps) then ks ++ [comps] else ks) [] names.
End keys.

Definition appendPath (p comps : path) : path := if bool_decide (comps = []) then p else p ++ comps.

(** The inner loop of [match], [n] positions from [i] on. *)
Fixpoint matchAt (p e : path) (i : Z) (n : nat) : bool :=
  match n with
  | O => false
  | S n => if bool_decide (lsub i (i + zlen e) p = e) then true else matchAt p e (i + 1) n
  end.

Fixpoint matchEntries (p : path) (keyStart : Z) (ks : keySet) : bool :=
  match ks with
  | [] => false
  | e :: ks =>
      if (zlen p <? zlen e) then matchEntries p keyStart ks
      else
        let i := Z.max 0 (keyStart - zlen e + 1) in
        if matchAt p e i (Z.to_nat (zlen p - zlen e + 1 - i)) then true else matchEntries p keyStart ks
  end.

(** [ks.match(path, keyComps)] *)
Definition key_match (ks : keySet) (p : path) (keyComps : Z) : bool :=
  if (keyComps =? 0) || (zlen p =? 0) then false else matchEntries p (zlen p - keyComps) ks.

(** ** Values *)

(** The result of a MarshalText or MarshalJSON call. *)
Inductive marshaled : Type := MText (text : list Z) | MError | MPanic.

(** A value as reflection shows it. [ti_own] is the first rendering method in
    its method set, in the order [renderByMethod] tries them, with what the
    call yields; [ti_addr] the same for a pointer to it; [ti_self] whether an
    interface type has one of the methods by itself. *)
Inductive rv : Type :=
| RInvalid
| RNode (ty : tinfo) (k : rkind)
with rkind : Type :=
| KPtr (target : option Z)
| KIface (inner : option rv)
| KStruct (fields : list (list Z * bool * rv))
| KMap (entries : list (list Z * rv))
| KBytes (plain : bool) (bs : list Z)
| KSeq (elems : list rv)
| KLeaf (text : list Z)
with tinfo : Type :=
| TInfo (own : option rendering) (addr : option rendering) (self : bool)
with rendering : Type :=
| ByFmt (text : list Z)
| ByText (r : marshaled)
| ByLogValue (v : option lval)
| ByJSON (r : marshaled)
| ByGoString (text : list Z)
with lval : Type :=
| VString (s : list Z)
| VOther (text : list Z)
| VAny (v : rv)
| VGroup (attrs : list (list Z * lval))
| VLogValuer (call : option lval).

Definition ti_own (t : tinfo) : option rendering := match t with TInfo o _ _ => o end.
Definition ti_addr (t : tinfo) : option rendering := match t with TInfo _ a _ => a end.
Definition ti_self (t : tinfo) : bool := match t with TInfo _ _ s => s end.

(** ** Rendering *)

Definition renderCap : Z := 65536.
Definition maxRenderDepth : nat := 8.
Definition maxSortedMapLen : Z := 1024.
Definition unexportedTag : list Z := str "[REDACTED:unexported]".
Definition panicTag : list Z := str "[REDACTED:panic]".
Definition marshalErrorTag : list Z := str "[REDACTED:marshal_error]".

(** [capWriter.Write] and [WriteString]; the builder is its text so far. *)
Definition cap_write (b text : list Z) : list Z :=
  if (0 <? renderCap - zlen b) then b ++ take (Z.to_nat (renderCap - zlen b)) text else b.

Definition writeMarshaled (b : list Z) (isNilPtr : bool) (r : marshaled) : list Z :=
  match r with
  | MText text => cap_write b text
  | MError => b ++ marshalErrorTag
  | MPanic => b ++ (if isNilPtr then str "<nil>" else panicTag)
  end.

(** The order of two names as Go compares strings. *)
Fixpoint bytes_le (a b : list Z) : bool :=
  match a, b with
  | [], _ => true
  | _ :: _, [] => false
  | x :: a, y :: b => (x <? y) || ((x =? y) && bytes_le a b)
  end.
Definition by_name (p q : list Z * rv) : Prop := bytes_le p.1 q.1 = true.
#[global] Instance by_name_dec : RelDecision by_name.
Proof. intros p q. unfold by_name. apply _. Defined.

(** The errors [slog.Value.Resolve] answers with, when a LogValue method
    panics (with the stack it saw) and after a hundred calls. *)
Definition slogError (text : list Z) : rv := RNode (TInfo (Some (ByFmt text)) None false) (KPtr (Some 0)).
Definition resolvePanicked (stack : list Z) : rv := slogError (str "LogValue panicked" ++ [10] ++ stack).
Definition resolveTooMany : rv := slogError (str "LogValue called too many times").

(** The names of a map as [mapKeyName] cuts them, small maps in sorted order. *)
Definition mapOrder (es : list (list Z * rv)) : list (list Z * rv) :=
  let es := (fun e => (cap_write [] e.1, e.2)) <$> es in
  if (zlen es <=? maxSortedMapLen) then merge_sort by_name es else es.

Section render.
Variable keys : keySet.
Variable heap : gmap Z rv.
Variable stack : list Z.
Context `{Unicode}.

(** [slog.Value.Resolve], [n] calls made so far. *)
Fixpoint resolve (n : nat) (v : lval) : lval :=
  match v with
  | VLogValuer None => VAny (resolvePanicked stack)
  | VLogValuer (Some v') => if (n =? 99)%nat then VAny resolveTooMany else resolve (S n) v'
  | _ => v
  end.
Definition Resolve (v : lval) : lval := resolve 0 v.

(** The value behind an interface. *)
Definition dynamic (v : rv) : rv :=
  match v with RNode _ (KIface (Some u)) => u | _ => v end.
Definition plain_bytes (v : rv) : option (list Z) :=
  match dynamic v with RNode _ (KBytes true bs) => Some bs | _ => None end.
Definition own_method (v : rv) : option rendering :=
  match dynamic v with RNode _ (KIface None) => None | RNode ty _ => ti_own ty | RInvalid => None end.

(** [rv.Kind() == reflect.Pointer && rv.IsNil()] *)
Definition nil_ptr (v : rv) : bool := match v with RNode _ (KPtr None) => true | _ => false end.

(** The method through the address, for a value that is neither a pointer nor
    an interface. *)
Definition addr_method (v : rv) : option rendering :=
  match v with
  | RNode _ (KPtr _) | RNode _ (KIface _) | RInvalid => None
  | RNode ty _ => ti_addr ty
  end.

(** [selfRendering(rv.Type())] *)
Definition selfRendering (v : rv) : bool :=
  match v with
  | RInvalid => false
  | RNode ty (KIface _) => ti_self ty
  | RNode ty (KPtr _) => bool_decide (is_Some (ti_own ty))
  | RNode ty _ => bool_decide (is_Some (ti_own ty)) || bool_decide (is_Some (ti_addr ty))
  end.

(** One level of the walk, over the renderers one level deeper: [rec] for a
    value (with whether it was reached through an unexported field), [reclog]
    for a log value. *)
Section level.
Variable rec : bool -> list Z -> rv -> path -> list Z.
Variable reclog : list Z -> lval -> path -> list Z.

Definition renderField (ro : bool) (b name : list Z) (v : rv) (p : path) : list Z :=
  let comps := splitKey name in
  let full := appendPath p comps in
  if key_match keys full (zlen comps) then b ++ keyTag else rec ro b v full.

Fixpoint renderFields (ro : bool) (first : bool) (b : list Z) (fs : list (list Z * bool * rv)) (p : path) : list Z :=
  match fs with
  | [] => b
  | (name, exported, v) :: fs =>
      if (renderCap <? zlen b) then b
      else
        let b := if first then b else b ++ [32] in
        renderFields ro false (renderField (ro || negb exported) (b ++ name ++ [58]) name v p) fs p
  end.

(** The entries, in the order given. *)
Fixpoint renderEntries (ro : bool) (first : bool) (b : list Z) (es : list (list Z * rv)) (p : path) : list Z :=
  match es with
  | [] => b
  | (name, v) :: es =>
      if (renderCap <? zlen b) then b
      else
        let b := if first then b else b ++ [32] in
        renderEntries ro false (renderField ro (cap_write b name ++ [58]) name v p) es p
  end.

Definition renderMap (ro : bool) (b : list Z) (es : list (list Z * rv)) (p : path) : list Z :=
  renderEntries ro true b (mapOrder es) p.

Fixpoint renderElems (ro : bool) (first : bool) (b : list Z) (es : list rv) (p : path) : list Z :=
  match es with
  | [] => b
  | v :: es =>
      let b := rec ro (if first then b else b ++ [32]) v p in
      if (renderCap <? zlen b) then b else renderElems ro false b es p
  end.

Definition renderByMethod (b : list Z) (isNilPtr : bool) (m : rendering) (p : path) : list Z :=
  match m with
  | ByFmt text => cap_write b text
  | ByText r => writeMarshaled b isNilPtr r
  | ByLogValue None => b ++ (if isNilPtr then str "<nil>" else panicTag)
  | ByLogValue (Some v) => reclog b (Resolve v) p
  | ByJSON r => writeMarshaled b isNilPtr r
  | ByGoString text => cap_write b text
  end.

(** The switch on the kind. *)
Definition renderKind (ro : bool) (b : list Z) (k : rkind) (p : path) : list Z :=
  match k with
  | KPtr None | KIface None => b ++ str "<nil>"
  | KPtr (Some a) =>
      if ro then b ++ str "<ptr>"
      else
        let v := default RInvalid (heap !! a) in
        let b := match v with RNode _ (KStruct _) => b ++ [38] | _ => b end in
        rec ro b v p
  | KIface (Some v) => rec ro b v p
  | KStruct fs => renderFields ro true (b ++ [123]) fs p ++ [125]
  | KMap es => renderMap ro (b ++ str "map[") es p ++ [93]
  | KBytes _ bs => cap_write b bs
  | KSeq es => renderElems ro true (b ++ [91]) es p ++ [93]
  | KLeaf text => cap_write b text
  end.

(** [h.renderValue] behind its checks on size, validity and depth. *)
Definition renderNode (ro : bool) (b : list Z) (v : rv) (k : rkind) (p : path) : list Z :=
  if negb ro then
    match plain_bytes v with
    | Some bs => cap_write b bs
    | None =>
        match own_method v with
        | Some m => renderByMethod b (nil_ptr v) m p
        | None =>
            match addr_method v with
            | Some m => renderByMethod b false m p
            | None => renderKind ro b k p
            end
        end
    end
  else if selfRendering v then b ++ unexportedTag
  else renderKind ro b k p.

(** The members of a group that [renderLogValue] prints. *)
Fixpoint renderAttrs (first : bool) (b : list Z) (attrs : list (list Z * lval)) (p : path) : list Z :=
  match attrs with
  | [] => b
  | (key, v) :: attrs =>
      if (renderCap <? zlen b) then b
      else
        let b := if first then b else b ++ [32] in
        let b := cap_write b key ++ [61] in
        let comps := splitKey key in
        let full := appendPath p comps in
        let b := if key_match keys full (zlen comps) then b ++ keyTag else reclog b (Resolve v) full in
        renderAttrs false b attrs p
  end.
End level.

(** [h.renderValue] and [h.renderLogValue] with [d] levels left; with none
    left a value is three dots. *)
Fixpoint renders (d : nat) : (bool -> list Z -> rv -> path -> list Z) * (list Z -> lval -> path -> list Z) :=
  let val := fun ro b v p =>
    if (renderCap <? zlen b) then b
    else match v with
         | RInvalid => b ++ str "<nil>"
         | RNode _ k =>
             match d with
             | O => b ++ str "..."
             | S d => renderNode (renders d).1 (renders d).2 ro b v k p
             end
         end in
  let log := fun b v p =>
    match d with
    | O => b ++ str "..."
    | S d =>
        match v with
        | VAny u => val false b u p
        | VGroup attrs => renderAttrs (renders d).2 true (b ++ [91]) attrs p ++ [93]
        | VString text | VOther text => cap_write b text
        | VLogValuer _ => b
        end
    end in
  (val, log).

Definition renderValue (depth : nat) : bool -> list Z -> rv -> path -> list Z := (renders (S maxRenderDepth - depth)).1.
Definition renderLogValue (depth : nat) : list Z -> lval -> path -> list Z := (renders (S maxRenderDepth - depth)).2.

(** [h.render(v, path)] *)
Definition render (v : rv) (p : path) : list Z := renderValue 0 false [] v p.
End render.

(** ** Attributes *)

Section sanitize.
Variable san : Sanitizer.
Variable keys : keySet.
Variable heap : gmap Z rv.
Variable stack : list Z.
Context `{Unicode}.

(** The branch for KindAny. *)
Definition sanitizeAny (full : path) (u : rv) : lval :=
  match u with
  | RInvalid => VAny u
  | _ => VString (Sanitize san (render keys heap stack u full))
  end.

(** [h.sanitizeAttr], for the value under [key]; [n] LogValue calls were made
    to get at it. *)
Fixpoint sanitizeValue (n : nat) (p : path) (redactAll : bool) (key : list Z) (v : lval) {struct v} : lval :=
  let comps := splitKey key in
  let full := appendPath p comps in
  if redactAll || key_match keys full (zlen comps) then VString keyTag
  else
  match v with
  | VString s => VString (Sanitize san s)
  | VGroup attrs => VGroup (map (fun '(k, u) => (k, sanitizeValue 0 full false k u)) attrs)
  | VLogValuer None => sanitizeAny full (resolvePanicked stack)
  | VLogValuer (Some v') =>
      if (n =? 99)%nat then sanitizeAny full resolveTooMany else sanitizeValue (S n) p redactAll key v'
  | VAny u => sanitizeAny full u
  | VOther _ => v
  end.
Definition sanitizeAttr (p : path) (redactAll : bool) (a : list Z * lval) : list Z * lval :=
  (a.1, sanitizeValue 0 p redactAll a.1 a.2).
End sanitize.

(** ** The handler *)

Record record : Type := MkRecord { rc_message : list Z; rc_attrs : list (list Z * lval); rc_rest : Z }.

(** slog's Handler interface: what an implementation answers. *)
Class SlogHandler (I : Type) : Type := {
  sh_Enabled : I -> Z -> bool;
  sh_Handle : I -> record -> option (list Z);
  sh_WithAttrs : I -> list (list Z * lval) -> I;
  sh_WithGroup : I -> list Z -> I
}.

(** [discardHandler], and what a nil inner handler becomes. *)
#[global] Instance discardHandler : SlogHandler unit := {
  sh_Enabled _ _ := false;
  sh_Handle _ _ := None;
  sh_WithAttrs h _ := h;
  sh_WithGroup h _ := h
}.

Record Handler (I : Type) : Type := MkHandler {
  h_inner : I;
  h_sanitizer : Sanitizer;
  h_keys : keySet;
  h_path : path;
  h_redactAll : bool
}.
Arguments MkHandler {I}.
Arguments h_inner {I}.
Arguments h_sanitizer {I}.
Arguments h_keys {I}.
Arguments h_path {I}.
Arguments h_redactAll {I}.

Record handlerConfig : Type := HandlerConfig { hc_keys : list (list Z); hc_noDefaults : bool }.
Definition HandlerOption : Type := handlerConfig -> handlerConfig.
Definition WithSensitiveKeys (ks : list (list Z)) : HandlerOption := fun c => HandlerConfig (hc_keys c ++ ks) (hc_noDefaults c).
Definition WithoutDefaultSensitiveKeys : HandlerOption := fun c => HandlerConfig (hc_keys c) true.

Section handler.
Context {I : Type} `{SlogHandler I} `{Unicode}.
Variable heap : gmap Z rv.
Variable stack : list Z.

(** A nil sanitizer is the default one. *)
Definition NewHandler (inner : I) (s : option Sanitizer) (opts : list HandlerOption) : Handler I :=
  let cfg := foldl (fun c o => o c) (HandlerConfig [] false) opts in
  let names := (if hc_noDefaults cfg then [] else DefaultSensitiveKeys) ++ hc_keys cfg in
  MkHandler inner (default NewDefaultSanitizer s) (newKeySet names) [] false.

Definition Enabled (h : Handler I) (level : Z) : bool := sh_Enabled (h_inner h) level.

Definition h_sanitizeAttr (h : Handler I) (a : list Z * lval) : list Z * lval :=
  sanitizeAttr (h_sanitizer h) (h_keys h) heap stack (h_path h) (h_redactAll h) a.

(** The record [Handle] hands to the inner handler. *)
Definition cleanRecord (h : Handler I) (r : record) : record :=
  MkRecord (Sanitize (h_sanitizer h) (rc_message r)) (h_sanitizeAttr h <$> rc_attrs r) (rc_rest r).

Definition Handle (h : Handler I) (r : record) : option (list Z) := sh_Handle (h_inner h) (cleanRecord h r).


Definition WithGroup (h : Handler I) (name : list Z) : Handler I :=
  if bool_decide (name = []) then h
  else
  let comps := splitKey name in
  let p := appendPath (h_path h) comps in
  MkHandler (sh_WithGroup (h_inner h) name) (h_sanitizer h) (h_keys h) p
    (h_redactAll h || key_match (h_keys h) p (zlen comps)).
End handler.

(** ** Which keys are sensitive *)





Section keyset.
Context `{Unicode}.




End keyset.

(** ** What reaches the inner handler *)


Section clean.
Context `{Unicode}.
Variable san : Sanitizer.
Variable ks : keySet.
Hypothesis Hks : Forall (fun e => e <> []) ks.


Variable heap : gmap Z rv.
Variable stack : list Z.






End clean.

Section handled.
Context {I : Type} `{SlogHandler I} `{Unicode}.
Variable heap : gmap Z rv.
Variable stack : list Z.





End handled.

(** ** What a log line cannot depend on *)

Lemma render_eq `{Unicode} ks heap stack v p :
  render ks heap stack v p = (renders ks heap stack (S maxRenderDepth)).1 false [] v p.
Proof. unfold render, renderValue. rewrite Nat.sub_0_r. reflexivity. Qed.

(** Two values in two heaps that may differ only where the walk must not look:
    below a sensitive name, inside a value whose type renders itself (whose
    methods answer alike), behind a pointer it reached through an unexported
    field, and deeper than it goes. As for the walk, one level over the
    relations one level deeper. *)
Section alike.
Variable ks : keySet.
Variables heap1 heap2 : gmap Z rv.
Variable stack : list Z.
Context `{Unicode}.

Definition hidden (p : path) (name : list Z) : Prop :=
  key_match ks (appendPath p (splitKey name)) (zlen (splitKey name)) = true.
Definition is_struct (v : rv) : bool := match v with RNode _ (KStruct _) => true | _ => false end.

Section level.
Variable rec : bool -> path -> rv -> rv -> Prop.
Variable reclog : path -> lval -> lval -> Prop.

Definition alike_member (ro : bool) (p : path) (name : list Z) (v v' : rv) : Prop :=
  hidden p name \/ rec ro (appendPath p (splitKey name)) v v'.

Definition alike_kind (ro : bool) (p : path) (k k' : rkind) : Prop :=
  match k, k' with
  | KPtr None, KPtr None | KIface None, KIface None => True
  | KPtr (Some a), KPtr (Some a') =>
      let v := default RInvalid (heap1 !! a) in
      let v' := default RInvalid (heap2 !! a') in
      ro = true \/ is_struct v = is_struct v' /\ rec false p v v'
  | KIface (Some v), KIface (Some v') => rec ro p v v'
  | KStruct fs, KStruct fs' =>
      Forall2 (fun f f' => f.1 = f'.1 /\ alike_member (ro || negb f.1.2) p f.1.1 f.2 f'.2) fs fs'
  | KMap es, KMap es' => Forall2 (fun e e' => e.1 = e'.1 /\ alike_member ro p e.1 e.2 e'.2) (mapOrder es) (mapOrder es')
  | KBytes _ bs, KBytes _ bs' => bs = bs'
  | KSeq es, KSeq es' => Forall2 (rec ro p) es es'
  | KLeaf t, KLeaf t' => t = t'
  | _, _ => False
  end.

Definition alike_method (p : path) (m m' : rendering) : Prop :=
  match m, m' with
  | ByLogValue (Some l), ByLogValue (Some l') => reclog p (Resolve stack l) (Resolve stack l')
  | _, _ => m = m'
  end.
Definition alike_methods (p : path) (o o' : option rendering) : Prop := option_Forall2 (alike_method p) o o'.

Definition alike_node (ro : bool) (p : path) (v v' : rv) (k k' : rkind) : Prop :=
  if ro then
    selfRendering v = true /\ selfRendering v' = true \/
    selfRendering v = false /\ selfRendering v' = false /\ alike_kind ro p k k'
  else
    plain_bytes v = plain_bytes v' /\
    (is_Some (plain_bytes v) \/
     nil_ptr v = nil_ptr v' /\ alike_methods p (own_method v) (own_method v') /\
     (is_Some (own_method v) \/
      alike_methods p (addr_method v) (addr_method v') /\ (is_Some (addr_method v) \/ alike_kind ro p k k'))).

Definition alike_log (val : path -> rv -> rv -> Prop) (p : path) (v v' : lval) : Prop :=
  match v, v' with
  | VAny u, VAny u' => val p u u'
  | VGroup attrs, VGroup attrs' =>
      Forall2 (fun a a' => a.1 = a'.1 /\
        (hidden p a.1 \/ reclog (appendPath p (splitKey a.1)) (Resolve stack a.2) (Resolve stack a'.2))) attrs attrs'
  | VString t, VString t' | VOther t, VOther t' => t = t'
  | VLogValuer _, VLogValuer _ => True
  | _, _ => False
  end.
End level.

Fixpoint alikes (d : nat) : (bool -> path -> rv -> rv -> Prop) * (path -> lval -> lval -> Prop) :=
  let val := fun ro p v v' =>
    match v, v' with
    | RInvalid, RInvalid => True
    | RNode _ k, RNode _ k' =>
        match d with
        | O => True
        | S d => alike_node (alikes d).1 (alikes d).2 ro p v v' k k'
        end
    | _, _ => False
    end in
  let log := fun p v v' =>
    match d with
    | O => True
    | S d => alike_log (alikes d).2 (val false) p v v'
    end in
  (val, log).

Definition same_render (rec1 rec2 : bool -> list Z -> rv -> path -> list Z) (R : bool -> path -> rv -> rv -> Prop) : Prop :=
  forall ro b p v v', R ro p v v' -> rec1 ro b v p = rec2 ro b v' p.
Definition same_log (rec1 rec2 : list Z -> lval -> path -> list Z) (R : path -> lval -> lval -> Prop) : Prop :=
  forall b p v v', R p v v' -> rec1 b v p = rec2 b v' p.

Section levels.
Variable rec1 rec2 : bool -> list Z -> rv -> path -> list Z.
Variable log1 log2 : list Z -> lval -> path -> list Z.
Variable R : bool -> path -> rv -> rv -> Prop.
Variable L : path -> lval -> lval -> Prop.
Hypothesis HR : same_render rec1 rec2 R.
Hypothesis HL : same_log log1 log2 L.

Lemma renderField_alike ro b name v v' p :
  alike_member R ro p name v v' -> renderField ks rec1 ro b name v p = renderField ks rec2 ro b name v' p.
Proof. unfold alike_member, hidden, renderField. intros [->|Hr]; [done|]. destruct (key_match _ _ _); [done|by apply HR]. Qed.

Lemma renderFields_alike ro first b fs fs' p :
  Forall2 (fun f f' => f.1 = f'.1 /\ alike_member R (ro || negb f.1.2) p f.1.1 f.2 f'.2) fs fs' ->
  renderFields ks rec1 ro first b fs p = renderFields ks rec2 ro first b fs' p.
Proof.
  intros F. revert first b. induction F as [|[[n e] v] [[n' e'] v'] fs fs' [E Ha] _ IH]; intros first b; [done|].
  cbn in E, Ha. injection E as <- <-. cbn [renderFields]. destruct (_ <? _); [done|]. rewrite (renderField_alike _ _ _ v v') by done. apply IH.
Qed.

Lemma renderEntries_alike ro first b es es' p :
  Forall2 (fun e e' => e.1 = e'.1 /\ alike_member R ro p e.1 e.2 e'.2) es es' ->
  renderEntries ks rec1 ro first b es p = renderEntries ks rec2 ro first b es' p.
Proof.
  intros F. revert first b. induction F as [|[n v] [n' v'] es es' [E Ha] _ IH]; intros first b; [done|].
  cbn in E, Ha. subst n'. cbn [renderEntries]. destruct (_ <? _); [done|]. rewrite (renderField_alike _ _ _ v v') by done. apply IH.
Qed.

Lemma renderElems_alike ro first b es es' p :
  Forall2 (R ro p) es es' -> renderElems rec1 ro first b es p = renderElems rec2 ro first b es' p.
Proof.
  intros F. revert first b. induction F as [|v v' es es' Ha _ IH]; intros first b; [done|].
  cbn [renderElems]. rewrite (HR ro _ p v v') by done. destruct (_ <? _); [done|]. apply IH.
Qed.

Lemma renderKind_alike ro b k k' p :
  alike_kind R ro p k k' -> renderKind ks heap1 rec1 ro b k p = renderKind ks heap2 rec2 ro b k' p.
Proof.
  destruct k as [[a|]|[v|]|fs|es|pl bs|es|t], k' as [[a'|]|[v'|]|fs'|es'|pl' bs'|es'|t']; cbn [alike_kind renderKind]; try done.
  - intros [->|[Es Hr]]; [done|]. destruct ro; [done|]. unfold is_struct in Es.
    destruct (default RInvalid (heap1 !! a)) as [|ty [| |?| | | |]], (default RInvalid (heap2 !! a')) as [|ty' [| |?| | | |]]; try done; by apply HR.
  - apply HR.
  - intros F. by rewrite (renderFields_alike _ _ _ fs fs').
  - intros F. unfold renderMap. by rewrite (renderEntries_alike _ _ _ (mapOrder es) (mapOrder es')).
  - by intros ->.
  - intros F. by rewrite (renderElems_alike _ _ _ es es').
  - by intros ->.
Qed.

Lemma renderByMethod_alike b nil m m' p :
  alike_method L p m m' -> renderByMethod stack log1 b nil m p = renderByMethod stack log2 b nil m' p.
Proof.
  destruct m as [|?|[l|]|?|], m' as [|?|[l'|]|?|]; cbn [alike_method renderByMethod];
    try discriminate; try (intros [= <-]; done); try done. apply HL.
Qed.

Lemma renderNode_alike ro b v v' k k' p :
  alike_node R L ro p v v' k k' -> renderNode ks heap1 stack rec1 log1 ro b v k p = renderNode ks heap2 stack rec2 log2 ro b v' k' p.
Proof.
  unfold alike_node, renderNode. destruct ro; cbn [negb].
  - intros [[-> ->]|(-> & -> & Hk)]; [done|by apply renderKind_alike].
  - intros [<- [[bs ->]|(Hn & Ho & Hrest)]]; [done|]. destruct (plain_bytes v); [done|]. rewrite <- Hn.
    destruct Ho as [m m' Hm|]; [by apply renderByMethod_alike|]. destruct Hrest as [[? ?]|[Ha Hrest]]; [done|].
    destruct Ha as [m m' Hm|]; [by apply renderByMethod_alike|]. destruct Hrest as [[? ?]|Hk]; [done|by apply renderKind_alike].
Qed.

Lemma renderAttrs_alike first b attrs attrs' p :
  Forall2 (fun a a' => a.1 = a'.1 /\ (hidden p a.1 \/ L (appendPath p (splitKey a.1)) (Resolve stack a.2) (Resolve stack a'.2))) attrs attrs' ->
  renderAttrs ks stack log1 first b attrs p = renderAttrs ks stack log2 first b attrs' p.
Proof.
  intros F. revert first b. induction F as [|[n v] [n' v'] attrs attrs' [E Ha] _ IH]; intros first b; [done|].
  cbn in E, Ha. subst n'. cbn [renderAttrs]. destruct (_ <? _); [done|]. unfold hidden in Ha. cbv zeta.
  destruct Ha as [->|Ha]; [apply IH|]. destruct (key_match _ _ _); [apply IH|]. rewrite (HL _ _ _ _ Ha). apply IH.
Qed.
End levels.

Lemma renders_alike d :
  same_render (renders ks heap1 stack d).1 (renders ks heap2 stack d).1 (alikes d).1 /\
  same_log (renders ks heap1 stack d).2 (renders ks heap2 stack d).2 (alikes d).2.
Proof.
  induction d as [|d [IHv IHl]].
  - split; [|done]. intros ro b p v v' Ha. cbn in *. destruct (_ <? _); [done|]. by destruct v, v'.
  - assert (same_render (renders ks heap1 stack (S d)).1 (renders ks heap2 stack (S d)).1 (alikes (S d)).1) as Hv.
    { intros ro b p v v' Ha. cbn [renders alikes fst] in *. destruct (_ <? _); [done|]. destruct v, v'; try done. by apply (renderNode_alike _ _ _ _ _ _ IHv IHl). }
    split; [exact Hv|]. intros b p v v' Ha. destruct v, v'; try done.
    + cbn in Ha. by subst.
    + cbn in Ha. by subst.
    + by apply (Hv false b p v v0).
    + cbn [alikes snd alike_log] in Ha. cbn [renders snd]. by rewrite (renderAttrs_alike _ _ _ IHl _ _ _ attrs0).
Qed.

(** Values at the top of a walk. *)
Definition alike_value (p : path) (u u' : rv) : Prop := (alikes (S maxRenderDepth)).1 false p u u'.

Lemma slogError_alike text p : alike_value p (slogError text) (slogError text).
Proof.
  unfold alike_value. generalize maxRenderDepth. intros d. cbn [alikes fst slogError]. split; [done|]. right. split; [done|].
  split; [by constructor|left; by eexists].
Qed.

Variable san : Sanitizer.

(** Two attribute values that must look the same to the inner handler. *)
Inductive alike_attr : path -> bool -> list Z -> lval -> lval -> Prop :=
| aa_key p all key v v' : all = true \/ hidden p key -> alike_attr p all key v v'
| aa_string p all key s : alike_attr p all key (VString s) (VString s)
| aa_other p all key t : alike_attr p all key (VOther t) (VOther t)
| aa_any p all key u u' : alike_value (appendPath p (splitKey key)) u u' -> alike_attr p all key (VAny u) (VAny u')
| aa_group p all key attrs attrs' :
    Forall2 (fun a a' => a.1 = a'.1 /\ alike_attr (appendPath p (splitKey key)) false a.1 a.2 a'.2) attrs attrs' ->
    alike_attr p all key (VGroup attrs) (VGroup attrs')
| aa_panics p all key : alike_attr p all key (VLogValuer None) (VLogValuer None)
| aa_valuer p all key v v' : alike_attr p all key v v' -> alike_attr p all key (VLogValuer (Some v)) (VLogValuer (Some v')).

Lemma sanitizeAny_alike full u u' :
  alike_value full u u' -> sanitizeAny san ks heap1 stack full u = sanitizeAny san ks heap2 stack full u'.
Proof.
  intros Ha. assert (render ks heap1 stack u full = render ks heap2 stack u' full) as E.
  { rewrite !render_eq. destruct (renders_alike (S maxRenderDepth)) as [Hr _]. unfold same_render in Hr. exact (Hr false [] full u u' Ha). }
  assert ((u = RInvalid /\ u' = RInvalid) \/ (u <> RInvalid /\ u' <> RInvalid)) as Hi.
  { unfold alike_value in Ha. revert Ha. generalize maxRenderDepth. intros d Ha. cbn [alikes fst] in Ha. destruct u, u'; [by left|done|done|by right]. }
  unfold sanitizeAny. rewrite E. generalize (render ks heap2 stack u' full). intros x.
  destruct Hi as [[-> ->]|[H1 H2]]; [reflexivity|]. destruct u; [congruence|]. destruct u'; [congruence|]. reflexivity.
Qed.

Lemma sanitizeValue_alike : forall n p all key v v', alike_attr p all key v v' ->
  sanitizeValue san ks heap1 stack n p all key v = sanitizeValue san ks heap2 stack n p all key v'.
Proof.
  fix IH 7. intros n p all key v v' [p' all' key' u u' Hk|? ? ? s|? ? ? t|? ? ? u u' Hu|? ? ? attrs attrs' F| |? ? ? u u' Hu].
  - unfold hidden in Hk. assert (all' || key_match ks (appendPath p' (splitKey key')) (zlen (splitKey key')) = true) as E
      by (destruct Hk as [->| ->]; [done|apply orb_true_r]).
    destruct u, u'; cbn [sanitizeValue]; rewrite E; reflexivity.
  - cbn [sanitizeValue]. destruct (_ || _); reflexivity.
  - cbn [sanitizeValue]. destruct (_ || _); reflexivity.
  - cbn [sanitizeValue]. destruct (_ || _); [reflexivity|]. apply sanitizeAny_alike, Hu.
  - cbn [sanitizeValue]. destruct (_ || _); [reflexivity|]. apply (f_equal VGroup).
    induction F as [|[k1 u1] [k2 u2] l l' [E Ha] _ IHF]; cbn [map]; [reflexivity|]. cbn [fst snd] in E, Ha. subst k2.
    apply (f_equal2 cons); [|exact IHF]. apply (f_equal (pair k1)), IH, Ha.
  - cbn [sanitizeValue]. destruct (_ || _); [reflexivity|]. apply sanitizeAny_alike, slogError_alike.
  - cbn [sanitizeValue]. destruct (_ || _); [reflexivity|]. destruct (n =? 99)%nat; [apply sanitizeAny_alike, slogError_alike|apply IH, Hu].
Qed.
End alike.

(** C21. What the inner handler gets does not depend on anything the walk must
    not look at: two records with the same message whose attributes differ
    only under sensitive keys, struct fields, map keys and group members at
    any depth, in the fields of values whose types render themselves, behind
    pointers in unexported fields and below the depth bound, lead to the same
    record, whatever the heap holds elsewhere. *)
Theorem handler_noninterference {I : Type} `{SlogHandler I} `{Unicode} heap1 heap2 stack (h : Handler I) r r' :
  rc_message r = rc_message r' -> rc_rest r = rc_rest r' ->
  Forall2 (fun a a' => a.1 = a'.1 /\
    alike_attr (h_keys h) heap1 heap2 stack (h_path h) (h_redactAll h) a.1 a.2 a'.2) (rc_attrs r) (rc_attrs r') ->
  Handle heap1 stack h r = Handle heap2 stack h r'.
Proof.
  intros Em Er F. unfold Handle, cleanRecord. rewrite Em, Er. apply (f_equal (sh_Handle (h_inner h))).
  apply (f_equal (fun l => MkRecord _ l _)).
  induction F as [|[k v] [k' v'] l l' [E Ha] _ IH]; [rewrite !fmap_nil; reflexivity|]. cbn [fst snd] in E, Ha. subst k'.
  rewrite !fmap_cons. apply (f_equal2 cons); [|exact IH]. apply (f_equal (pair k)). by apply sanitizeValue_alike.
Qed.

(** ** A concrete logger *)

#[local] Existing Instance ascii_unicode.

Fixpoint attr_text (v : lval) : list Z :=
  match v with
  | VString s => s
  | VOther t => t
  | VGroup attrs => str "[" ++ mjoin (map (fun '(k, u) => k ++ str "=" ++ attr_text u ++ str " ") attrs) ++ str "]"
  | _ => []
  end.

(** An inner handler that answers with the line it would print. *)
Definition printer : SlogHandler unit := {|
  sh_Enabled _ _ := true;
  sh_Handle _ r := Some (rc_message r ++ mjoin ((fun a => str " " ++ a.1 ++ str "=" ++ attr_text a.2) <$> rc_attrs r));
  sh_WithAttrs h _ := h;
  sh_WithGroup h _ := h
|}.
#[local] Existing Instance printer.

Definition plain (k : rkind) : rv := RNode (TInfo None None false) k.
(** A struct with a field that redacts itself through its pointer, held in an
    unexported field, and an unexported pointer. *)
Definition sample_value (secret : list Z) (target : Z) : rv :=
  plain (KStruct [
    (str "Name", true, plain (KLeaf (str "bob")));
    (str "DBPassword", true, plain (KLeaf secret));
    (str "buf", false, RNode (TInfo None (Some (ByFmt (str "[hidden]"))) false) (KStruct [(str "data", false, plain (KBytes true secret))]));
    (str "next", false, plain (KPtr (Some target)))]).
Definition sample_record (secret : list Z) (target : Z) : record :=
  MkRecord (str "login") [(str "password", VString secret); (str "user", VAny (sample_value secret target));
    (str "db", VGroup [(str "token", VString secret); (str "table", VString (str "t1"))])] 0.
Definition sample_logger : Handler unit := WithGroup (NewHandler tt None []) (str "app").

(** A value without methods of its own is walked. *)
Lemma alike_plain ks heap1 heap2 stack d ro p k k' :
  nil_ptr (plain k) = nil_ptr (plain k') ->
  match k, k' with KBytes _ _, _ | _, KBytes _ _ | KIface _, _ | _, KIface _ => False | _, _ => True end ->
  alike_kind ks heap1 heap2 (alikes ks heap1 heap2 stack d).1 ro p k k' ->
  (alikes ks heap1 heap2 stack (S d)).1 ro p (plain k) (plain k').
Proof.
  intros Hn Hk Ha. cbn [alikes fst]. change (RNode (TInfo None None false)) with plain. unfold alike_node.
  destruct ro; [right; destruct k, k'; try done; by destruct Hk|]. split; [destruct k, k'; try done; by destruct Hk|]. right. split; [done|].
  assert (own_method (plain k) = None /\ own_method (plain k') = None /\ addr_method (plain k) = None /\ addr_method (plain k') = None) as (-> & -> & -> & ->)
    by (destruct k, k'; try done; by destruct Hk).
  split; [constructor|]. right. split; [constructor|by right].
Qed.


Lemma handler_noninterference_witness :
  let heap1 : gmap Z rv := {[1 := plain (KLeaf (str "one"))]} in
  let heap2 : gmap Z rv := ∅ in
  Handle heap1 [] sample_logger (sample_record (str "hunter2") 1) =
  Handle heap2 [] sample_logger (sample_record (str "correct horse") 7).
Proof.
  intros heap1 heap2. apply handler_noninterference; [reflexivity|reflexivity|].
  apply Forall2_cons. split; [split; [reflexivity|apply aa_key; right; vm_compute; reflexivity]|].
  apply Forall2_cons. split; [split; [reflexivity|apply aa_any]|].
  - unfold alike_value, sample_value. apply (alike_plain _ _ _ _ maxRenderDepth); [reflexivity|exact I|].
    change maxRenderDepth with 8%nat. cbn [alike_kind].
    apply Forall2_cons. split; [split; [reflexivity|right; apply (alike_plain _ _ _ _ 7); [reflexivity|exact I|reflexivity]]|].
    apply Forall2_cons. split; [split; [reflexivity|left; vm_compute; reflexivity]|].
    apply Forall2_cons. split; [split; [reflexivity|right; left; split; reflexivity]|].
    apply Forall2_cons. split; [split; [reflexivity|right; apply (alike_plain _ _ _ _ 7); [reflexivity|exact I|left; reflexivity]]|constructor].
  - apply Forall2_cons. split; [split; [reflexivity|apply aa_group]|by constructor].
    apply Forall2_cons. split; [split; [reflexivity|apply aa_key; right; vm_compute; reflexivity]|].
    apply Forall2_cons. split; [split; [reflexivity|apply aa_string]|constructor].
Defined.
