(* ===== verification/Blake2b.v ===== *)
(** * BLAKE2b (secmem-crypto/internal/argon2/blake2b_generic.go)

    The portable compression function over 64-bit words and the one-shot digest
    of any length, and their equality with RFC 7693. *)
From S2P Require Import Prelude Bytes.

(** ** 64-bit words *)

Definition add64 (a b : Z) : Z := (a + b) mod 2 ^ 64.
Definition sub64 (a b : Z) : Z := (a - b) mod 2 ^ 64.
(** [bits.RotateLeft64], whose argument may be negative. *)
Definition RotateLeft64 (x k : Z) : Z :=
  let s := Z.land k 63 in Z.lor (Z.shiftl x s mod 2 ^ 64) (Z.shiftr x (64 - s)).

(** [binary.LittleEndian.Uint64(b[off:])] and [PutUint64], [PutUint32]. *)
Definition le64 (b : list Z) (off : nat) : Z := be (reverse (take 8 (drop off b))).
Definition put64 (v : Z) : list Z := reverse (be_bytes 8 v).
Definition put32 (v : Z) : list Z := reverse (be_bytes 4 v).

(** A string of octets as words, and back. *)
Definition words64 (n : nat) (b : list Z) : list Z := (fun j => le64 b (8 * j)) <$> seq 0 n.

(** ** The compression function *)

Definition blake2b_Size : Z := 64.
Definition blake2b_BlockSize : Z := 128.

Definition iv : list Z :=
  [0x6a09e667f3bcc908; 0xbb67ae8584caa73b; 0x3c6ef372fe94f82b; 0xa54ff53a5f1d36f1;
   0x510e527fade682d1; 0x9b05688c2b3e6c1f; 0x1f83d9abfb41bd6b; 0x5be0cd19137e2179].

Definition precomputed : list (list nat) :=
  [[0; 2; 4; 6; 1; 3; 5; 7; 8; 10; 12; 14; 9; 11; 13; 15];
   [14; 4; 9; 13; 10; 8; 15; 6; 1; 0; 11; 5; 12; 2; 7; 3];
   [11; 12; 5; 15; 8; 0; 2; 13; 10; 3; 7; 9; 14; 6; 1; 4];
   [7; 3; 13; 11; 9; 1; 12; 14; 2; 5; 4; 15; 6; 10; 0; 8];
   [9; 5; 2; 10; 0; 7; 4; 15; 14; 11; 6; 3; 1; 12; 8; 13];
   [2; 6; 0; 8; 12; 10; 11; 3; 4; 7; 15; 1; 13; 5; 14; 9];
   [12; 1; 14; 4; 5; 15; 13; 10; 0; 6; 9; 8; 7; 3; 2; 11];
   [13; 7; 12; 3; 11; 14; 1; 9; 5; 15; 8; 2; 0; 4; 6; 10];
   [6; 14; 11; 0; 15; 9; 3; 8; 12; 13; 1; 10; 2; 7; 4; 5];
   [10; 8; 7; 1; 2; 4; 6; 5; 15; 9; 3; 13; 11; 14; 12; 0];
   [0; 2; 4; 6; 1; 3; 5; 7; 8; 10; 12; 14; 9; 11; 13; 15];
   [14; 4; 9; 13; 10; 8; 15; 6; 1; 0; 11; 5; 12; 2; 7; 3]]%nat.

(** The eight statements the loop repeats: [va += m[x]; va += vb; vd ^= va;
    vd = RotateLeft64(vd, -r1); vc += vd; vb ^= vc; vb = RotateLeft64(vb, -r2)].
    The variables v0 to v15 are a list. *)
Definition half_g (m : list Z) (v : list Z) (op : nat * nat * nat * nat * nat * nat * nat) : list Z :=
  let '(a, b, c, d, x, r1, r2) := op in
  let v := <[a := add64 (v !!! a) (m !!! x)]> v in
  let v := <[a := add64 (v !!! a) (v !!! b)]> v in
  let v := <[d := Z.lxor (v !!! d) (v !!! a)]> v in
  let v := <[d := RotateLeft64 (v !!! d) (- Z.of_nat r1)]> v in
  let v := <[c := add64 (v !!! c) (v !!! d)]> v in
  let v := <[b := Z.lxor (v !!! b) (v !!! c)]> v in
  <[b := RotateLeft64 (v !!! b) (- Z.of_nat r2)]> v.

(** The sixteen groups of one round, in the order of the source. *)
Definition round_ops (s : list nat) : list (nat * nat * nat * nat * nat * nat * nat) :=
  let at_ (i : nat) := s !!! i in
  [(0, 4, 8, 12, at_ 0, 32, 24); (1, 5, 9, 13, at_ 1, 32, 24); (2, 6, 10, 14, at_ 2, 32, 24); (3, 7, 11, 15, at_ 3, 32, 24);
   (0, 4, 8, 12, at_ 4, 16, 63); (1, 5, 9, 13, at_ 5, 16, 63); (2, 6, 10, 14, at_ 6, 16, 63); (3, 7, 11, 15, at_ 7, 16, 63);
   (0, 5, 10, 15, at_ 8, 32, 24); (1, 6, 11, 12, at_ 9, 32, 24); (2, 7, 8, 13, at_ 10, 32, 24); (3, 4, 9, 14, at_ 11, 32, 24);
   (0, 5, 10, 15, at_ 12, 16, 63); (1, 6, 11, 12, at_ 13, 16, 63); (2, 7, 8, 13, at_ 14, 16, 63); (3, 4, 9, 14, at_ 15, 16, 63)]%nat.

(** The body of the outer loop once the block is read into [m]. *)
Definition compress (h : list Z) (c0 c1 flag : Z) (m : list Z) : list Z :=
  let v := h ++ iv in
  let v := <[12%nat := Z.lxor (v !!! 12%nat) c0]> v in
  let v := <[13%nat := Z.lxor (v !!! 13%nat) c1]> v in
  let v := <[14%nat := Z.lxor (v !!! 14%nat) flag]> v in
  let v := foldl (fun v s => foldl (half_g m) v (round_ops s)) v precomputed in
  (fun i => Z.lxor (h !!! i) (Z.lxor (v !!! i) (v !!! (i + 8)%nat))) <$> seq 0 8.

(** [h] and [c] afterwards; [None] is the panic on a block cut short. [n]
    bounds the turns. *)
Fixpoint hash_blocks (n : nat) (h : list Z) (c : Z * Z) (flag : Z) (blocks : list Z) : option (list Z * (Z * Z)) :=
  match blocks with
  | [] => Some (h, c)
  | _ =>
      match n with
      | O => None
      | S n =>
          let '(c0, c1) := c in
          let c0 := add64 c0 blake2b_BlockSize in
          let c1 := if (c0 <? blake2b_BlockSize) then add64 c1 1 else c1 in
          if (zlen blocks <? blake2b_BlockSize) then None
          else hash_blocks n (compress h c0 c1 flag (words64 16 blocks)) (c0, c1) flag (drop 128 blocks)
      end
  end.
Definition hashBlocksGeneric (h : list Z) (c : Z * Z) (flag : Z) (blocks : list Z) : option (list Z * (Z * Z)) :=
  hash_blocks (length blocks) h c flag blocks.

Definition finalFlag : Z := 0xFFFFFFFFFFFFFFFF.

(** The ending [checkSum] and [initHash] share: the counter is set back by what
    the last block lacks, and the block is compressed with the final flag. *)
Definition finish (h : list Z) (c : Z * Z) (remaining : Z) (block : list Z) : option (list Z) :=
  let '(c0, c1) := c in
  let c1 := if (c0 <? remaining) then sub64 c1 1 else c1 in
  let c0 := sub64 c0 remaining in
  fst <$> hashBlocksGeneric h (c0, c1) finalFlag block.

(** [sum] afterwards; [None] is a panic. *)
Definition checkSum (sum : list Z) (hashSize : Z) (data : list Z) : option (list Z) :=
  let h := <[0%nat := Z.lxor (iv !!! 0%nat) (Z.lor hashSize (Z.lor (Z.shiftl 1 16) (Z.shiftl 1 24)))]> iv in
  '(h, c, data) ←
    (if (blake2b_BlockSize <? zlen data) then
       let n := Z.land (zlen data) (Z.lnot (blake2b_BlockSize - 1)) in
       let n := if (zlen data =? n) then n - blake2b_BlockSize else n in
       '(h, c) ← hashBlocksGeneric h (0, 0) 0 (lsub 0 n data);
       Some (h, c, drop (Z.to_nat n) data)
     else Some (h, (0, 0), data));
  let block := copy_at 0 data (zeros blake2b_BlockSize) in
  let offset := Z.min blake2b_BlockSize (zlen data) in
  h ← finish h c (blake2b_BlockSize - offset) block;
  Some (lset 0 (take (Z.to_nat ((hashSize + 7) / 8)) h ≫= put64) sum).

(** ** RFC 7693 *)

Definition SIGMA : list (list nat) :=
  [[0; 1; 2; 3; 4; 5; 6; 7; 8; 9; 10; 11; 12; 13; 14; 15];
   [14; 10; 4; 8; 9; 15; 13; 6; 1; 12; 0; 2; 11; 7; 5; 3];
   [11; 8; 12; 0; 5; 2; 15; 13; 10; 14; 3; 6; 7; 1; 9; 4];
   [7; 9; 3; 1; 13; 12; 11; 14; 2; 6; 5; 10; 4; 0; 15; 8];
   [9; 0; 5; 7; 2; 4; 10; 15; 14; 1; 11; 12; 6; 8; 3; 13];
   [2; 12; 6; 10; 0; 11; 8; 3; 4; 13; 7; 5; 15; 14; 1; 9];
   [12; 5; 1; 15; 14; 13; 4; 10; 0; 7; 6; 3; 9; 2; 8; 11];
   [13; 11; 7; 14; 12; 1; 3; 9; 5; 0; 15; 4; 8; 6; 2; 10];
   [6; 15; 14; 9; 11; 3; 0; 8; 12; 2; 13; 7; 1; 4; 10; 5];
   [10; 2; 8; 4; 7; 6; 1; 5; 15; 11; 9; 14; 3; 12; 13; 0]]%nat.

(** [x >>> n] *)
Definition rotr (x n : Z) : Z := Z.lor (Z.shiftr x n) (Z.shiftl x (64 - n) mod 2 ^ 64).

(** Section 3.1: the mixing function, four lines for each of the two words. *)
Definition G_lines (v : list Z) (a b c d : nat) (x r1 r2 : Z) : list Z :=
  let v := <[a := ((v !!! a) + (v !!! b) + x) mod 2 ^ 64]> v in
  let v := <[d := rotr (Z.lxor (v !!! d) (v !!! a)) r1]> v in
  let v := <[c := ((v !!! c) + (v !!! d)) mod 2 ^ 64]> v in
  <[b := rotr (Z.lxor (v !!! b) (v !!! c)) r2]> v.
Definition G (v : list Z) (a b c d : nat) (x y : Z) : list Z :=
  G_lines (G_lines v a b c d x 32 24) a b c d y 16 63.

Definition rfc_round (m : list Z) (v : list Z) (s : list nat) : list Z :=
  let x (i : nat) := m !!! (s !!! i) in
  let v := G v 0 4 8 12 (x 0%nat) (x 1%nat) in
  let v := G v 1 5 9 13 (x 2%nat) (x 3%nat) in
  let v := G v 2 6 10 14 (x 4%nat) (x 5%nat) in
  let v := G v 3 7 11 15 (x 6%nat) (x 7%nat) in
  let v := G v 0 5 10 15 (x 8%nat) (x 9%nat) in
  let v := G v 1 6 11 12 (x 10%nat) (x 11%nat) in
  let v := G v 2 7 8 13 (x 12%nat) (x 13%nat) in
  G v 3 4 9 14 (x 14%nat) (x 15%nat).

(** Section 3.2: [t] counts the octets, [f] flags the last block. *)
Definition F (h m : list Z) (t : Z) (f : bool) : list Z :=
  let v := h ++ iv in
  let v := <[12%nat := Z.lxor (v !!! 12%nat) (t mod 2 ^ 64)]> v in
  let v := <[13%nat := Z.lxor (v !!! 13%nat) (t / 2 ^ 64)]> v in
  let v := if f then <[14%nat := Z.lxor (v !!! 14%nat) (2 ^ 64 - 1)]> v else v in
  let v := foldl (fun v i => rfc_round m v (SIGMA !!! (i mod 10)%nat)) v (seq 0 12) in
  (fun i => Z.lxor (Z.lxor (h !!! i) (v !!! i)) (v !!! (i + 8)%nat)) <$> seq 0 8.

(** Section 3.3, without a key, for messages of fewer than 2^128 octets: all
    blocks but the last, then the last one padded with zeros. *)
Definition blocks_before_last (ll : Z) : nat := Z.to_nat ((ll - 1) / 128).
Definition chaining (h : list Z) (d : list Z) (n : nat) : list Z :=
  foldl (fun h i => F h (words64 16 (drop (128 * i) d)) (128 * (Z.of_nat i + 1)) false) h (seq 0 n).
Definition BLAKE2b (nn : Z) (d : list Z) : list Z :=
  let h := <[0%nat := Z.lxor (Z.lxor (iv !!! 0%nat) 0x01010000) nn]> iv in
  let n := blocks_before_last (zlen d) in
  let last := drop (128 * n) d in
  let h := F (chaining h d n) (words64 16 (last ++ zeros (128 - zlen last))) (zlen d) true in
  take (Z.to_nat nn) (h ≫= put64).

(** ** Rounds *)

(** What one group computes from its four variables and its word. *)
Definition mix_a (a b x : Z) : Z := add64 (add64 a x) b.
Definition mix_d (r1 : nat) (a b d x : Z) : Z := RotateLeft64 (Z.lxor d (mix_a a b x)) (- Z.of_nat r1).
Definition mix_c (r1 : nat) (a b c d x : Z) : Z := add64 c (mix_d r1 a b d x).
Definition mix_b (r1 r2 : nat) (a b c d x : Z) : Z := RotateLeft64 (Z.lxor b (mix_c r1 a b c d x)) (- Z.of_nat r2).
Definition half (v : list Z) (a b c d : nat) (x : Z) (r1 r2 : nat) : list Z :=
  let va := v !!! a in let vb := v !!! b in let vc := v !!! c in let vd := v !!! d in
  <[b := mix_b r1 r2 va vb vc vd x]> (<[c := mix_c r1 va vb vc vd x]> (<[d := mix_d r1 va vb vd x]> (<[a := mix_a va vb x]> v))).

Definition apart (v : list Z) (a b c d : nat) : Prop :=
  (a <> b /\ a <> c /\ a <> d /\ b <> c /\ b <> d /\ c <> d) /\
  (a < length v)%nat /\ (b < length v)%nat /\ (c < length v)%nat /\ (d < length v)%nat.

Ltac read_lists := repeat first
  [ rewrite list_lookup_total_insert_eq by (rewrite ?length_insert; lia)
  | rewrite list_lookup_total_insert_ne by congruence | rewrite list_insert_insert_eq ].

Lemma half_g_half m v a b c d x r1 r2 : apart v a b c d -> half_g m v (a, b, c, d, x, r1, r2) = half v a b c d (m !!! x) r1 r2.
Proof. intros ((?&?&?&?&?&?)&?&?&?&?). unfold half_g, half, mix_b, mix_c, mix_d, mix_a. read_lists. reflexivity. Qed.

Lemma rotate_rotr x n : (0 < n < 64)%nat -> RotateLeft64 x (- Z.of_nat n) = rotr x (Z.of_nat n).
Proof.
  intros Hn. unfold RotateLeft64, rotr. rewrite Z.lor_comm.
  replace (Z.land (- Z.of_nat n) 63) with (64 - Z.of_nat n); [do 2 f_equal; lia|].
  change 63 with (Z.ones 6). rewrite Z.land_ones by lia. change (2 ^ 6) with 64.
  apply (Z.mod_unique_pos _ _ (-1)); lia.
Qed.

Lemma add64_sum a b x : add64 (add64 a x) b = (a + b + x) mod 2 ^ 64.
Proof. unfold add64. rewrite Z.add_mod_idemp_l by lia. f_equal. lia. Qed.

Lemma G_lines_half v a b c d x (r1 r2 : nat) : apart v a b c d -> (0 < r1 < 64)%nat -> (0 < r2 < 64)%nat -> G_lines v a b c d x (Z.of_nat r1) (Z.of_nat r2) = half v a b c d x r1 r2.
Proof.
  intros ((?&?&?&?&?&?)&?&?&?&?) ??. unfold G_lines, half, mix_b, mix_c, mix_d, mix_a. rewrite !rotate_rotr by done.
  rewrite add64_sum. unfold add64. read_lists. reflexivity.
Qed.

Lemma length_half v a b c d x r1 r2 : length (half v a b c d x r1 r2) = length v.
Proof. unfold half. by rewrite !length_insert. Qed.

Lemma length_half_g m v op : length (half_g m v op) = length v.
Proof. destruct op as [[[[[[a b] c] d] x] r1] r2]. unfold half_g. by rewrite !length_insert. Qed.

Lemma G_half v a b c d x y : apart v a b c d -> G v a b c d x y = half (half v a b c d x 32 24) a b c d y 16 63.
Proof.
  intros Hv. unfold G. change (G_lines v a b c d x 32 24) with (G_lines v a b c d x (Z.of_nat 32) (Z.of_nat 24)).
  rewrite G_lines_half by (done || lia).
  apply (G_lines_half _ a b c d y 16 63); [|lia..]. unfold apart in *. by rewrite length_half.
Qed.

Lemma length_G v a b c d x y : length (G v a b c d x y) = length v.
Proof. unfold G, G_lines. by rewrite !length_insert. Qed.

Ltac sixteen v := do 16 (destruct v as [|? v]; [discriminate|]); destruct v; [|discriminate].
Ltac mix_lists := rewrite !G_half by (unfold apart; rewrite ?length_G; cbn; lia); cbn [half insert list_insert lookup_total list_lookup_total]; reflexivity.

Lemma halves_columns v x0 x1 x2 x3 y0 y1 y2 y3 :
  length v = 16%nat ->
  half (half (half (half (half (half (half (half v 0 4 8 12 x0 32 24) 1 5 9 13 x1 32 24) 2 6 10 14 x2 32 24) 3 7 11 15 x3 32 24)
    0 4 8 12 y0 16 63) 1 5 9 13 y1 16 63) 2 6 10 14 y2 16 63) 3 7 11 15 y3 16 63 =
  G (G (G (G v 0 4 8 12 x0 y0) 1 5 9 13 x1 y1) 2 6 10 14 x2 y2) 3 7 11 15 x3 y3.
Proof. intros Hv. sixteen v. mix_lists. Qed.

Lemma halves_diagonals v x0 x1 x2 x3 y0 y1 y2 y3 :
  length v = 16%nat ->
  half (half (half (half (half (half (half (half v 0 5 10 15 x0 32 24) 1 6 11 12 x1 32 24) 2 7 8 13 x2 32 24) 3 4 9 14 x3 32 24)
    0 5 10 15 y0 16 63) 1 6 11 12 y1 16 63) 2 7 8 13 y2 16 63) 3 4 9 14 y3 16 63 =
  G (G (G (G v 0 5 10 15 x0 y0) 1 6 11 12 x1 y1) 2 7 8 13 x2 y2) 3 4 9 14 x3 y3.
Proof. intros Hv. sixteen v. mix_lists. Qed.

(** The order of the words in [precomputed]. *)
Definition regroup (s : list nat) : list nat :=
  (fun i => s !!! i) <$> [0; 2; 4; 6; 1; 3; 5; 7; 8; 10; 12; 14; 9; 11; 13; 15]%nat.

Lemma precomputed_sigma : precomputed = (fun i => regroup (SIGMA !!! (i mod 10)%nat)) <$> seq 0 12.
Proof. reflexivity. Qed.

Lemma round_spec m v s : length v = 16%nat -> foldl (half_g m) v (round_ops (regroup s)) = rfc_round m v s.
Proof.
  intros Hv. unfold round_ops, rfc_round. cbn [foldl]. rewrite !half_g_half by (unfold apart; rewrite ?length_half, ?length_half_g, Hv; lia).
  rewrite halves_columns by done. rewrite halves_diagonals by (by rewrite !length_G). reflexivity.
Qed.

Lemma length_rfc_round m v s : length (rfc_round m v s) = length v.
Proof. unfold rfc_round. by rewrite !length_G. Qed.

Lemma rounds_spec m v l : length v = 16%nat ->
  foldl (fun v s => foldl (half_g m) v (round_ops s)) v ((fun i => regroup (SIGMA !!! (i mod 10)%nat)) <$> l) =
  foldl (fun v i => rfc_round m v (SIGMA !!! (i mod 10)%nat)) v l.
Proof.
  revert v. induction l as [|i l IH]; intros v Hv; [done|]. rewrite fmap_cons. cbn [foldl].
  rewrite round_spec by done. apply IH. by rewrite length_rfc_round.
Qed.
#[global] Opaque rfc_round.

(** One compression, the counter in two words. *)
Lemma compress_spec h c0 c1 m (f : bool) :
  length h = 8%nat -> 0 <= c0 < 2 ^ 64 ->
  compress h c0 c1 (if f then finalFlag else 0) m = F h m (c0 + 2 ^ 64 * c1) f.
Proof.
  intros Hh Hc. unfold compress, F. rewrite precomputed_sigma, rounds_spec by (by rewrite !length_insert, length_app, Hh).
  assert (E0 : (c0 + 2 ^ 64 * c1) mod 2 ^ 64 = c0) by (rewrite Z.mul_comm, Z_mod_plus_full; by apply Z.mod_small).
  assert (E1 : (c0 + 2 ^ 64 * c1) / 2 ^ 64 = c1) by (rewrite Z.mul_comm, Z_div_plus_full, Z.div_small; lia).
  rewrite E0, E1. set (v := <[13%nat := _]> _).
  assert (<[14%nat := Z.lxor (v !!! 14%nat) (if f then finalFlag else 0)]> v =
    if f then <[14%nat := Z.lxor (v !!! 14%nat) (2 ^ 64 - 1)]> v else v) as ->.
  { destruct f; [done|]. rewrite Z.lxor_0_r. apply list_insert_id, list_lookup_lookup_total_lt.
    unfold v. rewrite !length_insert, length_app, Hh. cbn. lia. }
  apply list_fmap_ext. intros _ i _. by rewrite Z.lxor_assoc.
Qed.

Lemma length_F h m t f : length (F h m t f) = 8%nat.
Proof. unfold F. by rewrite length_fmap, length_seq. Qed.
#[global] Opaque F compress.

(** ** The byte counter *)

(** The counter [t], modulo 2^128, in two words. *)
Definition counter_is (c : Z * Z) (t : Z) : Prop :=
  0 <= c.1 < 2 ^ 64 /\ 0 <= c.2 < 2 ^ 64 /\ c.1 + 2 ^ 64 * c.2 = t mod 2 ^ 128.

Lemma counter_zero : counter_is (0, 0) 0.
Proof. split_and!; [done..|reflexivity]. Qed.

Lemma counter_mod c t t' : counter_is c t -> t mod 2 ^ 128 = t' mod 2 ^ 128 -> counter_is c t'.
Proof. unfold counter_is. intros (? & ? & ->) ->. auto. Qed.

(** A word sum and its carry. *)
Lemma add64_carry a n : 0 <= a < 2 ^ 64 -> 0 <= n < 2 ^ 64 -> a + n = add64 a n + 2 ^ 64 * (if add64 a n <? n then 1 else 0).
Proof.
  intros Ha Hn. unfold add64. destruct (decide (a + n < 2 ^ 64)).
  - rewrite Z.mod_small by lia. destruct (Z.ltb_spec (a + n) n); lia.
  - rewrite <- (Z.mod_unique_pos (a + n) (2 ^ 64) 1 (a + n - 2 ^ 64)) by lia. destruct (Z.ltb_spec (a + n - 2 ^ 64) n); lia.
Qed.

Lemma sub64_borrow a n : 0 <= a < 2 ^ 64 -> 0 <= n < 2 ^ 64 -> a - n = sub64 a n - 2 ^ 64 * (if a <? n then 1 else 0).
Proof.
  intros Ha Hn. unfold sub64. destruct (Z.ltb_spec a n).
  - rewrite <- (Z.mod_unique_pos (a - n) (2 ^ 64) (-1) (a - n + 2 ^ 64)) by lia. lia.
  - rewrite Z.mod_small by lia. lia.
Qed.

Lemma counter_pair x y t : 0 <= x < 2 ^ 64 -> (x + 2 ^ 64 * y) mod 2 ^ 128 = t mod 2 ^ 128 -> counter_is (x, y mod 2 ^ 64) t.
Proof.
  intros Hx Ht. assert (0 <= y mod 2 ^ 64 < 2 ^ 64) as Hy by (apply Z.mod_pos_bound; lia). split; [done|]. split; [done|]. cbn [fst snd].
  rewrite <- Ht. apply (Z.mod_unique_pos _ _ (y / 2 ^ 64)); [lia|]. pose proof (Z.div_mod y (2 ^ 64)). lia.
Qed.

Lemma counter_add c t n : counter_is c t -> 0 <= n < 2 ^ 64 ->
  counter_is (add64 c.1 n, if (add64 c.1 n <? n) then add64 c.2 1 else c.2) (t + n).
Proof.
  intros (H0 & H1 & E) Hn. pose proof (add64_carry c.1 n H0 Hn) as Ec.
  assert (0 <= add64 c.1 n < 2 ^ 64) by (apply Z.mod_pos_bound; lia).
  assert (forall y, counter_is (add64 c.1 n, y mod 2 ^ 64) (t + n) -> y mod 2 ^ 64 = (if add64 c.1 n <? n then add64 c.2 1 else c.2) ->
    counter_is (add64 c.1 n, if add64 c.1 n <? n then add64 c.2 1 else c.2) (t + n)) as K by (intros y Hy <-; done).
  apply (K (c.2 + if add64 c.1 n <? n then 1 else 0)).
  - apply counter_pair; [done|]. rewrite <- (Z.add_mod_idemp_l t) by lia. rewrite <- E. f_equal. lia.
  - destruct (add64 c.1 n <? n); [done|]. rewrite Z.add_0_r. by apply Z.mod_small.
Qed.

Lemma counter_sub c t n : counter_is c t -> 0 <= n < 2 ^ 64 ->
  counter_is (sub64 c.1 n, if (c.1 <? n) then sub64 c.2 1 else c.2) (t - n).
Proof.
  intros (H0 & H1 & E) Hn. pose proof (sub64_borrow c.1 n H0 Hn) as Ec.
  assert (0 <= sub64 c.1 n < 2 ^ 64) by (apply Z.mod_pos_bound; lia).
  assert (forall y, counter_is (sub64 c.1 n, y mod 2 ^ 64) (t - n) -> y mod 2 ^ 64 = (if c.1 <? n then sub64 c.2 1 else c.2) ->
    counter_is (sub64 c.1 n, if c.1 <? n then sub64 c.2 1 else c.2) (t - n)) as K by (intros y Hy <-; done).
  apply (K (c.2 - if c.1 <? n then 1 else 0)).
  - apply counter_pair; [done|]. rewrite <- (Zminus_mod_idemp_l t). rewrite <- E. f_equal. lia.
  - destruct (c.1 <? n); [done|]. rewrite Z.sub_0_r. by apply Z.mod_small.
Qed.

Lemma counter_value c t : counter_is c t -> 0 <= t < 2 ^ 128 -> c.1 + 2 ^ 64 * c.2 = t.
Proof. intros (_ & _ & ->) ?. by apply Z.mod_small. Qed.

(** ** Whole blocks *)

Lemma words64_app n a b : (8 * n <= length a)%nat -> words64 n (a ++ b) = words64 n a.
Proof.
  intros Hn. unfold words64. apply list_fmap_ext. intros i j Hj. apply lookup_seq in Hj as [-> Hj]. unfold le64. do 2 f_equal.
  rewrite drop_app_le by lia. rewrite take_app_le; [done|]. rewrite length_drop. lia.
Qed.

Lemma words64_take n a : words64 n (take (8 * n) a) = words64 n a.
Proof.
  destruct (decide (8 * n <= length a)%nat).
  - rewrite <- (take_drop (8 * n) a) at 2. rewrite words64_app; [done|]. rewrite length_take. lia.
  - by rewrite take_ge by lia.
Qed.

(** The chaining value after [k] blocks of [d], the counter starting at [t]. *)
Definition chain_from (h : list Z) (t : Z) (d : list Z) (k : nat) : list Z :=
  foldl (fun h i => F h (words64 16 (drop (128 * i) d)) (t + 128 * (Z.of_nat i + 1)) false) h (seq 0 k).

Lemma chaining_from h d k : chaining h d k = chain_from h 0 d k.
Proof. reflexivity. Qed.

Lemma chain_from_S h t d k : chain_from h t d (S k) = chain_from (F h (words64 16 d) (t + 128) false) (t + 128) (drop 128 d) k.
Proof.
  unfold chain_from. cbn [seq foldl]. rewrite Nat.mul_0_r, drop_0. replace (t + 128 * (Z.of_nat 0 + 1)) with (t + 128) by lia.
  rewrite <- seq_shift. generalize (F h (words64 16 d) (t + 128) false) as g. generalize (seq 0 k) as l. clear h k.
  intros l. induction l as [|i l IH]; intros g; cbn [map foldl]; [reflexivity|].
  rewrite IH. apply (f_equal (fun x => foldl _ x l)). rewrite drop_drop.
  replace (128 + 128 * i)%nat with (128 * S i)%nat by lia. apply (f_equal (fun x => F g _ x false)). lia.
Qed.

Lemma chain_from_last h t d k : chain_from h t d (S k) = F (chain_from h t d k) (words64 16 (drop (128 * k) d)) (t + 128 * (Z.of_nat k + 1)) false.
Proof. unfold chain_from. rewrite seq_S, foldl_app. done. Qed.

Lemma chain_from_app h t a b k : (128 * k <= length a)%nat -> chain_from h t (a ++ b) k = chain_from h t a k.
Proof.
  intros Hk. unfold chain_from. assert (Forall (fun i => (128 * (i + 1) <= length a)%nat) (seq 0 k)) as Hs.
  { apply Forall_seq. lia. }
  revert h. induction Hs as [|i l Hi _ IH]; intros h; cbn [foldl]; [reflexivity|]. rewrite IH. rewrite drop_app_le by lia.
  rewrite words64_app by (rewrite length_drop; lia). reflexivity.
Qed.

Lemma length_chain_from h t d k : length h = 8%nat -> length (chain_from h t d k) = 8%nat.
Proof. intros Hh. destruct k; [done|]. rewrite chain_from_last. apply length_F. Qed.

(** Whole blocks through the loop of [hashBlocksGeneric]. *)
Lemma hash_blocks_run k n h c t d :
  length h = 8%nat -> length d = (128 * k)%nat -> (k <= n)%nat -> counter_is c t -> 0 <= t -> t + 128 * Z.of_nat k < 2 ^ 128 ->
  exists c', hash_blocks n h c 0 d = Some (chain_from h t d k, c') /\ counter_is c' (t + 128 * Z.of_nat k).
Proof.
  revert n h c t d. induction k as [|k IH]; intros n h c t d Hh Hd Hn Hc Ht Hlt.
  { destruct d; [|done]. exists c. split; [by destruct n|]. by rewrite Z.add_0_r. }
  destruct n as [|n]; [lia|]. destruct d as [|x d']; [done|]. cbn [hash_blocks]. set (d := x :: d') in *.
  destruct c as [c0 c1]. pose proof (counter_add _ _ 128 Hc ltac:(lia)) as Hc'. cbn [fst snd] in Hc'.
  unfold blake2b_BlockSize. destruct (Z.ltb_spec (zlen d) 128) as [Hz|_]; [unfold zlen in Hz; lia|].
  pose proof (counter_value _ _ Hc' ltac:(lia)) as Ev. cbn [fst snd] in Ev.
  rewrite (compress_spec h (add64 c0 128) _ (words64 16 d) false Hh) by apply Hc'. rewrite Ev.
  destruct (IH n (F h (words64 16 d) (t + 128) false) _ (t + 128) (drop 128 d) (length_F _ _ _ _)
    ltac:(rewrite length_drop; lia) ltac:(lia) Hc' ltac:(lia) ltac:(lia)) as (c2 & E & Hc2).
  exists c2. split; [|eapply counter_mod; [exact Hc2|f_equal; lia]]. rewrite chain_from_S. exact E.
Qed.

(** ** A message on its way through *)

#[global] Opaque chaining chain_from.

(** The chaining value of the whole message, the last block flagged. *)
Definition digest_of (h msg : list Z) : list Z :=
  let n := blocks_before_last (zlen msg) in
  let last := drop (128 * n) msg in
  F (chaining h msg n) (words64 16 (last ++ zeros (128 - zlen last))) (zlen msg) true.

Lemma BLAKE2b_digest nn d :
  BLAKE2b nn d = take (Z.to_nat nn) (digest_of (<[0%nat := Z.lxor (Z.lxor (iv !!! 0%nat) 0x01010000) nn]> iv) d ≫= put64).
Proof. reflexivity. Qed.

(** [msg] has been taken in: its whole blocks compressed, [tail] waiting. *)
Definition absorbing (h0 msg h : list Z) (c : Z * Z) (tail : list Z) : Prop :=
  exists front k, msg = front ++ tail /\ length front = (128 * k)%nat /\ (length tail <= 128)%nat /\
    (tail = [] -> front = []) /\ h = chain_from h0 0 front k /\ counter_is c (128 * Z.of_nat k).

Lemma absorbing_nil h0 : absorbing h0 [] h0 (0, 0) [].
Proof. exists [], 0%nat. split_and!; try done. cbn; lia. Qed.

Lemma absorbing_before_last h0 msg h c tail : absorbing h0 msg h c tail ->
  exists front, msg = front ++ tail /\ length front = (128 * blocks_before_last (zlen msg))%nat /\
    h = chaining h0 msg (blocks_before_last (zlen msg)) /\ counter_is c (128 * Z.of_nat (blocks_before_last (zlen msg))).
Proof.
  intros (front & k & -> & Hf & Ht & Hne & -> & Hc). assert (blocks_before_last (zlen (front ++ tail)) = k) as ->.
  { unfold blocks_before_last, zlen. rewrite length_app, Hf. destruct tail as [|x tail].
    - rewrite (Hne eq_refl) in Hf. cbn in *. destruct k; [reflexivity|lia].
    - cbn in *. rewrite <- (Z.div_unique_pos _ 128 (Z.of_nat k) (Z.of_nat (length tail))); lia. }
  exists front. rewrite chaining_from, chain_from_app by lia. done.
Qed.

(** One block, flagged. *)
Lemma hash_last h c t d : length h = 8%nat -> length d = 128%nat -> counter_is c t -> 0 <= t + 128 < 2 ^ 128 ->
  fst <$> hashBlocksGeneric h c finalFlag d = Some (F h (words64 16 d) (t + 128) true).
Proof.
  intros Hh Hd Hc Ht. unfold hashBlocksGeneric. rewrite Hd. change 128%nat with (S 127). generalize 127%nat as n. intros n.
  destruct c as [c0 c1]. pose proof (counter_add _ _ 128 Hc ltac:(lia)) as Hc'. cbn [fst snd] in Hc'.
  pose proof (counter_value _ _ Hc' Ht) as Ev. cbn [fst snd] in Ev.
  pose proof (compress_spec h (add64 c0 128) (if add64 c0 128 <? 128 then add64 c1 1 else c1) (words64 16 d) true Hh (proj1 Hc')) as Ec.
  rewrite Ev in Ec. destruct d as [|x d']; [done|]. cbn [hash_blocks]. set (d := x :: d') in *. unfold blake2b_BlockSize.
  destruct (Z.ltb_spec (zlen d) 128) as [Hz|_]; [unfold zlen in Hz; lia|].
  rewrite Ec. rewrite drop_ge by lia. by destruct n.
Qed.

#[global] Opaque hash_blocks.

Lemma finish_digest h0 msg h c tail block :
  absorbing h0 msg h c tail -> length h0 = 8%nat -> zlen msg < 2 ^ 128 -> block = tail ++ zeros (128 - zlen tail) ->
  finish h c (128 - zlen tail) block = Some (digest_of h0 msg).
Proof.
  intros Ha Hh Hlt ->. assert (length tail <= 128)%nat as Ht by (destruct Ha as (?&?&?&?&?&?); done).
  destruct (absorbing_before_last _ _ _ _ _ Ha) as (front & E & Hf & -> & Hc).
  unfold finish, digest_of. set (n := blocks_before_last (zlen msg)) in *. destruct c as [c0 c1].
  pose proof (counter_sub _ _ (128 - zlen tail) Hc ltac:(unfold zlen; lia)) as Hs. cbn [fst snd] in Hs.
  set (c0' := sub64 c0 _) in *. set (c1' := if c0 <? _ then _ else _) in *.
  assert (drop (128 * n) msg = tail) as -> by (rewrite E, <- Hf; apply drop_app_length).
  rewrite (hash_last _ _ (128 * Z.of_nat n - (128 - zlen tail))).
  - apply (f_equal (fun t => Some (F _ _ t true))). rewrite E, zlen_app. unfold zlen. lia.
  - rewrite chaining_from. exact (length_chain_from _ _ _ _ Hh).
  - unfold zeros, zlen. rewrite length_app, length_replicate. lia.
  - exact Hs.
  - rewrite E, zlen_app in Hlt. unfold zlen in *. lia.
Qed.

(** More whole blocks, at the front or behind what was taken in. *)
Lemma absorbing_block h0 msg h c tail d : absorbing h0 msg h c tail -> length tail = 128%nat -> length h0 = 8%nat -> zlen msg < 2 ^ 128 -> d <> [] ->
  (length d <= 128)%nat ->
  exists h' c', hashBlocksGeneric h c 0 tail = Some (h', c') /\ absorbing h0 (msg ++ d) h' c' d.
Proof.
  intros (front & k & -> & Hf & Ht & Hne & -> & Hc) Ht' Hh Hlt Hd Hd'. rewrite zlen_app in Hlt.
  destruct (hash_blocks_run 1 (length tail) (chain_from h0 0 front k) c (128 * Z.of_nat k) tail) as (c' & E & Hc');
    try done; try lia; [exact (length_chain_from _ _ _ _ Hh)|unfold zlen in *; lia|].
  exists (chain_from (chain_from h0 0 front k) (128 * Z.of_nat k) tail 1), c'. split; [exact E|].
  exists (front ++ tail), (S k). split_and!; [done|rewrite length_app; lia|done|done| |].
  - rewrite (chain_from_last h0 0 (front ++ tail) k), (chain_from_app h0 0 front tail k) by lia. rewrite <- Hf, drop_app_length.
    rewrite (chain_from_last _ _ _ 0). change (128 * 0)%nat with 0%nat. rewrite drop_0. change (chain_from ?h ?t ?d 0) with h. rewrite Z.add_0_l. replace (128 * (Z.of_nat k + 1)) with (128 * Z.of_nat k + 128) by lia. reflexivity.
  - eapply counter_mod; [exact Hc'|]. f_equal. lia.
Qed.

Lemma absorbing_front h0 msg k : length h0 = 8%nat -> zlen msg < 2 ^ 128 -> (128 * k < length msg <= 128 * (k + 1))%nat ->
  exists h c, hashBlocksGeneric h0 (0, 0) 0 (take (128 * k) msg) = Some (h, c) /\ absorbing h0 msg h c (drop (128 * k) msg).
Proof.
  intros Hh Hlt Hk. assert (length (take (128 * k) msg) = 128 * k)%nat as Hl by (rewrite length_take; lia).
  destruct (hash_blocks_run k (length (take (128 * k) msg)) h0 (0, 0) 0 (take (128 * k) msg)) as (c & E & Hc);
    [done|done|lia|exact counter_zero|lia|unfold zlen in Hlt; lia|].
  eexists _, c. split; [exact E|]. exists (take (128 * k) msg), k.
  split_and!; [by rewrite take_drop|done|rewrite length_drop; lia| |done|exact Hc].
  intros Hd. apply (f_equal length) in Hd. rewrite length_drop in Hd. cbn in Hd. lia.
Qed.

(** ** The one-shot digest *)

Lemma param_word nn : 1 <= nn <= 64 ->
  Z.lxor (iv !!! 0%nat) (Z.lor nn (Z.lor (Z.shiftl 1 16) (Z.shiftl 1 24))) = Z.lxor (Z.lxor (iv !!! 0%nat) 0x01010000) nn.
Proof.
  intros Hn.
  assert (forallb (fun n => Z.lxor (iv !!! 0%nat) (Z.lor n (Z.lor (Z.shiftl 1 16) (Z.shiftl 1 24))) =? Z.lxor (Z.lxor (iv !!! 0%nat) 0x01010000) n)
    (seqZ 1 64) = true) as Hall by (vm_compute; reflexivity).
  rewrite forallb_forall in Hall. apply Z.eqb_eq, Hall, list_elem_of_In, elem_of_seqZ. lia.
Qed.

Lemma length_put64 v : length (put64 v) = 8%nat.
Proof. unfold put64. by rewrite length_reverse, length_be_bytes. Qed.

Lemma length_words_bytes (l : list Z) : length (l ≫= put64) = (8 * length l)%nat.
Proof. induction l as [|x l IH]; [done|]. rewrite bind_cons, length_app, length_put64, IH. cbn [length]. lia. Qed.

Lemma take_words_bytes n k (l : list Z) : (k <= 8 * n)%nat -> (n <= length l)%nat -> take k (take n l ≫= put64) = take k (l ≫= put64).
Proof.
  intros Hk Hn. rewrite <- (take_drop n l) at 2. rewrite bind_app.
  rewrite take_app_le; [done|]. rewrite length_words_bytes, length_take. lia.
Qed.

Lemma length_digest_of h msg : length (digest_of h msg) = 8%nat.
Proof. apply length_F. Qed.
Lemma zlen_BLAKE2b nn d : 0 <= nn <= 64 -> zlen (BLAKE2b nn d) = nn.
Proof. intros Hn. rewrite BLAKE2b_digest. unfold zlen. rewrite length_take, length_words_bytes, length_digest_of. lia. Qed.

Lemma land_lnot_127 n : 0 <= n -> Z.land n (Z.lnot (blake2b_BlockSize - 1)) = 128 * (n / 128).
Proof.
  intros Hn. change (blake2b_BlockSize - 1) with (Z.ones 7). rewrite <- Z.ldiff_land, Z.ldiff_ones_r by lia.
  rewrite Z.shiftl_mul_pow2, Z.shiftr_div_pow2 by lia. change (2 ^ 7) with 128. lia.
Qed.

Lemma copy_last (d : list Z) : zlen d <= 128 -> copy_at 0 d (zeros blake2b_BlockSize) = d ++ zeros (128 - zlen d).
Proof.
  intros Hd. unfold copy_at, lset, blake2b_BlockSize. rewrite take_0. cbn [app Z.to_nat].
  rewrite zlen_zeros, Z.sub_0_r by lia. rewrite take_ge by (unfold zlen in Hd; lia). unfold zeros. rewrite drop_replicate.
  do 2 f_equal. unfold zlen. lia.
Qed.

(** Where the last block of [m] bytes starts. *)
Lemma last_start m : 0 < m -> exists k : nat,
  (if (m =? 128 * (m / 128)) then 128 * (m / 128) - 128 else 128 * (m / 128)) = 128 * Z.of_nat k /\ 128 * Z.of_nat k < m <= 128 * (Z.of_nat k + 1).
Proof.
  intros Hm. exists (Z.to_nat ((m - 1) / 128)). rewrite Z2Nat.id by (apply Z.div_pos; lia).
  pose proof (Z.div_mod (m - 1) 128 ltac:(lia)) as Ed. pose proof (Z.mod_pos_bound (m - 1) 128 ltac:(lia)) as Hr.
  set (q := (m - 1) / 128) in *. set (r := (m - 1) mod 128) in *.
  split; [|lia]. destruct (decide (r = 127)).
  - rewrite <- (Z.div_unique_pos m 128 (q + 1) 0) by lia. destruct (Z.eqb_spec m (128 * (q + 1))); lia.
  - rewrite <- (Z.div_unique_pos m 128 q (r + 1)) by lia. destruct (Z.eqb_spec m (128 * q)); lia.
Qed.

Lemma word_count nn : 1 <= nn <= 64 -> (Z.to_nat ((nn + 7) / 8) <= 8 /\ Z.to_nat nn <= 8 * Z.to_nat ((nn + 7) / 8))%nat.
Proof. intros Hn. pose proof (Z.div_mod (nn + 7) 8). pose proof (Z.mod_pos_bound (nn + 7) 8). lia. Qed.

(** [checkSum] is BLAKE2b of the length asked for, in front of [sum]. *)
Lemma checkSum_run sum nn d :
  length sum = 64%nat -> 1 <= nn <= 64 -> zlen d < 2 ^ 64 ->
  exists sum', checkSum sum nn d = Some sum' /\ length sum' = 64%nat /\ take (Z.to_nat nn) sum' = BLAKE2b nn d.
Proof.
  intros Hs Hn Hd. unfold checkSum. cbv zeta. rewrite param_word by done. set (h0 := <[0%nat := _]> iv).
  assert (length h0 = 8%nat) as Hh by done. set (n := if zlen d =? _ then _ else _).
  assert (exists h c tail, (if (blake2b_BlockSize <? zlen d) then
       '(h, c) ← hashBlocksGeneric h0 (0, 0) 0 (lsub 0 n d);
       Some (h, c, drop (Z.to_nat n) d)
     else Some (h0, (0, 0), d)) = Some (h, c, tail) /\ absorbing h0 d h c tail) as (h & c & tail & -> & Ha).
  { change blake2b_BlockSize with 128. destruct (Z.ltb_spec 128 (zlen d)) as [Hb|Hb].
    - assert (exists k : nat, n = 128 * Z.of_nat k /\ (128 * k < length d <= 128 * (k + 1))%nat) as (k & -> & Hk).
      { destruct (last_start (zlen d)) as (k & E & Hk); [lia|]. exists k. unfold n. rewrite land_lnot_127 by lia.
        split; [exact E|]. unfold zlen in Hk. lia. }
      destruct (absorbing_front h0 d k Hh) as (h & c & E & Ha); [lia|done|].
      exists h, c, (drop (128 * k) d). replace (lsub 0 (128 * Z.of_nat k) d) with (take (128 * k) d).
      + rewrite E. cbn [mbind option_bind]. replace (Z.to_nat (128 * Z.of_nat k)) with (128 * k)%nat by lia. done.
      + unfold lsub. rewrite drop_0. f_equal. lia.
    - exists h0, (0, 0), d. split; [done|]. exists [], 0%nat. unfold zlen in *. split_and!; try done; lia. }
  cbn [mbind option_bind]. assert (zlen tail <= 128) as Ht by (destruct Ha as (?&?&?&?&Ht&?); unfold zlen; lia).
  rewrite copy_last by done. change blake2b_BlockSize with 128. rewrite Z.min_r by done.
  rewrite (finish_digest h0 d h c tail _ Ha Hh) by (done || lia). cbn [mbind option_bind].
  clear n. set (k := Z.to_nat ((nn + 7) / 8)). assert (k <= 8 /\ Z.to_nat nn <= 8 * k)%nat as [Hk8 Hkn] by by apply word_count. clearbody k.
  eexists. split; [reflexivity|]. rewrite length_lset, BLAKE2b_digest.
  - split; [done|]. unfold lset. rewrite take_0. cbn [app]. rewrite take_app_le by (rewrite length_words_bytes, length_take, length_digest_of; lia).
    apply take_words_bytes; [lia|]. rewrite length_digest_of. lia.
  - done.
  - unfold zlen. rewrite length_words_bytes, length_take, length_digest_of, Hs. lia.
Qed.
