(* ===== verification/Argon2.v ===== *)
(** * Argon2 (secmem-crypto/internal/argon2/argon2.go, blake2b.go,
      blamka_generic.go, blamka_ref.go, blamka_amd64.go)

    The derivation on its workspace, with the segments of one slice run by
    concurrent workers, and RFC 9106. The one-shot digests of x/crypto/blake2b
    and the assembly of blamka_amd64.s are parameters. *)
From S2P Require Import Prelude Bytes Blake2b.

(** ** Data *)

Definition Version : Z := 0x13.
Definition ModeD : Z := 0.
Definition ModeI : Z := 1.
Definition ModeID : Z := 2.
Definition blockLength : Z := 128.
Definition syncPoints : Z := 4.
Definition h0Length : Z := blake2b_Size + 8.

(** A [block] is a list of 128 words. *)
Definition zeroBlock : list Z := zeros blockLength.

Record laneScratch : Type := LaneScratch { ls_addresses : list Z; ls_in : list Z; ls_tmp : list Z }.

(** [mem] is the concatenation of the views, see [Bind]. *)
Record Workspace : Type := MkWorkspace {
  ws_requested : Z;
  ws_memory : Z;
  ws_threads : Z;
  ws_b : list (list Z);
  ws_lanes : list laneScratch;
  ws_h0Chain : list Z;
  ws_h0 : list Z;
  ws_block0 : list Z;
  ws_hashIn : list Z;
  ws_hashState : list Z;
  ws_h0Block : list Z
}.

Definition set_b (b : list (list Z)) (ws : Workspace) : Workspace :=
  MkWorkspace (ws_requested ws) (ws_memory ws) (ws_threads ws) b (ws_lanes ws) (ws_h0Chain ws) (ws_h0 ws) (ws_block0 ws)
    (ws_hashIn ws) (ws_hashState ws) (ws_h0Block ws).
Definition set_lanes (l : list laneScratch) (ws : Workspace) : Workspace :=
  MkWorkspace (ws_requested ws) (ws_memory ws) (ws_threads ws) (ws_b ws) l (ws_h0Chain ws) (ws_h0 ws) (ws_block0 ws)
    (ws_hashIn ws) (ws_hashState ws) (ws_h0Block ws).
Definition set_h0Chain (h : list Z) (ws : Workspace) : Workspace :=
  MkWorkspace (ws_requested ws) (ws_memory ws) (ws_threads ws) (ws_b ws) (ws_lanes ws) h (ws_h0 ws) (ws_block0 ws)
    (ws_hashIn ws) (ws_hashState ws) (ws_h0Block ws).
Definition set_h0 (h : list Z) (ws : Workspace) : Workspace :=
  MkWorkspace (ws_requested ws) (ws_memory ws) (ws_threads ws) (ws_b ws) (ws_lanes ws) (ws_h0Chain ws) h (ws_block0 ws)
    (ws_hashIn ws) (ws_hashState ws) (ws_h0Block ws).
Definition set_block0 (b : list Z) (ws : Workspace) : Workspace :=
  MkWorkspace (ws_requested ws) (ws_memory ws) (ws_threads ws) (ws_b ws) (ws_lanes ws) (ws_h0Chain ws) (ws_h0 ws) b
    (ws_hashIn ws) (ws_hashState ws) (ws_h0Block ws).
Definition set_hash (hashIn hashState : list Z) (ws : Workspace) : Workspace :=
  MkWorkspace (ws_requested ws) (ws_memory ws) (ws_threads ws) (ws_b ws) (ws_lanes ws) (ws_h0Chain ws) (ws_h0 ws) (ws_block0 ws)
    hashIn hashState (ws_h0Block ws).
Definition set_h0Block (b : list Z) (ws : Workspace) : Workspace :=
  MkWorkspace (ws_requested ws) (ws_memory ws) (ws_threads ws) (ws_b ws) (ws_lanes ws) (ws_h0Chain ws) (ws_h0 ws) (ws_block0 ws)
    (ws_hashIn ws) (ws_hashState ws) b.

(** ** Layout *)

Definition laneScratchSize : Z := 3 * 1024.
Definition h0ChainSize : Z := 8 * 8.
Definition fixedScratch : Z := h0ChainSize + h0Length + 1024 + (4 + 1024) + blake2b_Size + blake2b_BlockSize.

(** [memory] and [threads] are unsigned 32-bit; a zero [threads] divides by
    zero and is refused before. *)
Definition adjustMemory (memory threads : Z) : Z :=
  let memory := memory / (syncPoints * threads) * (syncPoints * threads) in
  if (memory <? 2 * syncPoints * threads) then 2 * syncPoints * threads else memory.

Definition WorkspaceSize (memory threads : Z) : Z :=
  adjustMemory memory threads * 1024 + threads * laneScratchSize + fixedScratch.

(** The views: [n] of [size] bytes from [off], and a block read from its 1024. *)
Definition views {A} (n : Z) (size : Z) (f : list Z -> A) (mem : list Z) (off : Z) : list A :=
  (fun i => f (lsub (off + Z.of_nat i * size) (off + (Z.of_nat i + 1) * size) mem)) <$> seq 0 (Z.to_nat n).
Definition block_of (b : list Z) : list Z := words64 128 b.
Definition lane_of (b : list Z) : laneScratch :=
  LaneScratch (block_of (lsub 0 1024 b)) (block_of (lsub 1024 2048 b)) (block_of (lsub 2048 3072 b)).

(** [None] is a panic; [aligned] is whether the region starts at a multiple of
    eight. *)
Definition Bind (mem : list Z) (aligned : bool) (memory threads : Z) : option Workspace :=
  if (threads <? 1) then None
  else
  let need := WorkspaceSize memory threads in
  if (zlen mem <? need) then None
  else if negb aligned then None
  else
  let adjusted := adjustMemory memory threads in
  let b := views adjusted 1024 block_of mem 0 in
  let off := adjusted * 1024 in
  let lanes := views threads laneScratchSize lane_of mem off in
  let off := off + threads * laneScratchSize in
  let h0Chain := words64 8 (lsub off (off + h0ChainSize) mem) in
  let off := off + h0ChainSize in
  let h0 := lsub off (off + h0Length) mem in
  let off := off + h0Length in
  let block0 := lsub off (off + 1024) mem in
  let off := off + 1024 in
  let hashIn := lsub off (off + 4 + 1024) mem in
  let off := off + (4 + 1024) in
  let hashState := lsub off (off + blake2b_Size) mem in
  let off := off + blake2b_Size in
  let h0Block := lsub off (off + blake2b_BlockSize) mem in
  Some (MkWorkspace memory adjusted threads b lanes h0Chain h0 block0 hashIn hashState h0Block).

(** The bytes of [mem] through the views. *)
Definition block_bytes (b : list Z) : list Z := b ≫= put64.
Definition lane_bytes (s : laneScratch) : list Z := block_bytes (ls_addresses s) ++ block_bytes (ls_in s) ++ block_bytes (ls_tmp s).
Definition ws_bytes (ws : Workspace) : list Z :=
  (ws_b ws ≫= block_bytes) ++ (ws_lanes ws ≫= lane_bytes) ++ (ws_h0Chain ws ≫= put64) ++ ws_h0 ws ++ ws_block0 ws ++
  ws_hashIn ws ++ ws_hashState ws ++ ws_h0Block ws.

(** A [make] of the size, which is zeroed and aligned. *)
Definition NewWorkspace (memory threads : Z) : option Workspace :=
  if (threads <? 1) then None else Bind (zeros (WorkspaceSize memory threads)) true memory threads.

(** [secmem.SecureWipe(ws.mem)] *)
Definition zero_lane : laneScratch := LaneScratch zeroBlock zeroBlock zeroBlock.
Definition Wipe (ws : Workspace) : Workspace :=
  MkWorkspace (ws_requested ws) (ws_memory ws) (ws_threads ws) (replicate (length (ws_b ws)) zeroBlock)
    (replicate (length (ws_lanes ws)) zero_lane) (zeros 8) (zeros h0Length) (zeros 1024) (zeros (4 + 1024)) (zeros blake2b_Size)
    (zeros blake2b_BlockSize).

(** ** The variable-length hash *)

(** [blake2b.Sum512], [Sum384], [Sum256]. *)
Class Blake2bSums : Type := {
  Sum512 : list Z -> list Z;
  Sum384 : list Z -> list Z;
  Sum256 : list Z -> list Z
}.
(** They are BLAKE2b-512, BLAKE2b-384 and BLAKE2b-256. *)
Class Blake2bSumsOk `{Blake2bSums} : Prop := {
  Sum512_ok d : zlen d < 2 ^ 64 -> Sum512 d = BLAKE2b 64 d;
  Sum384_ok d : zlen d < 2 ^ 64 -> Sum384 d = BLAKE2b 48 d;
  Sum256_ok d : zlen d < 2 ^ 64 -> Sum256 d = BLAKE2b 32 d
}.

Section hash.
Context `{Blake2bSums}.

(** [out] afterwards; [None] is a panic. *)
Definition sumTo (out inp : list Z) : option (list Z) :=
  let n := zlen out in
  sum ← (if (n =? blake2b_Size) then Some (Sum512 inp)
         else if (n =? 48) then Some (copy_at 0 (Sum384 inp) (zeros blake2b_Size))
         else if (n =? 32) then Some (copy_at 0 (Sum256 inp) (zeros blake2b_Size))
         else if (n <? 1) || (blake2b_Size <? n) then None
         else checkSum (zeros blake2b_Size) n inp);
  Some (copy_at 0 (lsub 0 n sum) out).

(** The loop over 32-byte pieces: [buffer], what of [out] is written and what
    is left. *)
Fixpoint hash_loop (fuel : nat) (buffer done_ out : list Z) : option (list Z * list Z * list Z) :=
  if (blake2b_Size <? zlen out) then
    match fuel with
    | O => None
    | S fuel =>
        let buffer := Sum512 buffer in
        hash_loop fuel buffer (done_ ++ lsub 0 32 buffer) (drop 32 out)
    end
  else Some (buffer, done_, out).

(** The workspace and [out] afterwards; [None] is a panic. *)
Definition blake2bHash (ws : Workspace) (out inp : list Z) : option (Workspace * list Z) :=
  let hashIn := ws_hashIn ws in
  if (zlen hashIn - 4 <? zlen inp) then None
  else
  let outLen := zlen out in
  let hashIn := lset 0 (put32 (outLen mod 2 ^ 32)) hashIn in
  let n := 4 + Z.min (zlen hashIn - 4) (zlen inp) in
  let hashIn := copy_at 4 inp hashIn in
  let msg := lsub 0 n hashIn in
  if (outLen <=? blake2b_Size) then
    out ← sumTo out msg;
    Some (set_hash (lset 0 (zeros n) hashIn) (ws_hashState ws) ws, out)
  else
  let buffer := Sum512 msg in
  let hashIn := lset 0 (zeros n) hashIn in
  '(buffer, done_, rest) ← hash_loop (length out) buffer (lsub 0 32 buffer) (drop 32 out);
  rest ← sumTo rest buffer;
  Some (set_hash hashIn (zeros (zlen buffer)) ws, done_ ++ rest).

(** ** H0 *)

(** What [h0Absorb] works on: the chaining value, the block being filled, the
    counter and the fill. *)
Fixpoint h0Absorb (fuel : nat) (h block : list Z) (c : Z * Z) (fill : Z) (p : list Z) : option (list Z * list Z * (Z * Z) * Z) :=
  match p with
  | [] => Some (h, block, c, fill)
  | _ =>
      match fuel with
      | O => None
      | S fuel =>
          '(h, c, fill) ← (if (fill =? zlen block) then '(h, c) ← hashBlocksGeneric h c 0 block; Some (h, c, 0)
                           else Some (h, c, fill));
          let n := Z.min (zlen block - fill) (zlen p) in
          let block := copy_at fill p block in
          h0Absorb fuel h block c (fill + n) (drop (Z.to_nat n) p)
      end
  end.

(** The loop over the four parts. *)
Fixpoint absorb_parts (parts : list (list Z)) (h block : list Z) (c : Z * Z) (fill : Z) : option (list Z * list Z * (Z * Z) * Z) :=
  match parts with
  | [] => Some (h, block, c, fill)
  | part :: parts =>
      let prefix := put32 (zlen part mod 2 ^ 32) in
      '(h, block, c, fill) ← h0Absorb (length prefix) h block c fill prefix;
      '(h, block, c, fill) ← h0Absorb (length part) h block c fill part;
      absorb_parts parts h block c fill
  end.

Definition initHash (password salt key data : list Z) (time keyLen mode : Z) (ws : Workspace) : option Workspace :=
  let h := <[0%nat := Z.lxor (iv !!! 0%nat) (Z.lor blake2b_Size (Z.lor (Z.shiftl 1 16) (Z.shiftl 1 24)))]> iv in
  let params := put32 (ws_threads ws) ++ put32 keyLen ++ put32 (ws_requested ws) ++ put32 time ++ put32 Version ++ put32 mode in
  '(h, block, c, fill) ← h0Absorb (length params) h (ws_h0Block ws) (0, 0) 0 params;
  '(h, block, c, fill) ← absorb_parts [password; salt; key; data] h block c fill;
  let block := take (Z.to_nat fill) block ++ zeros (zlen block - fill) in
  h ← finish h c (blake2b_BlockSize - fill) block;
  let ws := set_h0 (lset 0 (h ≫= put64) (ws_h0 ws)) ws in
  Some (set_h0Chain (zeros (zlen h)) (set_h0Block (zeros (zlen block)) ws)).

(** One lane of [initBlocks]: block [k] of the lane. *)
Definition init_block (lane k : Z) (ws : Workspace) : option Workspace :=
  let ws := set_h0 (lset blake2b_Size (put32 k) (ws_h0 ws)) ws in
  '(ws, block0) ← blake2bHash ws (ws_block0 ws) (ws_h0 ws);
  let ws := set_block0 block0 ws in
  let j := lane * (ws_memory ws / ws_threads ws) in
  Some (set_b (<[Z.to_nat (j + k) := block_of block0]> (ws_b ws)) ws).

Definition init_lane (lane : Z) (ws : Workspace) : option Workspace :=
  let ws := set_h0 (lset (blake2b_Size + 4) (put32 lane) (ws_h0 ws)) ws in
  ws ← init_block lane 0 ws;
  init_block lane 1 ws.

Fixpoint init_lanes (lanes : list nat) (ws : Workspace) : option Workspace :=
  match lanes with
  | [] => Some ws
  | lane :: lanes => ws ← init_lane (Z.of_nat lane) ws; init_lanes lanes ws
  end.
Definition initBlocks (ws : Workspace) : option Workspace := init_lanes (seq 0 (Z.to_nat (ws_threads ws))) ws.
End hash.

(** ** Blocks *)

Definition mul64 (a b : Z) : Z := (a * b) mod 2 ^ 64.
Definition uint32 (x : Z) : Z := x mod 2 ^ 32.

(** The five statements [blamkaGeneric] repeats: [va += vb + 2*uint64(uint32(va))*uint64(uint32(vb));
    vd ^= va; vd = vd>>r1 | vd<<(64-r1); vc += ...; vb ^= vc; vb = vb>>r2 | vb<<(64-r2)]. *)
Definition blamka_add (x y : Z) : Z := add64 x (add64 y (mul64 (mul64 2 (uint32 x)) (uint32 y))).
Definition shift_rot (x r : Z) : Z := Z.lor (Z.shiftr x r) (Z.shiftl x (64 - r) mod 2 ^ 64).
Definition blamka_half (v : list Z) (op : nat * nat * nat * nat * nat * nat) : list Z :=
  let '(a, b, c, d, r1, r2) := op in
  let v := <[a := blamka_add (v !!! a) (v !!! b)]> v in
  let v := <[d := Z.lxor (v !!! d) (v !!! a)]> v in
  let v := <[d := shift_rot (v !!! d) (Z.of_nat r1)]> v in
  let v := <[c := blamka_add (v !!! c) (v !!! d)]> v in
  let v := <[b := Z.lxor (v !!! b) (v !!! c)]> v in
  <[b := shift_rot (v !!! b) (Z.of_nat r2)]> v.

Definition blamka_ops : list (nat * nat * nat * nat * nat * nat) :=
  [(0, 4, 8, 12, 32, 24); (0, 4, 8, 12, 16, 63); (1, 5, 9, 13, 32, 24); (1, 5, 9, 13, 16, 63);
   (2, 6, 10, 14, 32, 24); (2, 6, 10, 14, 16, 63); (3, 7, 11, 15, 32, 24); (3, 7, 11, 15, 16, 63);
   (0, 5, 10, 15, 32, 24); (0, 5, 10, 15, 16, 63); (1, 6, 11, 12, 32, 24); (1, 6, 11, 12, 16, 63);
   (2, 7, 8, 13, 32, 24); (2, 7, 8, 13, 16, 63); (3, 4, 9, 14, 32, 24); (3, 4, 9, 14, 16, 63)]%nat.

(** On sixteen words of [t], which the pointers [idx] name. *)
Definition blamkaGeneric (t : list Z) (idx : list nat) : list Z :=
  let v := (fun i => t !!! i) <$> idx in
  let v := foldl blamka_half v blamka_ops in
  foldl (fun t x => <[x.1 := x.2]> t) t (zip idx v).

Definition row_idx (i : nat) : list nat := seq (16 * i) 16.
Definition col_idx (i : nat) : list nat :=
  [2 * i; 2 * i + 1; 16 + 2 * i; 16 + 2 * i + 1; 32 + 2 * i; 32 + 2 * i + 1; 48 + 2 * i; 48 + 2 * i + 1;
   64 + 2 * i; 64 + 2 * i + 1; 80 + 2 * i; 80 + 2 * i + 1; 96 + 2 * i; 96 + 2 * i + 1; 112 + 2 * i; 112 + 2 * i + 1]%nat.

(** The two loops of rounds; what [blamkaSSE4] does to [t]. *)
Definition blamka_rounds (t : list Z) : list Z :=
  foldl blamkaGeneric (foldl blamkaGeneric t (row_idx <$> seq 0 8)) (col_idx <$> seq 0 8).

(** [out] and [t] afterwards. Each word of [out] depends on the same word of
    the others, so [out] may be one of them. *)
Definition processBlockGeneric (out in1 in2 : list Z) (xor : bool) : list Z * list Z :=
  let t := zip_with Z.lxor in1 in2 in
  let t := blamka_rounds t in
  let r := zip_with Z.lxor (zip_with Z.lxor in1 in2) t in
  (if xor then zip_with Z.lxor out r else r, t).

(** The assembly: [mixBlocksSSE2(out, a, b, c)], [xorBlocksSSE2] and
    [blamkaSSE4], and whether it is used. *)
Class Blamka : Type := {
  useSSE4 : bool;
  mixBlocksSSE2 : list Z -> list Z -> list Z -> list Z;
  xorBlocksSSE2 : list Z -> list Z -> list Z -> list Z -> list Z;
  blamkaSSE4 : list Z -> list Z
}.
Class BlamkaOk `{Blamka} : Prop := {
  mixBlocks_ok a b c : length a = 128%nat -> length b = 128%nat -> length c = 128%nat ->
    mixBlocksSSE2 a b c = zip_with Z.lxor (zip_with Z.lxor a b) c;
  xorBlocks_ok out a b c : length out = 128%nat -> length a = 128%nat -> length b = 128%nat -> length c = 128%nat ->
    xorBlocksSSE2 out a b c = zip_with Z.lxor out (zip_with Z.lxor (zip_with Z.lxor a b) c);
  blamkaSSE4_ok t : length t = 128%nat -> blamkaSSE4 t = blamka_rounds t
}.

(** ** Indices *)

(** Unsigned 32-bit arithmetic. *)
Definition add32 (a b : Z) : Z := (a + b) mod 2 ^ 32.
Definition sub32 (a b : Z) : Z := (a - b) mod 2 ^ 32.
Definition mul32 (a b : Z) : Z := (a * b) mod 2 ^ 32.

Definition phi (rand m s lane lanes : Z) : Z :=
  let p := Z.land rand 0xFFFFFFFF in
  let p := Z.shiftr (mul64 p p) 32 in
  let p := Z.shiftr (mul64 p m) 32 in
  add32 (mul32 lane lanes) (sub64 (add64 s m) (add64 p 1) mod lanes).

Definition indexAlpha (rand lanes segments threads n slice lane index : Z) : Z :=
  let refLane := uint32 (Z.shiftr rand 32) mod threads in
  let refLane := if (n =? 0) && (slice =? 0) then lane else refLane in
  let m := mul32 3 segments in
  let s := mul32 (add32 slice 1 mod syncPoints) segments in
  let m := if (lane =? refLane) then add32 m index else m in
  let '(m, s) :=
    if (n =? 0) then
      let m := mul32 slice segments in
      (if (slice =? 0) || (lane =? refLane) then add32 m index else m, 0)
    else (m, s) in
  let m := if (index =? 0) || (lane =? refLane) then sub32 m 1 else m in
  phi rand m s refLane lanes.

(** ** Segments *)

Section segments.
Context `{Blamka}.

Definition processBlockSSE (out in1 in2 : list Z) (xor : bool) : list Z * list Z :=
  if negb useSSE4 then processBlockGeneric out in1 in2 xor
  else
  let t := blamkaSSE4 (mixBlocksSSE2 in1 in2 zeroBlock) in
  (if xor then xorBlocksSSE2 out in1 in2 t else mixBlocksSSE2 in1 in2 t, t).

Definition processBlock (out in1 in2 : list Z) : list Z * list Z := processBlockSSE out in1 in2 false.
Definition processBlockXOR (out in1 in2 : list Z) : list Z * list Z := processBlockSSE out in1 in2 true.

(** What one worker keeps between two blocks: the loop's [index] and
    [offset], and its lane's scratch. *)
Record worker : Type := Worker { wk_index : Z; wk_offset : Z; wk_s : laneScratch }.

Section segment.
Variables mode n slice lane time lanes segments memory threads : Z.

Definition independent : bool := (mode =? ModeI) || ((mode =? ModeID) && (n =? 0) && (slice <? syncPoints / 2)).

(** [in[6]++] and the two calls behind it. *)
Definition next_addresses (s : laneScratch) : laneScratch :=
  let inb := <[6%nat := add64 (ls_in s !!! 6%nat) 1]> (ls_in s) in
  let '(addresses, _) := processBlock (ls_addresses s) inb zeroBlock in
  let '(addresses, tmp) := processBlock addresses addresses zeroBlock in
  LaneScratch addresses inb tmp.

(** The part of [processSegment] before its loop. *)
Definition segment_start (s : laneScratch) : worker :=
  let inb := zeroBlock in
  let inb := if independent then lset 0 [n; lane; slice; memory; time; mode] inb else inb in
  let s := LaneScratch (ls_addresses s) inb (ls_tmp s) in
  let '(index, s) :=
    if (n =? 0) && (slice =? 0) then
      (2, if (mode =? ModeI) || (mode =? ModeID) then next_addresses s else s)
    else (0, s) in
  Worker index (add32 (add32 (mul32 lane lanes) (mul32 slice segments)) index) s.

(** One turn of the loop; [None] is an index out of range. *)
Definition segment_turn (B : list (list Z)) (wk : worker) : option (list (list Z) * worker) :=
  let '(Worker index offset s) := wk in
  if negb (index <? segments) then Some (B, wk)
  else
  let prev := sub32 offset 1 in
  let prev := if (index =? 0) && (slice =? 0) then add32 prev lanes else prev in
  let s := if independent && (index mod blockLength =? 0) then next_addresses s else s in
  prevb ← B !! Z.to_nat prev;
  let random := if independent then ls_addresses s !!! Z.to_nat (index mod blockLength) else prevb !!! 0%nat in
  let newOffset := indexAlpha random lanes segments threads n slice lane index in
  refb ← B !! Z.to_nat newOffset;
  outb ← B !! Z.to_nat offset;
  let '(outb, tmp) := processBlockXOR outb prevb refb in
  Some (<[Z.to_nat offset := outb]> B, Worker (add32 index 1) (add32 offset 1) (LaneScratch (ls_addresses s) (ls_in s) tmp)).
End segment.

(** The workers of one slice between [wg.Add] and [wg.Wait]. A turn computes
    one block; the worker of a finished segment, and a number that is not a
    worker's, do nothing. *)
Section wave.
Variables mode n slice time lanes segments memory threads : Z.

Definition wave_turn (st : list (list Z) * list worker) (lane : nat) : option (list (list Z) * list worker) :=
  let '(B, workers) := st in
  match workers !! lane with
  | None => Some st
  | Some wk =>
      '(B, wk) ← segment_turn mode n slice (Z.of_nat lane) lanes segments threads B wk;
      Some (B, <[lane := wk]> workers)
  end.

Fixpoint wave_turns (st : list (list Z) * list worker) (schedule : list nat) : option (list (list Z) * list worker) :=
  match schedule with
  | [] => Some st
  | lane :: schedule => st ← wave_turn st lane; wave_turns st schedule
  end.

Definition every_turn : list nat := seq 0 (Z.to_nat threads) ≫= (fun lane => replicate (Z.to_nat segments) lane).

(** The workers run in the order [schedule] says, block by block, and
    [wg.Wait] lets what is unfinished run to its end. *)
Definition wave (schedule : list nat) (B : list (list Z)) (scratch : list laneScratch) : option (list (list Z) * list laneScratch) :=
  let workers := imap (fun lane s => segment_start mode n slice (Z.of_nat lane) time lanes segments memory s) scratch in
  '(B, workers) ← wave_turns (B, workers) (schedule ++ every_turn);
  Some (B, map wk_s workers).
End wave.

(** The slices of one pass, and the passes; [schedule] is the order of each
    slice of each pass. *)
Variable schedule : Z -> Z -> list nat.

Fixpoint run_slices (slices : list nat) (mode n time : Z) (ws : Workspace) : option Workspace :=
  match slices with
  | [] => Some ws
  | slice :: slices =>
      let lanes := ws_memory ws / ws_threads ws in
      let segments := lanes / syncPoints in
      '(B, scratch) ← wave mode n (Z.of_nat slice) time lanes segments (ws_memory ws) (ws_threads ws) (schedule n (Z.of_nat slice)) (ws_b ws) (ws_lanes ws);
      run_slices slices mode n time (set_lanes scratch (set_b B ws))
  end.
Fixpoint run_passes (passes : list nat) (mode time : Z) (ws : Workspace) : option Workspace :=
  match passes with
  | [] => Some ws
  | n :: passes => ws ← run_slices (seq 0 (Z.to_nat syncPoints)) mode (Z.of_nat n) time ws; run_passes passes mode time ws
  end.
Definition processBlocks (mode time : Z) (ws : Workspace) : option Workspace := run_passes (seq 0 (Z.to_nat time)) mode time ws.

(** ** The derivation *)

Context `{Blake2bSums}.

(** The last block of every lane but the last, folded into the last block. *)
Fixpoint fold_lanes (lane_list : list nat) (lanes : Z) (last : nat) (B : list (list Z)) : option (list (list Z)) :=
  match lane_list with
  | [] => Some B
  | lane :: lane_list =>
      v ← B !! Z.to_nat (Z.of_nat lane * lanes + lanes - 1);
      acc ← B !! last;
      fold_lanes lane_list lanes last (<[last := zip_with Z.lxor acc v]> B)
  end.

Definition extractKey (out : list Z) (ws : Workspace) : option (Workspace * list Z) :=
  let lanes := ws_memory ws / ws_threads ws in
  let last := Z.to_nat (ws_memory ws - 1) in
  B ← fold_lanes (seq 0 (Z.to_nat (ws_threads ws - 1))) lanes last (ws_b ws);
  v ← B !! last;
  let ws := set_block0 (block_bytes v) (set_b B ws) in
  blake2bHash ws out (ws_block0 ws).

(** The workspace and [out] afterwards; [None] is a panic. *)
Definition Derive (out : list Z) (mode : Z) (password salt secret data : list Z) (time : Z) (ws : Workspace) : option (Workspace * list Z) :=
  if (time <? 1) then None
  else if (zlen out <? 1) then None
  else if (ModeID <? mode) then None
  else
  let keyLen := uint32 (zlen out) in
  ws ← initHash password salt secret data time keyLen mode ws;
  ws ← initBlocks ws;
  ws ← processBlocks mode time ws;
  extractKey out ws.
End segments.
