(* ===== verification/Argon2Rfc.v ===== *)
(** * RFC 9106, and the pieces of Argon2.v against it

    The variable-length hash, the pre-hashing digest, the compression function,
    the reference set of a block and the whole function as the RFC states them;
    then one equality for each piece of the code. *)
From S2P Require Import Prelude Bytes Blake2b Argon2.

(** ** Section 3.3: H' *)

Definition LE32 (x : Z) : list Z := reverse (be_bytes 4 x).

(** V_1, ..., V_{r+1}: 32 octets of each but the last. *)
Fixpoint H_chain (r : nat) (V : list Z) (rest : Z) : list Z :=
  match r with
  | O => BLAKE2b rest V
  | S r => let V := BLAKE2b 64 V in take 32 V ++ H_chain r V rest
  end.
Definition H' (T : Z) (A : list Z) : list Z :=
  if (T <=? 64) then BLAKE2b T (LE32 T ++ A)
  else
  let r := (T + 31) / 32 - 2 in
  let V1 := BLAKE2b 64 (LE32 T ++ A) in
  take 32 V1 ++ H_chain (Z.to_nat (r - 1)) V1 (T - 32 * r).

(** ** Section 3.2, step 1: H_0 *)

Definition H_0 (p T m t y : Z) (P S K X : list Z) : list Z :=
  BLAKE2b 64 (LE32 p ++ LE32 T ++ LE32 m ++ LE32 t ++ LE32 0x13 ++ LE32 y ++
    LE32 (zlen P) ++ P ++ LE32 (zlen S) ++ S ++ LE32 (zlen K) ++ K ++ LE32 (zlen X) ++ X).

(** ** Sections 3.5 and 3.6: the compression function *)

Definition trunc (x : Z) : Z := x mod 2 ^ 32.
Definition GB_lines (v : list Z) (a b c d : nat) (r1 r2 : Z) : list Z :=
  let v := <[a := ((v !!! a) + (v !!! b) + 2 * trunc (v !!! a) * trunc (v !!! b)) mod 2 ^ 64]> v in
  let v := <[d := rotr (Z.lxor (v !!! d) (v !!! a)) r1]> v in
  let v := <[c := ((v !!! c) + (v !!! d) + 2 * trunc (v !!! c) * trunc (v !!! d)) mod 2 ^ 64]> v in
  <[b := rotr (Z.lxor (v !!! b) (v !!! c)) r2]> v.
Definition GB (v : list Z) (a b c d : nat) : list Z := GB_lines (GB_lines v a b c d 32 24) a b c d 16 63.

(** The permutation on eight registers, each two words. *)
Definition P (v : list Z) : list Z :=
  let v := GB (GB (GB (GB v 0 4 8 12) 1 5 9 13) 2 6 10 14) 3 7 11 15 in
  GB (GB (GB (GB v 0 5 10 15) 1 6 11 12) 2 7 8 13) 3 4 9 14.

(** The 64 registers of a block are a matrix, row by row. *)
Definition row (R : list Z) (i : nat) : list Z := take 16 (drop (16 * i) R).
Definition column (R : list Z) (j : nat) : list Z := seq 0 8 ≫= (fun k => [R !!! (16 * k + 2 * j)%nat; R !!! (16 * k + 2 * j + 1)%nat]).
Definition P_rows (R : list Z) : list Z := seq 0 8 ≫= (fun i => P (row R i)).
Definition P_columns (Q : list Z) : list Z :=
  let cols := (fun j => P (column Q j)) <$> seq 0 8 in
  (fun w => (cols !!! (w mod 16 / 2)%nat) !!! (2 * (w / 16) + w mod 2)%nat) <$> seq 0 128.
Definition compression (X Y : list Z) : list Z :=
  let R := zip_with Z.lxor X Y in zip_with Z.lxor (P_columns (P_rows R)) R.

(** ** Section 3.4: the reference block *)

Section rfc.
(** Type, passes, lanes, blocks of a segment. *)
Variables y t p seg : Z.
(** The length of a lane, and the blocks in all: m'. *)
Definition q : Z := 4 * seg.
Definition blocks : Z := p * q.

(** The place of block (lane [i], column [j]) in the matrix. *)
Definition place (i j : Z) : nat := Z.to_nat (i * q + j).

Definition data_independent (r sl : Z) : bool := (y =? 1) || ((y =? 2) && (r =? 0) && (sl <? 2)).

(** Section 3.4.1.2: the [k]-th block of addresses. *)
Definition address_block (r l sl k : Z) : list Z :=
  compression zeroBlock (compression zeroBlock ([r; l; sl; blocks; t; y; k] ++ zeros 121)).

(** J_1 and J_2 for the block at [j] of the segment. *)
Definition J (B : list (list Z)) (r l sl j : Z) : Z * Z :=
  let x :=
    if data_independent r sl then address_block r l sl (j / 128 + 1) !!! Z.to_nat (j mod 128)
    else (B !!! place l ((sl * seg + j - 1) mod q)) !!! 0%nat in
  (x mod 2 ^ 32, x / 2 ^ 32 mod 2 ^ 32).

(** Section 3.4.2: the columns of the set W, oldest first. The segments
    computed and finished are those before [sl] in the first pass, the last
    three in the others. *)
Definition finished (r sl : Z) : list Z :=
  if (r =? 0) then seqZ 0 (sl * seg)
  else [1; 2; 3] ≫= (fun d => seqZ ((sl + d) mod 4 * seg) seg).
Definition W (r sl j : Z) (same : bool) : list Z :=
  let all := finished r sl ++ (if same then seqZ (sl * seg) (j - 1) else []) in
  if (j =? 0) then take (length all - 1) all else all.

Definition reference (r l sl j J1 J2 : Z) : Z * Z :=
  let l' := if (r =? 0) && (sl =? 0) then l else J2 mod p in
  let w := W r sl j (l =? l') in
  let x := J1 ^ 2 / 2 ^ 32 in
  let yy := zlen w * x / 2 ^ 32 in
  let zz := zlen w - 1 - yy in
  (l', w !!! Z.to_nat zz).

(** ** Section 3.2, steps 3 to 6 *)

Definition block_value (B : list (list Z)) (r l sl j : Z) : list Z :=
  let '(J1, J2) := J B r l sl j in
  let '(l', z) := reference r l sl j J1 J2 in
  let c := sl * seg + j in
  let g := compression (B !!! place l ((c - 1) mod q)) (B !!! place l' z) in
  if (r =? 0) then g else zip_with Z.lxor g (B !!! place l c).

Definition fill_block (r sl : Z) (B : list (list Z)) (lj : Z * Z) : list (list Z) :=
  let '(l, j) := lj in <[place l (sl * seg + j) := block_value B r l sl j]> B.

(** The first two columns are there before the first pass. *)
Definition first_index (r sl : Z) : Z := if (r =? 0) && (sl =? 0) then 2 else 0.
Definition lane_order (r sl l : Z) : list (Z * Z) :=
  let i := first_index r sl in (fun j => (l, j)) <$> seqZ i (seg - i).
(** A slice of all lanes, a pass, all passes. *)
Definition fill_slice (r : Z) (B : list (list Z)) (sl : Z) : list (list Z) :=
  foldl (fill_block r sl) B (seqZ 0 p ≫= lane_order r sl).
Definition fill_pass (B : list (list Z)) (r : Z) : list (list Z) := foldl (fill_slice r) B (seqZ 0 4).

Definition first_block (H0 : list Z) (l k : Z) : list Z := words64 128 (H' 1024 (H0 ++ LE32 k ++ LE32 l)).
Definition first_blocks (H0 : list Z) : list (list Z) :=
  foldl (fun B l => <[place l 1 := first_block H0 l 1]> (<[place l 0 := first_block H0 l 0]> B))
    (replicate (Z.to_nat blocks) zeroBlock) (seqZ 0 p).

(** The final block C. *)
Definition final_block (B : list (list Z)) : list Z :=
  foldl (fun C l => zip_with Z.lxor C (B !!! place l (q - 1))) (B !!! place (p - 1) (q - 1)) (seqZ 0 (p - 1)).
End rfc.

(** m' = 4 p floor(m / 4p), for m of at least 8p KiB; fewer are raised to it. *)
Definition Argon2 (y : Z) (P S K X : list Z) (t m p T : Z) : list Z :=
  let seg := Z.max 2 (m / (4 * p)) in
  let H0 := H_0 p T m t y P S K X in
  let B := foldl (fill_pass y t p seg) (first_blocks p seg H0) (seqZ 0 t) in
  H' T (final_block p seg B ≫= put64).

(** ** The variable-length hash *)

Section hash.
Context `{Bs : Blake2bSums} {BsOk : Blake2bSumsOk}.

Lemma sumTo_run out inp : 1 <= zlen out <= 64 -> zlen inp < 2 ^ 64 -> sumTo out inp = Some (BLAKE2b (zlen out) inp).
Proof.
  intros Ho Hi. unfold sumTo. change blake2b_Size with 64.
  assert (forall sum d, lsub 0 (zlen out) sum = d -> zlen d = zlen out -> copy_at 0 (lsub 0 (zlen out) sum) out = d) as Hcopy.
  { intros sum d -> Hd. unfold copy_at, lset. rewrite take_0. change (Z.to_nat 0) with 0%nat. cbn [app].
    rewrite Z.sub_0_r, take_ge by (unfold zlen in *; lia). rewrite drop_ge by (unfold zlen in *; lia). apply app_nil_r. }
  assert (forall n d, n = zlen out -> zlen d = n -> copy_at 0 d (zeros 64) = d ++ zeros (64 - n)) as Hpad.
  { intros n d -> Hd. unfold copy_at, lset. rewrite take_0. change (Z.to_nat 0) with 0%nat. cbn [app].
    rewrite zlen_zeros, take_ge by (unfold zlen in *; lia). unfold zeros. rewrite drop_replicate. do 2 f_equal. unfold zlen in *. lia. }
  assert (forall d r : list Z, zlen d = zlen out -> lsub 0 (zlen out) (d ++ r) = d) as Hsub.
  { intros d r Hd. unfold lsub. rewrite drop_0, Z.sub_0_r, <- Hd. unfold zlen. rewrite Nat2Z.id. apply take_app_length. }
  pose proof (zlen_BLAKE2b (zlen out) inp ltac:(lia)) as Hl.
  destruct (Z.eqb_spec (zlen out) 64) as [E|N64]; [|destruct (Z.eqb_spec (zlen out) 48) as [E|N48]; [|destruct (Z.eqb_spec (zlen out) 32) as [E|N32]]].
  - cbn [mbind option_bind]. rewrite Sum512_ok by done. rewrite <- E. f_equal. apply Hcopy; [|done].
    rewrite <- (app_nil_r (BLAKE2b _ _)) at 1. by apply Hsub.
  - cbn [mbind option_bind]. rewrite Sum384_ok by done. rewrite <- E. f_equal. apply Hcopy; [|done]. rewrite (Hpad (zlen out)) by done. by apply Hsub.
  - cbn [mbind option_bind]. rewrite Sum256_ok by done. rewrite <- E. f_equal. apply Hcopy; [|done]. rewrite (Hpad (zlen out)) by done. by apply Hsub.
  - destruct (Z.ltb_spec (zlen out) 1); [lia|]. destruct (Z.ltb_spec 64 (zlen out)); [lia|]. cbn [orb].
    destruct (checkSum_run (zeros 64) (zlen out) inp) as (sum & -> & Hs & Ht); [done|lia|done|]. cbn [mbind option_bind]. f_equal.
    apply Hcopy; [|done]. unfold lsub. by rewrite drop_0, Z.sub_0_r.
Qed.

(** The pieces of 32 octets are as many as the RFC counts. *)
Lemma hash_loop_run fuel V done_ out :
  zlen V = 64 -> (length out <= fuel)%nat -> 32 < zlen out ->
  exists V' pieces rest, hash_loop fuel V done_ out = Some (V', done_ ++ pieces, rest) /\ zlen V' = 64 /\ 32 < zlen rest <= 64 /\
    pieces ++ BLAKE2b (zlen rest) V' = H_chain (Z.to_nat ((zlen out + 31) / 32 - 2)) V (zlen out - 32 * ((zlen out + 31) / 32 - 2)).
Proof.
  revert V done_ out. induction fuel as [|fuel IH]; intros V done_ out HV Hf Ho; [unfold zlen in Ho; lia|].
  cbn [hash_loop]. change blake2b_Size with 64. destruct (Z.ltb_spec 64 (zlen out)) as [Hb|Hb].
  - assert (zlen (drop 32 out) = zlen out - 32) as Hd by (unfold zlen in *; rewrite length_drop; lia).
    rewrite Sum512_ok by lia. pose proof (zlen_BLAKE2b 64 V ltac:(lia)) as Hl.
    destruct (IH (BLAKE2b 64 V) (done_ ++ lsub 0 32 (BLAKE2b 64 V)) (drop 32 out)) as (V' & pieces & rest & E & HV' & Hr & Hp);
      [done|rewrite length_drop; lia|lia|].
    exists V', (take 32 (BLAKE2b 64 V) ++ pieces), rest. rewrite E. split; [by rewrite <- app_assoc|]. split; [done|]. split; [done|].
    rewrite <- app_assoc, Hp, Hd. replace (zlen out - 32 + 31) with ((zlen out + 31) + (-1) * 32) by lia. rewrite Z.div_add by lia.
    set (r := (zlen out + 31) / 32) in *. assert (2 < r) by (unfold r; pose proof (Z.div_mod (zlen out + 31) 32); pose proof (Z.mod_pos_bound (zlen out + 31) 32); lia).
    replace (Z.to_nat (r - 2)) with (S (Z.to_nat (r + -1 - 2))) by lia. cbn [H_chain]. do 2 f_equal. lia.
  - exists V, [], out. rewrite app_nil_r. split; [done|]. split; [done|]. split; [lia|].
    assert ((zlen out + 31) / 32 = 2) as -> by (symmetry; apply (Z.div_unique_pos _ _ _ (zlen out + 31 - 64)); lia).
    change (Z.to_nat (2 - 2)) with 0%nat. cbn [H_chain app]. by replace (zlen out - 32 * (2 - 2)) with (zlen out) by lia.
Qed.

Lemma msg_in_place (n : Z) (inp : list Z) :
  zlen inp <= 1024 ->
  let hashIn := copy_at 4 inp (lset 0 (put32 n) (zeros (4 + 1024))) in
  lsub 0 (4 + zlen inp) hashIn = LE32 n ++ inp /\ lset 0 (zeros (4 + zlen inp)) hashIn = zeros (4 + 1024).
Proof.
  intros Hi. cbv zeta. assert (copy_at 4 inp (lset 0 (put32 n) (zeros (4 + 1024))) = (LE32 n ++ inp) ++ zeros (1024 - zlen inp)) as ->.
  { replace (lset 0 (put32 n) (zeros (4 + 1024))) with (LE32 n ++ zeros 1024).
    - rewrite (copy_at_app (LE32 n) (zeros 1024)) by (by rewrite zlen_zeros). rewrite <- app_assoc. do 2 f_equal.
      unfold zeros. rewrite drop_replicate. f_equal. unfold zlen. lia.
    - unfold lset. rewrite take_0. change (Z.to_nat 0) with 0%nat. cbn [app]. unfold zeros, LE32, put32.
      rewrite length_reverse, length_be_bytes, drop_replicate. done. }
  assert (length (LE32 n) = 4%nat) as L by (unfold LE32; by rewrite length_reverse, length_be_bytes).
  assert (length (LE32 n ++ inp) = Z.to_nat (4 + zlen inp)) as Hl by (rewrite length_app, L; unfold zlen; lia).
  split.
  - unfold lsub. rewrite drop_0, Z.sub_0_r, <- Hl. apply take_app_length.
  - unfold lset. rewrite take_0. change (Z.to_nat 0) with 0%nat. cbn [app Nat.add]. unfold zeros at 1 2. rewrite length_replicate, <- Hl, drop_app_length.
    unfold zeros. rewrite <- replicate_add. f_equal. unfold zlen in *. lia.
Qed.

Lemma zlen_LE32 n : zlen (LE32 n) = 4.
Proof. unfold LE32, zlen. by rewrite length_reverse, length_be_bytes. Qed.

(** [blake2bHash] is H', and leaves its scratch zero. *)
Lemma blake2bHash_run ws out inp :
  ws_hashIn ws = zeros (4 + 1024) -> ws_hashState ws = zeros blake2b_Size -> zlen inp <= 1024 -> 1 <= zlen out < 2 ^ 32 ->
  blake2bHash ws out inp = Some (ws, H' (zlen out) inp).
Proof.
  intros Hin Hst Hi Ho. unfold blake2bHash. rewrite Hin. rewrite zlen_zeros by lia.
  destruct (Z.ltb_spec (4 + 1024 - 4) (zlen inp)); [lia|]. rewrite Z.mod_small by lia.
  destruct (msg_in_place (zlen out) inp Hi) as [Hmsg Hwipe]. cbv zeta in Hmsg, Hwipe.
  replace (zlen (lset 0 (put32 (zlen out)) (zeros (4 + 1024)))) with (4 + 1024).
  2:{ rewrite zlen_lset; [by rewrite zlen_zeros|done|]. rewrite zlen_zeros by lia. pose proof (zlen_LE32 (zlen out)) as L. unfold LE32 in L. unfold put32. lia. }
  rewrite Z.min_r by lia. rewrite Hmsg, Hwipe. change blake2b_Size with 64 in *.
  assert (zlen (LE32 (zlen out) ++ inp) < 2 ^ 64) as Hm by (rewrite zlen_app, zlen_LE32; lia). unfold H'.
  assert (forall o : list Z, Some (set_hash (zeros (4 + 1024)) (zeros 64) ws, o) = Some (ws, o)) as Hws.
  { intros o. do 2 f_equal. destruct ws. cbn in *. unfold set_hash. cbn. congruence. }
  destruct (Z.leb_spec (zlen out) 64) as [Hs|Hb].
  - rewrite sumTo_run by (done || lia). cbn [mbind option_bind]. rewrite Hst. apply Hws.
  - rewrite !Sum512_ok by done. set (V1 := BLAKE2b 64 _). pose proof (zlen_BLAKE2b 64 (LE32 (zlen out) ++ inp) ltac:(lia)) as HV. fold V1 in HV.
    assert (zlen (drop 32 out) = zlen out - 32) as Hd by (unfold zlen in *; rewrite length_drop; lia).
    destruct (hash_loop_run (length out) V1 (lsub 0 32 V1) (drop 32 out) HV) as (V' & pieces & rest & E & HV' & Hr & Hp);
      [rewrite length_drop; lia|lia|].
    rewrite E. cbn [mbind option_bind]. rewrite sumTo_run by lia. cbn [mbind option_bind]. rewrite HV', Hws. do 2 f_equal.
    rewrite <- app_assoc, Hp, Hd. change (lsub 0 32 V1) with (take 32 V1). f_equal.
    replace (zlen out - 32 + 31) with ((zlen out + 31) + (-1) * 32) by lia. rewrite Z.div_add by lia.
    f_equal; lia.
Qed.

Lemma zlen_H_chain r V n : 0 <= n <= 64 -> zlen (H_chain r V n) = 32 * Z.of_nat r + n.
Proof.
  intros Hn. revert V. induction r as [|r IH]; intros V; cbn [H_chain]; [rewrite zlen_BLAKE2b by done; lia|].
  rewrite zlen_app, IH. pose proof (zlen_BLAKE2b 64 V ltac:(lia)). unfold zlen in *. rewrite length_take. lia.
Qed.

Lemma zlen_H' n A : 1 <= n -> zlen (H' n A) = n.
Proof.
  intros Hn. unfold H'. destruct (Z.leb_spec n 64); [apply zlen_BLAKE2b; lia|].
  pose proof (Z.div_mod (n + 31) 32). pose proof (Z.mod_pos_bound (n + 31) 32). set (r := (n + 31) / 32) in *.
  rewrite zlen_app, zlen_H_chain by lia. pose proof (zlen_BLAKE2b 64 (LE32 n ++ A) ltac:(lia)). unfold zlen in *. rewrite length_take. lia.
Qed.
End hash.
#[global] Opaque BLAKE2b H'.

(** ** H_0 *)

(** The workspace holds the hash of [msg]: its block starts with the bytes that
    wait. *)
Definition held (h0 msg h block : list Z) (c : Z * Z) (fill : Z) : Prop :=
  length block = 128%nat /\ exists tail, absorbing h0 msg h c tail /\ fill = zlen tail /\ take (length tail) block = tail.

Lemma absorbing_more h0 msg h c tail d : absorbing h0 msg h c tail -> (length tail + length d <= 128)%nat -> absorbing h0 (msg ++ d) h c (tail ++ d).
Proof.
  intros (front & k & -> & Hf & Ht & Hne & -> & Hc) Hd. exists front, k. rewrite app_assoc. split_and!; try done.
  - by rewrite length_app.
  - intros [-> ->]%app_eq_nil. by apply Hne.
Qed.

Lemma take_then_drop {A} n (p : list A) : take n p ++ drop (length (take n p)) p = p.
Proof.
  rewrite length_take. destruct (Nat.min_spec n (length p)) as [[? ->]|[? ->]]; [apply take_drop|].
  rewrite drop_all, app_nil_r. by apply take_ge.
Qed.

(** Bytes copied behind the ones that wait. *)
Lemma copy_behind_tail (tail p block : list Z) :
  length block = 128%nat -> (length tail <= 128)%nat -> take (length tail) block = tail ->
  let d := take (128 - length tail) p in
  length (copy_at (zlen tail) p block) = 128%nat /\ take (length (tail ++ d)) (copy_at (zlen tail) p block) = tail ++ d /\
  Z.to_nat (Z.min (zlen block - zlen tail) (zlen p)) = length d /\ zlen tail + Z.min (zlen block - zlen tail) (zlen p) = zlen (tail ++ d).
Proof.
  intros Hb Ht Htail d. assert (length d = (128 - length tail) `min` length p)%nat as Hd by (unfold d; by rewrite length_take).
  unfold copy_at. replace (firstn (Z.to_nat (zlen block - zlen tail)) p) with d by (unfold d, zlen; f_equal; lia).
  unfold lset. replace (Z.to_nat (zlen tail)) with (length tail) by (unfold zlen; lia). rewrite Htail. split_and!.
  - rewrite !length_app, length_drop. lia.
  - rewrite app_assoc. apply take_app_length.
  - unfold zlen. lia.
  - rewrite zlen_app. unfold zlen. lia.
Qed.

Lemma h0Absorb_run fuel h0 msg h block c fill p :
  length h0 = 8%nat -> held h0 msg h block c fill -> (length p <= fuel)%nat -> zlen msg + zlen p < 2 ^ 128 ->
  exists h' block' c' fill', h0Absorb fuel h block c fill p = Some (h', block', c', fill') /\ held h0 (msg ++ p) h' block' c' fill'.
Proof.
  intros Hh0. revert msg h block c fill p. induction fuel as [|fuel IH]; intros msg h block c fill p Hheld Hf Hlt.
  { destruct p; [|cbn in Hf; lia]. exists h, block, c, fill. by rewrite app_nil_r. }
  destruct p as [|x p']; [exists h, block, c, fill; by rewrite app_nil_r|]. cbn [h0Absorb]. set (p := x :: p') in *.
  destruct Hheld as (Hb & tail & Ha & -> & Htail).
  assert (0 < length p)%nat as Hp by (cbn; lia).
  assert (length tail <= 128)%nat as Ht by (destruct Ha as (?&?&?&?&?&?); done).
  destruct (Z.eqb_spec (zlen tail) (zlen block)) as [E|E].
  - assert (length tail = 128%nat) as Ht' by (unfold zlen in E; lia). assert (block = tail) as ->.
    { rewrite <- Htail at 1. rewrite Ht', take_ge by lia. done. }
    set (d := take 128 p). assert (0 < length d <= 128)%nat as Hd by (unfold d; rewrite length_take; lia).
    destruct (absorbing_block h0 msg h c tail d Ha Ht' Hh0) as (h' & c' & -> & Ha'); [unfold zlen in *; lia|by destruct d; [cbn in Hd; lia|]|lia|].
    cbn [mbind option_bind]. destruct (copy_behind_tail [] p tail Hb ltac:(cbn; lia) eq_refl) as (L & T & N & M).
    change (128 - length [])%nat with 128%nat in *. cbn [app] in *. change (zlen []) with 0 in *. fold d in T, N, M. rewrite M, N.
    destruct (IH (msg ++ d) h' (copy_at 0 p tail) c' (zlen d) (drop (length d) p)) as (h2 & b2 & c2 & f2 & E2 & Hh2).
    { split; [done|]. exists d. done. }
    { rewrite length_drop. lia. }
    { rewrite zlen_app. unfold zlen, d in *. rewrite length_drop, length_take. lia. }
    exists h2, b2, c2, f2. split; [done|]. replace (msg ++ p) with ((msg ++ d) ++ drop (length d) p); [done|].
    rewrite <- app_assoc. f_equal. apply take_then_drop.
  - cbn [mbind option_bind]. destruct (copy_behind_tail tail p block Hb Ht Htail) as (L & T & N & M).
    set (d := take (128 - length tail) p) in *. rewrite M, N.
    assert (length d = (128 - length tail) `min` length p)%nat as Hd by (unfold d; by rewrite length_take).
    destruct (IH (msg ++ d) h (copy_at (zlen tail) p block) c (zlen (tail ++ d)) (drop (length d) p)) as (h2 & b2 & c2 & f2 & E2 & Hh2).
    { split; [done|]. exists (tail ++ d). split; [|done]. apply absorbing_more; [done|lia]. }
    { rewrite length_drop. unfold zlen in E. lia. }
    { rewrite zlen_app. unfold zlen in *. rewrite length_drop. lia. }
    exists h2, b2, c2, f2. split; [done|]. replace (msg ++ p) with ((msg ++ d) ++ drop (length d) p); [done|].
    rewrite <- app_assoc. f_equal. apply take_then_drop.
Qed.

Lemma absorb_parts_run h0 parts msg h block c fill :
  length h0 = 8%nat -> held h0 msg h block c fill -> Forall (fun part => zlen part < 2 ^ 32) parts ->
  zlen msg + Z.of_nat (length parts) * 2 ^ 33 < 2 ^ 127 ->
  exists h' block' c' fill', absorb_parts parts h block c fill = Some (h', block', c', fill') /\
    held h0 (msg ++ (parts ≫= (fun part => LE32 (zlen part) ++ part))) h' block' c' fill'.
Proof.
  intros Hh0 Hheld Hp. revert msg h block c fill Hheld. induction Hp as [|part parts Hpart Hp IH]; intros msg h block c fill Hheld Hlt.
  { exists h, block, c, fill. by rewrite app_nil_r. }
  cbn [absorb_parts]. cbn [length] in Hlt. assert (0 <= zlen part) by (unfold zlen; lia). rewrite Z.mod_small by lia. fold (LE32 (zlen part)).
  change (put32 (zlen part)) with (LE32 (zlen part)). pose proof (zlen_LE32 (zlen part)) as L.
  destruct (h0Absorb_run (length (LE32 (zlen part))) h0 msg h block c fill (LE32 (zlen part)) Hh0 Hheld) as (h1 & b1 & c1 & f1 & -> & H1); [done|lia|].
  cbn [mbind option_bind].
  destruct (h0Absorb_run (length part) h0 _ h1 b1 c1 f1 part Hh0 H1) as (h2 & b2 & c2 & f2 & -> & H2); [done|rewrite zlen_app; lia|].
  cbn [mbind option_bind]. destruct (IH _ h2 b2 c2 f2 H2) as (h3 & b3 & c3 & f3 & E & H3); [rewrite !zlen_app; lia|].
  exists h3, b3, c3, f3. split; [done|]. rewrite bind_cons. by rewrite !app_assoc in *.
Qed.

Lemma BLAKE2b_64 d : BLAKE2b 64 d = digest_of (<[0%nat := Z.lxor (Z.lxor (iv !!! 0%nat) 0x01010000) 64]> iv) d ≫= put64.
Proof. rewrite BLAKE2b_digest. apply take_ge. by rewrite length_words_bytes, length_digest_of. Qed.

(** [initHash] leaves H_0 in [h0], and nothing of the inputs in the chaining
    value or the block. *)
Lemma initHash_run password salt key data t T y ws :
  length (ws_h0Block ws) = 128%nat -> length (ws_h0 ws) = 72%nat ->
  zlen password < 2 ^ 32 -> zlen salt < 2 ^ 32 -> zlen key < 2 ^ 32 -> zlen data < 2 ^ 32 ->
  initHash password salt key data t T y ws =
    Some (set_h0Chain (zeros 8) (set_h0Block (zeros blake2b_BlockSize)
      (set_h0 (H_0 (ws_threads ws) T (ws_requested ws) t y password salt key data ++ drop 64 (ws_h0 ws)) ws))).
Proof.
  intros Hb Hh Hp Hs Hk Hd. unfold initHash. cbv zeta. rewrite param_word by done. change blake2b_Size with 64.
  remember (<[0%nat := _]> iv) as h0 eqn:Eh0 in |- *. assert (length h0 = 8%nat) as Hh0 by by rewrite Eh0.
  remember (put32 (ws_threads ws) ++ _) as params eqn:Ep in |- *.
  assert (held h0 [] h0 (ws_h0Block ws) (0, 0) 0) as H0.
  { split; [done|]. exists []. split; [apply absorbing_nil|done]. }
  assert (zlen params = 24) as Lp.
  { rewrite Ep, !zlen_app. change put32 with LE32. rewrite !zlen_LE32. done. }
  destruct (h0Absorb_run (length params) h0 [] _ _ _ _ params Hh0 H0) as (h1 & b1 & c1 & f1 & -> & H1); [done|rewrite Lp; reflexivity|].
  cbn [mbind option_bind].
  destruct (absorb_parts_run h0 [password; salt; key; data] ([] ++ params) h1 b1 c1 f1 Hh0 H1) as (h2 & b2 & c2 & f2 & -> & Hb2 & tail & Ha & -> & Ht);
    [by repeat constructor|change ([] ++ params) with params; rewrite Lp; cbn [length]; lia|].
  cbn [mbind option_bind].
  assert (length tail <= 128)%nat as Htl by (destruct Ha as (?&?&?&?&?&?); done).
  rewrite (finish_digest h0 _ h2 c2 tail _ Ha Hh0).
  - cbn [mbind option_bind]. set (msg := ([] ++ params) ++ _). assert (H_0 (ws_threads ws) T (ws_requested ws) t y password salt key data = digest_of h0 msg ≫= put64) as ->.
    { unfold H_0. rewrite BLAKE2b_64, <- Eh0. unfold msg. rewrite Ep. apply (f_equal (fun m => digest_of h0 m ≫= put64)).
      change put32 with LE32. cbn [app mbind list_bind]. rewrite <- !app_assoc. rewrite app_nil_r. reflexivity. }
    replace (zlen (digest_of h0 msg)) with 8 by (unfold zlen; by rewrite length_digest_of).
    replace (zlen (take (Z.to_nat (zlen tail)) b2 ++ zeros (zlen b2 - zlen tail))) with blake2b_BlockSize.
    2:{ change blake2b_BlockSize with 128. unfold zlen, zeros. rewrite length_app, length_take, length_replicate. lia. }
    replace (lset 0 (digest_of h0 msg ≫= put64) (ws_h0 ws)) with ((digest_of h0 msg ≫= put64) ++ drop 64 (ws_h0 ws)); [reflexivity|].
    unfold lset. rewrite take_0, length_words_bytes, length_digest_of. reflexivity.
  - cbn [mbind list_bind app]. rewrite !zlen_app, !zlen_LE32, Lp. change (zlen []) with 0. lia.
  - replace (Z.to_nat (zlen tail)) with (length tail) by (unfold zlen; lia). rewrite Ht. do 2 f_equal. unfold zlen. lia.
Qed.

(** ** The first blocks *)

Section init.
Context `{Bs : Blake2bSums} {BsOk : Blake2bSumsOk}.

Lemma length_H'_1024 A : length (H' 1024 A) = 1024%nat.
Proof. pose proof (zlen_H' 1024 A ltac:(lia)) as L. unfold zlen in L. lia. Qed.

(** The hash scratch is as [blake2bHash] needs it. *)
Definition scratch_ok (ws : Workspace) : Prop :=
  ws_hashIn ws = zeros (4 + 1024) /\ ws_hashState ws = zeros blake2b_Size /\ length (ws_block0 ws) = 1024%nat.

Lemma init_block_run H0 r lane k q ws :
  scratch_ok ws -> ws_h0 ws = H0 ++ r ++ LE32 lane -> length H0 = 64%nat -> length r = 4%nat -> ws_memory ws / ws_threads ws = q ->
  let h := H0 ++ LE32 k ++ LE32 lane in
  init_block lane k ws =
    Some (set_b (<[Z.to_nat (lane * q + k) := first_block H0 lane k]> (ws_b ws)) (set_block0 (H' 1024 h) (set_h0 h ws))).
Proof.
  intros (Hi & Hs & Hb) Hh HH Hr <-. cbv zeta. unfold init_block. rewrite Hh.
  replace (lset blake2b_Size (put32 k) (H0 ++ r ++ LE32 lane)) with (H0 ++ LE32 k ++ LE32 lane).
  2:{ symmetry. apply lset_mid; [|by rewrite Hr]. unfold zlen. by rewrite HH. }
  assert (zlen (ws_block0 ws) = 1024) as Lb by (unfold zlen; by rewrite Hb).
  rewrite (blake2bHash_run (set_h0 (H0 ++ LE32 k ++ LE32 lane) ws) (ws_block0 ws) (H0 ++ LE32 k ++ LE32 lane) Hi Hs).
  - cbn [mbind option_bind]. rewrite Lb. reflexivity.
  - rewrite !zlen_app, !zlen_LE32. unfold zlen. lia.
  - rewrite Lb. lia.
Qed.

Lemma length_LE32 n : length (LE32 n) = 4%nat.
Proof. unfold LE32. by rewrite length_reverse, length_be_bytes. Qed.

Lemma set_again b1 k1 h1 b2 k2 h2 ws :
  set_b b2 (set_block0 k2 (set_h0 h2 (set_b b1 (set_block0 k1 (set_h0 h1 ws))))) = set_b b2 (set_block0 k2 (set_h0 h2 ws)).
Proof. reflexivity. Qed.

#[local] Opaque block_of first_block words64 LE32.

Lemma init_lane_run H0 r lane q ws :
  scratch_ok ws -> ws_h0 ws = H0 ++ r -> length H0 = 64%nat -> length r = 8%nat -> ws_memory ws / ws_threads ws = q ->
  init_lane lane ws =
    Some (set_b (<[Z.to_nat (lane * q + 1) := first_block H0 lane 1]> (<[Z.to_nat (lane * q + 0) := first_block H0 lane 0]> (ws_b ws)))
      (set_block0 (H' 1024 (H0 ++ LE32 1 ++ LE32 lane)) (set_h0 (H0 ++ LE32 1 ++ LE32 lane) ws))).
Proof.
  intros (Hi & Hs & Hb) Hh HH Hr Hq. unfold init_lane. rewrite Hh.
  replace (lset (blake2b_Size + 4) (put32 lane) (H0 ++ r)) with (H0 ++ take 4 r ++ LE32 lane).
  2:{ symmetry. rewrite <- (take_drop 4 r) at 1. rewrite app_assoc. rewrite <- (app_nil_r (drop 4 r)).
      rewrite (lset_mid _ (H0 ++ take 4 r) (drop 4 r) [] (put32 lane)).
      - by rewrite app_nil_r, <- app_assoc.
      - unfold zlen. rewrite length_app, length_take, HH, Hr. done.
      - by rewrite length_drop, Hr. }
  rewrite (init_block_run H0 (take 4 r) lane 0 q); [|done|done|done|by rewrite length_take, Hr|done]. cbn [mbind option_bind].
  rewrite (init_block_run H0 (LE32 0) lane 1 q); [exact (f_equal Some (set_again _ _ _ _ _ _ ws))| |reflexivity|exact HH|apply length_LE32|exact Hq].
  split; [done|]. split; [done|]. apply length_H'_1024.
Qed.

(** Any run of lanes. *)
Lemma init_lanes_run H0 r lanes q ws :
  scratch_ok ws -> ws_h0 ws = H0 ++ r -> length H0 = 64%nat -> length r = 8%nat -> ws_memory ws / ws_threads ws = q ->
  exists blk h, length blk = 1024%nat /\ length h = 72%nat /\
  init_lanes lanes ws = Some (set_b (foldl (fun B l => <[Z.to_nat (Z.of_nat l * q + 1) := first_block H0 (Z.of_nat l) 1]>
      (<[Z.to_nat (Z.of_nat l * q + 0) := first_block H0 (Z.of_nat l) 0]> B)) (ws_b ws) lanes)
    (set_block0 blk (set_h0 h ws))).
Proof.
  revert r ws. induction lanes as [|lane lanes IH]; intros r ws Hok Hh HH Hr Hq.
  - exists (ws_block0 ws), (ws_h0 ws). split; [apply Hok|]. split; [rewrite Hh, length_app; lia|]. by destruct ws.
  - cbn [init_lanes]. rewrite (init_lane_run H0 r (Z.of_nat lane) q ws) by done. cbn [mbind option_bind].
    set (ws' := set_b _ _). assert (length (H' 1024 (H0 ++ LE32 1 ++ LE32 (Z.of_nat lane))) = 1024%nat) as Hl.
    { apply length_H'_1024. }
    destruct (IH (LE32 1 ++ LE32 (Z.of_nat lane)) ws') as (blk & h & Hblk & Hh' & ->); [|reflexivity|exact HH|by rewrite length_app, !length_LE32|exact Hq|].
    { destruct Hok as (? & ? & ?). split; [done|]. split; [done|]. exact Hl. }
    exists blk, h. split; [done|]. split; [done|]. exact (f_equal Some (set_again _ _ _ _ _ _ ws)).
Qed.

Lemma initBlocks_run H0 r p seg ws :
  scratch_ok ws -> ws_h0 ws = H0 ++ r -> length H0 = 64%nat -> length r = 8%nat -> ws_threads ws = p -> 0 < p -> 0 <= seg ->
  ws_memory ws = blocks p seg -> ws_b ws = replicate (Z.to_nat (blocks p seg)) zeroBlock ->
  exists blk h, length blk = 1024%nat /\ length h = 72%nat /\ initBlocks ws = Some (set_b (first_blocks p seg H0) (set_block0 blk (set_h0 h ws))).
Proof.
  intros Hok Hh HH Hr Hp Hp0 Hseg Hm Hb. unfold initBlocks.
  destruct (init_lanes_run H0 r (seq 0 (Z.to_nat (ws_threads ws))) (q seg) ws Hok Hh HH Hr) as (blk & h & Hblk & Hlen & ->).
  { rewrite Hm, Hp. unfold blocks. rewrite Z.mul_comm. apply Z.div_mul. lia. }
  exists blk, h. split; [done|]. split; [done|]. do 2 f_equal. unfold first_blocks. rewrite Hb, Hp.
  assert (seqZ 0 p = Z.of_nat <$> seq 0 (Z.to_nat p)) as ->. { unfold seqZ. apply list_fmap_ext. intros; lia. }
  rewrite foldl_fmap. reflexivity.
Qed.
End init.

(** ** The compression function *)

Lemma blamka_add_sum x y : blamka_add x y = (x + y + 2 * trunc x * trunc y) mod 2 ^ 64.
Proof.
  unfold blamka_add, add64, mul64. fold (trunc x) (trunc y). change (uint32 ?z) with (trunc z).
  rewrite Z.mul_mod_idemp_l, Z.add_mod_idemp_r, Z.add_assoc, Z.add_mod_idemp_r by lia. reflexivity.
Qed.

Lemma blamka_half_lines v a b c d (r1 r2 : nat) : apart v a b c d ->
  blamka_half v (a, b, c, d, r1, r2) = GB_lines v a b c d (Z.of_nat r1) (Z.of_nat r2).
Proof.
  intros ((?&?&?&?&?&?)&?&?&?&?). unfold blamka_half, GB_lines. change shift_rot with rotr.
  rewrite !blamka_add_sum. read_lists. reflexivity.
Qed.

Lemma length_GB_lines v a b c d r1 r2 : length (GB_lines v a b c d r1 r2) = length v.
Proof. unfold GB_lines. by rewrite !length_insert. Qed.
Lemma length_GB v a b c d : length (GB v a b c d) = length v.
Proof. unfold GB. by rewrite !length_GB_lines. Qed.
Lemma length_P v : length (P v) = length v.
Proof. unfold P. by rewrite !length_GB. Qed.

(** Two groups are the mixing function. *)
Lemma blamka_GB v a b c d : apart v a b c d -> blamka_half (blamka_half v (a, b, c, d, 32, 24)%nat) (a, b, c, d, 16, 63)%nat = GB v a b c d.
Proof.
  intros Hv. rewrite (blamka_half_lines v) by done. rewrite blamka_half_lines; [reflexivity|].
  unfold apart in *. by rewrite length_GB_lines.
Qed.

Lemma length_blamka_half v op : length (blamka_half v op) = length v.
Proof. destruct op as [[[[[a b] c] d] r1] r2]. unfold blamka_half. by rewrite !length_insert. Qed.

Lemma blamka_P v : length v = 16%nat -> foldl blamka_half v blamka_ops = P v.
Proof.
  intros Hv. unfold blamka_ops, P. cbn [foldl].
  do 8 (rewrite blamka_GB by (unfold apart; rewrite ?length_GB, ?length_blamka_half, Hv; lia)). reflexivity.
Qed.
#[global] Opaque P.

(** Words written to places that are all different. *)
Lemma write_out (idx : list nat) (v t : list Z) w :
  NoDup idx -> length v = length idx -> w ∉ idx -> foldl (fun t x => <[x.1 := x.2]> t) t (zip idx v) !!! w = t !!! w.
Proof.
  intros _. revert v t. induction idx as [|i idx IH]; intros [|x v] t Hl Hw; try done. cbn [zip zip_with foldl fst snd].
  rewrite IH by (cbn in Hl; set_solver || lia). apply list_lookup_total_insert_ne. set_solver.
Qed.

Lemma length_write (l : list (nat * Z)) t : length (foldl (fun t x => <[x.1 := x.2]> t) t l) = length t.
Proof. revert t. induction l as [|x l IH]; intros t; [done|]. cbn [foldl]. by rewrite IH, length_insert. Qed.

Lemma write_in (idx : list nat) (v t : list Z) k w :
  NoDup idx -> length v = length idx -> Forall (fun i => (i < length t)%nat) idx -> idx !! k = Some w ->
  foldl (fun t x => <[x.1 := x.2]> t) t (zip idx v) !!! w = v !!! k.
Proof.
  revert v t k. induction idx as [|i idx IH]; intros [|x v] t k Hnd Hl Hin Hk; try done. cbn [zip zip_with foldl fst snd].
  apply NoDup_cons in Hnd as [Hi Hnd]. apply Forall_cons in Hin as [Hi' Hin]. destruct k as [|k]; cbn in Hk.
  - injection Hk as <-. rewrite write_out; [|done|cbn in Hl; lia|done]. by apply list_lookup_total_insert_eq.
  - cbn in Hl. rewrite (IH v _ k); [done|done|lia| |done]. by rewrite length_insert.
Qed.

Section generic.
Context (t : list Z) (idx : list nat).
Hypothesis Hidx : length idx = 16%nat.
Hypothesis Hnd : NoDup idx.
Hypothesis Hin : Forall (fun i => (i < length t)%nat) idx.

Lemma blamkaGeneric_in k w : idx !! k = Some w -> blamkaGeneric t idx !!! w = P ((fun i => t !!! i) <$> idx) !!! k.
Proof.
  intros Hk. unfold blamkaGeneric. rewrite blamka_P by (by rewrite length_fmap). apply write_in; try done.
  by rewrite length_P, length_fmap.
Qed.
Lemma blamkaGeneric_out w : w ∉ idx -> blamkaGeneric t idx !!! w = t !!! w.
Proof.
  intros Hw. unfold blamkaGeneric. rewrite blamka_P by (by rewrite length_fmap). apply write_out; try done.
  by rewrite length_P, length_fmap.
Qed.
Lemma length_blamkaGeneric : length (blamkaGeneric t idx) = length t.
Proof. apply length_write. Qed.
End generic.

(** Rows. *)
Lemma row_idx_read (a b c : list Z) i : length a = (16 * i)%nat -> length b = 16%nat -> (fun j => (a ++ b ++ c) !!! j) <$> row_idx i = b.
Proof.
  intros Ha Hb. apply list_eq. intros k. rewrite list_lookup_fmap. unfold row_idx. destruct (decide (k < 16)%nat).
  - rewrite lookup_seq_lt by done. cbn [fmap option_fmap option_map]. rewrite lookup_total_app_r by lia.
    rewrite lookup_total_app_l by lia. replace (16 * i + k - length a)%nat with k by lia. symmetry. apply list_lookup_lookup_total_lt. lia.
  - rewrite lookup_seq_ge by lia. symmetry. apply lookup_ge_None. lia.
Qed.

Lemma blamka_row (a b c : list Z) i : length a = (16 * i)%nat -> length b = 16%nat -> blamkaGeneric (a ++ b ++ c) (row_idx i) = a ++ P b ++ c.
Proof.
  intros Ha Hb. assert (length (row_idx i) = 16%nat) as Hidx by apply length_seq. assert (NoDup (row_idx i)) as Hnd by apply NoDup_seq.
  assert (Forall (fun j => (j < length (a ++ b ++ c))%nat) (row_idx i)) as Hin.
  { apply Forall_seq. intros j ?. rewrite !length_app. lia. }
  assert (length (blamkaGeneric (a ++ b ++ c) (row_idx i)) = length (a ++ P b ++ c)) as Hl.
  { rewrite length_blamkaGeneric, !length_app, length_P. done. }
  apply list_eq. intros w. destruct (decide (w < length (a ++ P b ++ c))%nat) as [Hw|Hw].
  2:{ rewrite !lookup_ge_None_2 by lia. done. }
  rewrite !list_lookup_lookup_total_lt by lia. f_equal.
  destruct (decide (16 * i <= w < 16 * i + 16)%nat) as [Hr|Hr].
  - rewrite (blamkaGeneric_in _ _ Hidx Hnd Hin (w - 16 * i)).
    + rewrite row_idx_read by done. rewrite lookup_total_app_r by lia. rewrite Ha, lookup_total_app_l by (rewrite length_P; lia). done.
    + unfold row_idx. rewrite lookup_seq_lt by lia. f_equal. lia.
  - rewrite (blamkaGeneric_out _ _ Hidx Hnd) by (unfold row_idx; rewrite elem_of_seq; lia).
    destruct (decide (w < 16 * i)%nat); [by rewrite !lookup_total_app_l by lia|].
    rewrite !(lookup_total_app_r a) by lia. rewrite !lookup_total_app_r by (rewrite ?length_P; lia). by rewrite length_P.
Qed.

Lemma rows_run n i (a c : list Z) : length a = (16 * i)%nat -> length c = (16 * n)%nat ->
  foldl blamkaGeneric (a ++ c) (row_idx <$> seq i n) = a ++ (seq 0 n ≫= (fun k => P (row c k))).
Proof.
  revert i a c. induction n as [|n IH]; intros i a c Ha Hc.
  - destruct c; [done|cbn in Hc; lia].
  - cbn [seq fmap list_fmap foldl]. assert (length (take 16 c) = 16%nat) as Ht by (rewrite length_take; lia).
    rewrite <- (take_drop 16 c) at 1. rewrite blamka_row by done. rewrite app_assoc.
    rewrite (IH (S i) (a ++ P (take 16 c)) (drop 16 c)).
    + rewrite bind_cons, <- app_assoc. change (row c 0) with (take 16 c). apply (f_equal (fun z => a ++ P (take 16 c) ++ z)).
      rewrite <- seq_shift. change (map S (seq 0 n)) with (S <$> seq 0 n). rewrite list_fmap_bind. apply list_bind_ext; [|done].
      intros k. cbn [compose]. unfold compose, row. rewrite drop_drop. by replace (16 + 16 * k)%nat with (16 * S k)%nat by lia.
    + rewrite length_app, length_P. lia.
    + rewrite length_drop. lia.
Qed.

(** Columns: the words of column [j] and their places in it. *)
Definition place_in (w : nat) : nat := (2 * (w / 16) + w mod 2)%nat.

Lemma col_idx_spec j w : (j < 8)%nat -> (w < 128)%nat ->
  if decide ((w mod 16) / 2 = j)%nat then col_idx j !! place_in w = Some w else w ∉ col_idx j.
Proof.
  intros Hj Hw.
  assert (forallb (fun j => forallb (fun w =>
    if decide ((w mod 16) / 2 = j)%nat then bool_decide (col_idx j !! place_in w = Some w) else negb (bool_decide (w ∈ col_idx j)))
    (seq 0 128)) (seq 0 8) = true) as Hall by (vm_compute; reflexivity).
  rewrite forallb_forall in Hall. specialize (Hall j). rewrite forallb_forall in Hall.
  specialize (Hall ltac:(apply in_seq; lia) w ltac:(apply in_seq; lia)).
  destruct (decide _); [by apply bool_decide_eq_true in Hall|]. apply negb_true_iff in Hall. by apply bool_decide_eq_false in Hall.
Qed.

Lemma col_idx_ok j : (j < 8)%nat -> length (col_idx j) = 16%nat /\ NoDup (col_idx j) /\ Forall (fun i => (i < 128)%nat) (col_idx j).
Proof.
  intros Hj. assert (forallb (fun j => bool_decide (length (col_idx j) = 16%nat /\ NoDup (col_idx j) /\ Forall (fun i => (i < 128)%nat) (col_idx j)))
    (seq 0 8) = true) as Hall by (vm_compute; reflexivity).
  rewrite forallb_forall in Hall. specialize (Hall j ltac:(apply in_seq; lia)). by apply bool_decide_eq_true in Hall.
Qed.

Lemma col_idx_read t j : (fun i => t !!! i) <$> col_idx j = column t j.
Proof. reflexivity. Qed.

Lemma cols_run t n : length t = 128%nat -> (n <= 8)%nat ->
  let r := foldl blamkaGeneric t (col_idx <$> seq 0 n) in
  length r = 128%nat /\ forall w, (w < 128)%nat ->
    r !!! w = if decide ((w mod 16) / 2 < n)%nat then P (column t ((w mod 16) / 2)) !!! place_in w else t !!! w.
Proof.
  intros Ht. induction n as [|n IH]; intros Hn; cbv zeta; [split; [done|]; intros w Hw; cbn; destruct (decide _); [lia|done]|].
  rewrite seq_S, fmap_app, foldl_app. cbn [fmap list_fmap foldl Nat.add].
  destruct (IH ltac:(lia)) as [Hl Hr]. set (r := foldl _ t _) in *.
  destruct (col_idx_ok n ltac:(lia)) as (Hi & Hnd & Hin). rewrite <- Hl in Hin.
  split; [by rewrite length_blamkaGeneric|]. intros w Hw. pose proof (col_idx_spec n w ltac:(lia) Hw) as Hc.
  destruct (decide ((w mod 16) / 2 = n)%nat) as [E|E].
  - rewrite (blamkaGeneric_in _ _ Hi Hnd Hin (place_in w)) by done. rewrite decide_True by lia. rewrite E. do 2 f_equal.
    rewrite <- col_idx_read. apply list_fmap_ext. intros k x Hx. rewrite Hr by (rewrite Forall_lookup in Hin; specialize (Hin k x Hx); lia).
    rewrite decide_False; [done|]. pose proof (col_idx_spec n x ltac:(lia)) as Hcx. rewrite Forall_lookup in Hin. specialize (Hin k x Hx).
    specialize (Hcx ltac:(lia)). destruct (decide (x mod 16 / 2 = n)%nat) as [->|]; [lia|]. exfalso. apply Hcx. by eapply list_elem_of_lookup_2.
  - rewrite (blamkaGeneric_out _ _ Hi Hnd) by done. rewrite Hr by done. destruct (decide _), (decide _); (done || lia).
Qed.

(** The rounds are the rows and then the columns. *)
Lemma length_P_rows t : length t = 128%nat -> length (P_rows t) = 128%nat.
Proof.
  intros Ht. unfold P_rows. cbn [seq mbind list_bind]. rewrite !length_app, !length_P. unfold row.
  rewrite !length_take, !length_drop, Ht. reflexivity.
Qed.

Lemma P_rows_run t : length t = 128%nat -> foldl blamkaGeneric t (row_idx <$> seq 0 8) = P_rows t.
Proof.
  intros Ht. assert (length t = 16 * 8)%nat as Ht' by lia. pose proof (rows_run 8 0 [] t (eq_sym (Nat.mul_0_r 16)) Ht') as E.
  rewrite !app_nil_l in E. rewrite E. unfold P_rows. reflexivity.
Qed.
#[local] Opaque P_rows blamkaGeneric.

Lemma blamka_rounds_spec t : length t = 128%nat -> blamka_rounds t = P_columns (P_rows t).
Proof.
  intros Ht. unfold blamka_rounds. rewrite P_rows_run by done.
  destruct (cols_run (P_rows t) 8 (length_P_rows t Ht) ltac:(lia)) as [Hl Hr]. cbv zeta in Hl, Hr.
  apply list_eq. intros w. destruct (decide (w < 128)%nat) as [Hw|].
  2:{ rewrite lookup_ge_None_2 by lia. rewrite lookup_ge_None_2; [done|]. unfold P_columns. rewrite length_fmap, length_seq. lia. }
  rewrite list_lookup_lookup_total_lt by lia. rewrite Hr by done.
  assert (w mod 16 / 2 < 8)%nat as Hc by (apply Nat.Div0.div_lt_upper_bound; pose proof (Nat.mod_upper_bound w 16); lia).
  rewrite decide_True by done. unfold P_columns. rewrite list_lookup_fmap, lookup_seq_lt by done. cbn [fmap option_fmap option_map].
  f_equal. rewrite (list_lookup_total_alt (_ <$> _)), list_lookup_fmap, lookup_seq_lt by done. reflexivity.
Qed.

Lemma length_P_columns t : length (P_columns t) = 128%nat.
Proof. unfold P_columns. by rewrite length_fmap, length_seq. Qed.
#[global] Opaque P_columns P_rows blamka_rounds.

Lemma length_compression X Y : length X = 128%nat -> length Y = 128%nat -> length (compression X Y) = 128%nat.
Proof. intros. unfold compression. rewrite !length_zip_with, length_P_columns. lia. Qed.

Lemma zip_lxor_comm (a b : list Z) : zip_with Z.lxor a b = zip_with Z.lxor b a.
Proof. revert b. induction a as [|x a IH]; intros [|y b]; [done..|]. cbn [zip_with]. by rewrite IH, Z.lxor_comm. Qed.

Lemma zip_lxor_zero (a : list Z) : length a = 128%nat -> zip_with Z.lxor a zeroBlock = a.
Proof.
  intros Ha. unfold zeroBlock, zeros, blockLength. change (Z.to_nat 128) with 128%nat. rewrite <- Ha. clear Ha.
  induction a as [|x a IH]; [done|]. cbn. by rewrite IH, Z.lxor_0_r.
Qed.

(** Both versions of [processBlock] on one block. *)
Lemma processBlockGeneric_run out in1 in2 (xor : bool) :
  length in1 = 128%nat -> length in2 = 128%nat ->
  exists t, length t = 128%nat /\ processBlockGeneric out in1 in2 xor =
    (if xor then zip_with Z.lxor out (compression in1 in2) else compression in1 in2, t).
Proof.
  intros H1 H2. unfold processBlockGeneric. assert (length (zip_with Z.lxor in1 in2) = 128%nat) as Hz by (rewrite length_zip_with; lia).
  rewrite blamka_rounds_spec by done. eexists. split; [|unfold compression; cbv zeta].
  2:{ rewrite (zip_lxor_comm (P_columns _)). reflexivity. }
  apply length_P_columns.
Qed.

Section process.
Context `{Bl : Blamka} {BlOk : BlamkaOk}.

Lemma processBlockSSE_run out in1 in2 (xor : bool) :
  length out = 128%nat -> length in1 = 128%nat -> length in2 = 128%nat ->
  exists t, length t = 128%nat /\ processBlockSSE out in1 in2 xor =
    (if xor then zip_with Z.lxor out (compression in1 in2) else compression in1 in2, t).
Proof.
  intros Ho H1 H2. unfold processBlockSSE. destruct useSSE4; cbn [negb]; [|by apply processBlockGeneric_run].
  assert (length (zip_with Z.lxor in1 in2) = 128%nat) as Hz by (rewrite length_zip_with; lia).
  rewrite (mixBlocks_ok in1 in2 zeroBlock) by done. rewrite zip_lxor_zero by done. rewrite blamkaSSE4_ok, blamka_rounds_spec by done.
  exists (P_columns (P_rows (zip_with Z.lxor in1 in2))). pose proof (length_P_columns (P_rows (zip_with Z.lxor in1 in2))) as Hp. split; [done|].
  unfold compression. cbv zeta. rewrite xorBlocks_ok, mixBlocks_ok by done. by rewrite (zip_lxor_comm (P_columns _)).
Qed.
End process.

(** ** The reference block *)

Section index.
Variables p seg : Z.
Hypothesis Hp : 0 < p.
Hypothesis Hseg : 2 <= seg.
Hypothesis Hfit : blocks p seg < 2 ^ 32.

(** The length of W and where it starts, as [indexAlpha] computes them. *)
Definition W_start (r sl : Z) : Z := if (r =? 0) then 0 else (sl + 1) mod 4 * seg.
Definition W_size (r sl j : Z) (same : bool) : Z :=
  (if (r =? 0) then sl * seg else 3 * seg) + (if same then j else 0) - (if (j =? 0) || same then 1 else 0).

Definition at_block (r sl j : Z) : Prop := 0 <= r /\ 0 <= sl < 4 /\ first_index r sl <= j < seg.

Lemma finished_spec r sl : 0 <= sl < 4 ->
  zlen (finished seg r sl) = (if (r =? 0) then sl * seg else 3 * seg) /\
  forall k, 0 <= k < zlen (finished seg r sl) -> finished seg r sl !! Z.to_nat k = Some ((W_start r sl + k) mod q seg).
Proof.
  intros Hsl. unfold finished, W_start, q. destruct (r =? 0).
  - split; [unfold zlen; rewrite length_seqZ; lia|]. intros k Hk. unfold zlen in Hk. rewrite length_seqZ in Hk.
    assert (0 <= sl * seg <= 3 * seg) by nia. rewrite lookup_seqZ. split; [|lia]. rewrite Z.mod_small by lia. lia.
  - cbn [mbind list_bind]. rewrite app_nil_r.
    assert (forall d, length (seqZ ((sl + d) mod 4 * seg) seg) = Z.to_nat seg) as Hl by (intros; apply length_seqZ).
    split; [unfold zlen; rewrite !length_app, !Hl; lia|]. intros k Hk. unfold zlen in Hk. rewrite !length_app, !Hl in Hk.
    assert (forall d i, 0 <= i < seg -> 1 <= d <= 3 -> ((sl + 1) mod 4 * seg + ((d - 1) * seg + i)) mod (4 * seg) = (sl + d) mod 4 * seg + i) as Hm.
    { intros d i Hi Hd. symmetry. apply (Z.mod_unique_pos _ _ (((sl + 1) mod 4 + (d - 1)) / 4)).
      - pose proof (Z.mod_pos_bound (sl + d) 4). nia.
      - assert ((sl + d) mod 4 = ((sl + 1) mod 4 + (d - 1)) mod 4) as -> by (rewrite Z.add_mod_idemp_l by lia; f_equal; lia).
        pose proof (Z.div_mod ((sl + 1) mod 4 + (d - 1)) 4). nia. }
    destruct (decide (k < seg)); [|destruct (decide (k < 2 * seg))].
    + rewrite lookup_app_l by (rewrite Hl; lia). apply lookup_seqZ. split; [|lia].
      replace ((sl + 1) mod 4 * seg + k) with ((sl + 1) mod 4 * seg + ((1 - 1) * seg + k)) by lia. rewrite Hm by lia. lia.
    + rewrite lookup_app_r by (rewrite Hl; lia). rewrite Hl. rewrite lookup_app_l by (rewrite Hl; lia). apply lookup_seqZ. split; [|lia].
      replace ((sl + 1) mod 4 * seg + k) with ((sl + 1) mod 4 * seg + ((2 - 1) * seg + (k - seg))) by lia. rewrite Hm by lia. lia.
    + rewrite lookup_app_r by (rewrite Hl; lia). rewrite Hl. rewrite lookup_app_r by (rewrite Hl; lia). rewrite Hl. apply lookup_seqZ. split; [|lia].
      replace ((sl + 1) mod 4 * seg + k) with ((sl + 1) mod 4 * seg + ((3 - 1) * seg + (k - 2 * seg))) by lia. rewrite Hm by lia. lia.
Qed.

Lemma W_spec r sl j same : at_block r sl j -> (r = 0 -> sl = 0 -> same = true) ->
  1 <= W_size r sl j same /\ zlen (W seg r sl j same) = W_size r sl j same /\
  forall k, 0 <= k < W_size r sl j same -> W seg r sl j same !!! Z.to_nat k = (W_start r sl + k) mod q seg.
Proof.
  intros (Hr & Hsl & Hj) Hsame. destruct (finished_spec r sl Hsl) as [Hfl Hfk]. unfold first_index in Hj.
  assert (0 <= j < seg) as Hj' by (destruct (_ && _); lia).
  set (cur := if same then seqZ (sl * seg) (j - 1) else []).
  assert (zlen (finished seg r sl ++ cur) = (if (r =? 0) then sl * seg else 3 * seg) + (if same then Z.max 0 (j - 1) else 0)) as Hall.
  { rewrite zlen_app, Hfl. f_equal. unfold cur, zlen. destruct same; [rewrite length_seqZ|cbn]; lia. }
  assert (1 <= W_size r sl j same) as Hpos.
  { unfold W_size. destruct (Z.eqb_spec r 0), (Z.eqb_spec j 0), same; cbn [andb orb] in *; try lia;
      destruct (Z.eqb_spec sl 0); cbn [andb orb] in *; try lia; try nia; specialize (Hsame ltac:(done) ltac:(done)); done. }
  assert (zlen (W seg r sl j same) = W_size r sl j same) as Hlen.
  { unfold W. fold cur. cbv zeta. unfold W_size in *. destruct (Z.eqb_spec j 0) as [->|Hj0]; cbn [orb] in *.
    - unfold zlen in *. rewrite length_take. destruct same; lia.
    - rewrite Hall. destruct same; lia. }
  split; [done|]. split; [done|]. intros k Hk.
  assert (forall all, k < zlen all -> (if (j =? 0) then take (length all - 1) all else all) = W seg r sl j same -> W seg r sl j same !!! Z.to_nat k = all !!! Z.to_nat k) as Hcut.
  { intros all Hka E. rewrite <- E in Hlen |- *. destruct (j =? 0); [|done]. rewrite !list_lookup_total_alt, lookup_take_lt; [done|].
    unfold zlen in *. rewrite length_take in Hlen. lia. }
  rewrite (Hcut (finished seg r sl ++ cur)); [|rewrite Hall; unfold W_size in Hk; destruct same, (j =? 0); cbn [orb] in Hk; lia|done].
  rewrite list_lookup_total_alt. destruct (decide (k < zlen (finished seg r sl))) as [Hlt|Hge].
  - rewrite lookup_app_l by (unfold zlen in *; lia). by rewrite Hfk by lia.
  - rewrite lookup_app_r by (unfold zlen in *; lia). unfold W_size in Hk. rewrite Hfl in Hge. unfold cur.
    destruct same; [|destruct (j =? 0); cbn [orb] in Hk; lia]. rewrite orb_true_r in Hk.
    assert (length (finished seg r sl) = Z.to_nat (if (r =? 0) then sl * seg else 3 * seg)) as -> by (unfold zlen in Hfl; lia).
    rewrite (proj2 (lookup_seqZ (sl * seg) (j - 1) _ (sl * seg + (k - if (r =? 0) then sl * seg else 3 * seg)))) by (destruct (r =? 0); lia).
    change (default inhabitant (Some ?z)) with z. assert (0 <= sl * seg <= 3 * seg) by nia.
    unfold W_start, q. clear Hall Hcut Hfk Hlen Hpos Hfl. destruct (r =? 0); [rewrite Z.mod_small by lia; lia|].
    apply (Z.mod_unique_pos _ _ (((sl + 1) mod 4 + 3) / 4)); [lia|]. pose proof (Z.div_mod ((sl + 1) mod 4 + 3) 4 ltac:(lia)) as E.
    rewrite Z.add_mod_idemp_l in E by lia. assert ((sl + 1 + 3) mod 4 = sl) as Em by (symmetry; apply (Z.mod_unique_pos _ _ 1); lia). nia.
Qed.

(** What the RFC refers to, and where [indexAlpha] finds it. *)
Lemma reference_spec r l sl j J1 J2 :
  at_block r sl j -> 0 <= l < p -> 0 <= J1 < 2 ^ 32 ->
  exists l' k, let same := (l =? l') in
    l' = (if (r =? 0) && (sl =? 0) then l else J2 mod p) /\ 0 <= l' < p /\
    k = W_size r sl j same - 1 - W_size r sl j same * (J1 ^ 2 / 2 ^ 32) / 2 ^ 32 /\ 0 <= k < W_size r sl j same /\
    reference p seg r l sl j J1 J2 = (l', (W_start r sl + k) mod q seg).
Proof.
  intros Hb Hl HJ. unfold reference. set (l' := if _ && _ then l else _). exists l', (W_size r sl j (l =? l') - 1 - W_size r sl j (l =? l') * (J1 ^ 2 / 2 ^ 32) / 2 ^ 32).
  cbv zeta. assert (0 <= l' < p) as Hl' by (unfold l'; destruct (_ && _); [done|apply Z.mod_pos_bound; lia]).
  destruct (W_spec r sl j (l =? l') Hb) as (Hpos & Hlen & Hk).
  { intros -> ->. unfold l'. cbn. apply Z.eqb_refl. }
  assert (0 <= J1 ^ 2 / 2 ^ 32 < 2 ^ 32) as Hx.
  { split; [apply Z.div_pos; nia|]. apply Z.div_lt_upper_bound; [lia|]. nia. }
  assert (0 <= W_size r sl j (l =? l') * (J1 ^ 2 / 2 ^ 32) / 2 ^ 32 < W_size r sl j (l =? l')) as Hy.
  { split; [apply Z.div_pos; nia|]. apply Z.div_lt_upper_bound; [lia|]. nia. }
  split; [done|]. split; [done|]. split; [done|]. split; [lia|]. f_equal. rewrite Hlen. apply Hk. lia.
Qed.

Lemma segment_bounds : 8 <= q seg < 2 ^ 32 /\ 3 * seg < 2 ^ 32 /\ p < 2 ^ 32.
Proof. unfold blocks, q in *. nia. Qed.

Lemma W_size_bound r sl j same : at_block r sl j -> W_size r sl j same <= q seg.
Proof.
  intros (Hr & Hsl & Hj). unfold W_size, q. assert (0 <= j < seg) as Hj' by (unfold first_index in Hj; destruct (_ && _); lia).
  assert (sl * seg <= 3 * seg) by nia. destruct (r =? 0), same, (j =? 0); cbn [orb]; lia.
Qed.

Lemma phi_run x m s l lanes :
  1 <= m < 2 ^ 32 -> 0 <= s < 2 ^ 32 -> 1 <= lanes < 2 ^ 32 -> 0 <= l -> (l + 1) * lanes <= 2 ^ 32 ->
  phi x m s l lanes = l * lanes + (s + (m - 1 - m * ((x mod 2 ^ 32) ^ 2 / 2 ^ 32) / 2 ^ 32)) mod lanes.
Proof.
  intros Hm Hs Hlanes Hl Hfit'. unfold phi. change 0xFFFFFFFF with (Z.ones 32). rewrite Z.land_ones by lia.
  set (J1 := x mod 2 ^ 32). assert (0 <= J1 < 2 ^ 32) as HJ by (apply Z.mod_pos_bound; lia).
  rewrite !Z.shiftr_div_pow2 by lia. unfold mul64 at 2. rewrite (Z.mod_small (J1 * J1)) by nia. rewrite <- Z.pow_2_r.
  assert (0 <= J1 ^ 2 / 2 ^ 32 < 2 ^ 32) as Hxx by (split; [apply Z.div_pos; nia|apply Z.div_lt_upper_bound; nia]).
  unfold mul64. rewrite (Z.mod_small (J1 ^ 2 / 2 ^ 32 * m)) by nia. rewrite (Z.mul_comm (J1 ^ 2 / 2 ^ 32) m).
  assert (0 <= m * (J1 ^ 2 / 2 ^ 32) / 2 ^ 32 < m) as Hy by (split; [apply Z.div_pos; nia|apply Z.div_lt_upper_bound; nia]).
  set (y := m * (J1 ^ 2 / 2 ^ 32) / 2 ^ 32) in *. unfold add64, sub64. rewrite !(Z.mod_small (_ + _) (2 ^ 64)) by lia.
  rewrite (Z.mod_small (_ - _)) by lia. replace (s + m - (y + 1)) with (s + (m - 1 - y)) by lia.
  pose proof (Z.mod_pos_bound (s + (m - 1 - y)) lanes ltac:(lia)). unfold mul32, add32. rewrite (Z.mod_small (l * lanes)) by nia.
  rewrite Z.mod_small; [done|]. nia.
Qed.

Lemma indexAlpha_run r l sl j x :
  at_block r sl j -> 0 <= l < p ->
  indexAlpha x (q seg) seg p r sl l j =
    let '(l', z) := reference p seg r l sl j (x mod 2 ^ 32) (x / 2 ^ 32 mod 2 ^ 32) in l' * q seg + z.
Proof.
  intros Hb Hl. destruct segment_bounds as (Hq & H3 & Hp32).
  destruct (reference_spec r l sl j (x mod 2 ^ 32) (x / 2 ^ 32 mod 2 ^ 32) Hb Hl ltac:(apply Z.mod_pos_bound; lia))
    as (l' & k & El & Hl' & Ek & Hk & ->). cbv zeta in *.
  pose proof (W_size_bound r sl j (l =? l') Hb) as Hsize. destruct Hb as (Hr & Hsl & Hj).
  assert (0 <= j < seg) as Hj' by (unfold first_index in Hj; destruct (_ && _); lia).
  unfold indexAlpha. rewrite Z.shiftr_div_pow2 by lia. change (uint32 ?z) with (z mod 2 ^ 32). rewrite <- El.
  assert (0 <= sl * seg <= 3 * seg) by nia. change syncPoints with 4.
  replace (add32 sl 1) with (sl + 1) by (unfold add32; rewrite Z.mod_small; lia).
  assert (0 <= (sl + 1) mod 4 * seg <= 3 * seg) by (pose proof (Z.mod_pos_bound (sl + 1) 4); nia).
  unfold mul32. rewrite !(Z.mod_small (_ * seg)) by lia.
  assert ((r = 0 /\ sl = 0 -> (l =? l') = true)) as Hfirst.
  { intros [-> ->]. cbn in El. rewrite El. apply Z.eqb_refl. }
  assert (forall a, 0 <= a <= 3 * seg -> add32 a j = a + j) as Hadd by (intros a Ha; unfold add32, q in *; rewrite Z.mod_small; lia).
  set (same := (l =? l')) in *. transitivity (phi x (W_size r sl j same) (W_start r sl) l' (q seg)).
  - unfold W_size, W_start in *. rewrite !Hadd by lia. destruct (Z.eqb_spec r 0) as [->|Hr0].
    + assert ((if (sl =? 0) || same then sl * seg + j else sl * seg) = sl * seg + (if same then j else 0)) as ->.
      { destruct (Z.eqb_spec sl 0) as [->|]; cbn [orb]; [rewrite Hfirst by done; lia|]. destruct same; lia. }
      f_equal. destruct ((j =? 0) || same); [|lia]. unfold sub32. rewrite Z.mod_small; [lia|]. destruct same; lia.
    + f_equal. destruct ((j =? 0) || same); [unfold sub32; rewrite Z.mod_small|]; destruct same; lia.
  - subst k. apply phi_run; [lia| |lia|lia|].
    + unfold W_start. destruct (r =? 0); lia.
    + clear - Hfit Hl' Hq. unfold blocks in Hfit. nia.
Qed.

(** The block it refers to is one that is there: in another lane it is not in
    the slice the workers are writing, in the same lane it is before the block
    in front, and in the first pass it was computed. *)
Lemma reference_done r l sl j J1 J2 :
  at_block r sl j -> 0 <= l < p -> 0 <= J1 < 2 ^ 32 ->
  let '(l', z) := reference p seg r l sl j J1 J2 in
  0 <= l' < p /\ 0 <= z < q seg /\
  (sl * seg <= z < (sl + 1) * seg -> l' = l /\ z < sl * seg + j - 1) /\
  (r = 0 -> z < sl * seg + j).
Proof.
  intros Hb Hl HJ. destruct (reference_spec r l sl j J1 J2 Hb Hl HJ) as (l' & k & El & Hl' & _ & Hk & ->). cbv zeta in Hk.
  destruct segment_bounds as (Hq & _). destruct Hb as (Hr & Hsl & Hj).
  assert (0 <= j < seg) as Hj' by (unfold first_index in Hj; destruct (_ && _); lia).
  split; [done|]. split; [apply Z.mod_pos_bound; lia|]. unfold W_size, W_start, q in *.
  assert (0 <= sl * seg <= 3 * seg) by nia.
  destruct (Z.eqb_spec r 0) as [->|Hr0].
  - rewrite Z.mod_small by (destruct (Z.eqb_spec l l'), (j =? 0); cbn [orb] in Hk; lia). rewrite Z.add_0_l.
    destruct (Z.eqb_spec l l') as [->|Hne]; [rewrite orb_true_r in Hk; split; intros; [split; [done|]|]; lia|].
    split; intros; [exfalso|]; destruct (j =? 0); cbn [orb] in Hk; lia.
  - split; [|done]. intros Hz. assert ((sl + 1) mod 4 * seg = if (sl =? 3) then 0 else (sl + 1) * seg) as Es.
    { destruct (Z.eqb_spec sl 3) as [->|]; [done|]. by rewrite Z.mod_small by lia. }
    rewrite Es in Hz |- *. set (s := if (sl =? 3) then 0 else (sl + 1) * seg) in *.
    assert (0 <= k < 3 * seg + j) as Hk3 by (destruct (l =? l'), (j =? 0); cbn [orb] in Hk; lia).
    assert ((s + k) mod (4 * seg) = if (s + k <? 4 * seg) then s + k else s + k - 4 * seg) as Em.
    { unfold s in *. destruct (Z.ltb_spec ((if sl =? 3 then 0 else (sl + 1) * seg) + k) (4 * seg)).
      - apply Z.mod_small. destruct (sl =? 3); nia.
      - symmetry. apply (Z.mod_unique_pos _ _ 1); destruct (Z.eqb_spec sl 3); nia. }
    rewrite Em in Hz |- *. unfold s in *. destruct (Z.eqb_spec l l') as [->|Hne]; cbn [orb] in Hk.
    + split; [done|]. rewrite orb_true_r in Hk. destruct (Z.ltb_spec ((if sl =? 3 then 0 else (sl + 1) * seg) + k) (4 * seg)), (Z.eqb_spec sl 3); try subst sl; nia.
    + exfalso. destruct (Z.ltb_spec ((if sl =? 3 then 0 else (sl + 1) * seg) + k) (4 * seg)), (Z.eqb_spec sl 3), (j =? 0); cbn [orb] in Hk; try subst sl; nia.
Qed.
End index.
