(* ===== verification/Argon2Run.v ===== *)
(** * The workers of Argon2 against the sequential order of the RFC

    A turn of one worker computes one block; turns of different lanes of a
    slice commute, so every schedule leaves the matrix the RFC's order leaves.
    Then the whole derivation. *)
From S2P Require Import Prelude Bytes Blake2b Argon2 Argon2Rfc.

(** ** One turn *)

Section run.
Context `{Bl : Blamka} {BlOk : BlamkaOk}.
Variables y t p seg : Z.
Hypothesis Hp : 0 < p.
Hypothesis Hseg : 2 <= seg.
Hypothesis Hfit : blocks p seg < 2 ^ 32.
Hypothesis Hy : 0 <= y <= 2.

Definition block_ok (b : list Z) : Prop := length b = 128%nat.
Definition matrix_ok (B : list (list Z)) : Prop := length B = Z.to_nat (blocks p seg) /\ Forall block_ok B.
Definition lane_ok (s : laneScratch) : Prop := block_ok (ls_addresses s) /\ block_ok (ls_in s) /\ block_ok (ls_tmp s).

Lemma place_lt l c : 0 <= l < p -> 0 <= c < q seg -> (place seg l c < Z.to_nat (blocks p seg))%nat.
Proof. unfold place, blocks, q. intros. apply Z2Nat.inj_lt; nia. Qed.

Lemma place_inj l c l' c' : 0 <= l -> 0 <= l' -> 0 <= c < q seg -> 0 <= c' < q seg -> place seg l c = place seg l' c' -> l = l' /\ c = c'.
Proof. unfold place, q. intros ???? E. apply Z2Nat.inj in E; [|nia..]. assert (l = l') by nia. split; [done|]. subst. lia. Qed.

Lemma matrix_block B i : matrix_ok B -> (i < Z.to_nat (blocks p seg))%nat -> B !! i = Some (B !!! i) /\ block_ok (B !!! i).
Proof.
  intros [Hl Hb] Hi. assert (B !! i = Some (B !!! i)) as E by (apply list_lookup_lookup_total_lt; lia).
  split; [done|]. by eapply Forall_lookup_1 in E.
Qed.

Lemma matrix_insert B i b : matrix_ok B -> block_ok b -> matrix_ok (<[i := b]> B).
Proof. intros [Hl Hb] H. split; [by rewrite length_insert|]. by apply Forall_insert. Qed.

(** How many blocks of addresses are made before the one at [j] is read. *)
Definition made (j : Z) : Z := if (j mod 128 =? 0) then j / 128 else j / 128 + 1.

Definition worker_ok (r sl l : Z) (wk : worker) : Prop :=
  let j := wk_index wk in
  first_index r sl <= j <= seg /\ wk_offset wk = l * q seg + sl * seg + j /\ lane_ok (wk_s wk) /\
  (data_independent y r sl = true ->
     ls_in (wk_s wk) = [r; l; sl; blocks p seg; t; y; made j] ++ zeros 121 /\
     (j mod 128 <> 0 -> ls_addresses (wk_s wk) = address_block y t p seg r l sl (made j))).

Lemma independent_spec r sl : independent y r sl = data_independent y r sl.
Proof. reflexivity. Qed.

Lemma compression_comm X Y : compression X Y = compression Y X.
Proof. unfold compression. by rewrite (zip_lxor_comm X Y). Qed.

Lemma zeroBlock_ok : block_ok zeroBlock.
Proof. done. Qed.

Lemma next_addresses_run s : lane_ok s ->
  lane_ok (next_addresses s) /\
  (forall r l sl k, 0 <= k < 2 ^ 32 -> ls_in s = [r; l; sl; blocks p seg; t; y; k] ++ zeros 121 ->
    ls_in (next_addresses s) = [r; l; sl; blocks p seg; t; y; k + 1] ++ zeros 121 /\
    ls_addresses (next_addresses s) = address_block y t p seg r l sl (k + 1)).
Proof.
  intros (Ha & Hi & Ht). unfold next_addresses. set (inb := <[6%nat := _]> (ls_in s)).
  assert (length inb = 128%nat) as Hinb by (unfold inb; by rewrite length_insert).
  unfold processBlock. destruct (processBlockSSE_run (ls_addresses s) inb zeroBlock false Ha Hinb zeroBlock_ok) as (t1 & Ht1 & ->).
  pose proof (length_compression inb zeroBlock Hinb zeroBlock_ok) as Hc.
  destruct (processBlockSSE_run (compression inb zeroBlock) (compression inb zeroBlock) zeroBlock false Hc Hc zeroBlock_ok) as (t2 & Ht2 & ->).
  cbn [ls_in ls_addresses]. split.
  - split_and!; [|done|done]. by apply length_compression.
  - intros r l sl k Hk E. assert (inb = [r; l; sl; blocks p seg; t; y; k + 1] ++ zeros 121) as ->.
    { unfold inb. rewrite E. cbn [app insert list_insert list_lookup_total lookup_total]. unfold add64. rewrite Z.mod_small by lia. done. }
    split; [done|]. unfold address_block. rewrite (compression_comm zeroBlock (compression _ _)), (compression_comm zeroBlock). done.
Qed.

Lemma made_next j : 0 <= j -> made (j + 1) = j / 128 + 1.
Proof.
  intros Hj. unfold made. pose proof (Z.div_mod j 128 ltac:(lia)). pose proof (Z.mod_pos_bound j 128 ltac:(lia)).
  destruct (Z.eqb_spec ((j + 1) mod 128) 0) as [E|E].
  - pose proof (Z.div_mod (j + 1) 128 ltac:(lia)). lia.
  - pose proof (Z.div_mod (j + 1) 128 ltac:(lia)). pose proof (Z.mod_pos_bound (j + 1) 128 ltac:(lia)). lia.
Qed.

(** A worker's block of addresses when it reads the one at its index. *)
Lemma addresses_ready r sl l wk : worker_ok r sl l wk -> wk_index wk < seg ->
  let s := if data_independent y r sl && (wk_index wk mod 128 =? 0) then next_addresses (wk_s wk) else wk_s wk in
  lane_ok s /\
  (data_independent y r sl = true ->
     ls_in s = [r; l; sl; blocks p seg; t; y; wk_index wk / 128 + 1] ++ zeros 121 /\
     ls_addresses s = address_block y t p seg r l sl (wk_index wk / 128 + 1)).
Proof.
  intros (Hj & Ho & Hs & Hd) Hlt. cbv zeta. destruct (data_independent y r sl); cbn [andb]; [|done].
  destruct (Hd eq_refl) as [Hin Ha]. unfold made in *. destruct (Z.eqb_spec (wk_index wk mod 128) 0) as [E|E].
  - destruct (next_addresses_run (wk_s wk) Hs) as [Hok Hn]. split; [done|]. intros _. apply Hn; [|done].
    assert (0 <= wk_index wk) by (unfold first_index in Hj; destruct (_ && _); lia).
    split; [apply Z.div_pos; lia|]. apply Z.div_lt_upper_bound; [lia|]. unfold blocks, q in Hfit. nia.
  - split; [done|]. auto.
Qed.

(** The place of the block in front of the next one. *)
Lemma prev_place r sl l j : 0 <= l < p -> at_block seg r sl j ->
  (if (j =? 0) && (sl =? 0) then add32 (sub32 (l * q seg + sl * seg + j) 1) (q seg) else sub32 (l * q seg + sl * seg + j) 1) =
  l * q seg + (sl * seg + j - 1) mod q seg.
Proof.
  intros Hl (Hr & Hsl & Hj). assert (0 <= j < seg) as Hj' by (unfold first_index in Hj; destruct (_ && _); lia).
  assert (0 <= l * q seg /\ (l + 1) * q seg <= blocks p seg) as [Hlo Hhi] by (unfold blocks, q in *; nia).
  assert (0 <= sl * seg <= 3 * seg) by nia. unfold sub32, add32.
  destruct (Z.eqb_spec j 0) as [->|], (Z.eqb_spec sl 0) as [->|]; cbn [andb].
  - rewrite Z.add_mod_idemp_l by lia. rewrite (Z.mod_small _ (2 ^ 32)) by (unfold q in *; lia).
    replace ((0 * seg + 0 - 1) mod q seg) with (q seg - 1) by (apply (Z.mod_unique_pos _ _ (-1)); unfold q; lia). lia.
  - rewrite !Z.mod_small; unfold q in *; nia.
  - rewrite !Z.mod_small; unfold q in *; nia.
  - rewrite !Z.mod_small; unfold q in *; nia.
Qed.

Lemma block_value_ok B r sl l j : matrix_ok B -> at_block seg r sl j -> 0 <= l < p -> block_ok (block_value y t p seg B r l sl j).
Proof.
  intros HB Hb Hl. unfold block_value. destruct (J y t p seg B r l sl j) as [J1 J2] eqn:EJ.
  assert (0 <= J1 < 2 ^ 32) as HJ.
  { unfold J in EJ. cbv zeta in EJ. injection EJ as <- _. apply Z.mod_pos_bound. lia. }
  pose proof (reference_done p seg Hp Hseg Hfit r l sl j J1 J2 Hb Hl HJ) as Hd. destruct (reference p seg r l sl j J1 J2) as [l' z].
  destruct Hd as (Hl' & Hz & _). destruct Hb as (Hr & Hsl & Hj).
  assert (0 <= j < seg) as Hj' by (unfold first_index in Hj; destruct (_ && _); lia).
  assert (0 <= (sl * seg + j - 1) mod q seg < q seg) as Hprev by (apply Z.mod_pos_bound; unfold q; lia).
  assert (0 <= sl * seg + j < q seg) as Hc by (unfold q; nia).
  pose proof (proj2 (matrix_block B _ HB (place_lt l _ Hl Hprev))) as H1. pose proof (proj2 (matrix_block B _ HB (place_lt l' _ Hl' Hz))) as H2.
  pose proof (proj2 (matrix_block B _ HB (place_lt l _ Hl Hc))) as H3. unfold block_ok in *.
  pose proof (length_compression _ _ H1 H2) as H4. destruct (r =? 0); [done|]. rewrite length_zip_with. lia.
Qed.

Lemma segment_turn_run B r sl l wk :
  matrix_ok B -> worker_ok r sl l wk -> 0 <= r -> 0 <= sl < 4 -> 0 <= l < p -> wk_index wk < seg ->
  (r = 0 -> B !!! place seg l (sl * seg + wk_index wk) = zeroBlock) ->
  exists wk', segment_turn y r sl l (q seg) seg p B wk = Some (fill_block y t p seg r sl B (l, wk_index wk), wk') /\
    worker_ok r sl l wk' /\ wk_index wk' = wk_index wk + 1.
Proof.
  intros HB Hwk Hr Hsl Hl Hlt Hfresh. destruct (addresses_ready r sl l wk Hwk Hlt) as [Hs Haddr].
  destruct Hwk as (Hj & Ho & _ & _). destruct wk as [j off s]. cbn [wk_index wk_offset wk_s] in *.
  assert (at_block seg r sl j) as Hb by (split; [done|]; split; [done|]; lia).
  assert (0 <= j < seg) as Hj' by (unfold first_index in Hj; destruct (_ && _); lia).
  assert (0 <= (sl * seg + j - 1) mod q seg < q seg) as Hprev by (apply Z.mod_pos_bound; unfold q; lia).
  assert (0 <= sl * seg + j < q seg) as Hc by (unfold q; nia).
  unfold segment_turn. destruct (Z.ltb_spec j seg); [|lia]. cbn [negb]. cbv zeta. rewrite Ho, (prev_place r sl l j Hl Hb).
  change (Z.to_nat (l * q seg + (sl * seg + j - 1) mod q seg)) with (place seg l ((sl * seg + j - 1) mod q seg)).
  rewrite independent_spec. change blockLength with 128.
  set (s' := if data_independent y r sl && (j mod 128 =? 0) then next_addresses s else s) in *.
  destruct (matrix_block B _ HB (place_lt l _ Hl Hprev)) as [-> Hpb]. cbn [mbind option_bind].
  set (prevb := B !!! place seg l ((sl * seg + j - 1) mod q seg)) in *.
  set (x := if data_independent y r sl then _ else _).
  assert (J y t p seg B r l sl j = (x mod 2 ^ 32, x / 2 ^ 32 mod 2 ^ 32)) as EJ.
  { unfold J, x. destruct (data_independent y r sl); [|done]. destruct (Haddr eq_refl) as [_ ->]. done. }
  rewrite (indexAlpha_run p seg Hp Hseg Hfit r l sl j x Hb Hl).
  pose proof (reference_done p seg Hp Hseg Hfit r l sl j (x mod 2 ^ 32) (x / 2 ^ 32 mod 2 ^ 32) Hb Hl ltac:(apply Z.mod_pos_bound; lia)) as Hd.
  unfold fill_block, block_value. rewrite EJ. destruct (reference p seg r l sl j _ _) as [l' z]. destruct Hd as (Hl' & Hz & _).
  change (Z.to_nat (l' * q seg + z)) with (place seg l' z).
  destruct (matrix_block B _ HB (place_lt l' _ Hl' Hz)) as [-> Href]. cbn [mbind option_bind].
  replace (Z.to_nat (l * q seg + sl * seg + j)) with (place seg l (sl * seg + j)) by (unfold place; f_equal; lia).
  destruct (matrix_block B _ HB (place_lt l _ Hl Hc)) as [-> Hout]. cbn [mbind option_bind].
  unfold processBlockXOR. destruct (processBlockSSE_run (B !!! place seg l (sl * seg + j)) prevb (B !!! place seg l' z) true Hout Hpb Href) as (tmp & Htmp & ->).
  assert ((l + 1) * q seg <= blocks p seg /\ q seg < 2 ^ 32) as [Hend Hq32] by (unfold blocks, q in *; nia).
  eexists. split; [|split].
  - cbv zeta. apply (f_equal2 (fun B' wk' => Some (B', wk'))); [|reflexivity]. apply (f_equal (fun b => <[_ := b]> B)).
    destruct (Z.eqb_spec r 0) as [->|]; [|apply zip_lxor_comm]. rewrite Hfresh by done. rewrite zip_lxor_comm.
    apply zip_lxor_zero. by apply length_compression.
  - assert (add32 j 1 = j + 1) as -> by (unfold add32; rewrite Z.mod_small; unfold q in *; lia).
    unfold worker_ok. cbn [wk_index wk_offset wk_s ls_in ls_addresses]. split; [lia|]. split.
    { unfold add32. rewrite Z.mod_small; [lia|]. split; [nia|]. unfold q in *. nia. }
    split; [split_and!; [apply Hs..|done]|].
    intros Hdi. rewrite made_next by lia. destruct (Haddr Hdi) as [Ei Ea]. auto.
  - unfold add32. cbn [wk_index]. rewrite Z.mod_small; unfold q in *; lia.
Qed.

(** ** Turns of different lanes *)

Section slice.
Variables r sl : Z.
Hypothesis Hr : 0 <= r.
Hypothesis Hsl : 0 <= sl < 4.

Definition turn_ok (lj : Z * Z) : Prop := 0 <= lj.1 < p /\ at_block seg r sl lj.2.

Lemma turn_column lj : turn_ok lj -> 0 <= sl * seg + lj.2 < q seg /\ sl * seg <= sl * seg + lj.2 < (sl + 1) * seg.
Proof.
  intros (Hl & _ & _ & Hj). assert (0 <= lj.2 < seg) by (unfold first_index in Hj; destruct (_ && _); lia). unfold q. split; nia.
Qed.

(** A block reads nothing that another lane's block of the slice writes. *)
Lemma block_value_other B l j lj v :
  turn_ok (l, j) -> turn_ok lj -> lj.1 <> l ->
  block_value y t p seg (<[place seg lj.1 (sl * seg + lj.2) := v]> B) r l sl j = block_value y t p seg B r l sl j.
Proof.
  intros H1 H2 Hne. pose proof (turn_column _ H1) as C1. pose proof (turn_column _ H2) as C2. cbn [fst snd] in *.
  destruct H1 as [Hl Hb]. cbn [fst snd] in *. destruct H2 as [Hl2 Hb2].
  set (B' := <[_ := v]> B).
  assert (forall i c, 0 <= i -> 0 <= c < q seg -> (i <> lj.1 \/ c <> sl * seg + lj.2) -> B' !!! place seg i c = B !!! place seg i c) as Hread.
  { intros i c Hi Hc Hd. unfold B'. apply list_lookup_total_insert_ne. intros E. apply place_inj in E; lia. }
  assert (0 <= (sl * seg + j - 1) mod q seg < q seg) as Hprev by (apply Z.mod_pos_bound; unfold q; lia).
  assert (J y t p seg B' r l sl j = J y t p seg B r l sl j) as EJ.
  { unfold J. destruct (data_independent y r sl); [done|]. rewrite Hread by (done || lia). done. }
  unfold block_value. rewrite EJ. destruct (J y t p seg B r l sl j) as [J1 J2] eqn:EJ'.
  assert (0 <= J1 < 2 ^ 32) as HJ.
  { unfold J in EJ'. cbv zeta in EJ'. injection EJ' as <- _. apply Z.mod_pos_bound. lia. }
  pose proof (reference_done p seg Hp Hseg Hfit r l sl j J1 J2 Hb Hl HJ) as Hd. destruct (reference p seg r l sl j J1 J2) as [l' z].
  destruct Hd as (Hl' & Hz & Hcur & _).
  rewrite (Hread l) by (done || lia). rewrite (Hread l' z) by (done || lia || (destruct (decide (z = sl * seg + lj.2)) as [->|]; [left; destruct (Hcur ltac:(lia)) as [-> _]; lia|by right])).
  rewrite (Hread l (sl * seg + j)) by (done || lia). done.
Qed.

Lemma fill_block_comm B e1 e2 : turn_ok e1 -> turn_ok e2 -> e1.1 <> e2.1 ->
  fill_block y t p seg r sl (fill_block y t p seg r sl B e1) e2 = fill_block y t p seg r sl (fill_block y t p seg r sl B e2) e1.
Proof.
  intros H1 H2 Hne. destruct e1 as [l1 j1], e2 as [l2 j2]. cbn [fst snd] in *. unfold fill_block.
  rewrite (block_value_other B l2 j2 (l1, j1)) by done. rewrite (block_value_other B l1 j1 (l2, j2)) by (done || (cbn; congruence)).
  apply list_insert_insert_ne. intros E. pose proof (turn_column _ H1). pose proof (turn_column _ H2). cbn [fst snd] in *.
  destruct H1, H2. cbn [fst snd] in *. apply place_inj in E; lia.
Qed.

(** A turn moves in front of the turns of other lanes. *)
Lemma fill_first A e B : Forall turn_ok A -> turn_ok e -> Forall (fun e' => e'.1 <> e.1) A ->
  foldl (fill_block y t p seg r sl) B (A ++ [e]) = foldl (fill_block y t p seg r sl) (fill_block y t p seg r sl B e) A.
Proof.
  intros HA He Hne. revert B. induction A as [|a A IH]; intros B; [done|]. cbn [app foldl].
  apply Forall_cons in HA as [Ha HA]. apply Forall_cons in Hne as [Hna Hne]. rewrite IH by done. by rewrite fill_block_comm.
Qed.

(** What the workers, from lane [l] on, have left to do, in the RFC's order. *)
Definition left_of (l : Z) (wk : worker) : list (Z * Z) := (fun j => (l, j)) <$> seqZ (wk_index wk) (seg - wk_index wk).
Fixpoint left_over (l : Z) (workers : list worker) : list (Z * Z) :=
  match workers with
  | [] => []
  | wk :: workers => left_of l wk ++ left_over (l + 1) workers
  end.

Lemma left_over_app l a b : left_over l (a ++ b) = left_over l a ++ left_over (l + Z.of_nat (length a)) b.
Proof.
  revert l. induction a as [|wk a IH]; intros l; [cbn; f_equal; lia|]. cbn [app left_over length]. rewrite IH, <- app_assoc.
  by replace (l + 1 + Z.of_nat (length a)) with (l + Z.of_nat (S (length a))) by lia.
Qed.

Lemma left_over_in l workers e : e ∈ left_over l workers ->
  exists i wk, workers !! i = Some wk /\ e.1 = l + Z.of_nat i /\ wk_index wk <= e.2 < seg.
Proof.
  revert l. induction workers as [|wk workers IH]; intros l He; cbn [left_over] in He; [by apply elem_of_nil in He|].
  apply elem_of_app in He as [He|He].
  - unfold left_of in He. apply list_elem_of_fmap in He as (j & -> & Hj). apply elem_of_seqZ in Hj. exists 0%nat, wk. cbn. split; [done|]. lia.
  - destruct (IH _ He) as (i & wk' & E & E1 & E2). exists (S i), wk'. cbn. split; [done|]. lia.
Qed.

Definition workers_ok (workers : list worker) : Prop :=
  length workers = Z.to_nat p /\ forall i wk, workers !! i = Some wk -> worker_ok r sl (Z.of_nat i) wk.

(** In the first pass the blocks not computed yet are zero. *)
Definition unwritten (B : list (list Z)) (from : Z -> Z) : Prop :=
  r = 0 -> forall l c, 0 <= l < p -> sl * seg + from l <= c < q seg -> B !!! place seg l c = zeroBlock.
Definition index_of (workers : list worker) (l : Z) : Z := default 0 (wk_index <$> workers !! Z.to_nat l).

Definition wave_ok (st : list (list Z) * list worker) : Prop :=
  matrix_ok st.1 /\ workers_ok st.2 /\ unwritten st.1 (index_of st.2).

Lemma wave_turn_run B workers lane :
  wave_ok (B, workers) ->
  exists st', wave_turn y r sl (q seg) seg p (B, workers) lane = Some st' /\ wave_ok st' /\
    foldl (fill_block y t p seg r sl) st'.1 (left_over 0 st'.2) = foldl (fill_block y t p seg r sl) B (left_over 0 workers) /\
    (forall i, wk_index <$> st'.2 !! i = (fun wk => Z.min seg (wk_index wk + if decide (i = lane) then 1 else 0)) <$> workers !! i).
Proof.
  intros (HB & Hw & Hun). cbn [fst snd] in *. unfold wave_turn.
  assert (forall i wk, workers !! i = Some wk -> Z.min seg (wk_index wk) = wk_index wk) as Hmin.
  { intros i wk E. destruct (proj2 Hw i wk E) as (Hj & _). lia. }
  destruct (workers !! lane) as [wk|] eqn:El.
  2:{ exists (B, workers). split; [done|]. split; [done|]. split; [done|]. intros i. cbn [snd].
      destruct (workers !! i) as [wk|] eqn:Ei; [|done]. cbn. rewrite decide_False by congruence. rewrite Z.add_0_r. f_equal. symmetry. by eapply Hmin. }
  destruct Hw as [Hlen Hw]. pose proof (Hw lane wk El) as Hwk. pose proof (lookup_lt_Some _ _ _ El) as Hlane.
  assert (0 <= Z.of_nat lane < p) as Hl by lia. destruct Hwk as (Hj & Hrest).
  destruct (decide (wk_index wk < seg)) as [Hlt|Hge].
  - destruct (segment_turn_run B r sl (Z.of_nat lane) wk HB (conj Hj Hrest) Hr Hsl Hl Hlt) as (wk' & -> & Hwk' & Hidx).
    { intros Hr0. apply (Hun Hr0 (Z.of_nat lane)); [done|]. unfold index_of. rewrite Nat2Z.id, El. cbn. unfold q. nia. }
    cbn [mbind option_bind]. set (e := (Z.of_nat lane, wk_index wk)).
    assert (turn_ok e) as He by (split; [done|]; split; [done|]; split; [done|]; cbn; lia).
    exists (fill_block y t p seg r sl B e, <[lane := wk']> workers). split; [done|]. cbn [fst snd]. split; [split; [|split]|split].
    + cbn [fst]. unfold fill_block, e. apply matrix_insert; [done|]. by apply block_value_ok; [|apply He|].
    + cbn [snd]. split; [by rewrite length_insert|]. intros i wk0 E. apply list_lookup_insert_Some in E as [(<- & <- & _)|(_ & E)]; [done|by apply Hw].
    + intros Hr0 l c Hl0 Hc. cbn [fst snd] in *. unfold fill_block, e.
      assert (0 <= sl * seg + wk_index wk < q seg) as Hcw by (apply (turn_column e He)).
      assert (sl * seg + index_of workers l <= c) as Hc0.
      { revert Hc. unfold index_of. destruct (decide (Z.to_nat l = lane)) as [->|Hn].
        - rewrite list_lookup_insert_eq by done. rewrite El. cbn. lia.
        - rewrite list_lookup_insert_ne by done. lia. }
      assert (0 <= index_of workers l) as Hpos.
      { unfold index_of. destruct (workers !! Z.to_nat l) as [wk0|] eqn:E0; [|cbn; lia]. destruct (Hw _ _ E0) as (Hj0 & _). cbn.
        unfold first_index in Hj0. destruct (_ && _); lia. }
      rewrite list_lookup_total_insert_ne; [apply (Hun Hr0 l c Hl0); lia|].
      intros Ep. apply place_inj in Ep as [El' Ec]; [|lia|lia|done|nia]. subst l. revert Hc. unfold index_of.
      rewrite Nat2Z.id, list_lookup_insert_eq by done. cbn. lia.
    + rewrite insert_take_drop by done. rewrite <- (take_drop_middle workers lane wk El) at 3. rewrite !left_over_app. cbn [left_over].
      assert (length (take lane workers) = lane) as -> by (rewrite length_take; lia). rewrite !Z.add_0_l.
      assert (left_of (Z.of_nat lane) wk = e :: left_of (Z.of_nat lane) wk') as ->.
      { unfold left_of. rewrite seqZ_cons by lia. rewrite Hidx. cbn. do 2 f_equal. f_equal; lia. }
      set (A := left_over 0 (take lane workers)). rewrite !(foldl_app _ A). cbn [app foldl].
      rewrite <- (fill_first A e B); [by rewrite (foldl_app _ A [e])| |exact He|].
      * apply Forall_forall. intros e' He'. destruct (left_over_in _ _ _ He') as (i & wk0 & E0 & E1 & E2).
        apply lookup_take_Some in E0 as [E0 Hi]. destruct (Hw _ _ E0) as (Hj0 & _). split; [lia|]. split; [done|]. split; [done|]. lia.
      * apply Forall_forall. intros e' He'. destruct (left_over_in _ _ _ He') as (i & wk0 & E0 & E1 & E2).
        apply lookup_take_Some in E0 as [E0 Hi]. unfold e. cbn [fst]. lia.
    + intros i. destruct (decide (i = lane)) as [->|Hn].
      * rewrite list_lookup_insert_eq by done. rewrite El. cbn. rewrite Hidx. f_equal. lia.
      * rewrite list_lookup_insert_ne by done. destruct (workers !! i) as [wk0|] eqn:E0; [|done]. cbn. rewrite Z.add_0_r. f_equal.
        symmetry. by eapply Hmin.
  - assert (segment_turn y r sl (Z.of_nat lane) (q seg) seg p B wk = Some (B, wk)) as ->.
    { unfold segment_turn. destruct wk as [j off s]. cbn in *. destruct (Z.ltb_spec j seg); [lia|done]. }
    cbn [mbind option_bind]. rewrite list_insert_id by done. exists (B, workers). split; [done|]. split; [done|]. split; [done|].
    intros i. cbn [snd]. destruct (workers !! i) as [wk0|] eqn:E0; [|done]. cbn. f_equal. pose proof (Hmin i wk0 E0).
    destruct (decide (i = lane)) as [->|]; [|lia]. rewrite El in E0. injection E0 as <-. lia.
Qed.

(** Any schedule; a lane advances by the turns it gets. *)
Lemma wave_turns_run schedule B workers :
  wave_ok (B, workers) ->
  exists st', wave_turns y r sl (q seg) seg p (B, workers) schedule = Some st' /\ wave_ok st' /\
    foldl (fill_block y t p seg r sl) st'.1 (left_over 0 st'.2) = foldl (fill_block y t p seg r sl) B (left_over 0 workers) /\
    (forall i, wk_index <$> st'.2 !! i =
       (fun wk => Z.min seg (wk_index wk + Z.of_nat (count_occ Nat.eq_dec schedule i))) <$> workers !! i).
Proof.
  revert B workers. induction schedule as [|lane schedule IH]; intros B workers Hok.
  - exists (B, workers). split; [done|]. split; [done|]. split; [done|]. intros i. cbn. destruct (workers !! i) as [wk|] eqn:E; [|done].
    cbn. f_equal. destruct Hok as (_ & [_ Hw] & _). destruct (Hw i wk E) as (Hj & _). lia.
  - cbn [wave_turns]. destruct (wave_turn_run B workers lane Hok) as ([B1 w1] & -> & Hok1 & Hf1 & Hi1). cbn [mbind option_bind fst snd] in *.
    destruct (IH B1 w1 Hok1) as (st' & -> & Hok' & Hf' & Hi'). exists st'. split; [done|]. split; [done|]. split; [congruence|].
    intros i. rewrite Hi'. specialize (Hi1 i). destruct (w1 !! i) as [wk1|], (workers !! i) as [wk|]; cbn in *; try done.
    injection Hi1 as ->. f_equal. destruct (Nat.eq_dec lane i) as [->|Hn].
    + rewrite decide_True by done. lia.
    + rewrite decide_False by congruence. lia.
Qed.

(** ** One slice *)

Lemma start_ok l s : 0 <= l < p -> lane_ok s ->
  worker_ok r sl l (segment_start y r sl l t (q seg) seg (blocks p seg) s) /\
  wk_index (segment_start y r sl l t (q seg) seg (blocks p seg) s) = first_index r sl.
Proof.
  intros Hl (Ha & Hi & Ht). unfold segment_start. rewrite independent_spec.
  set (inb := if data_independent y r sl then _ else _).
  assert (block_ok inb) as Hin by (unfold inb; destruct (data_independent y r sl); [|done]; unfold block_ok; by rewrite length_lset).
  assert (data_independent y r sl = true -> inb = [r; l; sl; blocks p seg; t; y; 0] ++ zeros 121) as Hdi by (intros E; unfold inb; by rewrite E).
  set (s0 := LaneScratch (ls_addresses s) inb (ls_tmp s)). assert (lane_ok s0) as Hs0 by done. clearbody inb.
  assert (forall i, 0 <= i <= 2 -> add32 (add32 (mul32 l (q seg)) (mul32 sl seg)) i = l * q seg + sl * seg + i) as Ho.
  { intros i Hi'. assert (0 <= sl * seg <= 3 * seg) by nia. assert (0 <= l * q seg /\ (l + 1) * q seg <= blocks p seg) as [] by (unfold blocks, q; nia).
    unfold add32, mul32. rewrite (Z.mod_small (l * q seg)) by (unfold q in *; lia). rewrite (Z.mod_small (sl * seg)) by (unfold q in *; lia).
    rewrite (Z.mod_small (_ + sl * seg)) by (unfold q in *; lia). apply Z.mod_small. unfold q in *; lia. }
  unfold first_index. destruct (Z.eqb_spec r 0) as [Hr0|Hr0], (Z.eqb_spec sl 0) as [Hs|Hs]; cbn [andb].
  - assert ((y =? ModeI) || (y =? ModeID) = data_independent y r sl) as ->.
    { unfold data_independent. rewrite Hr0, Hs. unfold ModeI, ModeID. destruct (y =? 1), (y =? 2); reflexivity. }
    split; [|done]. unfold worker_ok, first_index. cbn [wk_index wk_offset wk_s]. rewrite Hr0, Hs. cbn [Z.eqb andb]. split; [lia|].
    split; [rewrite <- Hs at 1; rewrite Ho by lia; lia|].
    destruct (next_addresses_run s0 Hs0) as [Hok Hn]. destruct (data_independent y 0 0) eqn:Ed; [|by split].
    split; [done|]. intros _. rewrite Hr0, Hs in Hdi. specialize (Hdi Ed). change (made 2) with (0 + 1).
    destruct (Hn 0 l 0 0 ltac:(lia) Hdi) as [E1 E2]. split; [exact E1|]. intros _. exact E2.
  - split; [|done]. unfold worker_ok, first_index. cbn [wk_index wk_offset wk_s]. rewrite (proj2 (Z.eqb_neq sl 0) Hs), andb_false_r.
    split; [lia|]. split; [apply Ho; lia|]. split; [done|]. intros E. split; [by apply Hdi|]. done.
  - split; [|done]. unfold worker_ok, first_index. cbn [wk_index wk_offset wk_s]. rewrite (proj2 (Z.eqb_neq r 0) Hr0). cbn [andb].
    split; [lia|]. split; [apply Ho; lia|]. split; [done|]. intros E. split; [by apply Hdi|]. done.
  - split; [|done]. unfold worker_ok, first_index. cbn [wk_index wk_offset wk_s]. rewrite (proj2 (Z.eqb_neq r 0) Hr0). cbn [andb].
    split; [lia|]. split; [apply Ho; lia|]. split; [done|]. intros E. split; [by apply Hdi|]. done.
Qed.

Lemma every_turn_count i : (i < Z.to_nat p)%nat -> (Z.to_nat seg <= count_occ Nat.eq_dec (every_turn seg p) i)%nat.
Proof.
  intros Hi. unfold every_turn. assert (i ∈ seq 0 (Z.to_nat p)) as Hin by (apply elem_of_seq; lia).
  revert Hin. induction (seq 0 (Z.to_nat p)) as [|x l IH]; intros Hin; [by apply elem_of_nil in Hin|].
  rewrite bind_cons, count_occ_app. apply elem_of_cons in Hin as [<-|Hin]; [|specialize (IH Hin); lia].
  enough (count_occ Nat.eq_dec (replicate (Z.to_nat seg) i) i = Z.to_nat seg) by lia.
  clear IH. induction (Z.to_nat seg) as [|n IHn]; [done|]. cbn [replicate count_occ]. destruct (Nat.eq_dec i i); [congruence|done].
Qed.

Lemma left_over_start l workers : Forall (fun wk => wk_index wk = first_index r sl) workers ->
  left_over l workers = seqZ l (Z.of_nat (length workers)) ≫= lane_order seg r sl.
Proof.
  intros Hw. revert l. induction Hw as [|wk workers Hwk Hw IH]; intros l; [done|]. cbn [left_over length].
  rewrite IH, (seqZ_cons l) by lia. rewrite bind_cons. replace (Z.pred (Z.of_nat (S (length workers)))) with (Z.of_nat (length workers)) by lia.
  replace (Z.succ l) with (l + 1) by lia. f_equal. unfold left_of, lane_order. by rewrite Hwk.
Qed.

Lemma left_over_end l workers : Forall (fun wk => wk_index wk = seg) workers -> left_over l workers = [].
Proof.
  intros Hw. revert l. induction Hw as [|wk workers Hwk Hw IH]; intros l; [done|]. cbn [left_over]. rewrite IH. unfold left_of.
  by rewrite Hwk, Z.sub_diag.
Qed.

(** A slice run by its workers in any order is the RFC's slice. *)
Lemma wave_run schedule B scratch :
  matrix_ok B -> length scratch = Z.to_nat p -> Forall lane_ok scratch -> unwritten B (fun _ => first_index r sl) ->
  exists scratch', wave y r sl t (q seg) seg (blocks p seg) p schedule B scratch = Some (fill_slice y t p seg r B sl, scratch') /\
    matrix_ok (fill_slice y t p seg r B sl) /\ length scratch' = Z.to_nat p /\ Forall lane_ok scratch' /\
    (r = 0 -> forall l c, 0 <= l < p -> (sl + 1) * seg <= c < q seg -> fill_slice y t p seg r B sl !!! place seg l c = zeroBlock).
Proof.
  intros HB Hlen Hs Hun. unfold wave. set (workers := imap _ scratch).
  assert (forall i wk, workers !! i = Some wk -> worker_ok r sl (Z.of_nat i) wk /\ wk_index wk = first_index r sl) as Hw.
  { intros i wk E. unfold workers in E. rewrite list_lookup_imap in E. apply fmap_Some in E as (s & E & ->). pose proof (lookup_lt_Some _ _ _ E).
    apply start_ok; [lia|]. by eapply Forall_lookup_1. }
  assert (length workers = Z.to_nat p) as Hlw by (unfold workers; by rewrite length_imap).
  assert (wave_ok (B, workers)) as Hok.
  { split; [done|]. split; [split; [done|]; intros i wk E; by apply Hw|]. cbn [fst snd]. intros Hr0 l c Hl Hc. apply (Hun Hr0 l c Hl).
    unfold index_of in Hc. destruct (lookup_lt_is_Some_2 workers (Z.to_nat l) ltac:(lia)) as [wk E]. rewrite E in Hc. cbn in Hc.
    rewrite (proj2 (Hw _ _ E)) in Hc. lia. }
  destruct (wave_turns_run (schedule ++ every_turn seg p) B workers Hok) as ([B' w'] & -> & Hok' & Hf & Hidx). cbn [mbind option_bind fst snd] in *.
  destruct Hok' as (HB' & [Hlw' Hw'] & Hun'). cbn [fst snd] in *.
  assert (forall i wk, w' !! i = Some wk -> wk_index wk = seg) as Hend.
  { intros i wk E. specialize (Hidx i). rewrite E in Hidx. cbn in Hidx. destruct (workers !! i) as [wk0|] eqn:E0; cbn in Hidx; [|done].
    injection Hidx as ->. destruct (Hw _ _ E0) as [(Hj & _) E1]. pose proof (lookup_lt_Some _ _ _ E0).
    pose proof (every_turn_count i ltac:(lia)). rewrite count_occ_app. unfold first_index in *. destruct (_ && _); lia. }
  rewrite left_over_end in Hf by (apply Forall_lookup; intros; by eapply Hend). cbn [foldl] in Hf.
  rewrite (left_over_start 0 workers) in Hf by (apply Forall_lookup; intros i wk E; by apply (Hw i wk E)).
  replace (Z.of_nat (length workers)) with p in Hf by lia. change (foldl _ B _) with (fill_slice y t p seg r B sl) in Hf. subst B'.
  exists (map wk_s w'). split; [done|]. split; [done|]. split; [by rewrite length_map|]. split.
  - apply Forall_lookup. intros i s E. change (map wk_s w') with (wk_s <$> w') in E. apply list_lookup_fmap_Some in E as (wk & -> & E).
    by destruct (Hw' _ _ E) as (_ & _ & Hl & _).
  - intros Hr0 l c Hl Hc. apply (Hun' Hr0 l c Hl). unfold index_of.
    destruct (lookup_lt_is_Some_2 w' (Z.to_nat l) ltac:(lia)) as [wk E]. rewrite E. cbn. rewrite (Hend _ _ E). lia.
Qed.
End slice.

(** ** Passes *)

Definition dims_ok (ws : Workspace) : Prop := ws_memory ws = blocks p seg /\ ws_threads ws = p.

Lemma lane_length ws : dims_ok ws -> ws_memory ws / ws_threads ws = q seg /\ ws_memory ws / ws_threads ws / syncPoints = seg.
Proof.
  intros [-> ->]. assert (blocks p seg / p = q seg) as -> by (unfold blocks; rewrite Z.mul_comm; apply Z.div_mul; lia).
  split; [done|]. unfold q, syncPoints. rewrite Z.mul_comm. apply Z.div_mul. lia.
Qed.

(** The matrix and the lanes' scratch between slices. *)
Definition between (ws : Workspace) : Prop :=
  dims_ok ws /\ matrix_ok (ws_b ws) /\ length (ws_lanes ws) = Z.to_nat p /\ Forall lane_ok (ws_lanes ws).

Variable schedule : Z -> Z -> list nat.

Lemma run_slices_run r n sl ws :
  0 <= r -> (sl + n = 4)%nat -> between ws -> unwritten r (Z.of_nat sl) (ws_b ws) (fun _ => first_index r (Z.of_nat sl)) ->
  exists lanes, let ws' := set_lanes lanes (set_b (foldl (fill_slice y t p seg r) (ws_b ws) (seqZ (Z.of_nat sl) (Z.of_nat n))) ws) in
    run_slices schedule (seq sl n) y r t ws = Some ws' /\ between ws'.
Proof.
  intros Hr. revert sl ws. induction n as [|n IH]; intros sl ws Hsl Hws Hun.
  - exists (ws_lanes ws). split; [by destruct ws|]. exact Hws.
  - destruct Hws as (Hd & HB & Hlen & Hs). destruct (lane_length ws Hd) as [Eq Es]. cbn [seq run_slices]. cbv zeta. rewrite Eq.
    rewrite Eq in Es. rewrite Es. destruct Hd as [Em Et]. rewrite Em, Et.
    destruct (wave_run r (Z.of_nat sl) Hr ltac:(lia) (schedule r (Z.of_nat sl)) (ws_b ws) (ws_lanes ws) HB Hlen Hs Hun) as (sc & -> & HB' & Hlen' & Hs' & Hz).
    cbn [mbind option_bind]. set (ws1 := set_lanes sc (set_b _ ws)).
    destruct (IH (S sl) ws1) as (lanes & E & Hok).
    + lia.
    + split; [split; [exact Em|exact Et]|]. done.
    + intros Hr0 l c Hl Hc. apply (Hz Hr0 l c Hl). revert Hc. unfold first_index. replace (Z.of_nat (S sl) =? 0) with false by (symmetry; apply Z.eqb_neq; lia).
      rewrite andb_false_r. lia.
    + exists lanes. rewrite seqZ_cons by lia. cbn [foldl]. replace (Z.succ (Z.of_nat sl)) with (Z.of_nat (S sl)) by lia.
      replace (Z.pred (Z.of_nat (S n))) with (Z.of_nat n) by lia. split; [exact E|exact Hok].
Qed.

Lemma run_passes_run n r ws :
  between ws -> unwritten (Z.of_nat r) 0 (ws_b ws) (fun _ => first_index (Z.of_nat r) 0) ->
  exists lanes, let ws' := set_lanes lanes (set_b (foldl (fill_pass y t p seg) (ws_b ws) (seqZ (Z.of_nat r) (Z.of_nat n))) ws) in
    run_passes schedule (seq r n) y t ws = Some ws' /\ between ws'.
Proof.
  revert r ws. induction n as [|n IH]; intros r ws Hws Hun.
  - exists (ws_lanes ws). split; [by destruct ws|]. exact Hws.
  - cbn [seq run_passes]. change (Z.to_nat syncPoints) with 4%nat.
    destruct (run_slices_run (Z.of_nat r) 4 0 ws ltac:(lia) eq_refl Hws Hun) as (sc & -> & Hok). cbn [mbind option_bind].
    set (ws1 := set_lanes sc _) in *. destruct (IH (S r) ws1 Hok) as (lanes & E & Hok').
    + intros Hr0. lia.
    + exists lanes. rewrite seqZ_cons by lia. cbn [foldl]. replace (Z.succ (Z.of_nat r)) with (Z.of_nat (S r)) by lia.
      replace (Z.pred (Z.of_nat (S n))) with (Z.of_nat n) by lia. split; [exact E|exact Hok'].
Qed.

(** ** The tag *)

Lemma foldl_ext_in {A B} (f g : A -> B -> A) l a : (forall a x, x ∈ l -> f a x = g a x) -> foldl f a l = foldl g a l.
Proof.
  revert a. induction l as [|x l IH]; intros a Hfg; [done|]. cbn [foldl]. rewrite Hfg by left. apply IH. intros. apply Hfg. by right.
Qed.

Lemma fold_lanes_run n l B :
  matrix_ok B -> Z.of_nat l + Z.of_nat n = p - 1 ->
  fold_lanes (seq l n) (q seg) (place seg (p - 1) (q seg - 1)) B =
    Some (<[place seg (p - 1) (q seg - 1) :=
      foldl (fun C l => zip_with Z.lxor C (B !!! place seg l (q seg - 1))) (B !!! place seg (p - 1) (q seg - 1)) (seqZ (Z.of_nat l) (Z.of_nat n))]> B).
Proof.
  assert (0 <= q seg - 1 < q seg) as Hq1 by (unfold q; lia). assert (0 <= p - 1 < p) as Hp1 by lia.
  revert l B. induction n as [|n IH]; intros l B HB Hn.
  - cbn. f_equal. symmetry. apply list_insert_id. by apply matrix_block; [|apply place_lt].
  - cbn [seq fold_lanes]. replace (Z.to_nat (Z.of_nat l * q seg + q seg - 1)) with (place seg (Z.of_nat l) (q seg - 1)) by (unfold place; f_equal; lia).
    destruct (matrix_block B _ HB (place_lt (Z.of_nat l) _ ltac:(lia) Hq1)) as [-> Hb1]. cbn [mbind option_bind].
    destruct (matrix_block B _ HB (place_lt (p - 1) _ Hp1 Hq1)) as [-> Hb2]. cbn [mbind option_bind].
    set (last := place seg (p - 1) (q seg - 1)) in *. set (C := zip_with _ _ _).
    assert (block_ok C) as HC by (unfold C, block_ok in *; rewrite length_zip_with; lia).
    rewrite (IH (S l)) by (lia || by apply matrix_insert). f_equal. rewrite list_insert_insert_eq.
    rewrite (seqZ_cons (Z.of_nat l)) by lia. cbn [foldl]. fold C. replace (Z.succ (Z.of_nat l)) with (Z.of_nat (S l)) by lia.
    replace (Z.pred (Z.of_nat (S n))) with (Z.of_nat n) by lia.
    rewrite list_lookup_total_insert_eq by (destruct HB as [-> _]; by apply place_lt).
    apply (f_equal (fun v => <[last := v]> B)).
    apply foldl_ext_in. intros X l' Hl'. apply elem_of_seqZ in Hl'. f_equal. apply list_lookup_total_insert_ne.
    intros E. apply place_inj in E; lia.
Qed.

(** The whole of [extractKey]. *)
Context `{Bs : Blake2bSums} {BsOk : Blake2bSumsOk}.

Lemma block_bytes_length b : block_ok b -> zlen (block_bytes b) = 1024.
Proof. intros H. unfold zlen, block_bytes. rewrite length_words_bytes, H. done. Qed.

Lemma final_block_ok B : matrix_ok B -> block_ok (final_block p seg B).
Proof.
  intros HB. unfold final_block. assert (0 <= q seg - 1 < q seg) as Hq1 by (unfold q; lia).
  assert (Forall (fun l => 0 <= l < p) (seqZ 0 (p - 1))) as Hl by (apply Forall_forall; intros l Hl; apply elem_of_seqZ in Hl; lia).
  pose proof (proj2 (matrix_block B _ HB (place_lt (p - 1) _ ltac:(lia) Hq1))) as H0. revert H0.
  generalize (B !!! place seg (p - 1) (q seg - 1)) as C. induction Hl as [|l ls Hl _ IH]; intros C HC; [done|]. cbn [foldl]. apply IH.
  pose proof (proj2 (matrix_block B _ HB (place_lt l _ Hl Hq1))) as H1. unfold block_ok in *. rewrite length_zip_with. lia.
Qed.

Lemma extractKey_run out ws :
  between ws -> scratch_ok ws -> 1 <= zlen out < 2 ^ 32 ->
  exists B block0, matrix_ok B /\ length block0 = 1024%nat /\
    extractKey out ws = Some (set_block0 block0 (set_b B ws), H' (zlen out) (final_block p seg (ws_b ws) ≫= put64)).
Proof.
  intros (Hd & HB & _) (Hi & Hs & Hb0) Ho. destruct (lane_length ws Hd) as [Eq _]. destruct Hd as [Em Et]. unfold extractKey. rewrite Eq, Em, Et.
  assert (0 <= q seg - 1 < q seg) as Hq1 by (unfold q; lia).
  replace (Z.to_nat (blocks p seg - 1)) with (place seg (p - 1) (q seg - 1)) by (unfold place, blocks; f_equal; lia).
  rewrite (fold_lanes_run (Z.to_nat (p - 1)) 0 (ws_b ws) HB) by lia. cbn [mbind option_bind].
  rewrite Z2Nat.id by lia. change (foldl _ _ (seqZ (Z.of_nat 0) (p - 1))) with (final_block p seg (ws_b ws)).
  pose proof (final_block_ok (ws_b ws) HB) as HC. set (B := <[_ := _]> (ws_b ws)).
  assert (B !! place seg (p - 1) (q seg - 1) = Some (final_block p seg (ws_b ws))) as ->.
  { apply list_lookup_insert_eq. destruct HB as [-> _]. apply place_lt; [lia|done]. }
  cbn [mbind option_bind]. exists B, (block_bytes (final_block p seg (ws_b ws))).
  pose proof (block_bytes_length _ HC) as Hlen. split; [by apply matrix_insert|]. split; [unfold zlen in Hlen; lia|].
  apply (blake2bHash_run (set_block0 _ (set_b B ws)) out (block_bytes (final_block p seg (ws_b ws)))); [exact Hi|exact Hs| |done].
  rewrite Hlen. lia.
Qed.

(** ** The derivation from a zeroed workspace *)

Definition fresh (ws : Workspace) : Prop :=
  dims_ok ws /\ ws_b ws = replicate (Z.to_nat (blocks p seg)) zeroBlock /\ ws_lanes ws = replicate (Z.to_nat p) zero_lane /\
  scratch_ok ws /\ length (ws_h0 ws) = 72%nat /\ length (ws_h0Block ws) = 128%nat.

Lemma first_blocks_ok H0 : matrix_ok (first_blocks p seg H0) /\
  (forall l c, 0 <= l < p -> 2 <= c < q seg -> first_blocks p seg H0 !!! place seg l c = zeroBlock).
Proof.
  unfold first_blocks. assert (Forall (fun l => 0 <= l < p) (seqZ 0 p)) as Hl by (apply Forall_forall; intros l Hl; apply elem_of_seqZ in Hl; lia).
  assert (matrix_ok (replicate (Z.to_nat (blocks p seg)) zeroBlock)) as HB by (split; [apply length_replicate|by apply Forall_replicate]).
  assert (forall l c, 0 <= l < p -> 2 <= c < q seg -> replicate (Z.to_nat (blocks p seg)) zeroBlock !!! place seg l c = zeroBlock) as Hz.
  { intros l c Hl' Hc. rewrite lookup_total_replicate_2; [done|]. apply place_lt; lia. }
  assert (forall l k, block_ok (first_block H0 l k)) as Hf by (intros; unfold block_ok, first_block, words64; by rewrite length_fmap, length_seq).
  revert HB Hz. generalize (replicate (Z.to_nat (blocks p seg)) zeroBlock) as B. induction Hl as [|l ls Hl _ IH]; intros B HB Hz; [done|]. cbn [foldl].
  apply IH; [by apply matrix_insert; [apply matrix_insert|]|]. intros l' c Hl' Hc.
  assert (forall i, 0 <= i <= 1 -> place seg l i <> place seg l' c) as Hne.
  { intros i Hi E. apply place_inj in E; unfold q in *; lia. }
  rewrite !list_lookup_total_insert_ne by (apply Hne; lia). by apply Hz.
Qed.

Lemma length_H_0 a T m b x P S K X : length (H_0 a T m b x P S K X) = 64%nat.
Proof. unfold H_0. match goal with |- length (BLAKE2b 64 ?d) = _ => pose proof (zlen_BLAKE2b 64 d ltac:(lia)) as L end. apply Nat2Z.inj. exact L. Qed.

Lemma derive_run out P S K X ws :
  fresh ws -> 1 <= t -> 1 <= zlen out < 2 ^ 32 -> zlen P < 2 ^ 32 -> zlen S < 2 ^ 32 -> zlen K < 2 ^ 32 -> zlen X < 2 ^ 32 ->
  exists B lanes h block0, matrix_ok B /\ length lanes = Z.to_nat p /\ Forall lane_ok lanes /\ length block0 = 1024%nat /\ length h = 72%nat /\
    Derive schedule out y P S K X t ws =
      Some (set_block0 block0 (set_b B (set_lanes lanes (set_h0 h (set_h0Chain (zeros 8) (set_h0Block (zeros blake2b_BlockSize) ws))))),
            H' (zlen out) (final_block p seg (foldl (fill_pass y t p seg) (first_blocks p seg (H_0 p (zlen out) (ws_requested ws) t y P S K X)) (seqZ 0 t)) ≫= put64)).
Proof.
  intros (Hd & Hb & Hl & (Hi & Hs & Hb0) & Hh0 & Hblk) Ht Ho HP HS HK HX. unfold Derive.
  destruct (Z.ltb_spec t 1); [lia|]. destruct (Z.ltb_spec (zlen out) 1); [lia|]. destruct (Z.ltb_spec ModeID y); [unfold ModeID in *; lia|].
  unfold uint32. rewrite Z.mod_small by lia. rewrite initHash_run by done. cbn [mbind option_bind].
  destruct Hd as [Em Et]. rewrite Et. set (d0 := H_0 p _ _ _ _ _ _ _ _). set (ws1 := set_h0Chain _ _).
  destruct (initBlocks_run d0 (drop 64 (ws_h0 ws)) p seg ws1) as (blk & h & Hblk' & Hh & ->);
    [by split|done|apply length_H_0|by rewrite length_drop, Hh0|exact Et|done|lia|exact Em|exact Hb|].
  cbn [mbind option_bind]. set (ws2 := set_b _ _). unfold processBlocks.
  destruct (first_blocks_ok d0) as [HB Hz].
  destruct (run_passes_run (Z.to_nat t) 0 ws2) as (lanes & -> & Hbt).
  { split; [by split|]. split; [done|]. cbn. rewrite Hl. split; [apply length_replicate|by apply Forall_replicate]. }
  { intros _ l c Hl' Hc. apply (Hz l c Hl'). change (first_index (Z.of_nat 0) 0) with 2 in Hc. lia. }
  cbn [mbind option_bind]. set (ws3 := set_lanes _ _) in *.
  destruct (extractKey_run out ws3 Hbt) as (B & block0 & HB' & Hb0' & ->).
  { split; [exact Hi|]. split; [exact Hs|exact Hblk']. }
  { exact Ho. }
  exists B, lanes, h, block0. split; [done|]. split; [apply (proj1 (proj2 (proj2 Hbt)))|]. split; [apply (proj2 (proj2 (proj2 Hbt)))|]. split; [done|]. split; [done|].
  unfold ws3. rewrite Z2Nat.id by lia. reflexivity.
Qed.
End run.

(** ** The workspace the callers make *)

Definition fresh_ws (memory threads : Z) : Workspace :=
  MkWorkspace memory (adjustMemory memory threads) threads (replicate (Z.to_nat (adjustMemory memory threads)) zeroBlock)
    (replicate (Z.to_nat threads) zero_lane) (zeros 8) (zeros h0Length) (zeros 1024) (zeros (4 + 1024)) (zeros blake2b_Size) (zeros blake2b_BlockSize).

(** Blocks of a segment. *)
Definition segment_size (memory threads : Z) : Z := Z.max 2 (memory / (4 * threads)).

Lemma adjustMemory_blocks m p : 0 < p -> 0 <= m -> adjustMemory m p = blocks p (segment_size m p) /\ adjustMemory m p <= Z.max m (8 * p).
Proof.
  intros Hp Hm. unfold adjustMemory, blocks, q, segment_size, syncPoints. assert (0 <= m / (4 * p)) by (apply Z.div_pos; lia).
  pose proof (Z.mul_div_le m (4 * p) ltac:(lia)). destruct (Z.ltb_spec (m / (4 * p) * (4 * p)) (2 * 4 * p)).
  - assert (m / (4 * p) < 2) by nia. rewrite Z.max_l by lia. lia.
  - assert (2 <= m / (4 * p)) by nia. rewrite Z.max_r by lia. lia.
Qed.

(** The costs a caller may ask for. *)
Definition costs_ok (m p : Z) : Prop := 1 <= p <= 255 /\ 0 <= m < 2 ^ 32.

Lemma costs_fit m p : costs_ok m p -> 0 < p /\ 2 <= segment_size m p /\ blocks p (segment_size m p) < 2 ^ 32.
Proof.
  intros [Hp Hm]. split; [lia|]. split; [unfold segment_size; lia|]. destruct (adjustMemory_blocks m p ltac:(lia) ltac:(lia)) as [<- H]. lia.
Qed.

Lemma fresh_ws_fresh m p : costs_ok m p -> fresh p (segment_size m p) (fresh_ws m p).
Proof.
  intros [Hp Hm]. destruct (adjustMemory_blocks m p ltac:(lia) ltac:(lia)) as [E _]. unfold fresh, dims_ok, fresh_ws. cbn [ws_memory ws_threads ws_b ws_lanes ws_h0 ws_h0Block].
  rewrite E. split_and!; done.
Qed.

(** Whatever was written over a workspace of this shape, [Wipe] restores it. *)
Definition shaped (m p : Z) (ws : Workspace) : Prop :=
  ws_requested ws = m /\ ws_memory ws = adjustMemory m p /\ ws_threads ws = p /\
  length (ws_b ws) = Z.to_nat (adjustMemory m p) /\ length (ws_lanes ws) = Z.to_nat p.

Lemma Wipe_fresh m p ws : shaped m p ws -> Wipe ws = fresh_ws m p.
Proof. intros (E1 & E2 & E3 & E4 & E5). unfold Wipe, fresh_ws. by rewrite E1, E2, E3, E4, E5. Qed.

(** The bytes of a workspace whose parts have their lengths. *)
Lemma zlen_bind_const {A} (f : A -> list Z) n l : Forall (fun x => zlen (f x) = n) l -> zlen (l ≫= f) = n * zlen l.
Proof.
  induction 1 as [|x l Hx _ IH]; [change (0 = n * 0); lia|]. rewrite bind_cons, zlen_app, IH, Hx. unfold zlen. cbn [length]. lia.
Qed.

Lemma zlen_ws_bytes m p ws :
  shaped m p ws /\ 0 <= p /\ 0 <= adjustMemory m p -> Forall block_ok (ws_b ws) -> Forall lane_ok (ws_lanes ws) -> ws_h0Chain ws = zeros 8 -> length (ws_h0 ws) = 72%nat ->
  length (ws_block0 ws) = 1024%nat -> ws_hashIn ws = zeros (4 + 1024) -> ws_hashState ws = zeros blake2b_Size -> ws_h0Block ws = zeros blake2b_BlockSize ->
  zlen (ws_bytes ws) = WorkspaceSize m p.
Proof.
  intros ((_ & _ & _ & Hb & Hl) & Hp & Ha) HB HL Hc Hh H0 Hi Hs Hk. unfold ws_bytes. rewrite !zlen_app.
  assert (forall b, block_ok b -> zlen (block_bytes b) = 1024) as Hbb by (intros b H; unfold zlen, block_bytes; by rewrite length_words_bytes, H).
  rewrite (zlen_bind_const block_bytes 1024) by (eapply Forall_impl; [exact HB|exact Hbb]).
  rewrite (zlen_bind_const lane_bytes laneScratchSize).
  2:{ eapply Forall_impl; [exact HL|]. intros s (H1 & H2 & H3). unfold lane_bytes. rewrite !zlen_app, !Hbb by done. reflexivity. }
  rewrite Hc, Hi, Hs, Hk. unfold zlen. rewrite length_words_bytes, Hb, Hl, Hh, H0. unfold zeros. rewrite !length_replicate.
  unfold WorkspaceSize, fixedScratch, laneScratchSize, h0ChainSize, h0Length, blake2b_Size, blake2b_BlockSize. lia.
Qed.

Section derive.
Context `{Bl : Blamka} {BlOk : BlamkaOk} `{Bs : Blake2bSums} {BsOk : Blake2bSumsOk}.

(** C35. [Derive] from a zeroed workspace is the function of RFC 9106 whatever the
    order in which the workers of each slice run, on every variant and every
    cost the exported functions admit: no index leaves the matrix and no call
    panics. When it returns, the hash state that held the password is zero,
    and a wipe leaves the workspace as it was made. *)
Theorem derive_exact schedule out mode P S K X t m p :
  costs_ok m p -> 0 <= mode <= 2 -> 1 <= t -> 1 <= zlen out < 2 ^ 32 ->
  zlen P < 2 ^ 32 -> zlen S < 2 ^ 32 -> zlen K < 2 ^ 32 -> zlen X < 2 ^ 32 ->
  exists ws', Derive schedule out mode P S K X t (fresh_ws m p) = Some (ws', Argon2 mode P S K X t m p (zlen out)) /\
    shaped m p ws' /\ zlen (ws_bytes ws') = WorkspaceSize m p /\ Wipe ws' = fresh_ws m p /\
    ws_h0Chain ws' = zeros 8 /\ ws_h0Block ws' = zeros blake2b_BlockSize /\ ws_hashIn ws' = zeros (4 + 1024) /\ ws_hashState ws' = zeros blake2b_Size.
Proof.
  intros Hc Hy Ht Ho HP HS HK HX. destruct (costs_fit m p Hc) as (Hp & Hseg & Hfit).
  destruct (derive_run mode t p (segment_size m p) Hp Hseg Hfit Hy schedule out P S K X (fresh_ws m p) (fresh_ws_fresh m p Hc) Ht Ho HP HS HK HX)
    as (B & lanes & h & block0 & [HB HBb] & Hl & Hlo & Hb0 & Hh & E).
  destruct (adjustMemory_blocks m p) as [Em _]; [lia|apply Hc|]. rewrite <- Em in HB.
  match type of E with _ = Some (?w, _) => assert (shaped m p w) as Hw by (split_and!; done); pose proof (Wipe_fresh m p w Hw) as Hwipe end.
  eexists. split; [exact E|]. split; [exact Hw|]. split; [|split; [exact Hwipe|done]].
  apply zlen_ws_bytes; try done. split; [exact Hw|]. rewrite Em. unfold blocks, q. nia.
Qed.
End derive.

(** x/crypto's functions and the portable compression meet the hypotheses. *)
#[local] Instance portable_blamka : Blamka := {|
  useSSE4 := false;
  mixBlocksSSE2 a b c := zip_with Z.lxor (zip_with Z.lxor a b) c;
  xorBlocksSSE2 out a b c := zip_with Z.lxor out (zip_with Z.lxor (zip_with Z.lxor a b) c);
  blamkaSSE4 := blamka_rounds
|}.
#[local] Instance portable_blamka_ok : BlamkaOk.
Proof. split; done. Qed.
#[local] Instance blake2b_sums : Blake2bSums := {| Sum512 := BLAKE2b 64; Sum384 := BLAKE2b 48; Sum256 := BLAKE2b 32 |}.
#[local] Instance blake2b_sums_ok : Blake2bSumsOk.
Proof. split; done. Qed.

Lemma derive_exact_witness :
  exists ws', Derive (fun _ _ => [1; 0; 1]%nat) (zeros 32) ModeID [112; 119] [115] [] [] 3 (fresh_ws 64 2) = Some (ws', Argon2 ModeID [112; 119] [115] [] [] 3 64 2 (zlen (zeros 32))) /\
    shaped 64 2 ws' /\ zlen (ws_bytes ws') = WorkspaceSize 64 2 /\ Wipe ws' = fresh_ws 64 2 /\
    ws_h0Chain ws' = zeros 8 /\ ws_h0Block ws' = zeros blake2b_BlockSize /\ ws_hashIn ws' = zeros (4 + 1024) /\ ws_hashState ws' = zeros blake2b_Size.
Proof.
  apply (derive_exact (fun _ _ => [1; 0; 1]%nat) (zeros 32) ModeID [112; 119] [115] [] [] 3 64 2);
    [unfold costs_ok; lia|unfold ModeID; lia|lia|split; vm_compute; congruence|vm_compute; reflexivity..].
Defined.
