(* ===== verification/Argon2Layout.v ===== *)
(** * The workspace over one region (argon2.go's Bind, NewWorkspace, Wipe)

    The views of a workspace tile the front of the region: read back as bytes
    they are that part of it, in order, without a gap or an overlap. *)
From S2P Require Import Prelude Bytes Blake2b Argon2 Argon2Rfc Argon2Run.

(** ** Pieces of a region *)

Lemma lsub_split (a b c : Z) (l : list Z) : 0 <= a <= b -> b <= c -> lsub a b l ++ lsub b c l = lsub a c l.
Proof.
  intros Hab Hbc. unfold lsub. replace (Z.to_nat b) with (Z.to_nat a + Z.to_nat (b - a))%nat by lia.
  rewrite <- drop_drop. set (d := drop (Z.to_nat a) l).
  replace (Z.to_nat (c - a)) with (Z.to_nat (b - a) + Z.to_nat (c - b))%nat by lia. by rewrite take_take_drop.
Qed.

Lemma lsub_lsub (a b c d : Z) (l : list Z) : 0 <= a -> 0 <= c <= d -> a + d <= b -> lsub c d (lsub a b l) = lsub (a + c) (a + d) l.
Proof.
  intros Ha Hc Hd. unfold lsub. rewrite skipn_firstn_comm, drop_drop, take_take. f_equal; [|f_equal]; lia.
Qed.

Lemma bytes_lsub a b l : bytes l -> bytes (lsub a b l).
Proof. intros Hl. by apply Forall_take, Forall_drop. Qed.

Lemma put64_le64 b off : bytes b -> (off + 8 <= length b)%nat -> put64 (le64 b off) = take 8 (drop off b).
Proof.
  intros Hb Hl. unfold put64, le64. set (x := take 8 (drop off b)).
  assert (length x = 8%nat) as Hx by (unfold x; rewrite length_take, length_drop; lia).
  assert (bytes (reverse x)) as Hr by (apply Forall_reverse, Forall_take, Forall_drop, Hb).
  rewrite <- (reverse_involutive x) at 2. f_equal. rewrite <- (be_bytes_be (reverse x) Hr) at 2. by rewrite length_reverse, Hx.
Qed.

Lemma words_bytes n b : bytes b -> (8 * n <= length b)%nat -> words64 n b ≫= put64 = take (8 * n) b.
Proof.
  intros Hb. unfold words64. induction n as [|n IH]; intros Hn; [done|]. rewrite seq_S, fmap_app, bind_app, IH by lia.
  cbn [fmap list_fmap mbind list_bind Nat.add]. rewrite app_nil_r, put64_le64 by (done || lia).
  replace (8 * S n)%nat with (8 * n + 8)%nat by lia. apply take_take_drop.
Qed.

Lemma block_round b : bytes b -> length b = 1024%nat -> block_bytes (block_of b) = b.
Proof. intros Hb Hl. unfold block_bytes, block_of. rewrite words_bytes by (done || lia). apply take_ge. lia. Qed.

Lemma lane_round b : bytes b -> zlen b = laneScratchSize -> lane_bytes (lane_of b) = b.
Proof.
  intros Hb Hl. unfold lane_bytes, lane_of. cbn [ls_addresses ls_in ls_tmp]. unfold laneScratchSize in Hl.
  rewrite !block_round by ((by apply bytes_lsub) || (rewrite length_lsub by lia; lia)).
  rewrite !lsub_split by lia. replace 3072 with (zlen b) by lia. apply lsub_full.
Qed.

Lemma views_round {A} n size (f : list Z -> A) (g : A -> list Z) mem off :
  0 <= off -> 0 <= size -> 0 <= n -> off + n * size <= zlen mem -> bytes mem ->
  (forall b, bytes b -> zlen b = size -> g (f b) = b) -> views n size f mem off ≫= g = lsub off (off + n * size) mem.
Proof.
  intros Hoff Hsize Hn Hend Hb Hfg. unfold views. rewrite <- (Z2Nat.id n) in Hend |- * by lia. rewrite Nat2Z.id.
  induction (Z.to_nat n) as [|k IH]; [cbn; unfold lsub; by rewrite Z.mul_0_l, Z.add_0_r, Z.sub_diag|].
  rewrite seq_S, fmap_app, bind_app, IH by nia. cbn [fmap list_fmap mbind list_bind Nat.add]. rewrite app_nil_r, Hfg.
  - rewrite lsub_split by nia. f_equal. nia.
  - by apply bytes_lsub.
  - rewrite zlen_lsub by nia. lia.
Qed.

Lemma zlen_views {A} n size (f : list Z -> A) mem off : 0 <= n -> length (views n size f mem off) = Z.to_nat n.
Proof. intros. unfold views. by rewrite length_fmap, length_seq. Qed.

(** A zero region. *)
Lemma words64_zeros n k : (8 * n <= Z.to_nat k)%nat -> words64 n (zeros k) = replicate n 0.
Proof.
  intros Hk. unfold words64. apply list_eq. intros i. rewrite list_lookup_fmap. destruct (decide (i < n)%nat).
  - rewrite lookup_seq_lt, lookup_replicate_2 by done. cbn [fmap option_fmap option_map]. f_equal. unfold le64, zeros.
    rewrite drop_replicate, take_replicate. replace (8 `min` _)%nat with 8%nat by lia. reflexivity.
  - rewrite lookup_seq_ge by lia. symmetry. apply lookup_ge_None. rewrite length_replicate. lia.
Qed.

Lemma views_const {A} n size (f : list Z -> A) k off x :
  0 <= off -> 0 <= size -> 0 <= n -> off + n * size <= k -> f (zeros size) = x -> views n size f (zeros k) off = replicate (Z.to_nat n) x.
Proof.
  intros Hoff Hsize Hn Hend Hf. unfold views. apply list_eq. intros i. rewrite list_lookup_fmap. destruct (decide (i < Z.to_nat n)%nat).
  - rewrite lookup_seq_lt, lookup_replicate_2 by done. cbn [fmap option_fmap option_map]. rewrite lsub_zeros by nia. f_equal.
    rewrite <- Hf. f_equal. f_equal. lia.
  - rewrite lookup_seq_ge by lia. symmetry. apply lookup_ge_None. rewrite length_replicate. lia.
Qed.

(** ** Bind *)

Lemma adjusted_pos m p : costs_ok m p -> 8 <= adjustMemory m p /\ adjustMemory m p < 2 ^ 32.
Proof.
  intros Hc. destruct (costs_fit m p Hc) as (Hp & Hs & Hf). destruct Hc as [Hp' Hm].
  destruct (adjustMemory_blocks m p ltac:(lia) ltac:(lia)) as [-> _]. unfold blocks, q in *. nia.
Qed.

(** The size fits an int, and so does every offset below it. *)
Lemma WorkspaceSize_fits m p : costs_ok m p -> 0 < WorkspaceSize m p <= MaxInt.
Proof.
  intros Hc. destruct (adjusted_pos m p Hc). destruct Hc as [Hp Hm]. unfold WorkspaceSize, laneScratchSize, fixedScratch, h0ChainSize, h0Length, blake2b_Size, blake2b_BlockSize, MaxInt. lia.
Qed.

Lemma Bind_run mem m p : costs_ok m p -> WorkspaceSize m p <= zlen mem -> bytes mem ->
  exists ws, Bind mem true m p = Some ws /\ shaped m p ws /\ ws_bytes ws = lsub 0 (WorkspaceSize m p) mem.
Proof.
  intros Hc Hlen Hb. destruct (adjusted_pos m p Hc) as [Ha _]. destruct Hc as [Hp Hm]. unfold Bind.
  destruct (Z.ltb_spec p 1); [lia|]. destruct (Z.ltb_spec (zlen mem) (WorkspaceSize m p)); [lia|]. cbn [negb]. cbv zeta.
  revert Hlen. unfold WorkspaceSize, laneScratchSize, fixedScratch, h0ChainSize, h0Length, blake2b_Size, blake2b_BlockSize. set (a := adjustMemory m p) in *.
  intros Hlen. eexists. split; [reflexivity|]. split.
  { unfold shaped. cbn. by rewrite !zlen_views by lia. }
  unfold ws_bytes. cbn [ws_b ws_lanes ws_h0Chain ws_h0 ws_block0 ws_hashIn ws_hashState ws_h0Block].
  assert (forall x y, words64 8 (lsub x y mem) ≫= put64 = lsub x y mem \/ ~ (0 <= x /\ y = x + 64 /\ y <= zlen mem)) as Hw.
  { intros x y. destruct (decide (0 <= x /\ y = x + 64 /\ y <= zlen mem)) as [(H1 & -> & H2)|]; [left|by right].
    rewrite words_bytes by first [by apply bytes_lsub | rewrite length_lsub by lia; lia]. apply take_ge. rewrite length_lsub by lia. lia. }
  rewrite (views_round a 1024 block_of block_bytes mem 0) by first [lia | exact Hb | intros; apply block_round; [assumption|unfold zlen in *; lia]].
  rewrite (views_round p (3 * 1024) lane_of lane_bytes mem (a * 1024)) by first [lia | exact Hb | intros; by apply lane_round].
  destruct (Hw (a * 1024 + p * (3 * 1024)) (a * 1024 + p * (3 * 1024) + 8 * 8)) as [->|[]]; [|lia].
  rewrite <- !(Z.add_assoc _ 4 1024). repeat (rewrite lsub_split by lia). apply (f_equal (fun z => lsub 0 z mem)). lia.
Qed.

Lemma Bind_zeros n m p : costs_ok m p -> WorkspaceSize m p <= n -> Bind (zeros n) true m p = Some (fresh_ws m p).
Proof.
  intros Hc Hlen. destruct (adjusted_pos m p Hc) as [Ha _]. pose proof (WorkspaceSize_fits m p Hc) as [Hpos _]. destruct Hc as [Hp Hm]. unfold Bind.
  destruct (Z.ltb_spec p 1); [lia|]. rewrite zlen_zeros by lia. destruct (Z.ltb_spec n (WorkspaceSize m p)); [lia|]. cbn [negb]. cbv zeta.
  revert Hlen. unfold fresh_ws, WorkspaceSize, laneScratchSize, fixedScratch, h0ChainSize, h0Length, blake2b_Size, blake2b_BlockSize. set (a := adjustMemory m p) in *.
  intros Hlen. rewrite (views_const a 1024 block_of n 0 zeroBlock) by first [lia | unfold block_of; rewrite words64_zeros by lia; reflexivity].
  assert (lane_of (zeros (3 * 1024)) = zero_lane) as Hlane.
  { unfold lane_of. rewrite !lsub_zeros by lia. unfold block_of. rewrite !words64_zeros by lia. reflexivity. }
  rewrite (views_const p (3 * 1024) lane_of n (a * 1024) zero_lane) by first [exact Hlane | lia].
  rewrite !lsub_zeros by lia. rewrite words64_zeros by lia.
  assert (forall x k, zeros (x + k - x) = zeros k) as Hz by (intros; f_equal; lia). rewrite !Hz.
  replace (a * 1024 + p * (3 * 1024) + 8 * 8 + (64 + 8) + 1024 + 4 + 1024 - (a * 1024 + p * (3 * 1024) + 8 * 8 + (64 + 8) + 1024)) with (4 + 1024) by lia.
  reflexivity.
Qed.

Lemma zlen_ws_bytes_fresh m p : costs_ok m p -> ws_bytes (fresh_ws m p) = zeros (WorkspaceSize m p).
Proof.
  intros Hc. pose proof (WorkspaceSize_fits m p Hc) as [Hpos _].
  destruct (Bind_run (zeros (WorkspaceSize m p)) m p Hc) as (ws & E & _ & Hbytes).
  - rewrite zlen_zeros by lia. lia.
  - unfold zeros. apply Forall_replicate. unfold is_byte. lia.
  - rewrite Bind_zeros in E by (done || lia). injection E as <-. rewrite Hbytes. rewrite lsub_zeros by lia. by rewrite Z.sub_0_r.
Qed.

(** C29. [Bind] accepts exactly the regions that are large enough and aligned, for
    at least one lane. The views it makes tile the front of the region: written
    out in order they are that part of it. The size and every offset fit an
    int. A zeroed region gives a zeroed workspace, [NewWorkspace] is one, and
    [Wipe] zeroes every byte a derivation may have written. *)
Theorem bind_exact mem aligned m p :
  costs_ok m p -> bytes mem ->
  0 < WorkspaceSize m p <= MaxInt /\
  (Bind mem aligned m p = None <-> (zlen mem < WorkspaceSize m p \/ aligned = false)) /\
  Bind mem aligned m 0 = None /\ NewWorkspace m 0 = None /\
  (forall ws, Bind mem aligned m p = Some ws ->
     shaped m p ws /\ ws_bytes ws = lsub 0 (WorkspaceSize m p) mem /\ ws_bytes (Wipe ws) = zeros (WorkspaceSize m p) /\
     (all_zero mem -> ws = fresh_ws m p)) /\
  NewWorkspace m p = Some (fresh_ws m p).
Proof.
  intros Hc Hb. split; [by apply WorkspaceSize_fits|]. split; [|split; [done|split; [done|split]]].
  - destruct (decide (WorkspaceSize m p <= zlen mem)) as [Hl|Hl]; [destruct aligned|].
    + destruct (Bind_run mem m p Hc Hl Hb) as (ws & -> & _). split; [done|]. intros [?|?]; [lia|done].
    + split; [auto|]. intros _. unfold Bind. destruct (p <? 1), (zlen mem <? WorkspaceSize m p); done.
    + split; [intros _; left; lia|]. intros _. unfold Bind. destruct (p <? 1); [done|]. destruct (Z.ltb_spec (zlen mem) (WorkspaceSize m p)); [done|lia].
  - intros ws E. assert (WorkspaceSize m p <= zlen mem /\ aligned = true) as [Hl ->].
    { unfold Bind in E. destruct (p <? 1); [done|]. destruct (Z.ltb_spec (zlen mem) (WorkspaceSize m p)); [done|]. destruct aligned; [done|done]. }
    destruct (Bind_run mem m p Hc Hl Hb) as (ws' & E' & Hs & Hbytes). rewrite E in E'. injection E' as <-.
    split; [done|]. split; [done|]. split; [rewrite (Wipe_fresh m p) by done; by apply zlen_ws_bytes_fresh|].
    intros Hz. apply all_zero_eq in Hz. rewrite Hz in E. rewrite Bind_zeros in E by done. by injection E.
  - unfold NewWorkspace. destruct (Z.ltb_spec p 1); [unfold costs_ok in Hc; lia|]. by apply Bind_zeros.
Qed.

Lemma bind_exact_witness :
  let mem := zeros 20000 in
  0 < WorkspaceSize 7 1 <= MaxInt /\
  (Bind mem true 7 1 = None <-> (zlen mem < WorkspaceSize 7 1 \/ true = false)) /\
  Bind mem true 7 0 = None /\ NewWorkspace 7 0 = None /\
  (forall ws, Bind mem true 7 1 = Some ws ->
     shaped 7 1 ws /\ ws_bytes ws = lsub 0 (WorkspaceSize 7 1) mem /\ ws_bytes (Wipe ws) = zeros (WorkspaceSize 7 1) /\
     (all_zero mem -> ws = fresh_ws 7 1)) /\
  NewWorkspace 7 1 = Some (fresh_ws 7 1).
Proof. apply (bind_exact (zeros 20000) true 7 1); [unfold costs_ok; lia|]. unfold zeros. apply Forall_replicate. unfold is_byte. lia. Defined.
