(* ===== verification/Argon2Kdf.v ===== *)
(** * Argon2 into a SecureBuffer (secmem-crypto/kdf.go, argon2_workspace.go)

    The entry points: the argument checks they share, the derivation over a
    heap workspace, and the one whose workspace is a SecureBuffer, which
    borrows two buffers in the order of their keys. *)
From S2P Require Import Prelude Errors KeyErrors Bytes Pem Canary World Memory Frame Sample Quarantine Janitor Process SealAuth SecureBuffer BufferAccess BufferSpec BufferBorrow BufferReads BufferTheorems BufferNew BufferIsolation Hmac Kdf Blake2b Argon2 Argon2Rfc Argon2Run Argon2Layout.

(** ** The entry points *)

Definition Argon2Time : Z := 3.
Definition Argon2Memory : Z := 64 * 1024.
Definition Argon2Threads : Z := 4.

(** [Argon2Mode]: an unsigned byte. *)
Definition Argon2id : Z := 0.
Definition Argon2i : Z := 1.
Definition Argon2d : Z := 2.

Record Argon2Params : Type := MkParams {
  ap_Mode : Z;
  ap_Time : Z;
  ap_Memory : Z;
  ap_Threads : Z;
  ap_Secret : list Z;
  ap_Data : list Z
}.

Definition MaxUint32 : Z := 2 ^ 32 - 1.
Definition opDerive : string := "secmemcrypto: argon2 derive".

Section entry.
Context `{Kernel} `{Blamka} `{Blake2bSums}.

(** The switch on the mode. *)
Definition argon2_mode (mode : Z) : option Z :=
  if (mode =? Argon2id) then Some ModeID
  else if (mode =? Argon2i) then Some ModeI
  else if (mode =? Argon2d) then Some ModeD
  else None.

(** The checks behind the length of [out], whose value is [size]. *)
Definition validate_lengths (password salt : list Z) (p : Argon2Params) (mode size : Z) : gerr + Z :=
  if (size <=? 0) then inl (Msg "secmemcrypto: empty output buffer")
  else if (MaxUint32 <? size) then inl (Msg "secmemcrypto: output too large")
  else if (MaxUint32 <? zlen password) then inl (Msg "secmemcrypto: argon2 derive: password too long")
  else if (MaxUint32 <? zlen salt) then inl (Msg "secmemcrypto: argon2 derive: salt too long")
  else if (MaxUint32 <? zlen (ap_Secret p)) then inl (Msg "secmemcrypto: argon2 derive: secret too long")
  else if (MaxUint32 <? zlen (ap_Data p)) then inl (Msg "secmemcrypto: argon2 derive: data too long")
  else if (MaxInt - 2 ^ 20 <? ap_Memory p * 1024) then inl (Msg "secmemcrypto: argon2 derive: memory exceeds the address space")
  else inr mode.

Definition validateArgon2 (password salt : list Z) (p : Argon2Params) (out : SecureBuffer) : GM (gerr + Z) :=
  if is_nil out then mret (inl (Msg "secmemcrypto: nil output buffer"))
  else
  d ← IsDestroyed out;
  if (d : bool) then mret (inl (errorf opDerive (Sent ErrDestroyed)))
  else if (ap_Time p <? 1) then mret (inl (Msg "secmemcrypto: argon2 derive: time (passes) must be >= 1"))
  else if (ap_Threads p <? 1) then mret (inl (Msg "secmemcrypto: argon2 derive: threads (parallelism) must be >= 1"))
  else match argon2_mode (ap_Mode p) with
  | None => mret (inl (Msg "secmemcrypto: argon2 derive: unknown mode"))
  | Some mode => size ← Len out; mret (validate_lengths password salt p mode size)
  end.

Variable schedule : Z -> Z -> list nat.

(** The heap workspace is dropped, wiped, at the end of the call. *)
Definition Argon2Into (password salt : list Z) (p : Argon2Params) (out : SecureBuffer) : GM (option gerr) :=
  r ← validateArgon2 password salt p out;
  match r with
  | inl err => mret (Some err)
  | inr mode =>
      match NewWorkspace (ap_Memory p) (ap_Threads p) with
      | None => panic
      | Some ws =>
          err ← WithBytesErr out (Some (derive_callback (fun dst =>
            match Derive schedule dst mode password salt (ap_Secret p) (ap_Data p) (ap_Time p) ws with
            | None => panic
            | Some (_, dst) => mret (inr (None, dst))
            end)));
          mret (errorf opDerive <$> err)
      end
  end.

Definition Argon2IDKeyInto (password salt : list Z) (time memory threads : Z) (out : SecureBuffer) : GM (option gerr) :=
  Argon2Into password salt (MkParams Argon2id time memory threads [] []) out.

Definition Argon2DeriveInto (password salt : list Z) (out : SecureBuffer) : GM (option gerr) :=
  Argon2IDKeyInto password salt Argon2Time Argon2Memory Argon2Threads out.

(** ** The locked workspace *)

(** [mu] is a mutex: a lock of the world that is only taken exclusively. *)
Record Argon2Workspace : Type := MkArgon2Workspace {
  aw_mem : SecureBuffer;
  aw_memory : Z;
  aw_threads : Z;
  aw_mu : Z
}.

Definition opWorkspace : string := "secmemcrypto: argon2 workspace".

(** [opts] are the core options for its buffer. *)
Definition NewArgon2Workspace (memory threads : Z) (opts : list (option Option)) : GM (gerr + Argon2Workspace) :=
  if (threads <? 1) then mret (inl (Msg "secmemcrypto: argon2 workspace: threads (parallelism) must be >= 1"))
  else if (MaxInt - 2 ^ 20 <? memory * 1024) then mret (inl (Msg "secmemcrypto: argon2 workspace: memory exceeds the address space"))
  else
  r ← NewEmptyBuffer (WorkspaceSize memory threads) opts;
  match r with
  | inl err => mret (inl (errorf opWorkspace err))
  | inr buf => mu ← new_lock; mret (inr (MkArgon2Workspace buf memory threads mu))
  end.

Definition workspace_Size (w : Argon2Workspace) : GM Z := Len (aw_mem w).

(** [LockOrder] of securebuf_lockorder.go. *)
Definition LockOrder (s : SecureBuffer) : GM Z :=
  match s with
  | NilRecv | ZeroValue => mret 0
  | Ref p => st ← buf_get p; mret (bs_janitorKey st)
  end.

(** The body of the two borrows, on the slices of the workspace and of [out]:
    [Bind], the derivation, and the deferred wipe. *)
Definition derive_between (aw : Argon2Workspace) (mode : Z) (password salt : list Z) (p : Argon2Params)
    (region : secRegion) (n : Z) (dst : secRegion) (len : Z) : GM (option gerr) :=
  rb ← mem_load (rg_base region);
  db ← mem_load (rg_base dst);
  match Bind (lsub 0 n rb) (rg_base region mod 8 =? 0) (aw_memory aw) (aw_threads aw) with
  | None => panic
  | Some ws =>
      match Derive schedule (lsub 0 len db) mode password salt (ap_Secret p) (ap_Data p) (ap_Time p) ws with
      | None => mem_copy_in (rg_base region) 0 (ws_bytes (Wipe ws));; panic
      | Some (ws, out) =>
          mem_copy_in (rg_base region) 0 (ws_bytes ws);;
          mem_copy_in (rg_base dst) 0 out;;
          mem_copy_in (rg_base region) 0 (ws_bytes (Wipe ws));;
          mret None
      end
  end.

Definition workspace_Derive (aw : Argon2Workspace) (password salt : list Z) (p : Argon2Params) (out : SecureBuffer) : GM (option gerr) :=
  r ← validateArgon2 password salt p out;
  match r with
  | inl err => mret (Some err)
  | inr mode =>
      if negb (ap_Memory p =? aw_memory aw) || negb (ap_Threads p =? aw_threads aw)
      then mret (Some (Msg "secmemcrypto: argon2 workspace: params do not match the workspace"))
      else
      lk_lock (aw_mu aw);;
      defer (
        o1 ← LockOrder (aw_mem aw);
        o2 ← LockOrder out;
        let swap := o2 <? o1 in
        let '(first, second) := if swap then (out, aw_mem aw) else (aw_mem aw, out) in
        err ← WithBytesErr first (Some (fun a na => WithBytesErr second (Some (fun b nb =>
          if swap then derive_between aw mode password salt p b nb a na
          else derive_between aw mode password salt p a na b nb))));
        mret (errorf opDerive <$> err)) (lk_unlock (aw_mu aw))
  end.

Definition workspace_Destroy (aw : Argon2Workspace) : GM (option gerr) :=
  lk_lock (aw_mu aw);; defer (Destroy (aw_mem aw)) (lk_unlock (aw_mu aw)).
End entry.

(** ** The heap path *)

(** The checks as a function of what they look at. *)
Definition checked (data : option Z) (password salt : list Z) (p : Argon2Params) : gerr + Z :=
  match data with
  | None => inl (errorf opDerive (Sent ErrDestroyed))
  | Some n =>
      if (ap_Time p <? 1) then inl (Msg "secmemcrypto: argon2 derive: time (passes) must be >= 1")
      else if (ap_Threads p <? 1) then inl (Msg "secmemcrypto: argon2 derive: threads (parallelism) must be >= 1")
      else match argon2_mode (ap_Mode p) with
      | None => inl (Msg "secmemcrypto: argon2 derive: unknown mode")
      | Some mode => validate_lengths password salt p mode n
      end
  end.

(** The fields at their widths: uint32, uint32, uint8. *)
Definition params_ok (p : Argon2Params) : Prop :=
  0 <= ap_Time p < 2 ^ 32 /\ 0 <= ap_Memory p < 2 ^ 32 /\ 0 <= ap_Threads p < 2 ^ 8.

Lemma checked_ok n password salt p mode : params_ok p -> checked (Some n) password salt p = inr mode ->
  costs_ok (ap_Memory p) (ap_Threads p) /\ 0 <= mode <= 2 /\ 1 <= ap_Time p /\ 1 <= n < 2 ^ 32 /\
  zlen password < 2 ^ 32 /\ zlen salt < 2 ^ 32 /\ zlen (ap_Secret p) < 2 ^ 32 /\ zlen (ap_Data p) < 2 ^ 32.
Proof.
  intros (Ht & Hm & Hp) E. unfold checked in E. destruct (Z.ltb_spec (ap_Time p) 1); [done|]. destruct (Z.ltb_spec (ap_Threads p) 1); [done|].
  destruct (argon2_mode (ap_Mode p)) as [md|] eqn:Em; [|done]. unfold validate_lengths, MaxUint32 in E.
  destruct (Z.leb_spec n 0); [done|]. destruct (Z.ltb_spec (2 ^ 32 - 1) n); [done|]. destruct (Z.ltb_spec (2 ^ 32 - 1) (zlen password)); [done|].
  destruct (Z.ltb_spec (2 ^ 32 - 1) (zlen salt)); [done|]. destruct (Z.ltb_spec (2 ^ 32 - 1) (zlen (ap_Secret p))); [done|].
  destruct (Z.ltb_spec (2 ^ 32 - 1) (zlen (ap_Data p))); [done|]. destruct (MaxInt - 2 ^ 20 <? ap_Memory p * 1024); [done|]. injection E as ->.
  unfold costs_ok. split_and!; try lia; unfold argon2_mode in Em;
    repeat (destruct (ap_Mode p =? _) in Em; [injection Em as <-; unfold ModeID, ModeI, ModeD; lia|]); done.
Qed.

Lemma zlen_Argon2 mode P S K X t m p n : 1 <= n -> zlen (Argon2 mode P S K X t m p n) = n.
Proof. intros Hn. unfold Argon2. by apply zlen_H'. Qed.

Section exact.
Context `{K : Kernel} {KOk : KernelOk} `{Bl : Blamka} {BlOk : BlamkaOk} `{Bs : Blake2bSums} {BsOk : Blake2bSumsOk}.
Variable schedule : Z -> Z -> list nat.
Implicit Types (w : world) (st : bufferState).

Lemma wp_validateArgon2 password salt pr p st c wd w (Q : gerr + Z -> world -> Prop) R :
  buf_ok w p st c wd -> Q (checked (bs_data st) password salt pr) w -> wp (validateArgon2 password salt pr (Ref p)) Q R w.
Proof.
  intros B HQ. unfold validateArgon2. cbn [is_nil]. apply wp_bind. eapply wp_IsDestroyed; [exact B|]. unfold checked in HQ.
  destruct (bs_data st) as [n|] eqn:Ed; [rewrite bool_decide_false by done|rewrite bool_decide_true by done; by apply wp_ret].
  destruct (ap_Time pr <? 1); [by apply wp_ret|]. destruct (ap_Threads pr <? 1); [by apply wp_ret|].
  destruct (argon2_mode (ap_Mode pr)); [|by apply wp_ret]. apply wp_bind. eapply wp_Len; [exact B|]. rewrite Ed. by apply wp_ret.
Qed.

(** [Argon2Into] on any buffer the module can hold: the arguments are refused
    in the order of the checks and nothing changes; otherwise, whatever the
    order in which the workers run, the buffer ends holding exactly the tag of
    RFC 9106 for its length, or the borrow refuses it, or, when it is closed at
    rest and its pages fail to open or close, there is an error. *)
Theorem argon2_into_exact w p st c wd password salt pr :
  world_ok w -> buf_ok w p st c wd -> bs_readOnly st = false -> params_ok pr ->
  returns (Argon2Into schedule password salt pr (Ref p)) w (fun e w' =>
    match checked (bs_data st) password salt pr with
    | inl err => e = Some err /\ w' = w
    | inr mode => derived opDerive w p st wd
        (fun n => Argon2 mode password salt (ap_Secret pr) (ap_Data pr) (ap_Time pr) (ap_Memory pr) (ap_Threads pr) n) true e w'
    end).
Proof.
  intros W B Hro Hpr. unfold returns, Argon2Into. apply wp_bind. eapply wp_validateArgon2; [exact B|].
  destruct (checked (bs_data st) password salt pr) as [err|mode] eqn:Ec; [by apply wp_ret|].
  destruct (bs_data st) as [n|] eqn:Ed; [|done].
  destruct (checked_ok n password salt pr mode Hpr Ec) as (Hc & Hmode & Ht & Hn & HP & HS & HK & HX).
  assert (NewWorkspace (ap_Memory pr) (ap_Threads pr) = Some (fresh_ws (ap_Memory pr) (ap_Threads pr))) as ->.
  { unfold NewWorkspace. destruct (Z.ltb_spec (ap_Threads pr) 1); [unfold costs_ok in Hc; lia|]. by apply Bind_zeros. }
  apply wp_bind. eapply wp_mono.
  - eapply (wp_borrow_derive opDerive _ w p st c wd _ None true W B Hro). intros n' b Hh. pose proof (proj1 Hh) as E. rewrite Ed in E. injection E as <-.
    split; [apply zlen_Argon2; lia|]. exists (inr (None, Argon2 mode password salt (ap_Secret pr) (ap_Data pr) (ap_Time pr) (ap_Memory pr) (ap_Threads pr) n)).
    pose proof (zlen_slice _ _ _ _ _ Hh) as Hz. rewrite <- Hz in Hn.
    destruct (derive_exact schedule (lsub 0 n b) mode password salt (ap_Secret pr) (ap_Data pr) (ap_Time pr) (ap_Memory pr) (ap_Threads pr)
      Hc Hmode Ht Hn HP HS HK HX) as (ws' & E & _). rewrite E, Hz. split; [reflexivity|]. split; [left; reflexivity|intros _; reflexivity].
  - cbn beta. intros e w' He. by apply wp_ret.
  - done.
Qed.
End exact.

(** ** Two borrows *)

Section nested.
Context `{K : Kernel} {KOk : KernelOk} `{Bl : Blamka} {BlOk : BlamkaOk} `{Bs : Blake2bSums} {BsOk : Blake2bSumsOk}.
Implicit Types (w : world) (st : bufferState).

(** A live buffer whose pages stay open, as a borrow finds it. *)
Record openable w (p : Z) st (n : Z) (m : mapping) : Prop := Openable {
  on_st : w_bufs w !! p = Some st;
  on_lock : lock_free w (bs_mu st);
  on_wiped : w_flags w !! bs_wiped st = Some false;
  on_data : bs_data st = Some n;
  on_sealed : bs_sealed st = false;
  on_closed : bs_closedAtRest st = false;
  on_map : mapped w (bs_region st) m;
  on_open : opened st m;
  on_len : 0 <= n <= zlen (mp_bytes m)
}.

Lemma openable_intro w p st c wd : world_ok w -> buf_ok w p st c wd -> refusal st wd = None -> bs_closedAtRest st = false ->
  exists n m, openable w p st n m.
Proof.
  intros W B Hr Hc. destruct (ready_intro (LockState 1 false) w p st c wd) as (-> & -> & n & m & Rd); try done.
  exists n, m. destruct Rd as [R1 R2 R3 R4 R5 R6 R7 R8]. pose proof (bc_map _ _ _ _ (lv_core _ _ _ _ _ _ _ R2)) as Hm.
  constructor; try done; [apply B|apply B|apply B|by eapply rest_opened|]. rewrite (md_len _ _ _ Hm). apply (lv_len _ _ _ _ _ _ _ R2).
Qed.

(** Other locks and other pages do not matter. *)
Lemma openable_relock w p st n m mu s : openable w p st n m -> mu <> bs_mu st -> openable (relock mu s w) p st n m.
Proof.
  intros [] Hne. constructor; try done.
  - unfold lock_free, relock in *. cbn. by rewrite lookup_insert_ne.
  - destruct on_map0. by constructor.
Qed.

Lemma wp_plain p st n m fn w (Q : option gerr -> world -> Prop) R :
  openable w p st n m ->
  wp (fn (bs_region st) n) (fun e w' => w_locks w' !! bs_mu st = Some (LockState 1 false) /\ Q e (unlocked (bs_mu st) w'))
    (fun w' => w_locks w' !! bs_mu st = Some (LockState 1 false) /\ R (unlocked (bs_mu st) w')) (borrowed (bs_mu st) w) ->
  wp (WithBytesErr (Ref p) (Some fn)) Q R w.
Proof.
  intros [] Hfn. unfold WithBytesErr, shared. apply wp_bind. eapply wp_buf_get; [done|].
  apply wp_bind, wp_lk_rLock; [done|]. apply wp_defer, wp_bind. eapply wp_guard; [done|done|].
  unfold refusal. rewrite on_data0, on_sealed0. cbn beta iota. rewrite on_closed0, on_data0.
  eapply wp_mono; [exact Hfn|..]; cbn beta; [intros a w' [? ?]|intros w' [? ?]]; by apply wp_lk_rUnlock.
Qed.

(** A borrow that is refused. *)
Lemma wp_plain_refused p st wd e fn w (Q : option gerr -> world -> Prop) R :
  w_bufs w !! p = Some st -> lock_free w (bs_mu st) -> w_flags w !! bs_wiped st = Some wd -> refusal st wd = Some e ->
  Q (Some (Sent e)) w -> wp (WithBytesErr (Ref p) (Some fn)) Q R w.
Proof.
  intros Hb Hl Hf Hr HQ. unfold WithBytesErr, shared. apply wp_bind. eapply wp_buf_get; [done|].
  apply wp_bind, wp_lk_rLock; [done|]. apply wp_defer, wp_bind. eapply wp_guard; [done|done|]. rewrite Hr.
  apply wp_ret, wp_lk_rUnlock; [cbn; apply lookup_insert_eq|]. unfold borrowed. by rewrite relock_unlocked.
Qed.

(** ** The derivation between two slices *)

Variable schedule : Z -> Z -> list nat.

(** The output page afterwards. *)
Definition tagged (tag : list Z) (m : mapping) : mapping := with_bytes (lset 0 tag (mp_bytes m)) m.

Lemma wp_derive_between aw mode password salt pr r1 n1 m1 r2 n2 m2 w (Q : option gerr -> world -> Prop) R :
  w_mem w !! rg_base r1 = Some m1 -> readable m1 = true -> writable m1 = true -> 0 <= n1 <= zlen (mp_bytes m1) ->
  w_mem w !! rg_base r2 = Some m2 -> readable m2 = true -> writable m2 = true -> 0 <= n2 <= zlen (mp_bytes m2) ->
  rg_base r1 <> rg_base r2 -> (8 | rg_base r1) -> lsub 0 n1 (mp_bytes m1) = zeros n1 -> WorkspaceSize (aw_memory aw) (aw_threads aw) <= n1 ->
  costs_ok (aw_memory aw) (aw_threads aw) -> 0 <= mode <= 2 -> 1 <= ap_Time pr -> 1 <= n2 < 2 ^ 32 ->
  zlen password < 2 ^ 32 -> zlen salt < 2 ^ 32 -> zlen (ap_Secret pr) < 2 ^ 32 -> zlen (ap_Data pr) < 2 ^ 32 ->
  Q None (set_mem (insert (rg_base r2) (tagged (Argon2 mode password salt (ap_Secret pr) (ap_Data pr) (ap_Time pr) (aw_memory aw) (aw_threads aw) n2) m2)) w) ->
  wp (derive_between schedule aw mode password salt pr r1 n1 r2 n2) Q R w.
Proof.
  intros Hm1 Hr1 Hw1 Hn1 Hm2 Hr2 Hw2 Hn2 Hne Hal Hz Hsize Hc Hmode Ht Hn HP HS HK HX HQ. unfold derive_between.
  apply wp_bind. eapply wp_mem_load; [exact Hm1|exact Hr1|]. apply wp_bind. eapply wp_mem_load; [exact Hm2|exact Hr2|].
  assert (rg_base r1 mod 8 =? 0 = true) as -> by (apply Z.eqb_eq, Z.mod_divide; [lia|done]).
  rewrite Hz, Bind_zeros by done.
  assert (zlen (lsub 0 n2 (mp_bytes m2)) = n2) as Hl2 by (rewrite zlen_lsub; lia). rewrite <- Hl2 in Hn.
  destruct (derive_exact schedule (lsub 0 n2 (mp_bytes m2)) mode password salt (ap_Secret pr) (ap_Data pr) (ap_Time pr) (aw_memory aw) (aw_threads aw)
      Hc Hmode Ht Hn HP HS HK HX) as (ws' & E & _ & Hlen & Hwipe & _). rewrite E, Hl2. rewrite Hwipe, zlen_ws_bytes_fresh by done.
  set (tag := Argon2 mode _ _ _ _ _ _ _ n2) in *. set (need := WorkspaceSize (aw_memory aw) (aw_threads aw)) in *.
  pose proof (WorkspaceSize_fits _ _ Hc) as [Hpos _]. fold need in Hpos.
  apply wp_bind. eapply wp_mem_copy_in; [exact Hm1|exact Hw1|lia|].
  set (m1' := with_bytes (lset 0 (ws_bytes ws') (mp_bytes m1)) m1).
  apply wp_bind. eapply (wp_mem_copy_in _ _ _ m2); [by cbn; rewrite lookup_insert_ne|exact Hw2|lia|].
  apply wp_bind. eapply (wp_mem_copy_in _ _ _ m1'); [by cbn; rewrite lookup_insert_ne, lookup_insert_eq|exact Hw1| |].
  { split; [lia|]. cbn. unfold zlen. lia. }
  apply wp_ret. match goal with |- Q None ?x => assert (x = set_mem (insert (rg_base r2) (tagged tag m2)) w) as ->; [|exact HQ] end.
  unfold set_mem. cbn. f_equal. fold (tagged tag m2).
  assert (with_bytes (lset 0 (zeros need) (lset 0 (ws_bytes ws') (mp_bytes m1))) m1 = m1) as Hback.
  { assert (lset 0 (zeros need) (lset 0 (ws_bytes ws') (mp_bytes m1)) = mp_bytes m1) as ->; [|by destruct m1].
    rewrite !lset0. assert (length (ws_bytes ws') = Z.to_nat need) as Hlw by (unfold zlen in Hlen; lia).
    assert (length (zeros need) = Z.to_nat need) as Hlz by (unfold zeros; apply length_replicate).
    rewrite Hlz, <- Hlw, drop_app_length. rewrite <- (take_drop (length (ws_bytes ws')) (mp_bytes m1)) at 2. f_equal.
    transitivity (lsub 0 need (lsub 0 n1 (mp_bytes m1))).
    - rewrite Hz, lsub_zeros by lia. f_equal. lia.
    - rewrite lsub_lsub by lia. unfold lsub. rewrite drop_0, Hlw. f_equal. lia. }
  change (with_bytes ?b m1') with (with_bytes b m1). rewrite Hback. rewrite insert_insert_ne by congruence. rewrite insert_insert_eq.
  by rewrite (insert_id _ _ _ Hm1).
Qed.

(** ** The locked workspace *)

(** The workspace and the output are two buffers that stay open, the region is
    page-aligned and wiped, and the mutex is a lock of its own. *)
Record idle w (aw : Argon2Workspace) p1 st1 c1 wd1 : Prop := Idle {
  id_mem : aw_mem aw = Ref p1;
  id_buf : buf_ok w p1 st1 c1 wd1;
  id_open : bs_closedAtRest st1 = false;
  id_rw : bs_readOnly st1 = false;
  id_align : (8 | rg_base (bs_region st1));
  id_mu : lock_free w (aw_mu aw);
  id_mu_apart : aw_mu aw <> bs_mu st1;
  id_zero : forall n m, bs_data st1 = Some n -> w_mem w !! rg_base (bs_region st1) = Some m ->
    lsub 0 n (mp_bytes m) = zeros n /\ WorkspaceSize (aw_memory aw) (aw_threads aw) <= n
}.
Record apart_from (aw : Argon2Workspace) st1 st2 : Prop := ApartFrom {
  af_mu : bs_mu st1 <> bs_mu st2;
  af_mutex : aw_mu aw <> bs_mu st2;
  af_region : bs_data st1 <> None -> bs_data st2 <> None -> rg_base (bs_region st1) <> rg_base (bs_region st2)
}.

(** The first of the two buffers, in the order of their keys, that cannot be
    borrowed. *)
Definition unavailable st1 wd1 st2 wd2 : option sentinel :=
  let '(first, second) := if (bs_janitorKey st2 <? bs_janitorKey st1) then (refusal st2 wd2, refusal st1 wd1) else (refusal st1 wd1, refusal st2 wd2) in
  match first with Some s => Some s | None => second end.

(** What a call that passed the checks ends with. *)
Definition workspace_done (tag : Z -> list Z) w st1 wd1 st2 wd2 (e : option gerr) (w' : world) : Prop :=
  match unavailable st1 wd1 st2 wd2 with
  | Some s => e = Some (errorf opDerive (Sent s)) /\ w' = w
  | None => e = None /\ exists n m, bs_data st2 = Some n /\ w_mem w !! rg_base (bs_region st2) = Some m /\
      w' = set_mem (insert (rg_base (bs_region st2)) (tagged (tag n) m)) w
  end.

(** Two borrows, one inside the other. *)
Record found w p st wd : Prop := Found {
  fo_st : w_bufs w !! p = Some st;
  fo_lock : lock_free w (bs_mu st);
  fo_wiped : w_flags w !! bs_wiped st = Some wd;
  fo_open : refusal st wd = None -> exists n m, openable w p st n m
}.

Lemma found_intro w p st c wd : world_ok w -> buf_ok w p st c wd -> bs_closedAtRest st = false -> found w p st wd.
Proof. intros W B Hc. constructor; [apply B..|]. intros Hr. by eapply openable_intro. Qed.

Lemma found_relock w p st wd mu s : found w p st wd -> mu <> bs_mu st -> found (relock mu s w) p st wd.
Proof.
  intros [F1 F2 F3 F4] Hne. constructor; try done.
  - unfold lock_free, relock in *. cbn. by rewrite lookup_insert_ne.
  - intros Hr. destruct (F4 Hr) as (n & m & O). exists n, m. by apply openable_relock.
Qed.

Lemma wp_both pa sta wda pb stb wdb fn w (Q : option gerr -> world -> Prop) R :
  found w pa sta wda -> found w pb stb wdb -> bs_mu sta <> bs_mu stb ->
  match refusal sta wda, refusal stb wdb with
  | Some s, _ | None, Some s => Q (Some (Sent s)) w
  | None, None => forall na ma nb mb, openable w pa sta na ma -> openable w pb stb nb mb ->
      wp (fn (bs_region sta) na (bs_region stb) nb)
        (fun e w' => exists f, w' = set_mem f (borrowed (bs_mu stb) (borrowed (bs_mu sta) w)) /\ Q e (set_mem f w)) (fun _ => False)
        (borrowed (bs_mu stb) (borrowed (bs_mu sta) w))
  end ->
  wp (WithBytesErr (Ref pa) (Some (fun a na => WithBytesErr (Ref pb) (Some (fun b nb => fn a na b nb))))) Q R w.
Proof.
  intros Fa Fb Hne HQ. destruct (refusal sta wda) as [s|] eqn:Ra; [by eapply wp_plain_refused; [apply Fa..|exact Ra|]|].
  destruct (fo_open _ _ _ _ Fa Ra) as (na & ma & Oa). eapply wp_plain; [exact Oa|].
  assert (Fb' : found (borrowed (bs_mu sta) w) pb stb wdb) by by apply found_relock.
  assert (w_locks (borrowed (bs_mu sta) w) !! bs_mu sta = Some (LockState 1 false)) as Hla by (cbn; apply lookup_insert_eq).
  destruct (refusal stb wdb) as [s|] eqn:Rb.
  - eapply wp_plain_refused; [apply Fb'..|exact Rb|]. split; [done|]. unfold borrowed. rewrite relock_unlocked; [done|apply Fa].
  - destruct (fo_open _ _ _ _ Fb' Rb) as (nb & mb & Ob). destruct (fo_open _ _ _ _ Fb Rb) as (nb' & mb' & Ob0).
    assert (nb' = nb) as -> by (pose proof (on_data _ _ _ _ _ Ob); pose proof (on_data _ _ _ _ _ Ob0); congruence).
    eapply wp_plain; [exact Ob|]. eapply wp_mono; [by eapply HQ|..]; cbn beta; [|done].
    intros e w' (f & -> & He). split; [cbn; apply lookup_insert_eq|].
    change (unlocked ?x (set_mem f ?y)) with (set_mem f (unlocked x y)).
    assert (unlocked (bs_mu stb) (borrowed (bs_mu stb) (borrowed (bs_mu sta) w)) = borrowed (bs_mu sta) w) as -> by (apply relock_unlocked, Fb').
    split; [done|]. change (unlocked ?x (set_mem f ?y)) with (set_mem f (unlocked x y)).
    unfold borrowed. rewrite relock_unlocked; [done|apply Fa].
Qed.

(** The same, in the order of the keys. *)
Lemma wp_ordered p1 st1 wd1 p2 st2 wd2 fn w (Q : option gerr -> world -> Prop) R :
  found w p1 st1 wd1 -> found w p2 st2 wd2 -> bs_mu st1 <> bs_mu st2 ->
  match unavailable st1 wd1 st2 wd2 with
  | Some s => Q (Some (errorf opDerive (Sent s))) w
  | None => forall n1 m1 n2 m2 w1, openable w p1 st1 n1 m1 -> openable w p2 st2 n2 m2 -> w_mem w1 = w_mem w ->
      wp (fn (bs_region st1) n1 (bs_region st2) n2)
        (fun e w' => exists f, w' = set_mem f w1 /\ Q (errorf opDerive <$> e) (set_mem f w)) (fun _ => False) w1
  end ->
  let swap := bs_janitorKey st2 <? bs_janitorKey st1 in
  wp (let '(first, second) := if swap then (Ref p2, Ref p1) else (Ref p1, Ref p2) in
      err ← WithBytesErr first (Some (fun a na => WithBytesErr second (Some (fun b nb =>
        if swap then fn b nb a na else fn a na b nb))));
      mret (errorf opDerive <$> err)) Q R w.
Proof.
  intros F1 F2 Hne HQ swap. unfold unavailable in HQ. fold swap in HQ. destruct swap; cbv beta iota in HQ |- *; apply wp_bind.
  - apply (wp_both p2 st2 wd2 p1 st1 wd1 (fun a na b nb => fn b nb a na)); [exact F2|exact F1|congruence|].
    destruct (refusal st2 wd2); [by apply wp_ret|]. destruct (refusal st1 wd1); [by apply wp_ret|]. intros nb mb na ma O2 O1.
    eapply wp_mono; [by eapply HQ|..]; [|done]. intros e w' (f & -> & He). exists f. split; [done|]. by apply wp_ret.
  - apply (wp_both p1 st1 wd1 p2 st2 wd2 fn); [exact F1|exact F2|exact Hne|].
    destruct (refusal st1 wd1); [by apply wp_ret|]. destruct (refusal st2 wd2); [by apply wp_ret|]. intros na ma nb mb O1 O2.
    eapply wp_mono; [by eapply HQ|..]; [|done]. intros e w' (f & -> & He). exists f. split; [done|]. by apply wp_ret.
Qed.

(** The end of the mutex's critical section. *)
Lemma wp_leave_mutex mu w f (Q : world -> Prop) R :
  lock_free w mu -> Q (set_mem f w) -> wp (lk_unlock mu) (fun _ => Q) R (set_mem f (locked mu w)).
Proof.
  intros Hf HQ. eapply wp_lk_unlock; [cbn; apply lookup_insert_eq|]. change (set_locks _ (set_mem f ?x)) with (set_mem f (unlocked mu x)).
  by rewrite locked_unlocked.
Qed.

Lemma wp_LockOrder p st w (Q : Z -> world -> Prop) R :
  w_bufs w !! p = Some st -> Q (bs_janitorKey st) w -> wp (LockOrder (Ref p)) Q R w.
Proof. intros Hb HQ. unfold LockOrder. apply wp_bind. eapply wp_buf_get; [exact Hb|]. by apply wp_ret. Qed.

(** C8. [Derive] on an idle workspace, with an output buffer that stays open: the
    arguments are refused as [Argon2Into] refuses them, then the costs that are
    not the workspace's, and nothing changes; otherwise the buffers are
    borrowed in the order of their keys, whichever is smaller, the first one
    that is not available is reported, and if both are the output holds
    exactly the tag of RFC 9106 and everything else, the workspace's pages and
    the locks included, is as it was. *)
Theorem workspace_derive_exact w aw p1 st1 c1 wd1 p2 st2 c2 wd2 password salt pr :
  world_ok w -> idle w aw p1 st1 c1 wd1 ->
  buf_ok w p2 st2 c2 wd2 -> bs_closedAtRest st2 = false -> bs_readOnly st2 = false -> apart_from aw st1 st2 -> params_ok pr ->
  returns (workspace_Derive schedule aw password salt pr (Ref p2)) w (fun e w' =>
    match checked (bs_data st2) password salt pr with
    | inl err => e = Some err /\ w' = w
    | inr mode =>
        if bool_decide (ap_Memory pr = aw_memory aw /\ ap_Threads pr = aw_threads aw) then
          workspace_done (fun n => Argon2 mode password salt (ap_Secret pr) (ap_Data pr) (ap_Time pr) (ap_Memory pr) (ap_Threads pr) n)
            w st1 wd1 st2 wd2 e w'
        else e = Some (Msg "secmemcrypto: argon2 workspace: params do not match the workspace") /\ w' = w
    end).
Proof.
  intros W [I1 B1 I3 I4 I5 I6 I7 I8] B2 Hc2 Hro2 [A1 A2 A3] Hpr. unfold returns, workspace_Derive.
  apply wp_bind. eapply wp_validateArgon2; [exact B2|]. destruct (checked (bs_data st2) password salt pr) as [err|mode] eqn:Ec; [by apply wp_ret|].
  destruct (bs_data st2) as [n|] eqn:Ed; [|done].
  destruct (checked_ok n password salt pr mode Hpr Ec) as (Hc & Hmode & Ht & Hn & HP & HS & HK & HX).
  destruct (Z.eqb_spec (ap_Memory pr) (aw_memory aw)) as [Em|]; cbn [negb orb];
    [|rewrite bool_decide_false by tauto; by apply wp_ret].
  destruct (Z.eqb_spec (ap_Threads pr) (aw_threads aw)) as [Et|]; cbn [negb orb];
    [|rewrite bool_decide_false by tauto; by apply wp_ret].
  rewrite bool_decide_true by done. rewrite Em, Et in *.
  pose proof (found_relock _ _ _ _ (aw_mu aw) (LockState 0 true) (found_intro _ _ _ _ _ W B1 I3) I7) as F1.
  pose proof (found_relock _ _ _ _ (aw_mu aw) (LockState 0 true) (found_intro _ _ _ _ _ W B2 Hc2) A2) as F2.
  apply wp_bind, wp_lk_lock; [exact I6|]. change (set_locks _ w) with (locked (aw_mu aw) w). fold (locked (aw_mu aw) w) in F1, F2.
  apply wp_defer. rewrite I1. apply wp_bind. eapply wp_LockOrder; [apply F1|]. apply wp_bind. eapply wp_LockOrder; [apply F2|]. cbv zeta.
  unfold workspace_done. rewrite Ed.
  apply (wp_ordered p1 st1 wd1 p2 st2 wd2 (derive_between schedule aw mode password salt pr)); [exact F1|exact F2|congruence|].
  destruct (unavailable st1 wd1 st2 wd2) as [s|].
  { assert (forall x, x = set_mem id x) as Hsame by (intros []; reflexivity).
    rewrite (Hsame (locked (aw_mu aw) w)). apply wp_leave_mutex; [exact I6|]. rewrite <- Hsame. split; reflexivity. }
  intros na ma nb mb w1 O1 O2 Ew. pose proof (on_data _ _ _ _ _ O1) as D1. pose proof (on_data _ _ _ _ _ O2) as D2.
  pose proof (md_at _ _ _ (on_map _ _ _ _ _ O1)) as M1. pose proof (md_at _ _ _ (on_map _ _ _ _ _ O2)) as M2. destruct (I8 na ma D1 M1) as [Hz Hsize].
  pose proof (on_open _ _ _ _ _ O1) as P1. pose proof (on_open _ _ _ _ _ O2) as P2.
  eapply wp_derive_between; try (rewrite Ew; eassumption); try eassumption; try apply P1; try apply P2; try apply O1; try apply O2; try assumption.
  - apply A3; congruence.
  - rewrite Ed in D2. injection D2 as <-. exact Hn.
  - eexists. split; [reflexivity|]. apply wp_leave_mutex; [exact I6|]. split; [reflexivity|]. exists nb, mb.
    split; [congruence|]. split; [exact M2|reflexivity].
Qed.
End nested.

(** ** A concrete workspace *)

#[local] Existing Instance windows_kernel.
#[local] Existing Instance windows_kernel_ok.
#[local] Existing Instance portable_blamka.
#[local] Existing Instance portable_blamka_ok.
#[local] Existing Instance blake2b_sums.
#[local] Existing Instance blake2b_sums_ok.

Definition sample_params : Argon2Params := MkParams Argon2id 1 8 1 [] [].
Definition in_order (r s : Z) : list nat := [0%nat; 0%nat].

Lemma argon2_into_exact_witness :
  returns (Argon2Into in_order [1] [2; 3] sample_params (Ref 4)) sample_open (fun e w' =>
    match checked (bs_data (sample_st sample_open)) [1] [2; 3] sample_params with
    | inl err => e = Some err /\ w' = sample_open
    | inr mode => derived opDerive sample_open 4 (sample_st sample_open) false
        (fun n => Argon2 mode [1] [2; 3] [] [] 1 8 1 n) true e w'
    end) /\
  checked (bs_data (sample_st sample_open)) [1] [2; 3] sample_params = inr ModeID /\
  checked (bs_data (sample_st sample_open)) [1] [2; 3] (MkParams 3 1 8 1 [] []) = inl (Msg "secmemcrypto: argon2 derive: unknown mode").
Proof.
  split; [|split; vm_compute; reflexivity]. destruct sample_open_ok as (W & B & _).
  apply (argon2_into_exact in_order sample_open 4 (sample_st sample_open) false false [1] [2; 3] sample_params W B);
    [vm_compute; reflexivity|]. unfold params_ok, sample_params. cbn. lia.
Defined.

(** The process with a locked workspace next to the sample buffer. *)
Definition sample_pair : world := run (NewArgon2Workspace 8 1 []) sample_open.
Definition sample_workspace : Argon2Workspace := MkArgon2Workspace (Ref 8) 8 1 9.

Lemma sample_pair_ok :
  world_ok sample_pair /\ idle sample_pair sample_workspace 8 (second_st sample_pair) false false /\
  buf_ok sample_pair 4 (sample_st sample_pair) false false.
Proof.
  destruct sample_open_ok as (W & B & Hr). destruct (sample_live sample_open false B ltac:(vm_compute; reflexivity)) as (m & L).
  set (w1 := run (NewEmptyBuffer (WorkspaceSize 8 1) []) sample_open).
  assert (NewEmptyBuffer (WorkspaceSize 8 1) [] sample_open = Ret (inr (Ref 8)) w1) as E by (vm_compute; reflexivity).
  assert (sample_pair = with_lock w1) as Ep.
  { unfold sample_pair, NewArgon2Workspace. change (1 <? 1) with false. cbn beta iota.
    change (MaxInt - 2 ^ 20 <? 8 * 1024) with false. cbn beta iota. unfold run, mbind, M_bind. rewrite E. reflexivity. }
  pose proof (returns_ret _ _ _ _ _ (wp_NewEmptyBuffer (WorkspaceSize 8 1) [] sample_open W ltac:(unfold key_room in *; lia) ltac:(by vm_compute)) E) as H.
  change (WorkspaceSize 8 1 <=? 0) with false in H. cbn beta iota in H. clear E.
  destruct H as (W2 & Fr & Hk & p & st & bytes & cl & [= <-] & Mk & Hfresh & Hcl & (Hz & _) & _).
  destruct (mk_live _ _ _ _ _ _ _ _ _ Mk) as (m2 & L2 & Eb). rewrite Ep. clear Ep.
  assert (bystander (with_lock w1) 4 (sample_st sample_open) 5 m false) as [B4 _ _].
  { apply bystander_with_lock; [exact W2|]. eapply bystander_frame; [exact W|exact W2|exact Fr|by eapply clear_of_ring|by constructor]. }
  assert (bystander (with_lock w1) 8 st (WorkspaceSize 8 1) m2 false) as [B8 D8 L8].
  { apply bystander_with_lock; [exact W2|]. constructor; [apply Mk|apply Mk|exact L2]. }
  assert (sample_st (with_lock w1) = sample_st sample_open) as -> by (unfold sample_st; rewrite (bo_st _ _ _ _ _ B4); reflexivity).
  assert (second_st (with_lock w1) = st) as Est by (unfold second_st; rewrite (bo_st _ _ _ _ _ B8); reflexivity).
  split; [by apply world_ok_with_lock|]. split; [|exact B4]. constructor.
  - reflexivity.
  - rewrite Est. exact B8.
  - clear. vm_compute. reflexivity.
  - clear. vm_compute. reflexivity.
  - clear. apply Z.mod_divide; [lia|]. vm_compute. reflexivity.
  - clear. vm_compute. reflexivity.
  - clear. vm_compute. discriminate.
  - rewrite Est. intros n m' Hn Hm'. rewrite D8 in Hn. injection Hn as <-.
    pose proof (md_at _ _ _ (bc_map _ _ _ _ (lv_core _ _ _ _ _ _ _ L8))) as Hm2. rewrite Hm2 in Hm'. injection Hm' as <-.
    rewrite Eb. split; [exact Hz|]. cbn [aw_memory aw_threads sample_workspace]. reflexivity.
Qed.

Lemma workspace_derive_exact_witness :
  returns (workspace_Derive in_order sample_workspace [1] [2; 3] sample_params (Ref 4)) sample_pair (fun e w' =>
    match checked (bs_data (sample_st sample_pair)) [1] [2; 3] sample_params with
    | inl err => e = Some err /\ w' = sample_pair
    | inr mode =>
        if bool_decide (8 = 8 /\ 1 = 1) then
          workspace_done (fun n => Argon2 mode [1] [2; 3] [] [] 1 8 1 n) sample_pair (second_st sample_pair) false (sample_st sample_pair) false e w'
        else e = Some (Msg "secmemcrypto: argon2 workspace: params do not match the workspace") /\ w' = sample_pair
    end) /\
  checked (bs_data (sample_st sample_pair)) [1] [2; 3] sample_params = inr ModeID /\
  refusal (sample_st sample_pair) false = None /\ refusal (second_st sample_pair) false = None /\
  workspace_Derive in_order sample_workspace [1] [2; 3] (MkParams Argon2id 1 9 1 [] []) (Ref 4) sample_pair =
    Ret (Some (Msg "secmemcrypto: argon2 workspace: params do not match the workspace")) sample_pair.
Proof.
  split; [|split_and!; vm_compute; reflexivity]. destruct sample_pair_ok as (W & I & B).
  apply (workspace_derive_exact in_order sample_pair sample_workspace 8 (second_st sample_pair) false false 4 (sample_st sample_pair) false false
    [1] [2; 3] sample_params W I B).
  - vm_compute. reflexivity.
  - vm_compute. reflexivity.
  - constructor; [vm_compute; discriminate|vm_compute; discriminate|intros _ _; vm_compute; discriminate].
  - unfold params_ok, sample_params. cbn. lia.
Defined.
