(* ===== verification/Argon2Pool.v ===== *)
(** * A pool of Argon2 workspaces (secmem-crypto/argon2_workspace.go)

    [Argon2Pool] hands its workspaces out over a buffered channel. Any number of
    goroutines call Derive and Destroy on it; their steps interleave. A
    workspace is named by its place in the pool's [all], and what one
    derivation or one Destroy on it returns is the environment's answer: the
    calls themselves are the subject of Argon2Kdf. *)
From S2P Require Import Prelude Errors World SecureBuffer Argon2Kdf.

(** ** Channels *)

(** A buffered channel of workspaces. *)
Record channel : Type := Chan {
  ch_buf : list nat;
  ch_cap : nat;
  ch_closed : bool
}.

(** An operation runs, has to wait, or panics. *)
Inductive turn (A : Type) : Type :=
  | Ran (a : A)
  | Waits
  | Crashes.
Arguments Ran {A} a.
Arguments Waits {A}.
Arguments Crashes {A}.

Definition send (c : channel) (v : nat) : turn channel :=
  if ch_closed c then Crashes
  else if (length (ch_buf c) <? ch_cap c)%nat then Ran (Chan (ch_buf c ++ [v]) (ch_cap c) false)
  else Waits.

(** [None]: the channel is closed and empty. *)
Definition receive (c : channel) : turn (channel * option nat) :=
  match ch_buf c with
  | v :: buf => Ran (Chan buf (ch_cap c) (ch_closed c), Some v)
  | [] => if ch_closed c then Ran (c, None) else Waits
  end.

Definition close (c : channel) : turn channel :=
  if ch_closed c then Crashes else Ran (Chan (ch_buf c) (ch_cap c) true).

(** ** The pool *)

(** [ws_mu] and [ws_gone]: the mutex of each workspace, and whether its buffer
    is destroyed. *)
Record Argon2Pool : Type := MkArgon2Pool {
  free : channel;
  all : list nat;
  mu : bool;
  done : bool;
  ws_mu : list bool;
  ws_gone : list bool
}.
Definition set_free f p := MkArgon2Pool f (all p) (mu p) (done p) (ws_mu p) (ws_gone p).
Definition set_mu b p := MkArgon2Pool (free p) (all p) b (done p) (ws_mu p) (ws_gone p).
Definition set_done b p := MkArgon2Pool (free p) (all p) (mu p) b (ws_mu p) (ws_gone p).
Definition set_ws_mu w b p := MkArgon2Pool (free p) (all p) (mu p) (done p) (<[w := b]> (ws_mu p)) (ws_gone p).
Definition set_ws_gone w p := MkArgon2Pool (free p) (all p) (mu p) (done p) (ws_mu p) (<[w := true]> (ws_gone p)).

(** Where a goroutine is. In Derive: at the start, inside the pool's mutex, at
    the receive, with a workspace before and inside the workspace's mutex, at
    the deferred send with the result, returned. In Destroy: at the start,
    inside the mutex, taking the [k]-th workspace back, closing the channel,
    at the [i]-th workspace before and inside its mutex with the first error so
    far, returned; or returned because another call was first. *)
Inductive pc : Type :=
  | DStart
  | DLocked
  | DReceive
  | DHold (w : nat)
  | DRun (w : nat)
  | DSend (w : nat) (err : option gerr)
  | DReturned (err : option gerr)
  | XStart
  | XLocked
  | XCollect (k : nat)
  | XClose
  | XWipe (i : nat) (first : option gerr)
  | XWipeLocked (i : nat) (first : option gerr)
  | XReturned (first : option gerr)
  | XNil.

Definition errDestroyed : gerr := errorf "secmemcrypto: argon2 pool" (Sent ErrDestroyed).

(** The environment's answers: whether the checks of a derivation refuse it,
    and what the call on the workspace returns. *)
Record answer : Type := Answer {
  an_refused : option gerr;
  an_result : option gerr
}.

Definition Derive_step (e : answer) (s : Argon2Pool) (p : pc) : turn (Argon2Pool * pc) :=
  match p with
  | DStart => if mu s then Waits else Ran (set_mu true s, DLocked)
  | DLocked => Ran (set_mu false s, if done s then DReturned (Some errDestroyed) else DReceive)
  | DReceive =>
      match receive (free s) with
      | Ran (f, Some w) => Ran (set_free f s, DHold w)
      | Ran (f, None) => Ran (set_free f s, DReturned (Some errDestroyed))
      | Waits => Waits
      | Crashes => Crashes
      end
  | DHold w =>
      match an_refused e with
      | Some err => Ran (s, DSend w (Some err))
      | None => if (ws_mu s !!! w : bool) then Waits else Ran (set_ws_mu w true s, DRun w)
      end
  | DRun w =>
      Ran (set_ws_mu w false s,
        DSend w (if (ws_gone s !!! w : bool) then Some (errorf opDerive (Sent ErrDestroyed)) else an_result e))
  | DSend w err =>
      match send (free s) w with
      | Ran f => Ran (set_free f s, DReturned err)
      | Waits => Waits
      | Crashes => Crashes
      end
  | _ => Waits
  end.

Definition Destroy_step (e : answer) (s : Argon2Pool) (p : pc) : turn (Argon2Pool * pc) :=
  match p with
  | XStart => if mu s then Waits else Ran (set_mu true s, XLocked)
  | XLocked => if done s then Ran (set_mu false s, XNil) else Ran (set_mu false (set_done true s), XCollect 0)
  | XCollect k =>
      if (k <? length (all s))%nat then
        match receive (free s) with
        | Ran (f, _) => Ran (set_free f s, XCollect (S k))
        | Waits => Waits
        | Crashes => Crashes
        end
      else Ran (s, XClose)
  | XClose =>
      match close (free s) with
      | Ran f => Ran (set_free f s, XWipe 0 None)
      | Waits => Waits
      | Crashes => Crashes
      end
  | XWipe i first =>
      match all s !! i with
      | None => Ran (s, XReturned first)
      | Some w => if (ws_mu s !!! w : bool) then Waits else Ran (set_ws_mu w true s, XWipeLocked i first)
      end
  | XWipeLocked i first =>
      match all s !! i with
      | None => Crashes
      | Some w =>
          Ran (set_ws_mu w false (set_ws_gone w s),
            XWipe (S i) (match first with None => an_result e | Some err => Some err end))
      end
  | _ => Waits
  end.

Definition thread_step (e : answer) (s : Argon2Pool) (p : pc) : turn (Argon2Pool * pc) :=
  match p with
  | DStart | DLocked | DReceive | DHold _ | DRun _ | DSend _ _ | DReturned _ => Derive_step e s p
  | _ => Destroy_step e s p
  end.

Record config : Type := Config { shared : Argon2Pool; threads : list pc }.

Inductive step : config -> config -> Prop :=
  | step_thread i e p s s' p' ps :
      ps !! i = Some p -> thread_step e s p = Ran (s', p') -> step (Config s ps) (Config s' (<[i := p']> ps)).

(** [Len], and the pool as [NewArgon2Pool] leaves it. *)
Definition pool_Len (s : Argon2Pool) : Z := Z.of_nat (length (all s)).
Definition newPool (size : nat) : Argon2Pool :=
  MkArgon2Pool (Chan (seq 0 size) size false) (seq 0 size) false false (replicate size false) (replicate size false).
Definition starting (p : pc) : Prop := p = DStart \/ p = XStart.
Definition finished (p : pc) : Prop :=
  match p with DReturned _ | XReturned _ | XNil => True | _ => False end.

(** ** Counting *)

Fixpoint total (f : pc -> nat) (ps : list pc) : nat :=
  match ps with [] => 0 | p :: ps => f p + total f ps end.

Lemma total_insert f ps i p p' : ps !! i = Some p -> (total f (<[i := p']> ps) + f p = total f ps + f p')%nat.
Proof.
  revert i. induction ps as [|q ps IH]; intros [|i] Hi; try done.
  - injection Hi as ->. change (<[0%nat := p']> (p :: ps)) with (p' :: ps). cbn [total]. lia.
  - change (<[S i := p']> (q :: ps)) with (q :: <[i := p']> ps). cbn [total]. specialize (IH i Hi). lia.
Qed.
Lemma total_in f ps i p : ps !! i = Some p -> (f p <= total f ps)%nat.
Proof. revert i. induction ps as [|q ps IH]; intros [|i] Hi; try done; cbn in *; [injection Hi as ->; lia|]. specialize (IH i Hi). lia. Qed.
Lemma total_two f ps i j p q : ps !! i = Some p -> ps !! j = Some q -> i <> j -> (f p + f q <= total f ps)%nat.
Proof.
  revert i j. induction ps as [|r ps IH]; intros [|i] [|j] Hi Hj Hne; try done; cbn in *.
  - injection Hi as ->. pose proof (total_in f ps j q Hj). lia.
  - injection Hj as ->. pose proof (total_in f ps i p Hi). lia.
  - specialize (IH i j Hi Hj). lia.
Qed.
Lemma total_pos f ps : (0 < total f ps)%nat -> exists i p, ps !! i = Some p /\ (0 < f p)%nat.
Proof.
  induction ps as [|q ps IH]; cbn; [lia|]. intros H. destruct (f q) eqn:E; [|exists 0%nat, q; split; [done|lia]].
  destruct IH as (i & p & Hi & Hp); [lia|]. by exists (S i), p.
Qed.
Lemma total_zero f ps : Forall (fun p => f p = 0%nat) ps -> total f ps = 0%nat.
Proof. induction 1; cbn; lia. Qed.

Definition holding (p : pc) : list nat := match p with DHold w | DRun w | DSend w _ => [w] | _ => [] end.

Lemma holding_insert ps i p p' : ps !! i = Some p -> (<[i := p']> ps ≫= holding) ++ holding p ≡ₚ (ps ≫= holding) ++ holding p'.
Proof.
  revert i. induction ps as [|q ps IH]; intros [|i] Hi; try done.
  - injection Hi as ->. change (<[0%nat := p']> (p :: ps)) with (p' :: ps). cbn. generalize (ps ≫= holding) as l. intros l.
    rewrite <- !app_assoc. solve_Permutation.
  - change (<[S i := p']> (q :: ps)) with (q :: <[i := p']> ps). cbn. rewrite <- !app_assoc. f_equiv. by apply IH.
Qed.

(** ** The invariant *)

Section pool.
Variable size : nat.

Definition in_mutex (p : pc) : nat := match p with DLocked | XLocked => 1 | _ => 0 end.
Definition destroying (p : pc) : nat :=
  match p with XCollect _ | XClose | XWipe _ _ | XWipeLocked _ _ | XReturned _ => 1 | _ => 0 end.
Definition closed_by (p : pc) : nat := match p with XWipe _ _ | XWipeLocked _ _ | XReturned _ => 1 | _ => 0 end.
Definition collected (p : pc) : nat := match p with XCollect k => k | XClose | XWipe _ _ | XWipeLocked _ _ | XReturned _ => size | _ => 0 end.
Definition wiped (p : pc) : nat := match p with XWipe i _ | XWipeLocked i _ => i | XReturned _ => size | _ => 0 end.
Definition inside (w : nat) (p : pc) : nat :=
  match p with DRun v | XWipeLocked v _ => if decide (v = w) then 1 else 0 | _ => 0 end.
Definition in_range (p : pc) : Prop :=
  match p with XCollect k => (k <= size)%nat | XWipe i _ => (i <= size)%nat | XWipeLocked i _ => (i < size)%nat | _ => True end.

Record inv (c : config) : Prop := Inv {
  iv_all : all (shared c) = seq 0 size;
  iv_cap : ch_cap (free (shared c)) = size;
  iv_tokens : exists back, length back = total collected (threads c) /\
    ch_buf (free (shared c)) ++ (threads c ≫= holding) ++ back ≡ₚ seq 0 size;
  iv_done : total destroying (threads c) = Nat.b2n (done (shared c));
  iv_closed : total closed_by (threads c) = Nat.b2n (ch_closed (free (shared c)));
  iv_mu : total in_mutex (threads c) = Nat.b2n (mu (shared c));
  iv_ws_mu : forall w, (w < size)%nat -> exists b, ws_mu (shared c) !! w = Some b /\ total (inside w) (threads c) = Nat.b2n b;
  iv_gone : forall w, (w < size)%nat -> ws_gone (shared c) !! w = Some (bool_decide (w < total wiped (threads c))%nat);
  iv_range : Forall in_range (threads c)
}.

Lemma inv_init ps : Forall starting ps -> inv (Config (newPool size) ps).
Proof.
  intros Hps. assert (forall f, f DStart = 0%nat -> f XStart = 0%nat -> total f ps = 0%nat) as Hz.
  { intros f H1 H2. apply total_zero. eapply Forall_impl; [exact Hps|]. by intros p [->| ->]. }
  constructor; cbn [shared threads newPool all free ch_cap ch_buf ch_closed done mu ws_mu ws_gone]; try by rewrite Hz.
  - done.
  - done.
  - exists []. split; [by rewrite Hz|]. rewrite app_nil_r. assert (ps ≫= holding = []) as ->; [|by rewrite app_nil_r].
    clear Hz. induction Hps as [|p ps [->| ->] _ IH]; [done|exact IH|exact IH].
  - intros w Hw. exists false. split; [by apply lookup_replicate_2|by rewrite Hz].
  - intros w Hw. rewrite Hz by done. rewrite bool_decide_false by lia. by apply lookup_replicate_2.
  - eapply Forall_impl; [exact Hps|]. by intros p [->| ->].
Qed.


(** ** One step *)

(** What a goroutine's step adds to each account, when it goes from [p] to
    [p'] and the pool from [s] to [s']. *)
Record delta (s : Argon2Pool) (ps : list pc) (i : nat) (p : pc) (s' : Argon2Pool) (p' : pc) : Prop := Delta {
  dl_all : all s' = all s;
  dl_cap : ch_cap (free s') = ch_cap (free s);
  dl_tokens : exists taken, (length taken + collected p)%nat = collected p' /\
    ch_buf (free s) ++ holding p ≡ₚ ch_buf (free s') ++ holding p' ++ taken;
  dl_done : (destroying p' + Nat.b2n (done s))%nat = (destroying p + Nat.b2n (done s'))%nat;
  dl_closed : (closed_by p' + Nat.b2n (ch_closed (free s)))%nat = (closed_by p + Nat.b2n (ch_closed (free s')))%nat;
  dl_mu : (in_mutex p' + Nat.b2n (mu s))%nat = (in_mutex p + Nat.b2n (mu s'))%nat;
  dl_ws_mu : forall w b, (w < size)%nat -> ws_mu s !! w = Some b ->
    exists b', ws_mu s' !! w = Some b' /\ (inside w p' + Nat.b2n b)%nat = (inside w p + Nat.b2n b')%nat;
  dl_gone : forall w, (w < size)%nat -> ws_gone s !! w = Some (bool_decide (w < total wiped ps)%nat) ->
    ws_gone s' !! w = Some (bool_decide (w < total wiped (<[i := p']> ps))%nat);
  dl_range : in_range p'
}.

Lemma inv_delta s ps i p s' p' : inv (Config s ps) -> ps !! i = Some p -> delta s ps i p s' p' -> inv (Config s' (<[i := p']> ps)).
Proof.
  intros [I1 I2 (back & I3a & I3b) I4 I5 I6 I7 I8 I9] Hi [D1 D2 (taken & D3a & D3b) D4 D5 D6 D7 D8 D9]. cbn [shared threads] in *.
  constructor; cbn [shared threads].
  - congruence.
  - congruence.
  - exists (taken ++ back). split.
    + rewrite length_app. pose proof (total_insert collected ps i p p' Hi). lia.
    + rewrite <- I3b. pose proof (holding_insert ps i p p' Hi) as Hh. apply (Permutation_app_inv_r (holding p)).
      transitivity ((ch_buf (free s') ++ holding p' ++ taken) ++ (ps ≫= holding) ++ back).
      * transitivity (ch_buf (free s') ++ ((<[i:=p']> ps ≫= holding) ++ holding p) ++ taken ++ back); [solve_Permutation|]. rewrite Hh. solve_Permutation.
      * rewrite <- D3b. solve_Permutation.
  - pose proof (total_insert destroying ps i p p' Hi). lia.
  - pose proof (total_insert closed_by ps i p p' Hi). lia.
  - pose proof (total_insert in_mutex ps i p p' Hi). lia.
  - intros w Hw. destruct (I7 w Hw) as (b & Hb & Ht). destruct (D7 w b Hw Hb) as (b' & Hb' & Hd). exists b'. split; [done|].
    pose proof (total_insert (inside w) ps i p p' Hi). lia.
  - intros w Hw. apply D8; [done|by apply I8].
  - by apply Forall_insert.
Qed.

(** Only one goroutine is destroying the pool. *)
Lemma sole f g ps i p : (total f ps <= 1)%nat -> ps !! i = Some p -> f p = 1%nat -> (forall q, f q = 0%nat -> g q = 0%nat) -> total g ps = g p.
Proof.
  intros Ht Hi Hp Hg. revert i Ht Hi. induction ps as [|q ps IH]; intros [|i] Ht Hi; try done; cbn in *.
  - injection Hi as ->. assert (total g ps = 0%nat) as ->; [|lia]. assert (H : total f ps = 0%nat) by lia. clear -H Hg.
    induction ps as [|q ps IH]; [done|]. cbn in *. rewrite IH by lia. rewrite Hg; lia.
  - assert (1 <= total f ps)%nat by (pose proof (total_in f ps i p Hi); lia). rewrite (IH i) by (done || lia). rewrite Hg; lia.
Qed.

Lemma held_in_range s ps i p w : inv (Config s ps) -> ps !! i = Some p -> w ∈ holding p -> (w < size)%nat.
Proof.
  intros [_ _ (back & _ & Hp) _ _ _ _ _ _] Hi Hw. cbn in Hp. assert (w ∈ seq 0 size) as Hin.
  { rewrite <- Hp. apply elem_of_app. right. apply elem_of_app. left. apply list_elem_of_bind. exists p. split; [done|]. by eapply list_elem_of_lookup_2. }
  apply elem_of_seq in Hin. lia.
Qed.

Lemma sole_destroyer g s ps i p : inv (Config s ps) -> ps !! i = Some p -> destroying p = 1%nat -> (forall q, destroying q = 0%nat -> g q = 0%nat) ->
  total g ps = g p.
Proof.
  intros I Hi Hd Hg. eapply (sole destroying); [|exact Hi|exact Hd|exact Hg]. pose proof (iv_done _ I) as H. cbn in H. destruct (done s); cbn in H; lia.
Qed.

Lemma not_past_closed s ps i p : inv (Config s ps) -> ps !! i = Some p -> destroying p = 1%nat -> closed_by p = 0%nat -> ch_closed (free s) = false.
Proof.
  intros I Hi Hd Hc. pose proof (iv_closed _ I) as H1. cbn in H1. rewrite (sole_destroyer closed_by s ps i p I Hi Hd) in H1 by (by intros []).
  destruct (ch_closed (free s)); [cbn in H1; lia|done].
Qed.

Ltac same_ws := let b := fresh in let Hb := fresh in intros ? b ? Hb; exists b; split; [exact Hb|cbn; lia].
Ltac same_gone Hi := let Hg := fresh in intros ? ? Hg; rewrite Hg; do 2 f_equal; apply bool_decide_ext;
  match goal with |- context [<[?i := ?p']> ?ps] => let Ht := fresh in pose proof (total_insert wiped ps i _ p' Hi) as Ht; cbn in Ht; lia end.
Ltac same_tokens := exists []; by rewrite ?app_nil_r.
Ltac accounts Hi := constructor; cbn; try done; try lia; try same_tokens; try same_ws; try same_gone Hi.

(** The mutex of a workspace, taken or given back. *)
Lemma ws_mu_set (l : list bool) (v w : nat) (b b' : bool) x y :
  l !! v = Some b -> (x + Nat.b2n b)%nat = (y + Nat.b2n b')%nat ->
  forall b0, l !! w = Some b0 ->
  exists b1, <[v := b']> l !! w = Some b1 /\
    ((if decide (v = w) then x else 0) + Nat.b2n b0)%nat = ((if decide (v = w) then y else 0) + Nat.b2n b1)%nat.
Proof.
  intros Hv Hxy b0 Hw. destruct (decide (v = w)) as [->|Hne].
  - exists b'. split; [apply list_lookup_insert_eq; by eapply lookup_lt_Some|]. assert (b0 = b) as -> by congruence. exact Hxy.
  - exists b0. split; [by rewrite list_lookup_insert_ne|done].
Qed.

Ltac ws_taken Hb b b' x y := let b0 := fresh in let Hb0 := fresh in intros ? b0 ? Hb0;
  let b1 := fresh in let H1 := fresh in let H2 := fresh in
  destruct (ws_mu_set _ _ _ b b' x y Hb eq_refl b0 Hb0) as (b1 & H1 & H2); exists b1; split; [exact H1|destruct (decide _); cbn in *; lia].

Lemma pool_step_inv s ps i e p s' p' : inv (Config s ps) -> ps !! i = Some p -> thread_step e s p = Ran (s', p') -> inv (Config s' (<[i := p']> ps)).
Proof.
  intros I Hi E. eapply inv_delta; [exact I|exact Hi|].
  pose proof (Forall_lookup_1 _ _ _ _ (iv_range _ I) Hi) as Hr. pose proof (iv_all _ I) as Hall. cbn [shared threads] in Hall, Hr.
  destruct p as [| | |w|w|w r|r| | |k| |j f|j f|f|]; cbn [thread_step Derive_step Destroy_step] in E; try discriminate.
  - destruct (mu s) eqn:Em; [discriminate|]. injection E as <- <-. accounts Hi; by rewrite Em.
  - injection E as <- <-. pose proof (iv_mu _ I) as Hm. cbn in Hm. pose proof (total_in in_mutex ps i _ Hi) as H1. cbn in H1.
    assert (mu s = true) as Em by (destruct (mu s); [done|cbn in Hm; lia]). destruct (done s) eqn:Ed; accounts Hi; by rewrite ?Em, ?Ed.
  - unfold receive in E. destruct (ch_buf (free s)) as [|v buf] eqn:Eb.
    + destruct (ch_closed (free s)) eqn:Ec; [|discriminate]. injection E as <- <-. accounts Hi.
    + injection E as <- <-. accounts Hi. exists []. split; [done|]. rewrite Eb. cbn. solve_Permutation.
  - destruct (an_refused e) as [err|]; [injection E as <- <-; accounts Hi|]. assert (w < size)%nat as Hw by (eapply held_in_range; [exact I|exact Hi|cbn; set_solver]).
    destruct (iv_ws_mu _ I w Hw) as (b & Hb & _). cbn in Hb. rewrite (list_lookup_total_correct _ _ _ Hb) in E. destruct b; [discriminate|]. injection E as <- <-.
    accounts Hi. ws_taken Hb false true 1%nat 0%nat.
  - injection E as <- <-. assert (w < size)%nat as Hw by (eapply held_in_range; [exact I|exact Hi|cbn; set_solver]).
    destruct (iv_ws_mu _ I w Hw) as (b & Hb & Ht). cbn in Hb, Ht. pose proof (total_in (inside w) ps i _ Hi) as H1. cbn in H1. rewrite decide_True in H1 by done.
    destruct b; [|cbn in Ht; lia]. accounts Hi. ws_taken Hb true false 0%nat 1%nat.
  - unfold send in E. destruct (ch_closed (free s)) eqn:Ec; [discriminate|]. destruct (Nat.ltb_spec (length (ch_buf (free s))) (ch_cap (free s))); [|discriminate].
    injection E as <- <-. accounts Hi; try (by rewrite Ec).
  - destruct (mu s) eqn:Em; [discriminate|]. injection E as <- <-. accounts Hi; by rewrite Em.
  - pose proof (iv_mu _ I) as Hm. cbn in Hm. pose proof (total_in in_mutex ps i _ Hi) as H1. cbn in H1.
    assert (mu s = true) as Em by (destruct (mu s); [done|cbn in Hm; lia]). destruct (done s) eqn:Ed; injection E as <- <-; accounts Hi; by rewrite ?Em, ?Ed.
  - rewrite Hall, length_seq in E. cbn in Hr. destruct (Nat.ltb_spec k size) as [Hk|Hk].
    + unfold receive in E. pose proof (not_past_closed s ps i _ I Hi eq_refl eq_refl) as Ec. rewrite Ec in E.
      destruct (ch_buf (free s)) as [|v buf] eqn:Eb; [discriminate|]. injection E as <- <-. accounts Hi.
      * exists [v]. split; [done|]. rewrite Eb. cbn. solve_Permutation.
      * cbn. by rewrite Ec.
    + injection E as <- <-. accounts Hi. exists []. split; [cbn; lia|]. by rewrite ?app_nil_r.
  - unfold close in E. pose proof (not_past_closed s ps i _ I Hi eq_refl eq_refl) as Ec. rewrite Ec in E. injection E as <- <-. accounts Hi. cbn. by rewrite Ec.
  - destruct (all s !! j) as [w|] eqn:Ej; rewrite Hall in Ej; cbn in Hr.
    + apply lookup_seq in Ej as [-> Hj]. cbn in E. destruct (iv_ws_mu _ I j Hj) as (b & Hb & _). cbn in Hb. rewrite (list_lookup_total_correct _ _ _ Hb) in E.
      destruct b; [discriminate|]. injection E as <- <-. accounts Hi. ws_taken Hb false true 1%nat 0%nat.
    + injection E as <- <-. apply lookup_ge_None in Ej. rewrite length_seq in Ej. accounts Hi.
  - rewrite Hall in E. cbn in Hr. destruct (seq 0 size !! j) as [w|] eqn:Ej; [|discriminate]. apply lookup_seq in Ej as [-> Hj]. cbn in E. injection E as <- <-.
    destruct (iv_ws_mu _ I j Hj) as (b & Hb & Ht). cbn in Hb, Ht. pose proof (total_in (inside j) ps i _ Hi) as H1. cbn in H1. rewrite decide_True in H1 by done.
    destruct b; [|cbn in Ht; lia]. accounts Hi.
    + ws_taken Hb true false 0%nat 1%nat.
    + intros v Hv Hg. pose proof (sole_destroyer wiped s ps i _ I Hi eq_refl ltac:(by intros [])) as Hs. cbn in Hs.
      match goal with |- context [<[i := ?p']> ps] => pose proof (total_insert wiped ps i _ p' Hi) as Hw end. cbn in Hw. rewrite Hs in Hg, Hw.
      destruct (decide (v = j)) as [->|Hne].
      * rewrite list_lookup_insert_eq by (by eapply lookup_lt_Some). rewrite bool_decide_true by lia. done.
      * rewrite list_lookup_insert_ne by done. rewrite Hg. do 2 f_equal. apply bool_decide_ext. lia.
Qed.


Lemma inv_steps c c' : inv c -> rtc step c c' -> inv c'.
Proof.
  intros I H. induction H as [|c1 c2 c3 Hs _ IH]; [done|]. apply IH. destruct Hs as [i e p s s' p' ps Hi E]. by eapply pool_step_inv.
Qed.

(** ** Nothing panics, and nobody waits for ever *)

Lemma lookup_gone (s : Argon2Pool) ps (w : nat) : inv (Config s ps) -> (w < size)%nat -> ws_gone s !!! w = bool_decide (w < total wiped ps)%nat.
Proof. intros I Hw. apply list_lookup_total_correct. by apply (iv_gone _ I). Qed.

(** As long as a goroutine holds a workspace, the channel is open and has room. *)
Lemma holder_sends s ps i p w : inv (Config s ps) -> ps !! i = Some p -> w ∈ holding p -> exists f, send (free s) w = Ran f.
Proof.
  intros I Hi Hw. destruct (iv_tokens _ I) as (back & Hb & Hp). cbn in Hb, Hp. pose proof (Permutation_length Hp) as Hl. rewrite !length_app, length_seq in Hl.
  assert (1 <= length (ps ≫= holding))%nat as H1.
  { assert (w ∈ ps ≫= holding) as Hin by (apply list_elem_of_bind; exists p; split; [done|by eapply list_elem_of_lookup_2]).
    destruct (ps ≫= holding); [set_solver|cbn; lia]. }
  assert (ch_closed (free s) = false) as Hc.
  { destruct (ch_closed (free s)) eqn:E; [|done]. pose proof (iv_closed _ I) as Hcl. cbn in Hcl. rewrite E in Hcl. cbn in Hcl.
    destruct (total_pos closed_by ps) as (j & q & Hj & Hq); [lia|]. assert (collected q = size /\ destroying q = 1%nat) as [Hq1 Hq2] by (destruct q; cbn in *; (done || lia)).
    pose proof (sole_destroyer collected s ps j q I Hj Hq2 ltac:(by intros [])). lia. }
  unfold send. rewrite Hc. pose proof (iv_cap _ I) as Hcap. cbn in Hcap. rewrite Hcap.
  destruct (Nat.ltb_spec (length (ch_buf (free s))) size); [by eexists|lia].
Qed.

Lemma no_crash s ps i e p : inv (Config s ps) -> ps !! i = Some p -> thread_step e s p <> Crashes.
Proof.
  intros I Hi. pose proof (Forall_lookup_1 _ _ _ _ (iv_range _ I) Hi) as Hr. pose proof (iv_all _ I) as Hall. cbn [shared threads] in Hall, Hr.
  destruct p as [| | |w|w|w r|r| | |k| |j f|j f|f|]; cbn [thread_step Derive_step Destroy_step]; try discriminate.
  - by destruct (mu s).
  - unfold receive. destruct (ch_buf (free s)); [|done]. by destruct (ch_closed (free s)).
  - destruct (an_refused e); [done|]. by destruct (ws_mu s !!! w).
  - destruct (holder_sends s ps i _ w I Hi) as [f ->]; [cbn; set_solver|done].
  - by destruct (mu s).
  - by destruct (done s).
  - destruct (_ <? _)%nat; [|done]. unfold receive. destruct (ch_buf (free s)); [|done]. by destruct (ch_closed (free s)).
  - unfold close. by rewrite (not_past_closed s ps i _ I Hi eq_refl eq_refl).
  - destruct (all s !! j); [|done]. by destruct (ws_mu s !!! n).
  - rewrite Hall. cbn in Hr. destruct (lookup_lt_is_Some_2 (seq 0 size) j) as [x ->]; [by rewrite length_seq|done].
Qed.

(** Who uses a workspace: the derivation that took it, or the Destroy that has
    come to it. *)
Definition occupied (p : pc) : list nat :=
  match p with DHold w | DRun w | DSend w _ => [w] | XWipe i _ | XWipeLocked i _ => [i] | _ => [] end.

Lemma tokens_when_closing s ps i p : inv (Config s ps) -> ps !! i = Some p -> destroying p = 1%nat -> collected p = size ->
  ch_buf (free s) = [] /\ ps ≫= holding = [].
Proof.
  intros I Hi Hd Hc. destruct (iv_tokens _ I) as (back & Hb & Hp). cbn in Hb, Hp. pose proof (Permutation_length Hp) as Hl. rewrite !length_app, length_seq in Hl.
  rewrite (sole_destroyer collected s ps i p I Hi Hd ltac:(by intros [])) in Hb.
  destruct (ch_buf (free s)), (ps ≫= holding); cbn in Hl; (done || lia).
Qed.

Lemma used_by_one s ps i j p q w : inv (Config s ps) -> ps !! i = Some p -> ps !! j = Some q -> w ∈ occupied p -> w ∈ occupied q -> i = j.
Proof.
  intros I Hi Hj Hp Hq. destruct (decide (i = j)) as [->|Hne]; [done|]. exfalso.
  assert (Hxd : forall i p, ps !! i = Some p -> w ∈ occupied p -> w ∉ holding p -> destroying p = 1%nat /\ collected p = size).
  { intros i' p' _ Hu Hh. destruct p'; cbn in *; set_solver. }
  assert (Hbind : forall i p, ps !! i = Some p -> w ∈ holding p -> w ∈ ps ≫= holding).
  { intros i' p' Hi' Hh. apply list_elem_of_bind. exists p'. split; [done|by eapply list_elem_of_lookup_2]. }
  destruct (decide (w ∈ holding p)) as [Hhp|Hhp]; destruct (decide (w ∈ holding q)) as [Hhq|Hhq].
  - destruct (iv_tokens _ I) as (back & _ & Hperm). cbn in Hperm. assert (NoDup (ps ≫= holding)) as Hnd.
    { assert (NoDup (ch_buf (free s) ++ (ps ≫= holding) ++ back)) as H by (rewrite Hperm; apply NoDup_seq). apply NoDup_app in H as (_ & _ & H). apply NoDup_app in H as (H & _ & _). exact H. }
    pose proof (holding_insert ps i p DStart Hi) as Hh1. cbn in Hh1. rewrite app_nil_r in Hh1. rewrite <- Hh1 in Hnd. apply NoDup_app in Hnd as (_ & Hdisj & _).
    apply (Hdisj w); [|done]. apply list_elem_of_bind. exists q. split; [done|]. apply list_elem_of_lookup_2 with j. by rewrite list_lookup_insert_ne.
  - destruct (Hxd j q Hj Hq Hhq) as [Hd Hc]. destruct (tokens_when_closing s ps j q I Hj Hd Hc) as [_ Hnil]. pose proof (Hbind i p Hi Hhp) as Hin. rewrite Hnil in Hin. set_solver.
  - destruct (Hxd i p Hi Hp Hhp) as [Hd Hc]. destruct (tokens_when_closing s ps i p I Hi Hd Hc) as [_ Hnil]. pose proof (Hbind j q Hj Hhq) as Hin. rewrite Hnil in Hin. set_solver.
  - destruct (Hxd i p Hi Hp Hhp) as [Hd1 _], (Hxd j q Hj Hq Hhq) as [Hd2 _]. pose proof (total_two destroying ps i j p q Hi Hj Hne) as H2.
    pose proof (iv_done _ I) as H. cbn in H. destruct (done s); cbn in H; lia.
Qed.

(** Whoever comes to a workspace's mutex finds it free. *)
Lemma mutex_free s ps i p w : inv (Config s ps) -> ps !! i = Some p -> w ∈ occupied p -> (w < size)%nat -> inside w p = 0%nat -> ws_mu s !!! w = false.
Proof.
  intros I Hi Hw Hlt Hin. destruct (iv_ws_mu _ I w Hlt) as (b & Hb & Ht). cbn in Hb, Ht. rewrite (list_lookup_total_correct _ _ _ Hb).
  destruct b; [|done]. cbn in Ht. destruct (total_pos (inside w) ps) as (j & q & Hj & Hq); [lia|]. exfalso.
  assert (w ∈ occupied q) as Hu by (destruct q; cbn in Hq |- *; try lia; destruct (decide _) as [->|]; (set_solver || lia)).
  pose proof (used_by_one s ps i j p q w I Hi Hj Hw Hu) as ->. assert (q = p) as -> by congruence. lia.
Qed.

(** The goroutines that never wait. *)
Definition active (p : pc) : bool :=
  match p with DLocked | DHold _ | DRun _ | DSend _ _ | XLocked | XClose | XWipe _ _ | XWipeLocked _ _ => true | _ => false end.

Lemma active_steps s ps i p e : inv (Config s ps) -> ps !! i = Some p -> active p = true -> exists s' p', thread_step e s p = Ran (s', p').
Proof.
  intros I Hi Ha. pose proof (Forall_lookup_1 _ _ _ _ (iv_range _ I) Hi) as Hr. pose proof (iv_all _ I) as Hall. cbn [shared threads] in Hall, Hr.
  destruct p as [| | |w|w|w r|r| | |k| |j f|j f|f|]; try discriminate; cbn [thread_step Derive_step Destroy_step].
  - eauto.
  - destruct (an_refused e); [eauto|]. rewrite (mutex_free s ps i _ w I Hi); [eauto|cbn; set_solver|eapply held_in_range; [exact I|exact Hi|cbn; set_solver]|done].
  - eauto.
  - destruct (holder_sends s ps i _ w I Hi) as [f ->]; [cbn; set_solver|eauto].
  - destruct (done s); eauto.
  - unfold close. rewrite (not_past_closed s ps i _ I Hi eq_refl eq_refl). eauto.
  - destruct (all s !! j) as [w|] eqn:Ej; [|eauto]. rewrite Hall in Ej. apply lookup_seq in Ej as [-> Hj]. cbn [Nat.add].
    rewrite (mutex_free s ps i _ j I Hi); [eauto|cbn; set_solver|lia|done].
  - rewrite Hall. cbn in Hr. destruct (lookup_lt_is_Some_2 (seq 0 size) j) as [x ->]; [by rewrite length_seq|eauto].
Qed.
(** ** Progress *)

Definition runs (s : Argon2Pool) (p : pc) : Prop := forall e, exists s' p', thread_step e s p = Ran (s', p').

Lemma mutex_owner s ps : inv (Config s ps) -> mu s = true -> exists i p, ps !! i = Some p /\ active p = true.
Proof.
  intros I Hm. pose proof (iv_mu _ I) as H. cbn in H. rewrite Hm in H. cbn in H.
  destruct (total_pos in_mutex ps) as (i & p & Hi & Hp); [lia|]. exists i, p. split; [done|]. destruct p; cbn in *; (done || lia).
Qed.

Lemma collector_runs s ps i k : inv (Config s ps) -> ps !! i = Some (XCollect k) -> ps ≫= holding = [] -> runs s (XCollect k).
Proof.
  intros I Hi Hh e. cbn [thread_step Destroy_step]. destruct (_ <? _)%nat eqn:Hk; [|eauto]. apply Nat.ltb_lt in Hk.
  pose proof (iv_all _ I) as Hall. cbn in Hall. rewrite Hall, length_seq in Hk.
  destruct (iv_tokens _ I) as (back & Hb & Hp). cbn in Hb, Hp. rewrite Hh in Hp. pose proof (Permutation_length Hp) as Hl. rewrite !length_app, length_seq in Hl.
  rewrite (sole_destroyer collected s ps i _ I Hi eq_refl ltac:(by intros [])) in Hb. cbn in Hb, Hl.
  unfold receive. destruct (ch_buf (free s)); [cbn in Hl; lia|eauto].
Qed.

Lemma receiver_runs s ps i : (1 <= size)%nat -> inv (Config s ps) -> ps !! i = Some DReceive -> ps ≫= holding = [] ->
  runs s DReceive \/ exists j k, ps !! j = Some (XCollect k) \/ ps !! j = Some XClose.
Proof.
  intros Hs I Hi Hh. destruct (ch_buf (free s)) as [|v buf] eqn:Eb; [|left; intros e; cbn; unfold receive; rewrite Eb; eauto].
  destruct (ch_closed (free s)) eqn:Ec; [left; intros e; cbn; unfold receive; rewrite Eb, Ec; eauto|]. right.
  destruct (iv_tokens _ I) as (back & Hb & Hp). cbn in Hb, Hp. rewrite Hh, Eb in Hp. pose proof (Permutation_length Hp) as Hl. rewrite !length_app, length_seq in Hl. cbn in Hl.
  destruct (total_pos collected ps) as (j & q & Hj & Hq); [lia|]. exists j. pose proof (iv_closed _ I) as Hcl. cbn in Hcl. rewrite Ec in Hcl. cbn in Hcl.
  pose proof (total_in closed_by ps j q Hj). destruct q; cbn in *; try lia; [by exists k; left|by exists 0%nat; right].
Qed.

Lemma idle_holds_nothing ps : Forall (fun p => active p = false) ps -> ps ≫= holding = [].
Proof. induction 1 as [|p ps Hp _ IH]; [done|]. destruct p; cbn in *; (done || exact IH). Qed.

Lemma progress c : (1 <= size)%nat -> inv c -> Forall finished (threads c) \/ exists i p, threads c !! i = Some p /\ runs (shared c) p.
Proof.
  destruct c as [s ps]. intros Hs I. cbn [shared threads].
  destruct (decide (Forall (fun p => active p = false) ps)) as [Hidle|Hact]; cycle 1.
  { apply not_Forall_Exists in Hact; [|exact _]. apply Exists_exists in Hact as (p & Hin & Hp). apply list_elem_of_lookup_1 in Hin as [i Hi].
    right. exists i, p. split; [done|]. intros e. eapply active_steps; [exact I|exact Hi|]. cbn in Hp. by destruct (active p). }
  pose proof (idle_holds_nothing ps Hidle) as Hh.
  assert (mu s = false) as Hm.
  { destruct (mu s) eqn:E; [|done]. destruct (mutex_owner s ps I E) as (i & p & Hi & Hp). pose proof (Forall_lookup_1 _ _ _ _ Hidle Hi) as H. cbn in H. congruence. }
  assert (Hdec : forall p, {finished p} + {~ finished p}) by (intros []; ((left; exact Logic.I) || (right; intros []))).
  destruct (Forall_Exists_dec finished (fun p => ~ finished p) Hdec ps) as [Hf|Hf]; [by left|]. right.
  apply Exists_exists in Hf as (p & Hin & Hp). apply list_elem_of_lookup_1 in Hin as [i Hi].
  pose proof (Forall_lookup_1 _ _ _ _ Hidle Hi) as Ha. cbn in Ha.
  destruct p as [| | |w|w|w r|r| | |k| |j f|j f|f|]; try discriminate; try (by destruct Hp; constructor).
  - exists i, DStart. split; [done|]. intros e. cbn. rewrite Hm. eauto.
  - destruct (receiver_runs s ps i Hs I Hi Hh) as [Hr|(j & k & [Hj|Hj])].
    + by exists i, DReceive.
    + exists j, (XCollect k). split; [done|]. by eapply collector_runs.
    + pose proof (Forall_lookup_1 _ _ _ _ Hidle Hj) as H. discriminate.
  - exists i, XStart. split; [done|]. intros e. cbn. rewrite Hm. eauto.
  - exists i, (XCollect k). split; [done|]. by eapply collector_runs.
Qed.

(** ** Termination *)

(** The steps a goroutine has left at most. *)
Definition steps_left (p : pc) : nat :=
  match p with
  | DStart => 6 | DLocked => 5 | DReceive => 4 | DHold _ => 3 | DRun _ => 2 | DSend _ _ => 1 | DReturned _ => 0
  | XStart => 3 * size + 6 | XLocked => 3 * size + 5 | XCollect k => (size - k) + 2 * size + 3 | XClose => 2 * size + 2
  | XWipe i _ => 2 * (size - i) + 1 | XWipeLocked i _ => 2 * (size - i) | XReturned _ => 0 | XNil => 0
  end.

Lemma steps_left_step s ps i e p s' p' : inv (Config s ps) -> ps !! i = Some p -> thread_step e s p = Ran (s', p') -> (steps_left p' < steps_left p)%nat.
Proof.
  intros I Hi E. pose proof (Forall_lookup_1 _ _ _ _ (iv_range _ I) Hi) as Hr. pose proof (iv_all _ I) as Hall. cbn [shared threads] in Hall, Hr.
  destruct p as [| | |w|w|w r|r| | |k| |j f|j f|f|]; cbn [thread_step Derive_step Destroy_step] in E; try discriminate; repeat case_match; try discriminate;
    injection E as <- <-; cbn [steps_left] in *; cbn [in_range] in Hr; try lia.
  apply Nat.ltb_lt in H. rewrite Hall, length_seq in H. lia.
Qed.

Lemma runs_bounded n c c' : inv c -> nsteps step n c c' -> (n + total steps_left (threads c') <= total steps_left (threads c))%nat.
Proof.
  intros I H. revert I. induction H as [c|n c c1 c2 Hs Hn IH]; intros I; [lia|]. destruct Hs as [i e p s s' p' ps Hi E].
  assert (inv (Config s' (<[i := p']> ps))) as I' by (by eapply pool_step_inv). specialize (IH I'). cbn [threads] in *.
  pose proof (steps_left_step s ps i e p s' p' I Hi E). pose proof (total_insert steps_left ps i p p' Hi). lia.
Qed.

Lemma starting_steps_left ps : Forall starting ps -> (total steps_left ps <= length ps * (3 * size + 6))%nat.
Proof. induction 1 as [|p ps [->| ->] _ IH]; cbn [total length steps_left]; nia. Qed.

(** ** At rest *)

Definition is_destroy (p : pc) : bool :=
  match p with XStart | XLocked | XCollect _ | XClose | XWipe _ _ | XWipeLocked _ _ | XReturned _ | XNil => true | _ => false end.

Lemma call_kept s e p s' p' : thread_step e s p = Ran (s', p') -> is_destroy p' = is_destroy p.
Proof. intros E. destruct p; cbn in E; try discriminate; repeat case_match; try discriminate; injection E as <- <-; done. Qed.
Lemma done_kept s e p s' p' : thread_step e s p = Ran (s', p') -> done s = true -> done s' = true.
Proof. intros E Hd. destruct p; cbn in E; try discriminate; repeat case_match; try discriminate; injection E as <- <-; cbn; done. Qed.
Lemma nil_done s e p s' : thread_step e s p = Ran (s', XNil) -> done s' = true.
Proof. intros E. destruct p; cbn in E; try discriminate; repeat case_match; try discriminate; injection E as <-; done. Qed.

Definition told (c : config) : Prop := XNil ∈ threads c -> done (shared c) = true.

Lemma told_steps c c' : told c -> rtc step c c' -> told c' /\ map is_destroy (threads c') = map is_destroy (threads c).
Proof.
  intros T H. revert T. induction H as [c|c1 c2 c3 Hs _ IH]; intros T; [done|].
  assert (told c2 /\ map is_destroy (threads c2) = map is_destroy (threads c1)) as [T2 M2].
  { destruct Hs as [i e p s s' p' ps Hi E]. cbn [threads shared] in *. split.
    - intros Hin. cbn [threads shared] in *. apply list_elem_of_lookup_1 in Hin as [j Hj]. apply list_lookup_insert_Some in Hj as [(-> & -> & _)|(_ & Hj)].
      + by eapply nil_done.
      + eapply done_kept; [exact E|]. apply T. cbn. by eapply list_elem_of_lookup_2.
    - rewrite list_fmap_insert. rewrite (call_kept _ _ _ _ _ E). apply list_insert_id. by rewrite list_lookup_fmap, Hi. }
  destruct (IH T2) as [T3 M3]. split; [done|congruence].
Qed.

Lemma holding_alive s ps i p w : inv (Config s ps) -> ps !! i = Some p -> w ∈ holding p -> ws_gone s !! w = Some false.
Proof.
  intros I Hi Hw. pose proof (held_in_range s ps i p w I Hi Hw) as Hlt. pose proof (iv_gone _ I w Hlt) as Hg. cbn in Hg. rewrite Hg, bool_decide_false; [done|].
  intros Hwiped. destruct (total_pos wiped ps) as (j & q & Hj & Hq); [lia|].
  assert (destroying q = 1%nat /\ collected q = size) as [Hd Hc] by (destruct q; cbn in *; (done || lia)).
  destruct (tokens_when_closing s ps j q I Hj Hd Hc) as [_ Hnil].
  assert (w ∈ ps ≫= holding) as Hin by (apply list_elem_of_bind; exists p; split; [done|by eapply list_elem_of_lookup_2]). rewrite Hnil in Hin. set_solver.
Qed.

(** How the calls leave the pool when all have returned. *)
Definition rested (destroyed : bool) (s : Argon2Pool) : Prop :=
  done s = destroyed /\ ch_closed (free s) = destroyed /\ (forall w, (w < size)%nat -> ws_gone s !! w = Some destroyed) /\
  ch_buf (free s) ≡ₚ if destroyed then [] else seq 0 size.

Lemma at_rest s ps : inv (Config s ps) -> told (Config s ps) -> Forall finished ps -> rested (existsb is_destroy ps) s.
Proof.
  intros I T Hf. destruct (existsb is_destroy ps) eqn:Ex.
  - apply existsb_exists in Ex as (p & Hin & Hp). apply list_elem_of_In in Hin. assert (done s = true) as Hd.
    { pose proof (proj1 (Forall_forall _ _) Hf p Hin) as Hfp. cbn in Hfp. destruct p; try done; [|by apply T].
      apply list_elem_of_lookup_1 in Hin as [i Hi]. pose proof (total_in destroying ps i _ Hi) as H1. pose proof (iv_done _ I) as H. cbn in H, H1.
      destruct (done s); [done|cbn in H; lia]. }
    pose proof (iv_done _ I) as H. cbn in H. rewrite Hd in H. cbn in H. destruct (total_pos destroying ps) as (i & q & Hi & Hq); [lia|].
    pose proof (Forall_lookup_1 _ _ _ _ Hf Hi) as Hfq. destruct q; cbn in Hq, Hfq; try lia; try done.
    destruct (tokens_when_closing s ps i _ I Hi eq_refl eq_refl) as [Hbuf _]. unfold rested. rewrite Hbuf. repeat split; try done.
    + pose proof (iv_closed _ I) as Hc. cbn in Hc. pose proof (total_in closed_by ps i _ Hi) as H1. cbn in H1. destruct (ch_closed (free s)); [done|cbn in Hc; lia].
    + intros w Hw. rewrite (iv_gone _ I w Hw : ws_gone s !! w = _). cbn [threads]. rewrite (sole_destroyer wiped s ps i _ I Hi eq_refl ltac:(by intros [])). cbn.
      by rewrite bool_decide_true.
  - assert (Hz : forall f, (forall p, is_destroy p = false -> f p = 0%nat) -> total f ps = 0%nat).
    { intros f Hfz. apply total_zero. apply Forall_forall. intros p Hin. apply Hfz. destruct (is_destroy p) eqn:Ep; [|done].
      rewrite <- Ex. symmetry. apply existsb_exists. exists p. split; [by apply list_elem_of_In|done]. }
    assert (ps ≫= holding = []) as Hh by (apply idle_holds_nothing; eapply Forall_impl; [exact Hf|]; by intros []).
    pose proof (iv_done _ I) as Hd. pose proof (iv_closed _ I) as Hc. cbn in Hd, Hc. rewrite Hz in Hd, Hc by (by intros []).
    destruct (iv_tokens _ I) as (back & Hb & Hp). cbn in Hb, Hp. rewrite Hz in Hb by (by intros []). apply nil_length_inv in Hb as ->. rewrite Hh, !app_nil_r in Hp.
    repeat split.
    + by destruct (done s).
    + by destruct (ch_closed (free s)).
    + intros w Hw. rewrite (iv_gone _ I w Hw : ws_gone s !! w = _). cbn [threads]. rewrite Hz by (by intros []). by rewrite bool_decide_false by lia.
    + exact Hp.
Qed.

Lemma same_calls ps qs : map is_destroy ps = map is_destroy qs -> existsb is_destroy ps = existsb is_destroy qs.
Proof. revert qs. induction ps as [|p ps IH]; intros [|q qs]; cbn; intros H; try done. injection H as H1 H2. by rewrite H1, (IH qs H2). Qed.
End pool.

(** ** What the pool promises *)

(** A schedule: which goroutine goes next, and what its call answers. *)
Fixpoint scheduled (plan : list (nat * answer)) (c : config) : option config :=
  match plan with
  | [] => Some c
  | (i, e) :: plan =>
      match threads c !! i with
      | None => None
      | Some p =>
          match thread_step e (shared c) p with
          | Ran (s', p') => scheduled plan (Config s' (<[i := p']> (threads c)))
          | _ => None
          end
      end
  end.

Lemma scheduled_nsteps plan c c' : scheduled plan c = Some c' -> nsteps step (length plan) c c'.
Proof.
  revert c. induction plan as [|[i e] plan IH]; intros [s ps]; cbn [scheduled threads shared length].
  - intros [= <-]. constructor.
  - intros H. repeat case_match; try discriminate. eapply nsteps_l; [by econstructor|by apply IH].
Qed.

(** C22. Any number of goroutines call Derive and Destroy, each once, on a pool
    of [size] workspaces, and their steps interleave in any order, each
    derivation returning what it likes. At every configuration [c] they can
    reach: no channel operation panics; a workspace is in the hands of one
    goroutine at most, of the derivation that received it or of the one
    Destroy that has come to it; a derivation's workspace is not destroyed
    under it; some goroutine can go on whatever its call returns, or all have
    returned, so there is no deadlock; the steps made are bounded; and once all
    have returned, the pool is destroyed with every workspace, its channel
    closed and empty, if one of the calls was Destroy, and holds every
    workspace again if none was. *)
Theorem pool_exact size ps n c :
  (1 <= size)%nat -> Forall starting ps -> nsteps step n (Config (newPool size) ps) c ->
  (forall i p e, threads c !! i = Some p -> thread_step e (shared c) p <> Crashes) /\
  (forall i j p q w, threads c !! i = Some p -> threads c !! j = Some q -> w ∈ occupied p -> w ∈ occupied q -> i = j) /\
  (forall i p w, threads c !! i = Some p -> w ∈ holding p -> ws_gone (shared c) !! w = Some false) /\
  (Forall finished (threads c) \/ exists i p, threads c !! i = Some p /\ runs (shared c) p) /\
  (n <= length ps * (3 * size + 6))%nat /\
  (Forall finished (threads c) -> rested size (existsb is_destroy ps) (shared c)).
Proof.
  intros Hs Hps Hn. pose proof (inv_init size ps Hps) as I0. assert (rtc step (Config (newPool size) ps) c) as Hr by (apply rtc_nsteps; eauto).
  assert (inv size c) as I by (by eapply inv_steps). assert (told (Config (newPool size) ps)) as T0.
  { intros Hin. pose proof (proj1 (Forall_forall _ _) Hps _ Hin) as [H|H]; discriminate. }
  destruct (told_steps _ _ T0 Hr) as [T M]. cbn [threads] in M. rewrite <- (same_calls _ _ M). destruct c as [s qs]. cbn [shared threads] in *. split_and!.
  - intros i p e Hi. by eapply no_crash.
  - intros i j p q w Hi Hj Hp Hq. by eapply used_by_one.
  - intros i p w Hi Hw. by eapply holding_alive.
  - exact (progress size (Config s qs) Hs I).
  - pose proof (runs_bounded size n _ _ I0 Hn) as Hb. pose proof (starting_steps_left size ps Hps). cbn [threads] in Hb. lia.
  - by apply at_rest.
Qed.

Definition fine : answer := Answer None None.
Definition refused : answer := Answer (Some errDestroyed) None.

(** Two derivations and a Destroy on a pool of two: the first derivation is
    under way when Destroy sets [done]; the second, past the check by then,
    finds the channel closed. *)
Definition race : list (nat * answer) :=
  map (fun i => (i, fine)) [0; 0; 0; 1; 1; 2; 2; 2; 0; 0; 0; 2; 2; 2; 1; 2; 2; 2; 2; 2]%nat.

Lemma pool_exact_witness : exists c, scheduled race (Config (newPool 2) [DStart; DStart; XStart]) = Some c /\
  threads c = [DReturned None; DReturned (Some errDestroyed); XReturned None] /\ rested 2 true (shared c) /\ (20 <= 3 * 12)%nat.
Proof.
  assert (Forall starting [DStart; DStart; XStart]) as Hs by (constructor; [by left|constructor; [by left|constructor; [by right|constructor]]]).
  assert (exists c, scheduled race (Config (newPool 2) [DStart; DStart; XStart]) = Some c /\
    threads c = [DReturned None; DReturned (Some errDestroyed); XReturned None]) as (c & Hc & Ht) by (eexists; split; vm_compute; reflexivity).
  exists c. split; [exact Hc|]. split; [exact Ht|].
  destruct (pool_exact 2 [DStart; DStart; XStart] 20 c ltac:(lia) Hs (scheduled_nsteps race _ _ Hc)) as (_ & _ & _ & _ & Hn & Hrest).
  split; [|exact Hn]. apply Hrest. rewrite Ht. repeat (apply Forall_cons; split; [exact Logic.I|]). apply Forall_nil. exact Logic.I.
Defined.

(** ** Construction

    A pool under construction is its caller's alone: the channel holds the
    workspaces made so far, so the Destroy of a failed construction waits for
    nobody and only destroys them in turn. *)
Definition opPool : string := "secmemcrypto: argon2 pool".

Section construction.
Context `{Kernel}.

Fixpoint destroy_workspaces (ws : list Argon2Workspace) (first : option gerr) : GM (option gerr) :=
  match ws with
  | [] => mret first
  | w :: ws => err ← workspace_Destroy w; destroy_workspaces ws (match first with None => err | Some _ => first end)
  end.

(** [turns]: the turns the loop still has to make. *)
Fixpoint make_workspaces (turns : nat) (memory threads : Z) (opts : list (option Option)) (made : list Argon2Workspace)
    : GM (gerr + list Argon2Workspace) :=
  match turns with
  | O => mret (inr made)
  | S turns =>
      r ← NewArgon2Workspace memory threads opts;
      match r with
      | inl err => destroy_workspaces made None;; mret (inl (errorf opPool err))
      | inr ws => make_workspaces turns memory threads opts (made ++ [ws])
      end
  end.

Definition NewArgon2Pool (size memory threads : Z) (opts : list (option Option)) : GM (gerr + list Argon2Workspace) :=
  if size <? 1 then mret (inl (Msg "secmemcrypto: argon2 pool: size must be >= 1"))
  else make_workspaces (Z.to_nat size) memory threads opts [].

Lemma make_workspaces_made turns memory threads opts made w made' w' : make_workspaces turns memory threads opts made w = Ret (inr made') w' ->
  length made' = (length made + turns)%nat /\
  (Forall (fun a => aw_memory a = memory /\ aw_threads a = threads) made -> Forall (fun a => aw_memory a = memory /\ aw_threads a = threads) made').
Proof.
  revert made w. induction turns as [|turns IH]; intros made w; cbn [make_workspaces].
  - intros [= -> _]. split; [lia|done].
  - unfold mbind, M_bind. destruct (NewArgon2Workspace memory threads opts w) as [[e|ws] w1| | |] eqn:E; try discriminate.
    + destruct (destroy_workspaces made None w1); discriminate.
    + intros Hm. apply IH in Hm as [H1 H2]. rewrite length_app in H1. cbn in H1. split; [lia|]. intros Hm. apply H2. apply Forall_app. split; [done|]. constructor; [|done].
      clear -E. unfold NewArgon2Workspace, mbind, M_bind in E. repeat case_match; try discriminate; injection E as <- _; done.
Qed.

(** A constructed pool has the [size] workspaces it was asked for, of its cost
    profile, and [pool_exact]'s [newPool] is the pool over them. *)
Lemma new_pool_made size memory threads opts w made w' : NewArgon2Pool size memory threads opts w = Ret (inr made) w' ->
  1 <= size /\ pool_Len (newPool (length made)) = size /\ Forall (fun a => aw_memory a = memory /\ aw_threads a = threads) made.
Proof.
  unfold NewArgon2Pool. destruct (Z.ltb_spec size 1) as [|Hs]; [discriminate|]. intros Hm. apply make_workspaces_made in Hm as [H1 H2]. cbn in H1.
  split; [lia|]. split; [|by apply H2]. unfold pool_Len. cbn. rewrite length_seq. lia.
Qed.
End construction.
