(* ===== verification/Passphrase.v ===== *)
(** * Diceware passphrases in a SecureBuffer (secmem-crypto/passphrase.go)

    The word list, the gather that reads every entry whichever is wanted, the
    draw, and the generator that assembles the words in the buffer they are
    returned in. *)
From S2P Require Import Prelude Errors Bytes Canary World Memory Frame Sample Quarantine Janitor Process SealAuth SecureBuffer BufferAccess BufferSpec BufferOps BufferBorrow BufferReads BufferWrites BufferDestroy BufferNew BufferTheorems.

(** ** The word list *)

(** [strings.Split] at one byte, [strings.TrimRight] of a set of bytes, and
    [strings.Cut] at one byte. *)
Fixpoint Split (sep : Z) (s : list Z) : list (list Z) :=
  match s with
  | [] => [[]]
  | c :: s =>
      match Split sep s with
      | [] => [[]]
      | field :: fields => if (c =? sep) then [] :: field :: fields else (c :: field) :: fields
      end
  end.
Fixpoint TrimRight (cutset : list Z) (s : list Z) : list Z :=
  match s with
  | [] => []
  | c :: s => match TrimRight cutset s with [] => if bool_decide (c ∈ cutset) then [] else [c] | s' => c :: s' end
  end.
Fixpoint Cut (sep : Z) (s : list Z) : option (list Z * list Z) :=
  match s with
  | [] => None
  | c :: s => if (c =? sep) then Some ([], s) else '(before, after) ← Cut sep s; Some (c :: before, after)
  end.

(** [effWords] of the embedded file [raw]: a tab is 9, a line feed 10, a
    carriage return 13. *)
Definition effWords (raw : list Z) : list (list Z) :=
  Split 10 raw ≫= fun line =>
    let line := TrimRight [13; 10] line in
    match line with
    | [] => []
    | _ => match Cut 9 line with None => [] | Some (_, word) => [word] end
    end.

Record wordList : Type := WordList {
  wl_Len : Z;
  wl_At : Z -> list Z
}.
Definition stringWordList (l : list (list Z)) : wordList := WordList (zlen l) (fun i => l !!! Z.to_nat i).

(** ** The gather *)

(** [subtle.ConstantTimeEq] on two int32 and [subtle.ConstantTimeSelect]. *)
Definition ConstantTimeEq (x y : Z) : Z := Z.shiftr (uwrap64 ((Z.lxor x y) mod 2 ^ 32 - 1)) 63.
Definition ConstantTimeSelect (v x y : Z) : Z := Z.lor (Z.land (Z.lnot (v - 1)) x) (Z.land (v - 1) y).

(** What the gather touches: an entry of the list, a byte of one, a byte of
    the slot. *)
Inductive access : Type :=
  | AtEntry (j : Z)
  | AtWordByte (j p : Z)
  | AtSlotByte (p : Z).

(** The loop over the slot, from position [p]. *)
Fixpoint select_bytes (mask j : Z) (w slot : list Z) (p : Z) : list Z * list access :=
  match slot with
  | [] => ([], [])
  | s :: slot =>
      let '(b, touched) := if (p <? zlen w) then (w !!! Z.to_nat p, [AtWordByte j p]) else (0, []) in
      let s := ConstantTimeSelect mask b s mod 256 in
      let '(slot, rest) := select_bytes mask j w slot (p + 1) in
      (s :: slot, touched ++ AtSlotByte p :: rest)
  end.

(** The loop over the entries. *)
Fixpoint select_from (words : wordList) (idx : Z) (js : list Z) (slot : list Z) (n : Z) : list Z * Z * list access :=
  match js with
  | [] => (slot, n, [])
  | j :: js =>
      let w := wl_At words j in
      let mask := ConstantTimeEq (wrap32 j) (wrap32 idx) in
      let '(slot, touched) := select_bytes mask j w slot 0 in
      let n := ConstantTimeSelect mask (zlen w) n in
      let '(slot, n, rest) := select_from words idx js slot n in
      (slot, n, AtEntry j :: touched ++ rest)
  end.

(** The slot afterwards, the length of the word, and what was touched. *)
Definition selectWord (slot : list Z) (words : wordList) (idx : Z) : list Z * Z * list access :=
  select_from words idx (seqZ 0 (wl_Len words)) slot 0.

(** ** The draw *)

(** [rand.Int] on a reader whose [t]-th read of [k] bytes is [read t k], in at
    most [fuel] attempts; [None] when they were not enough. *)
Fixpoint rand_attempts (read : nat -> Z -> gerr + list Z) (fuel t : nat) (k b bound : Z) : option ((gerr + Z) * nat) :=
  match fuel with
  | 0%nat => None
  | S fuel =>
      match read t k with
      | inl err => Some (inl err, S t)
      | inr bytes =>
          let bytes := <[0%nat := Z.land (bytes !!! 0%nat) ((2 ^ b - 1) mod 256)]> bytes in
          let n := be bytes in
          if (n <? bound) then Some (inr n, S t) else rand_attempts read fuel (S t) k b bound
      end
  end.
Definition rand_Int (read : nat -> Z -> gerr + list Z) (fuel t : nat) (bound : Z) : option ((gerr + Z) * nat) :=
  let n := bound - 1 in
  let bitLen := if (n =? 0) then 0 else Z.log2 n + 1 in
  if (bitLen =? 0) then Some (inr 0, t)
  else
  let k := (bitLen + 7) / 8 in
  let b := bitLen mod 8 in
  let b := if (b =? 0) then 8 else b in
  rand_attempts read fuel t k b bound.

(** The value survives; the [big.Int] it was drawn in is zeroed. *)
Definition drawWordIndex (read : nat -> Z -> gerr + list Z) (fuel t : nat) (bound : Z) : option ((gerr + Z) * nat) :=
  rand_Int read fuel t bound.

(** The draws of one call after another. *)
Fixpoint reads_before (read : nat -> Z -> gerr + list Z) (fuel : nat) (bound : Z) (i : nat) : option nat :=
  match i with
  | 0%nat => Some 0%nat
  | S i => t ← reads_before read fuel bound i; snd <$> drawWordIndex read fuel t bound
  end.
Definition draws (read : nat -> Z -> gerr + list Z) (fuel : nat) : nat -> Z -> option (gerr + Z) := fun i bound =>
  t ← reads_before read fuel bound i; fst <$> drawWordIndex read fuel t bound.

(** ** The generator *)

(** How the loop over the words ends: it returns, it panics or a draw does not
    return, with the bytes of the slice and the position reached. *)
Inductive assembled : Type :=
  | Done (err : option gerr) (dst : list Z) (pos : Z)
  | Panicked (dst : list Z)
  | Stuck (dst : list Z).

Definition opDiceware : string := "secmemcrypto: generate diceware passphrase".

Section generate.
Context `{Kernel}.
Variables (words : wordList) (draw : nat -> Z -> option (gerr + Z)).

(** [k] more words from the [i]-th on; the slice's capacity is its length. *)
Fixpoint assemble (count maxLen : Z) (k i : nat) (dst : list Z) (pos : Z) : assembled :=
  match k with
  | 0%nat => Done None dst pos
  | S k =>
      match draw i count with
      | None => Stuck dst
      | Some (inl err) => Done (Some err) dst pos
      | Some (inr idx) =>
          if (idx <? 0) || (count <=? idx) then Done (Some (Msg "internal error: draw returned an index out of range")) dst pos
          else if (0 <? i)%nat && (zlen dst <=? pos) then Panicked dst
          else
          let '(dst, pos) := if (0 <? i)%nat then (<[Z.to_nat pos := 32]> dst, pos + 1) else (dst, pos) in
          if (zlen dst <? pos + maxLen) then Panicked dst
          else
          let '(slot, n, _) := selectWord (lsub pos (pos + maxLen) dst) words idx in
          assemble count maxLen k (S i) (lset pos slot dst) (pos + n)
      end
  end.

Definition longest (count : Z) : Z := foldl (fun m j => Z.max m (zlen (wl_At words j))) 0 (seqZ 0 count).

Definition assemble_callback (count maxLen n : Z) : callback (option gerr) := fun r len =>
  bs ← mem_load (rg_base r);
  match assemble count maxLen (Z.to_nat n) 0 (lsub 0 len bs) 0 with
  | Done err dst _ => mem_copy_in (rg_base r) 0 dst;; mret err
  | Panicked dst => mem_copy_in (rg_base r) 0 dst;; panic
  | Stuck dst => mem_copy_in (rg_base r) 0 dst;; Prelude.block
  end.

(** [total], the variable the callback sets when its loop ends: the position
    does not depend on the bytes the slice held. *)
Definition total_of (count maxLen n size : Z) : Z :=
  match assemble count maxLen (Z.to_nat n) 0 (zeros size) 0 with Done None _ pos => pos | _ => 0 end.

Definition generateDiceware (opts : list (option Option)) (n : Z) : GM (gerr + SecureBuffer) :=
  if (n <? 1) then mret (inl (Msg "secmemcrypto: generate diceware passphrase: n must be >= 1"))
  else
  let count := wl_Len words in
  if (count =? 0) then mret (inl (Msg "secmemcrypto: generate diceware passphrase: empty wordlist"))
  else
  let maxLen := longest count in
  let size := wrap64 (wrap64 (n * maxLen) + (n - 1)) in
  r ← NewEmptyBuffer size opts;
  match r with
  | inl err => mret (inl (errorf "secmemcrypto: allocate passphrase buffer" err))
  | inr buf =>
      err ← WithBytesErr buf (Some (assemble_callback count maxLen n));
      match err with
      | Some err => _ ← Destroy buf; mret (inl (errorf opDiceware err))
      | None =>
          err ← Truncate buf (total_of count maxLen n size);
          match err with
          | Some err => _ ← Destroy buf; mret (inl (errorf opDiceware err))
          | None => mret (inr buf)
          end
      end
  end.
End generate.

Definition GenerateDicewarePassphrase `{Kernel} (raw : list Z) (read : nat -> Z -> gerr + list Z) (fuel : nat) (n : Z)
    (opts : list (option Option)) : GM (gerr + SecureBuffer) :=
  generateDiceware (stringWordList (effWords raw)) (draws read fuel) opts n.

(** ** The gather is exact and oblivious *)

(** A word, cut or padded to the slot. *)
Definition fitted (w : list Z) (n : nat) : list Z := take n (w ++ replicate n 0).

Lemma ConstantTimeEq_spec x y : - 2 ^ 31 <= x < 2 ^ 31 -> - 2 ^ 31 <= y < 2 ^ 31 ->
  ConstantTimeEq x y = if (x =? y) then 1 else 0.
Proof.
  intros Hx Hy. unfold ConstantTimeEq, uwrap64. assert (Z.lxor x y mod 2 ^ 32 = Z.lxor (x mod 2 ^ 32) (y mod 2 ^ 32)) as E.
  { rewrite <- !Z.land_ones by lia. apply Z.bits_inj'. intros i Hi. rewrite !Z.lxor_spec, !Z.land_spec, Z.lxor_spec.
    by destruct (Z.testbit x i), (Z.testbit y i), (Z.testbit (Z.ones 32) i). }
  pose proof (Z.mod_pos_bound (Z.lxor x y) (2 ^ 32) ltac:(lia)) as Hb. destruct (Z.eqb_spec x y) as [->|Hne].
  - rewrite E, Z.lxor_nilpotent. reflexivity.
  - assert (Z.lxor x y mod 2 ^ 32 <> 0) as Hnz.
    { rewrite E. intros H%Z.lxor_eq. apply Hne.
      assert ((x - y) mod 2 ^ 32 = 0) as H' by (rewrite Zminus_mod, H, Z.sub_diag; reflexivity).
      apply Z.mod_divide in H' as [k Hk]; lia. }
    rewrite Z.shiftr_div_pow2, Z.mod_small by lia. apply Z.div_small. lia.
Qed.

Lemma ConstantTimeSelect_1 x y : ConstantTimeSelect 1 x y = x.
Proof. unfold ConstantTimeSelect. change (1 - 1) with 0. rewrite Z.land_0_l, Z.lor_0_r. apply Z.land_m1_l. Qed.
Lemma ConstantTimeSelect_0 x y : ConstantTimeSelect 0 x y = y.
Proof. unfold ConstantTimeSelect. change (0 - 1) with (-1). change (Z.lnot (-1)) with 0. rewrite Z.land_0_l, Z.lor_0_l. apply Z.land_m1_l. Qed.

Lemma select_bytes_0 j w slot p : bytes slot -> (select_bytes 0 j w slot p).1 = slot.
Proof.
  revert p. induction slot as [|s slot IH]; intros p Hs; [done|]. inversion Hs as [|? ? Hb Hs']; subst. cbn [select_bytes].
  destruct (p <? zlen w); rewrite ConstantTimeSelect_0; specialize (IH (p + 1) Hs'); destruct (select_bytes 0 j w slot (p + 1)); cbn in *;
    rewrite IH, Z.mod_small by (unfold is_byte in Hb; lia); done.
Qed.

Lemma select_bytes_1 j w slot p : bytes w -> (select_bytes 1 j w slot (Z.of_nat p)).1 = fitted (drop p w) (length slot).
Proof.
  intros Hw. revert p. induction slot as [|s slot IH]; intros p; [done|]. cbn [select_bytes].
  replace (Z.of_nat p + 1) with (Z.of_nat (S p)) by lia. specialize (IH (S p)). unfold zlen. rewrite Nat2Z.id.
  destruct (Z.ltb_spec (Z.of_nat p) (Z.of_nat (length w))) as [Hlt|Hge]; rewrite ConstantTimeSelect_1;
    destruct (select_bytes 1 j w slot (Z.of_nat (S p))); cbn in IH |- *; rewrite IH; unfold fitted.
  - destruct (lookup_lt_is_Some_2 w p) as [x Hx]; [lia|]. rewrite (list_lookup_total_correct _ _ _ Hx).
    rewrite (drop_S _ _ _ Hx). cbn. rewrite Z.mod_small; [|by apply (Forall_lookup_1 _ _ _ _ Hw Hx)]. f_equal.
    change (0 :: replicate (length slot) 0) with (replicate (S (length slot)) 0). rewrite !take_app, !take_replicate. f_equal. f_equal. lia.
  - rewrite !drop_ge by lia. cbn. by rewrite !take_replicate.
Qed.

Lemma select_bytes_trace mask mask' j w slot slot' p : length slot = length slot' ->
  (select_bytes mask j w slot p).2 = (select_bytes mask' j w slot' p).2 /\
  length (select_bytes mask j w slot p).1 = length slot.
Proof.
  revert slot' p. induction slot as [|s slot IH]; intros [|s' slot'] p Hl; try done. cbn in Hl. cbn [select_bytes].
  destruct (IH slot' (p + 1)) as [H1 H2]; [lia|].
  destruct (p <? zlen w), (select_bytes mask j w slot (p + 1)), (select_bytes mask' j w slot' (p + 1)); cbn in *; subst; split; congruence.
Qed.

(** A list of byte strings no longer than an int32 can index. *)
Definition list_ok (words : wordList) : Prop :=
  0 <= wl_Len words <= 2 ^ 31 /\ forall j, 0 <= j < wl_Len words -> bytes (wl_At words j).

Lemma wrap32_range z : - 2 ^ 31 <= wrap32 z < 2 ^ 31.
Proof. unfold wrap32. pose proof (Z.mod_pos_bound (z + 2 ^ 31) (2 ^ 32)). lia. Qed.

Lemma bytes_fitted w n : bytes w -> bytes (fitted w n).
Proof.
  intros Hw. unfold fitted. apply Forall_take, Forall_app. split; [done|]. apply Forall_replicate. unfold is_byte. lia.
Qed.
Lemma length_fitted w n : length (fitted w n) = n.
Proof. unfold fitted. rewrite length_take, length_app, length_replicate. lia. Qed.

(** The entry asked for, if it is among those still to come. *)
Lemma select_from_run words idx js slot n :
  Forall (fun j => 0 <= j < 2 ^ 31 /\ bytes (wl_At words j)) js -> NoDup js -> bytes slot ->
  (select_from words idx js slot n).1 =
    if decide (wrap32 idx ∈ js) then (fitted (wl_At words (wrap32 idx)) (length slot), zlen (wl_At words (wrap32 idx))) else (slot, n).
Proof.
  intros Hj Hnd. revert slot n. induction js as [|j js IH]; intros slot n Hs; [by rewrite decide_False by set_solver|].
  inversion Hj as [|? ? [Hr Hb] Hj']; subst. apply NoDup_cons in Hnd as [Hnin Hnd]. cbn [select_from].
  rewrite (wrap32_id j) by (unfold MaxInt32; lia). rewrite ConstantTimeEq_spec by (pose proof (wrap32_range idx); lia).
  destruct (Z.eqb_spec j (wrap32 idx)) as [E|Hne].
  - pose proof (select_bytes_1 j (wl_At words j) slot 0 Hb) as H1. change (Z.of_nat 0) with 0 in H1. rewrite drop_0 in H1.
    destruct (select_bytes 1 j (wl_At words j) slot 0) as [slot1 t1]. cbn in H1. subst slot1. rewrite ConstantTimeSelect_1.
    specialize (IH Hj' Hnd (fitted (wl_At words j) (length slot)) (zlen (wl_At words j)) (bytes_fitted _ _ Hb)).
    destruct (select_from words idx js _ _) as [[slot2 n2] t2]. cbn [fst] in IH |- *. rewrite IH.
    rewrite decide_False by (by rewrite <- E). rewrite decide_True by (rewrite E; apply list_elem_of_here). by rewrite E.
  - pose proof (select_bytes_0 j (wl_At words j) slot 0 Hs) as H1.
    destruct (select_bytes 0 j (wl_At words j) slot 0) as [slot1 t1]. cbn in H1. subst slot1. rewrite ConstantTimeSelect_0.
    specialize (IH Hj' Hnd slot n Hs). destruct (select_from words idx js slot n) as [[slot2 n2] t2]. cbn [fst] in IH |- *. rewrite IH.
    destruct (decide (wrap32 idx ∈ js)) as [Hin|Hout]; [rewrite decide_True by set_solver|rewrite decide_False by set_solver]; done.
Qed.

(** The accesses of a call on a slot of [n] bytes. *)
Definition pattern (words : wordList) (n : nat) : list access := (selectWord (replicate n 0) words 0).2.

Lemma select_from_trace words idx idx' js slot slot' n n' : length slot = length slot' ->
  (select_from words idx js slot n).2 = (select_from words idx' js slot' n').2.
Proof.
  revert slot slot' n n'. induction js as [|j js IH]; intros slot slot' n n' Hl; [done|]. cbn [select_from].
  set (m1 := ConstantTimeEq _ (wrap32 idx)). set (m2 := ConstantTimeEq _ (wrap32 idx')). clearbody m1 m2.
  destruct (select_bytes_trace m1 m2 j (wl_At words j) slot slot' 0 Hl) as [Ht H1].
  destruct (select_bytes_trace m2 m1 j (wl_At words j) slot' slot 0 (eq_sym Hl)) as [_ H2].
  destruct (select_bytes m1 j (wl_At words j) slot 0) as [s1 t1], (select_bytes m2 j (wl_At words j) slot' 0) as [s2 t2]. cbn in Ht, H1, H2. subst t2.
  specialize (IH s1 s2 (ConstantTimeSelect m1 (zlen (wl_At words j)) n) (ConstantTimeSelect m2 (zlen (wl_At words j)) n') ltac:(congruence)).
  destruct (select_from words idx js s1 _) as [[? ?] ?], (select_from words idx' js s2 _) as [[? ?] ?]. cbn in IH |- *. by subst.
Qed.

Lemma select_from_reads words idx js slot n j :
  j ∈ js -> AtEntry j ∈ (select_from words idx js slot n).2 /\
    forall p, 0 <= p < zlen (wl_At words j) -> p < zlen slot -> AtWordByte j p ∈ (select_from words idx js slot n).2.
Proof.
  assert (Hbytes : forall mask w slot q p, 0 <= p -> q <= p < zlen w -> p < q + zlen slot -> AtWordByte j p ∈ (select_bytes mask j w slot q).2).
  { intros mask w sl. induction sl as [|s sl IH]; intros q p Hp Hq Hz; [unfold zlen in Hz; cbn in Hz; lia|]. cbn [select_bytes].
    rewrite zlen_cons in Hz. destruct (Z.ltb_spec q (zlen w)); [|lia]. specialize (IH (q + 1) p).
    destruct (select_bytes mask j w sl (q + 1)). cbn in IH |- *. destruct (decide (p = q)) as [->|]; [set_solver|].
    do 2 apply list_elem_of_further. apply IH; lia. }
  revert slot n. induction js as [|j' js IH]; intros slot n Hin; [set_solver|]. cbn [select_from].
  destruct (select_bytes_trace (ConstantTimeEq (wrap32 j') (wrap32 idx)) 0 j' (wl_At words j') slot slot 0 eq_refl) as [_ Hl].
  apply elem_of_cons in Hin as [<-|Hin].
  - specialize (Hbytes (ConstantTimeEq (wrap32 j) (wrap32 idx)) (wl_At words j) slot 0). destruct (select_bytes _ j (wl_At words j) slot 0) as [s1 t1].
    destruct (select_from words idx js s1 _) as [[? ?] ?]. cbn in Hbytes |- *. split; [set_solver|]. intros p Hp Hs.
    apply list_elem_of_further, elem_of_app. left. apply Hbytes; lia.
  - destruct (select_bytes _ j' (wl_At words j') slot 0) as [s1 t1]. cbn in Hl.
    specialize (IH s1 (ConstantTimeSelect (ConstantTimeEq (wrap32 j') (wrap32 idx)) (zlen (wl_At words j')) n) Hin).
    destruct (select_from words idx js s1 _) as [[? ?] tr]. cbn in IH |- *. unfold zlen in IH at 2. rewrite Hl in IH. destruct IH as [I1 I2].
    split; [set_solver|]. intros p Hp Hs. apply list_elem_of_further, elem_of_app. right. by apply I2.
Qed.

(** C30. The gather, for every index: one whose low 32 bits, as an int32, name an
    entry fills the slot with that entry, cut or padded with zeros, and
    returns its length; any other leaves the slot as it was and returns 0. The
    accesses are the same for every index and every content of the slot, and
    among them are every entry and every byte of it that the slot has room
    for. *)
Theorem select_word_exact slot words idx :
  list_ok words -> bytes slot ->
  let i := wrap32 idx in
  (selectWord slot words idx).1 =
    (if decide (0 <= i < wl_Len words) then (fitted (wl_At words i) (length slot), zlen (wl_At words i)) else (slot, 0)) /\
  (selectWord slot words idx).2 = pattern words (length slot) /\
  forall j, 0 <= j < wl_Len words -> AtEntry j ∈ pattern words (length slot) /\
    forall p, 0 <= p < zlen (wl_At words j) -> p < zlen slot -> AtWordByte j p ∈ pattern words (length slot).
Proof.
  intros [HL Hw] Hs i. split; [|split].
  - unfold selectWord. rewrite select_from_run; [|..|apply NoDup_seqZ|done].
    + subst i. destruct (decide (0 <= wrap32 idx < wl_Len words)) as [Hi|Hi];
        [rewrite decide_True by (apply elem_of_seqZ; lia)|rewrite decide_False by (rewrite elem_of_seqZ; lia)]; done.
    + apply Forall_forall. intros j Hj%elem_of_seqZ. split; [lia|]. apply Hw. lia.
  - apply select_from_trace. by rewrite length_replicate.
  - intros j Hj. destruct (select_from_reads words 0 (seqZ 0 (wl_Len words)) (replicate (length slot) 0) 0 j) as [H1 H2]; [apply elem_of_seqZ; lia|].
    split; [exact H1|]. intros p Hp Hz. apply H2; [done|]. unfold zlen in *. by rewrite length_replicate.
Qed.

(** ** The generator is exact *)

(** The words with a space before each of them but the first. *)
Fixpoint spaced (i : nat) (ws : list (list Z)) : list Z :=
  match ws with
  | [] => []
  | w :: ws => (if (0 <? i)%nat then [32] else []) ++ w ++ spaced (S i) ws
  end.

Section generated.
Variables (words : wordList) (draw : nat -> Z -> option (gerr + Z)).
Let count := wl_Len words.
Let maxLen := longest words count.

(** The [i]-th draw names an entry, or is refused with error [e]. *)
Definition drawn (i : nat) (idx : Z) : Prop := draw i count = Some (inr idx) /\ 0 <= idx < count.
Definition spoilt (i : nat) (e : gerr) : Prop :=
  draw i count = Some (inl e) \/
  e = Msg "internal error: draw returned an index out of range" /\
    exists idx, draw i count = Some (inr idx) /\ ~ (0 <= idx < count).

Lemma longest_bound j : 0 <= j < count -> zlen (wl_At words j) <= maxLen.
Proof.
  assert (H : forall js m, m <= foldl (fun m j => Z.max m (zlen (wl_At words j))) m js /\
    forall j, j ∈ js -> zlen (wl_At words j) <= foldl (fun m j => Z.max m (zlen (wl_At words j))) m js).
  { intros js. induction js as [|j' js IH]; intros m; cbn; [split; [lia|set_solver]|]. destruct (IH (Z.max m (zlen (wl_At words j')))) as [I1 I2].
    split; [lia|]. intros k [->|Hk]%elem_of_cons; [lia|by apply I2]. }
  intros Hj. apply H, elem_of_seqZ. lia.
Qed.
Lemma maxLen_nonneg : 0 <= maxLen.
Proof.
  unfold maxLen, longest. generalize (seqZ 0 count). assert (H : forall js m, 0 <= m -> 0 <= foldl (fun m j => Z.max m (zlen (wl_At words j))) m js).
  { intros js. induction js; cbn; [done|]. intros m Hm. apply IHjs. lia. }
  intros js. by apply H.
Qed.

(** One word into the slot at the position reached. *)
Lemma place_word dst pos w : 0 <= pos -> pos + maxLen <= zlen dst -> zlen w <= maxLen ->
  let dst' := lset pos (fitted w (Z.to_nat maxLen)) dst in
  zlen dst' = zlen dst /\ lsub 0 (pos + zlen w) dst' = lsub 0 pos dst ++ w.
Proof.
  intros Hp Hl Hw dst'. pose proof (zlen_nonneg w). split; [apply zlen_lset; unfold zlen in *; rewrite ?length_fitted; lia|].
  unfold dst', lset, lsub, fitted. rewrite !drop_0, !Z.sub_0_r. rewrite take_app, take_take, length_take. unfold zlen in *.
  rewrite Nat.min_r by lia. f_equal. rewrite (take_app_le (take (Z.to_nat maxLen) _)) by (rewrite length_take, length_app, length_replicate; lia).
  rewrite take_take, take_app_le by lia. apply take_ge. lia.
Qed.

Lemma place_space dst pos : 0 <= pos < zlen dst -> lsub 0 (pos + 1) (<[Z.to_nat pos := 32]> dst) = lsub 0 pos dst ++ [32].
Proof.
  intros Hp. unfold lsub. rewrite !drop_0, !Z.sub_0_r. unfold zlen in Hp. replace (Z.to_nat (pos + 1)) with (S (Z.to_nat pos)) by lia.
  rewrite (take_S_r _ _ 32) by (apply list_lookup_insert_eq; lia). by rewrite take_insert_ge.
Qed.

Lemma bytes_lset pos b dst : bytes b -> bytes dst -> bytes (lset pos b dst).
Proof. intros Hb Hd. unfold lset. apply Forall_app. split; [by apply Forall_take|]. apply Forall_app. split; [done|by apply Forall_drop]. Qed.

(** The words behind [pos] and before [pos'], and nothing before moved. *)
Definition written (i : nat) (idxs : list Z) dst pos dst' pos' : Prop :=
  let text := spaced i (wl_At words <$> idxs) in
  pos' = pos + zlen text /\ lsub 0 pos' dst' = lsub 0 pos dst ++ text.

Definition assembled_ok (k i : nat) (dst : list Z) (pos : Z) : Prop :=
  exists dst', zlen dst' = zlen dst /\
    ((exists idxs pos', length idxs = k /\ (forall j idx, idxs !! j = Some idx -> drawn (i + j) idx) /\
        assemble words draw count maxLen k i dst pos = Done None dst' pos' /\ pos' <= zlen dst /\ written i idxs dst pos dst' pos') \/
     (exists e j p, (i <= j < i + k)%nat /\ (forall j', (i <= j' < j)%nat -> exists idx, drawn j' idx) /\ spoilt j e /\
        assemble words draw count maxLen k i dst pos = Done (Some e) dst' p)).

Lemma assemble_run k i dst pos :
  list_ok words -> bytes dst -> 0 <= pos <= zlen dst ->
  (k <> 0%nat -> pos + Z.of_nat k * maxLen + (Z.of_nat k - if (i =? 0)%nat then 1 else 0) <= zlen dst) ->
  (forall j, (i <= j < i + k)%nat -> draw j count <> None) -> assembled_ok k i dst pos.
Proof.
  intros [HL Hw]. pose proof maxLen_nonneg as HM. revert i dst pos. induction k as [|k IH]; intros i dst pos Hd Hp Hroom Hdr.
  { exists dst. split; [done|]. left. exists [], pos. split; [done|]. split; [done|]. split; [done|]. split; [lia|].
    unfold written. cbn. rewrite app_nil_r. unfold zlen. cbn. split; [lia|done]. }
  specialize (Hroom ltac:(lia)). unfold assembled_ok. cbn [assemble].
  destruct (draw i count) as [[e|idx]|] eqn:E; [| |by destruct (Hdr i ltac:(lia))].
  { exists dst. split; [done|]. right. exists e, i, pos. split; [lia|]. split; [lia|]. split; [by left|done]. }
  destruct (decide (0 <= idx < count)) as [Hi|Hi].
  2:{ assert ((idx <? 0) || (count <=? idx) = true) as -> by (destruct (Z.ltb_spec idx 0), (Z.leb_spec count idx); lia || done).
      exists dst. split; [done|]. right. eexists _, i, pos. split; [lia|]. split; [lia|]. split; [|done].
      right. split; [done|by exists idx]. }
  assert ((idx <? 0) || (count <=? idx) = false) as -> by (destruct (Z.ltb_spec idx 0), (Z.leb_spec count idx); lia || done).
  set (dst1 := if (0 <? i)%nat then <[Z.to_nat pos := 32]> dst else dst).
  set (pos1 := if (0 <? i)%nat then pos + 1 else pos).
  assert (zlen dst1 = zlen dst /\ bytes dst1 /\ 0 <= pos1 /\ pos1 + maxLen <= zlen dst /\ ((0 <? i)%nat && (zlen dst <=? pos)) = false /\
    lsub 0 pos1 dst1 = lsub 0 pos dst ++ (if (0 <? i)%nat then [32] else []) /\ pos1 = pos + zlen (if (0 <? i)%nat then [32] else []) /\
    (k <> 0%nat -> pos1 + maxLen + Z.of_nat k * maxLen + Z.of_nat k <= zlen dst)) as (L1 & B1 & P1 & R1 & -> & T1 & E1 & K1).
  { unfold dst1, pos1. destruct i as [|i]; cbn [Nat.ltb Nat.leb Nat.eqb andb] in *.
    - rewrite app_nil_r. split_and!; try done; try nia. unfold zlen. cbn. lia.
    - split_and!; try nia.
      + unfold zlen. by rewrite length_insert.
      + apply Forall_insert; [done|unfold is_byte; lia].
      + apply place_space. nia.
      + unfold zlen. cbn. lia. }
  replace (if (0 <? i)%nat then (<[Z.to_nat pos:=32]> dst, pos + 1) else (dst, pos)) with (dst1, pos1) by (unfold dst1, pos1; by destruct i).
  cbv beta iota. rewrite L1. destruct (Z.ltb_spec (zlen dst) (pos1 + maxLen)) as [|_]; [lia|].
  destruct (select_word_exact (lsub pos1 (pos1 + maxLen) dst1) words idx ltac:(done)) as [Esel _]; [by apply Forall_take, Forall_drop|].
  rewrite (wrap32_id idx) in Esel by (unfold MaxInt32; fold count in HL; lia). rewrite decide_True in Esel by exact Hi.
  destruct (selectWord (lsub pos1 (pos1 + maxLen) dst1) words idx) as [[slot n] tr]. cbn in Esel. injection Esel as -> ->.
  assert (length (lsub pos1 (pos1 + maxLen) dst1) = Z.to_nat maxLen) as -> by (rewrite length_lsub by lia; f_equal; lia).
  set (w := wl_At words idx). pose proof (longest_bound idx Hi) as Hlw. fold w in Hlw. pose proof (zlen_nonneg w) as Hwn.
  destruct (place_word dst1 pos1 w P1 ltac:(lia) Hlw) as [L2 T2]. set (dst2 := lset pos1 _ dst1) in *.
  destruct (IH (S i) dst2 (pos1 + zlen w)) as (dst' & L' & Hres).
  - apply bytes_lset; [apply bytes_fitted, Hw, Hi|done].
  - lia.
  - intros Hk. cbn [Nat.eqb]. specialize (K1 Hk). lia.
  - intros j Hj. apply Hdr. lia.
  - exists dst'. split; [lia|]. destruct Hres as [(idxs & pos' & Hl & Hdn & Ea & Hle & Hpos & Ht)|(e & j & p & Hj & Hgd & Hsp & Ea)]; [left|right].
    2:{ exists e, j, p. split; [lia|]. split; [|by split]. intros j' Hj'. destruct (decide (j' = i)) as [->|]; [by exists idx|].
        apply Hgd. lia. }
    exists (idx :: idxs), pos'. split; [cbn; lia|]. split.
    { intros [|j] idx' Hj; [injection Hj as <-; rewrite Nat.add_0_r; by split|]. replace (i + S j)%nat with (S i + j)%nat by lia. by apply Hdn. }
    split; [exact Ea|]. split; [lia|]. unfold written. cbn [fmap list_fmap spaced]. fold w. rewrite !zlen_app. split; [lia|].
    rewrite Ht, T2, T1. by rewrite <- !app_assoc.
Qed.
End generated.

Lemma drawn_unique words draw idxs1 idxs2 : length idxs1 = length idxs2 ->
  (forall j idx, idxs1 !! j = Some idx -> drawn words draw j idx) -> (forall j idx, idxs2 !! j = Some idx -> drawn words draw j idx) ->
  idxs1 = idxs2.
Proof.
  intros Hl H1 H2. apply list_eq_same_length with (length idxs1); [done|done|]. intros j x y _ Hx Hy.
  destruct (H1 _ _ Hx) as [E1 _], (H2 _ _ Hy) as [E2 _]. congruence.
Qed.

Section generation.
Context `{K : Kernel} {KOk : KernelOk}.
Variables (words : wordList) (draw : nat -> Z -> option (gerr + Z)).
Implicit Types (w : world) (st : bufferState).
Let count := wl_Len words.
Let maxLen := longest words count.

(** The passphrase of a list of indexes. *)
Definition phrase (idxs : list Z) : list Z := spaced 0 (wl_At words <$> idxs).
Definition good_draws (n : Z) (idxs : list Z) : Prop :=
  length idxs = Z.to_nat n /\ forall j idx, idxs !! j = Some idx -> drawn words draw j idx.

(** The first draw that was refused, with its error. *)
Definition draw_failed (n : Z) (e : gerr) : Prop :=
  exists j, (j < Z.to_nat n)%nat /\ (forall j', (j' < j)%nat -> exists idx, drawn words draw j' idx) /\ spoilt words draw j e.

(** What the callback leaves in the slice. *)
Definition callback_done (n size : Z) (b : list Z) (e : option gerr) (b' : list Z) : Prop :=
  match e with
  | None => exists idxs, good_draws n idxs /\ zlen (phrase idxs) <= size /\ lsub 0 (zlen (phrase idxs)) b' = phrase idxs /\
      total_of words draw count maxLen n size = zlen (phrase idxs)
  | Some e => draw_failed n e
  end.

Lemma wp_assemble_callback n size st b :
  list_ok words -> 1 <= n -> size = n * maxLen + (n - 1) -> (forall j, (j < Z.to_nat n)%nat -> draw j count <> None) ->
  bs_readOnly st = false -> 0 <= size <= zlen b -> bytes (lsub 0 size b) ->
  slice_callback (assemble_callback words draw count maxLen n) st size b (callback_done n size b) (fun _ => False).
Proof.
  intros Hok Hn Hsz Hdr Hro Hb Hbytes w m Hm Hop <-. unfold assemble_callback. apply wp_bind.
  eapply wp_mem_load; [apply Hm|by apply Hop|]. pose proof (maxLen_nonneg words) as HM. fold count maxLen in HM.
  assert (forall dst, bytes dst -> zlen dst = size -> assembled_ok words draw (Z.to_nat n) 0 dst 0) as Hrun.
  { intros dst Hd Hl. apply assemble_run; [done|done|lia| |intros j Hj; apply Hdr; lia]. intros _. cbn [Nat.eqb]. fold count maxLen. nia. }
  destruct (Hrun (lsub 0 size (mp_bytes m)) Hbytes) as (dst & Hld & Hres); [rewrite zlen_lsub; lia|]. rewrite zlen_lsub in Hld by lia.
  fold count maxLen in Hres. unfold assembled_ok in Hrun. fold count maxLen in Hrun.
  destruct Hres as [(idxs & pos & Hl & Hdn & -> & Hle & Hpos & Ht)|(e & j & p & Hj & Hgd & Hsp & ->)]; apply wp_bind;
    (eapply wp_mem_copy_in; [apply Hm|by apply Hop|lia|]); apply wp_ret; cbn beta; eexists;
    (split; [split; [|reflexivity]; apply zlen_lset; lia|]);
    [|exists j; split; [lia|]; split; [intros j' Hj'; apply Hgd; lia|done]].
  cbn [callback_done]. exists idxs. rewrite zlen_lsub in Hle by lia. cbn in Hpos. fold (phrase idxs) in Ht, Hpos.
  change (lsub 0 0 (lsub 0 size (mp_bytes m))) with (@nil Z) in Ht. cbn [app] in Ht. subst pos.
  split; [by split|]. split; [lia|]. split.
  - rewrite <- Ht at 2. unfold lset, lsub. change (Z.to_nat 0) with 0%nat. rewrite take_0, !drop_0, !Z.sub_0_r, app_nil_l.
    apply take_app_le. unfold zlen in *. lia.
  - unfold total_of. destruct (Hrun (zeros size)) as (dst' & _ & [(idxs' & pos & Hl' & Hdn' & -> & _ & -> & _)|(e & j & p & Hj & _ & Hsp & _)]).
    + apply Forall_replicate. unfold is_byte. lia.
    + apply zlen_zeros. lia.
    + rewrite (drawn_unique words draw idxs' idxs); [reflexivity|congruence|exact Hdn'|exact Hdn].
    + destruct (lookup_lt_is_Some_2 idxs j) as [idx Hidx]; [lia|]. destruct (Hdn _ _ Hidx) as [E Hin]. cbn [Nat.add] in E. destruct Hsp as [E'|(_ & idx' & E' & Hout)]; [congruence|].
      assert (idx' = idx) as -> by congruence. done.
Qed.

(** ** The whole call *)

(** A new buffer that was written to, on the way to being destroyed. *)
Lemma returns_give_up w w1 w2 p st size b b' c cl (err : gerr) :
  made w p st size (bs_region st) b c cl w1 -> w_mem w !! rg_base (bs_region st) = None -> frame (ring_fp w) w w1 ->
  jn_nextKey (w_jan w1) <= jn_nextKey (w_jan w) + 2 -> key_room w 3 -> settled w1 p st size b' w2 ->
  returns (_ ← Destroy (Ref p); mret (@inl gerr SecureBuffer err)) w2 (fun r w' => r = inl err /\ world_ok w' /\ frame (ring_fp w) w w').
Proof.
  intros Mk Hm F1 Hk Hroom Hs. pose proof (made_settled _ _ _ _ _ _ _ _ _ _ Mk Hs) as Mk2. destruct Hs as (m & [D1 D2 D3 D4 D5 D6] & L & _).
  assert (frame (ring_fp w) w w2) as F2.
  { eapply (made_drop w w1); [exact Mk|done|by apply Mk|done|]. eapply frame_mono; [apply fp_sub_union_l|exact D3]. }
  unfold returns. apply wp_bind. eapply wp_returns; [apply (returns_Destroy p st false false); [done|exact D2|unfold key_room in *; lia]|].
  intros e w3 H3. apply wp_ret. split; [done|]. rewrite (mk_data _ _ _ _ _ _ _ _ _ Mk) in H3. destruct H3 as [G1 _ G3 _ _ _ _ _].
  split; [done|]. eapply (made_drop w w2); [exact Mk2|done|by apply Mk2|done|exact G3].
Qed.

(** The outcome of the generator. An error is that of the first draw refused;
    or, for a buffer closed at rest, of the refused call that was to open or to
    shut its pages, in the borrow or in the trimming; or of the constructor. *)
Definition generated (n : Z) (opts : list (option Option)) w (r : gerr + SecureBuffer) w' : Prop :=
  world_ok w' /\ frame (ring_fp w) w w' /\
  match r with
  | inr s => exists idxs p st b, good_draws n idxs /\ s = Ref p /\ w_bufs w !! p = None /\ buf_ok w' p st false false /\
      holds w' p st (zlen (phrase idxs)) b /\ lsub 0 (zlen (phrase idxs)) b = phrase idxs /\
      lsub (zlen (phrase idxs)) (n * maxLen + (n - 1)) b = zeros (n * maxLen + (n - 1) - zlen (phrase idxs))
  | inl err =>
      (exists e, err = errorf opDiceware e /\
         (draw_failed n e \/
          closedAtRestOpt (applyOptions opts) = true /\
            (pages_refused e \/
             exists idxs x, good_draws n idxs /\ e = errorf "secmem.SecureBuffer.Truncate" x /\ pages_refused x))) \/
      (exists e, NewEmptyBuffer (n * maxLen + (n - 1)) opts w = Ret (inl e) w' /\
         err = errorf "secmemcrypto: allocate passphrase buffer" e)
  end.

(** The borrow that assembles the words. *)
Lemma wp_assembling n w1 p st b0 c cl w :
  list_ok words -> 1 <= n -> (forall j, (j < Z.to_nat n)%nat -> draw j count <> None) ->
  let size := n * maxLen + (n - 1) in
  world_ok w1 -> made w p st size (bs_region st) b0 c cl w1 -> bytes (lsub 0 size b0) ->
  returns (WithBytesErr (Ref p) (Some (assemble_callback words draw count maxLen n))) w1 (fun e w2 =>
    exists b', settled w1 p st size b' w2 /\
      match e with
      | None => callback_done n size b0 None b'
      | Some e => draw_failed n e \/ cl = true /\ pages_refused e
      end).
Proof.
  intros Hok Hn Hdr size W1 Mk Hb. pose proof (mk_buf _ _ _ _ _ _ _ _ _ Mk) as B. pose proof (mk_data _ _ _ _ _ _ _ _ _ Mk) as Ed.
  assert (forall n' b, holds w1 p st n' b -> n' = size /\ b = b0) as Huniq.
  { intros n' b (En & m & L & <-). split; [congruence|]. destruct (mk_live _ _ _ _ _ _ _ _ _ Mk) as (m' & L' & <-).
    pose proof (md_at _ _ _ (bc_map _ _ _ _ (lv_core _ _ _ _ _ _ _ L))). pose proof (md_at _ _ _ (bc_map _ _ _ _ (lv_core _ _ _ _ _ _ _ L'))). congruence. }
  unfold returns. eapply wp_mono; [apply (wp_WithBytesErr_at p st false false _ (fun b => callback_done n size b) (fun _ _ => False)); [done|done|]|..]; cbn beta.
  - intros n' b Hh. destruct (Huniq _ _ Hh) as [-> ->]. apply wp_assemble_callback; try done; [by apply Mk|].
    destruct Hh as (_ & m & L & <-). rewrite (md_len _ _ _ (bc_map _ _ _ _ (lv_core _ _ _ _ _ _ _ L))). by apply (lv_len _ _ _ _ _ _ _ L).
  - intros e w2 H. assert (refusal st false = None) as Hr by (unfold refusal; by rewrite Ed, (mk_sealed _ _ _ _ _ _ _ _ _ Mk)).
    rewrite Hr in H. destruct H as (n' & b & Hh & H). destruct (Huniq _ _ Hh) as [-> ->]. pose proof (mk_closed _ _ _ _ _ _ _ _ _ Mk) as Hc.
    destruct H as [(e' & b' & ce & HP & Hs & (prot & prot' & _ & _ & Hend) & ->)|(e' & -> & (prot & prot' & _ & _ & Hop) & Hs)].
    + exists b'. split; [done|]. destruct e' as [e'|]; [left; exact HP|]. destruct ce as [ce|]; [right|exact HP].
      apply close_ended_refused in Hend as [Hcl Hend]. split; [congruence|done].
    + exists b0. split; [done|]. right. split; [|by eapply open_failed_refused]. destruct Hop. congruence.
  - intros w2 (? & ? & ? & ? & _ & [] & _).
Qed.

(** Trimming the assembled buffer to the passphrase. *)
Lemma returns_trimming n opts w w2 p st b c cl idxs :
  let size := n * maxLen + (n - 1) in
  made w p st size (bs_region st) b c cl w2 -> world_ok w2 -> w_mem w !! rg_base (bs_region st) = None -> frame (ring_fp w) w w2 ->
  jn_nextKey (w_jan w2) <= jn_nextKey (w_jan w) + 2 -> key_room w 3 -> (cl = true -> closedAtRestOpt (applyOptions opts) = true) ->
  good_draws n idxs -> zlen (phrase idxs) <= size -> lsub 0 (zlen (phrase idxs)) b = phrase idxs ->
  returns (err ← Truncate (Ref p) (zlen (phrase idxs));
           match err with
           | Some err => _ ← Destroy (Ref p); mret (inl (errorf opDiceware err))
           | None => mret (inr (Ref p))
           end) w2 (generated n opts w).
Proof.
  intros size Mk W2 Hm F2 K2 Hroom Hcl Hg Hle Ht. pose proof (zlen_nonneg (phrase idxs)) as Hp0. pose proof (mk_buf _ _ _ _ _ _ _ _ _ Mk) as B2.
  destruct (mk_live _ _ _ _ _ _ _ _ _ Mk) as (m2 & L2 & E2). unfold returns.
  apply wp_bind. eapply wp_returns; [by eapply returns_Truncate|]. intros e w3 H3. unfold exclusive_done in H3.
  rewrite (mk_data _ _ _ _ _ _ _ _ _ Mk) in H3. destruct H3 as (m & L & H3).
  assert (m = m2) as ->.
  { pose proof (md_at _ _ _ (bc_map _ _ _ _ (lv_core _ _ _ _ _ _ _ L))). pose proof (md_at _ _ _ (bc_map _ _ _ _ (lv_core _ _ _ _ _ _ _ L2))). congruence. }
  unfold truncate_done in H3. rewrite (mk_sealed _ _ _ _ _ _ _ _ _ Mk), (mk_mode _ _ _ _ _ _ _ _ _ Mk) in H3.
  destruct (Z.ltb_spec (zlen (phrase idxs)) 0); [lia|]. destruct (Z.ltb_spec size (zlen (phrase idxs))); [lia|]. cbn [orb] in H3. rewrite E2 in H3.
  destruct e as [e|].
  { destruct H3 as (Hc & H3 & x & Ex & Hx). assert (exists b3, settled w2 p st size b3 w3) as (b3 & Hs3) by (destruct H3; eauto).
    eapply wp_returns; [eapply (returns_give_up w w2); [exact Mk|exact Hm|exact F2|lia|exact Hroom|exact Hs3]|]. intros r w4 (-> & W4 & F4).
    split; [done|]. split; [done|]. left. exists e. split; [done|]. right. split; [|right; by exists idxs, x].
    apply Hcl. rewrite <- Hc. symmetry. apply (mk_closed _ _ _ _ _ _ _ _ _ Mk). }
  destruct H3 as (m3 & [D1' D2' D3' D4' D5' D6'] & L3 & E3). apply wp_ret. split; [exact D1'|]. split.
  { eapply (made_drop w w2); [exact Mk|done|by apply Mk|exact F2|]. eapply frame_mono; [apply fp_sub_union_l|exact D3']. }
  exists idxs, p, (bs_set_data (Some (zlen (phrase idxs))) (bs_region st) st), (truncated (zlen (phrase idxs)) size b).
  split; [exact Hg|]. split; [done|]. split; [apply Mk|]. split; [exact D2'|]. split; [split; [done|by exists m3]|].
  assert (size <= zlen b) as Hsz.
  { rewrite <- E2, (md_len _ _ _ (bc_map _ _ _ _ (lv_core _ _ _ _ _ _ _ L2))). apply (lv_len _ _ _ _ _ _ _ L2). }
  unfold truncated. split.
  - rewrite lsub_lset_disj by (rewrite ?zlen_zeros; lia). exact Ht.
  - fold size. replace size with (zlen (phrase idxs) + zlen (zeros (size - zlen (phrase idxs)))) at 1 by (rewrite zlen_zeros; lia).
    apply lsub_lset_same; rewrite ?zlen_zeros; lia.
Qed.

(** C34. The passphrase generator, on any word list and any draws that return,
    for every [n] whose buffer size fits an int. [n] below one and an empty list
    are refused and nothing happens. A buffer it returns is new, live and in
    the clear, and holds exactly the drawn words with single spaces between
    them, the rest of the room being zero; every draw was in range. An error
    names its cause: it wraps the error of the first draw that failed, or the
    internal error if that draw was out of range; or, only for a buffer closed
    at rest, the kernel's refusal to open or to shut its pages, in the borrow
    or, after draws that were all in range, in the trimming; or it is the error
    of [NewEmptyBuffer]. On every path nothing that existed before was touched. *)
Theorem diceware_exact n opts w :
  world_ok w -> key_room w 3 -> list_ok words -> n * maxLen + (n - 1) <= MaxInt ->
  (forall j, (j < Z.to_nat n)%nat -> draw j count <> None) ->
  returns (generateDiceware words draw opts n) w (fun r w' =>
    if (n <? 1) then r = inl (Msg "secmemcrypto: generate diceware passphrase: n must be >= 1") /\ w' = w
    else if (count =? 0) then r = inl (Msg "secmemcrypto: generate diceware passphrase: empty wordlist") /\ w' = w
    else generated n opts w r w').
Proof.
  intros W Hroom Hok Hmax Hdr. unfold returns, generateDiceware. destruct (Z.ltb_spec n 1) as [|Hn]; [by apply wp_ret|].
  fold count. destruct (count =? 0); [by apply wp_ret|]. cbv zeta. fold maxLen. pose proof (maxLen_nonneg words) as HM. fold count maxLen in HM.
  rewrite (wrap64_id (n * maxLen)) by (unfold MinInt, MaxInt in *; nia). rewrite wrap64_id by (unfold MinInt, MaxInt in *; nia).
  set (size := n * maxLen + (n - 1)) in *. apply wp_bind.
  eapply wp_returns; [apply returns_eq, wp_NewEmptyBuffer; [done|unfold key_room in *; lia|done]|]. intros r w1 [H1 E1]. cbn beta in H1.
  destruct (size <=? 0); [destruct H1 as [-> ->]; apply wp_ret; split; [done|]; split; [apply frame_refl|]; right; by eexists|].
  destruct H1 as (W1 & F1 & K1 & H1). destruct r as [e|s]; [apply wp_ret; split; [done|]; split; [done|]; right; by eexists|].
  destruct H1 as (p & st & b0 & cl & -> & Mk & Hm & Hcl & (Hz & _) & _).
  apply wp_bind. eapply wp_returns; [eapply (wp_assembling n w1 p st b0); try done|].
  { fold size. rewrite Hz. apply Forall_replicate. unfold is_byte. lia. }
  intros e w2 (b' & Hs & He). fold size in Hs, He.
  destruct e as [e|].
  { eapply wp_returns; [by eapply returns_give_up|]. intros r w3 (-> & W3 & F3). split; [done|]. split; [done|].
    left. exists e. split; [done|]. destruct He as [He|[-> He]]; [by left|right]. split; [by apply Hcl|by left]. }
  destruct He as (idxs & Hg & Hle & Ht & ->). pose proof (made_settled _ _ _ _ _ _ _ _ _ _ Mk Hs) as Mk2. destruct Hs as (m2 & [D1 D2 D3 D4 D5 D6] & _).
  eapply returns_trimming; [exact Mk2|exact D1|exact Hm| |lia|exact Hroom|exact Hcl|exact Hg|exact Hle|exact Ht].
  eapply (made_drop w w1); [exact Mk|done|by apply Mk|done|]. eapply frame_mono; [apply fp_sub_union_l|exact D3].
Qed.
End generation.

(** ** The draw is exact *)

(** An attempt is the value of the bytes read, as a big-endian number, modulo
    the power of two: every value below it has equally many byte strings. *)
Lemma candidate_mod x rest b : bytes (x :: rest) -> 1 <= b <= 8 ->
  be (<[0%nat := Z.land x ((2 ^ b - 1) mod 256)]> (x :: rest)) = be (x :: rest) mod 2 ^ (8 * zlen rest + b).
Proof.
  intros Hb Hr. inversion Hb as [|? ? Hx Hrest]; subst. cbn [insert list_insert]. rewrite !be_cons.
  assert (0 < 2 ^ b <= 2 ^ 8) as Hp by (split; [lia|apply Z.pow_le_mono_r; lia]). change (2 ^ 8) with 256 in Hp.
  rewrite (Z.mod_small (2 ^ b - 1)) by lia. replace (2 ^ b - 1) with (Z.ones b) by (rewrite Z.ones_equiv; lia). rewrite Z.land_ones by lia.
  pose proof (zlen_nonneg rest) as Hz. rewrite Z.pow_add_r, Z.pow_mul_r by lia. change (2 ^ 8) with 256.
  pose proof (be_bound rest Hrest) as Hbr. set (B := 256 ^ zlen rest) in *. symmetry.
  pose proof (Z.mod_pos_bound x (2 ^ b) ltac:(lia)). rewrite (Z.div_mod x (2 ^ b)) at 1 by lia.
  replace ((2 ^ b * (x / 2 ^ b) + x mod 2 ^ b) * B + be rest) with ((x mod 2 ^ b * B + be rest) + (x / 2 ^ b) * (B * 2 ^ b)) by ring.
  rewrite Z.mod_add by nia. apply Z.mod_small. nia.
Qed.

(** The bits of the largest value a draw may give. *)
Definition bits_below (bound : Z) : Z := Z.log2 (bound - 1) + 1.
Definition reads_ok (read : nat -> Z -> gerr + list Z) : Prop :=
  forall t k, 0 < k -> exists b, read t k = inr b /\ zlen b = k /\ bytes b.
Definition attempt (read : nat -> Z -> gerr + list Z) (bound : Z) (t : nat) : Z :=
  match read t ((bits_below bound + 7) / 8) with inr b => be b mod 2 ^ bits_below bound | inl _ => 0 end.

(** A draw is the first attempt below the bound, and as many reads are used;
    it returns as soon as there is one. *)
Lemma draw_first read bound fuel t j :
  reads_ok read -> 2 <= bound -> (j < fuel)%nat -> (forall i, (i < j)%nat -> bound <= attempt read bound (t + i)) ->
  attempt read bound (t + j) < bound ->
  drawWordIndex read fuel t bound = Some (inr (attempt read bound (t + j)), S (t + j)) /\ 0 <= attempt read bound (t + j).
Proof.
  intros Hread Hb Hj Hskip Hhit. unfold drawWordIndex, rand_Int. destruct (Z.eqb_spec (bound - 1) 0); [lia|]. fold (bits_below bound).
  pose proof (Z.log2_nonneg (bound - 1)) as Hl. assert (1 <= bits_below bound) as HL by (unfold bits_below; lia).
  destruct (Z.eqb_spec (bits_below bound) 0); [lia|]. set (k := (bits_below bound + 7) / 8). set (b := if bits_below bound mod 8 =? 0 then 8 else bits_below bound mod 8).
  assert (1 <= b <= 8 /\ 8 * (k - 1) + b = bits_below bound /\ 0 < k) as (Hb8 & Hbits & Hk).
  { unfold b, k. destruct (Z.eqb_spec (bits_below bound mod 8) 0); Z.div_mod_to_equations; lia. }
  assert (Hcand : forall t, exists bs, read t k = inr bs /\ be (<[0%nat := Z.land (bs !!! 0%nat) ((2 ^ b - 1) mod 256)]> bs) = attempt read bound t).
  { intros t'. destruct (Hread t' k Hk) as (bs & E & Hlen & Hbs). exists bs. split; [exact E|]. unfold attempt. fold k. rewrite E.
    destruct bs as [|x rest]; [unfold zlen in Hlen; cbn in Hlen; lia|]. rewrite zlen_cons in Hlen. change ((x :: rest) !!! 0%nat) with x.
    rewrite candidate_mod by done. f_equal. f_equal. lia. }
  split.
  2:{ unfold attempt. destruct (read _ _); [lia|]. apply Z.mod_pos_bound. apply Z.pow_pos_nonneg; lia. }
  clearbody b k. revert t fuel Hj Hskip Hhit. induction j as [|j IH]; intros t fuel Hj Hskip Hhit; (destruct fuel as [|fuel]; [lia|]); cbn [rand_attempts];
    destruct (Hcand t) as (bs & -> & ->).
  - rewrite Nat.add_0_r in *. by destruct (Z.ltb_spec (attempt read bound t) bound); [|lia].
  - destruct (Z.ltb_spec (attempt read bound t) bound) as [Hlt|_]; [specialize (Hskip 0%nat ltac:(lia)); rewrite Nat.add_0_r in Hskip; lia|].
    replace (t + S j)%nat with (S t + j)%nat in * by lia. apply IH; [lia| |done].
    intros i Hi. replace (S t + i)%nat with (t + S i)%nat by lia. apply Hskip. lia.
Qed.

(** ** A concrete list *)

#[local] Existing Instance windows_kernel.
#[local] Existing Instance windows_kernel_ok.

(** "11\tab", "12\tc" and "13\tdef" on three lines, one of them with a carriage
    return, and a line without a tab. *)
Definition sample_raw : list Z :=
  [49; 49; 9; 97; 98; 10; 49; 50; 9; 99; 13; 10; 10; 63; 10; 49; 51; 9; 100; 101; 102; 10].
Definition sample_words : wordList := stringWordList (effWords sample_raw).
Definition sample_draw (i : nat) (bound : Z) : option (gerr + Z) := Some (inr (2 - Z.of_nat i)).

Lemma sample_words_ok : list_ok sample_words.
Proof.
  split; [vm_compute; split; discriminate|]. intros j Hj. assert (j = 0 \/ j = 1 \/ j = 2) as [->|[->| ->]] by (change (wl_Len sample_words) with 3 in Hj; lia);
    vm_compute; repeat constructor; discriminate.
Qed.

Lemma select_word_exact_witness :
  (let i := wrap32 1 in
   (selectWord [7; 7; 7] sample_words 1).1 =
     (if decide (0 <= i < wl_Len sample_words) then (fitted (wl_At sample_words i) 3, zlen (wl_At sample_words i)) else ([7; 7; 7], 0)) /\
   (selectWord [7; 7; 7] sample_words 1).2 = pattern sample_words 3 /\
   forall j, 0 <= j < wl_Len sample_words -> AtEntry j ∈ pattern sample_words 3 /\
     forall p, 0 <= p < zlen (wl_At sample_words j) -> p < zlen [7; 7; 7] -> AtWordByte j p ∈ pattern sample_words 3) /\
  (selectWord [7; 7; 7] sample_words 1).1 = ([99; 0; 0], 1) /\
  (selectWord [7; 7; 7] sample_words 3).1 = ([7; 7; 7], 0) /\
  (selectWord [7; 7; 7] sample_words (2 ^ 32 + 1)).1 = ([99; 0; 0], 1).
Proof.
  split; [|split_and!; vm_compute; reflexivity].
  apply (select_word_exact [7; 7; 7] sample_words 1 sample_words_ok). repeat constructor; unfold is_byte; lia.
Defined.

Lemma diceware_exact_witness :
  returns (generateDiceware sample_words sample_draw [] 2) sample_start (fun r w' =>
    if (2 <? 1) then r = inl (Msg "secmemcrypto: generate diceware passphrase: n must be >= 1") /\ w' = sample_start
    else if (wl_Len sample_words =? 0) then r = inl (Msg "secmemcrypto: generate diceware passphrase: empty wordlist") /\ w' = sample_start
    else generated sample_words sample_draw 2 [] sample_start r w') /\
  generateDiceware sample_words sample_draw [] 2 sample_start = Ret (inr (Ref 4)) (run (generateDiceware sample_words sample_draw [] 2) sample_start) /\
  bs_data <$> w_bufs (run (generateDiceware sample_words sample_draw [] 2) sample_start) !! 4 = Some (Some 5) /\
  (lsub 0 7 ∘ mp_bytes) <$> w_mem (run (generateDiceware sample_words sample_draw [] 2) sample_start) !! 64 =
    Some ([100; 101; 102; 32; 99] ++ [0; 0]).
Proof.
  split; [|split_and!; vm_compute; reflexivity].
  apply (diceware_exact sample_words sample_draw 2 [] sample_start).
  - exact sample_start_ok.
  - vm_compute. reflexivity.
  - exact sample_words_ok.
  - vm_compute. discriminate.
  - intros j _. discriminate.
Defined.

(** The size of the buffer is not checked for overflow: with three-byte words
    this [n] asks for seven bytes, the third word does not fit, and the slice
    expression panics inside the borrow, with the buffer made and registered. *)
Lemma diceware_size_wraps : exists w',
  generateDiceware sample_words (fun _ _ => Some (inr 0)) [] (2 ^ 62 + 2) sample_start = Panic w' /\
  bs_data <$> w_bufs w' !! 4 = Some (Some 7).
Proof.
  unfold generateDiceware, assemble_callback.
  assert (exists k, Z.to_nat (2 ^ 62 + 2) = S (S (S k))) as [k ->].
  { exists (Z.to_nat (2 ^ 62 - 1)). rewrite <- !Z2Nat.inj_succ by lia. f_equal. }
  eexists. split; vm_compute; reflexivity.
Qed.
